(* ===== verification/_CoqProject ===== *)
-Q . S2P
Prelude.v
GoStrings.v
Effects.v
GoSort.v
Float64.v
Acl.v
Fsm.v
Topics.v
Base64.v
Decimal.v
GoNumbers.v
FloatRound.v
Codec.v
Properties.v
Packets.v
Json.v
Storage.v
Redis.v
Router.v
RouterLoop.v
Placement.v
Session.v
Auth.v
RedisSession.v
OfflineQueue.v
InflightStore.v
SessionRecords.v
OfflineLock.v
HookAcl.v
HookAuth.v
Fanout.v
RateLimit.v
Hooks.v
Publish.v
Retained.v
Registry.v
Membership.v
RedisFailover.v
Lifecycle.v
Rebalance.v
Connector.v
KafkaHono.v
Config.v
Keepalive.v
Dashboard.v
GoNet.v
Management.v
ClusterApi.v
Cli.v
Backup.v
LoadScore.v
LiveStats.v
Resume.v
Validator.v
HttpApi.v
OlricStore.v
Dataplane.v
Delivery.v
Backfill.v
Commander.v
Readiness.v
InventoryCache.v
Migrations.v
MessageAge.v
EdgeRefresh.v
Conformance.v
Startup.v
