(* ===== verification/Prelude.v ===== *)
(** A verification library for keel-mqtt-gateway, a clustered MQTT gateway in
    Go (paths below are under src/).

    * The program

    Devices connect to gateway nodes over MQTT or HTTP, which authenticate
    them, check their topic rights, route publishes to the nodes with
    subscribers, queue messages for offline sessions in Redis and hand them to
    output connectors. Core nodes replicate session ownership, roles, rulesets
    and revocations through a Raft log; routing is a table in a shared store
    that every node mirrors in a local cache; edge nodes write through the core
    nodes and read access rules and revocations through caches of their own.
    Nodes know each other by gossip. Operators use a management API, for which
    the binary is also the command-line client.

    * Files and what they model

    Shared ground
    - Prelude: tactics, hint databases and lemmas on lists, options and
      integers. Effects: handlers as trees of requests to the outside, their
      runs and traces.
    - GoStrings, GoSort, Base64, Decimal, Float64, GoNumbers, FloatRound, Json,
      GoNet: what the code uses of the Go standard library. Strings are byte
      strings; float64 is IEEE binary64; JSON is text with its parser and
      printer; flags, URLs and the patterns of ServeMux.

    Access control and replication
    - Acl (internal/cluster/acl): rules, roles, MatchTopic, SharedFilter,
      Evaluate and the built-in ruleset.
    - Fsm (internal/cluster/raft: fsm.go, command.go and the edge caches): the
      replicated state as the record [state], one definition per command of
      Apply, snapshots, the read helpers and the caches.
    - Registry (core_registry.go, remote_registry.go, edge_registry.go,
      rpc_server.go): the methods as programs of requests to Raft, the peers and
      the network, given meaning over the committed log.

    Routing
    - Topics (thirdparty/mochi-mqtt-server/topics.go): the subscription trie
      [particle] with Subscribe, Unsubscribe and both query modes.
    - Router (internal/cluster/routing/router.go): the cache, its events, its
      reconciliation and queries, over the class [ClusterStore]. RouterLoop: the
      goroutines around it as a transition system with the JSON of the events.
    - OlricStore (internal/cluster/store/olric.go): the deletion of several keys
      and the start-up of the store.
    - EdgeRefresh (cmd/server/main.go): the routing client of an edge node, its
      start and its replacement.
    - Fanout (hooks.go, offline_delivery_dispatch.go, internal/cluster/
      dataplane): the plan of a publish and the selection at the receiver.
      Dataplane (grpc_forwarder.go): how a message gets to another node.

    Sessions
    - Placement, Session (internal/session, offline_ownership.go, routing/
      reconciler.go): rendezvous hashing, offline sessions, their delivery, their
      owners as entries of the Router's store that others change meanwhile, both
      reconcilers.
      InventoryCache: the list of sessions shared by reference, over a heap.
    - Redis: the server and programs that talk to it while others do. Storage:
      the stored records. RedisSession (internal/broker/redis_session.go) has
      the operations; OfflineQueue, InflightStore, SessionRecords and OfflineLock
      their theorems.
    - Resume (hooks.go OnSessionEstablish with the server's takeover and
      resending): a session on a new connection.
    - Delivery (server.go publishToClient with packet numbers, quotas and topic
      aliases): one message to one client. Retained and Backfill (retained.go,
      hooks.go): retained messages, those of other nodes included, and the
      registration of devices.

    Devices
    - Auth, Validator (internal/auth): tokens, certificates, tenant settings,
      caches, the file provider and the queries of PostgreSQL.
    - HookAcl, HookAuth, Hooks, Publish (hooks.go, internal/forwarder): the
      handlers of the broker hook; in Hooks as programs whose requests to the
      store and critical sections interleave. RateLimit, Keepalive: limits.
    - HttpApi (internal/httpapi): the adapter for devices without MQTT.
    - Codec, Properties, Packets (thirdparty/mochi-mqtt-server/packets): the
      MQTT packets.
    - Connector, KafkaHono (internal/connector): the output buffer and its drain
      goroutine, and the connector behind it. Commander (internal/commander):
      commands to devices. MessageAge, LoadScore, LiveStats (internal/telemetry):
      what is measured.

    Operation
    - Membership, RedisFailover, Lifecycle, Rebalance (internal/cluster:
      membership, redisrouter, lifecycle): directory, failover, monitors and the
      rebalancing of connections.
    - Management, ClusterApi, Dashboard (internal/cluster/management,
      internal/livestatsapi): the API and its views. Cli, Backup (cmd/server/
      main.go, raft/node.go): the subcommands of the operator.
    - Config, Startup, Conformance, Readiness, Migrations (internal/config,
      cmd/server, internal/broker/broker.go, cert_reloader.go, internal/
      conformance, internal/db): from the environment to a serving node.

    State is passed explicitly where the code runs under a lock: a handler is a
    function from the state and its arguments to the new state and its result.
    Where goroutines or nodes interleave, the critical sections, channel
    operations and requests are the steps of a transition relation. A Go map is
    a gmap or gset; where the code ranges over a map the model takes the list of
    its entries, and theorems show that the order does not matter. A nil map,
    slice or pointer the code distinguishes is [None]; an error is [None],
    [false] or a constructor. Clock readings are arguments.

    Code outside the repository is an argument, a class with its documented
    behaviour as laws, or answers without constraint: the cluster store, Redis,
    PostgreSQL, Raft, gossip, gRPC, Kafka, bcrypt, SHA-256, uuid.Parse, the JWT
    parser and X.509 chain verification. Each class or record of laws has an
    instance, and each law on a run is met by a sample run.

    * What is proved

    - Access control (Acl, HookAcl, Fsm): deny overrides allow whatever the
      order and specificity; MatchTopic is the MQTT match; the built-in ruleset
      grants a device its own subtrees only.
    - Replication (Fsm, Registry): every log applies without panic and keeps the
      state well formed; the last claim owns a session; a claim that returns
      without error is in the log; revocations are permanent; snapshots
      round-trip; replicas and edge caches agree; reads fail closed.
    - Routing (Topics, Router, RouterLoop, OlricStore, EdgeRefresh): the trie
      refines a map from filters and clients to subscriptions; over tables whose
      shared filters have one spelling, every write keeps all caches equal to
      the store, a cache is always a scan with later events applied, and it
      converges when writes stop; a deletion of several keys is complete or an
      error; an edge node has one open client, never a closed one.
    - Delivery across nodes (Fanout, Dataplane, Hooks): one forward per target
      node, one node per share group, at most one send per forward, whose wait
      for the membership ends by its context; in every interleaving the routes
      of a node follow the subscriptions of its clients, but for filters on
      which a call failed or was overtaken, or that others changed.
    - Sessions (Session, OfflineQueue, InflightStore, SessionRecords, Resume,
      OfflineLock, InventoryCache): a handover never leaves a session without owner in the
      store, whatever others write; a message is
      queued atomically or not at all, whatever other nodes do; stored messages
      follow the schema, each step changing one field; ended sessions leave
      nothing; a session with subscriptions or messages resumes on any node with
      them; a subscriber gets the retained messages of its node and of the
      cluster; cached lists are isolated from what callers do to theirs.
    - Authentication (Auth, Validator, HookAuth, HttpApi): what each admitted
      device has shown, over MQTT and HTTP; caches admit nobody new.
    - Packets: what is written is read back, unchanged for plain packets and
      with the losses spelled out for others; reading ends and never panics.
    - Output (Publish, Connector, KafkaHono): every message is accounted for and
      the drain goroutine never stalls; quotas never affect delivery.
    - Operation: failover needs leadership, several voters and the failure
      window; lost nodes are purged; listings are exact; the webhook acts on
      authentic events only; an acl command makes the write it spells; a backup
      puts every file where the recovery of the library looks for it; Load
      accepts exactly the valid environments; a server that has started is the
      configured one; migrations run once and in
      order however nodes start; ages and scores are measured as meant.

    Theorems of kind error, and lemmas after the theorems of a file, exhibit
    defects: events undone by a reconciliation, calls of the hook that overtake
    one another, names that are not escaped in URLs, roles and ports that are
    not checked, timestamps that overflow.

    * Bounds

    Fuel is the length of the input plus a constant where the recursion is not
    structural (trie walks, the JSON parser with twice the length plus two,
    durations, URLs), and is proved sufficient or cannot run out because each
    step consumes a byte. Loops of the code that are bounded there keep their
    bounds: 32 attempts to queue a message, 2 to follow a schema change, 65535
    packet identifiers, 3 provisioning and 3 forwarding attempts, 32 concurrent deletes, 30 starts of an edge client, 3
    failed reconciliations before it is replaced, bodies of at most 2^20 bytes.
    The wait for a peer's address is unrolled for any number of rounds, and no
    run is left waiting after 120: the context of three seconds has ended.
    Delegated calls of the registry are nested to any depth. 64-bit words have
    their wrap-around written out; smaller integers are N or Z below a bound.

    * What is not modelled

    The MQTT engine of the vendored broker apart from the parts named above,
    and generated gRPC code. Sockets: the PROXY protocol listener and TLS. The
    set-up of libraries: the construction of the Raft node, of producers and
    consumers, of the tracing provider, and the declaration of metrics. The
    shutdown sequence and goroutines that only repeat a modelled pass. Logs.
    The load generator in cmd/devicesim, which is a test tool. *)

From Stdlib Require Export Ascii.
From stdpp Require Export base list strings gmap.

(** ** Hint databases

    [gostr] rewrites the byte-string primitives, [gomap] resolves the routine
    side conditions on finite maps and sets. *)
Create Rewrite HintDb gostr.
Create Rewrite HintDb gomap.

(** ** Tactics *)

(** Turn the boolean tests of the code into the propositions they decide. *)
Ltac breflect :=
  repeat match goal with
  | H : Ascii.eqb _ _ = true |- _ => apply Ascii.eqb_eq in H
  | H : Ascii.eqb _ _ = false |- _ => apply Ascii.eqb_neq in H
  | H : String.eqb _ _ = true |- _ => apply String.eqb_eq in H
  | H : String.eqb _ _ = false |- _ => apply String.eqb_neq in H
  | H : _ && _ = true |- _ => apply andb_true_iff in H; destruct H
  | H : _ || _ = false |- _ => apply orb_false_iff in H; destruct H
  | H : negb _ = true |- _ => apply negb_true_iff in H
  | H : negb _ = false |- _ => apply negb_false_iff in H
  | H : bool_decide _ = true |- _ => apply bool_decide_eq_true in H
  | H : bool_decide _ = false |- _ => apply bool_decide_eq_false in H
  end.

(** Case analysis on the scrutinee of the first [match] or [if] of the goal
    or of a hypothesis, remembering the equation. *)
Ltac case_goal :=
  match goal with
  | |- context [match ?x with _ => _ end] =>
      lazymatch x with context [match _ with _ => _ end] => fail | _ => destruct x eqn:? end
  end.

Ltac case_hyp H :=
  match type of H with
  | context [match ?x with _ => _ end] =>
      lazymatch x with context [match _ with _ => _ end] => fail | _ => destruct x eqn:? end
  end.

(** ** Record update

    [remake r] rebuilds [r] from its fields. A field is updated by abstracting
    its projection in [remake], so one instance of [Remake] per record gives the
    notation [r <| field := v |>] for all its fields. *)
Class Remake (R : Type) := { remake : R → R }.
Class FieldUpdate {R E : Type} (f : R → E) := { field_update : (E → E) → R → R }.

Ltac derive_update :=
  match goal with
  | |- @FieldUpdate ?R ?E ?f =>
      let body := eval hnf in (remake (R:=R)) in
      let abs := eval pattern f in body in
      match abs with
      | ?g _ =>
          let upd := eval cbv beta in (λ (h : E → E) (r : R), g (λ r, h (f r)) r) in
          exact {| field_update := upd |}
      end
  end.
#[export] Hint Extern 0 (FieldUpdate _) => derive_update : typeclass_instances.

Notation "r <| f := v |>" := (field_update (f:=f) (λ _, v) r)
  (at level 1, left associativity, f at level 1, format "r  <| f  :=  v |>").

(** ** Generic lemmas *)

Lemma is_Some_bool {A} (o : option A) :
  (match o with Some _ => true | None => false end) = true ↔ is_Some o.
Proof. destruct o; split; intros H; eauto; by inversion H. Qed.

Lemma existsb_exists' {A} (f : A → bool) (l : list A) :
  existsb f l = true ↔ ∃ x, x ∈ l ∧ f x = true.
Proof.
  rewrite existsb_exists. split; intros (x & Hin & Hf); exists x; split; auto;
    by apply list_elem_of_In.
Qed.

Lemma fold_left_app_snoc {A B} (f : A → B → A) (l : list B) x a :
  fold_left f (l ++ [x]) a = f (fold_left f l a) x.
Proof. by rewrite fold_left_app. Qed.

(** A loop that appends [g x] for each element builds the concatenation. *)
Lemma fold_left_collect {A B} (g : A → list B) (step : list B → A → list B) l acc :
  (∀ acc x, step acc x = acc ++ g x) → fold_left step l acc = acc ++ (l ≫= g).
Proof.
  intros Hs. revert acc. induction l as [|x l IH]; intros acc; simpl; [by rewrite app_nil_r|].
  by rewrite IH, Hs, app_assoc.
Qed.

(** A loop that inserts the pairs of a list into a map. *)
Lemma fold_left_insert {A} (l : list (string * A)) (m : gmap string A) :
  NoDup l.*1 → fold_left (λ acc '(k, v), <[k := v]> acc) l m = list_to_map l ∪ m.
Proof.
  revert m. induction l as [|[k v] l IH]; intros m Hnd; simpl.
  - by rewrite (left_id_L ∅ (∪)).
  - apply NoDup_cons in Hnd as [Hk Hnd]. rewrite IH by done.
    rewrite <-insert_union_r, insert_union_l; [done|].
    by apply not_elem_of_list_to_map_1.
Qed.

(** Collecting [f x] for the elements that pass a test. *)
Lemma list_bind_filter {A B} (p : A → bool) (f : A → B) l :
  (l ≫= λ x, if p x then [f x] else []) = f <$> List.filter p l.
Proof.
  induction l as [|x l IH]; [done|]. rewrite bind_cons, IH. cbn [List.filter].
  by destruct (p x).
Qed.

(** A number is below the power of two of its binary digits. *)
Lemma pos_size_nat p : (N.pos p < 2 ^ N.of_nat (Pos.size_nat p))%N.
Proof.
  induction p as [p IH|p IH|]; [| |done]; cbn [Pos.size_nat]; rewrite Nat2N.inj_succ, N.pow_succ_r'; lia.
Qed.

Lemma size_nat_lt n : (n < 2 ^ N.of_nat (S (N.size_nat n)))%N.
Proof.
  destruct n as [|p]; [done|]. rewrite Nat2N.inj_succ, N.pow_succ_r'. pose proof (pos_size_nat p). simpl N.size_nat. lia.
Qed.
