(* ===== verification/GoStrings.v ===== *)
(** Byte-string model of the parts of Go's [strings] package the gateway
    uses: [strings.Split], [strings.SplitN], [strings.Join] on a one-byte
    separator, [strings.ReplaceAll] of a two-byte placeholder,
    [strings.HasPrefix], [strings.TrimPrefix], [strings.IndexByte],
    [strings.LastIndex] of a one-byte separator, [strings.ContainsRune] for an
    ASCII rune, byte-wise [<] on strings, and [strings.EqualFold] against an
    ASCII pattern.  A Go string is a sequence of bytes, here [string]; the
    lemmas are the ones the topic, key and routing components share. *)



From S2P Require Import Prelude.

(** ** Definitions *)

(** [strings.IndexByte(s, b) >= 0], also [strings.ContainsRune] for an ASCII
    rune: no multi-byte UTF-8 sequence contains an ASCII byte. *)
Fixpoint contains_byte (b : ascii) (s : string) : bool :=
  match s with
  | EmptyString => false
  | String c s' => Ascii.eqb c b || contains_byte b s'
  end.

(** The text before and after the first occurrence of [b]
    ([strings.IndexByte] and the two slices around it). *)
Fixpoint cut (b : ascii) (s : string) : option (string * string) :=
  match s with
  | EmptyString => None
  | String c s' =>
      if Ascii.eqb c b then Some ("", s')
      else match cut b s' with
           | Some (l, r) => Some (String c l, r)
           | None => None
           end
  end.

(** The text before and after the last occurrence of [b]
    ([strings.LastIndex] and the two slices around it). *)
Fixpoint cut_last (b : ascii) (s : string) : option (string * string) :=
  match s with
  | EmptyString => None
  | String c s' =>
      match cut_last b s' with
      | Some (l, r) => Some (String c l, r)
      | None => if Ascii.eqb c b then Some ("", s') else None
      end
  end.

(** [strings.Split(s, string(b))]. *)
Fixpoint split (b : ascii) (s : string) : list string :=
  match s with
  | EmptyString => [""]
  | String c s' =>
      if Ascii.eqb c b then "" :: split b s'
      else match split b s' with
           | x :: xs => String c x :: xs
           | [] => [String c ""]
           end
  end.

(** [strings.SplitN(s, string(b), n)] for [n >= 0]. *)
Fixpoint splitN (b : ascii) (s : string) (n : nat) : list string :=
  match n with
  | O => []
  | S n' =>
      match n' with
      | O => [s]
      | S _ => match cut b s with
               | Some (l, r) => l :: splitN b r n'
               | None => [s]
               end
      end
  end.

(** [strings.Join(parts, string(b))]. *)
Fixpoint join (b : ascii) (parts : list string) : string :=
  match parts with
  | [] => ""
  | [x] => x
  | x :: rest => x +:+ String b (join b rest)
  end.

(** [strings.ReplaceAll(s, string(a)+string(b), new)]: leftmost,
    non-overlapping replacement of a two-byte pattern. *)
Fixpoint replace2 (a b : ascii) (new s : string) : string :=
  match s with
  | EmptyString => ""
  | String x t =>
      match t with
      | EmptyString => s
      | String y u =>
          if Ascii.eqb x a && Ascii.eqb y b then new +:+ replace2 a b new u
          else String x (replace2 a b new t)
      end
  end.

(** [strings.HasPrefix(s, p)]. *)
Fixpoint has_prefix (p s : string) : bool :=
  match p, s with
  | EmptyString, _ => true
  | String a p', String c s' => Ascii.eqb a c && has_prefix p' s'
  | String _ _, EmptyString => false
  end.

(** [s[n:]], for [n <= len(s)]. *)
Fixpoint drop_bytes (n : nat) (s : string) : string :=
  match n, s with
  | O, _ => s
  | S n', String _ s' => drop_bytes n' s'
  | S _, EmptyString => ""
  end.

(** [s[:n]], for [n <= len(s)]. *)
Fixpoint take_bytes (n : nat) (s : string) : string :=
  match n, s with
  | O, _ => ""
  | S n', String c s' => String c (take_bytes n' s')
  | S _, EmptyString => ""
  end.

(** [strings.TrimPrefix(s, p)]. *)
Definition trim_prefix (p s : string) : string :=
  if has_prefix p s then drop_bytes (String.length p) s else s.

(** Byte-wise [a < b] on Go strings. *)
Fixpoint ltb (a b : string) : bool :=
  match a, b with
  | EmptyString, EmptyString => false
  | EmptyString, String _ _ => true
  | String _ _, EmptyString => false
  | String x a', String y b' =>
      if Ascii.eqb x y then ltb a' b'
      else (N_of_ascii x <? N_of_ascii y)%N
  end.

(** ASCII lower-casing of one byte. *)
Definition lower_byte (c : ascii) : ascii :=
  let n := N_of_ascii c in
  if ((65 <=? n) && (n <=? 90))%N then ascii_of_N (n + 32) else c.

(** The UTF-8 bytes of the two non-ASCII runes that Unicode simple folding
    maps to ASCII letters: U+017F (long s) and U+212A (Kelvin sign). *)
Definition byte_C5 : ascii := ascii_of_N 197.
Definition byte_BF : ascii := ascii_of_N 191.
Definition byte_E2 : ascii := ascii_of_N 226.
Definition byte_84 : ascii := ascii_of_N 132.
Definition byte_AA : ascii := ascii_of_N 170.

(** [strings.EqualFold(s, t)] for a pattern [t] of ASCII bytes: each rune of
    [s] must fold to the corresponding byte of [t].  Besides the other case of
    a letter, the long s folds to [s] and the Kelvin sign folds to [k]. *)
Fixpoint equal_fold (s t : string) : bool :=
  match t with
  | EmptyString => match s with EmptyString => true | _ => false end
  | String b t' =>
      match s with
      | EmptyString => false
      | String c s' =>
          if Ascii.eqb (lower_byte c) (lower_byte b) then equal_fold s' t'
          else if Ascii.eqb c byte_C5 && Ascii.eqb (lower_byte b) "s" then
            match s' with
            | String d s'' => Ascii.eqb d byte_BF && equal_fold s'' t'
            | EmptyString => false
            end
          else if Ascii.eqb c byte_E2 && Ascii.eqb (lower_byte b) "k" then
            match s' with
            | String d (String e s'') =>
                Ascii.eqb d byte_84 && Ascii.eqb e byte_AA && equal_fold s'' t'
            | _ => false
            end
          else false
      end
  end.

(** [strings.TrimSpace(s)]: the encodings of the runes that unicode.IsSpace accepts
    are cut off at both ends. A rune is decoded backwards from its last byte, so the end
    of [s] is treated like the beginning, with bytes and encodings reversed. *)
Definition bytes (l : list N) : string := foldr (λ n s, String (ascii_of_N n) s) "" l.

Definition spaces : list string :=
  map (λ n, bytes [n]) [9; 10; 11; 12; 13; 32]%N ++ map bytes [[194; 133]; [194; 160]; [225; 154; 128]]%N ++
  map (λ n, bytes [226; 128; n]%N) [128; 129; 130; 131; 132; 133; 134; 135; 136; 137; 138; 168; 169; 175]%N ++
  map bytes [[226; 129; 159]; [227; 128; 128]]%N.

Fixpoint reverse (s acc : string) : string :=
  match s with EmptyString => acc | String c s => reverse s (String c acc) end.

Fixpoint trim_left (cutset : list string) (fuel : nat) (s : string) : string :=
  match fuel with
  | O => s
  | S fuel =>
      match find (λ p, has_prefix p s) cutset with
      | Some p => trim_left cutset fuel (drop_bytes (String.length p) s)
      | None => s
      end
  end.

Definition TrimSpace (s : string) : string :=
  let s := trim_left spaces (String.length s) s in
  reverse (trim_left (map (λ p, reverse p "") spaces) (String.length s) (reverse s "")) "".

(** ** Lemmas *)

Lemma string_app_assoc (a b c : string) : a +:+ (b +:+ c) = (a +:+ b) +:+ c.
Proof. induction a; [done|]. change (String a (a0 +:+ (b +:+ c)) = String a ((a0 +:+ b) +:+ c)). by rewrite IHa. Qed.

Lemma string_app_cons c (a b : string) : String c a +:+ b = String c (a +:+ b).
Proof. done. Qed.

Lemma string_app_nil_l (a : string) : "" +:+ a = a.
Proof. done. Qed.

Lemma string_app_nil_r (a : string) : a +:+ "" = a.
Proof. induction a; [done|]. by rewrite string_app_cons, IHa. Qed.

#[export] Hint Rewrite string_app_cons string_app_nil_l string_app_nil_r : gostr.

Lemma string_length_app (a b : string) :
  String.length (a +:+ b) = String.length a + String.length b.
Proof. induction a; [done|]. rewrite string_app_cons. simpl. by rewrite IHa. Qed.

Lemma contains_byte_app b (s t : string) :
  contains_byte b (s +:+ t) = contains_byte b s || contains_byte b t.
Proof. induction s; [done|]. rewrite string_app_cons. simpl. by rewrite IHs, orb_assoc. Qed.

(** [cut] finds the first separator. *)
Lemma cut_Some b s l r :
  cut b s = Some (l, r) ↔ s = l +:+ String b r ∧ contains_byte b l = false.
Proof.
  revert l r. induction s as [|c s IH]; intros l r; simpl.
  - split; [done|]. intros [H _]. by destruct l.
  - destruct (Ascii.eqb c b) eqn:E; breflect.
    + subst. split.
      * intros [= <- <-]. done.
      * intros [H1 H2]. destruct l as [|c' l]; [by injection H1 as ->|].
        rewrite string_app_cons in H1. injection H1 as -> ->. simpl in H2.
        by rewrite Ascii.eqb_refl in H2.
    + destruct (cut b s) as [[l' r']|] eqn:Hc.
      * destruct (IH l' r') as [HI _]. destruct (HI eq_refl) as [-> Hn]. split.
        -- intros [= <- <-]. simpl. split; [done|].
           by rewrite (proj2 (Ascii.eqb_neq _ _) E).
        -- intros [H1 H2]. destruct l as [|c' l]; [injection H1 as ->; done|].
           rewrite string_app_cons in H1. injection H1 as -> H1. simpl in H2. breflect.
           destruct (IH l r) as [_ HI2].
           assert (Some (l', r') = Some (l, r)) as [= -> ->] by (apply HI2; auto).
           done.
      * split; [done|]. intros [H1 H2]. destruct l as [|c' l]; [injection H1 as ->; done|].
        rewrite string_app_cons in H1. injection H1 as -> H1. simpl in H2. breflect.
        destruct (IH l r) as [_ HI2]. discriminate (HI2 (conj H1 H0)).
Qed.

Lemma cut_None b s : cut b s = None ↔ contains_byte b s = false.
Proof.
  induction s as [|c s IH]; simpl; [done|].
  destruct (Ascii.eqb c b); simpl; [done|].
  rewrite <-IH. destruct (cut b s) as [[??]|]; done.
Qed.

Lemma cut_app b l r : contains_byte b l = false → cut b (l +:+ String b r) = Some (l, r).
Proof. intros. by apply cut_Some. Qed.

(** [cut_last] finds the last separator. *)
Lemma cut_last_None b s : cut_last b s = None ↔ contains_byte b s = false.
Proof.
  induction s as [|c s IH]; simpl; [done|].
  destruct (cut_last b s) as [[??]|] eqn:E.
  - split; [done|]. intros H. breflect. discriminate (proj2 IH H0).
  - rewrite (proj1 IH eq_refl), orb_false_r. destruct (Ascii.eqb c b); split; done.
Qed.

Lemma cut_last_app b l r :
  contains_byte b r = false → cut_last b (l +:+ String b r) = Some (l, r).
Proof.
  intros Hr. induction l as [|c l IH].
  - rewrite string_app_nil_l. simpl.
    by rewrite (proj2 (cut_last_None b r) Hr), Ascii.eqb_refl.
  - rewrite string_app_cons. simpl. by rewrite IH.
Qed.

Lemma cut_last_Some b s l r :
  cut_last b s = Some (l, r) ↔ s = l +:+ String b r ∧ contains_byte b r = false.
Proof.
  split; [|intros [-> H]; by apply cut_last_app].
  revert l r. induction s as [|c s IH]; intros l r H; simpl in H; [done|].
  destruct (cut_last b s) as [[l' r']|] eqn:E.
  - injection H as <- <-. destruct (IH _ _ eq_refl) as [-> Hn]. done.
  - destruct (Ascii.eqb c b) eqn:Ec; [|done]. injection H as <- <-. breflect. subst.
    split; [done|]. by apply cut_last_None.
Qed.

(** [split] and [join] are inverse. *)
Lemma split_not_nil b s : split b s ≠ [].
Proof.
  destruct s as [|c s]; simpl; [done|].
  destruct (Ascii.eqb c b); [done|]. by destruct (split b s).
Qed.

Lemma split_cons_inv b s : ∃ x xs, split b s = x :: xs.
Proof. pose proof (split_not_nil b s). destruct (split b s); eauto; done. Qed.

Lemma join_cons b x y ys : join b (x :: y :: ys) = x +:+ String b (join b (y :: ys)).
Proof. done. Qed.

Lemma join_split b s : join b (split b s) = s.
Proof.
  induction s as [|c s IH]; [done|]. simpl.
  destruct (split_cons_inv b s) as (x & xs & Hs). rewrite Hs in *.
  destruct (Ascii.eqb c b) eqn:E; breflect.
  - subst c. rewrite join_cons, IH. done.
  - destruct xs as [|y ys]; [simpl in *; by rewrite IH|].
    rewrite join_cons in IH. rewrite join_cons, string_app_cons, IH. done.
Qed.

Lemma split_inj b s t : split b s = split b t → s = t.
Proof. intros H. rewrite <-(join_split b s), H. apply join_split. Qed.

Lemma split_no_sep b s : contains_byte b s = false → split b s = [s].
Proof.
  induction s as [|c s IH]; [done|]. simpl. intros [H H0]%orb_false_iff.
  by rewrite H, IH.
Qed.

Lemma split_app_sep b l r :
  contains_byte b l = false → split b (l +:+ String b r) = l :: split b r.
Proof.
  induction l as [|c l IH]; intros H.
  - rewrite string_app_nil_l. simpl. by rewrite Ascii.eqb_refl.
  - rewrite string_app_cons. simpl in *. apply orb_false_iff in H as [H H0]. rewrite H, IH; auto.
Qed.

Lemma split_parts_no_sep b s : Forall (λ p, contains_byte b p = false) (split b s).
Proof.
  induction s as [|c s IH]; simpl; [by repeat constructor|].
  destruct (Ascii.eqb c b) eqn:E; [by constructor|].
  destruct (split_cons_inv b s) as (x & xs & Hs). rewrite Hs in *.
  inversion IH; subst. constructor; [|done]. simpl. by rewrite E.
Qed.

Lemma split_join b parts :
  parts ≠ [] → Forall (λ p, contains_byte b p = false) parts →
  split b (join b parts) = parts.
Proof.
  intros Hne HF. induction HF as [|x xs Hx HF IH]; [done|].
  destruct xs as [|y ys]; [by apply split_no_sep|].
  rewrite join_cons, split_app_sep by done. by rewrite IH.
Qed.

(** Prefixes. *)
Lemma has_prefix_app p s : has_prefix p (p +:+ s) = true.
Proof. induction p; [done|]. rewrite string_app_cons. simpl. by rewrite Ascii.eqb_refl. Qed.

Lemma has_prefix_true p s : has_prefix p s = true ↔ ∃ r, s = p +:+ r.
Proof.
  split; [|intros [r ->]; apply has_prefix_app].
  revert s. induction p as [|a p IH]; intros s H; [by exists s|].
  destruct s as [|c s]; simpl in H; [done|]. breflect. subst.
  destruct (IH _ H0) as [r ->]. by exists r.
Qed.

Lemma drop_bytes_app p s : drop_bytes (String.length p) (p +:+ s) = s.
Proof. induction p; [done|]. by rewrite string_app_cons. Qed.

Lemma take_bytes_app p s : take_bytes (String.length p) (p +:+ s) = p.
Proof. induction p; [by destruct s|]. rewrite string_app_cons. simpl. by rewrite IHp. Qed.

Lemma trim_prefix_app p s : trim_prefix p (p +:+ s) = s.
Proof. unfold trim_prefix. by rewrite has_prefix_app, drop_bytes_app. Qed.

#[export] Hint Rewrite has_prefix_app drop_bytes_app take_bytes_app trim_prefix_app : gostr.

Lemma string_app_inj_l (p s t : string) : p +:+ s = p +:+ t → s = t.
Proof. induction p; [done|]. rewrite !string_app_cons. intros [= H]. auto. Qed.

(** Byte-wise order. *)
Lemma ltb_irrefl s : ltb s s = false.
Proof. induction s; simpl; [done|]. by rewrite Ascii.eqb_refl. Qed.

Lemma N_of_ascii_inj a b : N_of_ascii a = N_of_ascii b → a = b.
Proof. intros H. by rewrite <-(ascii_N_embedding a), H, ascii_N_embedding. Qed.

Lemma ltb_trans a b c : ltb a b = true → ltb b c = true → ltb a c = true.
Proof.
  revert b c. induction a as [|x a IH]; intros [|y b] [|z c]; simpl; try done.
  destruct (Ascii.eqb_spec x y) as [->|Hxy], (Ascii.eqb_spec y z) as [->|Hyz]; eauto.
  - intros H _. destruct (Ascii.eqb_spec x z); [congruence|done].
  - rewrite !N.ltb_lt. intros H1 H2.
    destruct (Ascii.eqb_spec x z) as [->|]; [lia|]. apply N.ltb_lt. lia.
Qed.

Lemma ltb_total a b : ltb a b = false → ltb b a = false → a = b.
Proof.
  revert b. induction a as [|x a IH]; intros [|y b]; simpl; try done.
  destruct (Ascii.eqb_spec x y) as [->|Hxy].
  - rewrite Ascii.eqb_refl. intros. f_equal. auto.
  - destruct (Ascii.eqb_spec y x); [congruence|].
    rewrite !N.ltb_ge. intros. exfalso. apply Hxy, N_of_ascii_inj. lia.
Qed.

Lemma ltb_asym a b : ltb a b = true → ltb b a = false.
Proof.
  intros H. destruct (ltb b a) eqn:E; [|done].
  pose proof (ltb_trans _ _ _ H E) as C. by rewrite ltb_irrefl in C.
Qed.
