(* ===== verification/Effects.v ===== *)
(** * Handlers that talk to the outside

    A handler that asks its surroundings (a clock, another process, a library) is
    a tree of requests. The answers are not constrained: a theorem about all runs
    covers every behaviour of the surroundings, failures and lost authority
    included. The trace of a run lists the requests with their answers in the
    order in which they were made. *)
From S2P Require Import Prelude.

Inductive proc (E : Type → Type) (A : Type) : Type :=
  | Done (a : A)
  | Call {X} (e : E X) (k : X → proc E A).
Arguments Done {E A} a.
Arguments Call {E A X} e k.

Fixpoint proc_bind {E A B} (p : proc E A) (f : A → proc E B) : proc E B :=
  match p with Done a => f a | Call e k => Call e (λ x, proc_bind (k x) f) end.

Definition request {E X} (e : E X) : proc E X := Call e Done.

Declare Scope proc_scope.
Delimit Scope proc_scope with proc.
Notation "x <- p ;; q" := (proc_bind p (λ x, q)) (at level 100, p at next level, right associativity) : proc_scope.
Notation "p ;; q" := (proc_bind p (λ _, q)) (at level 100, right associativity) : proc_scope.

(** A request with its answer. *)
Inductive event (E : Type → Type) : Type :=
  | Event {X} (e : E X) (x : X).
Arguments Event {E X} e x.

Fixpoint runs {E A} (p : proc E A) (a : A) (tr : list (event E)) : Prop :=
  match p with
  | Done a' => a = a' ∧ tr = []
  | Call e k => ∃ x tr', tr = Event e x :: tr' ∧ runs (k x) a tr'
  end.

Lemma runs_bind {E A B} (p : proc E A) (f : A → proc E B) b tr :
  runs (proc_bind p f) b tr ↔ ∃ a tr1 tr2, runs p a tr1 ∧ runs (f a) b tr2 ∧ tr = tr1 ++ tr2.
Proof.
  revert tr. induction p as [a|X e k IH]; intros tr; cbn.
  - split; [|by intros (? & ? & ? & [-> ->] & ? & ->)]. intros Hr. by exists a, [], tr.
  - split.
    + intros (x & tr' & -> & (a & tr1 & tr2 & H1 & H2 & ->)%IH). exists a, (Event e x :: tr1), tr2. split; [by exists x, tr1|done].
    + intros (a & ? & tr2 & (x & tr1 & -> & H1) & H2 & ->). exists x, (tr1 ++ tr2). split; [done|]. apply IH. by exists a, tr1, tr2.
Qed.

Lemma runs_request {E X} (e : E X) x tr : runs (request e) x tr ↔ tr = [Event e x].
Proof. cbn. split; [by intros (x' & tr' & -> & -> & ->)|]. intros ->. by exists x, []. Qed.

(** Every handler has a run for each way of answering. *)
Fixpoint answer {E A} (o : ∀ X, E X → X) (p : proc E A) : A * list (event E) :=
  match p with
  | Done a => (a, [])
  | Call e k => let x := o _ e in let '(a, tr) := answer o (k x) in (a, Event e x :: tr)
  end.

Lemma answer_runs {E A} o (p : proc E A) : runs p (answer o p).1 (answer o p).2.
Proof.
  induction p as [a|X e k IH]; cbn; [done|]. specialize (IH (o X e)). destruct (answer o (k (o X e))) as [a tr].
  exists (o X e), tr. done.
Qed.

(** Requests in a trace that satisfy [P] with what came before them. *)
Definition always {E} (P : list (event E) → event E → Prop) (tr : list (event E)) : Prop :=
  ∀ pre ev post, tr = pre ++ ev :: post → P pre ev.

Lemma always_nil {E} (P : list (event E) → event E → Prop) : always P [].
Proof. intros pre ev post E0. by destruct pre. Qed.

Lemma always_cons {E} (P : list (event E) → event E → Prop) ev tr :
  always P (ev :: tr) ↔ P [] ev ∧ always (λ pre, P (ev :: pre)) tr.
Proof.
  split.
  - intros H. split; [by apply (H [] ev tr)|]. intros pre ev' post ->. by apply (H (ev :: pre) ev' post).
  - intros [H1 H2] pre ev' post E0. destruct pre as [|ev0 pre]; simplify_eq/=; [done|]. by eapply H2.
Qed.

Lemma always_app {E} (P : list (event E) → event E → Prop) tr1 tr2 :
  always P (tr1 ++ tr2) ↔ always P tr1 ∧ always (λ pre, P (tr1 ++ pre)) tr2.
Proof.
  revert P. induction tr1 as [|ev tr1 IH]; intros P; cbn; [split; [intros; split; [apply always_nil|done]|by intros [_ ?]]|].
  rewrite !always_cons, IH. tauto.
Qed.

Lemma always_impl {E} (P Q : list (event E) → event E → Prop) tr :
  always P tr → (∀ pre ev, P pre ev → Q pre ev) → always Q tr.
Proof. intros H HPQ pre ev post E0. eapply HPQ, H, E0. Qed.
