(* ===== verification/GoSort.v ===== *)
(** sort.SliceStable and sort.Slice with a comparison of strings, and the slicing
    of a sorted list into pages. A stable sort has one result, so insertion stands
    for the algorithm of the library; sort.Slice is used on elements with distinct
    keys only, where every sort has that result. *)
From stdpp Require Import list strings sorting.
From S2P Require Import Prelude GoStrings.

Section Sort.
  Context {A : Type} (less : A → A → bool).

Fixpoint insert_by (x : A) (l : list A) : list A :=
  match l with
  | [] => [x]
  | y :: l' => if less y x then y :: insert_by x l' else x :: l
  end.

Definition SliceStable (l : list A) : list A := foldr insert_by [] l.

(** items[start:end] with both bounds cut at the length. *)
Definition slice_page (page pageSize : Z) (l : list A) : list A :=
  let total := Z.of_nat (length l) in
  let start := Z.min ((page - 1) * pageSize) total in
  let stop := Z.min (start + pageSize) total in
  take (Z.to_nat (stop - start)) (drop (Z.to_nat start) l).

(** *** Lemmas *)

Definition ordered (x y : A) : Prop := less y x = false.

Lemma insert_by_perm x l : insert_by x l ≡ₚ x :: l.
Proof. induction l as [|y l IH]; cbn; [done|]. destruct (less y x); [|done]. rewrite IH. apply Permutation_swap. Qed.

Lemma SliceStable_cons x l : SliceStable (x :: l) = insert_by x (SliceStable l).
Proof. done. Qed.

Lemma SliceStable_perm l : SliceStable l ≡ₚ l.
Proof. induction l as [|x l IH]; [done|]. by rewrite SliceStable_cons, insert_by_perm, IH. Qed.

Lemma SliceStable_app l1 l2 : SliceStable (l1 ++ l2) = foldr insert_by (SliceStable l2) l1.
Proof. unfold SliceStable. by rewrite foldr_app. Qed.

Lemma take_insert_by k x l : take k (insert_by x l) = take k (insert_by x (take k l)).
Proof.
  revert k. induction l as [|y l IH]; intros [|k]; cbn; try done.
  destruct (less y x); cbn; f_equal; [apply IH|]. destruct k; cbn; [done|]. by rewrite take_take, Nat.min_l by lia.
Qed.

Lemma take_foldr_insert k l m : take k (foldr insert_by m l) = take k (foldr insert_by (take k m) l).
Proof.
  induction l as [|x l IH]; cbn; [by rewrite take_take, Nat.min_id|]. rewrite take_insert_by, IH, <-take_insert_by. done.
Qed.

(** The first [k] of a sorted list do not change when a part is cut to its own first [k]. *)
Lemma take_sort_app k l1 l2 l2' : take k (SliceStable l2) = take k (SliceStable l2') →
  take k (SliceStable (l1 ++ l2)) = take k (SliceStable (l1 ++ l2')).
Proof. intros E. rewrite !SliceStable_app, take_foldr_insert, E, <-take_foldr_insert. done. Qed.

(** The comparison is that of a total order on keys. *)
Record keyed : Prop := {
  keyed_trans x y z : less y x = false → less z y = false → less z x = false;
  keyed_asym x y : less x y = true → less y x = false;
}.

Section Order.
  Context (Hless : keyed).

Lemma insert_by_sorted x l : StronglySorted ordered l → StronglySorted ordered (insert_by x l).
Proof using Hless.
  induction 1 as [|y l Hs IH Hy]; cbn; [by repeat constructor|]. destruct (less y x) eqn:E.
  - constructor; [done|]. rewrite insert_by_perm. constructor; [by apply keyed_asym|done].
  - constructor; [by constructor|]. constructor; [done|]. eapply Forall_impl; [exact Hy|]. intros z Hz. by eapply keyed_trans.
Qed.

Lemma SliceStable_sorted l : StronglySorted ordered (SliceStable l).
Proof using Hless. induction l as [|x l IH]; cbn; [constructor|by apply insert_by_sorted]. Qed.

Lemma SliceStable_id l : StronglySorted ordered l → SliceStable l = l.
Proof.
  induction 1 as [|x l Hs IH Hx]; [done|]. rewrite SliceStable_cons, IH. destruct l as [|y l]; [done|]. cbn.
  apply Forall_cons in Hx as [Hx _]. unfold ordered in Hx. by rewrite Hx.
Qed.

(** Elements whose order is decided have one sorted arrangement. *)
Lemma SliceStable_unique l1 l2 :
  (∀ x y, x ∈ l1 → y ∈ l1 → less x y = false → less y x = false → x = y) → l1 ≡ₚ l2 → SliceStable l1 = SliceStable l2.
Proof using Hless.
  intros Hd Hp. apply (StronglySorted_unique_strong ordered); [|apply SliceStable_sorted..|by rewrite !SliceStable_perm].
  intros x y Hx Hy H1 H2. rewrite SliceStable_perm in Hx. rewrite SliceStable_perm, <-Hp in Hy. by apply Hd.
Qed.

Lemma take_sort_cut k l : take k (SliceStable (take k (SliceStable l))) = take k (SliceStable l).
Proof using Hless.
  rewrite (SliceStable_id (take k (SliceStable l))); [by rewrite take_take, Nat.min_id|].
  pose proof (SliceStable_sorted l) as Hs. rewrite <-(take_drop k (SliceStable l)) in Hs. by apply StronglySorted_app_1_l in Hs.
Qed.

(** Sorting the concatenation of lists, each already cut to its first [k]. *)
Lemma take_sort_concat k (ls : list (list A)) :
  (∀ x y, x ∈ concat ls → y ∈ concat ls → less x y = false → less y x = false → x = y) →
  take k (SliceStable (concat ((λ l, take k (SliceStable l)) <$> ls))) = take k (SliceStable (concat ls)).
Proof using Hless.
  induction ls as [|l ls IH]; intros Hd; [done|]. cbn in *. rewrite (take_sort_app k _ _ (concat ls)).
  2:{ apply IH. intros x y Hx Hy. apply Hd; set_solver. }
  rewrite (SliceStable_unique (take k (SliceStable l) ++ concat ls) (concat ls ++ take k (SliceStable l))); [| |apply Permutation_app_comm].
  2:{ intros x y Hx Hy. assert (take k (SliceStable l) ⊆ l) as Hsub.
      { intros z Hz. rewrite <-(SliceStable_perm l), <-(take_drop k (SliceStable l)). set_solver. }
      apply Hd; set_solver. }
  rewrite (take_sort_app k _ _ l) by apply take_sort_cut.
  f_equal. apply SliceStable_unique; [|apply Permutation_app_comm]. intros x y Hx Hy. apply Hd; set_solver.
Qed.
End Order.
End Sort.

(** Comparisons by one key, and by one key before another comparison. *)
Definition by_key {A} (key : A → string) (x y : A) : bool := ltb (key x) (key y).
Definition then_by {A} (key : A → string) (next : A → A → bool) (x y : A) : bool :=
  if String.eqb (key x) (key y) then next x y else ltb (key x) (key y).

Lemma ltb_trans_false a b c : ltb b a = false → ltb c b = false → ltb c a = false.
Proof.
  intros H1 H2. destruct (ltb c a) eqn:E; [|done]. destruct (ltb a b) eqn:E1.
  - by rewrite (ltb_trans c a b E E1) in H2.
  - assert (a = b) as -> by by apply ltb_total. congruence.
Qed.

Lemma by_key_keyed {A} (key : A → string) : keyed (by_key key).
Proof. split; unfold by_key; [intros x y z; apply ltb_trans_false|intros x y; apply ltb_asym]. Qed.

Lemma then_by_keyed {A} (key : A → string) next : keyed next → keyed (then_by key next).
Proof.
  intros Hn. split; unfold then_by.
  - intros x y z. destruct (String.eqb_spec (key y) (key x)) as [E1|N1], (String.eqb_spec (key z) (key y)) as [E2|N2].
    + rewrite E2, E1, String.eqb_refl. by apply keyed_trans.
    + intros _. rewrite E1 in *. by destruct (String.eqb_spec (key z) (key x)).
    + intros H _. rewrite E2. by destruct (String.eqb_spec (key y) (key x)).
    + intros H1 H2. destruct (String.eqb_spec (key z) (key x)) as [E|N]; [|by eapply ltb_trans_false].
      rewrite E in H2. destruct N1. by apply ltb_total.
  - intros x y. rewrite (String.eqb_sym (key y)). destruct (String.eqb_spec (key x) (key y)); [by apply keyed_asym|apply ltb_asym].
Qed.

Lemma by_key_decides {A} (key : A → string) x y : by_key key x y = false → by_key key y x = false → key x = key y.
Proof. apply ltb_total. Qed.

Lemma then_by_decides {A} (key : A → string) next x y : then_by key next x y = false → then_by key next y x = false →
  key x = key y ∧ next x y = false ∧ next y x = false.
Proof.
  unfold then_by. rewrite (String.eqb_sym (key y)). destruct (String.eqb_spec (key x) (key y)) as [E|N]; [done|].
  intros H1 H2. destruct N. by apply ltb_total.
Qed.

(** A comparison that reads a key through [f]. *)
Lemma SliceStable_fmap {A B} (less : A → A → bool) (less' : B → B → bool) (f : A → B) l :
  (∀ x y, less' (f x) (f y) = less x y) → SliceStable less' (f <$> l) = f <$> SliceStable less l.
Proof.
  intros Hf. induction l as [|x l IH]; [done|]. rewrite fmap_cons, !SliceStable_cons, IH. generalize (SliceStable less l) as m.
  induction m as [|y m IHm]; cbn; [done|]. rewrite Hf. destruct (less y x); cbn; [by rewrite IHm|done].
Qed.

(** A page is a page of any list with the same beginning. *)
Lemma slice_page_take {A} page pageSize (l : list A) : (1 <= page)%Z → (1 <= pageSize)%Z →
  slice_page page pageSize l = drop (Z.to_nat ((page - 1) * pageSize)) (take (Z.to_nat (page * pageSize)) l).
Proof.
  intros Hp Hs. unfold slice_page. cbv zeta.
  replace (Z.to_nat (page * pageSize)) with (Z.to_nat ((page - 1) * pageSize) + Z.to_nat pageSize)%nat by nia.
  rewrite <-take_drop_commute.
  destruct (decide ((page - 1) * pageSize <= Z.of_nat (length l))%Z).
  - rewrite (Z.min_l ((page - 1) * pageSize)) by done. destruct (decide (page * pageSize <= Z.of_nat (length l))%Z).
    + rewrite Z.min_l by nia. by replace ((page - 1) * pageSize + pageSize - (page - 1) * pageSize)%Z with pageSize by lia.
    + rewrite Z.min_r by nia. rewrite !take_ge; [done|rewrite length_drop; nia..].
  - rewrite (Z.min_r ((page - 1) * pageSize)) by lia. rewrite !drop_ge by nia. by rewrite !take_nil.
Qed.
