(* ===== verification/Float64.v ===== *)
(** * float64

    The binary64 numbers of Go with the operations the code uses, on the
    specification of IEEE 754 arithmetic in the standard library (rounding to
    nearest, ties to even). *)
From Stdlib Require Import SpecFloat.
From S2P Require Import Prelude.

Definition float64 : Type := spec_float.
Definition prec : Z := 53.
Definition emax : Z := 1024.

(** float64(z) *)
Definition of_int (z : Z) : float64 := binary_normalize prec emax z 0 false.

Definition fadd : float64 → float64 → float64 := SFadd prec emax.
Definition fmul : float64 → float64 → float64 := SFmul prec emax.
Definition fdiv : float64 → float64 → float64 := SFdiv prec emax.

(** Comparisons are false when an operand is NaN. *)
Definition fleb : float64 → float64 → bool := SFleb.
Definition fltb : float64 → float64 → bool := SFltb.
Definition feqb : float64 → float64 → bool := SFeqb.

(** The magnitude [m * 2 ^ e] rounded to an integer: towards zero, and half away from
    zero. *)
Definition trunc_mag (m : positive) (e : Z) : Z := Z.shiftl (Z.pos m) e.
Definition round_mag (m : positive) (e : Z) : Z :=
  if (e <? 0)%Z then Z.shiftl (Z.pos m + Z.shiftl 1 (- e - 1)) e else Z.shiftl (Z.pos m) e.

Definition with_sign (s : bool) (z : Z) : Z := if s then (- z)%Z else z.

(** int(x) and int(math.Round(x)) for finite [x] that fit; Go leaves the others to
    the implementation. *)
Definition to_int (x : float64) : option Z :=
  match x with
  | S754_zero _ => Some 0%Z
  | S754_finite s m e => Some (with_sign s (trunc_mag m e))
  | _ => None
  end.
Definition round_int (x : float64) : option Z :=
  match x with
  | S754_zero _ => Some 0%Z
  | S754_finite s m e => Some (with_sign s (round_mag m e))
  | _ => None
  end.

Lemma of_int_examples : round_int (fdiv (of_int 7) (of_int 2)) = Some 4%Z ∧ to_int (fdiv (of_int 7) (of_int 2)) = Some 3%Z ∧
  fltb (of_int 3) (fmul (of_int 3) (fadd (of_int 1) (fdiv (of_int 1) (of_int 5)))) = true.
Proof. done. Qed.
