(* ===== verification/Acl.v ===== *)
(** The RBAC engine, internal/cluster/acl: rules and roles (model.go),
    shared-filter parsing, topic matching and specificity (match.go), the
    decision procedure (evaluate.go) and the built-in ruleset (standard.go).

    The specification side is [mqtt_matches], the level-wise reading of MQTT
    4.7, and the predicate [rule_applies]; the theorems relate the loops of the
    code to them. *)

From S2P Require Import Prelude GoStrings.

(** ** Data (model.go) *)

Definition ActionPublish : string := "publish".
Definition ActionSubscribe : string := "subscribe".
Definition EffectAllow : string := "allow".
Definition EffectDeny : string := "deny".

Record ACLRule := mkACLRule {
  TopicFilter : string;
  Actions : list string;
  Effect : string;
}.

Record Role := mkRole {
  Name : string;
  Rules : list ACLRule;
}.

#[export] Instance ACLRule_eq_dec : EqDecision ACLRule.
Proof. solve_decision. Defined.

#[export] Instance Role_eq_dec : EqDecision Role.
Proof. solve_decision. Defined.

Fixpoint allowsAction_loop (actions : list string) (action : string) : bool :=
  match actions with
  | [] => false
  | a :: rest => if String.eqb a action then true else allowsAction_loop rest action
  end.

Definition allowsAction (r : ACLRule) (action : string) : bool :=
  allowsAction_loop (Actions r) action.

Definition resolvedFilter (r : ACLRule) (clientID username : string) : string :=
  let f := TopicFilter r in
  let f := replace2 "%" "c" clientID f in
  let f := replace2 "%" "u" username f in
  f.

(** ** Topic filters (match.go) *)

Definition SharedFilter (filter : string) : option (string * string) :=
  match splitN "/" filter 3 with
  | [p0; p1; p2] =>
      if negb (equal_fold p0 "$share") || String.eqb p1 "" || String.eqb p2 ""
      then None
      else Some (p1, p2)
  | _ => None
  end.

(** The loop of [MatchTopic] over the remaining filter and topic levels. *)
Fixpoint MatchTopic_loop (fParts tParts : list string) : bool :=
  match fParts with
  | [] => match tParts with [] => true | _ :: _ => false end
  | fp :: fRest =>
      if String.eqb fp "#" then match fRest with [] => true | _ :: _ => false end
      else match tParts with
           | [] => false
           | tp :: tRest =>
               if String.eqb fp "+" then MatchTopic_loop fRest tRest
               else if String.eqb fp tp then MatchTopic_loop fRest tRest
               else false
           end
  end.

(** The rule that a leading wildcard never matches a [$]-topic. *)
Definition dollar_blocked (fParts tParts : list string) : bool :=
  match tParts with
  | [] => false
  | t0 :: _ =>
      if has_prefix "$" t0 then
        match fParts with
        | [] => true
        | f0 :: _ => negb (String.eqb f0 t0) && (String.eqb f0 "#" || String.eqb f0 "+")
        end
      else false
  end.

Definition MatchTopic (filter topic : string) : bool :=
  if String.eqb filter topic then true
  else
    let fParts := split "/" filter in
    let tParts := split "/" topic in
    if dollar_blocked fParts tParts then false
    else MatchTopic_loop fParts tParts.

Definition specificity_part (p : string) : Z :=
  if String.eqb p "#" then 1 else if String.eqb p "+" then 10 else 100.

Definition specificity (filter : string) : Z :=
  fold_left (λ score p, (score + specificity_part p)%Z) (split "/" filter) 0%Z.

(** ** Decision procedure (evaluate.go) *)

Record Decision := mkDecision {
  DecisionEffect : string;
  DecisionRule : option ACLRule;
}.

Definition Allowed (d : Decision) : bool := String.eqb (DecisionEffect d) EffectAllow.

(** The variables captured by the [consider] closure. *)
Record best := mkBest {
  bestDeny : option ACLRule;
  bestDenySpec : Z;
  bestAllow : option ACLRule;
  bestAllowSpec : Z;
}.

Definition consider (clientID username topic action : string) (b : best) (r : ACLRule) : best :=
  if negb (allowsAction r action) then b
  else if negb (MatchTopic (resolvedFilter r clientID username) topic) then b
  else
    let s := specificity (TopicFilter r) in
    if String.eqb (Effect r) EffectDeny then
      if (bestDenySpec b <? s)%Z
      then mkBest (Some r) s (bestAllow b) (bestAllowSpec b) else b
    else if String.eqb (Effect r) EffectAllow then
      if (bestAllowSpec b <? s)%Z
      then mkBest (bestDeny b) (bestDenySpec b) (Some r) s else b
    else b.

Definition Evaluate (clientID username topic action : string)
    (enabledRulesets : list Role) (customRules : list ACLRule) : Decision :=
  let step := consider clientID username topic action in
  let b := mkBest None (-1) None (-1) in
  let b := fold_left (λ b role, fold_left step (Rules role) b) enabledRulesets b in
  let b := fold_left step customRules b in
  match bestDeny b with
  | Some r => mkDecision EffectDeny (Some r)
  | None =>
      match bestAllow b with
      | Some r => mkDecision EffectAllow (Some r)
      | None => mkDecision EffectDeny None
      end
  end.

(** ** Built-in rulesets (standard.go) *)

Definition allow_publish (f : string) : ACLRule := mkACLRule f ["publish"] EffectAllow.
Definition allow_subscribe (f : string) : ACLRule := mkACLRule f ["subscribe"] EffectAllow.

Definition keel_device_default : Role :=
  mkRole "keel-device-default" [
    allow_publish "telemetry/%c/#";
    allow_publish "event/%c/#";
    allow_publish "t";
    allow_publish "t/#";
    allow_publish "e";
    allow_publish "e/#";
    allow_publish "telemetry";
    allow_publish "event";
    allow_publish "status/heartbeat";
    allow_publish "status/ota";
    allow_publish "status/ca";
    allow_subscribe "cmd/%c";
    allow_subscribe "command/%c";
    allow_subscribe "command/%c/#"
  ].

Definition StandardRulesets : gmap string Role :=
  {[ "keel-device-default" := keel_device_default ]}.

(** ** Specification *)

(** A filter level accepts a topic level. *)
Definition level_ok (f l : string) : Prop := f = "+" ∨ f = l.

(** MQTT 4.7 on lists of levels: either no multi-level wildcard and a
    level-by-level match, or a single trailing [#] whose prefix matches a
    prefix of the topic (the parent level included). *)
Definition mqtt_matches (f t : list string) : Prop :=
  (("#" ∉ f) ∧ Forall2 level_ok f t) ∨
  (∃ pre t1 t2, f = pre ++ ["#"] ∧ ("#" ∉ pre) ∧ t = t1 ++ t2 ∧ Forall2 level_ok pre t1).

(** The topic's first byte is [$] and the filter starts with a wildcard level. *)
Definition dollar_excluded (f t : list string) : Prop :=
  match t with
  | t0 :: _ => has_prefix "$" t0 = true ∧ (∃ f0 f', f = f0 :: f' ∧ (f0 = "#" ∨ f0 = "+"))
  | [] => False
  end.

(** A rule takes part in the decision. *)
Definition rule_applies (clientID username topic action : string) (r : ACLRule) : Prop :=
  action ∈ Actions r ∧ MatchTopic (resolvedFilter r clientID username) topic = true.

(** The rules [Evaluate] considers, in order. *)
Definition candidate_rules (enabledRulesets : list Role) (customRules : list ACLRule) : list ACLRule :=
  mjoin (Rules <$> enabledRulesets) ++ customRules.

(** ** Lemmas *)

Lemma allowsAction_spec r action : allowsAction r action = true ↔ action ∈ Actions r.
Proof.
  unfold allowsAction. induction (Actions r) as [|a l IH]; simpl; [by set_solver|].
  destruct (String.eqb_spec a action) as [->|]; set_solver.
Qed.

Lemma MatchTopic_loop_spec f t : MatchTopic_loop f t = true ↔ mqtt_matches f t.
Proof.
  revert t. induction f as [|fp f IH]; intros t; simpl.
  - destruct t as [|tp t]; split; try done.
    + intros _. left. split; [set_solver|constructor].
    + intros [[_ H]|(pre & ? & ? & H & _)]; [inversion H|by destruct pre].
  - destruct (String.eqb_spec fp "#") as [->|Hh].
    + destruct f as [|g f]; split; try done.
      * intros _. right. exists [], [], t. repeat split; [set_solver|constructor].
      * intros [[H _]|(pre & ? & ? & H & Hn & _)]; [set_solver|].
        destruct pre as [|p pre]; [done|]. injection H as <- _. set_solver.
    + destruct t as [|tp t].
      * split; [done|]. intros [[_ H]|(pre & t1 & t2 & H & Hn & Ht & HF)]; [inversion H|].
        symmetry in Ht. apply app_nil in Ht as [-> ->]. inversion HF; subst. by injection H.
      * transitivity (level_ok fp tp ∧ mqtt_matches f t).
        { unfold level_ok. rewrite <-IH. destruct (String.eqb_spec fp "+") as [->|Hp]; [tauto|].
          destruct (String.eqb_spec fp tp) as [->|Ht]; [tauto|]. split; [done|tauto]. }
        split.
        -- intros [Hl [[H1 H2]|(pre & t1 & t2 & -> & Hn & -> & HF)]].
           ++ left. split; [set_solver|by constructor].
           ++ right. exists (fp :: pre), (tp :: t1), t2. repeat split; [set_solver|by constructor].
        -- intros [[H1 H2]|(pre & t1 & t2 & H & Hn & Ht & HF)].
           ++ inversion H2; subst. split; [done|]. left. split; [set_solver|done].
           ++ destruct pre as [|p pre]; [by injection H|]. injection H as -> ->.
              inversion HF; subst. injection Ht as -> ->. split; [done|].
              right. eexists pre, _, t2. repeat split; [set_solver|done].
Qed.

Lemma has_prefix_dollar_neq f0 t0 :
  has_prefix "$" t0 = true → f0 = "#" ∨ f0 = "+" → f0 ≠ t0.
Proof. intros H [-> | ->] <-; done. Qed.

Lemma dollar_blocked_spec f t : f ≠ [] → dollar_blocked f t = true ↔ dollar_excluded f t.
Proof.
  intros Hf. destruct t as [|t0 t], f as [|f0 f]; try done.
  unfold dollar_blocked, dollar_excluded.
  destruct (has_prefix "$" t0) eqn:E; [|by split; [|intros [? _]]].
  rewrite andb_true_iff, orb_true_iff, !String.eqb_eq, negb_true_iff, String.eqb_neq.
  split; [by intros [_ H]; eauto|].
  intros [_ (? & ? & [= <- <-] & H)]. eauto using has_prefix_dollar_neq.
Qed.

Lemma specificity_part_pos p : (0 < specificity_part p)%Z.
Proof. unfold specificity_part. repeat case_match; lia. Qed.

Lemma fold_specificity_ge l z :
  (z <= fold_left (λ score p, (score + specificity_part p)%Z) l z)%Z.
Proof.
  revert z. induction l as [|p l IH]; intros z; simpl; [lia|].
  specialize (IH (z + specificity_part p)%Z). pose proof (specificity_part_pos p). lia.
Qed.

Lemma specificity_pos f : (0 < specificity f)%Z.
Proof.
  unfold specificity. destruct (split_cons_inv "/" f) as (x & xs & ->). simpl.
  pose proof (fold_specificity_ge xs (0 + specificity_part x)). pose proof (specificity_part_pos x). lia.
Qed.

(** What [best] records after the rules [seen] have been considered. *)
Definition best_of (eff : string) (applies : ACLRule → Prop) (seen : list ACLRule)
    (o : option ACLRule) (s : Z) : Prop :=
  match o with
  | Some r => r ∈ seen ∧ applies r ∧ Effect r = eff ∧ s = specificity (TopicFilter r) ∧
              ∀ r', r' ∈ seen → applies r' → Effect r' = eff → (specificity (TopicFilter r') <= s)%Z
  | None => s = (-1)%Z ∧ ∀ r', r' ∈ seen → applies r' → Effect r' ≠ eff
  end.

Definition best_inv (applies : ACLRule → Prop) (seen : list ACLRule) (b : best) : Prop :=
  best_of EffectDeny applies seen (bestDeny b) (bestDenySpec b) ∧
  best_of EffectAllow applies seen (bestAllow b) (bestAllowSpec b).

Lemma best_of_skip eff (applies : ACLRule → Prop) seen o s r :
  (applies r → Effect r ≠ eff) → best_of eff applies seen o s → best_of eff applies (seen ++ [r]) o s.
Proof.
  intros Hr. destruct o as [r0|]; simpl; intros H.
  - destruct H as (Hin & Ha & He & Hs & Hmax). repeat split; auto; [set_solver|].
    intros r' [Hr'|Hr']%elem_of_app; [by apply Hmax|].
    apply list_elem_of_singleton in Hr' as ->. intros ??. exfalso. by apply Hr.
  - destruct H as (Hs & Hn). split; [done|].
    intros r' [Hr'|Hr']%elem_of_app; [by apply Hn|].
    apply list_elem_of_singleton in Hr' as ->. done.
Qed.

Lemma best_of_take eff (applies : ACLRule → Prop) seen o s r :
  applies r → Effect r = eff → best_of eff applies seen o s →
  best_of eff applies (seen ++ [r])
    (if (s <? specificity (TopicFilter r))%Z then Some r else o)
    (if (s <? specificity (TopicFilter r))%Z then specificity (TopicFilter r) else s).
Proof.
  intros Ha He H. destruct (Z.ltb_spec s (specificity (TopicFilter r))) as [Hlt|Hge].
  - simpl. repeat split; auto; [set_solver|].
    intros r' [Hr'|Hr']%elem_of_app Ha' He'.
    + destruct o as [r0|]; simpl in H.
      * destruct H as (_ & _ & _ & -> & Hmax). specialize (Hmax r' Hr' Ha' He'). lia.
      * destruct H as (_ & Hn). by destruct (Hn r' Hr' Ha').
    + apply list_elem_of_singleton in Hr' as ->. lia.
  - destruct o as [r0|]; simpl in *.
    + destruct H as (Hin & Ha0 & He0 & Hs & Hmax). repeat split; auto; [set_solver|].
      intros r' [Hr'|Hr']%elem_of_app Ha' He'; [by apply Hmax|].
      apply list_elem_of_singleton in Hr' as ->. lia.
    + destruct H as (-> & _). pose proof (specificity_pos (TopicFilter r)). lia.
Qed.

Lemma EffectDeny_neq_Allow : EffectDeny ≠ EffectAllow.
Proof. done. Qed.

Lemma consider_inv clientID username topic action seen b r :
  best_inv (rule_applies clientID username topic action) seen b →
  best_inv (rule_applies clientID username topic action) (seen ++ [r])
    (consider clientID username topic action b r).
Proof.
  intros [HD HA]. unfold consider.
  destruct (allowsAction r action) eqn:Eact; simpl;
    [apply allowsAction_spec in Eact
    |split; apply best_of_skip; auto; intros [Hin _]; apply allowsAction_spec in Hin; congruence].
  destruct (MatchTopic _ _) eqn:Em; simpl;
    [|split; apply best_of_skip; auto; intros [_ Hm]; congruence].
  assert (rule_applies clientID username topic action r) as Hap by done.
  destruct (String.eqb_spec (Effect r) EffectDeny) as [Ed|Ed].
  - pose proof (best_of_take _ _ _ _ _ _ Hap Ed HD) as Ht.
    assert (Effect r ≠ EffectAllow) by (rewrite Ed; done).
    destruct (_ <? _)%Z; (split; simpl; [exact Ht|by apply best_of_skip]).
  - destruct (String.eqb_spec (Effect r) EffectAllow) as [Ea|Ea].
    + pose proof (best_of_take _ _ _ _ _ _ Hap Ea HA) as Ht.
      destruct (_ <? _)%Z; (split; simpl; [by apply best_of_skip|exact Ht]).
    + split; by apply best_of_skip.
Qed.

Lemma consider_fold_inv clientID username topic action rules seen b :
  best_inv (rule_applies clientID username topic action) seen b →
  best_inv (rule_applies clientID username topic action) (seen ++ rules)
    (fold_left (consider clientID username topic action) rules b).
Proof.
  revert seen b. induction rules as [|r rules IH]; intros seen b H; simpl.
  - by rewrite app_nil_r.
  - replace (seen ++ r :: rules) with ((seen ++ [r]) ++ rules) by (by rewrite <-app_assoc).
    apply IH, consider_inv, H.
Qed.

Lemma consider_roles_inv clientID username topic action roles seen b :
  best_inv (rule_applies clientID username topic action) seen b →
  best_inv (rule_applies clientID username topic action) (seen ++ mjoin (Rules <$> roles))
    (fold_left (λ b role, fold_left (consider clientID username topic action) (Rules role) b) roles b).
Proof.
  revert seen b. induction roles as [|r roles IH]; intros seen b H; simpl.
  - by rewrite app_nil_r.
  - rewrite app_assoc. apply IH, consider_fold_inv, H.
Qed.

Lemma Evaluate_inv clientID username topic action enabled custom :
  ∃ b, best_inv (rule_applies clientID username topic action) (candidate_rules enabled custom) b ∧
    Evaluate clientID username topic action enabled custom =
      match bestDeny b with
      | Some r => mkDecision EffectDeny (Some r)
      | None => match bestAllow b with
                | Some r => mkDecision EffectAllow (Some r)
                | None => mkDecision EffectDeny None
                end
      end.
Proof.
  eexists. split; [|reflexivity]. unfold candidate_rules.
  apply consider_fold_inv. rewrite <-(app_nil_l (mjoin _)).
  apply consider_roles_inv. split; split; [done|set_solver|done|set_solver].
Qed.

Lemma Evaluate_allowed_iff clientID username topic action enabled custom :
  Allowed (Evaluate clientID username topic action enabled custom) = true ↔
    (∃ r, r ∈ candidate_rules enabled custom ∧
          rule_applies clientID username topic action r ∧ Effect r = EffectAllow) ∧
    (∀ r, r ∈ candidate_rules enabled custom →
          rule_applies clientID username topic action r → Effect r ≠ EffectDeny).
Proof.
  destruct (Evaluate_inv clientID username topic action enabled custom) as (b & [HD HA] & ->).
  destruct (bestDeny b) as [d|]; simpl in HD.
  - split; [done|]. destruct HD as (? & ? & He & _). intros [_ Hn]. by destruct (Hn d).
  - destruct HD as [_ HD]. destruct (bestAllow b) as [a|]; simpl in HA.
    + destruct HA as (? & ? & He & _). split; eauto 10.
    + destruct HA as [_ HA]. split; [done|]. intros [(r & ? & ? & ?) _]. by destruct (HA r).
Qed.

Lemma MatchTopic_iff f t :
  MatchTopic f t = true ↔
    f = t ∨ (¬ dollar_excluded (split "/" f) (split "/" t) ∧ mqtt_matches (split "/" f) (split "/" t)).
Proof.
  unfold MatchTopic. destruct (String.eqb_spec f t) as [->|Hne]; [by split; [left|]|].
  pose proof (dollar_blocked_spec (split "/" f) (split "/" t) (split_not_nil _ _)) as Hd.
  rewrite <-MatchTopic_loop_spec.
  destruct (dollar_blocked _ _); [|rewrite <-Hd]; naive_solver.
Qed.

(** A level that is not a wildcard. *)
Definition literal_level (l : string) : Prop := l ≠ "+" ∧ l ≠ "#".

Lemma literal_level_ok l t : literal_level l → level_ok l t ↔ l = t.
Proof. unfold level_ok, literal_level. naive_solver. Qed.

Lemma literal_Forall2 pre t : Forall literal_level pre → Forall2 level_ok pre t ↔ pre = t.
Proof.
  intros HF. split.
  - intros H. induction H as [|l t0 pre t1 Hl H IH]; [done|].
    inversion HF; subst. f_equal; [by apply literal_level_ok|auto].
  - intros <-. induction HF; constructor; [by right|done].
Qed.

Lemma literal_no_hash pre : Forall literal_level pre → "#" ∉ pre.
Proof. intros HF Hin. rewrite Forall_forall in HF. by destruct (HF _ Hin). Qed.

Lemma literal_not_excluded f0 f t : literal_level f0 → ¬ dollar_excluded (f0 :: f) t.
Proof. intros [? ?]. destruct t; [by intros []|]. intros [_ (? & ? & [= <- <-] & [?|?])]; congruence. Qed.

(** A filter whose levels are all literal matches only itself. *)
Lemma MatchTopic_exact f t :
  Forall literal_level (split "/" f) → MatchTopic f t = true ↔ f = t.
Proof.
  intros HF. rewrite MatchTopic_iff. split; [|by left].
  intros [?|[_ [[_ H]|(pre & t1 & t2 & H & _)]]]; [done| |].
  - apply literal_Forall2 in H; [|done]. by apply (split_inj "/").
  - apply literal_no_hash in HF. rewrite H in HF. set_solver.
Qed.

(** Literal levels followed by [#] match exactly the topics below them. *)
Lemma MatchTopic_below f p pre t :
  split "/" f = (p :: pre) ++ ["#"] → Forall literal_level (p :: pre) →
  MatchTopic f t = true ↔ ∃ rest, split "/" t = (p :: pre) ++ rest.
Proof.
  intros Hf HF. rewrite MatchTopic_iff, Hf. split.
  - intros [<-|[_ [[H _]|(pre' & t1 & t2 & H & _ & Ht & H2)]]]; [eauto|set_solver|].
    apply app_inj_tail in H as [<- _]. apply literal_Forall2 in H2; [|done].
    subst t1. eauto.
  - intros [rest Ht]. right. split; [by inversion HF; apply literal_not_excluded|].
    right. exists (p :: pre), (p :: pre), rest.
    split_and!; [done|by apply literal_no_hash|done|by apply literal_Forall2].
Qed.

Lemma replace2_no_byte a b new s : contains_byte a s = false → replace2 a b new s = s.
Proof.
  induction s as [|x s IH]; [done|]. simpl. intros [Hx Hs]%orb_false_iff.
  rewrite Hx, (IH Hs). by destruct s.
Qed.

(** Client IDs that stand for themselves when substituted for a [%c] level. *)
Definition plain_id (clientID : string) : Prop :=
  contains_byte "/" clientID = false ∧ contains_byte "%" clientID = false ∧ literal_level clientID.

(** Resolution of a rule once the client ID is in place. *)
Lemma resolve_plain r clientID username f :
  replace2 "%" "c" clientID (TopicFilter r) = f → contains_byte "%" f = false →
  resolvedFilter r clientID username = f.
Proof. unfold resolvedFilter. intros -> H. by apply replace2_no_byte. Qed.

Lemma MatchTopic_owned_below root clientID topic :
  plain_id clientID → literal_level root → contains_byte "/" root = false →
  MatchTopic (root +:+ "/" +:+ clientID +:+ "/#") topic = true ↔
  ∃ rest, split "/" topic = root :: clientID :: rest.
Proof.
  intros (Hs & Hp & Hl) Hr Hrs.
  rewrite (MatchTopic_below _ root [clientID]); [done| |by repeat (apply Forall_cons_2 || apply Forall_nil_2)].
  rewrite string_app_cons, string_app_nil_l, split_app_sep by done.
  by rewrite split_app_sep.
Qed.

Lemma MatchTopic_owned_exact root clientID topic :
  plain_id clientID → literal_level root → contains_byte "/" root = false →
  MatchTopic (root +:+ "/" +:+ clientID) topic = true ↔ split "/" topic = [root; clientID].
Proof.
  intros (Hs & Hp & Hl) Hr Hrs.
  assert (split "/" (root +:+ "/" +:+ clientID) = [root; clientID]) as E.
  { rewrite string_app_cons, string_app_nil_l, split_app_sep, split_no_sep; done. }
  rewrite MatchTopic_exact, <-E; [|rewrite E; by repeat (apply Forall_cons_2 || apply Forall_nil_2)].
  split; [by intros ->|]. intros H. symmetry. by apply (split_inj "/").
Qed.

Lemma Evaluate_single_allow_role clientID username topic action role :
  Forall (λ r, Effect r = EffectAllow) (Rules role) →
  Allowed (Evaluate clientID username topic action [role] []) = true ↔
    Exists (λ r, rule_applies clientID username topic action r) (Rules role).
Proof.
  intros HF. rewrite Evaluate_allowed_iff, Exists_exists. unfold candidate_rules. simpl.
  rewrite !app_nil_r. rewrite Forall_forall in HF. split.
  - intros [(r & ? & ? & _) _]. eauto.
  - intros (r & ? & ?). split; [eauto|]. intros r' Hr' _ E. rewrite HF in E; done.
Qed.

(** Evaluates the resolution of a rule of a concrete ruleset for a plain ID. *)
Ltac resolve_rule :=
  match goal with
  | Hp : contains_byte "%" ?id = false |- context [resolvedFilter ?r ?id ?u] =>
      let f := eval simpl in (replace2 "%" "c" id (TopicFilter r)) in
      rewrite (resolve_plain r id u f);
      [|reflexivity|autorewrite with gostr; simpl; rewrite ?contains_byte_app, ?Hp; reflexivity]
  end.

(** Proves that concrete levels are literal. *)
Ltac literal_levels := repeat first [apply Forall_cons_2 | apply Forall_nil_2]; try done.

(** Rewrites with an ownership lemma whose filter is spelled out. *)
Ltac rewrite_owned L :=
  let H := fresh in
  pose proof L as H; autorewrite with gostr in H; rewrite H by done; clear H.

(** What the device ruleset grants for publishing, stated on topic levels. *)
Definition device_publish_topic (clientID topic : string) : Prop :=
  (∃ root rest, root ∈ ["telemetry"; "event"] ∧ split "/" topic = root :: clientID :: rest) ∨
  (∃ root rest, root ∈ ["t"; "e"] ∧ split "/" topic = root :: rest) ∨
  topic ∈ ["telemetry"; "event"; "status/heartbeat"; "status/ota"; "status/ca"].

(** What it grants for subscribing. *)
Definition device_subscribe_topic (clientID topic : string) : Prop :=
  (∃ rest, split "/" topic = "command" :: clientID :: rest) ∨
  split "/" topic = ["cmd"; clientID].

Lemma keel_device_default_allows :
  Forall (λ r, Effect r = EffectAllow) (Rules keel_device_default).
Proof. by repeat constructor. Qed.

Lemma rule_applies_publish clientID username topic f :
  rule_applies clientID username topic ActionPublish (allow_publish f) ↔
  MatchTopic (resolvedFilter (allow_publish f) clientID username) topic = true.
Proof. unfold rule_applies. simpl. split; [tauto|]. split; [by left|done]. Qed.

Lemma rule_applies_subscribe clientID username topic f :
  rule_applies clientID username topic ActionSubscribe (allow_subscribe f) ↔
  MatchTopic (resolvedFilter (allow_subscribe f) clientID username) topic = true.
Proof. unfold rule_applies. simpl. split; [tauto|]. split; [by left|done]. Qed.

Lemma rule_applies_publish_other clientID username topic f :
  rule_applies clientID username topic ActionPublish (allow_subscribe f) ↔ False.
Proof. split; [|done]. intros [H _]. simpl in H. by apply list_elem_of_singleton in H. Qed.

Lemma rule_applies_subscribe_other clientID username topic f :
  rule_applies clientID username topic ActionSubscribe (allow_publish f) ↔ False.
Proof. split; [|done]. intros [H _]. simpl in H. by apply list_elem_of_singleton in H. Qed.

Lemma device_default_publish_iff clientID username topic :
  plain_id clientID →
  Allowed (Evaluate clientID username topic ActionPublish [keel_device_default] []) = true ↔
  device_publish_topic clientID topic.
Proof.
  intros Hid. pose proof Hid as (Hs & Hp & Hl).
  rewrite (Evaluate_single_allow_role _ _ _ _ _ keel_device_default_allows). simpl Rules.
  rewrite !Exists_cons, Exists_nil, !rule_applies_publish, !rule_applies_publish_other.
  repeat resolve_rule.
  rewrite_owned (MatchTopic_owned_below "telemetry" clientID topic Hid).
  rewrite_owned (MatchTopic_owned_below "event" clientID topic Hid).
  rewrite (MatchTopic_below "t/#" "t" []), (MatchTopic_below "e/#" "e" []) by (done || literal_levels).
  rewrite !MatchTopic_exact by literal_levels.
  unfold device_publish_topic. split.
  - intros H. repeat destruct H as [H|H]; subst; try (destruct H as [rest H]);
      try (left; do 2 eexists; split; [|exact H]; set_solver); try done;
      try (right; left; do 2 eexists; split; [|exact H]; set_solver);
      try (right; right; set_solver).
    + right; left. exists "t", []. split; [set_solver|done].
    + right; left. exists "e", []. split; [set_solver|done].
  - rewrite !elem_of_cons, !elem_of_nil.
    intros [(root & rest & Hr & H)|[(root & rest & Hr & H)|H]].
    + rewrite !elem_of_cons, elem_of_nil in Hr. destruct Hr as [->|[->|[]]]; eauto 10.
    + rewrite !elem_of_cons, elem_of_nil in Hr. destruct Hr as [->|[->|[]]]; simpl; eauto 12.
    + intuition eauto 20.
Qed.

Lemma device_default_subscribe_iff clientID username topic :
  plain_id clientID →
  Allowed (Evaluate clientID username topic ActionSubscribe [keel_device_default] []) = true ↔
  device_subscribe_topic clientID topic.
Proof.
  intros Hid. pose proof Hid as (Hs & Hp & Hl).
  rewrite (Evaluate_single_allow_role _ _ _ _ _ keel_device_default_allows). simpl Rules.
  rewrite !Exists_cons, Exists_nil, !rule_applies_subscribe, !rule_applies_subscribe_other.
  repeat resolve_rule. autorewrite with gostr.
  rewrite_owned (MatchTopic_owned_below "command" clientID topic Hid).
  rewrite_owned (MatchTopic_owned_exact "command" clientID topic Hid).
  rewrite_owned (MatchTopic_owned_exact "cmd" clientID topic Hid).
  unfold device_subscribe_topic. split; [|tauto]. intuition eauto.
Qed.

Lemma level_ok_trans f g t : level_ok f g → level_ok g t → g ≠ "+" ∨ f = "+" → level_ok f t.
Proof. unfold level_ok. naive_solver. Qed.

Lemma Forall2_level_trans f g t : Forall2 level_ok f g → Forall2 level_ok g t → Forall2 level_ok f t.
Proof.
  intros H. revert t. induction H as [|x y f g Hx H IH]; intros t Ht; inversion Ht; subst; constructor; auto.
  eapply level_ok_trans; eauto. destruct (decide (x = "+")); [by right|].
  destruct Hx as [?|<-]; [done|by left].
Qed.

Lemma mqtt_matches_trans f g t :
  "#" ∉ g → mqtt_matches f g → mqtt_matches g t → mqtt_matches f t.
Proof.
  intros Hg Hf [[_ Ht]|(pre & ? & ? & -> & _)]; [|set_solver].
  destruct Hf as [[Hn H]|(pre & g1 & g2 & -> & Hn & -> & H)].
  - left. eauto using Forall2_level_trans.
  - apply Forall2_app_inv_l in Ht as (t1 & t2 & H1 & H2 & ->).
    right. exists pre, t1, t2. eauto using Forall2_level_trans.
Qed.

(** A [$]-topic blocked for [f] is blocked for [g] or shows that [f] blocks [g]. *)
Lemma dollar_excluded_trans f g t :
  "#" ∉ g → mqtt_matches g t → ¬ dollar_excluded f g → ¬ dollar_excluded g t → ¬ dollar_excluded f t.
Proof.
  intros Hg Hm Hfg Hgt. destruct t as [|t0 t]; [by intros []|]. intros [Hd Hf].
  destruct Hm as [[_ H]|(pre & ? & ? & -> & _)]; [|set_solver].
  inversion H as [|g0 ? g' ? Hl]; subst. destruct Hl as [->| ->].
  - apply Hgt. split; [done|]. eauto.
  - by apply Hfg.
Qed.

(** The reading of a shared filter as its three parts. *)
Lemma splitN3 s :
  splitN "/" s 3 =
    match cut "/" s with
    | None => [s]
    | Some (l, r) => match cut "/" r with None => [l; r] | Some (l', r') => [l; l'; r'] end
    end.
Proof. simpl. destruct (cut "/" s) as [[l r]|]; [|done]. by destruct (cut "/" r) as [[??]|]. Qed.

Lemma SharedFilter_iff f group topicFilter :
  SharedFilter f = Some (group, topicFilter) ↔
  ∃ head, f = head +:+ "/" +:+ group +:+ "/" +:+ topicFilter ∧
    equal_fold head "$share" = true ∧ contains_byte "/" head = false ∧
    contains_byte "/" group = false ∧ group ≠ "" ∧ topicFilter ≠ "".
Proof.
  unfold SharedFilter. rewrite splitN3. split.
  - destruct (cut "/" f) as [[l r]|] eqn:E1; [|done]. apply cut_Some in E1 as [-> Hl].
    destruct (cut "/" r) as [[l' r']|] eqn:E2; [|done]. apply cut_Some in E2 as [-> Hl'].
    destruct (negb _ || _ || _) eqn:E; [done|]. intros [= <- <-].
    apply orb_false_iff in E as [[E%negb_false_iff E']%orb_false_iff E''].
    apply String.eqb_neq in E', E''. exists l. by split_and!.
  - intros (head & -> & Hf & Hh & Hg & Hng & Hnt). autorewrite with gostr.
    rewrite cut_app, cut_app, Hf by done. simpl.
    apply String.eqb_neq in Hng, Hnt. by rewrite Hng, Hnt.
Qed.

(** ** Properties *)

(** C13: [Evaluate] is deny-overrides: whatever the order, number and
    specificity of the rules, the action is allowed exactly when some
    applicable rule allows it and no applicable rule denies it. *)
Theorem Evaluate_deny_overrides clientID username topic action enabled custom :
  Allowed (Evaluate clientID username topic action enabled custom) = true ↔
    (∃ r, r ∈ candidate_rules enabled custom ∧
          rule_applies clientID username topic action r ∧ Effect r = EffectAllow) ∧
    (∀ r, r ∈ candidate_rules enabled custom →
          rule_applies clientID username topic action r → Effect r ≠ EffectDeny).
Proof. apply Evaluate_allowed_iff. Qed.

(** The rule reported with a decision is an applicable rule with the
    decision's effect and of maximal specificity among those; no rule is
    reported exactly when no applicable rule has a recognised effect, and the
    decision is then deny. *)
Theorem Evaluate_explains clientID username topic action enabled custom :
  let d := Evaluate clientID username topic action enabled custom in
  let R r := r ∈ candidate_rules enabled custom ∧ rule_applies clientID username topic action r in
  match DecisionRule d with
  | Some r => R r ∧ Effect r = DecisionEffect d ∧
      ∀ r', R r' → Effect r' = DecisionEffect d →
        (specificity (TopicFilter r') <= specificity (TopicFilter r))%Z
  | None => DecisionEffect d = EffectDeny ∧
      ∀ r', R r' → Effect r' ≠ EffectDeny ∧ Effect r' ≠ EffectAllow
  end.
Proof.
  intros d R. unfold d, R.
  destruct (Evaluate_inv clientID username topic action enabled custom) as (b & [HD HA] & ->).
  destruct (bestDeny b) as [r|]; simpl in *.
  - destruct HD as (? & ? & ? & -> & Hmax). split_and!; auto. naive_solver.
  - destruct HD as [_ HD]. destruct (bestAllow b) as [r|]; simpl in *.
    + destruct HA as (? & ? & ? & -> & Hmax). split_and!; auto. naive_solver.
    + destruct HA as [_ HA]. naive_solver.
Qed.

(** [MatchTopic] implements MQTT 4.7 on topic levels: apart from a filter
    equal to the topic, it matches exactly when the level-wise relation holds
    and the filter does not open with a wildcard on a [$]-topic. *)
Theorem MatchTopic_is_mqtt f t :
  MatchTopic f t = true ↔
    f = t ∨ (¬ dollar_excluded (split "/" f) (split "/" t) ∧ mqtt_matches (split "/" f) (split "/" t)).
Proof. apply MatchTopic_iff. Qed.

(** For a client ID that is a literal topic level, the built-in ruleset
    lets a device publish exactly to its own telemetry/… and event/… subtrees,
    the short-alias subtrees t/e and five fixed topics, and subscribe exactly
    to its own command channel, whatever the user name. *)
Theorem device_default_confined clientID username topic :
  plain_id clientID →
  (Allowed (Evaluate clientID username topic ActionPublish [keel_device_default] []) = true ↔
   device_publish_topic clientID topic) ∧
  (Allowed (Evaluate clientID username topic ActionSubscribe [keel_device_default] []) = true ↔
   device_subscribe_topic clientID topic).
Proof.
  intros H. split; [by apply device_default_publish_iff|by apply device_default_subscribe_iff].
Qed.

Lemma device_default_confined_witness :
  (Allowed (Evaluate "dev1" "u" "telemetry/dev2" ActionPublish [keel_device_default] []) = true ↔
   device_publish_topic "dev1" "telemetry/dev2") ∧
  (Allowed (Evaluate "dev1" "u" "telemetry/dev2" ActionSubscribe [keel_device_default] []) = true ↔
   device_subscribe_topic "dev1" "telemetry/dev2").
Proof. apply (device_default_confined "dev1" "u" "telemetry/dev2"). done. Defined.

(** A client ID that is itself a wildcard level escapes the confinement: the
    substituted rule becomes telemetry/+/#. *)
Lemma wildcard_client_id_escapes :
  Allowed (Evaluate "+" "u" "telemetry/victim/temp" ActionPublish [keel_device_default] []) = true.
Proof. vm_compute. reflexivity. Qed.

(** A subscription request is matched against rule filters as if it were a
    topic; for a request without a multi-level wildcard this is sound: every
    topic the requested filter receives is matched by the rule's filter. *)
Theorem MatchTopic_subsumes f g t :
  "#" ∉ split "/" g → MatchTopic f g = true → MatchTopic g t = true → MatchTopic f t = true.
Proof.
  rewrite !MatchTopic_iff. intros Hg [->|[Hd Hm]] [->|[Hd' Hm']]; auto.
  right. split; [by eapply dollar_excluded_trans|by eapply mqtt_matches_trans].
Qed.

Lemma MatchTopic_subsumes_witness : MatchTopic "a/+/#" "a/b/c" = true.
Proof. apply (MatchTopic_subsumes "a/+/#" "a/+/c" "a/b/c"); [set_solver|done|done]. Defined.

(** With a multi-level wildcard in the request it is not: the rule a/+ accepts
    a subscription to a/#, which receives a/b/c. *)
Lemma single_level_rule_accepts_multi_level_request :
  MatchTopic "a/+" "a/#" = true ∧ MatchTopic "a/#" "a/b/c" = true ∧ MatchTopic "a/+" "a/b/c" = false.
Proof. done. Qed.

(** [SharedFilter] parses exactly the filters made of a case-insensitive
    $share level, a non-empty group level and a non-empty rest, and returns the
    group and the rest unchanged. *)
Theorem SharedFilter_spec f group topicFilter :
  SharedFilter f = Some (group, topicFilter) ↔
  ∃ head, f = head +:+ "/" +:+ group +:+ "/" +:+ topicFilter ∧
    equal_fold head "$share" = true ∧ contains_byte "/" head = false ∧
    contains_byte "/" group = false ∧ group ≠ "" ∧ topicFilter ≠ "".
Proof. apply SharedFilter_iff. Qed.
