(* ===== verification/Fsm.v ===== *)
(** The replicated state machine of internal/cluster/raft: commands
    (command.go), FSM state, [Apply], snapshots and the read helpers (fsm.go),
    and the two edge-side read caches (acl_cache.go, revocation_cache.go).

    A Go map that the code may leave nil is an [option]: reading or deleting
    from [None] is the read or delete of an empty map, assigning into it is a
    run-time panic. [range] over a map is a fold over [map_to_list]; where the
    iteration order could show, the definition takes the order as an argument
    and the theorems hold for every order. Time is an argument of [Apply]. *)

From S2P Require Import Prelude GoStrings Acl.

(** ** Commands (command.go) *)

Definition OpClaimSession : string := "claim_session".
Definition OpReleaseSession : string := "release_session".
Definition OpCreateRole : string := "acl.create_role".
Definition OpDeleteRole : string := "acl.delete_role".
Definition OpCreateBinding : string := "acl.create_binding".
Definition OpDeleteBinding : string := "acl.delete_binding".
Definition OpEnableRuleset : string := "acl.enable_ruleset".
Definition OpDisableRuleset : string := "acl.disable_ruleset".
Definition OpSetRedisPrimary : string := "redis.set_primary".
Definition OpRevokeCertificate : string := "device_pki.revoke_certificate".

Record Command := mkCommand {
  Op : string;
  NodeID : string;
  ClientID : string;
  RoleName : string;
  CmdRules : list ACLRule;
  Principal : string;
  RulesetName : string;
  Identity : string;
  Serial : string;
}.

(** ** State *)

Record state := mkState {
  sessions : option (gmap string string);
  sessionIdentity : gmap string string;
  roles : gmap string Role;
  bindings : gmap string (list string);
  enabledRulesets : gmap string bool;
  redisPrimary : string;
  revoked : gmap string Z;
}.

Definition newState : state := mkState (Some ∅) ∅ ∅ ∅ ∅ "" ∅.

(** [f.state.sessions] as it is read. *)
Definition sessions_map (st : state) : gmap string string := default ∅ (sessions st).

Definition set_sessions (m : gmap string string) (ids : gmap string string) (st : state) : state :=
  mkState (Some m) ids (roles st) (bindings st) (enabledRulesets st) (redisPrimary st) (revoked st).

Definition set_roles (m : gmap string Role) (b : gmap string (list string)) (st : state) : state :=
  mkState (sessions st) (sessionIdentity st) m b (enabledRulesets st) (redisPrimary st) (revoked st).

Definition set_enabled (m : gmap string bool) (st : state) : state :=
  mkState (sessions st) (sessionIdentity st) (roles st) (bindings st) m (redisPrimary st) (revoked st).

Definition set_primary (n : string) (st : state) : state :=
  mkState (sessions st) (sessionIdentity st) (roles st) (bindings st) (enabledRulesets st) n (revoked st).

Definition set_revoked (m : gmap string Z) (st : state) : state :=
  mkState (sessions st) (sessionIdentity st) (roles st) (bindings st) (enabledRulesets st) (redisPrimary st) m.

Inductive applyError :=
  | ErrUnmarshal (e : string)
  | ErrUnknownOp (op : string).

Record applyResult := mkApplyResult {
  ok : bool;
  err : option applyError;
  evictedNode : string;
}.

Definition res_ok : applyResult := mkApplyResult true None "".
Definition res_err (e : applyError) : applyResult := mkApplyResult false (Some e) "".

(** ** Apply *)

(** The branches of the switch of [Apply]. *)
Definition applyClaimSession (cmd : Command) (st : state) : option (state * applyResult) :=
  let evicted :=
    match sessions_map st !! ClientID cmd with
    | Some owner => if String.eqb owner (NodeID cmd) then "" else owner
    | None => ""
    end in
  match sessions st with
  | None => None
  | Some m =>
      let ids := if String.eqb (Identity cmd) "" then delete (ClientID cmd) (sessionIdentity st)
                 else <[ClientID cmd := Identity cmd]> (sessionIdentity st) in
      Some (set_sessions (<[ClientID cmd := NodeID cmd]> m) ids st, mkApplyResult true None evicted)
  end.

Definition applyReleaseSession (cmd : Command) (st : state) : state :=
  match sessions_map st !! ClientID cmd with
  | Some owner =>
      if String.eqb owner (NodeID cmd)
      then set_sessions (delete (ClientID cmd) (sessions_map st))
             (delete (ClientID cmd) (sessionIdentity st)) st
      else st
  | None => st
  end.

Definition applyCreateRole (cmd : Command) (st : state) : state :=
  set_roles (<[RoleName cmd := mkRole (RoleName cmd) (CmdRules cmd)]> (roles st)) (bindings st) st.

(** [kept] after the loop that drops [role]. *)
Definition kept_roles (role : string) (roleNames : list string) : list string :=
  List.filter (λ rn, negb (String.eqb rn role)) roleNames.

(** Stores what the loop kept: no entry for an empty list. *)
Definition store_kept (principal : string) (kept : list string)
    (b : gmap string (list string)) : gmap string (list string) :=
  match kept with [] => delete principal b | _ :: _ => <[principal := kept]> b end.

Definition applyDeleteRole (cmd : Command) (st : state) : state :=
  set_roles (delete (RoleName cmd) (roles st))
    (fold_left (λ b '(principal, roleNames), store_kept principal (kept_roles (RoleName cmd) roleNames) b)
       (map_to_list (bindings st)) (bindings st)) st.

Definition applyCreateBinding (cmd : Command) (st : state) : state :=
  let existing := default [] (bindings st !! Principal cmd) in
  if existsb (λ rn, String.eqb rn (RoleName cmd)) existing then st
  else set_roles (roles st) (<[Principal cmd := existing ++ [RoleName cmd]]> (bindings st)) st.

Definition applyDeleteBinding (cmd : Command) (st : state) : state :=
  let existing := default [] (bindings st !! Principal cmd) in
  set_roles (roles st) (store_kept (Principal cmd) (kept_roles (RoleName cmd) existing) (bindings st)) st.

(** [log] is the decoded log entry ([inl] when json.Unmarshal failed) and
    [now] the value of time.Now().Unix(); [None] is a run-time panic. *)
Definition Apply (now : Z) (log : string + Command) (st : state) : option (state * applyResult) :=
  match log with
  | inl e => Some (st, res_err (ErrUnmarshal e))
  | inr cmd =>
      if String.eqb (Op cmd) OpClaimSession then applyClaimSession cmd st
      else if String.eqb (Op cmd) OpReleaseSession then Some (applyReleaseSession cmd st, res_ok)
      else if String.eqb (Op cmd) OpCreateRole then Some (applyCreateRole cmd st, res_ok)
      else if String.eqb (Op cmd) OpDeleteRole then Some (applyDeleteRole cmd st, res_ok)
      else if String.eqb (Op cmd) OpCreateBinding then Some (applyCreateBinding cmd st, res_ok)
      else if String.eqb (Op cmd) OpDeleteBinding then Some (applyDeleteBinding cmd st, res_ok)
      else if String.eqb (Op cmd) OpEnableRuleset then
        Some (set_enabled (<[RulesetName cmd := true]> (enabledRulesets st)) st, res_ok)
      else if String.eqb (Op cmd) OpDisableRuleset then
        Some (set_enabled (delete (RulesetName cmd) (enabledRulesets st)) st, res_ok)
      else if String.eqb (Op cmd) OpSetRedisPrimary then Some (set_primary (NodeID cmd) st, res_ok)
      else if String.eqb (Op cmd) OpRevokeCertificate then
        Some (set_revoked (<[Identity cmd := now]> (revoked st)) st, res_ok)
      else Some (st, res_err (ErrUnknownOp (Op cmd)))
  end.

(** The replicated log played from a state, each entry with the local time
    at which this replica applied it. *)
Fixpoint replay (entries : list (Z * (string + Command))) (st : state) : option state :=
  match entries with
  | [] => Some st
  | (now, log) :: rest =>
      match Apply now log st with
      | None => None
      | Some (st', _) => replay rest st'
      end
  end.

(** ** Snapshots *)

(** The [snapshot] struct; a nil map is [None]. *)
Record snapshot := mkSnapshot {
  Sessions : option (gmap string string);
  SessionIdentity : option (gmap string string);
  Roles : option (gmap string Role);
  Bindings : option (gmap string (list string));
  EnabledRulesets : option (gmap string bool);
  RedisPrimary : string;
  Revoked : option (gmap string Z);
}.

(** A copy of a map made with a [range] loop. *)
Definition copy_map {A} (m : gmap string A) : gmap string A :=
  fold_left (λ acc '(k, v), <[k := v]> acc) (map_to_list m) ∅.

Definition Snapshot (st : state) : snapshot :=
  mkSnapshot (Some (copy_map (sessions_map st))) (Some (copy_map (sessionIdentity st)))
    (Some (copy_map (roles st))) (Some (copy_map (bindings st)))
    (Some (copy_map (enabledRulesets st))) (redisPrimary st) (Some (copy_map (revoked st))).

(** What encoding/json writes for a map field and reads back: [null] and an
    absent key both leave the field nil; [omitempty] drops an empty map. *)
Definition json_map {A} (omitempty : bool) (m : option (gmap string A)) : option (gmap string A) :=
  match m with
  | None => None
  | Some m => if omitempty && bool_decide (m = ∅) then None else Some m
  end.

(** Persist followed by the decoding step of Restore, on valid UTF-8 strings. *)
Definition Persist_Decode (s : snapshot) : snapshot :=
  mkSnapshot (json_map false (Sessions s)) (json_map true (SessionIdentity s))
    (json_map false (Roles s)) (json_map false (Bindings s)) (json_map false (EnabledRulesets s))
    (RedisPrimary s) (json_map true (Revoked s)).

(** [Restore] after a successful decode. *)
Definition Restore (snap : snapshot) : state :=
  mkState (Sessions snap) (default ∅ (SessionIdentity snap)) (default ∅ (Roles snap))
    (default ∅ (Bindings snap)) (default ∅ (EnabledRulesets snap)) (RedisPrimary snap)
    (default ∅ (Revoked snap)).

(** ** Read helpers *)

Definition sessionOwner (st : state) (clientID : string) : option string :=
  sessions_map st !! clientID.

Definition sessionsSnapshot (st : state) : gmap string string := copy_map (sessions_map st).

Definition clientIDsForIdentity (st : state) (identity : string) : list string :=
  fold_left (λ out '(clientID, id), if String.eqb id identity then out ++ [clientID] else out)
    (map_to_list (sessionIdentity st)) [].

Definition currentRedisPrimary (st : state) : string * bool :=
  (redisPrimary st, negb (String.eqb (redisPrimary st) "")).

(** The loop over ruleset names: the built-in roles among them, in order. *)
Definition resolve_rulesets (names : list string) : list Role :=
  fold_left (λ enabled name,
    match StandardRulesets !! name with
    | Some role => enabled ++ [role]
    | None => enabled
    end) names [].

(** The loop over bindings: the rules of the roles bound to the client ID or
    the user name, in order. *)
Definition resolve_bindings (rs : gmap string Role) (bs : list (string * list string))
    (clientID username : string) : list ACLRule :=
  fold_left (λ custom '(principal, roleNames),
    if negb (String.eqb principal clientID) && negb (String.eqb principal username) then custom
    else fold_left (λ custom rn,
           match rs !! rn with
           | Some role => custom ++ Rules role
           | None => custom
           end) roleNames custom) bs [].

(** [evaluateACL] with the orders in which the two maps are iterated. *)
Definition evaluateACL_in_order (names : list string) (bs : list (string * list string))
    (rs : gmap string Role) (clientID username topic action : string) : Decision :=
  Evaluate clientID username topic action (resolve_rulesets names)
    (resolve_bindings rs bs clientID username).

Definition evaluateACL (st : state) (clientID username topic action : string) : Decision :=
  evaluateACL_in_order (fst <$> map_to_list (enabledRulesets st)) (map_to_list (bindings st))
    (roles st) clientID username topic action.

Definition rolesSnapshot (st : state) : gmap string Role := copy_map (roles st).

Definition bindingsSnapshot (st : state) : gmap string (list string) := copy_map (bindings st).

Definition enabledRulesetsSnapshot (st : state) : list string :=
  fold_left (λ names '(name, enabled), if enabled : bool then names ++ [name] else names)
    (map_to_list (enabledRulesets st)) [].

Definition isRevoked (st : state) (identity : string) : bool :=
  match revoked st !! identity with Some _ => true | None => false end.

Definition revokedSnapshot (st : state) : gmap string Z := copy_map (revoked st).

(** ** Edge-side caches *)

(** The ACL snapshot as it travels: RPCServer.ACLSnapshot builds the entry
    lists from the maps, RemoteRegistry.ACLSnapshot rebuilds the maps. *)
Record ACLSnapshotResponse := mkACLSnapshotResponse {
  respRoles : list (string * list ACLRule);
  respBindings : list (string * list string);
  respEnabled : list string;
}.

Definition RPCServer_ACLSnapshot (st : state) : ACLSnapshotResponse :=
  mkACLSnapshotResponse
    (fold_left (λ l '(name, role), l ++ [(name, Rules role)]) (map_to_list (rolesSnapshot st)) [])
    (fold_left (λ l '(principal, roleNames), l ++ [(principal, roleNames)])
       (map_to_list (bindingsSnapshot st)) [])
    (enabledRulesetsSnapshot st).

Definition RemoteRegistry_ACLSnapshot (resp : ACLSnapshotResponse) :
    gmap string Role * gmap string (list string) * list string :=
  (fold_left (λ m '(name, rules), <[name := mkRole name rules]> m) (respRoles resp) ∅,
   fold_left (λ m '(principal, roleNames), <[principal := roleNames]> m) (respBindings resp) ∅,
   respEnabled resp).

Record ACLCache := mkACLCache {
  cacheRoles : gmap string Role;
  cacheBindings : gmap string (list string);
  cacheEnabled : list string;
  ready : bool;
}.

(** The cache before its first refresh. *)
Definition newACLCache : ACLCache := mkACLCache ∅ ∅ [] false.

(** One refresh with the result of [fetch] ([None] when it failed). *)
Definition ACLCache_refresh (fetched : option (gmap string Role * gmap string (list string) * list string))
    (c : ACLCache) : ACLCache :=
  match fetched with
  | None => c
  | Some (rs, bs, enabled) => mkACLCache rs bs enabled true
  end.

Definition ACLCache_EvaluateACL (c : ACLCache) (clientID username topic action : string) : Decision :=
  if negb (ready c) then mkDecision EffectDeny None
  else Evaluate clientID username topic action (resolve_rulesets (cacheEnabled c))
         (resolve_bindings (cacheRoles c) (map_to_list (cacheBindings c)) clientID username).

Record RevocationCache := mkRevocationCache {
  cacheRevoked : gmap string Z;
  revReady : bool;
}.

Definition newRevocationCache : RevocationCache := mkRevocationCache ∅ false.

Definition RevocationCache_refresh (fetched : option (gmap string Z)) (c : RevocationCache) :
    RevocationCache :=
  match fetched with
  | None => c
  | Some m => mkRevocationCache m true
  end.

Definition RevocationCache_IsRevoked (c : RevocationCache) (identity : string) : bool :=
  if negb (revReady c) then true
  else match cacheRevoked c !! identity with Some _ => true | None => false end.

(** ** Specification *)

(** Well-formed states: what [Apply] maintains. *)
Record wf (st : state) : Prop := {
  wf_sessions : is_Some (sessions st);
  wf_identity_owned : dom (sessionIdentity st) ⊆ dom (sessions_map st);
  wf_identity_nonempty : map_Forall (λ _ id, id ≠ "") (sessionIdentity st);
  wf_role_names : map_Forall (λ n r, Name r = n) (roles st);
  wf_bindings : map_Forall (λ _ l, l ≠ [] ∧ NoDup l) (bindings st);
  wf_enabled : map_Forall (λ _ b, b = true) (enabledRulesets st);
}.

(** The rules in force for a principal: those of the enabled built-in
    rulesets and those of the roles bound to its client ID or user name. *)
Definition rule_in_force (st : state) (clientID username : string) (r : ACLRule) : Prop :=
  (∃ name b role, enabledRulesets st !! name = Some b ∧ StandardRulesets !! name = Some role ∧
                  r ∈ Rules role) ∨
  (∃ principal names rn role, (principal = clientID ∨ principal = username) ∧
     bindings st !! principal = Some names ∧ rn ∈ names ∧ roles st !! rn = Some role ∧ r ∈ Rules role).

(** A command that is a claim, a release or a revocation. *)
Definition is_claim (c n id : string) (e : Z * (string + Command)) : Prop :=
  ∃ now cmd, e = (now, inr cmd) ∧ Op cmd = OpClaimSession ∧
    ClientID cmd = c ∧ NodeID cmd = n ∧ Identity cmd = id.

Definition is_release (c n : string) (e : Z * (string + Command)) : Prop :=
  ∃ now cmd, e = (now, inr cmd) ∧ Op cmd = OpReleaseSession ∧ ClientID cmd = c ∧ NodeID cmd = n.

Definition is_revoke (id : string) (e : Z * (string + Command)) : Prop :=
  ∃ now cmd, e = (now, inr cmd) ∧ Op cmd = OpRevokeCertificate ∧ Identity cmd = id.

Definition is_bind (role : string) (e : Z * (string + Command)) : Prop :=
  ∃ now cmd, e = (now, inr cmd) ∧ Op cmd = OpCreateBinding ∧ RoleName cmd = role.

(** ** Lemmas *)

Lemma copy_map_id {A} (m : gmap string A) : copy_map m = m.
Proof.
  unfold copy_map. rewrite fold_left_insert by apply NoDup_fst_map_to_list.
  by rewrite list_to_map_to_list, (right_id_L ∅ (∪)).
Qed.

#[export] Hint Rewrite @copy_map_id : gomap.

Lemma clientIDsForIdentity_elem st identity c :
  c ∈ clientIDsForIdentity st identity ↔ sessionIdentity st !! c = Some identity.
Proof.
  unfold clientIDsForIdentity.
  rewrite (fold_left_collect (λ '(c, id), if String.eqb id identity then [c] else [])).
  2:{ intros acc [c' id]. destruct (String.eqb id identity); [done|by rewrite app_nil_r]. }
  simpl. rewrite list_elem_of_bind. split.
  - intros ([c' i] & Hin & Hm). destruct (String.eqb_spec i identity) as [E|]; [|set_solver].
    subst i. apply list_elem_of_singleton in Hin as ->. by apply elem_of_map_to_list.
  - intros H. exists (c, identity). rewrite String.eqb_refl. split; [set_solver|].
    by apply elem_of_map_to_list.
Qed.

Lemma resolve_rulesets_elem names r :
  r ∈ mjoin (Rules <$> resolve_rulesets names) ↔
  ∃ name role, name ∈ names ∧ StandardRulesets !! name = Some role ∧ r ∈ Rules role.
Proof.
  unfold resolve_rulesets.
  rewrite (fold_left_collect (λ name, match StandardRulesets !! name with Some role => [role] | None => [] end)).
  2:{ intros acc n. case_match; [done|by rewrite app_nil_r]. }
  simpl. rewrite list_elem_of_join. split.
  - intros (l & Hr & (role & -> & (name & Hrole & Hn)%list_elem_of_bind)%list_elem_of_fmap).
    exists name, role. case_match; [|set_solver]. apply list_elem_of_singleton in Hrole as ->. done.
  - intros (name & role & Hn & E & Hr). exists (Rules role). split; [done|].
    apply list_elem_of_fmap. exists role. split; [done|]. apply list_elem_of_bind.
    exists name. rewrite E. set_solver.
Qed.

Lemma resolve_bindings_elem rs bs clientID username r :
  r ∈ resolve_bindings rs bs clientID username ↔
  ∃ principal names rn role, (principal = clientID ∨ principal = username) ∧
    (principal, names) ∈ bs ∧ rn ∈ names ∧ rs !! rn = Some role ∧ r ∈ Rules role.
Proof.
  set (g := λ rn, match rs !! rn with Some role => Rules role | None => [] end).
  unfold resolve_bindings.
  rewrite (fold_left_collect (λ '(principal, names),
    if negb (String.eqb principal clientID) && negb (String.eqb principal username) then []
    else names ≫= g)).
  2:{ intros acc [p names]. case_match; [by rewrite app_nil_r|].
      apply fold_left_collect. intros acc' rn. unfold g. case_match; [done|by rewrite app_nil_r]. }
  simpl. rewrite list_elem_of_bind. split.
  - intros ([p names] & Hr & Hb). case_match eqn:E; [set_solver|].
    apply list_elem_of_bind in Hr as (rn & Hr & Hrn). unfold g in Hr.
    case_match eqn:Er; [|set_solver]. exists p, names, rn, r0. split_and!; auto.
    destruct (String.eqb_spec p clientID), (String.eqb_spec p username); simpl in E; auto; done.
  - intros (p & names & rn & role & Hp & Hb & Hrn & Er & Hr). exists (p, names). split; [|done].
    replace (negb (String.eqb p clientID) && negb (String.eqb p username)) with false.
    + apply list_elem_of_bind. exists rn. unfold g. by rewrite Er.
    + destruct Hp as [-> | ->]; rewrite String.eqb_refl; [done|by rewrite andb_false_r].
Qed.

Lemma enabledRulesetsSnapshot_elem st name :
  name ∈ enabledRulesetsSnapshot st ↔ enabledRulesets st !! name = Some true.
Proof.
  unfold enabledRulesetsSnapshot.
  rewrite (fold_left_collect (λ '(name, enabled), if enabled : bool then [name] else [])).
  2:{ intros acc [n []]; [done|by rewrite app_nil_r]. }
  simpl. rewrite list_elem_of_bind. split.
  - intros ([n []] & Hn & Hm); [|set_solver]. apply list_elem_of_singleton in Hn as ->.
    by apply elem_of_map_to_list.
  - intros H. exists (name, true). split; [set_solver|]. by apply elem_of_map_to_list.
Qed.

(** Decisions depend on the candidate rules only through membership, up to
    the choice among equally specific explaining rules. *)
Definition same_decision (d1 d2 : Decision) : Prop :=
  DecisionEffect d1 = DecisionEffect d2 ∧ (DecisionRule d1 = None ↔ DecisionRule d2 = None).

Lemma Evaluate_rule_None clientID username topic action enabled custom :
  DecisionRule (Evaluate clientID username topic action enabled custom) = None ↔
  ∀ r, r ∈ candidate_rules enabled custom → rule_applies clientID username topic action r →
    Effect r ≠ EffectDeny ∧ Effect r ≠ EffectAllow.
Proof.
  destruct (Evaluate_inv clientID username topic action enabled custom) as (b & [HD HA] & ->).
  destruct (bestDeny b) as [d|]; simpl in HD.
  - split; [done|]. destruct HD as (? & ? & ? & _). intros Hn. by destruct (Hn d) as [[] _].
  - destruct HD as [_ HD]. destruct (bestAllow b) as [a|]; simpl in HA.
    + split; [done|]. destruct HA as (? & ? & ? & _). intros Hn. by destruct (Hn a) as [_ []].
    + destruct HA as [_ HA]. split; [auto|done].
Qed.

Lemma Evaluate_ext clientID username topic action e1 c1 e2 c2 :
  (∀ r, r ∈ candidate_rules e1 c1 ↔ r ∈ candidate_rules e2 c2) →
  same_decision (Evaluate clientID username topic action e1 c1)
    (Evaluate clientID username topic action e2 c2).
Proof.
  intros H. split; [|rewrite !Evaluate_rule_None; by setoid_rewrite H].
  assert (∀ e c, DecisionEffect (Evaluate clientID username topic action e c) =
    if Allowed (Evaluate clientID username topic action e c) then EffectAllow else EffectDeny) as Hd.
  { intros e c. unfold Evaluate. by repeat case_match. }
  rewrite !Hd. f_equal.
  assert (Allowed (Evaluate clientID username topic action e1 c1) =
          Allowed (Evaluate clientID username topic action e2 c2)) as ->; [|done].
  apply Bool.eq_true_iff_eq. rewrite !Evaluate_allowed_iff. by setoid_rewrite H.
Qed.

(** What [store_kept] leaves under its key. *)
Definition kept_entry (kept : list string) : option (list string) :=
  match kept with [] => None | _ :: _ => Some kept end.

Lemma store_kept_lookup p kept b q :
  store_kept p kept b !! q = if decide (p = q) then kept_entry kept else b !! q.
Proof.
  destruct (decide (p = q)) as [<-|Hn], kept; simpl; by simplify_map_eq.
Qed.

Lemma fold_store_kept_lookup role l (b : gmap string (list string)) q :
  NoDup l.*1 →
  fold_left (λ b '(principal, roleNames), store_kept principal (kept_roles role roleNames) b) l b !! q =
    match (list_to_map l : gmap string (list string)) !! q with
    | Some names => kept_entry (kept_roles role names)
    | None => b !! q
    end.
Proof.
  revert b. induction l as [|[p names] l IH]; intros b Hnd; simpl; [by rewrite lookup_empty|].
  apply NoDup_cons in Hnd as [Hp Hnd]. rewrite IH by done.
  destruct (decide (p = q)) as [<-|Hn].
  - rewrite lookup_insert_eq, not_elem_of_list_to_map_1 by done.
    rewrite store_kept_lookup. by rewrite decide_True.
  - rewrite lookup_insert_ne by done. case_match; [done|].
    rewrite store_kept_lookup. by rewrite decide_False.
Qed.

Lemma applyDeleteRole_bindings cmd st q :
  bindings (applyDeleteRole cmd st) !! q =
    bindings st !! q ≫= λ names, kept_entry (kept_roles (RoleName cmd) names).
Proof.
  unfold applyDeleteRole; simpl. rewrite fold_store_kept_lookup by apply NoDup_fst_map_to_list.
  rewrite list_to_map_to_list. by destruct (bindings st !! q).
Qed.

Lemma kept_roles_elem role names rn : rn ∈ kept_roles role names ↔ rn ∈ names ∧ rn ≠ role.
Proof.
  unfold kept_roles. rewrite !list_elem_of_In, filter_In, negb_true_iff, String.eqb_neq. done.
Qed.

Lemma kept_roles_NoDup role names : NoDup names → NoDup (kept_roles role names).
Proof. rewrite !NoDup_ListNoDup. apply List.NoDup_filter. Qed.

Lemma kept_entry_wf role names l :
  NoDup names → kept_entry (kept_roles role names) = Some l → l ≠ [] ∧ NoDup l.
Proof.
  intros Hnd. pose proof (kept_roles_NoDup role names Hnd) as H.
  destruct (kept_roles role names); [done|]. by intros [= <-].
Qed.

Lemma existsb_role names role :
  existsb (λ rn, String.eqb rn role) names = false → role ∉ names.
Proof.
  intros H Hin. assert (existsb (λ rn, String.eqb rn role) names = true) as E; [|congruence].
  apply existsb_exists. exists role. rewrite String.eqb_refl. by rewrite <-list_elem_of_In.
Qed.

(** Splits [Apply] into its branches, naming the operation of each. *)
Ltac apply_cases :=
  unfold Apply;
  repeat match goal with
  | |- context [if String.eqb (Op ?cmd) ?o then _ else _] =>
      let E := fresh "Eop" in destruct (String.eqb_spec (Op cmd) o) as [E|E]
  end.

(** Well-formedness of the branches that change the state. *)
Lemma applyClaimSession_wf cmd st :
  wf st → ∃ st' ev, applyClaimSession cmd st = Some (st', mkApplyResult true None ev) ∧ wf st'.
Proof.
  intros [[m Hm] Hd Hne Hr Hb He]. unfold applyClaimSession, sessions_map in *. rewrite Hm in *.
  simpl in *. do 2 eexists. split; [done|].
  destruct (String.eqb_spec (Identity cmd) "") as [E|E];
    split; simpl; unfold sessions_map; simpl; eauto; try set_solver.
  - by apply map_Forall_delete.
  - by apply map_Forall_insert_2.
Qed.

Lemma applyReleaseSession_wf cmd st : wf st → wf (applyReleaseSession cmd st).
Proof.
  intros Hwf. unfold applyReleaseSession. repeat case_match; try done.
  destruct Hwf as [[m Hm] Hd Hne Hr Hb He]. unfold sessions_map in *. rewrite Hm in *. simpl in *.
  split; simpl; unfold sessions_map; simpl; eauto; [set_solver|by apply map_Forall_delete].
Qed.

Lemma set_roles_wf m b st :
  wf st → map_Forall (λ n r, Name r = n) m → map_Forall (λ _ l, l ≠ [] ∧ NoDup l) b →
  wf (set_roles m b st).
Proof. intros [? ? ? ? ? ?] ? ?. by split. Qed.

Lemma set_enabled_wf m st : wf st → map_Forall (λ _ b, b = true) m → wf (set_enabled m st).
Proof. intros [? ? ? ? ? ?] ?. by split. Qed.

Lemma applyDeleteRole_wf cmd st : wf st → wf (applyDeleteRole cmd st).
Proof.
  intros Hwf. apply set_roles_wf; [done|apply map_Forall_delete, Hwf|].
  intros q l H. pose proof (applyDeleteRole_bindings cmd st q) as E. simpl in E. rewrite E in H.
  apply bind_Some in H as (names & Hn & Hk). eapply kept_entry_wf; [|done].
  by apply (wf_bindings st Hwf q).
Qed.

Lemma applyCreateBinding_wf cmd st : wf st → wf (applyCreateBinding cmd st).
Proof.
  intros Hwf. unfold applyCreateBinding. destruct (existsb _ _) eqn:E; [done|].
  apply existsb_role in E. apply set_roles_wf; [done|apply Hwf|].
  apply map_Forall_insert_2; [|apply Hwf]. split; [by intros []%app_nil|].
  apply NoDup_app. split_and!; [|set_solver|apply NoDup_singleton].
  destruct (bindings st !! _) eqn:Eb; simpl; [by apply (wf_bindings st Hwf _ _ Eb)|constructor].
Qed.

Lemma applyDeleteBinding_wf cmd st : wf st → wf (applyDeleteBinding cmd st).
Proof.
  intros Hwf. apply set_roles_wf; [done|apply Hwf|]. intros q l. rewrite store_kept_lookup.
  destruct (decide _) as [<-|]; [|apply (wf_bindings st Hwf)]. apply kept_entry_wf.
  destruct (bindings st !! _) eqn:Eb; simpl; [by apply (wf_bindings st Hwf _ _ Eb)|constructor].
Qed.

Lemma Apply_wf now log st :
  wf st → ∃ st' res, Apply now log st = Some (st', res) ∧ wf st'.
Proof.
  intros Hwf. destruct log as [e|cmd]; [by do 2 eexists|]. apply_cases;
    try (do 2 eexists; split; [done|];
         first [done|by apply applyReleaseSession_wf|by apply applyDeleteRole_wf
               |by apply applyCreateBinding_wf|by apply applyDeleteBinding_wf]).
  - destruct (applyClaimSession_wf cmd st Hwf) as (st' & ev & -> & ?). eauto.
  - do 2 eexists. split; [done|]. apply set_roles_wf; [done| |apply Hwf].
    by apply map_Forall_insert_2; [|apply Hwf].
  - do 2 eexists. split; [done|]. apply set_enabled_wf; [done|].
    apply map_Forall_insert_2; [done|apply Hwf].
  - do 2 eexists. split; [done|]. apply set_enabled_wf; [done|]. apply map_Forall_delete, Hwf.
  - do 2 eexists. split; [done|]. by destruct Hwf; split.
  - do 2 eexists. split; [done|]. by destruct Hwf; split.
Qed.

Lemma newState_wf : wf newState.
Proof. split; simpl; [by eexists|unfold sessions_map; simpl; set_solver|..]; apply map_Forall_empty. Qed.

Lemma replay_wf entries st : wf st → ∃ st', replay entries st = Some st' ∧ wf st'.
Proof.
  revert st. induction entries as [|[now log] entries IH]; intros st Hwf; simpl; [eauto|].
  destruct (Apply_wf now log st Hwf) as (st' & res & -> & ?). eauto.
Qed.

(** Owner and claimed identity (empty when none) of a session. *)
Definition session_view (st : state) (c : string) : option (string * string) :=
  (λ owner, (owner, default "" (sessionIdentity st !! c))) <$> sessionOwner st c.

(** The effect of one log entry on the session of [c]. *)
Definition session_step (c : string) (log : string + Command) (v : option (string * string)) :
    option (string * string) :=
  match log with
  | inl _ => v
  | inr cmd =>
      if bool_decide (ClientID cmd = c) then
        if bool_decide (Op cmd = OpClaimSession) then Some (NodeID cmd, Identity cmd)
        else if bool_decide (Op cmd = OpReleaseSession) then
          match v with
          | Some (owner, _) => if bool_decide (owner = NodeID cmd) then None else v
          | None => None
          end
        else v
      else v
  end.

Lemma session_view_claim cmd st m c :
  sessions st = Some m →
  session_view (set_sessions (<[ClientID cmd := NodeID cmd]> m)
    (if String.eqb (Identity cmd) "" then delete (ClientID cmd) (sessionIdentity st)
     else <[ClientID cmd := Identity cmd]> (sessionIdentity st)) st) c =
  if bool_decide (ClientID cmd = c) then Some (NodeID cmd, Identity cmd) else session_view st c.
Proof.
  intros Hm. unfold session_view, sessionOwner, sessions_map. simpl. rewrite Hm. simpl.
  destruct (String.eqb_spec (Identity cmd) "") as [Ei|Ei]; case_bool_decide; subst; simplify_map_eq; try done.
  by rewrite Ei.
Qed.

Lemma session_view_release cmd st c :
  session_view (applyReleaseSession cmd st) c =
  if bool_decide (ClientID cmd = c) then
    match session_view st c with
    | Some (owner, _) => if bool_decide (owner = NodeID cmd) then None else session_view st c
    | None => None
    end
  else session_view st c.
Proof.
  unfold applyReleaseSession, session_view, sessionOwner.
  case_bool_decide as Ec; subst; destruct (sessions_map st !! ClientID cmd) as [o|] eqn:E;
    simpl; rewrite ?E; simpl; try done;
    destruct (String.eqb_spec o (NodeID cmd)); unfold sessions_map; simpl; simplify_map_eq; try done.
  - by rewrite bool_decide_eq_true_2.
  - by rewrite bool_decide_eq_false_2.
Qed.

Lemma Apply_session now log st st' res c :
  Apply now log st = Some (st', res) → session_view st' c = session_step c log (session_view st c).
Proof.
  destruct log as [e|cmd]; [by intros [= <- <-]|]. apply_cases; intros H; simpl;
    repeat match goal with E : Op cmd = ?o |- _ => rewrite E; clear E end; simpl;
    try (injection H as <- <-; simpl; by repeat case_bool_decide).
  - unfold applyClaimSession in H. destruct (sessions st) as [m|] eqn:Em; [|done].
    injection H as <- <-. rewrite session_view_claim by done. done.
  - injection H as <- <-. rewrite session_view_release. done.
  - injection H as <- <-. unfold applyCreateBinding. repeat case_match; by repeat case_bool_decide.
Qed.

Lemma replay_app e1 e2 st : replay (e1 ++ e2) st = replay e1 st ≫= replay e2.
Proof.
  revert st. induction e1 as [|[now log] e1 IH]; intros st; simpl; [done|].
  destruct (Apply now log st) as [[st' res]|]; [apply IH|done].
Qed.

Lemma replay_snoc es now log st st' :
  replay (es ++ [(now, log)]) st = Some st' →
  ∃ st1 res, replay es st = Some st1 ∧ Apply now log st1 = Some (st', res).
Proof.
  rewrite replay_app. intros (st1 & E & H)%bind_Some. simpl in H.
  destruct (Apply now log st1) as [[st2 res]|] eqn:Ea; [|done]. injection H as ->. eauto.
Qed.

(** No entry of [post] supersedes a claim of [c] by [n]. *)
Definition undisturbed (c n : string) (post : list (Z * (string + Command))) : Prop :=
  ∀ e, e ∈ post → (∀ n' id', ¬ is_claim c n' id' e) ∧ ¬ is_release c n e.

Lemma session_step_cases c now log v n id :
  session_step c log v = Some (n, id) ↔
  is_claim c n id (now, log) ∨ (v = Some (n, id) ∧ undisturbed c n [(now, log)]).
Proof.
  unfold undisturbed, is_claim, is_release. split.
  - destruct log as [e|cmd]; simpl.
    { intros ->. right. split; [done|]. set_solver. }
    intros H. destruct (decide (ClientID cmd = c)) as [Ec|Ec];
      [rewrite bool_decide_eq_true_2 in H by done|rewrite bool_decide_eq_false_2 in H by done].
    + destruct (decide (Op cmd = OpClaimSession)) as [Eo|Eo];
        [rewrite bool_decide_eq_true_2 in H by done|rewrite bool_decide_eq_false_2 in H by done].
      * injection H as <- <-. left. eauto 10.
      * right. destruct (decide (Op cmd = OpReleaseSession)) as [Er|Er];
          [rewrite bool_decide_eq_true_2 in H by done|rewrite bool_decide_eq_false_2 in H by done].
        -- destruct v as [[o i]|]; [|done]. case_bool_decide; [done|]. injection H as -> ->.
           split; [done|]. intros e ->%list_elem_of_singleton. naive_solver.
        -- split; [done|]. intros e ->%list_elem_of_singleton. naive_solver.
    + right. split; [done|]. intros e ->%list_elem_of_singleton. naive_solver.
  - intros [(? & cmd & [= <- ->] & Eo & Ec & En & Ei)|[-> H]]; simpl.
    + rewrite Ec, Eo, !bool_decide_eq_true_2 by done. by rewrite En, Ei.
    + destruct log as [e|cmd]; [done|]. simpl.
      destruct (H (now, inr cmd)) as [H1 H2]; [set_solver|].
      repeat case_bool_decide; try done; exfalso; [eapply H1|eapply H2]; eauto 10.
Qed.

Lemma session_trace entries st c n id :
  replay entries newState = Some st →
  session_view st c = Some (n, id) ↔
  ∃ pre e post, entries = pre ++ e :: post ∧ is_claim c n id e ∧ undisturbed c n post.
Proof.
  revert st. induction entries as [|[now log] entries IH] using rev_ind; intros st H.
  - injection H as <-. split; [done|]. intros (pre & ? & ? & E & _). by destruct pre.
  - apply replay_snoc in H as (st1 & res & Hr & Ha). rewrite (Apply_session _ _ _ _ _ c Ha).
    rewrite (session_step_cases c now), (IH _ Hr). split.
    + intros [Hc|[(pre & e & post & -> & Hc & Hu) Hn]].
      * exists entries, (now, log), []. split_and!; [done|done|]. intros e He. set_solver.
      * exists pre, e, (post ++ [(now, log)]). split_and!; [by rewrite <-app_assoc|done|].
        intros e' [?|?]%elem_of_app; [by apply Hu|by apply Hn].
    + intros (pre & e & post & E & Hc & Hu).
      destruct post as [|e' post _] using rev_ind.
      * apply app_inj_tail in E as [_ <-]. by left.
      * right. rewrite app_comm_cons, app_assoc in E. apply app_inj_tail in E as [-> <-]. split.
        -- exists pre, e, post. split_and!; [done|done|]. intros x Hx. apply Hu. set_solver.
        -- intros x Hx. apply Hu. set_solver.
Qed.

Lemma session_identity_owned st c id :
  wf st → sessionIdentity st !! c = Some id ↔ id ≠ "" ∧ ∃ n, session_view st c = Some (n, id).
Proof.
  intros Hwf. unfold session_view, sessionOwner. split.
  - intros H. split; [by apply (wf_identity_nonempty st Hwf c)|].
    assert (c ∈ dom (sessions_map st)) as [n Hn]%elem_of_dom.
    { apply (wf_identity_owned st Hwf). apply elem_of_dom. eauto. }
    exists n. by rewrite Hn, H.
  - intros [Hne [n H]]. destruct (sessions_map st !! c); [|done]. simpl in H.
    injection H as _ H. destruct (sessionIdentity st !! c); simpl in H; by subst.
Qed.

(** Bindings to a role only appear through CreateBinding. *)
Definition unbound (role : string) (st : state) : Prop :=
  ∀ p names, bindings st !! p = Some names → role ∉ names.

Lemma store_kept_unbound role role' p names b :
  (∀ q l, b !! q = Some l → role ∉ l) → role ∉ names →
  ∀ q l, store_kept p (kept_roles role' names) b !! q = Some l → role ∉ l.
Proof.
  intros Hb Hn q l. rewrite store_kept_lookup. destruct (decide _); [|apply Hb].
  unfold kept_entry. destruct (kept_roles role' names) eqn:E; [done|]. intros [= <-].
  rewrite <-E. rewrite kept_roles_elem. tauto.
Qed.

Lemma applyDeleteRole_unbound cmd role st :
  unbound role st ∨ RoleName cmd = role → unbound role (applyDeleteRole cmd st).
Proof.
  intros H p names. rewrite applyDeleteRole_bindings. intros (l & Hl & Hk)%bind_Some.
  unfold kept_entry in Hk. destruct (kept_roles _ l) eqn:E; [done|]. injection Hk as <-.
  rewrite <-E, kept_roles_elem. destruct H as [H| ->]; [|tauto]. specialize (H _ _ Hl). tauto.
Qed.

Lemma Apply_unbound now log st st' res role :
  Apply now log st = Some (st', res) → ¬ is_bind role (now, log) → unbound role st → unbound role st'.
Proof.
  destruct log as [e|cmd]; [by intros [= <- <-]|]. intros H Hnb Hu. revert H.
  apply_cases; intros H; try (by injection H as <- <-).
  - unfold applyClaimSession in H. destruct (sessions st); [|done]. by injection H as <- <-.
  - injection H as <- <-. unfold applyReleaseSession. by repeat case_match.
  - injection H as <- <-. apply applyDeleteRole_unbound. by left.
  - injection H as <- <-. unfold applyCreateBinding. case_match; [done|].
    intros p names. simpl. rewrite lookup_insert. destruct (decide _) as [<-|]; [|apply Hu].
    intros [= <-]. intros [Hin|Hin%list_elem_of_singleton]%elem_of_app.
    + destruct (bindings st !! Principal cmd) eqn:E; simpl in Hin; [by eapply Hu|set_solver].
    + apply Hnb. do 2 eexists. eauto.
  - injection H as <- <-. intros p names. simpl. apply store_kept_unbound; [apply Hu|].
    destruct (bindings st !! Principal cmd) eqn:E; simpl; [by eapply Hu|set_solver].
Qed.

Lemma replay_unbound entries st st' role :
  replay entries st = Some st' → (∀ e, e ∈ entries → ¬ is_bind role e) →
  unbound role st → unbound role st'.
Proof.
  revert st. induction entries as [|[now log] entries IH]; simpl; intros st H Hn Hu.
  - by injection H as <-.
  - destruct (Apply now log st) as [[st1 res]|] eqn:E; [|done].
    eapply IH; [done|set_solver|]. eapply Apply_unbound; [done| |done]. apply Hn. set_solver.
Qed.

(** An operation that is not the one asked for. *)
Ltac other_op := solve [done | match goal with E : Op ?c = _ |- Op ?c ≠ _ => by rewrite E end].

Lemma Apply_revoked_map now log st st' res :
  Apply now log st = Some (st', res) →
  revoked st' = match log with
                | inr cmd => if bool_decide (Op cmd = OpRevokeCertificate)
                             then <[Identity cmd := now]> (revoked st) else revoked st
                | inl _ => revoked st
                end.
Proof.
  destruct log as [e|cmd]; [by intros [= <- <-]|].
  apply_cases; intros H;
    first [rewrite bool_decide_eq_false_2 by other_op | rewrite bool_decide_eq_true_2 by done];
    try (by injection H as <- <-).
  - unfold applyClaimSession in H. destruct (sessions st); [|done]. by injection H as <- <-.
  - injection H as <- <-. unfold applyReleaseSession. by repeat case_match.
  - injection H as <- <-. unfold applyCreateBinding. by repeat case_match.
Qed.

Lemma Apply_revoked now log st st' res id :
  Apply now log st = Some (st', res) →
  isRevoked st' id = true ↔ isRevoked st id = true ∨ is_revoke id (now, log).
Proof.
  intros H. unfold isRevoked, is_revoke. rewrite (Apply_revoked_map _ _ _ _ _ H).
  destruct log as [e|cmd]; [naive_solver|]. case_bool_decide as E; [|naive_solver].
  rewrite lookup_insert. destruct (decide (Identity cmd = id)) as [<-|Hd]; [naive_solver|].
  split; [auto|]. intros [?|(? & ? & [= <- <-] & _ & ?)]; done.
Qed.

Lemma replay_revoked entries st st' id :
  replay entries st = Some st' →
  isRevoked st' id = true ↔ isRevoked st id = true ∨ ∃ e, e ∈ entries ∧ is_revoke id e.
Proof.
  revert st. induction entries as [|[now log] entries IH]; simpl; intros st H.
  - injection H as <-. split; [auto|]. intros [?|(? & ? & _)]; [done|set_solver].
  - destruct (Apply now log st) as [[st1 res]|] eqn:E; [|done].
    rewrite (IH _ H), (Apply_revoked _ _ _ _ _ _ E). split.
    + intros [[?|?]|(e & ? & ?)]; [by left|right; eexists; split; [by left|done]|].
      right. exists e. split; [by right|done].
    + intros [?|(e & [->|?]%elem_of_cons & ?)]; eauto.
Qed.

(** Replicas that applied the same log at different times. *)
Definition agree (s1 s2 : state) : Prop :=
  sessions s1 = sessions s2 ∧ sessionIdentity s1 = sessionIdentity s2 ∧ roles s1 = roles s2 ∧
  bindings s1 = bindings s2 ∧ enabledRulesets s1 = enabledRulesets s2 ∧
  redisPrimary s1 = redisPrimary s2 ∧ dom (revoked s1) = dom (revoked s2).

Lemma Apply_agree t1 t2 log s1 s2 :
  agree s1 s2 →
  match Apply t1 log s1, Apply t2 log s2 with
  | Some (s1', r1), Some (s2', r2) => agree s1' s2' ∧ r1 = r2
  | None, None => True
  | _, _ => False
  end.
Proof.
  destruct s1 as [a1 b1 c1 d1 e1 f1 g1], s2 as [a2 b2 c2 d2 e2 f2 g2].
  intros (H1 & H2 & H3 & H4 & H5 & H6 & H7). simpl in *. subst.
  destruct log as [e|cmd]; [by split|]. apply_cases; try (by split).
  - unfold applyClaimSession, sessions_map. simpl. by destruct a2.
  - unfold applyReleaseSession, sessions_map. simpl. by repeat case_match.
  - unfold applyCreateBinding. simpl. by repeat case_match.
  - split; [|done]. repeat split; try done. simpl. rewrite !dom_insert_L. by rewrite H7.
Qed.

Lemma replay_agree e1 e2 s1 s2 s1' :
  e1.*2 = e2.*2 → agree s1 s2 → replay e1 s1 = Some s1' →
  ∃ s2', replay e2 s2 = Some s2' ∧ agree s1' s2'.
Proof.
  revert e2 s1 s2. induction e1 as [|[t1 l1] e1 IH]; intros [|[t2 l2] e2] s1 s2 He Ha H; try done; simpl in *.
  - injection H as <-. eauto.
  - injection He as -> He. pose proof (Apply_agree t1 t2 l2 s1 s2 Ha) as Hs.
    destruct (Apply t1 l2 s1) as [[x1 r1]|], (Apply t2 l2 s2) as [[x2 r2]|]; try done.
    destruct Hs as [Hs _]. eauto.
Qed.

Lemma rule_in_force_candidates st names bs clientID username r :
  names ≡ₚ (map_to_list (enabledRulesets st)).*1 → bs ≡ₚ map_to_list (bindings st) →
  r ∈ candidate_rules (resolve_rulesets names) (resolve_bindings (roles st) bs clientID username) ↔
  rule_in_force st clientID username r.
Proof.
  intros Hn Hb. unfold candidate_rules, rule_in_force.
  rewrite elem_of_app, resolve_rulesets_elem, resolve_bindings_elem.
  setoid_rewrite Hn. setoid_rewrite Hb. setoid_rewrite elem_of_map_to_list.
  setoid_rewrite list_elem_of_fmap. split.
  - intros [(name & role & ([n b] & -> & Hm%elem_of_map_to_list) & ? & ?)|?]; [|by right].
    left. simpl in *. eauto 10.
  - intros [(name & b & role & ? & ? & ?)|?]; [|by right]. left. exists name, role.
    split_and!; [|done|done]. exists (name, b). split; [done|]. by apply elem_of_map_to_list.
Qed.

Lemma RemoteRegistry_ACLSnapshot_id st :
  wf st →
  RemoteRegistry_ACLSnapshot (RPCServer_ACLSnapshot st) =
    (roles st, bindings st, enabledRulesetsSnapshot st).
Proof.
  intros Hwf. unfold RPCServer_ACLSnapshot, RemoteRegistry_ACLSnapshot, rolesSnapshot, bindingsSnapshot.
  rewrite !copy_map_id. simpl. f_equal. f_equal.
  - rewrite (fold_left_collect (λ '(name, role), [(name, Rules role)])) by (by intros ? []). simpl.
    rewrite <-(copy_map_id (roles st)) at 2. unfold copy_map.
    assert (∀ l m, (∀ x, x ∈ l → Name x.2 = x.1) →
      fold_left (λ m '(name, rules), <[name := mkRole name rules]> m) (l ≫= λ '(name, role), [(name, Rules role)]) m
      = fold_left (λ (acc : gmap string Role) '(k, v), <[k := v]> acc) l m) as Hl.
    { induction l as [|[n ro] l IH]; intros m Hx; simpl; [done|]. rewrite IH by set_solver. f_equal.
      destruct ro as [n' rules]. f_equal. f_equal. symmetry. apply (Hx (n, mkRole n' rules)). set_solver. }
    apply Hl. intros [n ro] Hin%elem_of_map_to_list. by apply (wf_role_names st Hwf).
  - rewrite (fold_left_collect (λ '(p, names), [(p, names)])) by (by intros ? []). simpl.
    rewrite <-(copy_map_id (bindings st)) at 2. unfold copy_map.
    f_equal. induction (map_to_list (bindings st)) as [|[p l] r IH]; [done|].
    exact (f_equal (cons (p, l)) IH).
Qed.

(** A cache after a history of refreshes. *)
Definition ACLCache_history := fold_left (λ c f, ACLCache_refresh f c).
Definition RevocationCache_history := fold_left (λ c f, RevocationCache_refresh f c).

(** ** Properties *)

(** C19: from the empty state, any log whatsoever — undecodable entries and
    unknown operations included — is applied without a panic and leaves a
    well-formed state: every recorded identity belongs to an owned session,
    bindings are non-empty and duplicate free, roles are stored under their
    own name and every ruleset entry is enabled. *)
Theorem replay_total_wf entries : ∃ st, replay entries newState = Some st ∧ wf st.
Proof. apply replay_wf, newState_wf. Qed.

(** C17: session ownership is decided by the log alone: a client is owned by
    node [n] under identity [id] exactly when some claim by [n] under [id] is
    followed by no other claim of that client and no release by [n]; releases
    by a superseded node change nothing. *)
Theorem session_last_claim_wins entries :
  ∃ st, replay entries newState = Some st ∧
  ∀ c n id, session_view st c = Some (n, id) ↔
    ∃ pre e post, entries = pre ++ e :: post ∧ is_claim c n id e ∧ undisturbed c n post.
Proof.
  destruct (replay_wf entries newState newState_wf) as (st & Hr & _).
  exists st. split; [done|]. intros c n id. by apply session_trace.
Qed.

(** The lookup used when a certificate is revoked finds exactly the
    clients whose current session was claimed under that (non-empty) identity. *)
Theorem revocation_finds_sessions entries :
  ∃ st, replay entries newState = Some st ∧
  ∀ c id, c ∈ clientIDsForIdentity st id ↔
    id ≠ "" ∧ ∃ n pre e post,
      entries = pre ++ e :: post ∧ is_claim c n id e ∧ undisturbed c n post.
Proof.
  destruct (replay_wf entries newState newState_wf) as (st & Hr & Hwf).
  exists st. split; [done|]. intros c id.
  rewrite clientIDsForIdentity_elem, session_identity_owned by done.
  setoid_rewrite (session_trace entries st c); done.
Qed.

(** A revocation is permanent: an identity is revoked after a log exactly
    when it was before or the log revokes it. *)
Theorem revocation_permanent entries st :
  match replay entries st with
  | Some st' => ∀ id, isRevoked st' id = true ↔
      isRevoked st id = true ∨ ∃ e, e ∈ entries ∧ is_revoke id e
  | None => sessions st = None
  end.
Proof.
  destruct (replay entries st) as [st'|] eqn:E; [intros id; by apply replay_revoked|].
  revert st E. induction entries as [|[now log] entries IH]; intros st; simpl; [done|].
  destruct (Apply now log st) as [[st1 res]|] eqn:Ea.
  - intros H%IH. destruct log as [e|cmd]; [by injection Ea as <- <-|]. revert Ea.
    apply_cases; try (by intros [= <- <-]).
    + unfold applyClaimSession. intros Ea. destruct (sessions st); [|done]. by injection Ea as <- <-.
    + intros [= <- <-]. unfold applyReleaseSession in H. by repeat case_match.
    + intros [= <- <-]. unfold applyCreateBinding in H. by repeat case_match.
  - intros _. destruct log as [e|cmd]; [done|]. revert Ea. apply_cases; try done.
    unfold applyClaimSession. by destruct (sessions st).
Qed.

(** Deleting a role removes it from every principal, and no later log
    without a new binding to that role brings a binding back, even if a role
    of the same name is created again. *)
Theorem deleted_role_stays_unbound now cmd entries st st' :
  Op cmd = OpDeleteRole → (∀ e, e ∈ entries → ¬ is_bind (RoleName cmd) e) →
  replay ((now, inr cmd) :: entries) st = Some st' → unbound (RoleName cmd) st'.
Proof.
  intros Eop Hn H. simpl in H. rewrite Eop in H. simpl in H.
  eapply replay_unbound; [done|done|]. apply applyDeleteRole_unbound. by right.
Qed.

Definition witness_bind : Z * (string + Command) :=
  (0%Z, inr (mkCommand OpCreateBinding "" "" "ops" [] "alice" "" "" "")).
Definition witness_create : Z * (string + Command) :=
  (0%Z, inr (mkCommand OpCreateRole "" "" "ops" [] "" "" "" "")).
Definition witness_delete : Command := mkCommand OpDeleteRole "" "" "ops" [] "" "" "" "".

Lemma deleted_role_stays_unbound_witness :
  match replay [witness_create; witness_bind] newState with
  | Some st => match replay [(0%Z, inr witness_delete); witness_create] st with
               | Some st' => unbound "ops" st'
               | None => False
               end
  | None => False
  end.
Proof.
  destruct (replay [witness_create; witness_bind] newState) as [st|] eqn:E; [|done].
  destruct (replay [(0%Z, inr witness_delete); witness_create] st) as [st'|] eqn:E'.
  - refine (deleted_role_stays_unbound 0 witness_delete [witness_create] st st' _ _ E'); [done|].
    intros e ->%list_elem_of_singleton (now & cmd & [= <- <-] & H & _). done.
  - vm_compute in E. injection E as <-. done.
Defined.

(** The ACL decision of a core node: whatever the iteration order of the
    maps, an action is allowed exactly when a rule in force for the client ID
    or user name allows it and none denies it. *)
Theorem evaluateACL_spec st names bs clientID username topic action :
  names ≡ₚ (map_to_list (enabledRulesets st)).*1 → bs ≡ₚ map_to_list (bindings st) →
  Allowed (evaluateACL_in_order names bs (roles st) clientID username topic action) = true ↔
    (∃ r, rule_in_force st clientID username r ∧
          rule_applies clientID username topic action r ∧ Effect r = EffectAllow) ∧
    (∀ r, rule_in_force st clientID username r →
          rule_applies clientID username topic action r → Effect r ≠ EffectDeny).
Proof.
  intros Hn Hb. unfold evaluateACL_in_order. rewrite Evaluate_allowed_iff.
  by setoid_rewrite rule_in_force_candidates.
Qed.

Definition witness_acl_state : state := set_enabled {["keel-device-default" := true]} newState.

Lemma evaluateACL_spec_witness :
  ∃ r, rule_in_force witness_acl_state "dev1" "u" r ∧ rule_applies "dev1" "u" "t/x" ActionPublish r.
Proof.
  assert (["keel-device-default"] ≡ₚ (map_to_list (enabledRulesets witness_acl_state)).*1) as Hn
    by (vm_compute; reflexivity).
  assert ([] ≡ₚ map_to_list (bindings witness_acl_state)) as Hb by (vm_compute; reflexivity).
  destruct (proj1 (evaluateACL_spec witness_acl_state _ _ "dev1" "u" "t/x" ActionPublish Hn Hb) eq_refl)
    as [(r & ? & ? & _) _].
  eauto.
Defined.

(** A snapshot restores the state it was taken from, through the JSON
    encoding with its omitted empty fields. *)
Theorem snapshot_restore_roundtrip entries :
  ∃ st, replay entries newState = Some st ∧ Restore (Persist_Decode (Snapshot st)) = st.
Proof.
  destruct (replay_wf entries newState newState_wf) as (st & Hr & [[m Hm] _ _ _ _ _]).
  exists st. split; [done|]. destruct st as [s i r b e p v]. simpl in Hm. subst s.
  unfold Restore, Snapshot, Persist_Decode, json_map, sessions_map. simpl.
  rewrite !copy_map_id. f_equal; case_bool_decide; by subst.
Qed.

(** Replicas that apply the same log at different times agree on sessions,
    roles, bindings, rulesets, the Redis primary and on which identities are
    revoked. *)
Theorem replicas_agree e1 e2 :
  e1.*2 = e2.*2 →
  ∃ s1 s2, replay e1 newState = Some s1 ∧ replay e2 newState = Some s2 ∧ agree s1 s2.
Proof.
  intros He. destruct (replay_wf e1 newState newState_wf) as (s1 & H1 & _).
  destruct (replay_agree e1 e2 newState newState s1 He) as (s2 & H2 & Ha); [by repeat split|done|].
  eauto.
Qed.

Definition witness_revoke : Command := mkCommand OpRevokeCertificate "" "" "" [] "" "" "d@t" "1".

Lemma replicas_agree_witness :
  ∃ s1 s2, replay [(1%Z, inr witness_revoke)] newState = Some s1 ∧
    replay [(2%Z, inr witness_revoke)] newState = Some s2 ∧ agree s1 s2.
Proof. apply (replicas_agree [(1%Z, inr witness_revoke)] [(2%Z, inr witness_revoke)]). done. Defined.

(** The recorded revocation times do differ between replicas. *)
Lemma revocation_times_diverge :
  replay [(1%Z, inr witness_revoke)] newState ≠ replay [(2%Z, inr witness_revoke)] newState.
Proof. intros H. apply (f_equal (fmap (λ st, revoked st !! "d@t"))) in H. done. Qed.

(** A follower that has not applied the last entry yet may still allow what
    the leader denies. *)
Lemma stale_follower_allows :
  ∃ st st' res, Apply 0 (inr (mkCommand OpDisableRuleset "" "" "" [] "" "keel-device-default" "" "")) st
      = Some (st', res) ∧
    Allowed (evaluateACL st "dev1" "u" "t/x" ActionPublish) = true ∧
    Allowed (evaluateACL st' "dev1" "u" "t/x" ActionPublish) = false.
Proof. exists witness_acl_state. do 2 eexists. split; [done|]. by vm_compute. Qed.

(** A claim that is applied twice (a retry after a lost reply) no longer
    reports the node that has to evict the client. *)
Lemma retried_claim_loses_eviction cmd st st1 r1 st2 r2 now1 now2 :
  Op cmd = OpClaimSession → Apply now1 (inr cmd) st = Some (st1, r1) →
  Apply now2 (inr cmd) st1 = Some (st2, r2) → evictedNode r2 = "".
Proof.
  intros E H1 H2. unfold Apply in *. rewrite E in *. simpl in *. unfold applyClaimSession in *.
  destruct (sessions st); [|done]. injection H1 as <- _. simpl in H2. injection H2 as _ <-.
  simpl. unfold sessions_map. simpl. by rewrite lookup_insert_eq, String.eqb_refl.
Qed.

(** An edge node whose ACL and revocation caches were last refreshed from
    a core's well-formed state takes the core's decisions, and before the
    first successful refresh it denies every action and treats every identity
    as revoked. *)
Theorem edge_caches_agree st c rc failed clientID username topic action identity :
  wf st →
  same_decision
    (ACLCache_EvaluateACL
       (ACLCache_refresh (Some (RemoteRegistry_ACLSnapshot (RPCServer_ACLSnapshot st))) c)
       clientID username topic action)
    (evaluateACL st clientID username topic action) ∧
  RevocationCache_IsRevoked (RevocationCache_refresh (Some (revokedSnapshot st)) rc) identity =
    isRevoked st identity ∧
  ACLCache_EvaluateACL (ACLCache_history (replicate failed None) newACLCache)
    clientID username topic action = mkDecision EffectDeny None ∧
  RevocationCache_IsRevoked (RevocationCache_history (replicate failed None) newRevocationCache)
    identity = true.
Proof.
  intros Hwf. split_and!.
  - rewrite RemoteRegistry_ACLSnapshot_id by done. apply Evaluate_ext. intros r.
    rewrite (rule_in_force_candidates st) by done. unfold candidate_rules, rule_in_force.
    rewrite elem_of_app, resolve_rulesets_elem, resolve_bindings_elem. simpl.
    setoid_rewrite elem_of_map_to_list. setoid_rewrite enabledRulesetsSnapshot_elem. split.
    + intros [(name & role & ? & ? & ?)|?]; [left; eauto 10|by right].
    + intros [(name & b & role & H & ? & ?)|?]; [left|by right].
      pose proof (wf_enabled st Hwf _ _ H). simpl in *. subst b. eauto 10.
  - unfold revokedSnapshot. by rewrite copy_map_id.
  - by induction failed.
  - by induction failed.
Qed.

Lemma edge_caches_agree_witness :
  same_decision
    (ACLCache_EvaluateACL
       (ACLCache_refresh (Some (RemoteRegistry_ACLSnapshot (RPCServer_ACLSnapshot newState))) newACLCache)
       "c" "u" "t" ActionPublish)
    (evaluateACL newState "c" "u" "t" ActionPublish).
Proof.
  apply (edge_caches_agree newState newACLCache newRevocationCache 0 "c" "u" "t" ActionPublish "d@t").
  apply newState_wf.
Defined.
