(* ===== verification/Topics.v ===== *)
(** The subscription index of the vendored broker, thirdparty/mochi-mqtt-server
    (topics.go, with Subscription.Merge of packets/packets.go). The cluster
    router keeps one such trie as its local cache, so its matching decides
    where messages go.

    A [particle] is a node: what is stored at its address ([content]) and its
    children. Parent pointers are not represented: [set] and [trim], which walk
    down and back up, become recursions along the address, and an in-place
    update of the particle returned by [set] is the function argument of
    [set]. The address walks use [isolateParticle] as the code does, with fuel
    bounded by the filter's length; the lemmas relate them to recursion on the
    list of levels. *)

From S2P Require Import Prelude GoStrings Acl.

(** ** Subscriptions (packets.go) *)

Record Subscription := mkSubscription {
  Filter : string;
  Identifier : Z;
  Identifiers : option (gmap string Z);
  RetainHandling : N;
  Qos : N;
  RetainAsPublished : bool;
  NoLocal : bool;
}.

#[export] Instance Subscription_eq_dec : EqDecision Subscription.
Proof. solve_decision. Defined.

(** packets.Subscription{Filter: f} *)
Definition filter_subscription (f : string) : Subscription :=
  mkSubscription f 0 None 0 0 false false.

Definition Merge (s n : Subscription) : Subscription :=
  let ids := match Identifiers s with
             | None => {[Filter s := Identifier s]}
             | Some m => m
             end in
  let ids := if (0 <? Identifier n)%Z then <[Filter n := Identifier n]> ids else ids in
  mkSubscription (Filter s) (Identifier s) (Some ids) (RetainHandling s)
    (if (Qos s <? Qos n)%N then Qos n else Qos s)
    (RetainAsPublished s) (NoLocal n || NoLocal s).

(** ** Addresses *)

Definition SharePrefix : string := "$SHARE".
Definition SysPrefix : string := "$SYS".

(** The loop of [isolateParticle]: [k] is [d - i]. *)
Fixpoint isolate_loop (k : nat) (filter : string) : string * bool :=
  match cut "/" filter with
  | Some (l, r) => match k with O => (l, true) | S k' => isolate_loop k' r end
  | None => (filter, false)
  end.

Definition isolateParticle (filter : string) (d : nat) : string * bool := isolate_loop d filter.
Arguments isolateParticle _ _ : simpl never.

Definition IsSharedFilter (filter : string) : bool :=
  equal_fold (isolateParticle filter 0).1 SharePrefix.

Definition IsValidFilter (filter : string) (forPublish : bool) : bool :=
  if negb forPublish && String.eqb filter "" then false
  else if forPublish && (String.length SysPrefix <=? String.length filter)
          && equal_fold (take_bytes (String.length SysPrefix) filter) SysPrefix then false
  else if forPublish && (contains_byte "+" filter || contains_byte "#" filter) then false
  else
    let wildhash_ok := match cut "#" filter with
                       | Some (_, r) => String.eqb r ""
                       | None => true
                       end in
    if negb wildhash_ok then false
    else
      let '(prefix, hasNext) := isolateParticle filter 0 in
      if negb hasNext && equal_fold prefix SharePrefix then false
      else if hasNext && equal_fold prefix SharePrefix then
        let '(group, hasNext) := isolateParticle filter 1 in
        if negb hasNext then false
        else negb (contains_byte "+" group || contains_byte "#" group)
      else true.

(** ** The trie *)

Record content := mkContent {
  subscriptions : gmap string Subscription;
  shared : gmap string (gmap string Subscription);
  inlineSubscriptions : gmap Z Subscription;
  retainPath : string;
}.

Definition empty_content : content := mkContent ∅ ∅ ∅ "".

Inductive particle := mkParticle (pc : content) (particles : gmap string particle).

Definition pc (p : particle) : content := let 'mkParticle c _ := p in c.
Definition particles (p : particle) : gmap string particle := let 'mkParticle _ m := p in m.

Definition newParticle : particle := mkParticle empty_content ∅.

(** An index is its root particle. *)
Definition NewTopicsIndex : particle := newParticle.

(** Walk bound: one step per level. *)
Definition walk_fuel (filter : string) : nat := S (String.length filter).
Arguments walk_fuel _ : simpl never.

(** [set] followed by an update [g] of the particle it returns. *)
Fixpoint set (fuel : nat) (topic : string) (d : nat) (g : content → content) (n : particle) : particle :=
  match fuel with
  | O => n
  | S fuel' =>
      let '(key, hasNext) := isolateParticle topic d in
      let p := default newParticle (particles n !! key) in
      let p := if hasNext : bool then set fuel' topic (S d) g p else mkParticle (g (pc p)) (particles p) in
      mkParticle (pc n) (<[key := p]> (particles n))
  end.

Fixpoint seek (fuel : nat) (filter : string) (d : nat) (n : particle) : option particle :=
  match fuel with
  | O => None
  | S fuel' =>
      let '(key, hasNext) := isolateParticle filter d in
      match particles n !! key with
      | None => None
      | Some p => if hasNext : bool then seek fuel' filter (S d) p else Some p
      end
  end.

Definition shared_len (m : gmap string (gmap string Subscription)) : nat :=
  map_fold (λ _ group n, n + size group) 0 m.

(** The loop condition of [trim] on a particle with a parent. *)
Definition trimmable (p : particle) : bool :=
  String.eqb (retainPath (pc p)) "" &&
  (size (particles p) + size (subscriptions (pc p)) + shared_len (shared (pc p)) +
     size (inlineSubscriptions (pc p)) =? 0).

(** [trim] of the particle at an existing address: upwards along the address,
    each particle is removed from its parent while it is empty. *)
Fixpoint trim (fuel : nat) (filter : string) (d : nat) (n : particle) : particle :=
  match fuel with
  | O => n
  | S fuel' =>
      let '(key, hasNext) := isolateParticle filter d in
      match particles n !! key with
      | None => n
      | Some p =>
          let p := if hasNext : bool then trim fuel' filter (S d) p else p in
          if trimmable p then mkParticle (pc n) (delete key (particles n))
          else mkParticle (pc n) (<[key := p]> (particles n))
      end
  end.

(** Methods of Subscriptions and SharedSubscriptions on the stored maps. *)
Definition subscriptions_Add (id : string) (val : Subscription) (c : content) : content :=
  mkContent (<[id := val]> (subscriptions c)) (shared c) (inlineSubscriptions c) (retainPath c).

Definition subscriptions_Delete (id : string) (c : content) : content :=
  mkContent (delete id (subscriptions c)) (shared c) (inlineSubscriptions c) (retainPath c).

Definition shared_Add (group id : string) (val : Subscription) (c : content) : content :=
  mkContent (subscriptions c) (<[group := <[id := val]> (default ∅ (shared c !! group))]> (shared c))
    (inlineSubscriptions c) (retainPath c).

Definition shared_Delete (group id : string) (c : content) : content :=
  let subs := delete id (default ∅ (shared c !! group)) in
  mkContent (subscriptions c)
    (if bool_decide (subs = ∅) then delete group (shared c) else <[group := subs]> (shared c))
    (inlineSubscriptions c) (retainPath c).

Definition shared_Get (group id : string) (c : content) : option Subscription :=
  shared c !! group ≫= λ subs, subs !! id.

(** Content of the particle a walk reaches, empty when [set] has to create it. *)
Definition content_or_new (o : option particle) : content :=
  match o with Some p => pc p | None => empty_content end.

Definition Subscribe (client : string) (subscription : Subscription) (x : particle) : particle * bool :=
  let f := Filter subscription in
  let fuel := walk_fuel f in
  let '(prefix, _) := isolateParticle f 0 in
  if equal_fold prefix SharePrefix then
    let '(group, _) := isolateParticle f 1 in
    let existed := shared_Get group client (content_or_new (seek fuel f 2 x)) in
    (set fuel f 2 (shared_Add group client subscription) x, negb (bool_decide (is_Some existed)))
  else
    let existed := subscriptions (content_or_new (seek fuel f 0 x)) !! client in
    (set fuel f 0 (subscriptions_Add client subscription) x, negb (bool_decide (is_Some existed))).

Definition Unsubscribe (filter client : string) (x : particle) : particle * bool :=
  let fuel := walk_fuel filter in
  let '(prefix, _) := isolateParticle filter 0 in
  let shareSub := equal_fold prefix SharePrefix in
  let d := if shareSub then 2 else 0 in
  match seek fuel filter d x with
  | None => (x, false)
  | Some _ =>
      let g := if shareSub then shared_Delete (isolateParticle filter 1).1 client
               else subscriptions_Delete client in
      (trim fuel filter d (set fuel filter d g x), true)
  end.

(** ** Queries *)

Section Scan.
  Context {A : Type} (gatherSub gatherShared gatherInline : particle → A → A).

(** The three gather calls on a matching particle. *)
Definition visit (p : particle) (a : A) : A := gatherInline p (gatherShared p (gatherSub p a)).

Fixpoint scanSubscribers (fuel : nat) (topic : string) (d : nat) (n : particle) (subs : A) : A :=
  match fuel with
  | O => subs
  | S fuel' =>
      if String.eqb topic "" then subs
      else
        let '(key, hasNext) := isolateParticle topic d in
        let step partKey subs :=
          match particles n !! partKey with
          | None => subs
          | Some p =>
              if hasNext : bool then scanSubscribers fuel' topic (S d) p subs
              else
                let subs := visit p subs in
                match particles p !! "#" with
                | Some wild =>
                    if negb (String.eqb partKey "+")
                    then gatherInline p (gatherShared wild (gatherSub wild subs))
                    else subs
                | None => subs
                end
          end in
        let subs := step "+" (step key subs) in
        match particles n !! "#" with
        | Some p => visit p subs
        | None => subs
        end
  end.
End Scan.

(** A subscription with a top-level wildcard on a [$]-topic. *)
Definition first_byte (s : string) : option ascii :=
  match s with EmptyString => None | String c _ => Some c end.

Definition dollar_skipped (topic : string) (sub : Subscription) : bool :=
  match first_byte (Filter sub), first_byte topic with
  | Some f, Some t => Ascii.eqb t "$" && (Ascii.eqb f "+" || Ascii.eqb f "#")
  | _, _ => false
  end.

(** *** ID-only routing queries *)

Record routingSharedChoice := mkChoice { choice_client : string; choice_local : bool }.

Record routingSubscribers := mkRouting {
  nodes : gset string;
  choices : gmap string routingSharedChoice;
}.

Definition routing_gatherSubscriptions (topic : string) (p : particle) (r : routingSubscribers) :
    routingSubscribers :=
  fold_left (λ r '(client, sub),
    if dollar_skipped topic sub then r else mkRouting ({[client]} ∪ nodes r) (choices r))
    (map_to_list (subscriptions (pc p))) r.

Definition routing_gatherMember (local : string) (r : routingSubscribers) (client : string)
    (sub : Subscription) : routingSubscribers :=
  if negb (String.eqb local "") && String.eqb client local then
    mkRouting (nodes r) (<[Filter sub := mkChoice "" true]> (choices r))
  else match choices r !! Filter sub with
       | Some _ => r
       | None => mkRouting (nodes r) (<[Filter sub := mkChoice client false]> (choices r))
       end.

Definition routing_gatherShared (local : string) (p : particle) (r : routingSubscribers) :
    routingSubscribers :=
  fold_left (λ r '(_, shares),
    fold_left (λ r '(client, sub), routing_gatherMember local r client sub) (map_to_list shares) r)
    (map_to_list (shared (pc p))) r.

Definition scan_routing (topic local : string) (x : particle) : routingSubscribers :=
  scanSubscribers (routing_gatherSubscriptions topic) (routing_gatherShared local) (λ _ r, r)
    (walk_fuel topic) topic 0 x (mkRouting ∅ ∅).

Definition SubscriberIDs (topic localSharedMember : string) (x : particle) : gset string :=
  let routing := scan_routing topic localSharedMember x in
  fold_left (λ ns '(_, choice),
    if choice_local choice then ns else {[choice_client choice]} ∪ ns)
    (map_to_list (choices routing)) (nodes routing).

Definition SubscriberRoutingPlan (topic localSharedMember : string) (x : particle) :
    gset string * gmap string string :=
  let routing := scan_routing topic localSharedMember x in
  fold_left (λ '(ns, sh) '(filter, choice),
    if choice_local choice then (ns, <[filter := localSharedMember]> sh)
    else ({[choice_client choice]} ∪ ns, <[filter := choice_client choice]> sh))
    (map_to_list (choices routing)) (nodes routing, ∅).

(** *** Full subscriber snapshots *)

Record Subscribers := mkSubscribers {
  Shared : gmap string (gmap string Subscription);
  SharedSelected : gmap string Subscription;
  SharedSelectedGroups : gmap string string;
  Subscriptions : gmap string Subscription;
  InlineSubscriptions : gmap Z Subscription;
}.

Definition empty_Subscribers : Subscribers := mkSubscribers ∅ ∅ ∅ ∅ ∅.

Definition gatherSubscriptions (topic : string) (p : particle) (s : Subscribers) : Subscribers :=
  fold_left (λ s '(client, sub),
    if dollar_skipped topic sub then s
    else mkSubscribers (Shared s) (SharedSelected s) (SharedSelectedGroups s)
           (<[client := Merge (default sub (Subscriptions s !! client)) sub]> (Subscriptions s))
           (InlineSubscriptions s))
    (map_to_list (subscriptions (pc p))) s.

Definition gatherSharedSubscriptions (p : particle) (s : Subscribers) : Subscribers :=
  fold_left (λ s '(_, shares),
    fold_left (λ s '(client, sub),
      mkSubscribers
        (<[Filter sub := <[client := sub]> (default ∅ (Shared s !! Filter sub))]> (Shared s))
        (SharedSelected s) (SharedSelectedGroups s) (Subscriptions s) (InlineSubscriptions s))
      (map_to_list shares) s)
    (map_to_list (shared (pc p))) s.

Definition gatherInlineSubscriptions (p : particle) (s : Subscribers) : Subscribers :=
  fold_left (λ s '(id, inline),
    mkSubscribers (Shared s) (SharedSelected s) (SharedSelectedGroups s) (Subscriptions s)
      (<[id := inline]> (InlineSubscriptions s)))
    (map_to_list (inlineSubscriptions (pc p))) s.

Definition TopicsIndex_Subscribers (topic : string) (x : particle) : Subscribers :=
  scanSubscribers (gatherSubscriptions topic) gatherSharedSubscriptions gatherInlineSubscriptions
    (walk_fuel topic) topic 0 x empty_Subscribers.

(** The first entry of a [range] over a map is any of its entries: [pick] is
    the choice made by the run-time. *)
Definition SelectShared (pick : gmap string Subscription → option (string * Subscription))
    (s : Subscribers) : Subscribers :=
  fold_left (λ s '(group, subs),
    match pick subs with
    | None => s
    | Some (client, sub) =>
        mkSubscribers (Shared s)
          (<[client := Merge (default sub (SharedSelected s !! client)) sub]> (SharedSelected s))
          (<[group := client]> (SharedSelectedGroups s)) (Subscriptions s) (InlineSubscriptions s)
    end)
    (map_to_list (Shared s))
    (mkSubscribers (Shared s) ∅ ∅ (Subscriptions s) (InlineSubscriptions s)).

Definition MergeSharedSelected (s : Subscribers) : Subscribers :=
  fold_left (λ s '(client, sub),
    mkSubscribers (Shared s) (SharedSelected s) (SharedSelectedGroups s)
      (<[client := Merge (default sub (Subscriptions s !! client)) sub]> (Subscriptions s))
      (InlineSubscriptions s))
    (map_to_list (SharedSelected s)) s.

(** ** Specification *)

(** Recursion on levels. *)
Fixpoint set_path (path : list string) (g : content → content) (n : particle) : particle :=
  match path with
  | [] => mkParticle (g (pc n)) (particles n)
  | k :: rest =>
      mkParticle (pc n) (<[k := set_path rest g (default newParticle (particles n !! k))]> (particles n))
  end.

Fixpoint node_at (path : list string) (n : particle) : option particle :=
  match path with
  | [] => Some n
  | k :: rest => particles n !! k ≫= node_at rest
  end.

Fixpoint trim_path (path : list string) (n : particle) : particle :=
  match path with
  | [] => n
  | k :: rest =>
      match particles n !! k with
      | None => n
      | Some p =>
          let p := trim_path rest p in
          if trimmable p then mkParticle (pc n) (delete k (particles n))
          else mkParticle (pc n) (<[k := p]> (particles n))
      end
  end.

(** Stored content by address; absent addresses are empty. *)
Definition content_at (path : list string) (n : particle) : content :=
  content_or_new (node_at path n).

(** The levels walked from level [d] on; past the last level it is the last. *)
Definition levels_from (f : string) (d : nat) : list string :=
  match drop d (split "/" f) with
  | [] => match last (split "/" f) with Some l => [l] | None => [] end
  | l => l
  end.

(** Where the index keeps a subscription to a filter: the share group, if
    any, and the address. *)
Definition slot (f : string) : option string * list string :=
  if IsSharedFilter f then (Some (isolateParticle f 1).1, levels_from f 2)
  else (None, levels_from f 0).

(** The subscription of a client in a slot. *)
Definition slot_lookup (s : option string * list string) (client : string) (x : particle) :
    option Subscription :=
  match s with
  | (None, path) => subscriptions (content_at path x) !! client
  | (Some group, path) => shared_Get group client (content_at path x)
  end.

(** The addresses a query for a topic visits. *)
Fixpoint scan_paths (levels : list string) : list (list string) :=
  match levels with
  | [] => []
  | [key] => [key] :: (if String.eqb key "+" then [] else [[key; "#"]]) ++ [["+"]; ["#"]]
  | key :: rest => (cons key <$> scan_paths rest) ++ (cons "+" <$> scan_paths rest) ++ [["#"]]
  end.

(** No reachable particle but the root is empty. *)
Definition trimmed (x : particle) : Prop :=
  ∀ path p, path ≠ [] → node_at path x = Some p → trimmable p = false.

(** ** Lemmas: addresses *)

Lemma split_cut f :
  split "/" f = match cut "/" f with Some (l, r) => l :: split "/" r | None => [f] end.
Proof.
  destruct (cut "/" f) as [[l r]|] eqn:E.
  - apply cut_Some in E as [-> H]. by rewrite split_app_sep.
  - apply cut_None in E. by rewrite split_no_sep.
Qed.

Lemma levels_from_0 f : levels_from f 0 = split "/" f.
Proof. unfold levels_from. simpl. by destruct (split_cons_inv "/" f) as (x & xs & ->). Qed.

Lemma levels_from_cut f l r d : cut "/" f = Some (l, r) → levels_from f (S d) = levels_from r d.
Proof.
  intros E. unfold levels_from. rewrite (split_cut f), E. simpl.
  destruct (drop d (split "/" r)); [|done].
  by destruct (split_cons_inv "/" r) as (x & xs & ->).
Qed.

Lemma levels_from_last f d : cut "/" f = None → levels_from f d = [f].
Proof. intros E. unfold levels_from. rewrite (split_cut f), E. by destruct d as [|[]]. Qed.

(** [isolateParticle] returns the level the walk stands on and whether
    another one follows. *)
Lemma isolateParticle_levels f d :
  ∃ k rest, levels_from f d = k :: rest ∧
    isolateParticle f d = (k, negb (bool_decide (rest = []))) ∧
    (rest ≠ [] → levels_from f (S d) = rest).
Proof.
  unfold isolateParticle. revert f. induction d as [|d IH]; intros f; simpl;
    destruct (cut "/" f) as [[l r]|] eqn:E.
  - exists l, (split "/" r). rewrite levels_from_0, (split_cut f), E. split; [done|].
    rewrite bool_decide_eq_false_2 by apply split_not_nil. split; [done|].
    intros _. by rewrite (levels_from_cut f l r), levels_from_0.
  - exists f, []. by rewrite levels_from_last.
  - destruct (IH r) as (k & rest & H1 & H2 & H3). exists k, rest.
    rewrite !(levels_from_cut f l r) by done. done.
  - exists f, []. by rewrite levels_from_last.
Qed.

Lemma split_length f : length (split "/" f) ≤ S (String.length f).
Proof.
  induction f as [|c f IH]; simpl; [lia|].
  destruct (split_cons_inv "/" f) as (x & xs & E). rewrite E in *.
  destruct (Ascii.eqb c "/"); simpl in *; lia.
Qed.

Lemma levels_from_length f d : length (levels_from f d) ≤ walk_fuel f.
Proof.
  unfold levels_from, walk_fuel. pose proof (split_length f) as H.
  destruct (drop d (split "/" f)) as [|k l] eqn:E.
  - destruct (last (split "/" f)); simpl; lia.
  - rewrite <-E, length_drop. lia.
Qed.

(** The walks of the code are the recursions on levels. *)
Lemma set_levels fuel f d g n :
  length (levels_from f d) ≤ fuel → set fuel f d g n = set_path (levels_from f d) g n.
Proof.
  revert d n. induction fuel as [|fuel IH]; intros d n Hf;
    destruct (isolateParticle_levels f d) as (k & rest & E1 & E2 & E3); rewrite E1 in *; simpl in *; [lia|].
  rewrite E2. f_equal. f_equal. case_bool_decide as Er; simpl.
  - by subst.
  - rewrite <-(E3 Er). apply IH. rewrite (E3 Er). lia.
Qed.

Lemma seek_levels fuel f d n :
  length (levels_from f d) ≤ fuel → seek fuel f d n = node_at (levels_from f d) n.
Proof.
  revert d n. induction fuel as [|fuel IH]; intros d n Hf;
    destruct (isolateParticle_levels f d) as (k & rest & E1 & E2 & E3); rewrite E1 in *; simpl in *; [lia|].
  rewrite E2. destruct (particles n !! k) as [p|]; [|done]. simpl. case_bool_decide as Er; simpl.
  - by subst.
  - rewrite <-(E3 Er). apply IH. rewrite (E3 Er). lia.
Qed.

Lemma trim_levels fuel f d n :
  length (levels_from f d) ≤ fuel → trim fuel f d n = trim_path (levels_from f d) n.
Proof.
  revert d n. induction fuel as [|fuel IH]; intros d n Hf;
    destruct (isolateParticle_levels f d) as (k & rest & E1 & E2 & E3); rewrite E1 in *; simpl in *; [lia|].
  rewrite E2. destruct (particles n !! k) as [p|]; [|done]. simpl. case_bool_decide as Er; simpl.
  - by subst.
  - rewrite <-(E3 Er), IH; [done|]. rewrite (E3 Er). lia.
Qed.

(** The visits of a query, as a list of addresses. *)
Lemma scan_levels {A} (gS gH : particle → A → A) fuel topic d n a :
  topic ≠ "" → length (levels_from topic d) ≤ fuel →
  scanSubscribers gS gH (λ _ a, a) fuel topic d n a =
  fold_left (λ a path, match node_at path n with Some p => gH p (gS p a) | None => a end)
    (scan_paths (levels_from topic d)) a.
Proof.
  intros Ht. apply String.eqb_neq in Ht.
  revert d n a. induction fuel as [|fuel IH]; intros d n a Hf;
    destruct (isolateParticle_levels topic d) as (k & rest & E1 & E2 & E3); rewrite E1 in *; simpl in *; [lia|].
  rewrite Ht, E2. unfold visit. destruct rest as [|r rest].
  - rewrite bool_decide_eq_true_2 by done. simpl.
    destruct (particles n !! k) as [p|] eqn:Ek; simpl.
    + destruct (String.eqb k "+") eqn:Ekp; simpl; rewrite ?Ek; simpl.
      * apply String.eqb_eq in Ekp. subst k. rewrite Ek.
        destruct (particles p !! "#"), (particles n !! "#"); simpl; done.
      * destruct (particles p !! "#"), (particles n !! "+") as [q|] eqn:Eq, (particles n !! "#");
          simpl; try (destruct (particles q !! "#")); done.
    + destruct (String.eqb k "+"); simpl; rewrite ?Ek; simpl;
        destruct (particles n !! "+") as [q|] eqn:Eq, (particles n !! "#"); simpl;
        try (destruct (particles q !! "#")); done.
  - rewrite bool_decide_eq_false_2 by done. simpl. rewrite !fold_left_app.
    assert (∀ key b, match particles n !! key with
        | Some p => scanSubscribers gS gH (λ _ a, a) fuel topic (S d) p b | None => b end =
      fold_left (λ a path, match node_at path n with Some p => gH p (gS p a) | None => a end)
        (cons key <$> scan_paths (r :: rest)) b) as Hk.
    { intros key b. destruct (particles n !! key) as [p|] eqn:Ek.
      - rewrite IH, E3 by (rewrite ?E3; simpl in *; done || lia).
        generalize (scan_paths (r :: rest)). intros l. revert b.
        induction l as [|x l IHl]; intros b; simpl; [done|]. rewrite Ek. simpl. by rewrite IHl.
      - generalize (scan_paths (r :: rest)). intros l. revert b.
        induction l as [|x l IHl]; intros b; simpl; [done|]. by rewrite Ek, <-IHl. }
    rewrite !Hk. simpl. destruct (particles n !! "#"); done.
Qed.

(** ** Lemmas: stored content *)

Lemma content_at_new path : content_at path newParticle = empty_content.
Proof. destruct path; unfold content_at; simpl; [done|]. by rewrite lookup_empty. Qed.

Lemma content_at_cons k path n :
  content_at (k :: path) n = content_at path (default newParticle (particles n !! k)).
Proof.
  unfold content_at at 1. simpl. destruct (particles n !! k) as [p|]; simpl; [done|].
  by rewrite content_at_new.
Qed.

Lemma content_at_set path g n q :
  content_at q (set_path path g n) =
    if decide (path = q) then g (content_at path n) else content_at q n.
Proof.
  revert n q. induction path as [|k path IH]; intros n q; simpl.
  - destruct q as [|k' q]; [done|]. rewrite decide_False by done. done.
  - destruct q as [|k' q]; [by rewrite decide_False|]. rewrite !content_at_cons. simpl.
    rewrite lookup_insert. destruct (decide (k = k')) as [<-|Hk]; simpl.
    + rewrite IH. destruct (decide (path = q)) as [<-|Hq].
      * by rewrite decide_True.
      * by rewrite decide_False by congruence.
    + rewrite decide_False by congruence. done.
Qed.

Lemma shared_len_0 m : shared_len m = 0 → map_Forall (λ _ g, g = ∅) m.
Proof.
  unfold shared_len. induction m as [|k g m Hk Hf IH] using map_first_key_ind.
  - intros _. apply map_Forall_empty.
  - rewrite map_fold_insert_first_key by done. intros H.
    apply map_Forall_insert_2; [apply map_size_empty_inv; lia|apply IH; lia].
Qed.

(** What a trimmed particle looked like: nothing stored, no children. *)
Lemma trimmable_empty p :
  trimmable p = true →
  particles p = ∅ ∧ subscriptions (pc p) = ∅ ∧ map_Forall (λ _ g, g = ∅) (shared (pc p)) ∧
  inlineSubscriptions (pc p) = ∅ ∧ retainPath (pc p) = "".
Proof.
  unfold trimmable. intros [H1%String.eqb_eq H2%Nat.eqb_eq]%andb_true_iff.
  split_and!; [apply map_size_empty_inv; lia|apply map_size_empty_inv; lia|
    apply shared_len_0; lia|apply map_size_empty_inv; lia|done].
Qed.

(** Looking up a client through trimmed particles. *)
Definition same_content (c1 c2 : content) : Prop :=
  subscriptions c1 = subscriptions c2 ∧
  (∀ g c, shared_Get g c c1 = shared_Get g c c2) ∧
  inlineSubscriptions c1 = inlineSubscriptions c2 ∧ retainPath c1 = retainPath c2.

#[export] Instance same_content_equiv : Equivalence same_content.
Proof.
  split.
  - by intros c.
  - intros c1 c2 (? & ? & ? & ?). by repeat split.
  - intros c1 c2 c3 (Ha & Hb & Hc & Hd) (Ha' & Hb' & Hc' & Hd'). by split_and!; try congruence.
Qed.

Lemma trimmable_content p q :
  trimmable p = true → same_content (content_at q p) empty_content.
Proof.
  intros (Hp & Hs & Hh & Hi & Hr)%trimmable_empty. destruct q as [|k q].
  - unfold content_at. simpl. split_and!; try done. intros g c. unfold shared_Get. simpl.
    rewrite lookup_empty. simpl. destruct (shared (pc p) !! g) as [m|] eqn:E; simpl; [|done].
    by rewrite (Hh _ _ E), lookup_empty.
  - rewrite content_at_cons, Hp, lookup_empty. simpl. by rewrite content_at_new.
Qed.

Lemma content_at_trim path n q : same_content (content_at q (trim_path path n)) (content_at q n).
Proof.
  revert n q. induction path as [|k path IH]; intros n q; simpl; [done|].
  destruct (particles n !! k) as [p|] eqn:Ek; [|done].
  destruct q as [|k' q]; [by destruct (trimmable _)|].
  destruct (trimmable (trim_path path p)) eqn:Et; rewrite !content_at_cons; simpl.
  - destruct (decide (k = k')) as [<-|Hk]; [|by rewrite lookup_delete_ne].
    rewrite lookup_delete_eq, Ek. simpl. rewrite content_at_new, <-(IH p q).
    symmetry. by apply trimmable_content.
  - rewrite lookup_insert. destruct (decide (k = k')) as [<-|Hk]; [|done]. rewrite Ek. apply IH.
Qed.

(** Invariant: no empty particles below the root. *)
Lemma trimmed_child k x p : trimmed x → particles x !! k = Some p → trimmable p = false ∧ trimmed p.
Proof.
  intros H E. split.
  - apply (H [k]); [done|]. simpl. by rewrite E.
  - intros path q Hne Hq. apply (H (k :: path)); [done|]. simpl. by rewrite E.
Qed.

Lemma trimmed_intro c (m : gmap string particle) :
  map_Forall (λ _ p, trimmable p = false ∧ trimmed p) m → trimmed (mkParticle c m).
Proof.
  intros H path p Hne Hp. destruct path as [|k path]; [done|]. simpl in Hp.
  apply bind_Some in Hp as (q & Hq & Hp). destruct (H _ _ Hq) as [H1 H2].
  destruct path as [|k' path]; [simpl in Hp; congruence|]. by apply (H2 (k' :: path)).
Qed.

Lemma trimmed_children x : trimmed x → map_Forall (λ _ p, trimmable p = false ∧ trimmed p) (particles x).
Proof. intros H k p E. by eapply trimmed_child. Qed.

Lemma trimmed_new : trimmed newParticle.
Proof. apply trimmed_intro, map_Forall_empty. Qed.

Lemma trimmable_child c m k p : trimmable (mkParticle c (<[k := p]> m)) = false.
Proof.
  unfold trimmable. simpl. apply andb_false_iff. right. apply Nat.eqb_neq.
  assert (size (<[k := p]> m) ≠ 0); [|lia]. apply map_size_non_empty_iff, insert_non_empty.
Qed.

Lemma trimmed_set path g x :
  trimmed x → (∀ m c, trimmable (mkParticle (g c) m) = false) →
  trimmed (set_path path g x) ∧ (path ≠ [] → trimmable (set_path path g x) = false).
Proof.
  intros Hx Hg. revert x Hx. induction path as [|k path IH]; intros x Hx; simpl.
  - split; [|done]. apply trimmed_intro. by apply trimmed_children.
  - split; [|intros _; apply trimmable_child]. apply trimmed_intro, map_Forall_insert_2; [|by apply trimmed_children].
    assert (trimmed (default newParticle (particles x !! k))) as Hd.
    { destruct (particles x !! k) eqn:E; simpl; [by eapply trimmed_child|apply trimmed_new]. }
    destruct (IH _ Hd) as [H1 H2]. split; [|done]. destruct path; [apply Hg|by apply H2].
Qed.

(** After an arbitrary update at an address, trimming it restores the invariant. *)
Lemma trimmed_trim path g x : trimmed x → trimmed (trim_path path (set_path path g x)).
Proof.
  revert x. induction path as [|k path IH]; intros x Hx; simpl.
  - apply trimmed_intro. by apply trimmed_children.
  - rewrite lookup_insert_eq.
    assert (trimmed (default newParticle (particles x !! k))) as Hd.
    { destruct (particles x !! k) eqn:E; simpl; [by eapply trimmed_child|apply trimmed_new]. }
    destruct (trimmable _) eqn:Et; apply trimmed_intro; rewrite ?delete_insert_eq, ?insert_insert_eq.
    + by apply map_Forall_delete, trimmed_children.
    + apply map_Forall_insert_2; [split; [done|by apply IH]|by apply trimmed_children].
Qed.

(** ** Lemmas: Subscribe and Unsubscribe *)

Lemma shared_Get_Add g c s g' c' x :
  shared_Get g' c' (shared_Add g c s x) =
    if decide (g = g' ∧ c = c') then Some s else shared_Get g' c' x.
Proof.
  unfold shared_Get, shared_Add. simpl. destruct (decide (g = g')) as [<-|Hg].
  - rewrite lookup_insert_eq. simpl. rewrite lookup_insert.
    destruct (decide (c = c')) as [<-|Hc]; [by rewrite decide_True|].
    rewrite decide_False by tauto. by destruct (shared x !! g); simpl; rewrite ?lookup_empty.
  - rewrite lookup_insert_ne, decide_False by tauto. done.
Qed.

Lemma shared_Get_Delete g c g' c' x :
  shared_Get g' c' (shared_Delete g c x) =
    if decide (g = g' ∧ c = c') then None else shared_Get g' c' x.
Proof.
  unfold shared_Get, shared_Delete. simpl.
  destruct (decide (g = g')) as [<-|Hg].
  - transitivity (delete c (default ∅ (shared x !! g)) !! c').
    + case_bool_decide as E.
      * rewrite lookup_delete_eq, E. simpl. by rewrite lookup_empty.
      * by rewrite lookup_insert_eq.
    + rewrite lookup_delete. destruct (decide (c = c')) as [<-|Hc]; [by rewrite decide_True|].
      rewrite decide_False by tauto. by destruct (shared x !! g); simpl; rewrite ?lookup_empty.
  - rewrite decide_False by tauto. case_bool_decide; by rewrite ?lookup_delete_ne, ?lookup_insert_ne.
Qed.

Lemma shared_len_pos m g s : m !! g = Some s → s ≠ ∅ → shared_len m ≠ 0.
Proof. intros E Hs H. by apply Hs, (shared_len_0 m H g). Qed.

Lemma subscriptions_Add_stored id s c m : trimmable (mkParticle (subscriptions_Add id s c) m) = false.
Proof.
  unfold trimmable. simpl. apply andb_false_iff. right. apply Nat.eqb_neq.
  assert (size (<[id := s]> (subscriptions c)) ≠ 0); [|lia]. apply map_size_non_empty_iff, insert_non_empty.
Qed.

Lemma shared_Add_stored g id s c m : trimmable (mkParticle (shared_Add g id s c) m) = false.
Proof.
  unfold trimmable. simpl. apply andb_false_iff. right. apply Nat.eqb_neq.
  match goal with |- context [shared_len ?sm] => assert (shared_len sm ≠ 0); [|lia] end.
  eapply shared_len_pos; [apply lookup_insert_eq|apply insert_non_empty].
Qed.

(** [slot] as the branches of the code compute it. *)
Lemma slot_unfold f :
  slot f = if equal_fold (isolateParticle f 0).1 SharePrefix
           then (Some (isolateParticle f 1).1, levels_from f 2) else (None, levels_from f 0).
Proof. done. Qed.

Lemma slot_lookup_set_subs q c sub x s c' :
  slot_lookup s c' (set_path q (subscriptions_Add c sub) x) =
    if decide ((None, q) = s ∧ c = c') then Some sub else slot_lookup s c' x.
Proof.
  destruct s as [[g|] p]; unfold slot_lookup; rewrite content_at_set; destruct (decide (q = p)) as [<-|Hq].
  - rewrite decide_False by naive_solver. done.
  - by rewrite decide_False by naive_solver.
  - unfold subscriptions_Add. cbn [subscriptions]. rewrite lookup_insert. destruct (decide (c = c')) as [<-|Hc];
      [by rewrite decide_True|by rewrite decide_False by naive_solver].
  - by rewrite decide_False by naive_solver.
Qed.

Lemma slot_lookup_set_shared q g c sub x s c' :
  slot_lookup s c' (set_path q (shared_Add g c sub) x) =
    if decide ((Some g, q) = s ∧ c = c') then Some sub else slot_lookup s c' x.
Proof.
  destruct s as [[g'|] p]; unfold slot_lookup; rewrite content_at_set; destruct (decide (q = p)) as [<-|Hq].
  - rewrite shared_Get_Add. destruct (decide (g = g' ∧ c = c')) as [[<- <-]|Hn];
      [by rewrite decide_True|by rewrite decide_False by naive_solver].
  - by rewrite decide_False by naive_solver.
  - by rewrite decide_False by naive_solver.
  - by rewrite decide_False by naive_solver.
Qed.

(** Lookups see through trimming. *)
Lemma slot_lookup_trim path x s c : slot_lookup s c (trim_path path x) = slot_lookup s c x.
Proof.
  destruct s as [[g|] p]; simpl; destruct (content_at_trim path x p) as (H1 & H2 & _); [by rewrite H2|by rewrite H1].
Qed.

Lemma slot_lookup_delete_subs q c x s c' :
  slot_lookup s c' (set_path q (subscriptions_Delete c) x) =
    if decide ((None, q) = s ∧ c = c') then None else slot_lookup s c' x.
Proof.
  destruct s as [[g|] p]; unfold slot_lookup; rewrite content_at_set; destruct (decide (q = p)) as [<-|Hq].
  - by rewrite decide_False by naive_solver.
  - by rewrite decide_False by naive_solver.
  - unfold subscriptions_Delete. cbn [subscriptions]. rewrite lookup_delete. destruct (decide (c = c')) as [<-|Hc];
      [by rewrite decide_True|by rewrite decide_False by naive_solver].
  - by rewrite decide_False by naive_solver.
Qed.

Lemma slot_lookup_delete_shared q g c x s c' :
  slot_lookup s c' (set_path q (shared_Delete g c) x) =
    if decide ((Some g, q) = s ∧ c = c') then None else slot_lookup s c' x.
Proof.
  destruct s as [[g'|] p]; unfold slot_lookup; rewrite content_at_set; destruct (decide (q = p)) as [<-|Hq].
  - rewrite shared_Get_Delete. destruct (decide (g = g' ∧ c = c')) as [[<- <-]|Hn];
      [by rewrite decide_True|by rewrite decide_False by naive_solver].
  - by rewrite decide_False by naive_solver.
  - by rewrite decide_False by naive_solver.
  - by rewrite decide_False by naive_solver.
Qed.

Lemma is_Some_negb {A} (o : option A) : negb (bool_decide (is_Some o)) = bool_decide (o = None).
Proof. by destruct o. Qed.

Lemma Subscribe_lookup client sub x s c :
  slot_lookup s c (Subscribe client sub x).1 =
    if decide (slot (Filter sub) = s ∧ client = c) then Some sub else slot_lookup s c x.
Proof.
  unfold Subscribe. rewrite slot_unfold. destruct (isolateParticle (Filter sub) 0) as [prefix b].
  cbn [fst]. destruct (equal_fold prefix SharePrefix).
  - destruct (isolateParticle (Filter sub) 1) as [g b']. cbn [fst snd].
    rewrite set_levels by apply levels_from_length. apply slot_lookup_set_shared.
  - cbn [fst]. rewrite set_levels by apply levels_from_length. apply slot_lookup_set_subs.
Qed.

Lemma Subscribe_new client sub x :
  (Subscribe client sub x).2 = bool_decide (slot_lookup (slot (Filter sub)) client x = None).
Proof.
  unfold Subscribe. rewrite slot_unfold. destruct (isolateParticle (Filter sub) 0) as [prefix b].
  cbn [fst]. destruct (equal_fold prefix SharePrefix).
  - destruct (isolateParticle (Filter sub) 1) as [g b']. cbn [fst snd].
    rewrite seek_levels by apply levels_from_length. apply is_Some_negb.
  - cbn [snd]. rewrite seek_levels by apply levels_from_length. apply is_Some_negb.
Qed.

Lemma Subscribe_trimmed client sub x : trimmed x → trimmed (Subscribe client sub x).1.
Proof.
  intros Hx. unfold Subscribe. destruct (isolateParticle (Filter sub) 0) as [prefix b].
  destruct (equal_fold prefix SharePrefix); [destruct (isolateParticle (Filter sub) 1) as [g b']|]; cbn [fst];
    rewrite set_levels by apply levels_from_length; apply trimmed_set; try done;
    intros; [apply shared_Add_stored|apply subscriptions_Add_stored].
Qed.

Lemma node_at_None_lookup path x g c :
  node_at path x = None → slot_lookup (g, path) c x = None.
Proof.
  intros H. destruct g; simpl; unfold content_at; rewrite H; simpl; [|by rewrite lookup_empty].
  unfold shared_Get. simpl. by rewrite lookup_empty.
Qed.

Lemma Unsubscribe_lookup filter client x s c :
  slot_lookup s c (Unsubscribe filter client x).1 =
    if decide (slot filter = s ∧ client = c) then None else slot_lookup s c x.
Proof.
  unfold Unsubscribe. rewrite slot_unfold. destruct (isolateParticle filter 0) as [prefix b]. cbn [fst].
  destruct (equal_fold prefix SharePrefix);
    rewrite seek_levels by apply levels_from_length; destruct (node_at _ x) eqn:En; cbn [fst];
    try (destruct (decide _) as [[<- <-]|]; [by apply node_at_None_lookup|done]);
    rewrite trim_levels, slot_lookup_trim, set_levels by apply levels_from_length;
    [apply slot_lookup_delete_shared|apply slot_lookup_delete_subs].
Qed.

Lemma Unsubscribe_trimmed filter client x : trimmed x → trimmed (Unsubscribe filter client x).1.
Proof.
  intros Hx. unfold Unsubscribe. destruct (isolateParticle filter 0) as [prefix b]. cbn [fst].
  destruct (seek _ _ _ _); cbn [fst]; [|done].
  rewrite trim_levels, set_levels by apply levels_from_length. by apply trimmed_trim.
Qed.

(** ** Lemmas: queries *)

(** The visited particles of a query. *)
Definition visited (topic : string) (x : particle) : list particle :=
  omap (λ path, node_at path x) (scan_paths (split "/" topic)).

Lemma fold_left_omap {A B C} (h : A → option B) (step : C → B → C) l c :
  fold_left (λ c a, match h a with Some b => step c b | None => c end) l c = fold_left step (omap h l) c.
Proof. revert c. induction l as [|a l IH]; intros c; simpl; [done|]. destruct (h a); apply IH. Qed.

Lemma scan_visited {A} (gS gH : particle → A → A) topic x a :
  topic ≠ "" →
  scanSubscribers gS gH (λ _ a, a) (walk_fuel topic) topic 0 x a =
  fold_left (λ a p, gH p (gS p a)) (visited topic x) a.
Proof.
  intros Ht. rewrite scan_levels by (done || apply levels_from_length).
  rewrite levels_from_0. unfold visited. by rewrite <-fold_left_omap.
Qed.

Lemma visited_elem topic x p :
  p ∈ visited topic x ↔ ∃ path, path ∈ scan_paths (split "/" topic) ∧ node_at path x = Some p.
Proof. unfold visited. by rewrite list_elem_of_omap. Qed.

(** Members of the shared groups stored at a particle. *)
Definition shared_members (p : particle) : list (string * Subscription) :=
  map_to_list (shared (pc p)) ≫= λ '(_, shares), map_to_list shares.

Lemma shared_members_elem p c s :
  (c, s) ∈ shared_members p ↔ ∃ g, shared_Get g c (pc p) = Some s.
Proof.
  unfold shared_members, shared_Get. rewrite list_elem_of_bind. split.
  - intros ([g m] & H1%elem_of_map_to_list & H2%elem_of_map_to_list). exists g. by rewrite H2.
  - intros [g H]. apply bind_Some in H as (m & H1 & H2). exists (g, m).
    split; by apply elem_of_map_to_list.
Qed.

Lemma routing_gatherShared_members local p r :
  routing_gatherShared local p r =
  fold_left (λ r '(c, s), routing_gatherMember local r c s) (shared_members p) r.
Proof.
  unfold routing_gatherShared, shared_members. generalize (map_to_list (shared (pc p))).
  intros l. revert r. induction l as [|[g m] l IH]; intros r; simpl; [done|].
  by rewrite IH, fold_left_app.
Qed.

Lemma routing_gatherSubscriptions_spec topic p r :
  choices (routing_gatherSubscriptions topic p r) = choices r ∧
  ∀ c, c ∈ nodes (routing_gatherSubscriptions topic p r) ↔
    c ∈ nodes r ∨ ∃ s, subscriptions (pc p) !! c = Some s ∧ dollar_skipped topic s = false.
Proof.
  unfold routing_gatherSubscriptions.
  setoid_rewrite <-(elem_of_map_to_list (subscriptions (pc p))).
  generalize (map_to_list (subscriptions (pc p))). intros l. revert r.
  induction l as [|[c' s'] l IH]; intros r; simpl.
  - split; [done|]. intros c. split; [by left|]. intros [?|(s & []%not_elem_of_nil & _)]; done.
  - destruct (dollar_skipped topic s') eqn:E.
    + destruct (IH r) as [H1 H2]. split; [done|]. intros c. rewrite H2. split.
      * intros [?|(s & Hin & ?)]; [by left|]. right. exists s. split; [by right|done].
      * intros [?|(s & [[= -> ->]|Hin]%elem_of_cons & ?)]; [by left|congruence|eauto].
    + destruct (IH (mkRouting ({[c']} ∪ nodes r) (choices r))) as [H1 H2]. split; [done|].
      intros c. rewrite H2. cbn [nodes]. rewrite elem_of_union, elem_of_singleton. split.
      * intros [[->|?]|(s & Hin & ?)]; [right; exists s'; split; [by left|done]|by left|].
        right. exists s. split; [by right|done].
      * intros [?|(s & [[= -> ->]|Hin]%elem_of_cons & ?)]; [auto|auto|eauto].
Qed.

Lemma routing_gatherMember_nodes local r c s : nodes (routing_gatherMember local r c s) = nodes r.
Proof. unfold routing_gatherMember. by repeat case_match. Qed.

Lemma fold_gatherMember_nodes local l r :
  nodes (fold_left (λ r '(c, s), routing_gatherMember local r c s) l r) = nodes r.
Proof.
  revert r. induction l as [|[c s] l IH]; intros r; simpl; [done|].
  by rewrite IH, routing_gatherMember_nodes.
Qed.

(** What the choice of a filter records once the members [seen] have been
    gathered. *)
Definition choice_ok (local : string) (seen : list (string * Subscription)) (f : string)
    (o : option routingSharedChoice) : Prop :=
  match o with
  | None => ∀ c s, (c, s) ∈ seen → Filter s ≠ f
  | Some (mkChoice _ true) => local ≠ "" ∧ ∃ s, (local, s) ∈ seen ∧ Filter s = f
  | Some (mkChoice c false) =>
      (∃ s, (c, s) ∈ seen ∧ Filter s = f) ∧
      (local ≠ "" → ∀ s, (local, s) ∈ seen → Filter s ≠ f)
  end.

Definition choices_inv (local : string) (seen : list (string * Subscription))
    (ch : gmap string routingSharedChoice) : Prop := ∀ f, choice_ok local seen f (ch !! f).

Lemma elem_of_snoc {A} (l : list A) x y : x ∈ l ++ [y] ↔ x ∈ l ∨ x = y.
Proof. by rewrite elem_of_app, list_elem_of_singleton. Qed.

(** A member of another filter, or a further non-local member, keeps a choice. *)
Lemma choice_ok_keep local seen f o c s :
  Filter s ≠ f ∨ (is_Some o ∧ (c ≠ local ∨ local = "")) →
  choice_ok local seen f o → choice_ok local (seen ++ [(c, s)]) f o.
Proof.
  intros Hk. destruct o as [[c' []]|]; simpl.
  - intros [Hl (s' & Hin & Hf)]. split; [done|]. exists s'. rewrite elem_of_snoc. auto.
  - intros [(s' & Hin & Hf) Hn]. split; [exists s'; rewrite elem_of_snoc; auto|].
    intros Hl s0 [Hs0|[= <- <-]]%elem_of_snoc; [by apply Hn|]. destruct Hk as [?|[_ [?|?]]]; done.
  - intros H c0 s0 [Hs0|[= -> ->]]%elem_of_snoc; [by eapply H|].
    destruct Hk as [?|[[? ?] _]]; done.
Qed.

Lemma gatherMember_inv local seen r c s :
  choices_inv local seen (choices r) →
  choices_inv local (seen ++ [(c, s)]) (choices (routing_gatherMember local r c s)).
Proof.
  intros H f. specialize (H f). unfold routing_gatherMember.
  destruct (negb (String.eqb local "") && String.eqb c local) eqn:El; simpl.
  - apply andb_true_iff in El as [Hl%negb_true_iff%String.eqb_neq Hc%String.eqb_eq]. subst c.
    rewrite lookup_insert. destruct (decide (Filter s = f)) as [E|E]; [|by apply choice_ok_keep; auto].
    split; [done|]. exists s. rewrite elem_of_snoc. auto.
  - assert (c ≠ local ∨ local = "") as Hc.
    { apply andb_false_iff in El as [El|El]; [right; by apply negb_false_iff, String.eqb_eq in El|].
      left. by apply String.eqb_neq. }
    destruct (choices r !! Filter s) as [ch|] eqn:Ef; simpl.
    + apply choice_ok_keep; [|done]. destruct (decide (Filter s = f)) as [<-|]; [right|by left].
      rewrite Ef. eauto.
    + rewrite lookup_insert. destruct (decide (Filter s = f)) as [E|E]; [|by apply choice_ok_keep; auto].
      subst f. rewrite Ef in H. simpl in H. split; [exists s; rewrite elem_of_snoc; auto|].
      intros Hl s0 [Hs0|[= <- <-]]%elem_of_snoc; [by eapply H|]. by destruct Hc.
Qed.

Lemma fold_gatherMember_inv local l seen r :
  choices_inv local seen (choices r) →
  choices_inv local (seen ++ l)
    (choices (fold_left (λ r '(c, s), routing_gatherMember local r c s) l r)).
Proof.
  revert seen r. induction l as [|[c s] l IH]; intros seen r H; simpl.
  - by rewrite app_nil_r.
  - replace (seen ++ (c, s) :: l) with ((seen ++ [(c, s)]) ++ l) by (by rewrite <-app_assoc).
    apply IH, gatherMember_inv, H.
Qed.

(** The outcome of an ID-only query. *)
Lemma scan_routing_spec topic local x :
  topic ≠ "" →
  (∀ c, c ∈ nodes (scan_routing topic local x) ↔
     ∃ p s, p ∈ visited topic x ∧ subscriptions (pc p) !! c = Some s ∧ dollar_skipped topic s = false) ∧
  choices_inv local (visited topic x ≫= shared_members) (choices (scan_routing topic local x)).
Proof.
  intros Ht. unfold scan_routing. rewrite scan_visited by done.
  assert (∀ l seen r,
    choices_inv local seen (choices r) →
    let r' := fold_left (λ a p, routing_gatherShared local p (routing_gatherSubscriptions topic p a)) l r in
    (∀ c, c ∈ nodes r' ↔ c ∈ nodes r ∨
      ∃ p s, p ∈ l ∧ subscriptions (pc p) !! c = Some s ∧ dollar_skipped topic s = false) ∧
    choices_inv local (seen ++ (l ≫= shared_members)) (choices r')) as H.
  { induction l as [|p l IH]; intros seen r Hi; simpl.
    - rewrite app_nil_r. split; [|done]. intros c. split; [by left|].
      intros [?|(p & s & []%not_elem_of_nil & _)]; done.
    - rewrite routing_gatherShared_members.
      destruct (routing_gatherSubscriptions_spec topic p r) as [Hch Hn].
      destruct (IH (seen ++ shared_members p)
        (fold_left (λ r '(c, s), routing_gatherMember local r c s) (shared_members p)
           (routing_gatherSubscriptions topic p r))) as [H1 H2].
      { apply fold_gatherMember_inv. by rewrite Hch. }
      simpl in H1, H2. split; [|by rewrite app_assoc].
      intros c. rewrite H1, fold_gatherMember_nodes, Hn. split.
      + intros [[?|(s & ? & ?)]|(q & s & ? & ? & ?)]; [by left|right; exists p, s; split; [by left|done]|].
        right. exists q, s. split; [by right|done].
      + intros [?|(q & s & [->|?]%elem_of_cons & ? & ?)]; eauto 10. }
  destruct (H (visited topic x) [] (mkRouting ∅ ∅)) as [H1 H2].
  { intros f. simpl. rewrite lookup_empty. intros c s []%not_elem_of_nil. }
  split; [|done]. intros c. rewrite H1. cbn [nodes]. split; [|eauto]. intros [[]%not_elem_of_empty|?]; done.
Qed.

(** ** Lemmas: matching *)

(** The one place where a query is narrower than MQTT 4.7: a filter ending in
    +/# on the topic its + level ends at. *)
Definition parent_plus (path levels : list string) : Prop :=
  ∃ pre, path = pre ++ ["+"; "#"] ∧ length levels = S (length pre).

Lemma parent_plus_cons k path l r rest :
  parent_plus (k :: path) (l :: r :: rest) ↔ parent_plus path (r :: rest).
Proof.
  split.
  - intros ([|k' pre] & E & Hl); simpl in *; [lia|]. injection E as -> ->.
    exists pre. split; [done|simpl; lia].
  - intros (pre & -> & Hl). exists (k :: pre). split; [done|simpl in *; lia].
Qed.

Lemma mqtt_matches_cons k path l levels :
  mqtt_matches (k :: path) (l :: levels) ↔
  (k = "#" ∧ path = []) ∨ (k ≠ "#" ∧ level_ok k l ∧ mqtt_matches path levels).
Proof.
  rewrite <-!MatchTopic_loop_spec. simpl. unfold level_ok.
  destruct (String.eqb_spec k "#") as [->|Hh].
  - destruct path; [by split; [left|]|]. split; [done|]. intros [[_ ?]|[? _]]; done.
  - destruct (String.eqb_spec k "+") as [->|Hp]; [tauto|].
    destruct (String.eqb_spec k l) as [->|Hl]; [tauto|]. split; [done|tauto].
Qed.

Lemma mqtt_matches_nil_l t : mqtt_matches [] t ↔ t = [].
Proof. rewrite <-MatchTopic_loop_spec. by destruct t. Qed.

Lemma mqtt_matches_nil_r f : mqtt_matches f [] ↔ f = [] ∨ f = ["#"].
Proof.
  rewrite <-MatchTopic_loop_spec. destruct f as [|k f]; simpl; [by split; [left|]|].
  destruct (String.eqb_spec k "#") as [->|Hh]; [destruct f; split; naive_solver|].
  split; [done|]. by intros [?|[= ? ?]].
Qed.

Lemma scan_paths_single key path :
  literal_level key →
  path ∈ scan_paths [key] ↔ mqtt_matches path [key] ∧ ¬ parent_plus path [key].
Proof.
  intros [Hp Hh]. simpl. apply String.eqb_neq in Hp as Hpb. rewrite Hpb. simpl.
  rewrite !elem_of_cons, elem_of_nil. unfold parent_plus. split.
  - assert (∀ p, (∃ pre, p = pre ++ ["+"; "#"] ∧ 1 = S (length pre)) → p = ["+"; "#"]) as Hpp.
    { intros p ([|? pre] & -> & ?); [done|simpl in *; lia]. }
    intros [->|[->|[->|[->|[]]]]]; (split; [|intros H%Hpp; congruence]);
      rewrite mqtt_matches_cons; rewrite ?mqtt_matches_nil_l, ?mqtt_matches_nil_r; unfold level_ok; naive_solver.
  - intros [Hm Hn]. destruct path as [|k path]; [by apply mqtt_matches_nil_l in Hm|].
    apply mqtt_matches_cons in Hm as [[-> ->]|(Hk & Hok & [->| ->]%mqtt_matches_nil_r)]; [auto| |].
    + destruct Hok as [->| ->]; auto.
    + destruct Hok as [->| ->]; [|auto]. destruct Hn. exists []. done.
Qed.

Lemma scan_paths_mqtt levels path :
  levels ≠ [] → Forall literal_level levels →
  path ∈ scan_paths levels ↔ mqtt_matches path levels ∧ ¬ parent_plus path levels.
Proof.
  intros Hne HF. revert path. induction HF as [|key levels Hk HF IH]; intros path; [done|].
  destruct levels as [|r rest]; [by apply scan_paths_single|].
  assert (∀ k q, q ∈ (cons k <$> scan_paths (r :: rest)) ↔
    ∃ p, q = k :: p ∧ mqtt_matches p (r :: rest) ∧ ¬ parent_plus p (r :: rest)) as Hmap.
  { intros k q. rewrite list_elem_of_fmap. by setoid_rewrite IH. }
  change (path ∈ (cons key <$> scan_paths (r :: rest)) ++ (cons "+" <$> scan_paths (r :: rest)) ++ [["#"]]
    ↔ mqtt_matches path (key :: r :: rest) ∧ ¬ parent_plus path (key :: r :: rest)).
  rewrite !elem_of_app, !Hmap, list_elem_of_singleton.
  destruct path as [|k path].
  { rewrite mqtt_matches_nil_l. split; [by intros [[? [? _]]|[[? [? _]]|?]]|by intros [? _]]. }
  rewrite mqtt_matches_cons, parent_plus_cons. destruct Hk as [Hk1 Hk2]. split.
  - intros [(p & [= -> ->] & ? & ?)|[(p & [= -> ->] & ? & ?)|[= -> ->]]].
    + split; [|done]. right. split_and!; [done|by right|done].
    + split; [|done]. right. split_and!; [done|by left|done].
    + split; [by left|]. intros (pre & E & _). by destruct pre.
  - intros [[[-> ->]|(Hkh & [->| ->] & Hm)] Hn]; eauto 10.
Qed.

(** ** Lemmas: outcome of the queries *)

(** A client with an ordinary subscription visited by the query, and a member
    of a visited share group under the full shared filter [f]. *)
Definition ordinary_at (topic : string) (x : particle) (c : string) : Prop :=
  ∃ path s, path ∈ scan_paths (split "/" topic) ∧
    slot_lookup (None, path) c x = Some s ∧ dollar_skipped topic s = false.

Definition member_at (topic : string) (x : particle) (f c : string) : Prop :=
  ∃ path g s, path ∈ scan_paths (split "/" topic) ∧
    slot_lookup (Some g, path) c x = Some s ∧ Filter s = f.

Lemma visited_ordinary topic x c :
  (∃ p s, p ∈ visited topic x ∧ subscriptions (pc p) !! c = Some s ∧ dollar_skipped topic s = false)
  ↔ ordinary_at topic x c.
Proof.
  unfold ordinary_at. simpl. unfold content_at. setoid_rewrite visited_elem. split.
  - intros (p & s & (path & ? & E) & ? & ?). exists path, s. by rewrite E.
  - intros (path & s & ? & Hs & ?). destruct (node_at path x) as [p|] eqn:E; simpl in Hs.
    + exists p, s. eauto.
    + by rewrite lookup_empty in Hs.
Qed.

Lemma visited_member topic x f c :
  (∃ s, (c, s) ∈ (visited topic x ≫= shared_members) ∧ Filter s = f) ↔ member_at topic x f c.
Proof.
  unfold member_at. simpl. unfold content_at. setoid_rewrite list_elem_of_bind.
  setoid_rewrite shared_members_elem. setoid_rewrite visited_elem. split.
  - intros (s & (p & [g Hg] & path & ? & E) & Hf). exists path, g, s. by rewrite E.
  - intros (path & g & s & ? & Hs & ?). destruct (node_at path x) as [p|] eqn:E; simpl in Hs.
    + exists s. split; [|done]. exists p. eauto.
    + unfold shared_Get in Hs. simpl in Hs. by rewrite lookup_empty in Hs.
Qed.

Lemma scan_routing_nodes topic local x c :
  topic ≠ "" → c ∈ nodes (scan_routing topic local x) ↔ ordinary_at topic x c.
Proof. intros Ht. rewrite <-visited_ordinary. by apply scan_routing_spec. Qed.

(** The choice recorded for a shared filter. *)
Lemma scan_routing_choice topic local x f :
  topic ≠ "" →
  match choices (scan_routing topic local x) !! f with
  | None => ∀ c, ¬ member_at topic x f c
  | Some (mkChoice _ true) => local ≠ "" ∧ member_at topic x f local
  | Some (mkChoice c false) => member_at topic x f c ∧ (local ≠ "" → ¬ member_at topic x f local)
  end.
Proof.
  intros Ht. destruct (scan_routing_spec topic local x Ht) as [_ H]. specialize (H f).
  unfold choice_ok in H. destruct (choices _ !! f) as [[c []]|].
  - destruct H as [? H]. split; [done|]. by apply visited_member.
  - destruct H as [H1 H2]. split; [by apply visited_member|].
    intros Hl (s & Hs & Hf)%visited_member. by eapply H2.
  - intros c (s & Hs & Hf)%visited_member. by eapply H.
Qed.

(** The final loops over the recorded choices. *)
Lemma SubscriberRoutingPlan_fold (l : list (string * routingSharedChoice)) (local : string)
    (ns : gset string) (sh : gmap string string) :
  NoDup l.*1 →
  let r := fold_left (λ '(ns, sh) '(filter, choice),
    if choice_local choice then (ns, <[filter := local]> sh)
    else ({[choice_client choice]} ∪ ns, <[filter := choice_client choice]> sh)) l (ns, sh) in
  (∀ c, c ∈ r.1 ↔ c ∈ ns ∨ ∃ f, (f, mkChoice c false) ∈ l) ∧
  (∀ f, r.2 !! f = match (list_to_map l : gmap string routingSharedChoice) !! f with
                   | Some (mkChoice c b) => Some (if b : bool then local else c)
                   | None => sh !! f
                   end).
Proof.
  revert ns sh. induction l as [|[f [c b]] l IH]; intros ns sh Hnd; simpl.
  - split; [|intros f; by rewrite lookup_empty]. intros c. split; [by left|].
    intros [?|(f & []%not_elem_of_nil)]; done.
  - apply NoDup_cons in Hnd as [Hf Hnd].
    assert (∀ f0, (<[f := mkChoice c b]> (list_to_map l) : gmap string routingSharedChoice) !! f0 =
      if decide (f = f0) then Some (mkChoice c b) else (list_to_map l : gmap string _) !! f0) as Hl.
    { intros f0. apply lookup_insert. }
    assert (∀ v f0, match (list_to_map l : gmap string routingSharedChoice) !! f0 with
        | Some (mkChoice c b) => Some (if b : bool then local else c)
        | None => <[f := v]> sh !! f0 end =
      match (if decide (f = f0) then Some v else None) with
      | Some v => Some v
      | None => match (list_to_map l : gmap string routingSharedChoice) !! f0 with
        | Some (mkChoice c b) => Some (if b : bool then local else c) | None => sh !! f0 end end) as Hv.
    { intros v f0. rewrite lookup_insert. destruct (decide (f = f0)) as [<-|]; [|done].
      by rewrite not_elem_of_list_to_map_1. }
    destruct b; simpl.
    + destruct (IH ns (<[f := local]> sh) Hnd) as [H1 H2]. split.
      * intros c0. rewrite H1. setoid_rewrite elem_of_cons. split; [naive_solver|].
        intros [?|(f0 & [[= ]|?])]; eauto.
      * intros f0. rewrite H2, Hl, Hv. by destruct (decide (f = f0)).
    + destruct (IH ({[c]} ∪ ns) (<[f := c]> sh) Hnd) as [H1 H2]. split.
      * intros c0. rewrite H1, elem_of_union, elem_of_singleton. setoid_rewrite elem_of_cons. split.
        -- intros [[->|?]|(f0 & ?)]; eauto.
        -- intros [?|(f0 & [[= -> ->]|?])]; eauto.
      * intros f0. rewrite H2, Hl, Hv. by destruct (decide (f = f0)).
Qed.

Lemma SubscriberRoutingPlan_lookup topic local x :
  (∀ c, c ∈ (SubscriberRoutingPlan topic local x).1 ↔
     c ∈ nodes (scan_routing topic local x) ∨
     ∃ f, choices (scan_routing topic local x) !! f = Some (mkChoice c false)) ∧
  (∀ f, (SubscriberRoutingPlan topic local x).2 !! f =
     (λ ch, if choice_local ch then local else choice_client ch) <$> choices (scan_routing topic local x) !! f).
Proof.
  unfold SubscriberRoutingPlan.
  destruct (SubscriberRoutingPlan_fold (map_to_list (choices (scan_routing topic local x))) local
    (nodes (scan_routing topic local x)) ∅) as [H1 H2]; [apply NoDup_fst_map_to_list|].
  split.
  - intros c. rewrite H1. by setoid_rewrite elem_of_map_to_list.
  - intros f. rewrite H2, list_to_map_to_list, lookup_empty.
    by destruct (choices _ !! f) as [[c []]|].
Qed.

(** The plan of a query: every ordinary subscriber, and per matching shared
    filter exactly one member — the local one if there is one. *)
Lemma SubscriberRoutingPlan_spec topic local x :
  topic ≠ "" →
  (∀ c, c ∈ (SubscriberRoutingPlan topic local x).1 ↔
     ordinary_at topic x c ∨
     ∃ f, (SubscriberRoutingPlan topic local x).2 !! f = Some c ∧
          ¬ (local ≠ "" ∧ member_at topic x f local)) ∧
  (∀ f, match (SubscriberRoutingPlan topic local x).2 !! f with
        | None => ∀ c, ¬ member_at topic x f c
        | Some c => member_at topic x f c ∧ (local ≠ "" → member_at topic x f local → c = local)
        end).
Proof.
  intros Ht. destruct (SubscriberRoutingPlan_lookup topic local x) as [H1 H2]. split.
  - intros c. rewrite H1, scan_routing_nodes by done. setoid_rewrite H2. split.
    + intros [?|(f & Hf)]; [by left|]. right. exists f.
      pose proof (scan_routing_choice topic local x f Ht) as Hc. rewrite Hf in *.
      split; [done|]. intros [? ?]. by apply Hc.
    + intros [?|(f & Hf & Hn)]; [by left|]. right. exists f.
      pose proof (scan_routing_choice topic local x f Ht) as Hc.
      destruct (choices _ !! f) as [[c' []]|]; simpl in Hf; [by destruct Hn|by injection Hf as ->|done].
  - intros f. rewrite H2. pose proof (scan_routing_choice topic local x f Ht) as Hc.
    destruct (choices _ !! f) as [[c' []]|]; simpl; [naive_solver| |done].
    destruct Hc as [? Hn]. split; [done|]. intros Hl Hm. by destruct (Hn Hl).
Qed.

(** *** Full snapshots *)

(** Inline subscriptions play no part in the other fields. *)
Definition strip_inline (s : Subscribers) : Subscribers :=
  mkSubscribers (Shared s) (SharedSelected s) (SharedSelectedGroups s) (Subscriptions s) ∅.

Lemma scan_hom {A} (π : A → A) (gS gH gI : particle → A → A) fuel topic d n a :
  (∀ p a, π (gS p a) = gS p (π a)) → (∀ p a, π (gH p a) = gH p (π a)) → (∀ p a, π (gI p a) = π a) →
  π (scanSubscribers gS gH gI fuel topic d n a) = scanSubscribers gS gH (λ _ a, a) fuel topic d n (π a).
Proof.
  intros HS HH HI. revert d n a. induction fuel as [|fuel IH]; intros d n a; simpl; [done|].
  destruct (String.eqb topic ""); [done|]. destruct (isolateParticle topic d) as [key hasNext].
  assert (∀ p a, π (visit gS gH gI p a) = visit gS gH (λ _ a, a) p (π a)) as HV.
  { intros. unfold visit. by rewrite HI, HH, HS. }
  assert (∀ partKey a,
    π match particles n !! partKey with
      | None => a
      | Some p => if hasNext then scanSubscribers gS gH gI fuel topic (S d) p a
          else match particles p !! "#" with
               | Some wild => if negb (String.eqb partKey "+")
                   then gI p (gH wild (gS wild (visit gS gH gI p a))) else visit gS gH gI p a
               | None => visit gS gH gI p a end end =
      match particles n !! partKey with
      | None => π a
      | Some p => if hasNext then scanSubscribers gS gH (λ _ a, a) fuel topic (S d) p (π a)
          else match particles p !! "#" with
               | Some wild => if negb (String.eqb partKey "+")
                   then gH wild (gS wild (visit gS gH (λ _ a, a) p (π a)))
                   else visit gS gH (λ _ a, a) p (π a)
               | None => visit gS gH (λ _ a, a) p (π a) end end) as Hstep.
  { intros. repeat case_match; rewrite ?HI, ?HH, ?HS, ?HV, ?IH; done. }
  destruct (particles n !! "#"); rewrite ?HV, ?Hstep; done.
Qed.

Lemma gatherSubscriptions_spec topic p s :
  Shared (gatherSubscriptions topic p s) = Shared s ∧
  (∀ c, is_Some (Subscriptions (gatherSubscriptions topic p s) !! c) ↔
    is_Some (Subscriptions s !! c) ∨
    ∃ sub, subscriptions (pc p) !! c = Some sub ∧ dollar_skipped topic sub = false) ∧
  strip_inline (gatherSubscriptions topic p s) = gatherSubscriptions topic p (strip_inline s).
Proof.
  unfold gatherSubscriptions. setoid_rewrite <-(elem_of_map_to_list (subscriptions (pc p))).
  generalize (map_to_list (subscriptions (pc p))). intros l. revert s.
  induction l as [|[c' s'] l IH]; intros s; simpl.
  - split; [done|]. split; [|done]. intros c. split; [by left|].
    intros [?|(? & []%not_elem_of_nil & _)]; done.
  - destruct (dollar_skipped topic s') eqn:E; setoid_rewrite elem_of_cons.
    + destruct (IH s) as (H1 & H2 & H3). split_and!; [done| |done]. intros c. rewrite H2.
      split; [naive_solver|]. intros [?|(sub & [[= -> ->]|?] & ?)]; [by left|congruence|eauto].
    + match goal with |- context [fold_left _ l (mkSubscribers ?a ?b ?c ?d ?e)] =>
        destruct (IH (mkSubscribers a b c d e)) as (H1 & H2 & H3) end.
      split_and!; [done| |done]. intros c. rewrite H2. simpl. rewrite lookup_insert_is_Some'.
      split; [naive_solver|]. intros [?|(sub & [[= -> ->]|?] & ?)]; eauto.
Qed.

Lemma gatherShared_members p s :
  gatherSharedSubscriptions p s =
  fold_left (λ s '(client, sub),
      mkSubscribers
        (<[Filter sub := <[client := sub]> (default ∅ (Shared s !! Filter sub))]> (Shared s))
        (SharedSelected s) (SharedSelectedGroups s) (Subscriptions s) (InlineSubscriptions s))
    (shared_members p) s.
Proof.
  unfold gatherSharedSubscriptions, shared_members. generalize (map_to_list (shared (pc p))).
  intros l. revert s. induction l as [|[g m] l IH]; intros s; simpl; [done|].
  by rewrite IH, fold_left_app.
Qed.

Lemma gatherSharedSubscriptions_spec p s :
  Subscriptions (gatherSharedSubscriptions p s) = Subscriptions s ∧
  (∀ f, is_Some (Shared (gatherSharedSubscriptions p s) !! f) ↔
    is_Some (Shared s !! f) ∨ ∃ c sub, (c, sub) ∈ shared_members p ∧ Filter sub = f) ∧
  strip_inline (gatherSharedSubscriptions p s) = gatherSharedSubscriptions p (strip_inline s).
Proof.
  rewrite !gatherShared_members. generalize (shared_members p). intros l. revert s.
  induction l as [|[c' s'] l IH]; intros s; simpl.
  - split; [done|]. split; [|done]. intros f. split; [by left|].
    intros [?|(? & ? & []%not_elem_of_nil & _)]; done.
  - match goal with |- context [fold_left _ l (mkSubscribers ?a ?b ?c ?d ?e)] =>
      destruct (IH (mkSubscribers a b c d e)) as (H1 & H2 & H3) end.
    split_and!; [done| |done]. intros f. rewrite H2. simpl. rewrite lookup_insert_is_Some'.
    setoid_rewrite elem_of_cons. split; [naive_solver|].
    intros [?|(c & sub & [[= -> ->]|?] & ?)]; eauto 10.
Qed.

Lemma gatherInline_strip p s : strip_inline (gatherInlineSubscriptions p s) = strip_inline s.
Proof.
  unfold gatherInlineSubscriptions. generalize (map_to_list (inlineSubscriptions (pc p))).
  intros l. revert s. induction l as [|[i v] l IH]; intros s; simpl; [done|]. by rewrite IH.
Qed.

(** The full snapshot names the clients of the visited subscriptions and the
    shared filters with a visited member. *)
Lemma TopicsIndex_Subscribers_spec topic x :
  topic ≠ "" →
  (∀ c, is_Some (Subscriptions (TopicsIndex_Subscribers topic x) !! c) ↔ ordinary_at topic x c) ∧
  (∀ f, is_Some (Shared (TopicsIndex_Subscribers topic x) !! f) ↔ ∃ c, member_at topic x f c).
Proof.
  intros Ht. setoid_rewrite <-visited_ordinary. setoid_rewrite <-visited_member.
  assert (strip_inline (TopicsIndex_Subscribers topic x) =
    fold_left (λ a p, gatherSharedSubscriptions p (gatherSubscriptions topic p a)) (visited topic x)
      empty_Subscribers) as Hs.
  { unfold TopicsIndex_Subscribers. rewrite scan_hom.
    - by rewrite scan_visited.
    - intros p a. by apply gatherSubscriptions_spec.
    - intros p a. by apply gatherSharedSubscriptions_spec.
    - intros p a. apply gatherInline_strip. }
  change (Subscriptions (TopicsIndex_Subscribers topic x)) with
    (Subscriptions (strip_inline (TopicsIndex_Subscribers topic x))).
  change (Shared (TopicsIndex_Subscribers topic x)) with
    (Shared (strip_inline (TopicsIndex_Subscribers topic x))).
  rewrite Hs. clear Hs.
  assert (∀ l s, let s' := fold_left (λ a p, gatherSharedSubscriptions p (gatherSubscriptions topic p a)) l s in
    (∀ c, is_Some (Subscriptions s' !! c) ↔ is_Some (Subscriptions s !! c) ∨
      ∃ p sub, p ∈ l ∧ subscriptions (pc p) !! c = Some sub ∧ dollar_skipped topic sub = false) ∧
    (∀ f, is_Some (Shared s' !! f) ↔ is_Some (Shared s !! f) ∨
      ∃ c sub, (c, sub) ∈ (l ≫= shared_members) ∧ Filter sub = f)) as H.
  { induction l as [|p l IH]; intros s; simpl.
    - split; intros k; (split; [by left|]); [intros [?|(? & ? & []%not_elem_of_nil & _)]|
        intros [?|(? & ? & []%not_elem_of_nil & _)]]; done.
    - destruct (IH (gatherSharedSubscriptions p (gatherSubscriptions topic p s))) as [H1 H2].
      destruct (gatherSharedSubscriptions_spec p (gatherSubscriptions topic p s)) as (A1 & A2 & _).
      destruct (gatherSubscriptions_spec topic p s) as (B1 & B2 & _). split.
      + intros c. rewrite H1, A1, B2. setoid_rewrite elem_of_cons. split.
        * intros [[?|(sub & ? & ?)]|(q & sub & ? & ? & ?)]; eauto 10.
        * intros [?|(q & sub & [->|?] & ? & ?)]; eauto 10.
      + intros f. rewrite H2, A2, B1. setoid_rewrite elem_of_app. split.
        * intros [[?|(c & sub & ? & ?)]|(c & sub & ? & ?)]; eauto 10.
        * intros [?|(c & sub & [?|?] & ?)]; eauto 10. }
  destruct (H (visited topic x) empty_Subscribers) as [H1 H2]. split.
  - intros c. rewrite H1. simpl. rewrite lookup_empty. split; [|eauto]. by intros [[? ?]|?].
  - intros f. rewrite H2. simpl. rewrite lookup_empty. split; [|eauto]. by intros [[? ?]|?].
Qed.

(** ** Properties *)

(** What a query matches, in terms of MQTT 4.7. *)
Definition address_matches (topic : string) (path : list string) : Prop :=
  mqtt_matches path (split "/" topic) ∧ ¬ parent_plus path (split "/" topic).

Definition ordinary_subscriber (topic : string) (x : particle) (c : string) : Prop :=
  ∃ path s, address_matches topic path ∧
    slot_lookup (None, path) c x = Some s ∧ dollar_skipped topic s = false.

Definition group_member (topic : string) (x : particle) (f c : string) : Prop :=
  ∃ path g s, address_matches topic path ∧ slot_lookup (Some g, path) c x = Some s ∧ Filter s = f.

Lemma ordinary_at_mqtt topic x c :
  Forall literal_level (split "/" topic) → ordinary_at topic x c ↔ ordinary_subscriber topic x c.
Proof.
  intros HF. unfold ordinary_at, ordinary_subscriber, address_matches.
  by setoid_rewrite (scan_paths_mqtt _ _ (split_not_nil _ _) HF).
Qed.

Lemma member_at_mqtt topic x f c :
  Forall literal_level (split "/" topic) → member_at topic x f c ↔ group_member topic x f c.
Proof.
  intros HF. unfold member_at, group_member, address_matches.
  by setoid_rewrite (scan_paths_mqtt _ _ (split_not_nil _ _) HF).
Qed.

(** C24: the trie implements a map from (slot, client) to subscription: Subscribe
    and Unsubscribe change exactly the entry of the filter's slot, Subscribe
    reports whether it was new, and neither leaves an empty particle behind. *)
Theorem index_refines_map client sub filter x :
  trimmed x →
  (∀ s c, slot_lookup s c (Subscribe client sub x).1 =
     if decide (slot (Filter sub) = s ∧ client = c) then Some sub else slot_lookup s c x) ∧
  (Subscribe client sub x).2 = bool_decide (slot_lookup (slot (Filter sub)) client x = None) ∧
  trimmed (Subscribe client sub x).1 ∧
  (∀ s c, slot_lookup s c (Unsubscribe filter client x).1 =
     if decide (slot filter = s ∧ client = c) then None else slot_lookup s c x) ∧
  trimmed (Unsubscribe filter client x).1.
Proof.
  intros Hx. split_and!; intros.
  - apply Subscribe_lookup.
  - apply Subscribe_new.
  - by apply Subscribe_trimmed.
  - apply Unsubscribe_lookup.
  - by apply Unsubscribe_trimmed.
Qed.

Lemma index_refines_map_witness :
  trimmed (Subscribe "n" (filter_subscription "$share/g/a/b") NewTopicsIndex).1.
Proof.
  apply (index_refines_map "n" (filter_subscription "$share/g/a/b") "a" NewTopicsIndex trimmed_new).
Defined.

(** The routing plan of a concrete topic: the target nodes are the ordinary
    subscribers matching it under MQTT 4.7 (leading-$ rule included, +/# on the
    parent topic excluded) and the non-local choices; every shared filter with
    a matching member is given exactly one of its members, the local one when
    it is a member, and the others none. *)
Theorem routing_plan_spec topic local x :
  topic ≠ "" → Forall literal_level (split "/" topic) →
  (∀ c, c ∈ (SubscriberRoutingPlan topic local x).1 ↔
     ordinary_subscriber topic x c ∨
     ∃ f, (SubscriberRoutingPlan topic local x).2 !! f = Some c ∧
          ¬ (local ≠ "" ∧ group_member topic x f local)) ∧
  (∀ f, match (SubscriberRoutingPlan topic local x).2 !! f with
        | None => ∀ c, ¬ group_member topic x f c
        | Some c => group_member topic x f c ∧ (local ≠ "" → group_member topic x f local → c = local)
        end).
Proof.
  intros Ht HF. destruct (SubscriberRoutingPlan_spec topic local x Ht) as [H1 H2]. split.
  - intros c. rewrite H1, ordinary_at_mqtt by done. by setoid_rewrite (member_at_mqtt _ _ _ _ HF).
  - intros f. specialize (H2 f). destruct (_ !! f); by setoid_rewrite <-(member_at_mqtt _ _ _ _ HF).
Qed.

Lemma routing_plan_spec_witness :
  ordinary_subscriber "a/b" (Subscribe "n" (filter_subscription "a/+") NewTopicsIndex).1 "n".
Proof.
  assert (Forall literal_level (split "/" "a/b")) as HF by (simpl; literal_levels).
  destruct (routing_plan_spec "a/b" "" (Subscribe "n" (filter_subscription "a/+") NewTopicsIndex).1
    ltac:(done) HF) as [H _].
  destruct (proj1 (H "n") ltac:(vm_compute; reflexivity)) as [?|(f & Hf & _)]; [done|].
  vm_compute in Hf. by destruct f.
Defined.

(** The index and MatchTopic disagree on filters that end in +/#. *)
Lemma index_differs_from_MatchTopic :
  MatchTopic "a/+/#" "a/b" = true ∧
  SubscriberIDs "a/b" "" (Subscribe "n" (filter_subscription "a/+/#") NewTopicsIndex).1 = ∅.
Proof. by split; vm_compute. Qed.

(** A shared subscription to # receives a $-topic, an ordinary one does not. *)
Lemma shared_wildcard_matches_dollar :
  SubscriberIDs "$offline/k" "" (Subscribe "n" (filter_subscription "$share/g/#") NewTopicsIndex).1 = {["n"]} ∧
  SubscriberIDs "$offline/k" "" (Subscribe "n" (filter_subscription "#") NewTopicsIndex).1 = ∅.
Proof. by split; vm_compute. Qed.
