(* ===== verification/Base64.v ===== *)
(** encoding/base64 of the Go standard library and its round trips:
    RawURLEncoding, which the keys in Redis and in the router are built with,
    and StdEncoding, in which JSON carries byte slices. Decoding skips CR and LF
    and does not check the trailing bits, as Go does. *)

From S2P Require Import Prelude GoStrings.

Definition alphabet : string :=
  "ABCDEFGHIJKLMNOPQRSTUVWXYZabcdefghijklmnopqrstuvwxyz0123456789-_".

Fixpoint byte_at (n : nat) (s : string) : ascii :=
  match s with
  | EmptyString => zero
  | String c t => match n with O => c | S n' => byte_at n' t end
  end.

Fixpoint index_byte (c : ascii) (s : string) : option N :=
  match s with
  | EmptyString => None
  | String x t => if Ascii.eqb x c then Some 0%N else N.succ <$> index_byte c t
  end.

Definition enc6 (v : N) : ascii := byte_at (N.to_nat v) alphabet.
Definition dec6 (c : ascii) : option N := index_byte c alphabet.

Definition byte_of (n : N) : ascii := ascii_of_N (n mod 256).

Fixpoint EncodeToString (s : string) : string :=
  match s with
  | EmptyString => ""
  | String a EmptyString =>
      let a := N_of_ascii a in
      String (enc6 (a / 4)) (String (enc6 (a mod 4 * 16)) "")
  | String a (String b EmptyString) =>
      let a := N_of_ascii a in
      let b := N_of_ascii b in
      String (enc6 (a / 4)) (String (enc6 (a mod 4 * 16 + b / 16)) (String (enc6 (b mod 16 * 4)) ""))
  | String a (String b (String c r)) =>
      let a := N_of_ascii a in
      let b := N_of_ascii b in
      let c := N_of_ascii c in
      String (enc6 (a / 4)) (String (enc6 (a mod 4 * 16 + b / 16))
        (String (enc6 (b mod 16 * 4 + c / 64)) (String (enc6 (c mod 64)) (EncodeToString r))))
  end.

(** The values of the input's characters; CR and LF are skipped. *)
Fixpoint sextets (s : string) : option (list N) :=
  match s with
  | EmptyString => Some []
  | String c r =>
      if Ascii.eqb c "010" || Ascii.eqb c "013" then sextets r
      else match dec6 c, sextets r with
           | Some v, Some vs => Some (v :: vs)
           | _, _ => None
           end
  end.

(** Quanta of four sextets, the last one of two, three or four. *)
Fixpoint decode_quanta (l : list N) : option string :=
  match l with
  | [] => Some ""
  | [_] => None
  | [v0; v1] => Some (String (byte_of (v0 * 4 + v1 / 16)) "")
  | [v0; v1; v2] =>
      Some (String (byte_of (v0 * 4 + v1 / 16)) (String (byte_of (v1 * 16 + v2 / 4)) ""))
  | v0 :: v1 :: v2 :: v3 :: r =>
      (λ t, String (byte_of (v0 * 4 + v1 / 16)) (String (byte_of (v1 * 16 + v2 / 4))
              (String (byte_of (v2 * 64 + v3)) t))) <$> decode_quanta r
  end.

Definition DecodeString (s : string) : option string := sextets s ≫= decode_quanta.

(** StdEncoding has its own characters for 62 and 63, and padding. *)
Definition std_of_url (c : ascii) : ascii := if Ascii.eqb c "-" then "+" else if Ascii.eqb c "_" then "/" else c.
Definition url_of_std (c : ascii) : option ascii :=
  if Ascii.eqb c "+" then Some ("-" : ascii) else if Ascii.eqb c "/" then Some ("_" : ascii)
  else if Ascii.eqb c "-" || Ascii.eqb c "_" then None else Some c.

Fixpoint map_bytes (f : ascii → ascii) (s : string) : string :=
  match s with "" => "" | String c t => String (f c) (map_bytes f t) end.
Fixpoint try_map_bytes (f : ascii → option ascii) (s : string) : option string :=
  match s with "" => Some "" | String c t => d ← f c; u ← try_map_bytes f t; Some (String d u) end.
Fixpoint drop_newlines (s : string) : string :=
  match s with
  | "" => ""
  | String c t => if Ascii.eqb c "010" || Ascii.eqb c "013" then drop_newlines t else String c (drop_newlines t)
  end.

Definition padding (raw : string) : string :=
  match (String.length raw mod 4)%nat with 2%nat => "==" | 3%nat => "=" | _ => "" end.

Definition StdEncode (s : string) : string :=
  let raw := map_bytes std_of_url (EncodeToString s) in raw +:+ padding raw.

(** One or two padding characters at the end. *)
Fixpoint strip_padding (s : string) : string :=
  match s with
  | "" | "=" | "==" => ""
  | String c t => String c (strip_padding t)
  end.

Definition StdDecode (s : string) : option string :=
  let s := drop_newlines s in
  if negb (String.length s mod 4 =? 0)%nat then None
  else raw ← try_map_bytes url_of_std (strip_padding s); DecodeString raw.

(** ** Lemmas *)

Lemma enc6_table :
  forallb (λ n, let c := enc6 (N.of_nat n) in
    bool_decide (dec6 c = Some (N.of_nat n)) &&
    negb (Ascii.eqb c "010" || Ascii.eqb c "013" || Ascii.eqb c "/" || Ascii.eqb c "+" || Ascii.eqb c "#"
          || Ascii.eqb c zero))
    (seq 0 64) = true.
Proof. vm_compute. reflexivity. Qed.

Lemma enc6_entry v : (v < 64)%N →
  dec6 (enc6 v) = Some v ∧
  enc6 v ≠ "010"%char ∧ enc6 v ≠ "013"%char ∧ enc6 v ≠ "/"%char ∧ enc6 v ≠ "+"%char ∧
  enc6 v ≠ "#"%char ∧ enc6 v ≠ zero.
Proof.
  intros Hv. pose proof enc6_table as H. rewrite forallb_forall in H.
  specialize (H (N.to_nat v)). rewrite N2Nat.id in H.
  destruct (proj1 (andb_true_iff _ _) (H ltac:(apply in_seq; lia))) as [H1%bool_decide_eq_true H2%negb_true_iff].
  rewrite !orb_false_iff, !Ascii.eqb_neq in H2. tauto.
Qed.

Lemma N_of_ascii_lt (a : ascii) : (N_of_ascii a < 256)%N.
Proof. by destruct a as [[] [] [] [] [] [] [] []]. Qed.

Lemma byte_of_N a v : v = N_of_ascii a → byte_of v = a.
Proof.
  intros ->. unfold byte_of. rewrite N.mod_small by apply N_of_ascii_lt. apply ascii_N_embedding.
Qed.

Lemma byte_of_mod a v : (v mod 256)%N = N_of_ascii a → byte_of v = a.
Proof. intros H. unfold byte_of. rewrite H. apply ascii_N_embedding. Qed.

Lemma sextets_enc v s vs : (v < 64)%N → sextets s = Some vs → sextets (String (enc6 v) s) = Some (v :: vs).
Proof.
  intros (Hd & H1 & H2 & _)%enc6_entry Hs. simpl. apply Ascii.eqb_neq in H1, H2.
  by rewrite H1, H2, Hd, Hs.
Qed.

(** Linear arithmetic with division by constants. *)
Ltac divlia := zify; Z.to_euclidean_division_equations; lia.

(** Strings by groups of three bytes. *)
Lemma string_ind3 (P : string → Prop) :
  P "" → (∀ a, P (String a "")) → (∀ a b, P (String a (String b ""))) →
  (∀ a b c r, P r → P (String a (String b (String c r)))) → ∀ s, P s.
Proof.
  intros H0 H1 H2 H3. fix IH 1. intros [|a [|b [|c r]]]; [done|apply H1|apply H2|apply H3, IH].
Qed.

Lemma decode_encode s : DecodeString (EncodeToString s) = Some s.
Proof.
  assert (∃ vs, sextets (EncodeToString s) = Some vs ∧ decode_quanta vs = Some s) as (vs & H1 & H2);
    [|unfold DecodeString; by rewrite H1].
  induction s as [|a|a b|a b c r IH] using string_ind3.
  - by exists [].
  - pose proof (N_of_ascii_lt a).
    eexists. split; [do 2 (apply sextets_enc; [divlia|]); done|]. simpl.
    do 2 f_equal. apply byte_of_N. divlia.
  - pose proof (N_of_ascii_lt a). pose proof (N_of_ascii_lt b).
    eexists. split; [do 3 (apply sextets_enc; [divlia|]); done|]. simpl.
    do 2 f_equal; [apply byte_of_N; divlia|]. f_equal. apply byte_of_mod. divlia.
  - pose proof (N_of_ascii_lt a). pose proof (N_of_ascii_lt b). pose proof (N_of_ascii_lt c).
    destruct IH as (vs & H3 & H4).
    eexists. split; [do 4 (apply sextets_enc; [divlia|]); exact H3|]. simpl. rewrite H4. simpl.
    do 2 f_equal; [apply byte_of_N; divlia|]. f_equal; [apply byte_of_mod; divlia|].
    f_equal. apply byte_of_mod. divlia.
Qed.

Lemma encode_inj s t : EncodeToString s = EncodeToString t → s = t.
Proof. intros H. pose proof (decode_encode s) as E. rewrite H, decode_encode in E. by injection E. Qed.

(** The encoding contains no separator, wildcard or NUL byte. *)
Lemma encode_safe s b : b ∈ ["/"%char; "+"%char; "#"%char; zero] → contains_byte b (EncodeToString s) = false.
Proof.
  intros Hb. assert (∀ v, (v < 64)%N → Ascii.eqb (enc6 v) b = false) as He.
  { intros v Hv. apply Ascii.eqb_neq. destruct (enc6_entry v Hv) as (_ & _ & _ & ? & ? & ? & ?).
    rewrite !elem_of_cons, elem_of_nil in Hb. naive_solver. }
  induction s as [|a|a b'|a b' c r IH] using string_ind3; simpl; [done|..];
    pose proof (N_of_ascii_lt a); try pose proof (N_of_ascii_lt b'); try pose proof (N_of_ascii_lt c);
    rewrite ?He by divlia; done.
Qed.

(** ** Lemmas: padding *)

Lemma std_table :
  forallb (λ n, let c := enc6 (N.of_nat n) in
    bool_decide (url_of_std (std_of_url c) = Some c) &&
    negb (Ascii.eqb (std_of_url c) "010" || Ascii.eqb (std_of_url c) "013" || Ascii.eqb (std_of_url c) "=") &&
    (N_of_ascii (std_of_url c) <? 128)%N)
    (seq 0 64) = true.
Proof. vm_compute. reflexivity. Qed.

(** Characters that survive the way to StdEncoding and back. *)
Definition std_char (c : ascii) : Prop :=
  url_of_std (std_of_url c) = Some c ∧ Ascii.eqb (std_of_url c) "010" || Ascii.eqb (std_of_url c) "013" = false ∧
  std_of_url c ≠ "="%char ∧ (N_of_ascii (std_of_url c) < 128)%N.

Lemma std_char_enc6 v : (v < 64)%N → std_char (enc6 v).
Proof.
  intros Hv. pose proof std_table as H. rewrite forallb_forall in H. specialize (H (N.to_nat v)). rewrite N2Nat.id in H.
  destruct (proj1 (andb_true_iff _ _) (H ltac:(apply in_seq; lia)))
    as [[H1%bool_decide_eq_true H2%negb_true_iff]%andb_true_iff H4%N.ltb_lt].
  apply orb_false_iff in H2 as [H2 H3%Ascii.eqb_neq]. by split_and!.
Qed.

Fixpoint all_bytes (P : ascii → Prop) (s : string) : Prop :=
  match s with "" => True | String c t => P c ∧ all_bytes P t end.

Lemma encode_std s : all_bytes std_char (EncodeToString s) ∧ (String.length (EncodeToString s) mod 4 ≠ 1)%nat.
Proof.
  induction s as [|a|a b|a b c r [IH Hl]] using string_ind3; (split; [cbn [EncodeToString all_bytes]|]); try done;
    try (pose proof (N_of_ascii_lt a)); try (pose proof (N_of_ascii_lt b)); try (pose proof (N_of_ascii_lt c));
    try (split_and!; (done || apply std_char_enc6; divlia)).
  cbn [EncodeToString String.length].
  change (S (S (S (S ?x)))) with (4 + x)%nat. by rewrite Nat.add_comm, (Nat.Div0.mod_add _ 1 4 : _ = _).
Qed.

Lemma map_bytes_length f s : String.length (map_bytes f s) = String.length s.
Proof. induction s as [|c s IH]; simpl; [done|by rewrite IH]. Qed.

Lemma try_map_std s : all_bytes std_char s → try_map_bytes url_of_std (map_bytes std_of_url s) = Some s.
Proof. induction s as [|c s IH]; simpl; [done|]. intros [(H & _) Hs]. by rewrite H, IH. Qed.

Lemma drop_newlines_std s p : all_bytes std_char s → p ∈ [""; "="; "=="] →
  drop_newlines (map_bytes std_of_url s +:+ p) = map_bytes std_of_url s +:+ p.
Proof.
  intros Hs Hp. induction s as [|c s IH]; cbn [map_bytes].
  - rewrite !string_app_nil_l. by repeat (apply elem_of_cons in Hp as [->|Hp]; [done|]); apply elem_of_nil in Hp.
  - destruct Hs as [(_ & H & _) Hs]. rewrite string_app_cons. cbn [drop_newlines]. by rewrite H, IH.
Qed.

Lemma strip_padding_cons c t : c ≠ "="%char → strip_padding (String c t) = String c (strip_padding t).
Proof. intros Hc. destruct c as [[] [] [] [] [] [] [] []]; done. Qed.

Lemma strip_padding_std s p : all_bytes std_char s → p ∈ [""; "="; "=="] →
  strip_padding (map_bytes std_of_url s +:+ p) = map_bytes std_of_url s.
Proof.
  intros Hs Hp. induction s as [|c s IH]; cbn [map_bytes].
  - rewrite string_app_nil_l. by repeat (apply elem_of_cons in Hp as [->|Hp]; [done|]); apply elem_of_nil in Hp.
  - destruct Hs as [(_ & _ & H & _) Hs]. rewrite string_app_cons, strip_padding_cons by done. by rewrite IH.
Qed.

Lemma padding_ok raw : padding raw ∈ [""; "="; "=="] ∧
  ((String.length raw mod 4 ≠ 1)%nat → (String.length (raw +:+ padding raw) mod 4 = 0)%nat).
Proof.
  unfold padding. rewrite string_length_app. pose proof (Nat.mod_upper_bound (String.length raw) 4 ltac:(lia)) as Hb.
  pose proof (Nat.div_mod_eq (String.length raw) 4) as Hd. set (m := (String.length raw mod 4)%nat) in *.
  destruct m as [|[|[|[|m]]]]; (split; [set_solver|]); intros Hn; cbn [String.length]; try lia.
  - rewrite Hd. replace (4 * (String.length raw / 4) + 0 + 0)%nat with (0 + (String.length raw / 4) * 4)%nat by lia. apply Nat.Div0.mod_add.
  - rewrite Hd. replace (4 * (String.length raw / 4) + 2 + 2)%nat with (0 + (String.length raw / 4 + 1) * 4)%nat by lia. apply Nat.Div0.mod_add.
  - rewrite Hd. replace (4 * (String.length raw / 4) + 3 + 1)%nat with (0 + (String.length raw / 4 + 1) * 4)%nat by lia. apply Nat.Div0.mod_add.
Qed.

Lemma std_roundtrip s : StdDecode (StdEncode s) = Some s.
Proof.
  destruct (encode_std s) as [Hs Hl]. unfold StdDecode, StdEncode.
  destruct (padding_ok (map_bytes std_of_url (EncodeToString s))) as [Hp Hm].
  rewrite drop_newlines_std by done. rewrite Hm by (by rewrite map_bytes_length). cbn [Nat.eqb negb].
  rewrite strip_padding_std, try_map_std by done. apply decode_encode.
Qed.

(** Base64 text is plain ASCII. *)
Lemma std_encode_ascii s : all_bytes (λ c, (N_of_ascii c < 128)%N) (StdEncode s).
Proof.
  unfold StdEncode. destruct (encode_std s) as [Hs _].
  destruct (padding_ok (map_bytes std_of_url (EncodeToString s))) as [Hp _]. revert Hp.
  generalize (padding (map_bytes std_of_url (EncodeToString s))) as p. intros p Hp.
  induction (EncodeToString s) as [|c t IH]; cbn [map_bytes].
  - rewrite string_app_nil_l. by repeat (apply elem_of_cons in Hp as [->|Hp]; [done|]); apply elem_of_nil in Hp.
  - destruct Hs as [(_ & _ & _ & H) Hs]. rewrite string_app_cons. split; [done|auto].
Qed.
