(* ===== verification/Decimal.v ===== *)
(** Decimal numbers as the Go standard library writes and reads them
    (strconv.FormatUint, Itoa, Atoi), and their round trips. *)

From S2P Require Import Prelude GoStrings.

Definition digit (n : N) : ascii := ascii_of_N (48 + n).

Fixpoint format_digits (fuel : nat) (n : N) (acc : string) : string :=
  match fuel with
  | O => acc
  | S fuel =>
      let acc := String (digit (n mod 10)) acc in
      if (n / 10 =? 0)%N then acc else format_digits fuel (n / 10) acc
  end.

(** A number has fewer decimal digits than binary ones. *)
Definition FormatUint (n : N) : string := format_digits (S (N.size_nat n)) n "".

Definition Itoa (z : Z) : string :=
  if (z <? 0)%Z then "-" +:+ FormatUint (Z.to_N (- z)) else FormatUint (Z.to_N z).

Definition digit_value (c : ascii) : option N :=
  let v := N_of_ascii c in
  if (48 <=? v)%N && (v <=? 57)%N then Some (v - 48)%N else None.

Fixpoint parse_digits (s : string) (acc : N) : option N :=
  match s with
  | "" => Some acc
  | String c s => match digit_value c with Some d => parse_digits s (acc * 10 + d) | None => None end
  end.

(** strconv.ParseUint in base 10, [max] the largest value of the width. *)
Definition ParseUint (max : N) (s : string) : option N :=
  match s with
  | "" => None
  | _ => match parse_digits s 0 with
         | Some n => if (n <=? max)%N then Some n else None
         | None => None
         end
  end.

Definition int64_max : N := 9223372036854775807.

(** strconv.ParseInt in base 10 and 64 bits, and Atoi. *)
Definition ParseInt (s : string) : option Z :=
  match s with
  | String "-" s => (λ n, - Z.of_N n)%Z <$> ParseUint (int64_max + 1) s
  | String "+" s => Z.of_N <$> ParseUint int64_max s
  | _ => Z.of_N <$> ParseUint int64_max s
  end.
Definition Atoi (s : string) : option Z := ParseInt s.

(** ** Lemmas *)

Fixpoint all_digits (s : string) : bool :=
  match s with
  | "" => true
  | String c s => match digit_value c with Some _ => all_digits s | None => false end
  end.

Lemma digit_value_digit n : (n < 10)%N → digit_value (digit n) = Some n.
Proof.
  intros Hn. assert (n = 0 ∨ n = 1 ∨ n = 2 ∨ n = 3 ∨ n = 4 ∨ n = 5 ∨ n = 6 ∨ n = 7 ∨ n = 8 ∨ n = 9)%N as H by lia.
  by repeat destruct H as [->|H]; subst.
Qed.

Lemma parse_format_digits fuel n s : (n < 10 ^ N.of_nat fuel)%N → ∃ k, ∀ v,
  parse_digits (format_digits fuel n s) v = parse_digits s (v * 10 ^ k + n).
Proof.
  revert n s. induction fuel as [|fuel IH]; intros n s Hn.
  { exists 0%N. intros v. assert (n = 0)%N as -> by (simpl in Hn; lia). simpl. f_equal. lia. }
  assert (n = 10 * (n / 10) + n mod 10)%N as Hd by (apply N.div_mod; lia).
  assert (n mod 10 < 10)%N as Hm by (apply N.mod_lt; lia).
  cbn [format_digits]. destruct (N.eqb_spec (n / 10) 0) as [E|E].
  { exists 1%N. intros v. cbn [parse_digits]. rewrite digit_value_digit by done. f_equal. lia. }
  destruct (IH (n / 10)%N (String (digit (n mod 10)) s)) as [k Hk].
  { apply N.Div0.div_lt_upper_bound. rewrite Nat2N.inj_succ, N.pow_succ_r' in Hn. lia. }
  exists (N.succ k). intros v. rewrite Hk. cbn [parse_digits]. rewrite digit_value_digit by done. f_equal.
  rewrite N.pow_succ_r'. lia.
Qed.

Lemma size_pow10 n : (n < 10 ^ N.of_nat (S (N.size_nat n)))%N.
Proof.
  apply N.lt_le_trans with (2 ^ N.of_nat (S (N.size_nat n)))%N; [|apply N.pow_le_mono_l; lia].
  apply size_nat_lt.
Qed.

Lemma parse_FormatUint n : parse_digits (FormatUint n) 0 = Some n.
Proof. destruct (parse_format_digits (S (N.size_nat n)) n "" (size_pow10 n)) as [k Hk]. unfold FormatUint. by rewrite Hk. Qed.

Lemma format_digits_all fuel n s : all_digits s = true → all_digits (format_digits fuel n s) = true.
Proof.
  revert n s. induction fuel as [|fuel IH]; intros n s Hs; [done|]. cbn [format_digits].
  assert (all_digits (String (digit (n mod 10)) s) = true).
  { cbn [all_digits]. rewrite digit_value_digit; [done|]. apply N.mod_lt. lia. }
  destruct (_ =? 0)%N; auto.
Qed.

Lemma FormatUint_digits n : all_digits (FormatUint n) = true.
Proof. by apply format_digits_all. Qed.

Lemma format_digits_nonempty fuel n c s : format_digits fuel n (String c s) ≠ "".
Proof. revert n c s. induction fuel as [|fuel IH]; intros n c s; [done|]. cbn [format_digits]. destruct (_ =? 0)%N; [done|apply IH]. Qed.

Lemma FormatUint_nonempty n : FormatUint n ≠ "".
Proof. unfold FormatUint. cbn [format_digits]. destruct (_ =? 0)%N; [done|apply format_digits_nonempty]. Qed.

Lemma FormatUint_inj n m : FormatUint n = FormatUint m → n = m.
Proof. intros H. pose proof (parse_FormatUint n) as E. rewrite H, parse_FormatUint in E. congruence. Qed.

Lemma ParseUint_FormatUint max n : (n <= max)%N → ParseUint max (FormatUint n) = Some n.
Proof.
  intros Hn. unfold ParseUint. destruct (FormatUint n) as [|c s] eqn:E; [by destruct (FormatUint_nonempty n)|].
  rewrite <-E, parse_FormatUint. apply N.leb_le in Hn. by rewrite Hn.
Qed.

(** The first byte of a printed number is a digit. *)
Lemma FormatUint_first n : ∃ c s, FormatUint n = String c s ∧ digit_value c ≠ None.
Proof.
  destruct (FormatUint n) as [|c s] eqn:E; [by destruct (FormatUint_nonempty n)|]. exists c, s. split; [done|].
  pose proof (FormatUint_digits n) as H. rewrite E in H. simpl in H. by destruct (digit_value c).
Qed.

Lemma Atoi_Itoa z : (- Z.of_N int64_max - 1 <= z <= Z.of_N int64_max)%Z → Atoi (Itoa z) = Some z.
Proof.
  intros Hz. unfold Atoi, Itoa. destruct (Z.ltb_spec z 0).
  - change ("-" +:+ ?s) with (String "-" s). cbn [ParseInt]. rewrite ParseUint_FormatUint by lia. simpl. f_equal. lia.
  - destruct (FormatUint_first (Z.to_N z)) as (c & s & E & Hc). unfold ParseInt. rewrite E.
    assert (Z.of_N <$> ParseUint int64_max (String c s) = Some z) as Hp.
    { rewrite <-E, ParseUint_FormatUint by lia. simpl. f_equal. lia. }
    destruct c as [[] [] [] [] [] [] [] []]; try exact Hp; by destruct Hc.
Qed.

Lemma Itoa_of_N n : Itoa (Z.of_N n) = FormatUint n.
Proof. unfold Itoa. destruct (Z.ltb_spec (Z.of_N n) 0); [lia|]. by rewrite N2Z.id. Qed.

(** No leading zero. *)
Lemma format_digits_lead fuel n acc t : (0 < n)%N → (n < 10 ^ N.of_nat fuel)%N → format_digits fuel n acc ≠ String "0" t.
Proof.
  revert n acc. induction fuel as [|fuel IH]; intros n acc Hp Hn; [simpl in Hn; lia|]. cbn [format_digits].
  destruct (N.eqb_spec (n / 10) 0) as [E|E].
  - pose proof (N.div_mod n 10 ltac:(lia)) as Hd. rewrite E in Hd. intros [= H _].
    pose proof (digit_value_digit (n mod 10) ltac:(apply N.mod_lt; lia)) as Hv.
    rewrite H in Hv. change (digit_value "0") with (Some 0%N) in Hv. injection Hv as Hv. lia.
  - apply (IH (n / 10)%N); [by apply N.neq_0_lt_0|]. apply N.Div0.div_lt_upper_bound.
    rewrite Nat2N.inj_succ, N.pow_succ_r' in Hn. lia.
Qed.

Lemma FormatUint_lead n t : FormatUint n = String "0" t → n = 0%N ∧ t = "".
Proof.
  intros H. destruct (decide (n = 0)%N) as [->|Hn]; [split; [done|]; by injection H as <-|].
  exfalso. revert H. apply format_digits_lead; [lia|apply size_pow10].
Qed.
