(* ===== verification/GoNumbers.v ===== *)
(** * Durations and floating-point numbers as text

    What the configuration uses of Go's time and strconv: time.ParseDuration,
    Duration.Seconds, strconv.ParseInt for 32 bits, and strconv.ParseFloat with its
    decimal and hexadecimal forms, underscores, infinities and NaN, correctly rounded.
    Errors are [None]. *)
From Stdlib Require Import SpecFloat.
From S2P Require Import Prelude GoStrings Decimal Float64.
Local Open Scope Z_scope.

(** ** time *)

(** A time.Duration: nanoseconds in 64 bits. *)
Definition Nanosecond : Z := 1.
Definition Microsecond : Z := 1000.
Definition Millisecond : Z := 1000000.
Definition Second : Z := 1000000000.
Definition Minute : Z := 60 * Second.
Definition Hour : Z := 60 * Minute.

Definition wrap_uint64 (z : Z) : Z := z mod 2 ^ 64.
Definition wrap_int64 (z : Z) : Z := (z + 2 ^ 63) mod 2 ^ 64 - 2 ^ 63.

Definition micro_sign : string := bytes [194; 181; 115]%N.
Definition greek_mu : string := bytes [206; 188; 115]%N.

Definition unitMap (u : string) : option Z :=
  if String.eqb u "ns" then Some Nanosecond
  else if String.eqb u "us" || String.eqb u micro_sign || String.eqb u greek_mu then Some Microsecond
  else if String.eqb u "ms" then Some Millisecond
  else if String.eqb u "s" then Some Second
  else if String.eqb u "m" then Some Minute
  else if String.eqb u "h" then Some Hour
  else None.

Definition digit_of (c : ascii) : option Z := Z.of_N <$> digit_value c.

(** leadingInt; the text after the digits, or [None] on an overflow. *)
Fixpoint leadingInt (s : string) (x : Z) : option (Z * string) :=
  match s with
  | EmptyString => Some (x, s)
  | String c s' =>
      match digit_of c with
      | None => Some (x, s)
      | Some d =>
          if 2 ^ 63 / 10 <? x then None
          else
            let x := x * 10 + d in
            if 2 ^ 63 <? x then None else leadingInt s' x
      end
  end.

(** leadingFraction; digits beyond the precision are skipped. *)
Fixpoint leadingFraction (s : string) (x : Z) (scale : float64) (overflow : bool) : Z * float64 * string :=
  match s with
  | EmptyString => (x, scale, s)
  | String c s' =>
      match digit_of c with
      | None => (x, scale, s)
      | Some d =>
          if overflow then leadingFraction s' x scale true
          else if (2 ^ 63 - 1) / 10 <? x then leadingFraction s' x scale true
          else
            let y := x * 10 + d in
            if 2 ^ 63 <? y then leadingFraction s' x scale true
            else leadingFraction s' y (fmul scale (of_int 10)) false
      end
  end.

Definition unit_byte (c : ascii) : bool := negb (Ascii.eqb c "." || match digit_of c with Some _ => true | None => false end).

Fixpoint take_unit (s : string) : string * string :=
  match s with
  | EmptyString => ("", "")
  | String c s' => if unit_byte c then let '(u, r) := take_unit s' in (String c u, r) else ("", s)
  end.

(** One number with its unit: its value in nanoseconds and the rest. *)
Definition parse_component (s : string) : option (Z * string) :=
  '(v, s1) ← leadingInt s 0;
  let pre := negb (String.length s =? String.length s1)%nat in
  let '(f, scale, s2, post) :=
    match s1 with
    | String "." s' => let '(f, scale, r) := leadingFraction s' 0 (of_int 1) false in (f, scale, r, negb (String.length s' =? String.length r)%nat)
    | _ => (0, of_int 1, s1, false)
    end in
  if negb pre && negb post then None
  else
    let '(u, rest) := take_unit s2 in
    unit ← unitMap u;
    if 2 ^ 63 / unit <? v then None
    else
      let v := v * unit in
      if 0 <? f then
        frac ← to_int (fmul (of_int f) (fdiv (of_int unit) scale));
        let v := v + frac in
        if 2 ^ 63 <? v then None else Some (v, rest)
      else Some (v, rest).

(** Every component takes at least one byte; [fuel] is the length of the text. *)
Fixpoint parse_components (fuel : nat) (s : string) (d : Z) : option Z :=
  match s with
  | EmptyString => Some d
  | String _ _ =>
      match fuel with
      | O => None
      | S fuel =>
          '(v, rest) ← parse_component s;
          let d := wrap_uint64 (d + v) in
          if 2 ^ 63 <? d then None else parse_components fuel rest d
      end
  end.

Definition ParseDuration (s : string) : option Z :=
  let '(neg, s) := match s with String "-" r => (true, r) | String "+" r => (false, r) | _ => (false, s) end in
  if String.eqb s "0" then Some 0
  else if String.eqb s "" then None
  else
    d ← parse_components (String.length s) s 0;
    if neg : bool then Some (wrap_int64 (- wrap_int64 d))
    else if 2 ^ 63 - 1 <? d then None
    else Some d.

(** Duration.Seconds *)
Definition Seconds (d : Z) : float64 := fadd (of_int (Z.quot d Second)) (fdiv (of_int (Z.rem d Second)) (of_int Second)).

(** ** strconv *)

(** ParseInt(s, 10, 32) *)
Definition ParseInt32 (s : string) : option Z :=
  z ← ParseInt s;
  if (- 2 ^ 31 <=? z) && (z <=? 2 ^ 31 - 1) then Some z else None.

(** The bytes a number consists of. *)
Definition hex_digit_of (c : ascii) : option Z :=
  match digit_of c with
  | Some d => Some d
  | None => let v := Z.of_N (N_of_ascii (lower_byte c)) in if (97 <=? v) && (v <=? 102) then Some (v - 87) else None
  end.

(** readFloat's loop over the mantissa: the digits with the value of the mantissa, how
    many of them follow the point, whether a point and a digit were seen, and the rest.
    The value is exact here; the code keeps as many digits as fit and remembers that it
    dropped some, and rounds as if it had kept all. *)
Fixpoint read_mantissa (hex : bool) (s : string) (m : Z) (frac : Z) (sawdot sawdigits : bool) : Z * Z * bool * string :=
  match s with
  | EmptyString => (m, frac, sawdigits, s)
  | String c s' =>
      if Ascii.eqb c "_" then read_mantissa hex s' m frac sawdot sawdigits
      else if Ascii.eqb c "." then if sawdot then (m, frac, sawdigits, s) else read_mantissa hex s' m frac true sawdigits
      else
        match (if hex then hex_digit_of c else digit_of c) with
        | Some d => read_mantissa hex s' (m * (if hex then 16 else 10) + d) (if sawdot then frac + 1 else frac) sawdot true
        | None => (m, frac, sawdigits, s)
        end
  end.

(** The digits of an exponent, which stops growing at 10000. *)
Fixpoint read_exponent (s : string) (e : Z) : Z * string :=
  match s with
  | EmptyString => (e, s)
  | String c s' =>
      if Ascii.eqb c "_" then read_exponent s' e
      else match digit_of c with
           | Some d => read_exponent s' (if e <? 10000 then e * 10 + d else e)
           | None => (e, s)
           end
  end.

(** underscoreOK after the sign and the base prefix: each underscore stands between two
    digits; [saw] is the class of the previous byte. *)
Inductive saw_class := SawStart | SawDigit | SawUnderscore | SawOther.

Fixpoint underscores_ok (hex : bool) (s : string) (saw : saw_class) : bool :=
  match s with
  | EmptyString => match saw with SawUnderscore => false | _ => true end
  | String c s' =>
      if match (if hex then hex_digit_of c else digit_of c) with Some _ => true | None => false end then underscores_ok hex s' SawDigit
      else if Ascii.eqb c "_" then match saw with SawDigit => underscores_ok hex s' SawUnderscore | _ => false end
      else match saw with SawUnderscore => false | _ => underscores_ok hex s' SawOther end
  end.

(** special: infinities and NaN. *)
Definition special (s : string) : option float64 :=
  let l := (fix lower s := match s with EmptyString => "" | String c s => String (lower_byte c) (lower s) end) s in
  if existsb (String.eqb l) ["inf"; "+inf"; "infinity"; "+infinity"] then Some (S754_infinity false)
  else if existsb (String.eqb l) ["-inf"; "-infinity"] then Some (S754_infinity true)
  else if String.eqb l "nan" then Some S754_nan
  else None.

(** The double nearest to [m * 10 ^ e] and to [m * 2 ^ e]. *)
Definition round_decimal (neg : bool) (m e : Z) : float64 :=
  match m with
  | Zpos p =>
      if 0 <=? e then binary_normalize prec emax (with_sign neg (m * 10 ^ e)) 0 neg
      else match 10 ^ (- e) with Zpos q => SFdiv prec emax (S754_finite neg p 0) (S754_finite false q 0) | _ => S754_nan end
  | _ => S754_zero neg
  end.
Definition round_binary (neg : bool) (m e : Z) : float64 := binary_normalize prec emax (with_sign neg m) e neg.

(** The sign, the base and the number proper. *)
Definition read_sign (s : string) : bool * string :=
  match s with String "-" r => (true, r) | String "+" r => (false, r) | _ => (false, s) end.
Definition read_base (s : string) : bool * string :=
  match s with
  | String "0" (String x (String c r)) => if Ascii.eqb (lower_byte x) "x" then (true, String c r) else (false, s)
  | _ => (false, s)
  end.

(** The exponent after the mantissa, [None] when it is malformed. *)
Definition read_exp (hex : bool) (s : string) : option (Z * string) :=
  match s with
  | String c r =>
      if Ascii.eqb (lower_byte c) (if hex then "p"%char else "e"%char) then
        let '(neg, digits) := read_sign r in
        match digits with
        | String d _ => match digit_of d with
                        | Some _ => let '(e, rest) := read_exponent digits 0 in Some (if neg : bool then - e else e, rest)
                        | None => None
                        end
        | EmptyString => None
        end
      else if hex then None else Some (0, s)
  | EmptyString => if hex then None else Some (0, s)
  end.

(** readFloat and the rounding; the whole text must be read, and a finite number that
    is too large is an error. *)
Definition parse_number (s : string) : option float64 :=
  let '(neg, s1) := read_sign s in
  let '(hex, s2) := read_base s1 in
  let '(m, frac, sawdigits, s3) := read_mantissa hex s2 0 0 false false in
  if negb sawdigits then None
  else
    '(e, rest) ← read_exp hex s3;
    if negb (String.eqb rest "") then None
    else if contains_byte "_" s && negb (underscores_ok hex s2 (if hex then SawDigit else SawStart)) then None
    else
      let x := if hex then round_binary neg m (e - 4 * frac) else round_decimal neg m (e - frac) in
      match x with S754_infinity _ => None | _ => Some x end.

(** strconv.ParseFloat(s, 64) *)
Definition ParseFloat (s : string) : option float64 :=
  match special s with
  | Some x => Some x
  | None => parse_number s
  end.

(** ** Examples *)

Lemma durations : ParseDuration "1h15m30.918s" = Some (4530918 * Millisecond) ∧ ParseDuration "-1.5h" = Some (- (90 * Minute)) ∧
  ParseDuration "30" = None ∧ ParseDuration ".5s" = Some (500 * Millisecond) ∧ ParseDuration "9223372036854775808ns" = None ∧
  ParseDuration "-9223372036854775808ns" = Some (- 2 ^ 63).
Proof. vm_compute. done. Qed.

Lemma floats : ParseFloat "2.5e1" = Some (of_int 25) ∧ ParseFloat "1_0" = Some (of_int 10) ∧ ParseFloat "_10" = None ∧ ParseFloat "0x1.8p1" = Some (of_int 3) ∧
  ParseFloat "1e400" = None ∧ ParseFloat "nan" = Some S754_nan ∧ ParseFloat "1e-400" = Some (S754_zero false) ∧ ParseFloat "0.1" = Some (fdiv (of_int 1) (of_int 10)) ∧
  ParseFloat "0x10" = None ∧ ParseFloat "" = None ∧ ParseFloat "." = None ∧ ParseFloat "-.5" = Some (fdiv (of_int (-1)) (of_int 2)).
Proof. vm_compute. done. Qed.

(** ** Ranges *)

Lemma parse_components_range fuel s d r : 0 <= d <= 2 ^ 63 → parse_components fuel s d = Some r → 0 <= r <= 2 ^ 63.
Proof.
  revert s d. induction fuel as [|fuel IH]; intros s d Hd E; (destruct s as [|c s]; [cbn in E; by simplify_eq|]); [done|].
  cbn [parse_components] in E. destruct (parse_component (String c s)) as [[v rest]|]; [|done]. cbn [mbind option_bind] in E. unfold wrap_uint64 in E.
  destruct (Z.ltb_spec (2 ^ 63) ((d + v) mod 2 ^ 64)); [done|]. eapply IH; [|exact E]. pose proof (Z.mod_pos_bound (d + v) (2 ^ 64)). lia.
Qed.

Lemma ParseDuration_range s d : ParseDuration s = Some d → - 2 ^ 63 <= d <= 2 ^ 63 - 1.
Proof.
  unfold ParseDuration. destruct (match s with String "-" r => (true, r) | String "+" r => (false, r) | _ => (false, s) end) as [neg t].
  destruct (String.eqb t "0"); [intros [= <-]; lia|]. destruct (String.eqb t ""); [done|].
  destruct (parse_components (String.length t) t 0) as [r|] eqn:E; [|done]. apply parse_components_range in E; [|lia]. cbn. destruct neg.
  - intros [= <-]. unfold wrap_int64. pose proof (Z.mod_pos_bound (- ((r + 2 ^ 63) mod 2 ^ 64 - 2 ^ 63) + 2 ^ 63) (2 ^ 64)). lia.
  - destruct (Z.ltb_spec (2 ^ 63 - 1) r); [done|]. intros [= <-]. lia.
Qed.

Lemma Atoi_range s z : Atoi s = Some z → - 2 ^ 63 <= z <= 2 ^ 63 - 1.
Proof.
  assert (∀ max t n, ParseUint max t = Some n → (n <= max)%N) as HU.
  { intros max t n. unfold ParseUint. destruct t; [done|]. destruct (parse_digits _ 0) as [k|]; [|done]. destruct (N.leb_spec k max); [|done]. by intros [= <-]. }
  assert (∀ t, Z.of_N <$> ParseUint int64_max t = Some z → - 2 ^ 63 <= z <= 2 ^ 63 - 1) as Hpos.
  { intros t E. destruct (ParseUint int64_max t) as [n|] eqn:En; [|done]. apply HU in En. injection E as <-. unfold int64_max in En. lia. }
  assert (∀ t, (λ n, - Z.of_N n) <$> ParseUint (int64_max + 1) t = Some z → - 2 ^ 63 <= z <= 2 ^ 63 - 1) as Hneg.
  { intros t E. destruct (ParseUint (int64_max + 1) t) as [n|] eqn:En; [|done]. apply HU in En. injection E as <-. unfold int64_max in En. lia. }
  unfold Atoi, ParseInt. intros E. repeat case_match; eauto.
Qed.
