(* ===== verification/FloatRound.v ===== *)
(** * Rounding

    How far the operations of [Float64] are from the exact result: a rounded result lies
    between any two numbers of the target precision that enclose the exact one. With it,
    the number of seconds of a duration is exact where the code relies on it. *)
From Stdlib Require Import SpecFloat ZArith Lia.
From S2P Require Import Prelude GoStrings Decimal Float64 GoNumbers.
Local Open Scope Z_scope.

(** ** Digits and shifts *)

Lemma digits_pos p : 2 ^ (Z.pos (digits2_pos p) - 1) <= Z.pos p < 2 ^ Z.pos (digits2_pos p).
Proof.
  induction p as [p IH|p IH|]; cbn [digits2_pos]; [| |cbn; lia]; rewrite Pos2Z.inj_succ.
  all: replace (Z.succ (Z.pos (digits2_pos p)) - 1) with (Z.succ (Z.pos (digits2_pos p) - 1)) by lia.
  all: rewrite !Z.pow_succ_r by lia; lia.
Qed.

Lemma digits_bounds m : 0 < m → 0 < Zdigits2 m ∧ 2 ^ (Zdigits2 m - 1) <= m < 2 ^ Zdigits2 m.
Proof. destruct m as [|p|p]; try lia. intros _. split; [done|]. apply digits_pos. Qed.

Lemma digits_unique m d : 0 < d → 2 ^ (d - 1) <= m < 2 ^ d → Zdigits2 m = d.
Proof.
  intros Hd [H1 H2]. assert (0 < m) as Hm by (pose proof (Z.pow_pos_nonneg 2 (d - 1)); lia). destruct (digits_bounds m Hm) as (H0 & H3 & H4).
  assert (Zdigits2 m - 1 < d) by (apply (Z.pow_lt_mono_r_iff 2); lia). assert (d - 1 < Zdigits2 m) by (apply (Z.pow_lt_mono_r_iff 2); lia). lia.
Qed.

Lemma iter_pos_nat {A} (f : A → A) p x : SpecFloat.iter_pos f p x = Nat.iter (Pos.to_nat p) f x.
Proof.
  revert x. induction p as [p IH|p IH|]; intros x; cbn [SpecFloat.iter_pos]; [| |done].
  - rewrite !IH, Pos2Nat.inj_xI, <-Nat.iter_add, Nat.iter_succ_r. f_equal. lia.
  - rewrite !IH, Pos2Nat.inj_xO, <-Nat.iter_add. f_equal. lia.
Qed.

Lemma shr_iter n m r s : 0 <= m →
  shr_m (Nat.iter n shr_1 (Build_shr_record m r s)) = m / 2 ^ Z.of_nat n ∧
  (r = false → s = false → m mod 2 ^ Z.of_nat n = 0 → loc_of_shr_record (Nat.iter n shr_1 (Build_shr_record m r s)) = loc_Exact).
Proof.
  revert m r s. induction n as [|n IH]; intros m r s Hm.
  { cbn. rewrite Z.div_1_r. split; [done|]. by intros -> ->. }
  rewrite Nat.iter_succ_r. rewrite Nat2Z.inj_succ, Z.pow_succ_r by lia. rewrite <-Z.div_div by lia.
  assert (∃ b, shr_1 (Build_shr_record m r s) = Build_shr_record (m / 2) b (r || s) ∧ (m mod 2 = 0 → b = false)) as (b & -> & Hb).
  { destruct m as [|[p|p|]|p]; [|cbn [shr_1]..|lia].
    - by exists false.
    - exists true. rewrite Pos2Z.inj_xI. replace (2 * Z.pos p + 1) with (1 + Z.pos p * 2) by lia. rewrite Z.div_add, Z.mod_add by lia. done.
    - exists false. rewrite Pos2Z.inj_xO. replace (2 * Z.pos p) with (Z.pos p * 2) by lia. rewrite Z.div_mul by lia. done.
    - by exists true. }
  destruct (IH (m / 2) b (r || s) ltac:(apply Z.div_pos; lia)) as [H1 H2]. split; [done|]. intros -> -> Hmod. rewrite Z.rem_mul_r in Hmod by lia.
  pose proof (Z.mod_pos_bound m 2). pose proof (Z.mod_pos_bound (m / 2) (2 ^ Z.of_nat n)). apply H2; [apply Hb; lia|done|lia].
Qed.

Lemma shr_spec m e l n : 0 <= m → let k := Z.max 0 n in
  shr_m (shr (shr_record_of_loc m l) e n).1 = m / 2 ^ k ∧ (shr (shr_record_of_loc m l) e n).2 = e + k ∧
  (l = loc_Exact → m mod 2 ^ k = 0 → loc_of_shr_record (shr (shr_record_of_loc m l) e n).1 = loc_Exact).
Proof.
  intros Hm k. subst k. destruct n as [|p|p]; cbn [shr fst snd].
  1,3: rewrite Z.max_l by lia; rewrite Z.div_1_r; split_and!; [by destruct l as [|[]]|lia|by intros -> _].
  rewrite Z.max_r by lia. rewrite iter_pos_nat. replace (Z.pos p) with (Z.of_nat (Pos.to_nat p)) by lia.
  destruct l as [|c]; cbn [shr_record_of_loc].
  - destruct (shr_iter (Pos.to_nat p) m false false Hm) as [H1 H2]. split_and!; [done|done|]. intros _. by apply H2.
  - split_and!; [|done|done]. destruct c; by apply shr_iter.
Qed.

(** ** Rounding to 53 digits *)

(** How many digits are lost. *)
Definition lost (m e : Z) : Z := Z.max 0 (Zdigits2 m - 53).

Lemma round_aux_spec sx m e l : 0 < m → -1000 <= e → Zdigits2 m + e <= 900 → 
  ∃ p q R, binary_round_aux prec emax sx m e l = S754_finite sx p q ∧ Z.pos p < 2 ^ 53 ∧
    Z.pos p * 2 ^ (q - (e + lost m e)) = R ∧ (q = e + lost m e ∨ (q = e + lost m e + 1 ∧ Z.pos p = 2 ^ 52)) ∧
    m / 2 ^ lost m e <= R <= m / 2 ^ lost m e + 1 ∧ (l = loc_Exact → m mod 2 ^ lost m e = 0 → R = m / 2 ^ lost m e).
Proof.
  intros Hm He Hbig. destruct (digits_bounds m Hm) as (Hd & Hlo & Hhi). set (k := lost m e) in *.
  assert (0 <= k) as Hk by (unfold k, lost; lia).
  assert (Z.max 0 (fexp prec emax (Zdigits2 m + e) - e) = k) as Hn.
  { unfold fexp, SpecFloat.emin, prec, emax, k, lost. lia. }
  unfold binary_round_aux, shr_fexp. destruct (shr_spec m e l (fexp prec emax (Zdigits2 m + e) - e) ltac:(lia)) as (H1 & H2 & H3). rewrite Hn in H1, H2, H3.
  destruct (shr (shr_record_of_loc m l) e _) as [mrs e1]. cbn [fst snd] in H1, H2, H3. subst e1.
  set (R := round_nearest_even (shr_m mrs) (loc_of_shr_record mrs)).
  assert (m / 2 ^ k <= R <= m / 2 ^ k + 1) as HR.
  { unfold R. rewrite H1. destruct (loc_of_shr_record mrs) as [|[]]; cbn; [lia|destruct (Z.even _); lia|lia|lia]. }
  assert (l = loc_Exact → m mod 2 ^ k = 0 → R = m / 2 ^ k) as Hex by (intros El Em; unfold R; by rewrite (H3 El Em), <-H1).
  assert (0 < 2 ^ k) as Hpk by (apply Z.pow_pos_nonneg; lia).
  assert (m / 2 ^ k < 2 ^ 53) as Hlt.
  { apply Z.div_lt_upper_bound; [done|]. rewrite <-Z.pow_add_r by lia. eapply Z.lt_le_trans; [exact Hhi|]. apply Z.pow_le_mono_r; unfold k, lost; lia. }
  assert (1 <= m / 2 ^ k) as Hge.
  { apply Z.div_le_lower_bound; [done|]. rewrite Z.mul_1_r. eapply Z.le_trans; [|exact Hlo]. apply Z.pow_le_mono_r; unfold k, lost; lia. }
  destruct (digits_bounds R ltac:(lia)) as (HdR & HloR & HhiR).
  destruct (shr_spec R (e + k) loc_Exact (fexp prec emax (Zdigits2 R + (e + k)) - (e + k)) ltac:(lia)) as (G1 & G2 & _).
  destruct (shr (shr_record_of_loc R loc_Exact) (e + k) _) as [mrs2 e2]. cbn [fst snd] in G1, G2.
  assert (Hsmall : e + k + 1 <= 971) by (unfold k, lost; lia).
  destruct (Z.eq_dec R (2 ^ 53)) as [ER|NR].
  - assert (Zdigits2 R = 54) as EdR by (apply digits_unique; [lia|]; rewrite ER; cbn; lia).
    assert (Z.max 0 (fexp prec emax (Zdigits2 R + (e + k)) - (e + k)) = 1) as En by (rewrite EdR; unfold fexp, SpecFloat.emin, prec, emax; lia).
    rewrite En in G1, G2. rewrite ER in G1. change (2 ^ 53 / 2 ^ 1) with (Z.pos 4503599627370496) in G1. rewrite G1, G2.
    rewrite (proj2 (Z.leb_le _ _)) by (unfold emax, prec; lia). exists 4503599627370496%positive, (e + k + 1), R. split_and!; [done|done| |by right|lia|lia|done].
    rewrite ER. replace (e + k + 1 - (e + k)) with 1 by lia. done.
  - assert (Zdigits2 R <= 53) as EdR.
    { destruct (Z.le_gt_cases (Zdigits2 R) 53); [done|]. exfalso. assert (2 ^ 53 <= 2 ^ (Zdigits2 R - 1)) by (apply Z.pow_le_mono_r; lia). lia. }
    assert (Z.max 0 (fexp prec emax (Zdigits2 R + (e + k)) - (e + k)) = 0) as En by (unfold fexp, SpecFloat.emin, prec, emax; lia).
    rewrite En in G1, G2. rewrite Z.div_1_r in G1. rewrite G1, G2. destruct R as [|p|p]; [lia| |lia].
    rewrite (proj2 (Z.leb_le _ _)) by (unfold emax, prec; lia). exists p, (e + k + 0), (Z.pos p). split_and!; [done|lia| |left; lia|lia|lia|done].
    replace (e + k + 0 - (e + k)) with 0 by lia. lia.
Qed.

Lemma div_enclosed m k A B R : 0 <= k → A * 2 ^ k <= m < B * 2 ^ k → m / 2 ^ k <= R <= m / 2 ^ k + 1 → A <= R <= B.
Proof.
  intros Hk [HA HB] HR. assert (0 < 2 ^ k) by (apply Z.pow_pos_nonneg; lia).
  assert (A <= m / 2 ^ k) by (apply Z.div_le_lower_bound; lia). assert (m / 2 ^ k < B) by (apply Z.div_lt_upper_bound; lia). lia.
Qed.

Lemma iter_xO p d : Z.pos (Pos.iter xO p d) = Z.pos p * 2 ^ Z.pos d.
Proof.
  induction d as [|d IH] using Pos.peano_ind; [cbn; lia|]. rewrite Pos.iter_succ, Pos2Z.inj_xO, IH, Pos2Z.inj_succ, Z.pow_succ_r by lia. lia.
Qed.

Lemma shl_align_spec p e e' : e' <= e → Z.pos (shl_align p e e').1 = Z.pos p * 2 ^ (e - e') ∧ (shl_align p e e').2 = e'.
Proof.
  intros He. unfold shl_align. destruct (e' - e) as [|d|d] eqn:Ed; [|lia|]; cbn [fst snd].
  - replace (e - e') with 0 by lia. split; [rewrite Z.pow_0_r; lia|lia].
  - rewrite iter_xO. replace (e - e') with (Z.pos d) by lia. done.
Qed.

(** An integer of at most 53 digits is a float64. *)
Lemma of_int_exact z : 0 < z < 2 ^ 53 → ∃ p, of_int z = S754_finite false p (Zdigits2 z - 53) ∧ Z.pos p = z * 2 ^ (53 - Zdigits2 z) ∧
  Zdigits2 (Z.pos p) = 53 ∧ 0 < Zdigits2 z <= 53.
Proof.
  intros [H0 H1]. destruct (digits_bounds z H0) as (Hd & Hlo & Hhi). set (d := Zdigits2 z) in *.
  assert (d <= 53) as Hd53.
  { destruct (Z.le_gt_cases d 53); [done|]. exfalso. assert (2 ^ 53 <= 2 ^ (d - 1)) by (apply Z.pow_le_mono_r; lia). lia. }
  destruct z as [|z|z]; try lia. unfold of_int, binary_normalize, binary_round.
  replace (fexp prec emax (Z.pos (digits2_pos z) + 0)) with (d - 53) by (unfold fexp, SpecFloat.emin, prec, emax, d; cbn [Zdigits2] in *; lia).
  destruct (shl_align_spec z 0 (d - 53) ltac:(lia)) as [E1 E2]. destruct (shl_align z 0 (d - 53)) as [mz ez]. cbn [fst snd] in E1, E2. subst ez.
  replace (0 - (d - 53)) with (53 - d) in E1 by lia.
  assert (Zdigits2 (Z.pos mz) = 53) as Edz.
  { apply digits_unique; [lia|]. rewrite E1. split.
    - replace (2 ^ (53 - 1)) with (2 ^ (d - 1) * 2 ^ (53 - d)) by (rewrite <-Z.pow_add_r by lia; f_equal; lia). apply Z.mul_le_mono_nonneg_r; [apply Z.pow_nonneg; lia|done].
    - replace (2 ^ 53) with (2 ^ d * 2 ^ (53 - d)) by (rewrite <-Z.pow_add_r by lia; f_equal; lia). apply Z.mul_lt_mono_pos_r; [apply Z.pow_pos_nonneg; lia|done]. }
  destruct (round_aux_spec false (Z.pos mz) (d - 53) loc_Exact) as (p & q & R & E & Hp & ER & Hq & HR & Hex); [lia|lia|lia|].
  assert (lost (Z.pos mz) (d - 53) = 0) as Hlost by (unfold lost; lia). rewrite Hlost in *. rewrite Z.pow_0_r, Z.div_1_r in *.
  specialize (Hex eq_refl (Z.mod_1_r _)). exists p. rewrite E. destruct Hq as [->|[-> Ep]].
  - replace (d - 53 + 0 - (d - 53 + 0)) with 0 in ER by lia. rewrite Z.pow_0_r, Z.mul_1_r in ER. split_and!; [f_equal; lia|congruence| |done|done].
    congruence.
  - exfalso. replace (d - 53 + 0 + 1 - (d - 53 + 0)) with 1 in ER by lia. rewrite Ep in ER. change (2 ^ 52 * 2 ^ 1) with (2 ^ 53) in ER.
    destruct (digits_bounds (Z.pos mz) ltac:(lia)) as (_ & _ & Hz). rewrite Edz in Hz. lia.
Qed.

(** ** The seconds of a duration *)

(** A fraction of a second is rounded to a number strictly between 0 and 1. *)
Lemma fraction_bounds n : 0 < n < Second → ∃ p q, fdiv (of_int n) (of_int Second) = S754_finite false p q ∧ -200 <= q <= 0 ∧ Z.pos p < 2 ^ 53 ∧
  2 ^ (- 30 - q) <= Z.pos p ∧ Z.pos p <= (2 ^ 30 - 1) * 2 ^ (- 30 - q) ∧ q <= - 51.
Proof.
  intros Hn. destruct (of_int_exact n) as (p1 & -> & E1 & D1 & Hd); [unfold Second in Hn; lia|]. set (d := Zdigits2 n) in *.
  destruct (digits_bounds n ltac:(lia)) as (_ & Hlo & Hhi). fold d in Hlo, Hhi.
  assert (d <= 30) as Hd30.
  { destruct (Z.le_gt_cases d 30); [done|]. exfalso. assert (2 ^ 30 <= 2 ^ (d - 1)) by (apply Z.pow_le_mono_r; lia). unfold Second in Hn. lia. }
  change (of_int Second) with (S754_finite false 8388608000000000 (-23)). unfold fdiv, SFdiv, SFdiv_core_binary.
  rewrite D1. change (Zdigits2 8388608000000000) with 53.
  replace (Z.min (fexp prec emax (53 + (d - 53) - (53 + -23))) (d - 53 - -23)) with (d - 83) by (unfold fexp, SpecFloat.emin, prec, emax; lia).
  replace (d - 53 - -23 - (d - 83)) with 53 by lia. rewrite Z.shiftl_mul_pow2 by lia.
  set (m2 := 8388608000000000). set (M := Z.pos p1 * 2 ^ 53).
  pose proof (Z.div_eucl_eq M m2 ltac:(done)) as Hq. pose proof (Z.mod_pos_bound M m2 ltac:(done)) as Hr. unfold Z.modulo in Hr.
  destruct (Z.div_eucl M m2) as [q r]. set (l := new_location m2 r).
  assert (M = n * 2 ^ (53 - d) * 2 ^ 53) as HM by (unfold M; by rewrite E1).
  assert (0 < 2 ^ (53 - d)) as Hpos by (apply Z.pow_pos_nonneg; lia).
  assert (2 ^ (53 - d) < q < (2 ^ 30 - 1) * 2 ^ (53 - d)) as [Hq1 Hq2].
  { assert (2 ^ 23 <= 2 ^ (53 - d)) as Ht by (apply Z.pow_le_mono_r; lia). set (t := 2 ^ (53 - d)) in *. unfold Second in Hn.
    assert (t <= n * t <= 999999999 * t) as Hnt by nia. unfold m2 in *. change (2 ^ 53) with 9007199254740992 in *.
    change (2 ^ 23) with 8388608 in *. change (2 ^ 30 - 1) with 1073741823. split; apply Z.nle_gt; intros Hc; lia. }
  assert (Zdigits2 q <= 54) as Hdq.
  { destruct (digits_bounds q ltac:(lia)) as (_ & Hl & _). destruct (Z.le_gt_cases (Zdigits2 q) 54); [done|]. exfalso.
    assert (2 ^ 54 <= 2 ^ (Zdigits2 q - 1)) by (apply Z.pow_le_mono_r; lia).
    assert (2 ^ d * 2 ^ (53 - d) = 2 ^ 53) by (rewrite <-Z.pow_add_r by lia; f_equal; lia).
    assert (2 ^ (53 - d) <= 2 ^ 52) by (apply Z.pow_le_mono_r; lia). nia. }
  destruct (round_aux_spec (xorb false false) q (d - 83) l) as (p & e & R & -> & Hp & ER & He & HR & _); [lia|lia|lia|].
  set (k := lost q (d - 83)) in *. assert (0 <= k <= 1) as Hk by (unfold k, lost; lia).
  assert (2 ^ (53 - d) = 2 ^ (53 - d - k) * 2 ^ k) as Esplit by (rewrite <-Z.pow_add_r by lia; f_equal; lia).
  assert (2 ^ (53 - d - k) <= R <= (2 ^ 30 - 1) * 2 ^ (53 - d - k)) as HRb.
  { apply (div_enclosed q k); [lia| |exact HR]. rewrite <-Z.mul_assoc, <-Esplit. lia. }
  exists p, e. cbn [xorb]. destruct He as [->|[-> Ep]].
  - replace (d - 83 + k - (d - 83 + k)) with 0 in ER by lia. rewrite Z.pow_0_r, Z.mul_1_r in ER. subst R.
    replace (- 30 - (d - 83 + k)) with (53 - d - k) by lia. split_and!; [done|lia|lia|lia|lia|lia|lia].
  - replace (d - 83 + k + 1 - (d - 83 + k)) with 1 in ER by lia.
    replace (53 - d - k) with (- 30 - (d - 83 + k + 1) + 1) in HRb by lia. rewrite Z.pow_add_r in HRb by lia. split_and!; [done|lia|lia|lia|nia|nia|lia].
Qed.

Lemma shl_align_id p e e' : e <= e' → shl_align p e e' = (p, e).
Proof. intros He. unfold shl_align. destruct (e' - e) eqn:E; [done|done|lia]. Qed.

(** A positive number of seconds with a fraction. *)
Lemma add_fraction s p q : 0 < s < 2 ^ 34 → -200 <= q <= -51 → 2 ^ (- 30 - q) <= Z.pos p → Z.pos p <= (2 ^ 30 - 1) * 2 ^ (- 30 - q) →
  ∃ p' q', fadd (of_int s) (S754_finite false p q) = S754_finite false p' q' ∧ Z.pos p' < 2 ^ 53 ∧ q' < 0 ∧ s * 2 ^ (- q') <= Z.pos p' ∧
    (s <= 65535 → q' <= -37 ∧ s * 2 ^ (- q') < Z.pos p' < (s + 1) * 2 ^ (- q')).
Proof.
  intros Hs Hq Hlo Hhi. destruct (of_int_exact s) as (ms & -> & Ems & Dms & Hd); [lia|]. set (d := Zdigits2 s) in *.
  destruct (digits_bounds s ltac:(lia)) as (_ & Hsl & Hsh). fold d in Hsl, Hsh.
  assert (d <= 34) as Hd34.
  { destruct (Z.le_gt_cases d 34); [done|]. exfalso. assert (2 ^ 34 <= 2 ^ (d - 1)) by (apply Z.pow_le_mono_r; lia). lia. }
  unfold fadd, SFadd. set (es := d - 53) in *. set (ez := Z.min es q).
  destruct (shl_align_spec ms es ez ltac:(lia)) as [E1 _]. destruct (shl_align_spec p q ez ltac:(lia)) as [E2 _]. cbn [cond_Zopp].
  set (M := Z.pos (shl_align ms es ez).1 + Z.pos (shl_align p q ez).1).
  assert (M = s * 2 ^ (- ez) + Z.pos p * 2 ^ (q - ez)) as HM.
  { unfold M. rewrite E1, E2, Ems, <-Z.mul_assoc, <-Z.pow_add_r by lia. do 2 f_equal. f_equal. lia. }
  assert (2 ^ (- 30 - ez) = 2 ^ (- 30 - q) * 2 ^ (q - ez)) as Esp by (rewrite <-Z.pow_add_r by lia; f_equal; lia).
  assert (2 ^ (- ez) = 2 ^ 30 * 2 ^ (- 30 - ez)) as E30 by (rewrite <-Z.pow_add_r by lia; f_equal; lia).
  assert (0 < 2 ^ (q - ez)) as Hpq by (apply Z.pow_pos_nonneg; lia). assert (0 < 2 ^ (- 30 - ez)) as Hp30 by (apply Z.pow_pos_nonneg; lia).
  assert (s * 2 ^ (- ez) + 2 ^ (- 30 - ez) <= M <= (s + 1) * 2 ^ (- ez) - 2 ^ (- 30 - ez)) as HMb by (rewrite HM; nia).
  assert (Zdigits2 M = d - ez) as HdM.
  { apply digits_unique; [lia|]. assert (2 ^ (d - ez) = 2 ^ d * 2 ^ (- ez)) by (rewrite <-Z.pow_add_r by lia; f_equal; lia).
    assert (2 ^ (d - ez - 1) = 2 ^ (d - 1) * 2 ^ (- ez)) by (rewrite <-Z.pow_add_r by lia; f_equal; lia). nia. }
  clearbody M. clear HM E1 E2 Esp. destruct M as [|M|M]; [lia| |lia]. unfold binary_normalize, binary_round.
  change (Z.pos (digits2_pos M)) with (Zdigits2 (Z.pos M)). rewrite HdM.
  replace (fexp prec emax (d - ez + ez)) with es by (unfold fexp, SpecFloat.emin, prec, emax, es; lia). rewrite shl_align_id by lia.
  destruct (round_aux_spec false (Z.pos M) ez loc_Exact) as (p' & q' & R & -> & Hp' & ER & Hq' & HR & _); [lia|lia|lia|].
  replace (lost (Z.pos M) ez) with (es - ez) in * by (unfold lost, es, ez in *; lia). replace (ez + (es - ez)) with es in * by lia.
  assert (2 ^ (- ez) = 2 ^ (- es) * 2 ^ (es - ez)) as Ees by (rewrite <-Z.pow_add_r by lia; f_equal; lia).
  assert (s * 2 ^ (- es) <= R) as HRl by (apply (div_enclosed (Z.pos M) (es - ez) (s * 2 ^ (- es)) (Z.pos M + 1)); [lia|nia|done]).
  assert (s <= 65535 → s * 2 ^ (- es) < R < (s + 1) * 2 ^ (- es)) as HRs.
  { intros Hs16. assert (d <= 16) as Hd16.
    { destruct (Z.le_gt_cases d 16); [done|]. exfalso. assert (2 ^ 16 <= 2 ^ (d - 1)) by (apply Z.pow_le_mono_r; lia). lia. }
    assert (2 ^ (es - ez) < 2 ^ (- 30 - ez)) by (apply Z.pow_lt_mono_r; lia).
    assert (s * 2 ^ (- es) + 1 <= R <= (s + 1) * 2 ^ (- es) - 1) by (apply (div_enclosed (Z.pos M) (es - ez)); [lia|nia|done]). lia. }
  exists p', q'. destruct Hq' as [->|[-> Ep']].
  - replace (es - es) with 0 in ER by lia. rewrite Z.pow_0_r, Z.mul_1_r in ER. subst R. split_and!; [done|done|lia|done|]. intros Hs16.
    split; [|by apply HRs]. destruct (Z.le_gt_cases d 16); [lia|]. exfalso. assert (2 ^ 16 <= 2 ^ (d - 1)) by (apply Z.pow_le_mono_r; lia). lia.
  - replace (es + 1 - es) with 1 in ER by lia. assert (2 ^ (- es) = 2 * 2 ^ (- (es + 1))) as E1' by (rewrite <-Z.pow_succ_r by lia; f_equal; lia).
    split_and!; [done|done|lia|nia|]. intros Hs16. exfalso. destruct (HRs Hs16) as [H1 H2]. rewrite <-ER, Ep' in H1, H2.
    assert (2 ^ 52 * 2 ^ 1 = 2 ^ d * 2 ^ (- es)) as E53 by (rewrite <-!Z.pow_add_r by lia; f_equal; lia). rewrite E53 in H1, H2. nia.
Qed.

(** The comparison with 65535 seconds. *)
Lemma above_max s p q : 0 < s → Z.pos p < 2 ^ 53 → q < 0 → s * 2 ^ (- q) <= Z.pos p →
  (s <= 65535 → q <= -37 ∧ Z.pos p < (s + 1) * 2 ^ (- q)) →
  fltb (of_int 65535) (S754_finite false p q) = (65535 <? s) || ((s =? 65535) && (s * 2 ^ (- q) <? Z.pos p)).
Proof.
  intros Hs Hp Hq Hlo Hhi. change (of_int 65535) with (S754_finite false 9007061815787520 (-37)). unfold fltb, SFltb, SFcompare.
  assert (0 < 2 ^ (- q)) as Hpos by (apply Z.pow_pos_nonneg; lia). destruct (Z.ltb_spec 65535 s) as [Hbig|Hsmall]; cbn [orb].
  - destruct (Z.compare_spec (-37) q) as [<-|Hc|Hc]; [| done|]; exfalso.
    + change (2 ^ (- -37)) with (2 ^ 37) in *. nia.
    + assert (2 ^ 37 <= 2 ^ (- q)) by (apply Z.pow_le_mono_r; lia). nia.
  - destruct (Hhi Hsmall) as [Hq37 Hhi']. destruct (Z.compare_spec (-37) q) as [<-|Hc|Hc]; [| lia|].
    + change (- -37) with 37 in *. change (Pos.compare_cont Eq 9007061815787520 p) with (Z.compare 9007061815787520 (Z.pos p)).
      revert Hlo Hhi'. generalize (Z.pos p) as P. clear - Hsmall. intros P Hlo Hhi. change (2 ^ 37) with 137438953472 in *.
      destruct (Z.compare_spec 9007061815787520 P), (Z.eqb_spec s 65535), (Z.ltb_spec (s * 137438953472) P); cbn [andb]; try reflexivity; exfalso; lia.
    + assert (2 ^ 38 <= 2 ^ (- q)) by (apply Z.pow_le_mono_r; lia). destruct (Z.eqb_spec s 65535) as [->|]; [exfalso; nia|done].
Qed.

Lemma seconds_spec d : 0 <= d < 2 ^ 63 →
  fltb (of_int 65535) (Seconds d) = (65535 * Second <? d) ∧ (d <= 65535 * Second → to_int (Seconds d) = Some (d / Second)).
Proof.
  intros Hd. unfold Seconds. rewrite Z.quot_div_nonneg, Z.rem_mod_nonneg by (unfold Second; lia).
  pose proof (Z.div_mod d Second ltac:(done)) as E. pose proof (Z.mod_pos_bound d Second ltac:(done)) as Hn.
  set (s := d / Second) in *. set (n := d mod Second) in *. assert (0 <= s < 2 ^ 34) as Hs by (unfold Second in *; lia).
  assert (∀ p q, Z.pos p < 2 ^ 53 → q < 0 → s * 2 ^ (- q) <= Z.pos p < (s + 1) * 2 ^ (- q) → to_int (S754_finite false p q) = Some s) as Htr.
  { intros p q Hp Hq Hb. cbn. unfold trunc_mag. rewrite <-(Z.opp_involutive q), Z.shiftl_opp_r, Z.shiftr_div_pow2 by lia. f_equal.
    assert (0 < 2 ^ (- q)) by (apply Z.pow_pos_nonneg; lia). symmetry. apply (Z.div_unique _ _ _ (Z.pos p - s * 2 ^ (- q))); lia. }
  destruct (Z.eq_dec n 0) as [En|Nn].
  - rewrite En. change (fdiv (of_int 0) (of_int Second)) with (S754_zero false). destruct (Z.eq_dec s 0) as [Es|Ns].
    { rewrite Es. change (fadd (of_int 0) (S754_zero false)) with (S754_zero false). split; [|done]. cbn. symmetry. apply Z.ltb_ge. unfold Second in *. lia. }
    destruct (of_int_exact s) as (p & -> & Ep & Dp & Hdg); [lia|]. change (fadd (S754_finite false p (Zdigits2 s - 53)) (S754_zero false)) with (S754_finite false p (Zdigits2 s - 53)).
    destruct (digits_bounds (Z.pos p) ltac:(lia)) as (_ & _ & Hp). rewrite Dp in Hp. destruct (digits_bounds s ltac:(lia)) as (_ & Hl & Hu).
    assert (Zdigits2 s <= 34) as H34.
    { destruct (Z.le_gt_cases (Zdigits2 s) 34); [done|]. exfalso. assert (2 ^ 34 <= 2 ^ (Zdigits2 s - 1)) by (apply Z.pow_le_mono_r; lia). lia. }
    assert (0 < 2 ^ (53 - Zdigits2 s)) by (apply Z.pow_pos_nonneg; lia).
    rewrite (above_max s); [|lia|lia|lia| |].
    2:{ replace (- (Zdigits2 s - 53)) with (53 - Zdigits2 s) by lia. lia. }
    2:{ intros Hs16. split; [|replace (- (Zdigits2 s - 53)) with (53 - Zdigits2 s) by lia; lia].
        destruct (Z.le_gt_cases (Zdigits2 s) 16); [lia|]. exfalso. assert (2 ^ 16 <= 2 ^ (Zdigits2 s - 1)) by (apply Z.pow_le_mono_r; lia). lia. }
    replace (- (Zdigits2 s - 53)) with (53 - Zdigits2 s) by lia. rewrite <-Ep, Z.ltb_irrefl, andb_false_r, orb_false_r. split.
    + destruct (Z.ltb_spec 65535 s), (Z.ltb_spec (65535 * Second) d); unfold Second in *; lia.
    + intros _. apply Htr; [lia|lia|]. replace (- (Zdigits2 s - 53)) with (53 - Zdigits2 s) by lia. lia.
  - destruct (fraction_bounds n ltac:(lia)) as (p & q & -> & Hq & Hp & Hlo & Hhi & Hq51). destruct (Z.eq_dec s 0) as [Es|Ns].
    { rewrite Es. change (fadd (of_int 0) (S754_finite false p q)) with (S754_finite false p q). split.
      - change (of_int 65535) with (S754_finite false 9007061815787520 (-37)). unfold fltb, SFltb, SFcompare.
        destruct (Z.compare_spec (-37) q); [lia|lia|]. symmetry. apply Z.ltb_ge. unfold Second in *. lia.
      - intros _. rewrite <-Es. apply Htr; [done|lia|]. rewrite Es. assert (2 ^ (- q) = 2 ^ 30 * 2 ^ (- 30 - q)) by (rewrite <-Z.pow_add_r by lia; f_equal; lia).
        assert (0 < 2 ^ (- 30 - q)) by (apply Z.pow_pos_nonneg; lia). nia. }
    destruct (add_fraction s p q) as (p' & q' & -> & Hp' & Hq' & Hlo' & Hsm); [lia|lia|done|done|]. split.
    + rewrite (above_max s); [|lia|done|done|done|intros H16; destruct (Hsm H16); lia].
      destruct (Z.ltb_spec 65535 s), (Z.ltb_spec (65535 * Second) d), (Z.eqb_spec s 65535); cbn [orb andb]; unfold Second in *; lia.
    + intros Hmax. apply Htr; [done|done|]. destruct Hsm; [unfold Second in *; lia|]. lia.
Qed.
