(* ===== verification/Codec.v ===== *)
(** The wire primitives of the vendored broker: codec.go, fixedheader.go and
    the reason codes of codes.go, in thirdparty/mochi-mqtt-server/packets.

    A byte slice is a byte string and an offset a natural number. A decoder
    returns a value and the next offset, fails with a code, or panics: a slice
    expression out of range is [Panic]. An error wrapped with fmt.Errorf is the
    code it wraps. A byte, uint16 or uint32 is an [N] below its bound. *)

From S2P Require Import Prelude GoStrings Base64.

(** ** Reason codes (codes.go) *)

Record Code := mkCode { codeByte : N; codeReason : string }.

#[export] Instance Code_eq_dec : EqDecision Code.
Proof. solve_decision. Defined.

Definition CodeSuccess := mkCode 0 "success".
Definition CodeGrantedQos0 := mkCode 0 "granted qos 0".
Definition CodeGrantedQos1 := mkCode 1 "granted qos 1".
Definition CodeGrantedQos2 := mkCode 2 "granted qos 2".
Definition CodeNoMatchingSubscribers := mkCode 16 "no matching subscribers".
Definition CodeNoSubscriptionExisted := mkCode 17 "no subscription existed".
Definition CodeContinueAuthentication := mkCode 24 "continue authentication".
Definition CodeReAuthenticate := mkCode 25 "re-authenticate".
Definition ErrUnspecifiedError := mkCode 128 "unspecified error".
Definition ErrMalformedProtocolName := mkCode 129 "malformed packet: protocol name".
Definition ErrMalformedProtocolVersion := mkCode 129 "malformed packet: protocol version".
Definition ErrMalformedFlags := mkCode 129 "malformed packet: flags".
Definition ErrMalformedKeepalive := mkCode 129 "malformed packet: keepalive".
Definition ErrMalformedPacketID := mkCode 129 "malformed packet: packet identifier".
Definition ErrMalformedTopic := mkCode 129 "malformed packet: topic".
Definition ErrMalformedWillTopic := mkCode 129 "malformed packet: will topic".
Definition ErrMalformedWillPayload := mkCode 129 "malformed packet: will message".
Definition ErrMalformedUsername := mkCode 129 "malformed packet: username".
Definition ErrMalformedPassword := mkCode 129 "malformed packet: password".
Definition ErrMalformedQos := mkCode 129 "malformed packet: qos".
Definition ErrMalformedOffsetUintOutOfRange := mkCode 129 "malformed packet: offset uint out of range".
Definition ErrMalformedOffsetBytesOutOfRange := mkCode 129 "malformed packet: offset bytes out of range".
Definition ErrMalformedOffsetByteOutOfRange := mkCode 129 "malformed packet: offset byte out of range".
Definition ErrMalformedOffsetBoolOutOfRange := mkCode 129 "malformed packet: offset boolean out of range".
Definition ErrMalformedInvalidUTF8 := mkCode 129 "malformed packet: invalid utf-8 string".
Definition ErrMalformedVariableByteInteger := mkCode 129 "malformed packet: variable byte integer out of range".
Definition ErrMalformedProperties := mkCode 129 "malformed packet: properties".
Definition ErrMalformedWillProperties := mkCode 129 "malformed packet: will properties".
Definition ErrMalformedSessionPresent := mkCode 129 "malformed packet: session present".
Definition ErrMalformedReasonCode := mkCode 129 "malformed packet: reason code".
Definition ErrProtocolViolationProtocolName := mkCode 130 "protocol violation: protocol name".
Definition ErrProtocolViolationProtocolVersion := mkCode 130 "protocol violation: protocol version".
Definition ErrProtocolViolationReservedBit := mkCode 130 "protocol violation: reserved bit not 0".
Definition ErrProtocolViolationFlagNoUsername := mkCode 130 "protocol violation: username flag set but no value".
Definition ErrProtocolViolationFlagNoPassword := mkCode 130 "protocol violation: password flag set but no value".
Definition ErrProtocolViolationUsernameNoFlag := mkCode 130 "protocol violation: username set but no flag".
Definition ErrProtocolViolationPasswordNoFlag := mkCode 130 "protocol violation: username set but no flag".
Definition ErrProtocolViolationPasswordTooLong := mkCode 130 "protocol violation: password too long".
Definition ErrProtocolViolationUsernameTooLong := mkCode 130 "protocol violation: username too long".
Definition ErrProtocolViolationNoPacketID := mkCode 130 "protocol violation: missing packet id".
Definition ErrProtocolViolationSurplusPacketID := mkCode 130 "protocol violation: surplus packet id".
Definition ErrProtocolViolationQosOutOfRange := mkCode 130 "protocol violation: qos out of range".
Definition ErrProtocolViolationWillFlagNoPayload := mkCode 130 "protocol violation: will flag no payload".
Definition ErrProtocolViolationWillFlagSurplusRetain := mkCode 130 "protocol violation: will flag surplus retain".
Definition ErrProtocolViolationSurplusWildcard := mkCode 130 "protocol violation: topic contains wildcards".
Definition ErrProtocolViolationSurplusSubID := mkCode 130 "protocol violation: contained subscription identifier".
Definition ErrProtocolViolationNoFilters := mkCode 130 "protocol violation: must contain at least one filter".
Definition ErrProtocolViolationInvalidReason := mkCode 130 "protocol violation: invalid reason".
Definition ErrProtocolViolationOversizeSubID := mkCode 130 "protocol violation: oversize subscription id".
Definition ErrProtocolViolationDupNoQos := mkCode 130 "protocol violation: dup true with no qos".
Definition ErrProtocolViolationUnsupportedProperty := mkCode 130 "protocol violation: unsupported property".
Definition ErrProtocolViolationNoTopic := mkCode 130 "protocol violation: no topic or alias".
Definition ErrProtocolViolationZeroReceiveMaximum := mkCode 130 "protocol violation: receive maximum of 0".
Definition ErrProtocolViolationZeroMaximumPacketSize := mkCode 130 "protocol violation: maximum packet size of 0".
Definition ErrProtocolViolationZeroSubID := mkCode 130 "protocol violation: subscription identifier of 0".
Definition ErrImplementationSpecificError := mkCode 131 "implementation specific error".
Definition ErrClientIdentifierNotValid := mkCode 133 "client identifier not valid".
Definition ErrNotAuthorized := mkCode 135 "not authorized".
Definition ErrTopicFilterInvalid := mkCode 143 "topic filter invalid".
Definition ErrTopicNameInvalid := mkCode 144 "topic name invalid".
Definition ErrPacketIdentifierInUse := mkCode 145 "packet identifier in use".
Definition ErrPacketIdentifierNotFound := mkCode 146 "packet identifier not found".
Definition ErrTopicAliasInvalid := mkCode 148 "topic alias invalid".
Definition ErrPacketTooLarge := mkCode 149 "packet too large".
Definition ErrQuotaExceeded := mkCode 151 "quota exceeded".
Definition ErrPayloadFormatInvalid := mkCode 153 "payload format invalid".
Definition ErrSharedSubscriptionsNotSupported := mkCode 158 "shared subscriptions not supported".
Definition ErrSubscriptionIdentifiersNotSupported := mkCode 161 "subscription identifiers not supported".
Definition ErrWildcardSubscriptionsNotSupported := mkCode 162 "wildcard subscriptions not supported".

(** ** Outcomes *)

(** An error: a reason code, the end of the input, or an unknown packet type. *)
Inductive decodeError := ECode (c : Code) | EOF | ENoPacket.

Inductive outcome (A : Type) := Return (a : A) | Throw (e : decodeError) | Panic.
Arguments Return {A} a.
Arguments Throw {A} e.
Arguments Panic {A}.

#[export] Instance outcome_ret : MRet outcome := λ A a, Return a.
#[export] Instance outcome_bind : MBind outcome := λ A B f x,
  match x with Return a => f a | Throw e => Throw e | Panic => Panic end.

(** if err != nil { return code } *)
Definition or_throw {A} (c : Code) (x : outcome A) : outcome A :=
  match x with Throw _ => Throw (ECode c) | _ => x end.

(** ** Fixed-width decoding *)

Definition uint16_of (a b : ascii) : N := (256 * N_of_ascii a + N_of_ascii b)%N.
Definition uint32_of (a b c d : ascii) : N := (65536 * uint16_of a b + uint16_of c d)%N.

(** buf[offset:] *)
Definition slice_from (buf : string) (offset : nat) : outcome string :=
  if (offset <=? String.length buf)%nat then Return (drop_bytes offset buf) else Panic.

Definition decodeUint16 (buf : string) (offset : nat) : outcome (N * nat) :=
  if (String.length buf <? offset + 2)%nat then Throw (ECode ErrMalformedOffsetUintOutOfRange)
  else match drop_bytes offset buf with
       | String a (String b _) => Return (uint16_of a b, (offset + 2)%nat)
       | _ => Panic
       end.

Definition decodeUint32 (buf : string) (offset : nat) : outcome (N * nat) :=
  if (String.length buf <? offset + 4)%nat then Throw (ECode ErrMalformedOffsetUintOutOfRange)
  else match drop_bytes offset buf with
       | String a (String b (String c (String d _))) => Return (uint32_of a b c d, (offset + 4)%nat)
       | _ => Panic
       end.

Definition decodeBytes (buf : string) (offset : nat) : outcome (string * nat) :=
  '(length, next) ← decodeUint16 buf offset;
  if (String.length buf <? next + N.to_nat length)%nat then Throw (ECode ErrMalformedOffsetBytesOutOfRange)
  else Return (take_bytes (N.to_nat length) (drop_bytes next buf), (next + N.to_nat length)%nat).

(** utf8.Valid, with its table of accepted second bytes. *)
Definition in_range (lo hi : N) (c : ascii) : bool := (lo <=? N_of_ascii c)%N && (N_of_ascii c <=? hi)%N.
Definition continuation (c : ascii) : bool := in_range 128 191 c.

Fixpoint utf8_Valid (s : string) : bool :=
  match s with
  | "" => true
  | String a s1 =>
      if in_range 0 127 a then utf8_Valid s1
      else match s1 with
           | "" => false
           | String b s2 =>
               if in_range 194 223 a then continuation b && utf8_Valid s2
               else match s2 with
                    | "" => false
                    | String c s3 =>
                        if in_range 224 224 a then in_range 160 191 b && continuation c && utf8_Valid s3
                        else if in_range 225 236 a || in_range 238 239 a then continuation b && continuation c && utf8_Valid s3
                        else if in_range 237 237 a then in_range 128 159 b && continuation c && utf8_Valid s3
                        else match s3 with
                             | "" => false
                             | String d s4 =>
                                 if in_range 240 240 a then
                                   in_range 144 191 b && continuation c && continuation d && utf8_Valid s4
                                 else if in_range 241 243 a then
                                   continuation b && continuation c && continuation d && utf8_Valid s4
                                 else if in_range 244 244 a then
                                   in_range 128 143 b && continuation c && continuation d && utf8_Valid s4
                                 else false
                             end
                    end
           end
  end.

Definition validUTF8 (b : string) : bool := utf8_Valid b && negb (contains_byte zero b).

Definition decodeString (buf : string) (offset : nat) : outcome (string * nat) :=
  '(b, n) ← decodeBytes buf offset;
  if negb (validUTF8 b) then Throw (ECode ErrMalformedInvalidUTF8) else Return (b, n).

Definition decodeByte (buf : string) (offset : nat) : outcome (N * nat) :=
  if (String.length buf <=? offset)%nat then Throw (ECode ErrMalformedOffsetByteOutOfRange)
  else match drop_bytes offset buf with
       | String a _ => Return (N_of_ascii a, (offset + 1)%nat)
       | "" => Panic
       end.

Definition decodeByteBool (buf : string) (offset : nat) : outcome (bool * nat) :=
  if (String.length buf <=? offset)%nat then Throw (ECode ErrMalformedOffsetBoolOutOfRange)
  else match drop_bytes offset buf with
       | String a _ => Return ((0 <? N.land 1 (N_of_ascii a))%N, (offset + 1)%nat)
       | "" => Panic
       end.

(** ** Fixed-width encoding *)

Definition encodeBool (b : bool) : N := if b then 1%N else 0%N.

Definition byte1 (v : N) : string := String (byte_of v) "".
Definition encodeUint16 (val : N) : string := byte1 (N.shiftr val 8) +:+ byte1 val.
Definition encodeUint32 (val : N) : string :=
  byte1 (N.shiftr val 24) +:+ byte1 (N.shiftr val 16) +:+ byte1 (N.shiftr val 8) +:+ byte1 val.

(** uint16(len(val)) keeps the low sixteen bits. *)
Definition encodeBytes (val : string) : string := encodeUint16 (N.of_nat (String.length val) mod 65536) +:+ val.
Definition encodeString (val : string) : string := encodeBytes val.

(** ** Variable byte integers *)

Fixpoint encode_length_loop (fuel : nat) (length : N) : string :=
  match fuel with
  | O => ""
  | S fuel =>
      let eb := (length mod 128)%N in
      let length := (length / 128)%N in
      let eb := if (0 <? length)%N then N.lor eb 128 else eb in
      byte1 eb +:+ (if (length =? 0)%N then "" else encode_length_loop fuel length)
  end.

(** [N.size_nat length] divisions reach 0. *)
Definition encodeLength (length : N) : string := encode_length_loop (S (N.size_nat length)) length.

(** The loop of [DecodeLength], on the bytes of the reader: the value, the
    bytes used and the rest of the reader. *)
Fixpoint decode_length_loop (b : string) (multiplier value : N) (bu : nat) : outcome (N * nat * string) :=
  match b with
  | "" => Throw EOF
  | String eb b =>
      let value := N.lor value (N.shiftl (N.land (N_of_ascii eb) 127) multiplier mod 2 ^ 32) in
      if (268435455 <? value)%N then Throw (ECode ErrMalformedVariableByteInteger)
      else if (N.land (N_of_ascii eb) 128 =? 0)%N then Return (value, bu, b)
      else decode_length_loop b ((multiplier + 7) mod 2 ^ 32) value (S bu)
  end.

Definition DecodeLength (b : string) : outcome (N * nat * string) := decode_length_loop b 0 0 1.

(** ** Fixed headers (fixedheader.go) *)

Definition Connect : N := 1.
Definition Connack : N := 2.
Definition Publish : N := 3.
Definition Puback : N := 4.
Definition Pubrec : N := 5.
Definition Pubrel : N := 6.
Definition Pubcomp : N := 7.
Definition Subscribe : N := 8.
Definition Suback : N := 9.
Definition Unsubscribe : N := 10.
Definition Unsuback : N := 11.
Definition Pingreq : N := 12.
Definition Pingresp : N := 13.
Definition Disconnect : N := 14.
Definition Auth : N := 15.
Definition WillPropertiesType : N := 99.

Record FixedHeader := mkFixedHeader {
  fhRemaining : N;
  fhType : N;
  fhQos : N;
  fhDup : bool;
  fhRetain : bool;
}.

#[export] Instance FixedHeader_remake : Remake FixedHeader := {| remake := λ r,
  mkFixedHeader (fhRemaining r) (fhType r) (fhQos r) (fhDup r) (fhRetain r) |}.

#[export] Instance FixedHeader_eq_dec : EqDecision FixedHeader.
Proof. solve_decision. Defined.

(** The first byte; byte arithmetic wraps at 256. *)
Definition header_byte (fh : FixedHeader) : N :=
  N.lor (N.lor (N.lor (N.shiftl (fhType fh) 4 mod 256) (N.shiftl (encodeBool (fhDup fh)) 3))
    (N.shiftl (fhQos fh) 1 mod 256)) (encodeBool (fhRetain fh)).

Definition FixedHeader_Encode (fh : FixedHeader) : string :=
  byte1 (header_byte fh) +:+ encodeLength (fhRemaining fh).

Definition bit (hb k : N) : N := N.land (N.shiftr hb k) 1.

(** [Type == Publish], [Type] one of the three with reserved flags 0010, or
    another type. [fh] keeps [Remaining] and the flags it was created with. *)
Definition FixedHeader_Decode (hb : N) (fh : FixedHeader) : outcome FixedHeader :=
  let type := N.shiftr hb 4 in
  let fh := fh <| fhType := type |> in
  fh ← (if (type =? Publish)%N then
          if (0 <? N.land (N.shiftr hb 1) 1)%N && (0 <? N.land (N.shiftr hb 1) 2)%N then
            Throw (ECode ErrProtocolViolationQosOutOfRange)
          else Return (fh <| fhDup := (0 <? bit hb 3)%N |> <| fhQos := N.land (N.shiftr hb 1) 3 |>
                          <| fhRetain := (0 <? N.land hb 1)%N |>)
        else if (type =? Pubrel)%N || (type =? Subscribe)%N || (type =? Unsubscribe)%N then
          if negb (bit hb 0 =? 0)%N || negb (bit hb 1 =? 1)%N || negb (bit hb 2 =? 0)%N || negb (bit hb 3 =? 0)%N then
            Throw (ECode ErrMalformedFlags)
          else Return (fh <| fhQos := N.land (N.shiftr hb 1) 3 |>)
        else if negb (bit hb 0 =? 0)%N || negb (bit hb 1 =? 0)%N || negb (bit hb 2 =? 0)%N || negb (bit hb 3 =? 0)%N then
          Throw (ECode ErrMalformedFlags)
        else Return fh);
  if (fhQos fh =? 0)%N && fhDup fh then Throw (ECode ErrProtocolViolationDupNoQos) else Return fh.

(** ** Lemmas: bytes and offsets *)

Lemma N_of_byte_of v : N_of_ascii (byte_of v) = (v mod 256)%N.
Proof. unfold byte_of. rewrite N_ascii_embedding; [done|]. by apply N.mod_lt. Qed.

Lemma byte_of_N_of a : byte_of (N_of_ascii a) = a.
Proof. by apply byte_of_N. Qed.

(** At [off] the buffer continues with [s]. *)
Definition at_offset (buf : string) (off : nat) (s : string) : Prop :=
  (off <= String.length buf)%nat ∧ drop_bytes off buf = s.

Ltac str_cons := repeat first [rewrite string_app_cons | rewrite string_app_nil_l].

Lemma drop_bytes_length n s : String.length (drop_bytes n s) = (String.length s - n)%nat.
Proof. revert s. induction n as [|n IH]; intros [|c s]; simpl; rewrite ?IH; lia. Qed.

Lemma drop_bytes_add n m s : drop_bytes (n + m) s = drop_bytes m (drop_bytes n s).
Proof. revert s. induction n as [|n IH]; intros [|c s]; simpl; rewrite ?IH; try done. by destruct m. Qed.

Lemma take_bytes_length n s : (n <= String.length s)%nat → String.length (take_bytes n s) = n.
Proof. revert s. induction n as [|n IH]; intros [|c s]; simpl; try lia. intros ?. rewrite IH; lia. Qed.

Lemma at_offset_zero s : at_offset s 0 s.
Proof. split; [lia|by destruct s]. Qed.

Lemma at_offset_length buf off s : at_offset buf off s → String.length buf = (off + String.length s)%nat.
Proof. intros [? <-]. rewrite drop_bytes_length. lia. Qed.

Lemma at_offset_app buf off a s : at_offset buf off (a +:+ s) → at_offset buf (off + String.length a) s.
Proof.
  intros H. pose proof (at_offset_length _ _ _ H) as Hl. rewrite string_length_app in Hl. destruct H as [? H].
  split; [lia|]. by rewrite drop_bytes_add, H, drop_bytes_app.
Qed.

Lemma at_offset_slice buf off s : at_offset buf off s → slice_from buf off = Return s.
Proof. intros [H1 H2]. unfold slice_from. apply Nat.leb_le in H1. by rewrite H1, H2. Qed.

Lemma drop_bytes_nil_inv n s : drop_bytes n s = "" → (String.length s <= n)%nat.
Proof. intros H. apply (f_equal String.length) in H. rewrite drop_bytes_length in H. simpl in H. lia. Qed.

(** ** Lemmas: decoders stay in bounds *)

(** A decoder that does not panic and, when it returns, moves forward by at
    least [k] bytes and stays in the buffer. *)
Definition in_bounds {A} (k : nat) (buf : string) (off : nat) (x : outcome (A * nat)) : Prop :=
  match x with
  | Return (_, next) => (off + k <= next)%nat ∧ (next <= String.length buf)%nat
  | Throw _ => True
  | Panic => False
  end.

Ltac drop_cases :=
  repeat match goal with
  | H : drop_bytes ?o ?b = "" |- _ => apply drop_bytes_nil_inv in H
  | H : drop_bytes ?o ?b = String _ _ |- _ => apply (f_equal String.length) in H; rewrite drop_bytes_length in H; simpl in H
  end.

Lemma decodeUint16_bounds buf off : in_bounds 2 buf off (decodeUint16 buf off).
Proof.
  unfold decodeUint16. destruct (Nat.ltb_spec (String.length buf) (off + 2)); [done|].
  destruct (drop_bytes off buf) as [|a [|b r]] eqn:E; simpl; drop_cases; lia.
Qed.

Lemma decodeUint32_bounds buf off : in_bounds 4 buf off (decodeUint32 buf off).
Proof.
  unfold decodeUint32. destruct (Nat.ltb_spec (String.length buf) (off + 4)); [done|].
  destruct (drop_bytes off buf) as [|a [|b [|c [|d r]]]] eqn:E; simpl; drop_cases; lia.
Qed.

Lemma decodeByte_bounds buf off : in_bounds 1 buf off (decodeByte buf off).
Proof.
  unfold decodeByte. destruct (Nat.leb_spec (String.length buf) off); [done|].
  destruct (drop_bytes off buf) as [|a r] eqn:E; simpl; drop_cases; lia.
Qed.

Lemma decodeByteBool_bounds buf off : in_bounds 1 buf off (decodeByteBool buf off).
Proof.
  unfold decodeByteBool. destruct (Nat.leb_spec (String.length buf) off); [done|].
  destruct (drop_bytes off buf) as [|a r] eqn:E; simpl; drop_cases; lia.
Qed.

Lemma decodeBytes_bounds buf off : in_bounds 2 buf off (decodeBytes buf off).
Proof.
  unfold decodeBytes. pose proof (decodeUint16_bounds buf off) as H.
  destruct (decodeUint16 buf off) as [[n next]|e|]; simpl in *; try done.
  destruct (Nat.ltb_spec (String.length buf) (next + N.to_nat n)); simpl; [done|lia].
Qed.

Lemma decodeString_bounds buf off : in_bounds 2 buf off (decodeString buf off).
Proof.
  unfold decodeString. pose proof (decodeBytes_bounds buf off) as H.
  destruct (decodeBytes buf off) as [[s next]|e|]; simpl in *; try done. by destruct (validUTF8 s).
Qed.

(** ** Lemmas: what was encoded is decoded *)

Lemma length_byte1 v : String.length (byte1 v) = 1%nat.
Proof. done. Qed.

Lemma length_encodeUint16 v : String.length (encodeUint16 v) = 2%nat.
Proof. done. Qed.

Lemma length_encodeUint32 v : String.length (encodeUint32 v) = 4%nat.
Proof. done. Qed.

Lemma length_encodeBytes s : String.length (encodeBytes s) = (2 + String.length s)%nat.
Proof. unfold encodeBytes. by rewrite string_length_app. Qed.

Lemma uint16_bytes v : (v < 65536)%N → uint16_of (byte_of (N.shiftr v 8)) (byte_of v) = v.
Proof.
  intros Hv. unfold uint16_of. rewrite !N_of_byte_of, N.shiftr_div_pow2. change (2 ^ 8)%N with 256%N.
  rewrite (N.mod_small (v / 256)); [rewrite <-(N.div_mod v 256) at 1; done|]. apply N.Div0.div_lt_upper_bound. lia.
Qed.

Lemma uint32_bytes v : (v < 2 ^ 32)%N →
  uint32_of (byte_of (N.shiftr v 24)) (byte_of (N.shiftr v 16)) (byte_of (N.shiftr v 8)) (byte_of v) = v.
Proof.
  intros Hv. unfold uint32_of, uint16_of. rewrite !N_of_byte_of, !N.shiftr_div_pow2.
  change (2 ^ 24)%N with 16777216%N. change (2 ^ 16)%N with 65536%N. change (2 ^ 8)%N with 256%N.
  change (2 ^ 32)%N with 4294967296%N in Hv.
  Z.to_euclidean_division_equations || zify; Z.to_euclidean_division_equations; lia.
Qed.

Lemma decodeUint16_enc v buf off rest : (v < 65536)%N → at_offset buf off (encodeUint16 v +:+ rest) →
  decodeUint16 buf off = Return (v, (off + 2)%nat).
Proof.
  intros Hv Hat. pose proof (at_offset_length _ _ _ Hat) as Hl. rewrite string_length_app, length_encodeUint16 in Hl.
  destruct Hat as [_ Hd]. unfold decodeUint16. destruct (Nat.ltb_spec (String.length buf) (off + 2)); [lia|].
  rewrite Hd. unfold encodeUint16, byte1. str_cons. cbv beta iota. by rewrite uint16_bytes.
Qed.

Lemma decodeUint32_enc v buf off rest : (v < 2 ^ 32)%N → at_offset buf off (encodeUint32 v +:+ rest) →
  decodeUint32 buf off = Return (v, (off + 4)%nat).
Proof.
  intros Hv Hat. pose proof (at_offset_length _ _ _ Hat) as Hl. rewrite string_length_app, length_encodeUint32 in Hl.
  destruct Hat as [_ Hd]. unfold decodeUint32. destruct (Nat.ltb_spec (String.length buf) (off + 4)); [lia|].
  rewrite Hd. unfold encodeUint32, byte1. str_cons. cbv beta iota. by rewrite uint32_bytes.
Qed.

Lemma decodeByte_enc v buf off rest : (v < 256)%N → at_offset buf off (byte1 v +:+ rest) →
  decodeByte buf off = Return (v, (off + 1)%nat).
Proof.
  intros Hv Hat. pose proof (at_offset_length _ _ _ Hat) as Hl. rewrite string_length_app, length_byte1 in Hl.
  destruct Hat as [_ Hd]. unfold decodeByte. destruct (Nat.leb_spec (String.length buf) off); [lia|].
  rewrite Hd. unfold byte1. str_cons. rewrite N_of_byte_of, N.mod_small by done. done.
Qed.

Lemma decodeBytes_enc s buf off rest : (N.of_nat (String.length s) < 65536)%N → at_offset buf off (encodeBytes s +:+ rest) →
  decodeBytes buf off = Return (s, (off + (2 + String.length s))%nat).
Proof.
  intros Hs Hat. unfold encodeBytes in Hat. rewrite <-string_app_assoc in Hat. unfold decodeBytes.
  rewrite N.mod_small in Hat by lia. erewrite decodeUint16_enc; [|shelve|exact Hat]. simpl.
  apply at_offset_app in Hat as Hat2. rewrite length_encodeUint16 in Hat2.
  pose proof (at_offset_length _ _ _ Hat2) as Hl. rewrite string_length_app in Hl. destruct Hat2 as [_ Hd].
  rewrite Nat2N.id. destruct (Nat.ltb_spec (String.length buf) (off + 2 + String.length s)); [lia|].
  rewrite Hd, take_bytes_app. do 2 f_equal. lia.
  Unshelve. lia.
Qed.

Lemma decodeString_enc s buf off rest : (N.of_nat (String.length s) < 65536)%N → validUTF8 s = true →
  at_offset buf off (encodeString s +:+ rest) →
  decodeString buf off = Return (s, (off + (2 + String.length s))%nat).
Proof. intros Hs Hu Hat. unfold decodeString. erewrite decodeBytes_enc by done. simpl. by rewrite Hu. Qed.

(** ** Lemmas: variable byte integers *)

Lemma lor_shiftl_add v d m : (v < 2 ^ m)%N → N.lor v (N.shiftl d m) = (v + d * 2 ^ m)%N.
Proof.
  intros Hv. rewrite <-N.shiftl_mul_pow2. assert (N.land v (N.shiftl d m) = 0%N) as Hd.
  { apply N.bits_inj. intros i. rewrite N.land_spec, N.bits_0. destruct (N.ltb_spec i m).
    - by rewrite N.shiftl_spec_low, andb_false_r.
    - destruct (N.eq_dec v 0%N) as [->|Hne]; [by rewrite N.bits_0|].
      rewrite (N.bits_above_log2 v i); [done|]. apply N.log2_lt_pow2 in Hv; lia. }
  rewrite N.add_nocarry_lxor, N.lxor_lor by done. done.
Qed.

Lemma land_127 v : N.land v 127 = (v mod 128)%N.
Proof. apply (N.land_ones v 7). Qed.

Lemma length_byte eb more : (eb < 128)%N →
  let c := byte_of (if more : bool then N.lor eb 128 else eb) in
  N.land (N_of_ascii c) 127 = eb ∧ (N.land (N_of_ascii c) 128 =? 0)%N = negb more.
Proof.
  intros Heb. simpl. rewrite N_of_byte_of.
  assert (∀ e, (e < 128)%N → N.land (N.lor e 128 mod 256) 127 = e ∧ (N.land (N.lor e 128 mod 256) 128 =? 0)%N = false ∧
    N.land (e mod 256) 127 = e ∧ (N.land (e mod 256) 128 =? 0)%N = true) as Hall.
  { assert (forallb (λ k, let e := N.of_nat k in
      (N.land (N.lor e 128 mod 256) 127 =? e)%N && negb (N.land (N.lor e 128 mod 256) 128 =? 0)%N &&
      (N.land (e mod 256) 127 =? e)%N && (N.land (e mod 256) 128 =? 0)%N) (seq 0 128) = true) as H by (vm_compute; reflexivity).
    rewrite forallb_forall in H. intros e He. specialize (H (N.to_nat e)). rewrite N2Nat.id in H. simpl in H.
    assert (In (N.to_nat e) (seq 0 128)) as Hin by (apply in_seq; lia). specialize (H Hin). clear Hin.
    apply andb_true_iff in H as [H H4]. apply andb_true_iff in H as [H H3]. apply andb_true_iff in H as [H1 H2].
    apply N.eqb_eq in H1, H3. apply negb_true_iff in H2. done. }
  destruct (Hall eb Heb) as (H1 & H2 & H3 & H4). by destruct more.
Qed.

Lemma decode_encode_loop fuel n m v bu rest :
  (n < 2 ^ N.of_nat fuel)%N → (v < 2 ^ m)%N → (v + n * 2 ^ m <= 268435455)%N → (n = 0 → m = 0)%N → (0 < fuel)%nat →
  decode_length_loop (encode_length_loop fuel n +:+ rest) m v bu =
  Return ((v + n * 2 ^ m)%N, (bu + (String.length (encode_length_loop fuel n) - 1))%nat, rest).
Proof.
  revert n m v bu. induction fuel as [|fuel IH]; intros n m v bu Hn Hv Hmax Hz Hf; [lia|]. clear Hf.
  cbn [encode_length_loop]. set (d := (n mod 128)%N). set (q := (n / 128)%N).
  assert (n = 128 * q + d)%N as Hdq by (apply N.div_mod; lia). assert (d < 128)%N as Hd by (by apply N.mod_lt).
  destruct (length_byte d (0 <? q)%N Hd) as [Hb1 Hb2]. simpl in Hb1, Hb2.
  rewrite <-string_app_assoc. unfold byte1 at 1. str_cons. cbn [decode_length_loop].
  rewrite Hb1, Hb2, N.shiftl_mul_pow2.
  assert (0 < 2 ^ m)%N as Hp by (apply N.neq_0_lt_0, N.pow_nonzero; lia).
  assert (d * 2 ^ m <= n * 2 ^ m)%N as Hdm by (apply N.mul_le_mono_r; lia).
  rewrite N.mod_small by (change (2 ^ 32)%N with 4294967296%N; lia).
  rewrite <-N.shiftl_mul_pow2, lor_shiftl_add by done.
  destruct (N.ltb_spec 268435455 (v + d * 2 ^ m)); [lia|].
  destruct (N.ltb_spec 0 q) as [Hq|Hq]; cbn [negb].
  - destruct (N.eqb_spec q 0); [lia|].
    assert (2 ^ (m + 7) = 128 * 2 ^ m)%N as Hp7 by (rewrite N.pow_add_r; change (2 ^ 7)%N with 128%N; lia).
    assert (m + 7 < 2 ^ 32)%N as Hm.
    { apply N.lt_le_trans with 28%N; [|done]. apply (N.pow_lt_mono_r_iff 2); [lia|]. change (2 ^ 28)%N with 268435456%N. nia. }
    assert (v + d * 2 ^ m + q * 2 ^ (m + 7) = v + n * 2 ^ m)%N as Hsum by (rewrite Hp7, Hdq at 1; lia).
    rewrite (N.mod_small (m + 7)) by done. rewrite IH; [|..].
    + rewrite Hsum. unfold byte1 at 1. str_cons. cbn [String.length].
      destruct fuel as [|fuel']; [exfalso; change (2 ^ N.of_nat 1)%N with 2%N in Hn; lia|].
      assert (0 < String.length (encode_length_loop (S fuel') q))%nat by (cbn [encode_length_loop]; rewrite string_length_app, length_byte1; lia).
      by match goal with |- Return (?a, ?x, ?r) = Return (?a, ?y, ?r) => replace x with y by lia end.
    + rewrite Nat2N.inj_succ, N.pow_succ_r' in Hn. nia.
    + rewrite Hp7. nia.
    + lia.
    + lia.
    + destruct fuel; [exfalso; change (2 ^ N.of_nat 1)%N with 2%N in Hn; lia|lia].
  - assert (q = 0)%N as -> by lia. cbn [N.eqb]. str_cons. rewrite ?string_app_nil_r. cbn [String.length].
    rewrite ?length_byte1, Nat.sub_diag, Nat.add_0_r. assert (n * 2 ^ m = d * 2 ^ m)%N as -> by (rewrite Hdq at 1; lia). done.
Qed.

Lemma DecodeLength_encode n rest : (n <= 268435455)%N →
  DecodeLength (encodeLength n +:+ rest) = Return (n, String.length (encodeLength n), rest).
Proof.
  intros Hn. unfold DecodeLength, encodeLength. rewrite decode_encode_loop; [|apply size_nat_lt|done|lia|done|lia].
  assert (0 < String.length (encode_length_loop (S (N.size_nat n)) n))%nat
    by (cbn [encode_length_loop]; rewrite string_length_app, length_byte1; lia).
  by match goal with |- Return (?a, ?x, ?r) = Return (?b, ?y, ?r) => replace x with y by lia; replace a with b by lia end.
Qed.

Lemma decode_length_bounds b m v bu : (v <= 268435455)%N →
  match decode_length_loop b m v bu with
  | Return (n, bu', rest) => (n <= 268435455)%N ∧ ∃ used, b = used +:+ rest ∧ (bu' + 1 = bu + String.length used)%nat ∧ used ≠ ""
  | Throw _ => True
  | Panic => False
  end.
Proof.
  revert m v bu. induction b as [|c b IH]; intros m v bu Hv; [done|]. cbn [decode_length_loop].
  destruct (N.ltb_spec 268435455 (N.lor v (N.shiftl (N.land (N_of_ascii c) 127) m mod 2 ^ 32))) as [|Hle]; [done|].
  destruct (_ =? 0)%N.
  - split; [done|]. exists (String c ""). split_and!; [by str_cons|simpl; lia|done].
  - specialize (IH ((m + 7) mod 2 ^ 32)%N _ (S bu) Hle). destruct (decode_length_loop _ _ _ _) as [[[n bu'] rest]|e|]; [|done..].
    destruct IH as (Hn & used & -> & Hl & _). split; [done|]. exists (String c used). split_and!; [by str_cons|simpl; lia|done].
Qed.

Lemma DecodeLength_bounds b :
  match DecodeLength b with
  | Return (n, bu, rest) => (n <= 268435455)%N ∧ ∃ used, b = used +:+ rest ∧ bu = String.length used ∧ (0 < bu)%nat
  | Throw _ => True
  | Panic => False
  end.
Proof.
  pose proof (decode_length_bounds b 0 0 1 ltac:(lia)) as H. unfold DecodeLength.
  destruct (decode_length_loop b 0 0 1) as [[[n bu] rest]|e|]; [|done..].
  destruct H as (? & used & ? & ? & ?). split; [done|]. exists used. destruct used; [done|]. simpl in *.
  split_and!; [done|lia..].
Qed.

(** ** Lemmas: fixed headers *)

(** The headers of the protocol: flags as each packet type requires them. *)
Definition header_ok (fh : FixedHeader) : bool :=
  (fhType fh <? 16)%N &&
  if (fhType fh =? Publish)%N then (fhQos fh <=? 2)%N && (negb (fhDup fh) || (0 <? fhQos fh)%N)
  else if (fhType fh =? Pubrel)%N || (fhType fh =? Subscribe)%N || (fhType fh =? Unsubscribe)%N then
    (fhQos fh =? 1)%N && negb (fhDup fh) && negb (fhRetain fh)
  else (fhQos fh =? 0)%N && negb (fhDup fh) && negb (fhRetain fh).

Definition new_header (remaining : N) : FixedHeader := mkFixedHeader remaining 0 0 false false.

Lemma forallb_N (p : N → bool) (b : nat) n : forallb (λ k, p (N.of_nat k)) (seq 0 b) = true → (n < N.of_nat b)%N → p n = true.
Proof.
  rewrite forallb_forall. intros H Hn. specialize (H (N.to_nat n)). rewrite N2Nat.id in H. apply H, in_seq. lia.
Qed.

Lemma FixedHeader_Decode_ok remaining hb fh : (hb < 256)%N →
  FixedHeader_Decode hb (new_header remaining) = Return fh →
  header_ok fh = true ∧ header_byte fh = hb ∧ fhRemaining fh = remaining.
Proof.
  intros Hhb. assert (match FixedHeader_Decode hb (new_header 0) with
    | Return fh => header_ok fh && (header_byte fh =? hb)%N
    | _ => true
    end = true) as H.
  { apply (forallb_N (λ hb, match FixedHeader_Decode hb (new_header 0) with
      Return fh => header_ok fh && (header_byte fh =? hb)%N | _ => true end) 256); [vm_compute; reflexivity|done]. }
  intros E. assert (FixedHeader_Decode hb (new_header 0) = Return (fh <| fhRemaining := 0%N |>) ∧ fhRemaining fh = remaining) as [E0 ?].
  { clear H. revert E. unfold FixedHeader_Decode, mbind, outcome_bind. cbv zeta.
    generalize (N.shiftr hb 4). intros t. generalize (N.land (N.shiftr hb 1) 3). intros q.
    repeat case_goal; simplify_eq/=; intros [= <-]; first [done|exfalso; congruence]. }
  rewrite E0 in H. apply andb_true_iff in H as [H1 H2]. apply N.eqb_eq in H2. by destruct fh.
Qed.

Lemma FixedHeader_Decode_byte fh : header_ok fh = true →
  (header_byte fh < 256)%N ∧ FixedHeader_Decode (header_byte fh) (new_header (fhRemaining fh)) = Return fh.
Proof.
  destruct fh as [r t q d rt]. unfold header_ok. simpl. intros [Ht H]%andb_true_iff. apply N.ltb_lt in Ht.
  assert (q < 3)%N as Hq.
  { destruct (t =? Publish)%N; [|destruct (_ || _)].
    - apply andb_true_iff in H as [H _]. apply N.leb_le in H. lia.
    - apply andb_true_iff in H as [[H _]%andb_true_iff _]. apply N.eqb_eq in H. lia.
    - apply andb_true_iff in H as [[H _]%andb_true_iff _]. apply N.eqb_eq in H. lia. }
  assert ((t = 0 ∨ t = 1 ∨ t = 2 ∨ t = 3 ∨ t = 4 ∨ t = 5 ∨ t = 6 ∨ t = 7 ∨ t = 8 ∨ t = 9 ∨ t = 10 ∨ t = 11 ∨ t = 12 ∨
    t = 13 ∨ t = 14 ∨ t = 15)%N) as Ht' by lia.
  assert ((q = 0 ∨ q = 1 ∨ q = 2)%N) as Hq' by lia. clear Ht Hq.
  repeat destruct Ht' as [->|Ht']; subst; repeat destruct Hq' as [->|Hq']; subst; destruct d, rt; vm_compute in H; try done; by vm_compute.
Qed.

(** An overlong variable byte integer is accepted, and what it encodes beyond
    32 bits is lost: six bytes stand for 2^35 and decode to 0. *)
Lemma overlong_length_accepted :
  DecodeLength (byte1 128 +:+ byte1 128 +:+ byte1 128 +:+ byte1 128 +:+ byte1 128 +:+ byte1 1) = Return (0%N, 6%nat, "").
Proof. vm_compute. reflexivity. Qed.
