(* ===== verification/Properties.v ===== *)
(** MQTT 5 properties of the vendored broker: properties.go, in
    thirdparty/mochi-mqtt-server/packets. *)

From S2P Require Import Prelude GoStrings Base64 Codec.

(** ** Property identifiers *)

Definition PropPayloadFormat : N := 1.
Definition PropMessageExpiryInterval : N := 2.
Definition PropContentType : N := 3.
Definition PropResponseTopic : N := 8.
Definition PropCorrelationData : N := 9.
Definition PropSubscriptionIdentifier : N := 11.
Definition PropSessionExpiryInterval : N := 17.
Definition PropAssignedClientID : N := 18.
Definition PropServerKeepAlive : N := 19.
Definition PropAuthenticationMethod : N := 21.
Definition PropAuthenticationData : N := 22.
Definition PropRequestProblemInfo : N := 23.
Definition PropWillDelayInterval : N := 24.
Definition PropRequestResponseInfo : N := 25.
Definition PropResponseInfo : N := 26.
Definition PropServerReference : N := 28.
Definition PropReasonString : N := 31.
Definition PropReceiveMaximum : N := 33.
Definition PropTopicAliasMaximum : N := 34.
Definition PropTopicAlias : N := 35.
Definition PropMaximumQos : N := 36.
Definition PropRetainAvailable : N := 37.
Definition PropUser : N := 38.
Definition PropMaximumPacketSize : N := 39.
Definition PropWildcardSubAvailable : N := 40.
Definition PropSubIDAvailable : N := 41.
Definition PropSharedSubAvailable : N := 42.

(** The packet types a property is valid for. *)
Definition validPacketProperties (k : N) : list N :=
  if (k =? PropPayloadFormat)%N then [Publish; WillPropertiesType]
  else if (k =? PropMessageExpiryInterval)%N then [Publish; WillPropertiesType]
  else if (k =? PropContentType)%N then [Publish; WillPropertiesType]
  else if (k =? PropResponseTopic)%N then [Publish; WillPropertiesType]
  else if (k =? PropCorrelationData)%N then [Publish; WillPropertiesType]
  else if (k =? PropSubscriptionIdentifier)%N then [Publish; Subscribe]
  else if (k =? PropSessionExpiryInterval)%N then [Connect; Connack; Disconnect]
  else if (k =? PropAssignedClientID)%N then [Connack]
  else if (k =? PropServerKeepAlive)%N then [Connack]
  else if (k =? PropAuthenticationMethod)%N then [Connect; Connack; Auth]
  else if (k =? PropAuthenticationData)%N then [Connect; Connack; Auth]
  else if (k =? PropRequestProblemInfo)%N then [Connect]
  else if (k =? PropWillDelayInterval)%N then [WillPropertiesType]
  else if (k =? PropRequestResponseInfo)%N then [Connect]
  else if (k =? PropResponseInfo)%N then [Connack]
  else if (k =? PropServerReference)%N then [Connack; Disconnect]
  else if (k =? PropReasonString)%N then
    [Connack; Puback; Pubrec; Pubrel; Pubcomp; Suback; Unsuback; Disconnect; Auth]
  else if (k =? PropReceiveMaximum)%N then [Connect; Connack]
  else if (k =? PropTopicAliasMaximum)%N then [Connect; Connack]
  else if (k =? PropTopicAlias)%N then [Publish]
  else if (k =? PropMaximumQos)%N then [Connack]
  else if (k =? PropRetainAvailable)%N then [Connack]
  else if (k =? PropUser)%N then
    [Connect; Connack; Publish; Puback; Pubrec; Pubrel; Pubcomp; Subscribe; Suback; Unsubscribe; Unsuback; Disconnect;
     Auth; WillPropertiesType]
  else if (k =? PropMaximumPacketSize)%N then [Connect; Connack]
  else if (k =? PropWildcardSubAvailable)%N then [Connack]
  else if (k =? PropSubIDAvailable)%N then [Connack]
  else if (k =? PropSharedSubAvailable)%N then [Connack]
  else [].

Definition canEncode (pkt k : N) : bool := existsb (N.eqb pkt) (validPacketProperties k).

(** ** Data *)

Record UserProperty := mkUserProperty { Key : string; Val : string }.

Record Properties := mkProperties {
  CorrelationData : string;
  SubscriptionIdentifier : list Z;
  AuthenticationData : string;
  User : list UserProperty;
  ContentType : string;
  ResponseTopic : string;
  AssignedClientID : string;
  AuthenticationMethod : string;
  ResponseInfo : string;
  ServerReference : string;
  ReasonString : string;
  MessageExpiryInterval : N;
  SessionExpiryInterval : N;
  WillDelayInterval : N;
  MaximumPacketSize : N;
  ServerKeepAlive : N;
  ReceiveMaximum : N;
  TopicAliasMaximum : N;
  TopicAlias : N;
  PayloadFormat : N;
  PayloadFormatFlag : bool;
  SessionExpiryIntervalFlag : bool;
  ServerKeepAliveFlag : bool;
  ReceiveMaximumFlag : bool;
  MaximumPacketSizeFlag : bool;
  RequestProblemInfo : N;
  RequestProblemInfoFlag : bool;
  RequestResponseInfo : N;
  TopicAliasFlag : bool;
  MaximumQos : N;
  MaximumQosFlag : bool;
  RetainAvailable : N;
  RetainAvailableFlag : bool;
  WildcardSubAvailable : N;
  WildcardSubAvailableFlag : bool;
  SubIDAvailable : N;
  SubIDAvailableFlag : bool;
  SharedSubAvailable : N;
  SharedSubAvailableFlag : bool;
}.

#[export] Instance UserProperty_eq_dec : EqDecision UserProperty.
Proof. solve_decision. Defined.

#[export] Instance Properties_eq_dec : EqDecision Properties.
Proof. solve_decision. Defined.

#[export] Instance Properties_remake : Remake Properties := {| remake := λ p,
  mkProperties (CorrelationData p) (SubscriptionIdentifier p) (AuthenticationData p) (User p) (ContentType p)
    (ResponseTopic p) (AssignedClientID p) (AuthenticationMethod p) (ResponseInfo p) (ServerReference p)
    (ReasonString p) (MessageExpiryInterval p) (SessionExpiryInterval p) (WillDelayInterval p) (MaximumPacketSize p)
    (ServerKeepAlive p) (ReceiveMaximum p) (TopicAliasMaximum p) (TopicAlias p) (PayloadFormat p)
    (PayloadFormatFlag p) (SessionExpiryIntervalFlag p) (ServerKeepAliveFlag p) (ReceiveMaximumFlag p)
    (MaximumPacketSizeFlag p) (RequestProblemInfo p) (RequestProblemInfoFlag p) (RequestResponseInfo p)
    (TopicAliasFlag p) (MaximumQos p) (MaximumQosFlag p) (RetainAvailable p) (RetainAvailableFlag p)
    (WildcardSubAvailable p) (WildcardSubAvailableFlag p) (SubIDAvailable p) (SubIDAvailableFlag p)
    (SharedSubAvailable p) (SharedSubAvailableFlag p) |}.

(** The zero value. *)
Definition no_properties : Properties :=
  mkProperties "" [] "" [] "" "" "" "" "" "" "" 0 0 0 0 0 0 0 0 0 false false false false false 0 false 0 false 0 false
    0 false 0 false 0 false 0 false.

Record Mods := mkMods { MaxSize : N; DisallowProblemInfo : bool; AllowResponseInfo : bool }.

(** The topic alias goes only to a transferred packet. *)
Definition Properties_Copy (allowTransfer : bool) (p : Properties) : Properties :=
  if allowTransfer then p else p <| TopicAlias := 0%N |> <| TopicAliasFlag := false |>.

(** ** Encoding *)

(** The bytes of one property, written if the test holds. *)
Definition prop (b : bool) (k : N) (v : string) : string := if b then byte1 k +:+ v else "".

Definition user_property (v : UserProperty) : string :=
  byte1 PropUser +:+ encodeString (Key v) +:+ encodeString (Val v).

(** uint32(n+len+1) < MaxSize, the test on optional properties. *)
Definition fits (mods : Mods) (n len : nat) : bool :=
  (MaxSize mods =? 0)%N || (N.of_nat (n + len + 1) mod 2 ^ 32 <? MaxSize mods)%N.

Definition encode_body (pkt : N) (mods : Mods) (n : nat) (p : Properties) : string :=
  prop (canEncode pkt PropPayloadFormat && PayloadFormatFlag p) PropPayloadFormat (byte1 (PayloadFormat p)) +:+
  prop (canEncode pkt PropMessageExpiryInterval && (0 <? MessageExpiryInterval p)%N) PropMessageExpiryInterval
    (encodeUint32 (MessageExpiryInterval p)) +:+
  prop (canEncode pkt PropContentType && negb (String.eqb (ContentType p) "")) PropContentType
    (encodeString (ContentType p)) +:+
  prop (AllowResponseInfo mods && canEncode pkt PropResponseTopic && negb (String.eqb (ResponseTopic p) "") &&
        negb (contains_byte "+" (ResponseTopic p) || contains_byte "#" (ResponseTopic p))) PropResponseTopic
    (encodeString (ResponseTopic p)) +:+
  prop (AllowResponseInfo mods && canEncode pkt PropCorrelationData && negb (String.eqb (CorrelationData p) ""))
    PropCorrelationData (encodeBytes (CorrelationData p)) +:+
  (if canEncode pkt PropSubscriptionIdentifier then
     foldr (λ v acc, prop (0 <? v)%Z PropSubscriptionIdentifier (encodeLength (Z.to_N v)) +:+ acc) ""
       (SubscriptionIdentifier p)
   else "") +:+
  prop (canEncode pkt PropSessionExpiryInterval && SessionExpiryIntervalFlag p) PropSessionExpiryInterval
    (encodeUint32 (SessionExpiryInterval p)) +:+
  prop (canEncode pkt PropAssignedClientID && negb (String.eqb (AssignedClientID p) "")) PropAssignedClientID
    (encodeString (AssignedClientID p)) +:+
  prop (canEncode pkt PropServerKeepAlive && ServerKeepAliveFlag p) PropServerKeepAlive
    (encodeUint16 (ServerKeepAlive p)) +:+
  prop (canEncode pkt PropAuthenticationMethod && negb (String.eqb (AuthenticationMethod p) ""))
    PropAuthenticationMethod (encodeString (AuthenticationMethod p)) +:+
  prop (canEncode pkt PropAuthenticationData && negb (String.eqb (AuthenticationData p) "")) PropAuthenticationData
    (encodeBytes (AuthenticationData p)) +:+
  prop (canEncode pkt PropRequestProblemInfo && RequestProblemInfoFlag p) PropRequestProblemInfo
    (byte1 (RequestProblemInfo p)) +:+
  prop (canEncode pkt PropWillDelayInterval && (0 <? WillDelayInterval p)%N) PropWillDelayInterval
    (encodeUint32 (WillDelayInterval p)) +:+
  prop (canEncode pkt PropRequestResponseInfo && (0 <? RequestResponseInfo p)%N) PropRequestResponseInfo
    (byte1 (RequestResponseInfo p)) +:+
  prop (AllowResponseInfo mods && canEncode pkt PropResponseInfo && negb (String.eqb (ResponseInfo p) ""))
    PropResponseInfo (encodeString (ResponseInfo p)) +:+
  prop (canEncode pkt PropServerReference && negb (String.eqb (ServerReference p) "")) PropServerReference
    (encodeString (ServerReference p)) +:+
  prop (negb (DisallowProblemInfo mods) && canEncode pkt PropReasonString && negb (String.eqb (ReasonString p) "") &&
        fits mods n (String.length (encodeString (ReasonString p)))) PropReasonString
    (encodeString (ReasonString p)) +:+
  prop (canEncode pkt PropReceiveMaximum && (0 <? ReceiveMaximum p)%N) PropReceiveMaximum
    (encodeUint16 (ReceiveMaximum p)) +:+
  prop (canEncode pkt PropTopicAliasMaximum && (0 <? TopicAliasMaximum p)%N) PropTopicAliasMaximum
    (encodeUint16 (TopicAliasMaximum p)) +:+
  prop (canEncode pkt PropTopicAlias && TopicAliasFlag p && (0 <? TopicAlias p)%N) PropTopicAlias
    (encodeUint16 (TopicAlias p)) +:+
  prop (canEncode pkt PropMaximumQos && MaximumQosFlag p && (MaximumQos p <? 2)%N) PropMaximumQos
    (byte1 (MaximumQos p)) +:+
  prop (canEncode pkt PropRetainAvailable && RetainAvailableFlag p) PropRetainAvailable (byte1 (RetainAvailable p)) +:+
  (let pb := foldr (λ v acc, user_property v +:+ acc) "" (User p) in
   if negb (DisallowProblemInfo mods) && canEncode pkt PropUser && fits mods n (String.length pb) then pb else "") +:+
  prop (canEncode pkt PropMaximumPacketSize && (0 <? MaximumPacketSize p)%N) PropMaximumPacketSize
    (encodeUint32 (MaximumPacketSize p)) +:+
  prop (canEncode pkt PropWildcardSubAvailable && WildcardSubAvailableFlag p) PropWildcardSubAvailable
    (byte1 (WildcardSubAvailable p)) +:+
  prop (canEncode pkt PropSubIDAvailable && SubIDAvailableFlag p) PropSubIDAvailable (byte1 (SubIDAvailable p)) +:+
  prop (canEncode pkt PropSharedSubAvailable && SharedSubAvailableFlag p) PropSharedSubAvailable
    (byte1 (SharedSubAvailable p)).

(** [n] is the size of the rest of the packet so far. *)
Definition Properties_Encode (pkt : N) (mods : Mods) (n : nat) (p : Properties) : string :=
  let buf := encode_body pkt mods n p in
  encodeLength (N.of_nat (String.length buf)) +:+ buf.

(** ** Decoding *)

(** x, offset, err = decode(bt, offset); then an assignment to [p]. *)
Definition assign {A} (x : outcome (A * nat)) (f : A → Properties) : outcome (Properties * nat) :=
  '(v, offset) ← x; Return (f v, offset).

(** The switch on the property identifier. *)
Definition decode_property (bt : string) (k : N) (offset : nat) (p : Properties) : outcome (Properties * nat) :=
  if (k =? PropPayloadFormat)%N then
    assign (decodeByte bt offset) (λ v, p <| PayloadFormat := v |> <| PayloadFormatFlag := true |>)
  else if (k =? PropMessageExpiryInterval)%N then
    assign (decodeUint32 bt offset) (λ v, p <| MessageExpiryInterval := v |>)
  else if (k =? PropContentType)%N then assign (decodeString bt offset) (λ v, p <| ContentType := v |>)
  else if (k =? PropResponseTopic)%N then assign (decodeString bt offset) (λ v, p <| ResponseTopic := v |>)
  else if (k =? PropCorrelationData)%N then assign (decodeBytes bt offset) (λ v, p <| CorrelationData := v |>)
  else if (k =? PropSubscriptionIdentifier)%N then
    bt' ← slice_from bt offset;
    '(n, bu, _) ← DecodeLength bt';
    Return (p <| SubscriptionIdentifier := SubscriptionIdentifier p ++ [Z.of_N n] |>, (offset + bu)%nat)
  else if (k =? PropSessionExpiryInterval)%N then
    assign (decodeUint32 bt offset) (λ v, p <| SessionExpiryInterval := v |> <| SessionExpiryIntervalFlag := true |>)
  else if (k =? PropAssignedClientID)%N then assign (decodeString bt offset) (λ v, p <| AssignedClientID := v |>)
  else if (k =? PropServerKeepAlive)%N then
    assign (decodeUint16 bt offset) (λ v, p <| ServerKeepAlive := v |> <| ServerKeepAliveFlag := true |>)
  else if (k =? PropAuthenticationMethod)%N then
    assign (decodeString bt offset) (λ v, p <| AuthenticationMethod := v |>)
  else if (k =? PropAuthenticationData)%N then
    assign (decodeBytes bt offset) (λ v, p <| AuthenticationData := v |>)
  else if (k =? PropRequestProblemInfo)%N then
    assign (decodeByte bt offset) (λ v, p <| RequestProblemInfo := v |> <| RequestProblemInfoFlag := true |>)
  else if (k =? PropWillDelayInterval)%N then assign (decodeUint32 bt offset) (λ v, p <| WillDelayInterval := v |>)
  else if (k =? PropRequestResponseInfo)%N then
    assign (decodeByte bt offset) (λ v, p <| RequestResponseInfo := v |>)
  else if (k =? PropResponseInfo)%N then assign (decodeString bt offset) (λ v, p <| ResponseInfo := v |>)
  else if (k =? PropServerReference)%N then assign (decodeString bt offset) (λ v, p <| ServerReference := v |>)
  else if (k =? PropReasonString)%N then assign (decodeString bt offset) (λ v, p <| ReasonString := v |>)
  else if (k =? PropReceiveMaximum)%N then
    assign (decodeUint16 bt offset) (λ v, p <| ReceiveMaximum := v |> <| ReceiveMaximumFlag := true |>)
  else if (k =? PropTopicAliasMaximum)%N then assign (decodeUint16 bt offset) (λ v, p <| TopicAliasMaximum := v |>)
  else if (k =? PropTopicAlias)%N then
    assign (decodeUint16 bt offset) (λ v, p <| TopicAlias := v |> <| TopicAliasFlag := true |>)
  else if (k =? PropMaximumQos)%N then
    assign (decodeByte bt offset) (λ v, p <| MaximumQos := v |> <| MaximumQosFlag := true |>)
  else if (k =? PropRetainAvailable)%N then
    assign (decodeByte bt offset) (λ v, p <| RetainAvailable := v |> <| RetainAvailableFlag := true |>)
  else if (k =? PropUser)%N then
    '(key, offset) ← decodeString bt offset;
    '(val, offset) ← decodeString bt offset;
    Return (p <| User := User p ++ [mkUserProperty key val] |>, offset)
  else if (k =? PropMaximumPacketSize)%N then
    assign (decodeUint32 bt offset) (λ v, p <| MaximumPacketSize := v |> <| MaximumPacketSizeFlag := true |>)
  else if (k =? PropWildcardSubAvailable)%N then
    assign (decodeByte bt offset) (λ v, p <| WildcardSubAvailable := v |> <| WildcardSubAvailableFlag := true |>)
  else if (k =? PropSubIDAvailable)%N then
    assign (decodeByte bt offset) (λ v, p <| SubIDAvailable := v |> <| SubIDAvailableFlag := true |>)
  else if (k =? PropSharedSubAvailable)%N then
    assign (decodeByte bt offset) (λ v, p <| SharedSubAvailable := v |> <| SharedSubAvailableFlag := true |>)
  else Return (p, offset).

(** for offset := 0; offset < n; *)
Fixpoint decode_properties_loop (fuel : nat) (pkt : N) (n : nat) (bt : string) (offset : nat) (p : Properties) :
    outcome Properties :=
  if (offset <? n)%nat then
    match fuel with
    | O => Panic
    | S fuel =>
        '(k, offset) ← decodeByte bt offset;
        if negb (canEncode pkt k) then Throw (ECode ErrProtocolViolationUnsupportedProperty)
        else
          '(p, offset) ← decode_property bt k offset p;
          decode_properties_loop fuel pkt n bt offset p
    end
  else Return p.

(** The properties and the bytes used. Every round uses a byte of [bt], which
    bounds the rounds by its length. *)
Definition Properties_Decode (pkt : N) (b : string) (p : Properties) : outcome (Properties * nat) :=
  '(n, bu, bt) ← DecodeLength b;
  if (n =? 0)%N then Return (p, (N.to_nat n + bu)%nat)
  else
    p ← decode_properties_loop (S (String.length bt)) pkt (N.to_nat n) bt 0 p;
    Return (p, (N.to_nat n + bu)%nat).

(** ** Specification *)

(** Well-formed properties: widths of the Go types, lengths that fit the wire,
    strings in UTF-8. *)
Definition wire_string (s : string) : Prop := (N.of_nat (String.length s) < 65536)%N ∧ validUTF8 s = true.
Definition wire_bytes (s : string) : Prop := (N.of_nat (String.length s) < 65536)%N.

Record wf_properties (p : Properties) : Prop := {
  wf_strings : Forall wire_string [ContentType p; ResponseTopic p; AssignedClientID p; AuthenticationMethod p;
                                   ResponseInfo p; ServerReference p; ReasonString p];
  wf_bytes : Forall wire_bytes [CorrelationData p; AuthenticationData p];
  wf_user : Forall (λ u, wire_string (Key u) ∧ wire_string (Val u)) (User p);
  wf_subids : Forall (λ v, (v <= 268435455)%Z) (SubscriptionIdentifier p);
  wf_uint32 : Forall (λ v, v < 2 ^ 32)%N [MessageExpiryInterval p; SessionExpiryInterval p; WillDelayInterval p;
                                          MaximumPacketSize p];
  wf_uint16 : Forall (λ v, v < 65536)%N [ServerKeepAlive p; ReceiveMaximum p; TopicAliasMaximum p; TopicAlias p];
  wf_byte : Forall (λ v, v < 256)%N [PayloadFormat p; RequestProblemInfo p; RequestResponseInfo p; MaximumQos p;
                                     RetainAvailable p; WildcardSubAvailable p; SubIDAvailable p; SharedSubAvailable p];
}.

(** What the other side learns: the properties that are valid for the packet
    type and allowed by [mods], the others absent. *)
Definition wire_properties (pkt : N) (mods : Mods) (n : nat) (p : Properties) : Properties :=
  let keep {A} (b : bool) (v d : A) : A := if b then v else d in
  let can := canEncode pkt in
  let session_expiry := can PropSessionExpiryInterval && SessionExpiryIntervalFlag p in
  let server_keepalive := can PropServerKeepAlive && ServerKeepAliveFlag p in
  let receive_max := can PropReceiveMaximum && (0 <? ReceiveMaximum p)%N in
  let max_size := can PropMaximumPacketSize && (0 <? MaximumPacketSize p)%N in
  let payload_format := can PropPayloadFormat && PayloadFormatFlag p in
  let problem_info := can PropRequestProblemInfo && RequestProblemInfoFlag p in
  let alias := can PropTopicAlias && TopicAliasFlag p && (0 <? TopicAlias p)%N in
  let max_qos := can PropMaximumQos && MaximumQosFlag p && (MaximumQos p <? 2)%N in
  let retain := can PropRetainAvailable && RetainAvailableFlag p in
  let wildcard := can PropWildcardSubAvailable && WildcardSubAvailableFlag p in
  let sub_id := can PropSubIDAvailable && SubIDAvailableFlag p in
  let shared := can PropSharedSubAvailable && SharedSubAvailableFlag p in
  let users := foldr (λ v acc, user_property v +:+ acc) "" (User p) in
  mkProperties
    (keep (AllowResponseInfo mods && can PropCorrelationData) (CorrelationData p) "")
    (keep (can PropSubscriptionIdentifier) (List.filter (λ v, 0 <? v)%Z (SubscriptionIdentifier p)) [])
    (keep (can PropAuthenticationData) (AuthenticationData p) "")
    (keep (negb (DisallowProblemInfo mods) && can PropUser && fits mods n (String.length users)) (User p) [])
    (keep (can PropContentType) (ContentType p) "")
    (keep (AllowResponseInfo mods && can PropResponseTopic &&
           negb (contains_byte "+" (ResponseTopic p) || contains_byte "#" (ResponseTopic p))) (ResponseTopic p) "")
    (keep (can PropAssignedClientID) (AssignedClientID p) "")
    (keep (can PropAuthenticationMethod) (AuthenticationMethod p) "")
    (keep (AllowResponseInfo mods && can PropResponseInfo) (ResponseInfo p) "")
    (keep (can PropServerReference) (ServerReference p) "")
    (keep (negb (DisallowProblemInfo mods) && can PropReasonString &&
           fits mods n (String.length (encodeString (ReasonString p)))) (ReasonString p) "")
    (keep (can PropMessageExpiryInterval) (MessageExpiryInterval p) 0%N)
    (keep session_expiry (SessionExpiryInterval p) 0%N)
    (keep (can PropWillDelayInterval) (WillDelayInterval p) 0%N)
    (keep max_size (MaximumPacketSize p) 0%N)
    (keep server_keepalive (ServerKeepAlive p) 0%N)
    (keep receive_max (ReceiveMaximum p) 0%N)
    (keep (can PropTopicAliasMaximum) (TopicAliasMaximum p) 0%N)
    (keep alias (TopicAlias p) 0%N)
    (keep payload_format (PayloadFormat p) 0%N)
    payload_format session_expiry server_keepalive receive_max max_size
    (keep problem_info (RequestProblemInfo p) 0%N) problem_info
    (keep (can PropRequestResponseInfo) (RequestResponseInfo p) 0%N)
    alias
    (keep max_qos (MaximumQos p) 0%N) max_qos
    (keep retain (RetainAvailable p) 0%N) retain
    (keep wildcard (WildcardSubAvailable p) 0%N) wildcard
    (keep sub_id (SubIDAvailable p) 0%N) sub_id
    (keep shared (SharedSubAvailable p) 0%N) shared.

(** ** Lemmas: decoding stays in bounds *)

Lemma assign_bounds {A} k bt off (x : outcome (A * nat)) f :
  in_bounds k bt off x → in_bounds k bt off (assign x f).
Proof. by destruct x as [[v o]|e|]. Qed.

Lemma in_bounds_weaken {A} j k buf off (x : outcome (A * nat)) : (j <= k)%nat → in_bounds k buf off x → in_bounds j buf off x.
Proof. destruct x as [[v o]|e|]; simpl; [lia|done..]. Qed.

Create HintDb codec.
#[export] Hint Resolve decodeByte_bounds decodeUint16_bounds decodeUint32_bounds decodeBytes_bounds decodeString_bounds : codec.

Lemma decode_property_bounds bt k off p : (off <= String.length bt)%nat → in_bounds 0 bt off (decode_property bt k off p).
Proof.
  intros Hoff. unfold decode_property.
  repeat match goal with
  | |- in_bounds _ _ _ (if ?b then _ else _) => destruct b
  | |- in_bounds _ _ _ (assign _ _) => eapply (in_bounds_weaken 0); [|apply assign_bounds; eauto with codec]; lia
  end; [| |simpl; lia].
  - unfold slice_from. apply Nat.leb_le in Hoff as Hle. rewrite Hle. simpl.
    pose proof (DecodeLength_bounds (drop_bytes off bt)) as H. destruct (DecodeLength _) as [[[n bu] r]|e|]; [|done..].
    destruct H as (_ & used & Hd & -> & _). simpl. apply (f_equal String.length) in Hd.
    rewrite drop_bytes_length, string_length_app in Hd. lia.
  - pose proof (decodeString_bounds bt off) as H1. destruct (decodeString bt off) as [[s o]|e|]; simpl in *; [|done..].
    pose proof (decodeString_bounds bt o) as H2. destruct (decodeString bt o) as [[s' o']|e|]; simpl in *; [lia|done..].
Qed.

Lemma decode_properties_loop_bounds fuel pkt n bt off p :
  (off <= String.length bt)%nat → (String.length bt - off < fuel)%nat →
  match decode_properties_loop fuel pkt n bt off p with
  | Return _ => (n <= String.length bt)%nat
  | Throw _ => True
  | Panic => False
  end.
Proof.
  revert off p. induction fuel as [|fuel IH]; intros off p Hoff Hfuel; [lia|]. cbn [decode_properties_loop].
  destruct (Nat.ltb_spec off n); [|lia].
  pose proof (decodeByte_bounds bt off) as H1. destruct (decodeByte bt off) as [[k o]|e|]; simpl in *; [|done..].
  destruct (canEncode pkt k); simpl; [|done].
  pose proof (decode_property_bounds bt k o p ltac:(lia)) as H2.
  destruct (decode_property bt k o p) as [[p' o']|e|]; simpl in *; [|done..]. apply IH; lia.
Qed.

(** Decoding properties never panics, and uses bytes of the buffer only. *)
Lemma Properties_Decode_bounds pkt b p :
  match Properties_Decode pkt b p with
  | Return (_, used) => (0 < used)%nat ∧ (used <= String.length b)%nat
  | Throw _ => True
  | Panic => False
  end.
Proof.
  unfold Properties_Decode. pose proof (DecodeLength_bounds b) as H.
  destruct (DecodeLength b) as [[[n bu] bt]|e|]; simpl; [|done..]. destruct H as (Hn & used & Hb & -> & Hpos).
  apply (f_equal String.length) in Hb. rewrite string_length_app in Hb.
  destruct (N.eqb_spec n 0) as [->|Hne]; simpl in *; [lia|].
  pose proof (decode_properties_loop_bounds (S (String.length bt)) pkt (N.to_nat n) bt 0 p ltac:(lia) ltac:(lia)) as H2.
  cbn [decode_properties_loop] in *. destruct (Nat.ltb 0 (N.to_nat n)); simpl in *; [|lia].
  match goal with |- match mbind _ ?x with _ => _ end => destruct x as [q|e|] end; simpl; [lia|done..].
Qed.

(** ** Lemmas: the round trip *)

(** From [off] on, with enough fuel, the loop reaches [q]. *)
Definition decodes (pkt : N) (n : nat) (bt : string) (off : nat) (p q : Properties) : Prop :=
  ∀ fuel, (n - off < fuel)%nat → decode_properties_loop fuel pkt n bt off p = Return q.

Lemma decodes_end pkt n bt off p : (n <= off)%nat → decodes pkt n bt off p p.
Proof. intros Hn fuel _. destruct fuel; simpl; by destruct (Nat.ltb_spec off n); [lia|]. Qed.

Lemma decodes_one pkt n bt off k v p p' more q :
  (k < 256)%N → canEncode pkt k = true → at_offset bt off (byte1 k +:+ v +:+ more) →
  (off + 1 + String.length v <= n)%nat →
  decode_property bt k (off + 1) p = Return (p', (off + 1 + String.length v)%nat) →
  decodes pkt n bt (off + 1 + String.length v) p' q → decodes pkt n bt off p q.
Proof.
  intros Hk Hc Hat Hn Hp Hrest fuel Hf. destruct fuel as [|fuel]; [lia|]. cbn [decode_properties_loop].
  destruct (Nat.ltb_spec off n); [|lia]. erewrite decodeByte_enc by done. simpl. rewrite Hc. simpl. rewrite Hp. simpl.
  apply Hrest. lia.
Qed.

(** A property that is written if [b]; [more] are the properties after it and
    [rest] the bytes after the properties. *)
Lemma decodes_prop b pkt n bt off k v p (p' : Properties) more rest q :
  at_offset bt off ((prop b k v +:+ more) +:+ rest) → (off + String.length (prop b k v +:+ more) = n)%nat → (k < 256)%N →
  (b = true → canEncode pkt k = true ∧ ∀ off, at_offset bt off (v +:+ more +:+ rest) →
     decode_property bt k off p = Return (p', (off + String.length v)%nat)) →
  (b = false → p' = p) →
  (∀ off', at_offset bt off' (more +:+ rest) → (off' + String.length more = n)%nat → decodes pkt n bt off' p' q) →
  decodes pkt n bt off p q.
Proof.
  intros Hat Hn Hk Htrue Hfalse Hrest. unfold prop in *. destruct b.
  - destruct (Htrue eq_refl) as [Hc Hp]. rewrite <-!string_app_assoc in Hat.
    pose proof (at_offset_app _ _ _ _ Hat) as Hat1. rewrite length_byte1 in Hat1.
    pose proof (at_offset_app _ _ _ _ Hat1) as Hat2. rewrite !string_length_app, length_byte1 in Hn.
    eapply decodes_one; [done|done|exact Hat|lia|by apply Hp|]. apply Hrest; [done|lia].
  - rewrite Hfalse in * by done. rewrite string_app_nil_l in *. by apply Hrest.
Qed.

(** The value is decoded back. *)
Lemma assign_enc {A} (x : outcome (A * nat)) v o f p : x = Return (v, o) → f v = p → assign x f = Return (p, o).
Proof. by intros -> <-. Qed.

Ltac property_switch :=
  cbv [decode_property N.eqb Pos.eqb PropPayloadFormat PropMessageExpiryInterval PropContentType PropResponseTopic
    PropCorrelationData PropSubscriptionIdentifier PropSessionExpiryInterval PropAssignedClientID PropServerKeepAlive
    PropAuthenticationMethod PropAuthenticationData PropRequestProblemInfo PropWillDelayInterval PropRequestResponseInfo
    PropResponseInfo PropServerReference PropReasonString PropReceiveMaximum PropTopicAliasMaximum PropTopicAlias
    PropMaximumQos PropRetainAvailable PropUser PropMaximumPacketSize PropWildcardSubAvailable PropSubIDAvailable
    PropSharedSubAvailable].

Lemma decode_subid v bt off p more : (0 <? v)%Z = true → (v <= 268435455)%Z →
  at_offset bt off (encodeLength (Z.to_N v) +:+ more) →
  decode_property bt PropSubscriptionIdentifier off p =
  Return (p <| SubscriptionIdentifier := SubscriptionIdentifier p ++ [v] |>, (off + String.length (encodeLength (Z.to_N v)))%nat).
Proof.
  intros Hpos%Z.ltb_lt Hv Hat. property_switch. rewrite (at_offset_slice _ _ _ Hat). cbn [mbind outcome_bind].
  rewrite DecodeLength_encode by lia. cbn [mbind outcome_bind]. by rewrite Z2N.id by lia.
Qed.

Lemma decodes_subids pkt n bt off ids p more rest q :
  canEncode pkt PropSubscriptionIdentifier = true → Forall (λ v, (v <= 268435455)%Z) ids →
  let bytes := foldr (λ v acc, prop (0 <? v)%Z PropSubscriptionIdentifier (encodeLength (Z.to_N v)) +:+ acc) "" ids in
  at_offset bt off ((bytes +:+ more) +:+ rest) → (off + String.length (bytes +:+ more) = n)%nat →
  (∀ off', at_offset bt off' (more +:+ rest) → (off' + String.length more = n)%nat →
    decodes pkt n bt off' (p <| SubscriptionIdentifier := SubscriptionIdentifier p ++ List.filter (λ v, 0 <? v)%Z ids |>) q) →
  decodes pkt n bt off p q.
Proof.
  intros Hc Hids. revert off p. induction Hids as [|v ids Hv Hids IH]; intros off p bytes Hat Hn Hrest; simpl in bytes.
  - subst bytes. rewrite string_app_nil_l in *. specialize (Hrest off Hat Hn). simpl in Hrest.
    rewrite app_nil_r in Hrest. by destruct p.
  - subst bytes. rewrite <-(string_app_assoc (prop _ _ _)) in Hat, Hn.
    eapply (decodes_prop _ _ _ _ _ _ _ _ (if (0 <? v)%Z then p <| SubscriptionIdentifier := SubscriptionIdentifier p ++ [v] |> else p));
      [exact Hat|done|done| | |].
    + intros E. rewrite E. split; [done|]. intros off' Hat'. by eapply decode_subid.
    + by intros ->.
    + intros off' Hat' Hn'. eapply IH; [done|done|]. intros off2 Hat2 Hn2. specialize (Hrest off2 Hat2 Hn2).
      cbn [List.filter] in Hrest. destruct (0 <? v)%Z; [|done].
      match goal with |- decodes _ _ _ _ ?x _ =>
        assert (x = p <| SubscriptionIdentifier := SubscriptionIdentifier p ++ v :: List.filter (λ v, 0 <? v)%Z ids |>) as ->
          by (cbn; by rewrite <-app_assoc) end. exact Hrest.
Qed.

Lemma decode_user u bt off p more : wire_string (Key u) → wire_string (Val u) →
  at_offset bt off (encodeString (Key u) +:+ encodeString (Val u) +:+ more) →
  decode_property bt PropUser off p =
  Return (p <| User := User p ++ [u] |>, (off + String.length (encodeString (Key u) +:+ encodeString (Val u)))%nat).
Proof.
  intros [Hk1 Hk2] [Hv1 Hv2] Hat. property_switch. rewrite (decodeString_enc _ _ _ _ Hk1 Hk2 Hat). cbn [mbind outcome_bind].
  apply at_offset_app in Hat. unfold encodeString in Hat at 1. rewrite length_encodeBytes in Hat.
  rewrite (decodeString_enc _ _ _ _ Hv1 Hv2 Hat). cbn [mbind outcome_bind]. destruct u. unfold encodeString.
  rewrite string_length_app, !length_encodeBytes. do 2 f_equal. simpl. lia.
Qed.

Lemma decodes_users pkt n bt off us p more rest q :
  canEncode pkt PropUser = true → Forall (λ u, wire_string (Key u) ∧ wire_string (Val u)) us →
  let bytes := foldr (λ v acc, user_property v +:+ acc) "" us in
  at_offset bt off ((bytes +:+ more) +:+ rest) → (off + String.length (bytes +:+ more) = n)%nat →
  (∀ off', at_offset bt off' (more +:+ rest) → (off' + String.length more = n)%nat →
    decodes pkt n bt off' (p <| User := User p ++ us |>) q) →
  decodes pkt n bt off p q.
Proof.
  intros Hc Hus. revert off p. induction Hus as [|u us [Hk Hv] Hus IH]; intros off p bytes Hat Hn Hrest; simpl in bytes.
  - subst bytes. rewrite string_app_nil_l in *. specialize (Hrest off Hat Hn). simpl in Hrest.
    rewrite app_nil_r in Hrest. by destruct p.
  - subst bytes. change (user_property u) with (prop true PropUser (encodeString (Key u) +:+ encodeString (Val u))) in *.
    rewrite <-(string_app_assoc (prop _ _ _)) in Hat, Hn.
    eapply (decodes_prop _ _ _ _ _ _ _ _ (p <| User := User p ++ [u] |>)); [exact Hat|done|done| |done|].
    + intros _. split; [done|]. intros off' Hat'. rewrite <-string_app_assoc in Hat'. by eapply decode_user.
    + intros off' Hat' Hn'. eapply IH; [done|done|]. intros off2 Hat2 Hn2. specialize (Hrest off2 Hat2 Hn2).
      match goal with |- decodes _ _ _ _ ?x _ =>
        assert (x = p <| User := User p ++ u :: us |>) as -> by (cbn; by rewrite <-app_assoc) end. exact Hrest.
Qed.

(** Record updates computed, on properties given field by field. *)
Ltac fields_of p :=
  let p := eval cbv [field_update no_properties
    CorrelationData SubscriptionIdentifier AuthenticationData User ContentType ResponseTopic
    AssignedClientID AuthenticationMethod ResponseInfo ServerReference ReasonString MessageExpiryInterval
    SessionExpiryInterval WillDelayInterval MaximumPacketSize ServerKeepAlive ReceiveMaximum
    TopicAliasMaximum TopicAlias PayloadFormat PayloadFormatFlag SessionExpiryIntervalFlag
    ServerKeepAliveFlag ReceiveMaximumFlag MaximumPacketSizeFlag RequestProblemInfo
    RequestProblemInfoFlag RequestResponseInfo TopicAliasFlag MaximumQos MaximumQosFlag RetainAvailable
    RetainAvailableFlag WildcardSubAvailable WildcardSubAvailableFlag SubIDAvailable SubIDAvailableFlag
    SharedSubAvailable SharedSubAvailableFlag] in p in
  p.

Ltac reduce_fields := cbn [
    CorrelationData SubscriptionIdentifier AuthenticationData User ContentType ResponseTopic
    AssignedClientID AuthenticationMethod ResponseInfo ServerReference ReasonString MessageExpiryInterval
    SessionExpiryInterval WillDelayInterval MaximumPacketSize ServerKeepAlive ReceiveMaximum
    TopicAliasMaximum TopicAlias PayloadFormat PayloadFormatFlag SessionExpiryIntervalFlag
    ServerKeepAliveFlag ReceiveMaximumFlag MaximumPacketSizeFlag RequestProblemInfo
    RequestProblemInfoFlag RequestResponseInfo TopicAliasFlag MaximumQos MaximumQosFlag RetainAvailable
    RetainAvailableFlag WildcardSubAvailable WildcardSubAvailableFlag SubIDAvailable SubIDAvailableFlag
    SharedSubAvailable SharedSubAvailableFlag] in *.

(** The value was written: it is decoded back. *)
Ltac written :=
  repeat match goal with H : _ && _ = true |- _ => apply andb_true_iff in H as [? ?] end;
  split; [assumption|];
  let off := fresh "off" in let Hat := fresh "Hat" in
  intros off Hat; property_switch; eapply assign_enc;
  [first
    [eapply decodeByte_enc; [|eassumption] | eapply decodeUint16_enc; [|eassumption] | eapply decodeUint32_enc; [|eassumption]
    |unfold encodeString in *; rewrite length_encodeBytes;
     first [eapply decodeString_enc; [| |eassumption] | eapply decodeBytes_enc; [|eassumption]]];
   eassumption
  |reflexivity].

(** The next property of the body, assigned by [upd] if it was written. *)
Ltac prop_step upd :=
  lazymatch goal with
  | Hat : at_offset ?bt ?off ((prop ?b ?k ?v +:+ ?more) +:+ ?rest), Hn : (?off + _ = ?n)%nat |- decodes ?pkt ?n ?bt ?off ?p ?q =>
      let p' := fields_of (upd b p) in
      apply (decodes_prop b pkt n bt off k v p p' more rest q Hat Hn); clear off Hat Hn;
      [done
      |let H := fresh in intros H; rewrite H; written
      |let H := fresh in intros H; rewrite H; reflexivity
      |intros off Hat Hn]
  end.

(** The next properties, a list written if the test holds. *)
Ltac list_step upd :=
  lazymatch goal with
  | Hat : at_offset ?bt ?off (((if ?b then ?l else "") +:+ ?more) +:+ ?rest), Hn : (?off + _ = ?n)%nat
      |- decodes ?pkt ?n ?bt ?off ?p ?q =>
      let p' := fields_of (upd p) in
      let Hrest := fresh "Hrest" in
      enough (∀ off', at_offset bt off' (more +:+ rest) → (off' + String.length more = n)%nat → decodes pkt n bt off' p' q) as Hrest;
      [let Hc := fresh "Hc" in destruct b eqn:Hc in Hat, Hn, Hrest |- *; [|apply (Hrest off); rewrite string_app_nil_l in Hat, Hn; done]
      |clear off Hat Hn; intros off Hat Hn]
  end.

(** A field is kept, or was absent already. *)
Ltac field_kept :=
  try match goal with |- context [String.eqb ?s ""] => destruct (String.eqb_spec s ""); subst end;
  try match goal with |- context [(0 <? ?v)%N] => destruct (N.ltb_spec 0 v); subst end;
  cbn [negb]; rewrite ?andb_true_r, ?andb_false_r;
  repeat match goal with |- context [if ?b then _ else _] => destruct b end; first [done | lia].

Lemma decodes_body pkt mods n p rest :
  wf_properties p → let body := encode_body pkt mods n p in
  decodes pkt (String.length body) (body +:+ rest) 0 no_properties (wire_properties pkt mods n p).
Proof.
  destruct p. intros [Hs Hb Hu Hi H32 H16 H8] body. unfold wire_bytes in Hb.
  reduce_fields.
  repeat match goal with H : Forall _ (_ :: _) |- _ => apply Forall_cons in H as [? H] end.
  repeat match goal with H : wire_string _ |- _ => destruct H end.
  pose proof (at_offset_zero (body +:+ rest)) as Hat. assert (0 + String.length body = String.length body)%nat as Hn by lia.
  revert Hat Hn. generalize (body +:+ rest) at 1 3. intros bt. generalize (String.length body) at 2 3. intros len. generalize 0%nat.
  unfold body, encode_body. clear body. intros off Hat Hn.
  reduce_fields.
  prop_step (λ (b : bool) q, q <| PayloadFormat := if b then PayloadFormat0 else 0%N |> <| PayloadFormatFlag := if b then true else false |>).
  prop_step (λ (b : bool) q, q <| MessageExpiryInterval := if b then MessageExpiryInterval0 else 0%N |>).
  prop_step (λ (b : bool) q, q <| ContentType := if b then ContentType0 else "" |>).
  prop_step (λ (b : bool) q, q <| ResponseTopic := if b then ResponseTopic0 else "" |>).
  prop_step (λ (b : bool) q, q <| CorrelationData := if b then CorrelationData0 else "" |>).
  list_step (λ q, q <| SubscriptionIdentifier := (if canEncode pkt PropSubscriptionIdentifier then List.filter (λ v, 0 <? v)%Z SubscriptionIdentifier0 else []) |>).
  { eapply decodes_subids; [done..|]. exact Hrest. }
  prop_step (λ (b : bool) q, q <| SessionExpiryInterval := if b then SessionExpiryInterval0 else 0%N |> <| SessionExpiryIntervalFlag := if b then true else false |>).
  prop_step (λ (b : bool) q, q <| AssignedClientID := if b then AssignedClientID0 else "" |>).
  prop_step (λ (b : bool) q, q <| ServerKeepAlive := if b then ServerKeepAlive0 else 0%N |> <| ServerKeepAliveFlag := if b then true else false |>).
  prop_step (λ (b : bool) q, q <| AuthenticationMethod := if b then AuthenticationMethod0 else "" |>).
  prop_step (λ (b : bool) q, q <| AuthenticationData := if b then AuthenticationData0 else "" |>).
  prop_step (λ (b : bool) q, q <| RequestProblemInfo := if b then RequestProblemInfo0 else 0%N |> <| RequestProblemInfoFlag := if b then true else false |>).
  prop_step (λ (b : bool) q, q <| WillDelayInterval := if b then WillDelayInterval0 else 0%N |>).
  prop_step (λ (b : bool) q, q <| RequestResponseInfo := if b then RequestResponseInfo0 else 0%N |>).
  prop_step (λ (b : bool) q, q <| ResponseInfo := if b then ResponseInfo0 else "" |>).
  prop_step (λ (b : bool) q, q <| ServerReference := if b then ServerReference0 else "" |>).
  prop_step (λ (b : bool) q, q <| ReasonString := if b then ReasonString0 else "" |>).
  prop_step (λ (b : bool) q, q <| ReceiveMaximum := if b then ReceiveMaximum0 else 0%N |> <| ReceiveMaximumFlag := if b then true else false |>).
  prop_step (λ (b : bool) q, q <| TopicAliasMaximum := if b then TopicAliasMaximum0 else 0%N |>).
  prop_step (λ (b : bool) q, q <| TopicAlias := if b then TopicAlias0 else 0%N |> <| TopicAliasFlag := if b then true else false |>).
  prop_step (λ (b : bool) q, q <| MaximumQos := if b then MaximumQos0 else 0%N |> <| MaximumQosFlag := if b then true else false |>).
  prop_step (λ (b : bool) q, q <| RetainAvailable := if b then RetainAvailable0 else 0%N |> <| RetainAvailableFlag := if b then true else false |>).
  list_step (λ q, q <| User := (if negb (DisallowProblemInfo mods) && canEncode pkt PropUser && fits mods n (String.length (foldr (λ v acc, user_property v +:+ acc) "" User0)) then User0 else []) |>).
  { apply andb_true_iff in Hc as [[_ ?]%andb_true_iff _]. eapply decodes_users; [done..|]. exact Hrest. }
  prop_step (λ (b : bool) q, q <| MaximumPacketSize := if b then MaximumPacketSize0 else 0%N |> <| MaximumPacketSizeFlag := if b then true else false |>).
  prop_step (λ (b : bool) q, q <| WildcardSubAvailable := if b then WildcardSubAvailable0 else 0%N |> <| WildcardSubAvailableFlag := if b then true else false |>).
  prop_step (λ (b : bool) q, q <| SubIDAvailable := if b then SubIDAvailable0 else 0%N |> <| SubIDAvailableFlag := if b then true else false |>).
  rewrite <-(string_app_nil_r (prop _ _ _)) in Hat, Hn.
  prop_step (λ (b : bool) q, q <| SharedSubAvailable := if b then SharedSubAvailable0 else 0%N |> <| SharedSubAvailableFlag := if b then true else false |>).
  lazymatch goal with |- decodes _ _ _ _ ?a ?b => replace b with a; [apply decodes_end; simpl in Hn; lia|] end.
  unfold wire_properties. reduce_fields. f_equal; try done; solve [field_kept].
Qed.

Lemma wire_properties_empty pkt mods n p :
  wf_properties p → encode_body pkt mods n p = "" → wire_properties pkt mods n p = no_properties.
Proof.
  intros Hwf Hb. pose proof (decodes_body pkt mods n p "" Hwf) as Hd. rewrite Hb in Hd. cbv zeta in Hd.
  specialize (Hd 1%nat ltac:(simpl; lia)). cbn [String.length decode_properties_loop Nat.ltb Nat.leb] in Hd. congruence.
Qed.

Lemma encodeLength_pos n : (0 < String.length (encodeLength n))%nat.
Proof. unfold encodeLength. cbn [encode_length_loop]. rewrite string_length_app, length_byte1. lia. Qed.

(** One byte for the length alone: no properties. *)
Lemma Properties_Encode_short pkt mods n p : wf_properties p → (String.length (Properties_Encode pkt mods n p) <= 1)%nat →
  wire_properties pkt mods n p = no_properties.
Proof.
  intros Hwf Hl. apply wire_properties_empty; [done|]. unfold Properties_Encode in Hl. rewrite string_length_app in Hl.
  pose proof (encodeLength_pos (N.of_nat (String.length (encode_body pkt mods n p)))).
  destruct (encode_body pkt mods n p); [done|simpl in *; lia].
Qed.

Lemma Properties_roundtrip pkt mods n p rest :
  wf_properties p → (N.of_nat (String.length (encode_body pkt mods n p)) <= 268435455)%N →
  Properties_Decode pkt (Properties_Encode pkt mods n p +:+ rest) no_properties =
  Return (wire_properties pkt mods n p, String.length (Properties_Encode pkt mods n p)).
Proof.
  intros Hwf Hlen. unfold Properties_Decode, Properties_Encode. set (body := encode_body pkt mods n p) in *.
  rewrite <-string_app_assoc, DecodeLength_encode by done. cbn [mbind outcome_bind]. rewrite Nat2N.id.
  destruct (N.eqb_spec (N.of_nat (String.length body)) 0) as [H0|Hne].
  - assert (encode_body pkt mods n p = "") as Hb by (fold body; destruct body; [done|simpl in H0; lia]).
    rewrite wire_properties_empty by done. rewrite string_length_app. do 2 f_equal. lia.
  - pose proof (decodes_body pkt mods n p rest Hwf) as Hd. fold body in Hd. cbv zeta in Hd.
    rewrite Hd by (rewrite string_length_app; lia). cbn [mbind outcome_bind]. rewrite string_length_app. do 2 f_equal. lia.
Qed.
