(* ===== verification/Packets.v ===== *)
(** MQTT packets of the vendored broker: packets.go in
    thirdparty/mochi-mqtt-server/packets, and the reading and writing of one
    packet in clients.go.

    A packet decoder takes the packet so far and the bytes after the fixed
    header. On an error the partly filled packet is dropped, as its callers do.
    The input of a connection is the byte string still to be read. *)

From S2P Require Import Prelude GoStrings Acl Topics Base64 Codec Properties.

(** ** Data *)

Record ConnectParams := mkConnectParams {
  cpWillProperties : Properties;
  cpPassword : string;
  cpUsername : string;
  cpProtocolName : string;
  cpWillPayload : string;
  cpClientIdentifier : string;
  cpWillTopic : string;
  cpKeepalive : N;
  cpPasswordFlag : bool;
  cpUsernameFlag : bool;
  cpWillQos : N;
  cpWillFlag : bool;
  cpWillRetain : bool;
  cpClean : bool;
}.

#[export] Instance ConnectParams_remake : Remake ConnectParams := {| remake := λ c,
  mkConnectParams (cpWillProperties c) (cpPassword c) (cpUsername c) (cpProtocolName c) (cpWillPayload c)
    (cpClientIdentifier c) (cpWillTopic c) (cpKeepalive c) (cpPasswordFlag c) (cpUsernameFlag c) (cpWillQos c)
    (cpWillFlag c) (cpWillRetain c) (cpClean c) |}.

Record Packet := mkPacket {
  pkConnect : ConnectParams;
  pkProperties : Properties;
  pkPayload : string;
  pkReasonCodes : string;
  pkFilters : list Subscription;
  pkTopicName : string;
  pkOrigin : string;
  pkFixedHeader : FixedHeader;
  pkCreated : Z;
  pkExpiry : Z;
  pkMods : Mods;
  pkPacketID : N;
  pkProtocolVersion : N;
  pkSessionPresent : bool;
  pkReasonCode : N;
  pkReservedBit : N;
  pkIgnore : bool;
  pkInboundFlow : bool;
  pkSharedFilters : option (list string);
}.

#[export] Instance Packet_remake : Remake Packet := {| remake := λ p,
  mkPacket (pkConnect p) (pkProperties p) (pkPayload p) (pkReasonCodes p) (pkFilters p) (pkTopicName p) (pkOrigin p)
    (pkFixedHeader p) (pkCreated p) (pkExpiry p) (pkMods p) (pkPacketID p) (pkProtocolVersion p) (pkSessionPresent p)
    (pkReasonCode p) (pkReservedBit p) (pkIgnore p) (pkInboundFlow p) (pkSharedFilters p) |}.

(** The zero values. *)
Definition no_connect : ConnectParams := mkConnectParams no_properties "" "" "" "" "" "" 0 false false 0 false false false.
Definition no_mods : Mods := mkMods 0 false false.
Definition no_packet : Packet :=
  mkPacket no_connect no_properties "" "" [] "" "" (new_header 0) 0 0 no_mods 0 0 false 0 0 false false None.

Definition pkType (pk : Packet) : N := fhType (pkFixedHeader pk).
Definition pkQoS (pk : Packet) : N := fhQos (pkFixedHeader pk).

(** A copy: no DUP flag, no packet ID unless transferred, flags of the
    credentials from their presence. *)
Definition Packet_Copy (allowTransfer : bool) (pk : Packet) : Packet :=
  let c := pkConnect pk in
  no_packet
    <| pkFixedHeader := (pkFixedHeader pk) <| fhDup := false |> |>
    <| pkMods := mkMods (MaxSize (pkMods pk)) false false |>
    <| pkReservedBit := pkReservedBit pk |>
    <| pkProtocolVersion := pkProtocolVersion pk |>
    <| pkConnect := mkConnectParams (Properties_Copy allowTransfer (cpWillProperties c)) (cpPassword c) (cpUsername c)
         (cpProtocolName c) (cpWillPayload c) (cpClientIdentifier c) (cpWillTopic c) (cpKeepalive c)
         (negb (String.eqb (cpPassword c) "")) (negb (String.eqb (cpUsername c) "")) (cpWillQos c) (cpWillFlag c)
         (cpWillRetain c) (cpClean c) |>
    <| pkTopicName := pkTopicName pk |>
    <| pkProperties := Properties_Copy allowTransfer (pkProperties pk) |>
    <| pkSessionPresent := pkSessionPresent pk |>
    <| pkReasonCode := pkReasonCode pk |>
    <| pkFilters := pkFilters pk |>
    <| pkCreated := pkCreated pk |>
    <| pkExpiry := pkExpiry pk |>
    <| pkOrigin := pkOrigin pk |>
    <| pkPacketID := if allowTransfer then pkPacketID pk else 0%N |>
    <| pkSharedFilters := pkSharedFilters pk |>
    <| pkPayload := pkPayload pk |>
    <| pkReasonCodes := pkReasonCodes pk |>.

(** ** Subscription options *)

Definition Subscription_encode (s : Subscription) : N :=
  N.lor (N.lor (N.lor (Qos s) (if NoLocal s then 4 else 0)) (if RetainAsPublished s then 8 else 0))
    (N.shiftl (RetainHandling s) 4 mod 256).

(** [decode] fills the options of a new subscription. *)
Definition Subscription_decode (filter : string) (b : N) : Subscription :=
  mkSubscription filter 0 None (N.land 3 (N.shiftr b 4)) (N.land b 3) (0 <? N.land 1 (N.shiftr b 3))%N
    (0 <? N.land 1 (N.shiftr b 2))%N.

(** ** Encoding *)

(** The fixed header with the length of what follows it, and what follows. *)
Definition with_header (pk : Packet) (nb : string) : string :=
  FixedHeader_Encode ((pkFixedHeader pk) <| fhRemaining := N.of_nat (String.length nb) |>) +:+ nb.

Definition encode_properties (pk : Packet) (n : nat) : string :=
  Properties_Encode (pkType pk) (pkMods pk) n (pkProperties pk).

Definition is_v5 (pk : Packet) : bool := (pkProtocolVersion pk =? 5)%N.

Definition connect_flags (c : ConnectParams) : N :=
  N.lor (N.lor (N.lor (N.lor (N.lor (N.shiftl (encodeBool (cpClean c)) 1) (N.shiftl (encodeBool (cpWillFlag c)) 2))
    (N.shiftl (cpWillQos c) 3 mod 256)) (N.shiftl (encodeBool (cpWillRetain c)) 5))
    (N.shiftl (encodeBool (cpPasswordFlag c)) 6)) (N.shiftl (encodeBool (cpUsernameFlag c)) 7).

Definition ConnectEncode (pk : Packet) : outcome string :=
  let c := pkConnect pk in
  Return (with_header pk (
    encodeBytes (cpProtocolName c) +:+ byte1 (pkProtocolVersion pk) +:+ byte1 (connect_flags c) +:+
    encodeUint16 (cpKeepalive c) +:+
    (if is_v5 pk then encode_properties pk 0 else "") +:+
    encodeString (cpClientIdentifier c) +:+
    (if cpWillFlag c then
       (if is_v5 pk then Properties_Encode WillPropertiesType (pkMods pk) 0 (cpWillProperties c) else "") +:+
       encodeString (cpWillTopic c) +:+ encodeBytes (cpWillPayload c)
     else "") +:+
    (if cpUsernameFlag c then encodeBytes (cpUsername c) else "") +:+
    (if cpPasswordFlag c then encodeBytes (cpPassword c) else ""))).

Definition ConnackEncode (pk : Packet) : outcome string :=
  let nb := byte1 (encodeBool (pkSessionPresent pk)) +:+ byte1 (pkReasonCode pk) in
  Return (with_header pk (nb +:+ if is_v5 pk then encode_properties pk (String.length nb + 2) else "")).

Definition DisconnectEncode (pk : Packet) : outcome string :=
  Return (with_header pk (if is_v5 pk then byte1 (pkReasonCode pk) +:+ encode_properties pk 1 else "")).

(** The fixed header as it is. *)
Definition PingreqEncode (pk : Packet) : outcome string := Return (FixedHeader_Encode (pkFixedHeader pk)).
Definition PingrespEncode (pk : Packet) : outcome string := Return (FixedHeader_Encode (pkFixedHeader pk)).

Definition PublishEncode (pk : Packet) : outcome string :=
  let nb := encodeString (pkTopicName pk) in
  if (0 <? pkQoS pk)%N && (pkPacketID pk =? 0)%N then Throw (ECode ErrProtocolViolationNoPacketID)
  else
    let nb := nb +:+ if (0 <? pkQoS pk)%N then encodeUint16 (pkPacketID pk) else "" in
    let nb := nb +:+ if is_v5 pk then encode_properties pk (String.length nb + String.length (pkPayload pk)) else "" in
    Return (with_header pk (nb +:+ pkPayload pk)).

Definition encodePubAckRelRecComp (pk : Packet) : outcome string :=
  let nb := encodeUint16 (pkPacketID pk) in
  Return (with_header pk (
    if is_v5 pk then
      let pb := encode_properties pk (String.length nb) in
      nb +:+ (if (codeByte ErrUnspecifiedError <=? pkReasonCode pk)%N || (1 <? String.length pb)%nat
              then byte1 (pkReasonCode pk) else "") +:+
      (if (1 <? String.length pb)%nat then pb else "")
    else nb)).

Definition SubackEncode (pk : Packet) : outcome string :=
  let nb := encodeUint16 (pkPacketID pk) in
  let nb := nb +:+ if is_v5 pk then encode_properties pk (String.length nb + String.length (pkReasonCodes pk)) else "" in
  Return (with_header pk (nb +:+ pkReasonCodes pk)).

Definition encode_filters (pk : Packet) : string :=
  foldr (λ opts acc, encodeString (Filter opts) +:+ byte1 (if is_v5 pk then Subscription_encode opts else Qos opts) +:+ acc)
    "" (pkFilters pk).

Definition SubscribeEncode (pk : Packet) : outcome string :=
  if (pkPacketID pk =? 0)%N then Throw (ECode ErrProtocolViolationNoPacketID)
  else
    let nb := encodeUint16 (pkPacketID pk) in
    let xb := encode_filters pk in
    let nb := nb +:+ if is_v5 pk then encode_properties pk (String.length nb + String.length xb) else "" in
    Return (with_header pk (nb +:+ xb)).

Definition UnsubackEncode (pk : Packet) : outcome string :=
  let nb := encodeUint16 (pkPacketID pk) in
  Return (with_header pk (
    nb +:+ if is_v5 pk then encode_properties pk (String.length nb) +:+ pkReasonCodes pk else "")).

Definition encode_topics (pk : Packet) : string :=
  foldr (λ sub acc, encodeString (Filter sub) +:+ acc) "" (pkFilters pk).

Definition UnsubscribeEncode (pk : Packet) : outcome string :=
  if (pkPacketID pk =? 0)%N then Throw (ECode ErrProtocolViolationNoPacketID)
  else
    let nb := encodeUint16 (pkPacketID pk) in
    let xb := encode_topics pk in
    let nb := nb +:+ if is_v5 pk then encode_properties pk (String.length nb + String.length xb) else "" in
    Return (with_header pk (nb +:+ xb)).

Definition AuthEncode (pk : Packet) : outcome string :=
  let nb := byte1 (pkReasonCode pk) in
  Return (with_header pk (nb +:+ encode_properties pk (String.length nb))).

(** The switch of [WritePacket]. *)
Definition encode_packet (pk : Packet) : outcome string :=
  let t := pkType pk in
  if (t =? Connect)%N then ConnectEncode pk
  else if (t =? Connack)%N then ConnackEncode pk
  else if (t =? Publish)%N then PublishEncode pk
  else if (t =? Puback)%N || (t =? Pubrec)%N || (t =? Pubrel)%N || (t =? Pubcomp)%N then encodePubAckRelRecComp pk
  else if (t =? Subscribe)%N then SubscribeEncode pk
  else if (t =? Suback)%N then SubackEncode pk
  else if (t =? Unsubscribe)%N then UnsubscribeEncode pk
  else if (t =? Unsuback)%N then UnsubackEncode pk
  else if (t =? Pingreq)%N then PingreqEncode pk
  else if (t =? Pingresp)%N then PingrespEncode pk
  else if (t =? Disconnect)%N then DisconnectEncode pk
  else if (t =? Auth)%N then AuthEncode pk
  else Throw ENoPacket.

(** ** Decoding *)

(** pk.Properties.Decode(pk.FixedHeader.Type, buf[offset:]) *)
Definition decode_pk_properties (pk : Packet) (buf : string) (offset : nat) : outcome (Packet * nat) :=
  b ← slice_from buf offset;
  '(p, n) ← or_throw ErrMalformedProperties (Properties_Decode (pkType pk) b (pkProperties pk));
  Return (pk <| pkProperties := p |>, (offset + n)%nat).

(** The same, for an MQTT 5 packet. *)
Definition decode_v5_properties (pk : Packet) (buf : string) (offset : nat) : outcome (Packet * nat) :=
  if is_v5 pk then decode_pk_properties pk buf offset else Return (pk, offset).

Definition flag_bit (flags k : N) : bool := (0 <? N.land 1 (N.shiftr flags k))%N.

Definition decode_will (pk : Packet) (buf : string) (offset : nat) : outcome (Packet * nat) :=
  let c := pkConnect pk in
  '(c, offset) ← (if is_v5 pk then
                    b ← slice_from buf offset;
                    '(p, n) ← or_throw ErrMalformedWillProperties (Properties_Decode WillPropertiesType b (cpWillProperties c));
                    Return (c <| cpWillProperties := p |>, (offset + n)%nat)
                  else Return (c, offset));
  '(topic, offset) ← or_throw ErrMalformedWillTopic (decodeString buf offset);
  '(payload, offset) ← or_throw ErrMalformedWillPayload (decodeBytes buf offset);
  Return (pk <| pkConnect := c <| cpWillTopic := topic |> <| cpWillPayload := payload |> |>, offset).

Definition decode_credentials (pk : Packet) (buf : string) (offset : nat) : outcome Packet :=
  '(pk, offset) ← (if cpUsernameFlag (pkConnect pk) then
                     if (String.length buf <=? offset)%nat then Throw (ECode ErrProtocolViolationFlagNoUsername)
                     else
                       '(username, offset) ← or_throw ErrMalformedUsername (decodeBytes buf offset);
                       Return (pk <| pkConnect := (pkConnect pk) <| cpUsername := username |> |>, offset)
                   else Return (pk, offset));
  if cpPasswordFlag (pkConnect pk) then
    '(password, _) ← or_throw ErrMalformedPassword (decodeBytes buf offset);
    Return (pk <| pkConnect := (pkConnect pk) <| cpPassword := password |> |>)
  else Return pk.

Definition ConnectDecode (pk : Packet) (buf : string) : outcome Packet :=
  '(name, offset) ← or_throw ErrMalformedProtocolName (decodeBytes buf 0);
  '(version, offset) ← or_throw ErrMalformedProtocolVersion (decodeByte buf offset);
  '(flags, offset) ← or_throw ErrMalformedFlags (decodeByte buf offset);
  '(keepalive, offset) ← or_throw ErrMalformedKeepalive (decodeUint16 buf offset);
  let c := (pkConnect pk) <| cpProtocolName := name |> <| cpClean := flag_bit flags 1 |> <| cpWillFlag := flag_bit flags 2 |>
             <| cpWillQos := N.land 3 (N.shiftr flags 3) |> <| cpWillRetain := flag_bit flags 5 |>
             <| cpPasswordFlag := flag_bit flags 6 |> <| cpUsernameFlag := flag_bit flags 7 |> <| cpKeepalive := keepalive |> in
  let pk := pk <| pkProtocolVersion := version |> <| pkReservedBit := N.land 1 flags |> <| pkConnect := c |> in
  '(pk, offset) ← decode_v5_properties pk buf offset;
  '(id, offset) ← or_throw ErrClientIdentifierNotValid (decodeString buf offset);
  let pk := pk <| pkConnect := (pkConnect pk) <| cpClientIdentifier := id |> |> in
  '(pk, offset) ← (if cpWillFlag (pkConnect pk) then decode_will pk buf offset else Return (pk, offset));
  decode_credentials pk buf offset.

Definition ConnackDecode (pk : Packet) (buf : string) : outcome Packet :=
  '(present, offset) ← or_throw ErrMalformedSessionPresent (decodeByteBool buf 0);
  '(reason, offset) ← or_throw ErrMalformedReasonCode (decodeByte buf offset);
  '(pk, _) ← decode_v5_properties (pk <| pkSessionPresent := present |> <| pkReasonCode := reason |>) buf offset;
  Return pk.

Definition DisconnectDecode (pk : Packet) (buf : string) : outcome Packet :=
  if is_v5 pk && (1 <? fhRemaining (pkFixedHeader pk))%N then
    '(reason, offset) ← or_throw ErrMalformedReasonCode (decodeByte buf 0);
    let pk := pk <| pkReasonCode := reason |> in
    if (2 <? fhRemaining (pkFixedHeader pk))%N then
      '(pk, _) ← decode_pk_properties pk buf offset; Return pk
    else Return pk
  else Return pk.

Definition PublishDecode (pk : Packet) (buf : string) : outcome Packet :=
  '(topic, offset) ← or_throw ErrMalformedTopic (decodeString buf 0);
  let pk := pk <| pkTopicName := topic |> in
  '(pk, offset) ← (if (0 <? pkQoS pk)%N then
                     '(id, offset) ← or_throw ErrMalformedPacketID (decodeUint16 buf offset);
                     Return (pk <| pkPacketID := id |>, offset)
                   else Return (pk, offset));
  '(pk, offset) ← decode_v5_properties pk buf offset;
  payload ← slice_from buf offset;
  Return (pk <| pkPayload := payload |>).

Definition decodePubAckRelRecComp (pk : Packet) (buf : string) : outcome Packet :=
  '(id, offset) ← or_throw ErrMalformedPacketID (decodeUint16 buf 0);
  let pk := pk <| pkPacketID := id |> in
  if is_v5 pk && (2 <? fhRemaining (pkFixedHeader pk))%N then
    '(reason, offset) ← or_throw ErrMalformedReasonCode (decodeByte buf offset);
    let pk := pk <| pkReasonCode := reason |> in
    if (3 <? fhRemaining (pkFixedHeader pk))%N then
      '(pk, _) ← decode_pk_properties pk buf offset; Return pk
    else Return pk
  else Return pk.

Definition SubackDecode (pk : Packet) (buf : string) : outcome Packet :=
  '(id, offset) ← or_throw ErrMalformedPacketID (decodeUint16 buf 0);
  '(pk, offset) ← decode_v5_properties (pk <| pkPacketID := id |>) buf offset;
  codes ← slice_from buf offset;
  Return (pk <| pkReasonCodes := codes |>).

(** for offset < len(buf), one filter with its options. *)
Fixpoint decode_filters (fuel : nat) (v5 : bool) (ids : list Z) (buf : string) (offset : nat) (filters : list Subscription) :
    outcome (list Subscription) :=
  if (offset <? String.length buf)%nat then
    match fuel with
    | O => Panic
    | S fuel =>
        '(filter, offset) ← or_throw ErrMalformedTopic (decodeString buf offset);
        '(option, offset) ← or_throw ErrMalformedQos (decodeByte buf offset);
        let sub := if v5 then Subscription_decode filter option else mkSubscription filter 0 None 0 option false false in
        let sub := match ids with
                   | id :: _ => mkSubscription (Filter sub) id (Identifiers sub) (RetainHandling sub) (Qos sub)
                                  (RetainAsPublished sub) (NoLocal sub)
                   | [] => sub
                   end in
        if (2 <? Qos sub)%N then Throw (ECode ErrProtocolViolationQosOutOfRange)
        else decode_filters fuel v5 ids buf offset (filters ++ [sub])
    end
  else Return filters.

(** Every filter uses three bytes at least. *)
Definition SubscribeDecode (pk : Packet) (buf : string) : outcome Packet :=
  '(id, offset) ← or_throw ErrMalformedPacketID (decodeUint16 buf 0);
  '(pk, offset) ← decode_v5_properties (pk <| pkPacketID := id |>) buf offset;
  filters ← decode_filters (S (String.length buf)) (is_v5 pk) (SubscriptionIdentifier (pkProperties pk)) buf offset [];
  Return (pk <| pkFilters := filters |>).

Definition UnsubackDecode (pk : Packet) (buf : string) : outcome Packet :=
  '(id, offset) ← or_throw ErrMalformedPacketID (decodeUint16 buf 0);
  let pk := pk <| pkPacketID := id |> in
  if is_v5 pk then
    '(pk, offset) ← decode_pk_properties pk buf offset;
    codes ← slice_from buf offset;
    Return (pk <| pkReasonCodes := codes |>)
  else Return pk.

Fixpoint decode_topics (fuel : nat) (buf : string) (offset : nat) (filters : list Subscription) : outcome (list Subscription) :=
  if (offset <? String.length buf)%nat then
    match fuel with
    | O => Panic
    | S fuel =>
        '(filter, offset) ← or_throw ErrMalformedTopic (decodeString buf offset);
        decode_topics fuel buf offset (filters ++ [filter_subscription filter])
    end
  else Return filters.

Definition UnsubscribeDecode (pk : Packet) (buf : string) : outcome Packet :=
  '(id, offset) ← or_throw ErrMalformedPacketID (decodeUint16 buf 0);
  '(pk, offset) ← decode_v5_properties (pk <| pkPacketID := id |>) buf offset;
  filters ← decode_topics (S (String.length buf)) buf offset [];
  Return (pk <| pkFilters := filters |>).

Definition AuthDecode (pk : Packet) (buf : string) : outcome Packet :=
  '(reason, offset) ← or_throw ErrMalformedReasonCode (decodeByte buf 0);
  '(pk, _) ← decode_pk_properties (pk <| pkReasonCode := reason |>) buf offset;
  Return pk.

(** The switch of [ReadPacket]. *)
Definition decode_body (pk : Packet) (px : string) : outcome Packet :=
  let t := pkType pk in
  if (t =? Connect)%N then ConnectDecode pk px
  else if (t =? Disconnect)%N then DisconnectDecode pk px
  else if (t =? Connack)%N then ConnackDecode pk px
  else if (t =? Publish)%N then PublishDecode pk px
  else if (t =? Puback)%N || (t =? Pubrec)%N || (t =? Pubrel)%N || (t =? Pubcomp)%N then decodePubAckRelRecComp pk px
  else if (t =? Subscribe)%N then SubscribeDecode pk px
  else if (t =? Suback)%N then SubackDecode pk px
  else if (t =? Unsubscribe)%N then UnsubscribeDecode pk px
  else if (t =? Unsuback)%N then UnsubackDecode pk px
  else if (t =? Pingreq)%N || (t =? Pingresp)%N then Return pk
  else if (t =? Auth)%N then AuthDecode pk px
  else Throw ENoPacket.

(** [maximumPacketSize] is the capability, 0 for no limit. *)
Definition ReadFixedHeader (maximumPacketSize : N) (conn : string) : outcome (FixedHeader * string) :=
  match conn with
  | "" => Throw EOF
  | String b conn =>
      fh ← FixedHeader_Decode (N_of_ascii b) (new_header 0);
      '(remaining, _, conn) ← DecodeLength conn;
      if (0 <? maximumPacketSize)%N && (maximumPacketSize <? (remaining + 1) mod 2 ^ 32)%N then
        Throw (ECode ErrPacketTooLarge)
      else Return (fh <| fhRemaining := remaining |>, conn)
  end.

(** io.ReadFull, then the decoder of the type. *)
Definition ReadPacket (protocolVersion : N) (fh : FixedHeader) (conn : string) : outcome (Packet * string) :=
  let n := N.to_nat (fhRemaining fh) in
  if (String.length conn <? n)%nat then Throw EOF
  else
    pk ← decode_body (no_packet <| pkProtocolVersion := protocolVersion |> <| pkFixedHeader := fh |>) (take_bytes n conn);
    Return (pk, drop_bytes n conn).

(** One round of [Client.Read]. *)
Definition read_packet (maximumPacketSize protocolVersion : N) (conn : string) : outcome (Packet * string) :=
  '(fh, conn) ← ReadFixedHeader maximumPacketSize conn;
  ReadPacket protocolVersion fh conn.

(** ** Validation *)

Definition MQIsdp : string := "MQIsdp".
Definition MQTT : string := "MQTT".

Definition ConnectValidate (pk : Packet) : Code :=
  let c := pkConnect pk in
  if negb (String.eqb (cpProtocolName c) MQIsdp) && negb (String.eqb (cpProtocolName c) MQTT) then
    ErrProtocolViolationProtocolName
  else if (String.eqb (cpProtocolName c) MQIsdp && negb (pkProtocolVersion pk =? 3)%N) ||
          (String.eqb (cpProtocolName c) MQTT && negb (pkProtocolVersion pk =? 4)%N && negb (pkProtocolVersion pk =? 5)%N) then
    ErrProtocolViolationProtocolVersion
  else if negb (pkReservedBit pk =? 0)%N then ErrProtocolViolationReservedBit
  else if (65535 <? N.of_nat (String.length (cpPassword c)))%N then ErrProtocolViolationPasswordTooLong
  else if (65535 <? N.of_nat (String.length (cpUsername c)))%N then ErrProtocolViolationUsernameTooLong
  else if negb (cpUsernameFlag c) && negb (String.eqb (cpUsername c) "") then ErrProtocolViolationUsernameNoFlag
  else if cpPasswordFlag c && String.eqb (cpPassword c) "" then ErrProtocolViolationFlagNoPassword
  else if negb (cpPasswordFlag c) && negb (String.eqb (cpPassword c) "") then ErrProtocolViolationPasswordNoFlag
  else if (65535 <? N.of_nat (String.length (cpClientIdentifier c)))%N then ErrClientIdentifierNotValid
  else if cpWillFlag c && (String.eqb (cpWillPayload c) "" || String.eqb (cpWillTopic c) "") then
    ErrProtocolViolationWillFlagNoPayload
  else if cpWillFlag c && (2 <? cpWillQos c)%N then ErrProtocolViolationQosOutOfRange
  else if negb (cpWillFlag c) && cpWillRetain c then ErrProtocolViolationWillFlagSurplusRetain
  else if ReceiveMaximumFlag (pkProperties pk) && (ReceiveMaximum (pkProperties pk) =? 0)%N then
    ErrProtocolViolationZeroReceiveMaximum
  else if MaximumPacketSizeFlag (pkProperties pk) && (MaximumPacketSize (pkProperties pk) =? 0)%N then
    ErrProtocolViolationZeroMaximumPacketSize
  else CodeSuccess.

Definition PublishValidate (topicAliasMaximum : N) (pk : Packet) : Code :=
  let p := pkProperties pk in
  if (0 <? pkQoS pk)%N && (pkPacketID pk =? 0)%N then ErrProtocolViolationNoPacketID
  else if (pkQoS pk =? 0)%N && (0 <? pkPacketID pk)%N then ErrProtocolViolationSurplusPacketID
  else if contains_byte "+" (pkTopicName pk) || contains_byte "#" (pkTopicName pk) then ErrProtocolViolationSurplusWildcard
  else if (topicAliasMaximum <? TopicAlias p)%N then ErrTopicAliasInvalid
  else if String.eqb (pkTopicName pk) "" && (TopicAlias p =? 0)%N then ErrProtocolViolationNoTopic
  else if TopicAliasFlag p && (TopicAlias p =? 0)%N then ErrTopicAliasInvalid
  else match SubscriptionIdentifier p with [] => CodeSuccess | _ => ErrProtocolViolationSurplusSubID end.

Definition SubscribeValidate (pk : Packet) : Code :=
  if (0 <? pkQoS pk)%N && (pkPacketID pk =? 0)%N then ErrProtocolViolationNoPacketID
  else match pkFilters pk with
       | [] => ErrProtocolViolationNoFilters
       | filters =>
           if existsb (λ v, 268435455 <? Identifier v)%Z filters then ErrProtocolViolationOversizeSubID
           else if existsb (Z.eqb 0) (SubscriptionIdentifier (pkProperties pk)) then ErrProtocolViolationZeroSubID
           else CodeSuccess
       end.

Definition UnsubscribeValidate (pk : Packet) : Code :=
  if (0 <? pkQoS pk)%N && (pkPacketID pk =? 0)%N then ErrProtocolViolationNoPacketID
  else match pkFilters pk with [] => ErrProtocolViolationNoFilters | _ => CodeSuccess end.

Definition AuthValidate (pk : Packet) : Code :=
  if negb (pkReasonCode pk =? codeByte CodeSuccess)%N && negb (pkReasonCode pk =? codeByte CodeContinueAuthentication)%N &&
     negb (pkReasonCode pk =? codeByte CodeReAuthenticate)%N then ErrProtocolViolationInvalidReason
  else CodeSuccess.

Definition ReasonCodeValid (pk : Packet) : bool :=
  let one_of codes := existsb (λ c, codeByte c =? pkReasonCode pk)%N codes in
  let t := pkType pk in
  if (t =? Pubrec)%N then
    one_of [CodeSuccess; CodeNoMatchingSubscribers; ErrUnspecifiedError; ErrImplementationSpecificError; ErrNotAuthorized;
            ErrTopicNameInvalid; ErrPacketIdentifierInUse; ErrQuotaExceeded; ErrPayloadFormatInvalid]
  else if (t =? Pubrel)%N || (t =? Pubcomp)%N then one_of [CodeSuccess; ErrPacketIdentifierNotFound]
  else if (t =? Suback)%N then
    one_of [CodeGrantedQos0; CodeGrantedQos1; CodeGrantedQos2; ErrUnspecifiedError; ErrImplementationSpecificError;
            ErrNotAuthorized; ErrTopicFilterInvalid; ErrPacketIdentifierInUse; ErrQuotaExceeded;
            ErrSharedSubscriptionsNotSupported; ErrSubscriptionIdentifiersNotSupported; ErrWildcardSubscriptionsNotSupported]
  else if (t =? Unsuback)%N then
    one_of [CodeSuccess; CodeNoSubscriptionExisted; ErrUnspecifiedError; ErrImplementationSpecificError; ErrNotAuthorized;
            ErrTopicFilterInvalid; ErrPacketIdentifierInUse]
  else true.

(** ** Lemmas: no decoder panics *)

(** [x] does not panic, and what it returns satisfies [Q]. *)
Definition safe {A} (x : outcome A) (Q : A → Prop) : Prop :=
  match x with Return a => Q a | Throw _ => True | Panic => False end.

Lemma safe_bind {A B} (x : outcome A) (f : A → outcome B) (P : A → Prop) Q :
  safe x P → (∀ a, P a → safe (f a) Q) → safe (x ≫= f) Q.
Proof. destruct x as [a|e|]; simpl; auto. Qed.

Lemma safe_weaken {A} (x : outcome A) (P Q : A → Prop) : safe x P → (∀ a, P a → Q a) → safe x Q.
Proof. destruct x as [a|e|]; simpl; auto. Qed.

Lemma safe_or_throw {A} c (x : outcome A) Q : safe x Q → safe (or_throw c x) Q.
Proof. by destruct x. Qed.

(** The offset after a decoder. *)
Definition within {A} (buf : string) (off : nat) (a : A * nat) : Prop := (off <= a.2)%nat ∧ (a.2 <= String.length buf)%nat.

Lemma in_bounds_safe {A} k buf off (x : outcome (A * nat)) : in_bounds k buf off x → safe x (within buf (off + k)).
Proof. by destruct x as [[v o]|e|]. Qed.

Lemma within_weaken {A} buf off off' (a : A * nat) : (off' <= off)%nat → within buf off a → within buf off' a.
Proof. unfold within. lia. Qed.

Lemma slice_from_safe buf off Q : (off <= String.length buf)%nat → Q (drop_bytes off buf) → safe (slice_from buf off) Q.
Proof. intros H HQ. unfold slice_from. apply Nat.leb_le in H. by rewrite H. Qed.

(** The offset is in the buffer. *)
Definition inside {A} (buf : string) (a : A * nat) : Prop := (a.2 <= String.length buf)%nat.

Lemma decode_pk_properties_safe pk buf off : (off <= String.length buf)%nat →
  safe (decode_pk_properties pk buf off) (λ '(pk', off'), (off' <= String.length buf)%nat ∧
    pkFixedHeader pk' = pkFixedHeader pk).
Proof.
  intros Hoff. unfold decode_pk_properties. eapply safe_bind; [apply (slice_from_safe buf off (eq (drop_bytes off buf))); done|].
  intros b <-. eapply safe_bind; [apply safe_or_throw|].
  - instantiate (1 := λ '(_, n), (n <= String.length buf - off)%nat).
    pose proof (Properties_Decode_bounds (pkType pk) (drop_bytes off buf) (pkProperties pk)) as H.
    rewrite drop_bytes_length in H. destruct (Properties_Decode _ _ _) as [[p n]|e|]; simpl in *; [lia|done..].
  - intros [p n] Hn. simpl. split; [lia|done].
Qed.

Lemma decode_v5_properties_safe pk buf off : (off <= String.length buf)%nat →
  safe (decode_v5_properties pk buf off) (λ '(pk', off'), (off' <= String.length buf)%nat ∧
    pkFixedHeader pk' = pkFixedHeader pk).
Proof.
  intros Hoff. unfold decode_v5_properties. destruct (is_v5 pk); [by apply decode_pk_properties_safe|done].
Qed.

#[export] Hint Resolve decodeByteBool_bounds : codec.

(** A step of a packet decoder that reads a value. *)
Ltac read_step :=
  eapply safe_bind;
    [apply safe_or_throw; eapply in_bounds_safe; eauto with codec|];
  let v := fresh "v" in let o := fresh "o" in let Ho := fresh "Ho" in
  intros [v o] Ho; unfold within in Ho; simpl in Ho.

Lemma decode_filters_safe fuel v5 ids buf off fs : (String.length buf - off < fuel)%nat →
  safe (decode_filters fuel v5 ids buf off fs) (λ fs', ∃ new, fs' = fs ++ new ∧ Forall (λ s, Qos s <= 2)%N new).
Proof.
  revert off fs. induction fuel as [|fuel IH]; intros off fs Hf; [lia|]. cbn [decode_filters].
  destruct (Nat.ltb_spec off (String.length buf)); [|exists []; by rewrite app_nil_r].
  read_step. read_step.
  match goal with |- safe (if (2 <? Qos ?s)%N then _ else _) _ => generalize s; intros sub end.
  destruct (N.ltb_spec 2 (Qos sub)) as [|Hq]; [done|]. eapply safe_weaken; [apply IH; lia|].
  intros fs' (new & -> & Hnew). exists (sub :: new). rewrite <-app_assoc. split; [done|]. by constructor.
Qed.

Lemma decode_topics_safe fuel buf off fs : (String.length buf - off < fuel)%nat → safe (decode_topics fuel buf off fs) (λ _, True).
Proof.
  revert off fs. induction fuel as [|fuel IH]; intros off fs Hf; [lia|]. cbn [decode_topics].
  destruct (Nat.ltb_spec off (String.length buf)); [|done]. read_step. apply IH. lia.
Qed.

Lemma decode_will_safe pk buf off : (off <= String.length buf)%nat →
  safe (decode_will pk buf off) (λ '(pk', off'), (off' <= String.length buf)%nat ∧ pkFixedHeader pk' = pkFixedHeader pk).
Proof.
  intros Hoff. unfold decode_will.
  eapply (safe_bind _ _ (λ '(_, o), (o <= String.length buf)%nat)).
  - destruct (is_v5 pk); [|done].
    eapply safe_bind; [apply (slice_from_safe buf off (eq (drop_bytes off buf))); done|]. intros b <-.
    eapply (safe_bind _ _ (λ '(_, n), (n <= String.length buf - off)%nat)); [apply safe_or_throw|].
    + pose proof (Properties_Decode_bounds WillPropertiesType (drop_bytes off buf) (cpWillProperties (pkConnect pk))) as H.
      rewrite drop_bytes_length in H. destruct (Properties_Decode _ _ _) as [[p n]|e|]; simpl in *; [lia|done..].
    + intros [p n] Hn. simpl. lia.
  - intros [c o] Ho. read_step. read_step. simpl. split; [lia|done].
Qed.

(** The header of the packet stays. *)
Definition keeps_header (pk pk' : Packet) : Prop := pkFixedHeader pk' = pkFixedHeader pk.

Ltac props_step lem :=
  eapply safe_bind; [apply lem; lia|];
  let pk := fresh "pk" in let o := fresh "o" in let Ho := fresh "Ho" in let Hfh := fresh "Hfh" in
  intros [pk o] [Ho Hfh]; simpl in Hfh.

Lemma ConnectDecode_safe pk buf : safe (ConnectDecode pk buf) (keeps_header pk).
Proof.
  unfold ConnectDecode, keeps_header. read_step. read_step. read_step. read_step.
  props_step decode_v5_properties_safe. read_step.
  eapply (safe_bind _ _ (λ '(pk', o), (o <= String.length buf)%nat ∧ pkFixedHeader pk' = pkFixedHeader pk)).
  { destruct (cpWillFlag _); [|simpl; split; [lia|done]]. eapply safe_weaken; [apply decode_will_safe; lia|].
    intros [pk' o'] [? E]. simpl in E. split; [done|congruence]. }
  intros [pkw ow] [How Hfhw].
  eapply (safe_bind _ _ (λ '(pk', o), (o <= String.length buf)%nat ∧ pkFixedHeader pk' = pkFixedHeader pk)).
  { destruct (cpUsernameFlag _); [|done]. destruct (Nat.leb_spec (String.length buf) ow); [done|]. read_step.
    split; [lia|done]. }
  intros [pku ou] [Hou Hfhu]. destruct (cpPasswordFlag _); [|done]. read_step. done.
Qed.

Lemma decode_body_safe pk px : safe (decode_body pk px) (keeps_header pk).
Proof.
  unfold decode_body, keeps_header. destruct (_ =? Connect)%N; [apply ConnectDecode_safe|].
  destruct (_ =? Disconnect)%N.
  { unfold DisconnectDecode. destruct (is_v5 pk && _); [|done]. read_step. destruct (2 <? _)%N; [|done].
    props_step decode_pk_properties_safe. done. }
  destruct (_ =? Connack)%N; [unfold ConnackDecode; read_step; read_step; by props_step decode_v5_properties_safe|].
  destruct (_ =? Publish)%N.
  { unfold PublishDecode. read_step.
    eapply (safe_bind _ _ (λ '(pk', o), (o <= String.length px)%nat ∧ pkFixedHeader pk' = pkFixedHeader pk)).
    { destruct (0 <? _)%N; [|simpl; split; [lia|done]]. read_step. split; [lia|done]. }
    intros [pki oi] [Hoi Hfhi]. props_step decode_v5_properties_safe.
    eapply safe_bind; [apply (slice_from_safe _ _ (λ _, True)); done|]. intros b _. simpl. congruence. }
  destruct (_ || _).
  { unfold decodePubAckRelRecComp. read_step. destruct (is_v5 _ && _); [|done]. read_step. destruct (3 <? _)%N; [|done].
    props_step decode_pk_properties_safe. done. }
  destruct (_ =? Subscribe)%N.
  { unfold SubscribeDecode. read_step. props_step decode_v5_properties_safe.
    eapply safe_bind; [eapply decode_filters_safe; lia|]. intros fs _. done. }
  destruct (_ =? Suback)%N.
  { unfold SubackDecode. read_step. props_step decode_v5_properties_safe.
    eapply safe_bind; [apply (slice_from_safe _ _ (λ _, True)); done|]. done. }
  destruct (_ =? Unsubscribe)%N.
  { unfold UnsubscribeDecode. read_step. props_step decode_v5_properties_safe.
    eapply safe_bind; [eapply decode_topics_safe; lia|]. intros fs _. done. }
  destruct (_ =? Unsuback)%N.
  { unfold UnsubackDecode. read_step. destruct (is_v5 _); [|done]. props_step decode_pk_properties_safe.
    eapply safe_bind; [apply (slice_from_safe _ _ (λ _, True)); done|]. done. }
  destruct (_ || _); [done|]. destruct (_ =? Auth)%N; [|done].
  unfold AuthDecode. read_step. props_step decode_pk_properties_safe. done.
Qed.

Lemma take_drop_bytes n s : (n <= String.length s)%nat → take_bytes n s +:+ drop_bytes n s = s.
Proof.
  revert s. induction n as [|n IH]; intros [|c s]; simpl; intros; [done..|lia|]. rewrite string_app_cons, IH by lia. done.
Qed.

Lemma ReadFixedHeader_safe maxSize conn :
  safe (ReadFixedHeader maxSize conn) (λ '(fh, rest), header_ok fh = true ∧ (fhRemaining fh <= 268435455)%N ∧
    ((0 < maxSize)%N → (fhRemaining fh < maxSize)%N) ∧
    ∃ used, conn = used +:+ rest ∧ (2 <= String.length used)%nat).
Proof.
  destruct conn as [|c conn]; [done|]. unfold ReadFixedHeader.
  eapply (safe_bind _ _ (λ fh, header_ok fh = true)).
  { destruct (FixedHeader_Decode _ _) as [fh|e|] eqn:E; [|done|].
    - by eapply FixedHeader_Decode_ok in E as [? _]; [|apply N_of_ascii_lt].
    - exfalso. revert E. unfold FixedHeader_Decode, mbind, outcome_bind. cbv zeta. repeat case_goal; simplify_eq/=; done. }
  intros fh Hok. pose proof (DecodeLength_bounds conn) as H.
  destruct (DecodeLength conn) as [[[n bu] rest]|e|]; [|done..]. destruct H as (Hn & used & -> & -> & Hpos). simpl.
  rewrite N.mod_small by (change (2 ^ 32)%N with 4294967296%N; lia).
  destruct (N.ltb_spec 0 maxSize), (N.ltb_spec maxSize (n + 1)); simpl; try done;
    (split_and!; [by destruct fh|done|lia|exists (String c used); split; [by str_cons|simpl; lia]]).
Qed.

Lemma string_app_assoc' (a b c : string) : (a +:+ b) +:+ c = a +:+ (b +:+ c).
Proof. by rewrite string_app_assoc. Qed.

(** ** Specification: what arrives *)

Definition wire_pk_properties (pk : Packet) (n : nat) : Properties :=
  wire_properties (pkType pk) (pkMods pk) n (pkProperties pk).

(** The properties of an MQTT 5 packet, none before. *)
Definition v5_properties (pk : Packet) (n : nat) : Properties := if is_v5 pk then wire_pk_properties pk n else no_properties.

Definition wire_connect (pk : Packet) : ConnectParams :=
  let c := pkConnect pk in
  mkConnectParams
    (if cpWillFlag c && is_v5 pk then wire_properties WillPropertiesType (pkMods pk) 0 (cpWillProperties c) else no_properties)
    (if cpPasswordFlag c then cpPassword c else "") (if cpUsernameFlag c then cpUsername c else "")
    (cpProtocolName c) (if cpWillFlag c then cpWillPayload c else "") (cpClientIdentifier c)
    (if cpWillFlag c then cpWillTopic c else "") (cpKeepalive c) (cpPasswordFlag c) (cpUsernameFlag c) (cpWillQos c)
    (cpWillFlag c) (cpWillRetain c) (cpClean c).

(** A subscription with the options of the protocol version, and the
    subscription identifier of the packet. *)
Definition wire_filter (v5 : bool) (ids : list Z) (s : Subscription) : Subscription :=
  mkSubscription (Filter s) (default 0%Z (head ids)) None (if v5 then RetainHandling s else 0%N) (Qos s)
    (v5 && RetainAsPublished s) (v5 && NoLocal s).

(** A packet as its receiver sees it: the fields of its type. [remaining] is the
    length of the encoded packet after the fixed header. *)
Definition wire_packet (pk : Packet) (remaining : N) : Packet :=
  let base := no_packet <| pkProtocolVersion := pkProtocolVersion pk |>
                        <| pkFixedHeader := (pkFixedHeader pk) <| fhRemaining := remaining |> |> in
  let t := pkType pk in
  if (t =? Connect)%N then base <| pkConnect := wire_connect pk |> <| pkProperties := v5_properties pk 0 |>
  else if (t =? Connack)%N then
    base <| pkSessionPresent := pkSessionPresent pk |> <| pkReasonCode := pkReasonCode pk |>
         <| pkProperties := v5_properties pk 4 |>
  else if (t =? Publish)%N then
    base <| pkTopicName := pkTopicName pk |> <| pkPacketID := if (0 <? pkQoS pk)%N then pkPacketID pk else 0%N |>
         <| pkProperties := v5_properties pk (String.length (encodeString (pkTopicName pk) +:+
                                                             if (0 <? pkQoS pk)%N then encodeUint16 (pkPacketID pk) else "") +
                                              String.length (pkPayload pk)) |>
         <| pkPayload := pkPayload pk |>
  else if (t =? Puback)%N || (t =? Pubrec)%N || (t =? Pubrel)%N || (t =? Pubcomp)%N then
    let has_properties := (1 <? String.length (encode_properties pk 2))%nat in
    base <| pkPacketID := pkPacketID pk |>
         <| pkReasonCode := if is_v5 pk && ((128 <=? pkReasonCode pk)%N || has_properties) then pkReasonCode pk else 0%N |>
         <| pkProperties := if is_v5 pk && has_properties then wire_pk_properties pk 2 else no_properties |>
  else if (t =? Subscribe)%N then
    let props := v5_properties pk (2 + String.length (encode_filters pk)) in
    base <| pkPacketID := pkPacketID pk |> <| pkProperties := props |>
         <| pkFilters := wire_filter (is_v5 pk) (SubscriptionIdentifier props) <$> pkFilters pk |>
  else if (t =? Suback)%N then
    base <| pkPacketID := pkPacketID pk |> <| pkReasonCodes := pkReasonCodes pk |>
         <| pkProperties := v5_properties pk (2 + String.length (pkReasonCodes pk)) |>
  else if (t =? Unsubscribe)%N then
    base <| pkPacketID := pkPacketID pk |>
         <| pkProperties := v5_properties pk (2 + String.length (encode_topics pk)) |>
         <| pkFilters := (λ s, filter_subscription (Filter s)) <$> pkFilters pk |>
  else if (t =? Unsuback)%N then
    base <| pkPacketID := pkPacketID pk |> <| pkProperties := v5_properties pk 2 |>
         <| pkReasonCodes := if is_v5 pk then pkReasonCodes pk else "" |>
  else if (t =? Disconnect)%N then
    base <| pkReasonCode := if is_v5 pk then pkReasonCode pk else 0%N |> <| pkProperties := v5_properties pk 1 |>
  else if (t =? Auth)%N then base <| pkReasonCode := pkReasonCode pk |> <| pkProperties := wire_pk_properties pk 1 |>
  else base.

(** Packets that fit the wire: widths of the Go types, strings in UTF-8 and of
    at most 65535 bytes, a packet ID where one is required. *)
Record wf_packet (pk : Packet) : Prop := {
  wf_header : header_ok (pkFixedHeader pk) = true;
  wf_type : (1 <= pkType pk)%N;
  wf_version : (pkProtocolVersion pk < 256)%N;
  wf_props : wf_properties (pkProperties pk);
  wf_will_props : wf_properties (cpWillProperties (pkConnect pk));
  wf_connect_strings : Forall wire_string [cpClientIdentifier (pkConnect pk); cpWillTopic (pkConnect pk); pkTopicName pk];
  wf_connect_bytes : Forall wire_bytes [cpProtocolName (pkConnect pk); cpWillPayload (pkConnect pk); cpUsername (pkConnect pk);
                                        cpPassword (pkConnect pk)];
  wf_keepalive : (cpKeepalive (pkConnect pk) < 65536)%N;
  wf_will_qos : (cpWillQos (pkConnect pk) < 4)%N;
  wf_id : (pkPacketID pk < 65536)%N;
  wf_has_id : pkType pk = Subscribe ∨ pkType pk = Unsubscribe ∨ (pkType pk = Publish ∧ (0 < pkQoS pk)%N) → pkPacketID pk ≠ 0%N;
  wf_reason : (pkReasonCode pk < 256)%N;
  wf_filters : Forall (λ s, wire_string (Filter s) ∧ (Qos s <= 2)%N ∧ (RetainHandling s < 4)%N) (pkFilters pk);
  wf_ping : pkType pk = Pingreq ∨ pkType pk = Pingresp → fhRemaining (pkFixedHeader pk) = 0%N;
}.

(** ** Specification: packets that arrive as they are *)

(** The properties by their numbers, with whether they are set. *)
Definition set_properties (p : Properties) : list (N * bool) :=
  [(PropPayloadFormat, PayloadFormatFlag p); (PropMessageExpiryInterval, (0 <? MessageExpiryInterval p)%N);
   (PropContentType, negb (String.eqb (ContentType p) "")); (PropResponseTopic, negb (String.eqb (ResponseTopic p) ""));
   (PropCorrelationData, negb (String.eqb (CorrelationData p) "")); (PropSubscriptionIdentifier, bool_decide (SubscriptionIdentifier p ≠ []));
   (PropSessionExpiryInterval, SessionExpiryIntervalFlag p); (PropAssignedClientID, negb (String.eqb (AssignedClientID p) ""));
   (PropServerKeepAlive, ServerKeepAliveFlag p); (PropAuthenticationMethod, negb (String.eqb (AuthenticationMethod p) ""));
   (PropAuthenticationData, negb (String.eqb (AuthenticationData p) "")); (PropRequestProblemInfo, RequestProblemInfoFlag p);
   (PropWillDelayInterval, (0 <? WillDelayInterval p)%N); (PropRequestResponseInfo, (0 <? RequestResponseInfo p)%N);
   (PropResponseInfo, negb (String.eqb (ResponseInfo p) "")); (PropServerReference, negb (String.eqb (ServerReference p) ""));
   (PropReasonString, negb (String.eqb (ReasonString p) "")); (PropReceiveMaximum, ReceiveMaximumFlag p);
   (PropTopicAliasMaximum, (0 <? TopicAliasMaximum p)%N); (PropTopicAlias, TopicAliasFlag p); (PropMaximumQos, MaximumQosFlag p);
   (PropRetainAvailable, RetainAvailableFlag p); (PropUser, bool_decide (User p ≠ [])); (PropMaximumPacketSize, MaximumPacketSizeFlag p);
   (PropWildcardSubAvailable, WildcardSubAvailableFlag p); (PropSubIDAvailable, SubIDAvailableFlag p);
   (PropSharedSubAvailable, SharedSubAvailableFlag p)].

(** The values that have a flag of their own. *)
Definition flagged (p : Properties) : list (bool * N) :=
  [(PayloadFormatFlag p, PayloadFormat p); (SessionExpiryIntervalFlag p, SessionExpiryInterval p); (ServerKeepAliveFlag p, ServerKeepAlive p);
   (RequestProblemInfoFlag p, RequestProblemInfo p); (MaximumQosFlag p, MaximumQos p); (RetainAvailableFlag p, RetainAvailable p);
   (WildcardSubAvailableFlag p, WildcardSubAvailable p); (SubIDAvailableFlag p, SubIDAvailable p); (SharedSubAvailableFlag p, SharedSubAvailable p)].

(** Properties that MQTT 5 allows on a packet of type [pkt]: each that is set is
    one of that type, values and flags agree, and no value is one that the protocol
    forbids (an alias or a limit of zero, a maximum QoS of 2, a subscription
    identifier of zero, a response topic with wildcards). *)
Record proper_properties (pkt : N) (p : Properties) : Prop := {
  pp_valid : Forall (λ '(k, set), set = true → canEncode pkt k = true) (set_properties p);
  pp_flagged : Forall (λ '(flag, v), flag = false → v = 0%N) (flagged p);
  pp_nonzero : Forall (λ '(flag, v), flag = (0 <? v)%N)
    [(ReceiveMaximumFlag p, ReceiveMaximum p); (MaximumPacketSizeFlag p, MaximumPacketSize p); (TopicAliasFlag p, TopicAlias p)];
  pp_qos : (MaximumQos p < 2)%N;
  pp_ids : Forall (λ v, (0 < v)%Z) (SubscriptionIdentifier p);
  pp_topic : contains_byte "+" (ResponseTopic p) || contains_byte "#" (ResponseTopic p) = false;
}.

(** What a packet says, by its type: the fields that MQTT gives it. *)
Inductive content : Type :=
  | CConnect (c : ConnectParams) (p : Properties)
  | CConnack (sessionPresent : bool) (code : N) (p : Properties)
  | CPublish (dup retain : bool) (qos : N) (topic : string) (id : N) (payload : string) (p : Properties)
  | CAck (id code : N) (p : Properties)
  | CSubscribe (id : N) (filters : list (string * N * N * bool * bool)) (p : Properties)
  | CUnsubscribe (id : N) (filters : list string) (p : Properties)
  | CCodes (id : N) (codes : string) (p : Properties)
  | CReason (code : N) (p : Properties)
  | CPing.

Definition is_ack (t : N) : bool := (t =? Puback)%N || (t =? Pubrec)%N || (t =? Pubrel)%N || (t =? Pubcomp)%N.

Definition content_of (pk : Packet) : content :=
  let t := pkType pk in
  let p := pkProperties pk in
  if (t =? Connect)%N then CConnect (pkConnect pk) p
  else if (t =? Connack)%N then CConnack (pkSessionPresent pk) (pkReasonCode pk) p
  else if (t =? Publish)%N then
    CPublish (fhDup (pkFixedHeader pk)) (fhRetain (pkFixedHeader pk)) (pkQoS pk) (pkTopicName pk) (pkPacketID pk) (pkPayload pk) p
  else if is_ack t then CAck (pkPacketID pk) (pkReasonCode pk) p
  else if (t =? Subscribe)%N then
    CSubscribe (pkPacketID pk) ((λ s, (Filter s, Qos s, RetainHandling s, RetainAsPublished s, NoLocal s)) <$> pkFilters pk) p
  else if (t =? Unsubscribe)%N then CUnsubscribe (pkPacketID pk) (Filter <$> pkFilters pk) p
  else if (t =? Suback)%N || (t =? Unsuback)%N then CCodes (pkPacketID pk) (pkReasonCodes pk) p
  else if (t =? Disconnect)%N || (t =? Auth)%N then CReason (pkReasonCode pk) p
  else CPing.

(** Packets that lose nothing on the wire. The fields that only MQTT 5 has, and those
    a flag announces, are set only then; properties are proper, and the connection
    neither limits packets nor declined response or problem information. An
    acknowledgement of MQTT 5 has a reason code that the encoder writes: zero, an
    error, or any if there are properties. *)
Record plain_packet (pk : Packet) : Prop := {
  pl_mods : pkMods pk = mkMods 0 false true;
  pl_props : if is_v5 pk || (pkType pk =? Auth)%N then proper_properties (pkType pk) (pkProperties pk) else pkProperties pk = no_properties;
  pl_will_props : if is_v5 pk && cpWillFlag (pkConnect pk) then proper_properties WillPropertiesType (cpWillProperties (pkConnect pk))
                  else cpWillProperties (pkConnect pk) = no_properties;
  pl_will : cpWillFlag (pkConnect pk) = false → cpWillTopic (pkConnect pk) = "" ∧ cpWillPayload (pkConnect pk) = "";
  pl_username : cpUsernameFlag (pkConnect pk) = false → cpUsername (pkConnect pk) = "";
  pl_password : cpPasswordFlag (pkConnect pk) = false → cpPassword (pkConnect pk) = "";
  pl_id : pkType pk = Publish → pkQoS pk = 0%N → pkPacketID pk = 0%N;
  pl_options : pkType pk = Subscribe → is_v5 pk = false →
    Forall (λ s, RetainHandling s = 0%N ∧ RetainAsPublished s = false ∧ NoLocal s = false) (pkFilters pk);
  pl_codes : pkType pk = Unsuback → is_v5 pk = false → pkReasonCodes pk = "";
  pl_reason : pkType pk = Disconnect ∨ is_ack (pkType pk) = true → is_v5 pk = false → pkReasonCode pk = 0%N;
  pl_ack : is_ack (pkType pk) = true → is_v5 pk = true →
    pkReasonCode pk = 0%N ∨ (128 <= pkReasonCode pk)%N ∨ pkProperties pk ≠ no_properties;
}.

(** ** Lemmas: plain packets *)

Lemma keep_string (b : bool) (v : string) : (negb (String.eqb v "") = true → b = true) → (if b then v else "") = v.
Proof. destruct b; [done|]. destruct (String.eqb_spec v ""); [done|]. intros H. by discriminate H. Qed.

Lemma keep_number (b : bool) (v : N) : ((0 <? v)%N = true → b = true) → (if b then v else 0%N) = v.
Proof. destruct b; [done|]. destruct (N.ltb_spec 0 v); [intros H'; by discriminate H'|intros _; lia]. Qed.

Lemma keep_list {A} `{EqDecision A} (b : bool) (v : list A) : (bool_decide (v ≠ []) = true → b = true) → (if b then v else []) = v.
Proof. destruct b; [done|]. destruct v; [done|]. intros H. by discriminate H. Qed.

Lemma keep_flag (b flag : bool) : (flag = true → b = true) → b && flag = flag.
Proof. destruct b, flag; naive_solver. Qed.

Lemma keep_flagged (b flag : bool) (v : N) : (flag = true → b = true) → (flag = false → v = 0%N) → (if b && flag then v else 0%N) = v.
Proof. intros -> %keep_flag. destruct flag; [done|]. intros ->; done. Qed.

Lemma keep_positive (vs : list Z) : Forall (λ v, (0 < v)%Z) vs → List.filter (λ v, 0 <? v)%Z vs = vs.
Proof. induction 1 as [|v vs Hv _ IH]; [done|]. cbn. destruct (Z.ltb_spec 0 v); [by rewrite IH|lia]. Qed.

(** Proper properties arrive as they are. *)
Lemma proper_properties_wire pkt n p : proper_properties pkt p → wire_properties pkt (mkMods 0 false true) n p = p.
Proof.
  intros [Hv Hf Hz Hq Hi Ht]. destruct p. unfold set_properties, flagged in *. unfold wire_properties, fits.
  reduce_fields. cbn [AllowResponseInfo DisallowProblemInfo MaxSize N.eqb negb andb orb].
  repeat match goal with H : Forall _ (_ :: _) |- _ => apply Forall_cons in H as [? H] end. cbn beta iota in *.
  rewrite Ht, (keep_positive _ Hi). replace (MaximumQos <? 2)%N with true by (symmetry; by apply N.ltb_lt). cbn [negb]. rewrite !andb_true_r.
  subst. rewrite <-!(andb_assoc (canEncode pkt PropTopicAlias)), andb_diag.
  f_equal; first [by apply keep_string|by apply keep_number|by apply keep_list|by apply keep_flagged|by apply keep_flag|
    apply keep_flagged; [done|intros ?%N.ltb_ge; lia]].
Qed.

Lemma plain_v5_properties pk n : plain_packet pk → pkType pk ≠ Auth → v5_properties pk n = pkProperties pk.
Proof.
  intros Hp Ha. unfold v5_properties, wire_pk_properties. pose proof (pl_props pk Hp) as H. rewrite (pl_mods pk Hp).
  apply N.eqb_neq in Ha. rewrite Ha, orb_false_r in H. destruct (is_v5 pk); [by apply proper_properties_wire|done].
Qed.

Lemma plain_wire_connect pk : plain_packet pk → wire_connect pk = pkConnect pk.
Proof.
  intros Hp. unfold wire_connect. rewrite (pl_mods pk Hp). pose proof (pl_will_props pk Hp) as Hw.
  pose proof (pl_will pk Hp) as H1. pose proof (pl_username pk Hp) as H2. pose proof (pl_password pk Hp) as H3.
  rewrite andb_comm in Hw. destruct (pkConnect pk); cbn in *.
  f_equal; [|destruct cpPasswordFlag0; [done|by rewrite H3]|destruct cpUsernameFlag0; [done|by rewrite H2]|destruct cpWillFlag0; [done|by destruct H1]..].
  destruct (cpWillFlag0 && is_v5 pk); [by apply proper_properties_wire|done].
Qed.

Lemma plain_filters pk p : plain_packet pk → pkType pk = Subscribe →
  (λ s, (Filter s, Qos s, RetainHandling s, RetainAsPublished s, NoLocal s)) <$> (wire_filter (is_v5 pk) p <$> pkFilters pk) =
  (λ s, (Filter s, Qos s, RetainHandling s, RetainAsPublished s, NoLocal s)) <$> pkFilters pk.
Proof.
  intros Hp Ht. rewrite <-list_fmap_compose. apply list_fmap_ext. intros i s Hs. cbn. destruct (is_v5 pk) eqn:E; [done|].
  destruct (proj1 (Forall_lookup _ _) (pl_options pk Hp Ht E) i s Hs) as (-> & -> & ->). done.
Qed.

(** The reason code and the properties of an acknowledgement. *)
Lemma plain_ack pk : wf_packet pk → plain_packet pk → is_ack (pkType pk) = true →
  (if is_v5 pk && ((128 <=? pkReasonCode pk)%N || (1 <? String.length (encode_properties pk 2))%nat) then pkReasonCode pk else 0%N) = pkReasonCode pk ∧
  (if is_v5 pk && (1 <? String.length (encode_properties pk 2))%nat then wire_pk_properties pk 2 else no_properties) = pkProperties pk.
Proof.
  intros Hwf Hp Ha. assert (pkType pk ≠ Auth) as Hne by (intros E; by rewrite E in Ha).
  pose proof (plain_v5_properties pk 2 Hp Hne) as Hv. unfold v5_properties in Hv. pose proof (pl_ack pk Hp Ha) as Hr.
  pose proof (pl_reason pk Hp (or_intror Ha)) as H0. destruct (is_v5 pk) eqn:E; cbn [andb]; [|by rewrite H0].
  destruct (Nat.ltb_spec 1 (String.length (encode_properties pk 2))) as [|Hl]; [by rewrite orb_true_r|]. rewrite orb_false_r.
  apply (Properties_Encode_short _ _ _ _ (wf_props pk Hwf)) in Hl. unfold wire_pk_properties in Hv. rewrite Hl in Hv. split; [|done].
  destruct (N.leb_spec 128 (pkReasonCode pk)); [done|]. destruct (Hr eq_refl) as [->|[]]; [done|lia|by symmetry in Hv].
Qed.

Lemma plain_content pk n : wf_packet pk → plain_packet pk → content_of (wire_packet pk n) = content_of pk.
Proof.
  intros Hwf Hp. unfold content_of. assert (pkType (wire_packet pk n) = pkType pk) as ->.
  { unfold wire_packet. by repeat case_match. }
  pose proof (plain_v5_properties pk) as Hv. unfold wire_packet, is_ack.
  destruct (N.eqb_spec (pkType pk) Connect) as [E|_]; [cbn; rewrite plain_wire_connect, Hv by (done || by rewrite E); done|].
  destruct (N.eqb_spec (pkType pk) Connack) as [E|_]; [cbn; rewrite Hv by (done || by rewrite E); done|].
  destruct (N.eqb_spec (pkType pk) Publish) as [E|_].
  { cbn. rewrite Hv by (done || by rewrite E). pose proof (pl_id pk Hp E) as Hi. f_equal. destruct (N.ltb_spec 0 (pkQoS pk)); [done|].
    symmetry. apply Hi. lia. }
  destruct (is_ack (pkType pk)) eqn:E.
  { pose proof (plain_ack pk Hwf Hp E) as [H1 H2]. unfold is_ack in E. rewrite E. cbn -[Nat.ltb N.leb encode_properties is_v5 wire_pk_properties]. by rewrite H1, H2. }
  unfold is_ack in E. rewrite E.
  destruct (N.eqb_spec (pkType pk) Subscribe) as [E1|_]; [cbn; rewrite Hv by (done || by rewrite E1); by rewrite plain_filters|].
  destruct (N.eqb_spec (pkType pk) Suback) as [E1|_]; [rewrite E1; cbn; by rewrite Hv by (done || by rewrite E1)|].
  destruct (N.eqb_spec (pkType pk) Unsubscribe) as [E1|_].
  { cbn. rewrite Hv by (done || by rewrite E1). f_equal. rewrite <-list_fmap_compose. by apply list_fmap_ext. }
  destruct (N.eqb_spec (pkType pk) Unsuback) as [E1|_].
  { cbn. rewrite Hv by (done || by rewrite E1). f_equal. pose proof (pl_codes pk Hp E1). destruct (is_v5 pk); [done|]. symmetry. auto. }
  destruct (N.eqb_spec (pkType pk) Disconnect) as [E1|_].
  { cbn. rewrite Hv by (done || by rewrite E1). f_equal. pose proof (pl_reason pk Hp (or_introl E1)). destruct (is_v5 pk); [done|]. symmetry. auto. }
  destruct (N.eqb_spec (pkType pk) Auth) as [E1|_]; [|done]. cbn. f_equal. pose proof (pl_props pk Hp) as H.
  rewrite E1, orb_true_r in H. unfold wire_pk_properties. rewrite (pl_mods pk Hp), E1. by apply proper_properties_wire.
Qed.

(** ** Lemmas: the round trip *)

Lemma at_offset_nil buf off s : at_offset buf off s → at_offset buf off ("" +:+ s).
Proof. by rewrite string_app_nil_l. Qed.

Lemma header_ok_remaining fh r : header_ok (fh <| fhRemaining := r |>) = header_ok fh.
Proof. done. Qed.

Lemma header_byte_remaining fh r : header_byte (fh <| fhRemaining := r |>) = header_byte fh.
Proof. done. Qed.

(** Reading a header and a body: what is left is to decode the body. *)
Lemma read_with_header maxSize version fh body rest :
  header_ok fh = true → fhRemaining fh = N.of_nat (String.length body) → (fhRemaining fh <= 268435455)%N →
  (maxSize = 0 ∨ fhRemaining fh < maxSize)%N →
  read_packet maxSize version (FixedHeader_Encode fh +:+ body +:+ rest) =
  (pk ← decode_body (no_packet <| pkProtocolVersion := version |> <| pkFixedHeader := fh |>) body; Return (pk, rest)).
Proof.
  intros Hok Hr Hlen Hmax. destruct (FixedHeader_Decode_byte fh Hok) as [Hb Hd].
  assert (FixedHeader_Decode (header_byte fh) (new_header 0) = Return (fh <| fhRemaining := 0%N |>)) as Hd0.
  { assert (header_ok (fh <| fhRemaining := 0%N |>) = true) as Hok0 by done. by destruct (FixedHeader_Decode_byte _ Hok0). }
  unfold read_packet, ReadFixedHeader, FixedHeader_Encode, byte1. rewrite <-!string_app_assoc. str_cons. cbv iota.
  rewrite N_of_byte_of, N.mod_small, Hd0 by done. cbn [mbind outcome_bind].
  rewrite DecodeLength_encode by done. cbn [mbind outcome_bind].
  rewrite N.mod_small by (change (2 ^ 32)%N with 4294967296%N; lia).
  assert ((0 <? maxSize)%N && (maxSize <? fhRemaining fh + 1)%N = false) as ->.
  { apply andb_false_iff. destruct Hmax as [->|]; [by left|right]. apply N.ltb_ge. lia. }
  cbn [mbind outcome_bind]. assert (fh <| fhRemaining := 0%N |> <| fhRemaining := fhRemaining fh |> = fh) as -> by (by destruct fh).
  unfold ReadPacket. rewrite Hr, Nat2N.id, string_length_app.
  destruct (Nat.ltb_spec (String.length body + String.length rest) (String.length body)); [lia|].
  by rewrite take_bytes_app, drop_bytes_app.
Qed.

(** Properties of a packet under construction. *)
Lemma decode_pk_properties_enc pk0 pk n buf off rest :
  wf_properties (pkProperties pk0) → pkType pk = pkType pk0 → pkProperties pk = no_properties →
  (N.of_nat (String.length buf) <= 268435455)%N →
  at_offset buf off (encode_properties pk0 n +:+ rest) →
  decode_pk_properties pk buf off =
  Return (pk <| pkProperties := wire_pk_properties pk0 n |>, (off + String.length (encode_properties pk0 n))%nat).
Proof.
  intros Hwf Ht Hp Hlen Hat. unfold decode_pk_properties. rewrite (at_offset_slice _ _ _ Hat). cbn [mbind outcome_bind].
  rewrite Hp, Ht. unfold encode_properties. rewrite Properties_roundtrip; [done|done|].
  pose proof (at_offset_length _ _ _ Hat) as Hl. unfold encode_properties, Properties_Encode in Hl.
  rewrite !string_length_app in Hl. lia.
Qed.

Lemma decode_v5_properties_enc pk0 pk n buf off rest :
  wf_properties (pkProperties pk0) → pkType pk = pkType pk0 → pkProtocolVersion pk = pkProtocolVersion pk0 →
  pkProperties pk = no_properties → (N.of_nat (String.length buf) <= 268435455)%N →
  at_offset buf off ((if is_v5 pk0 then encode_properties pk0 n else "") +:+ rest) →
  decode_v5_properties pk buf off =
  Return (pk <| pkProperties := v5_properties pk0 n |>,
          (off + String.length (if is_v5 pk0 then encode_properties pk0 n else ""))%nat).
Proof.
  intros Hwf Ht Hv Hp Hlen Hat. unfold decode_v5_properties, v5_properties. unfold is_v5 at 1. rewrite Hv. fold (is_v5 pk0).
  destruct (is_v5 pk0).
  - by eapply decode_pk_properties_enc.
  - simpl. rewrite Nat.add_0_r. rewrite <-Hp. by destruct pk.
Qed.

Lemma length_encodeString s : String.length (encodeString s) = (2 + String.length s)%nat.
Proof. apply length_encodeBytes. Qed.

Lemma or_throw_return {A} c (x : outcome A) a : x = Return a → or_throw c x = Return a.
Proof. by intros ->. Qed.

(** Reading one value at the current offset of the goal's buffer. *)
Ltac next_offset Hat lem := apply at_offset_app in Hat; rewrite lem in Hat.

Ltac get_uint16 H :=
  match goal with Hat : at_offset ?buf ?off (encodeUint16 ?v +:+ ?rest) |- _ =>
    rewrite (or_throw_return _ _ _ (decodeUint16_enc v buf off rest H Hat)); cbn [mbind outcome_bind];
    next_offset Hat length_encodeUint16 end.

Ltac get_byte H :=
  match goal with Hat : at_offset ?buf ?off (byte1 ?v +:+ ?rest) |- _ =>
    rewrite (or_throw_return _ _ _ (decodeByte_enc v buf off rest H Hat)); cbn [mbind outcome_bind];
    next_offset Hat length_byte1 end.

Ltac get_bytes H :=
  match goal with Hat : at_offset ?buf ?off (encodeBytes ?v +:+ ?rest) |- _ =>
    rewrite (or_throw_return _ _ _ (decodeBytes_enc v buf off rest H Hat)); cbn [mbind outcome_bind];
    next_offset Hat length_encodeBytes end.

Ltac get_string H :=
  match goal with Hat : at_offset ?buf ?off (encodeString ?v +:+ ?rest) |- _ =>
    rewrite (or_throw_return _ _ _ (decodeString_enc v buf off rest (proj1 H) (proj2 H) Hat)); cbn [mbind outcome_bind];
    next_offset Hat length_encodeString end.

Ltac get_v5_properties pk Hwf Hlen :=
  match goal with Hat : at_offset ?buf ?off ((if is_v5 pk then encode_properties pk ?n else "") +:+ ?rest)
    |- context [decode_v5_properties ?pk1 _ _] =>
    rewrite (decode_v5_properties_enc pk pk1 n buf off rest Hwf eq_refl eq_refl eq_refl Hlen Hat); cbn [mbind outcome_bind];
    apply at_offset_app in Hat end.

Ltac get_pk_properties pk Hwf Hlen :=
  match goal with Hat : at_offset ?buf ?off (encode_properties pk ?n +:+ ?rest) |- context [decode_pk_properties ?pk1 _ _] =>
    rewrite (decode_pk_properties_enc pk pk1 n buf off rest Hwf eq_refl eq_refl Hlen Hat); cbn [mbind outcome_bind];
    apply at_offset_app in Hat end.

Lemma encode_properties_pos pk n : (0 < String.length (encode_properties pk n))%nat.
Proof.
  unfold encode_properties, Properties_Encode. rewrite string_length_app.
  pose proof (encodeLength_pos (N.of_nat (String.length (encode_body (pkType pk) (pkMods pk) n (pkProperties pk))))). lia.
Qed.

Lemma no_wire_properties pk n : wf_properties (pkProperties pk) → (String.length (encode_properties pk n) <= 1)%nat →
  wire_pk_properties pk n = no_properties.
Proof. unfold encode_properties, wire_pk_properties. apply Properties_Encode_short. Qed.

#[local] Opaque encode_properties wire_pk_properties.

(** The packet the decoder starts from. *)
Definition arriving (pk : Packet) (remaining : N) : Packet :=
  no_packet <| pkProtocolVersion := pkProtocolVersion pk |> <| pkFixedHeader := (pkFixedHeader pk) <| fhRemaining := remaining |> |>.

(** [body] follows the header of an encoded packet, and decodes to [out]. *)
Definition carries (enc : outcome string) (dec : Packet → string → outcome Packet) (pk : Packet) (out : N → Packet) : Prop :=
  ∃ body, enc = Return (with_header pk body) ∧
    ((N.of_nat (String.length body) <= 268435455)%N →
     dec (arriving pk (N.of_nat (String.length body))) body = Return (out (N.of_nat (String.length body)))).

(** Start decoding [body], known to be the string [x]. *)
Ltac start_decoding body Hlen Hat :=
  match goal with |- context [N.of_nat (String.length ?x)] => set (body := x) end;
  intros Hlen; pose proof (at_offset_zero body) as Hat; unfold body in Hat at 2; rewrite <-?string_app_assoc in Hat.

(** The length in the header of the packet being decoded. *)
Ltac see_remaining body :=
  match goal with |- context [fhRemaining (pkFixedHeader ?x)] =>
    change (fhRemaining (pkFixedHeader x)) with (N.of_nat (String.length body)) end.

(** The specification at a packet type. *)
Ltac at_type Ht := unfold wire_packet; rewrite Ht; cbn [N.eqb Pos.eqb Connect Connack Publish Puback Pubrec Pubrel Pubcomp Subscribe
  Suback Unsubscribe Unsuback Disconnect Auth orb].

Lemma PublishEncode_carries pk : wf_packet pk → pkType pk = Publish →
  carries (PublishEncode pk) PublishDecode pk (wire_packet pk).
Proof.
  intros Hwf Ht. unfold carries, PublishEncode.
  assert ((0 <? pkQoS pk)%N && (pkPacketID pk =? 0)%N = false) as ->.
  { destruct (N.ltb_spec 0 (pkQoS pk)), (N.eqb_spec (pkPacketID pk) 0); try done. exfalso. apply (wf_has_id pk Hwf); auto. }
  destruct (proj1 (Forall_cons _ _ _) (wf_connect_strings pk Hwf)) as [_ [_ [Htopic _]%Forall_cons]%Forall_cons].
  pose proof (wf_props pk Hwf) as Hp. pose proof (wf_id pk Hwf) as Hid.
  eexists. split; [reflexivity|]. start_decoding body Hlen Hat. unfold PublishDecode. get_string Htopic. at_type Ht.
  match goal with |- context [(0 <? pkQoS ?x)%N] => change (pkQoS x) with (pkQoS pk) end.
  destruct (0 <? pkQoS pk)%N; [get_uint16 Hid|rewrite string_app_nil_l in Hat; cbn [mbind outcome_bind]];
    get_v5_properties pk Hp Hlen; rewrite (at_offset_slice _ _ _ Hat); done.
Qed.

Lemma ConnackEncode_carries pk : wf_packet pk → pkType pk = Connack →
  carries (ConnackEncode pk) ConnackDecode pk (wire_packet pk).
Proof.
  intros Hwf Ht. unfold carries, ConnackEncode. pose proof (wf_props pk Hwf) as Hp. pose proof (wf_reason pk Hwf) as Hr.
  eexists. split; [reflexivity|]. start_decoding body Hlen Hat. unfold ConnackDecode. at_type Ht.
  assert (decodeByteBool body 0 = Return (pkSessionPresent pk, 1%nat)) as ->.
  { destruct Hat as [_ Hd]. unfold decodeByteBool. rewrite Hd. unfold byte1 at 1. str_cons.
    destruct body eqn:Eb; [by apply (f_equal String.length) in Eb|]. cbn. by destruct (pkSessionPresent pk). }
  cbn [or_throw mbind outcome_bind]. next_offset Hat length_byte1. get_byte Hr.
  rewrite <-(string_app_nil_r (if is_v5 pk then _ else _)) in Hat. get_v5_properties pk Hp Hlen. done.
Qed.

Lemma DisconnectEncode_carries pk : wf_packet pk → pkType pk = Disconnect →
  carries (DisconnectEncode pk) DisconnectDecode pk (wire_packet pk).
Proof.
  intros Hwf Ht. unfold carries, DisconnectEncode. pose proof (wf_props pk Hwf) as Hp. pose proof (wf_reason pk Hwf) as Hr.
  eexists. split; [reflexivity|]. start_decoding body Hlen Hat. unfold DisconnectDecode. at_type Ht.
  change (is_v5 (arriving _ _)) with (is_v5 pk). unfold v5_properties.
  destruct (is_v5 pk) eqn:E5; [|done]. cbn [andb]. see_remaining body.
  assert (String.length body = 1 + String.length (encode_properties pk 1))%nat as Hl by (unfold body; by rewrite string_length_app).
  pose proof (encode_properties_pos pk 1). destruct (N.ltb_spec 1 (N.of_nat (String.length body))); [|lia]. get_byte Hr.
  see_remaining body.
  destruct (N.ltb_spec 2 (N.of_nat (String.length body))).
  - rewrite <-(string_app_nil_r (encode_properties pk 1)) in Hat. by get_pk_properties pk Hp Hlen.
  - by rewrite no_wire_properties by (done || lia).
Qed.

Lemma AckEncode_carries pk : wf_packet pk → pkType pk = Puback ∨ pkType pk = Pubrec ∨ pkType pk = Pubrel ∨ pkType pk = Pubcomp →
  carries (encodePubAckRelRecComp pk) decodePubAckRelRecComp pk (wire_packet pk).
Proof.
  intros Hwf Ht. unfold carries, encodePubAckRelRecComp. pose proof (wf_props pk Hwf) as Hp.
  pose proof (wf_reason pk Hwf) as Hr. pose proof (wf_id pk Hwf) as Hid.
  eexists. split; [reflexivity|]. start_decoding body Hlen Hat. unfold decodePubAckRelRecComp.
  assert (∀ r, wire_packet pk r = (arriving pk r) <| pkPacketID := pkPacketID pk |>
    <| pkReasonCode := if is_v5 pk && ((128 <=? pkReasonCode pk)%N || (1 <? String.length (encode_properties pk 2))%nat)
                       then pkReasonCode pk else 0%N |>
    <| pkProperties := if is_v5 pk && (1 <? String.length (encode_properties pk 2))%nat then wire_pk_properties pk 2 else no_properties |>) as ->.
  { intros r. by destruct Ht as [Ht|[Ht|[Ht|Ht]]]; at_type Ht. }
  change (is_v5 (_ <| pkPacketID := _ |>)) with (is_v5 pk). rewrite length_encodeUint16 in *.
  destruct (is_v5 pk) eqn:E5; cbn [andb] in *;
    [|rewrite <-(string_app_nil_r (encodeUint16 _)) in Hat; by get_uint16 Hid].
  get_uint16 Hid. see_remaining body. set (L := String.length (encode_properties pk 2)) in *.
  assert (codeByte ErrUnspecifiedError = 128%N) as E128 by done. rewrite E128 in *.
  assert (String.length body = 2 + (if (128 <=? pkReasonCode pk)%N || (1 <? L)%nat then 1 else 0) + (if 1 <? L then L else 0))%nat as Hl.
  { unfold body. rewrite !string_length_app, length_encodeUint16. fold L. rewrite E128. destruct (_ || _), (1 <? L)%nat; rewrite ?length_byte1; simpl; lia. }
  destruct (Nat.ltb_spec 1 L) as [HL|HL]; [rewrite orb_true_r in *|rewrite orb_false_r in *].
  - destruct (N.ltb_spec 2 (N.of_nat (String.length body))); [|lia]. get_byte Hr.
    see_remaining body.
    destruct (N.ltb_spec 3 (N.of_nat (String.length body))); [|lia].
    rewrite <-(string_app_nil_r (encode_properties _ _)) in Hat. by get_pk_properties pk Hp Hlen.
  - destruct (128 <=? pkReasonCode pk)%N.
    + destruct (N.ltb_spec 2 (N.of_nat (String.length body))); [|lia]. get_byte Hr.
      see_remaining body.
      destruct (N.ltb_spec 3 (N.of_nat (String.length body))); [lia|done].
    + by destruct (N.ltb_spec 2 (N.of_nat (String.length body))); [lia|].
Qed.

Lemma SubackEncode_carries pk : wf_packet pk → pkType pk = Suback →
  carries (SubackEncode pk) SubackDecode pk (wire_packet pk).
Proof.
  intros Hwf Ht. unfold carries, SubackEncode. pose proof (wf_props pk Hwf) as Hp. pose proof (wf_id pk Hwf) as Hid.
  eexists. split; [reflexivity|]. start_decoding body Hlen Hat. unfold SubackDecode. at_type Ht. get_uint16 Hid.
  get_v5_properties pk Hp Hlen. by rewrite (at_offset_slice _ _ _ Hat).
Qed.

Lemma UnsubackEncode_carries pk : wf_packet pk → pkType pk = Unsuback →
  carries (UnsubackEncode pk) UnsubackDecode pk (wire_packet pk).
Proof.
  intros Hwf Ht. unfold carries, UnsubackEncode. pose proof (wf_props pk Hwf) as Hp. pose proof (wf_id pk Hwf) as Hid.
  eexists. split; [reflexivity|]. start_decoding body Hlen Hat. unfold UnsubackDecode. at_type Ht. get_uint16 Hid.
  change (is_v5 (_ <| pkPacketID := _ |>)) with (is_v5 pk). unfold v5_properties. destruct (is_v5 pk); [|done].
  get_pk_properties pk Hp Hlen. by rewrite (at_offset_slice _ _ _ Hat).
Qed.

Lemma AuthEncode_carries pk : wf_packet pk → pkType pk = Auth →
  carries (AuthEncode pk) AuthDecode pk (wire_packet pk).
Proof.
  intros Hwf Ht. unfold carries, AuthEncode. pose proof (wf_props pk Hwf) as Hp. pose proof (wf_reason pk Hwf) as Hr.
  eexists. split; [reflexivity|]. start_decoding body Hlen Hat. unfold AuthDecode. at_type Ht. get_byte Hr.
  rewrite <-(string_app_nil_r (encode_properties _ _)) in Hat. by get_pk_properties pk Hp Hlen.
Qed.

Lemma Subscription_options s : (Qos s <= 2)%N → (RetainHandling s < 4)%N →
  (Subscription_encode s < 256)%N ∧ Subscription_decode (Filter s) (Subscription_encode s) =
  mkSubscription (Filter s) 0 None (RetainHandling s) (Qos s) (RetainAsPublished s) (NoLocal s).
Proof.
  intros Hq Hh. unfold Subscription_encode, Subscription_decode. destruct s as [f i ids h q rap nl]; simpl in *.
  assert (q = 0 ∨ q = 1 ∨ q = 2)%N as Hq3 by lia. assert (h = 0 ∨ h = 1 ∨ h = 2 ∨ h = 3)%N as Hh4 by lia. clear Hq Hh.
  destruct Hq3 as [->|[->| ->]], Hh4 as [->|[->|[->| ->]]], rap, nl; split; reflexivity.
Qed.

Lemma filter_option_lt v5 s : (Qos s <= 2)%N → (RetainHandling s < 4)%N →
  ((if v5 : bool then Subscription_encode s else Qos s) < 256)%N.
Proof. intros Hq Hh. destruct v5; [by apply Subscription_options|lia]. Qed.

Lemma decode_filters_enc (v5 : bool) ids l : Forall (λ s, wire_string (Filter s) ∧ (Qos s <= 2)%N ∧ (RetainHandling s < 4)%N) l →
  ∀ fuel buf off acc, (String.length buf - off <= fuel)%nat →
  at_offset buf off (foldr (λ opts acc, encodeString (Filter opts) +:+
    byte1 (if v5 then Subscription_encode opts else Qos opts) +:+ acc) "" l) →
  decode_filters fuel v5 ids buf off acc = Return (acc ++ (wire_filter v5 ids <$> l)).
Proof.
  induction 1 as [|s l (Hf & Hq & Hh) _ IH]; intros fuel buf off acc Hfuel Hat; pose proof (at_offset_length _ _ _ Hat) as Hl.
  { simpl in Hl. rewrite app_nil_r. destruct fuel; simpl; (destruct (Nat.ltb_spec off (String.length buf)); [lia|done]). }
  cbn [foldr] in Hat, Hl. rewrite !string_length_app, length_encodeString in Hl.
  destruct fuel as [|fuel]; [lia|]. cbn [decode_filters]. destruct (Nat.ltb_spec off (String.length buf)); [|lia].
  get_string Hf. get_byte (filter_option_lt v5 s Hq Hh).
  set (sub := if v5 then _ else _). assert (sub = wire_filter v5 [] s) as ->.
  { unfold sub. destruct v5; [by apply Subscription_options|done]. }
  match goal with |- context [match ids with [] => ?a | _ :: _ => _ end] =>
    assert (match ids with [] => a | id :: _ => _ end = wire_filter v5 ids s) as -> by (by destruct ids) end.
  cbn [Qos wire_filter]. destruct (N.ltb_spec 2 (Qos s)); [lia|].
  erewrite IH; [|lia|exact Hat]. by rewrite <-app_assoc.
Qed.

Lemma decode_topics_enc l : Forall (λ s, wire_string (Filter s)) l →
  ∀ fuel buf off acc, (String.length buf - off <= fuel)%nat →
  at_offset buf off (foldr (λ sub acc, encodeString (Filter sub) +:+ acc) "" l) →
  decode_topics fuel buf off acc = Return (acc ++ ((λ s, filter_subscription (Filter s)) <$> l)).
Proof.
  induction 1 as [|s l Hf _ IH]; intros fuel buf off acc Hfuel Hat; pose proof (at_offset_length _ _ _ Hat) as Hl.
  { simpl in Hl. rewrite app_nil_r. destruct fuel; simpl; (destruct (Nat.ltb_spec off (String.length buf)); [lia|done]). }
  cbn [foldr] in Hat, Hl. rewrite !string_length_app, length_encodeString in Hl.
  destruct fuel as [|fuel]; [lia|]. cbn [decode_topics]. destruct (Nat.ltb_spec off (String.length buf)); [|lia].
  get_string Hf. erewrite IH; [|lia|exact Hat]. by rewrite <-app_assoc.
Qed.

Lemma SubscribeEncode_carries pk : wf_packet pk → pkType pk = Subscribe →
  carries (SubscribeEncode pk) SubscribeDecode pk (wire_packet pk).
Proof.
  intros Hwf Ht. unfold carries, SubscribeEncode. pose proof (wf_props pk Hwf) as Hp. pose proof (wf_id pk Hwf) as Hid.
  destruct (N.eqb_spec (pkPacketID pk) 0); [exfalso; apply (wf_has_id pk Hwf); auto|].
  eexists. split; [reflexivity|]. start_decoding body Hlen Hat. unfold SubscribeDecode. at_type Ht. get_uint16 Hid.
  get_v5_properties pk Hp Hlen.
  unfold encode_filters in Hat. rewrite (decode_filters_enc (is_v5 pk) _ (pkFilters pk) (wf_filters pk Hwf)); [done|lia|exact Hat].
Qed.

Lemma UnsubscribeEncode_carries pk : wf_packet pk → pkType pk = Unsubscribe →
  carries (UnsubscribeEncode pk) UnsubscribeDecode pk (wire_packet pk).
Proof.
  intros Hwf Ht. unfold carries, UnsubscribeEncode. pose proof (wf_props pk Hwf) as Hp. pose proof (wf_id pk Hwf) as Hid.
  destruct (N.eqb_spec (pkPacketID pk) 0); [exfalso; apply (wf_has_id pk Hwf); auto|].
  eexists. split; [reflexivity|]. start_decoding body Hlen Hat. unfold UnsubscribeDecode. at_type Ht. get_uint16 Hid.
  get_v5_properties pk Hp Hlen. unfold encode_topics in Hat.
  rewrite (decode_topics_enc (pkFilters pk)); [done| |lia|exact Hat]. eapply Forall_impl; [apply (wf_filters pk Hwf)|]. by intros s [? _].
Qed.

Lemma connect_flags_bits c : (cpWillQos c < 4)%N → let f := connect_flags c in
  (f < 256)%N ∧ N.land 1 f = 0%N ∧ flag_bit f 1 = cpClean c ∧ flag_bit f 2 = cpWillFlag c ∧ N.land 3 (N.shiftr f 3) = cpWillQos c ∧
  flag_bit f 5 = cpWillRetain c ∧ flag_bit f 6 = cpPasswordFlag c ∧ flag_bit f 7 = cpUsernameFlag c.
Proof.
  intros Hq. unfold connect_flags. generalize dependent (cpWillQos c). intros q Hq.
  assert (q = 0 ∨ q = 1 ∨ q = 2 ∨ q = 3)%N as H by lia. clear Hq.
  destruct H as [->|[->|[->| ->]]], (cpClean c), (cpWillFlag c), (cpWillRetain c), (cpPasswordFlag c), (cpUsernameFlag c);
    repeat split; reflexivity.
Qed.

Definition will_bytes (pk : Packet) : string :=
  let c := pkConnect pk in
  (if is_v5 pk then Properties_Encode WillPropertiesType (pkMods pk) 0 (cpWillProperties c) else "") +:+
  encodeString (cpWillTopic c) +:+ encodeBytes (cpWillPayload c).

Lemma decode_will_enc pk0 pk buf off rest : wf_packet pk0 → is_v5 pk = is_v5 pk0 →
  cpWillProperties (pkConnect pk) = no_properties → (N.of_nat (String.length buf) <= 268435455)%N →
  at_offset buf off (will_bytes pk0 +:+ rest) →
  decode_will pk buf off = Return (pk <| pkConnect := (pkConnect pk)
      <| cpWillProperties := if is_v5 pk0 then wire_properties WillPropertiesType (pkMods pk0) 0 (cpWillProperties (pkConnect pk0))
                             else no_properties |>
      <| cpWillTopic := cpWillTopic (pkConnect pk0) |> <| cpWillPayload := cpWillPayload (pkConnect pk0) |> |>,
    (off + String.length (will_bytes pk0))%nat).
Proof.
  intros Hwf Hv Hnp Hlen Hat. pose proof (wf_will_props pk0 Hwf) as Hp.
  pose proof (wf_connect_strings pk0 Hwf) as [_ [Htopic _]%Forall_cons]%Forall_cons.
  pose proof (wf_connect_bytes pk0 Hwf) as [_ [Hpay _]%Forall_cons]%Forall_cons.
  unfold decode_will. rewrite Hv, Hnp. unfold will_bytes in *. rewrite <-!string_app_assoc in Hat.
  rewrite !string_length_app, !Nat.add_assoc, length_encodeString, length_encodeBytes. destruct (is_v5 pk0).
  - rewrite (at_offset_slice _ _ _ Hat). cbn [mbind outcome_bind].
    pose proof (at_offset_length _ _ _ Hat) as Hl. unfold Properties_Encode in Hl. rewrite !string_length_app in Hl.
    rewrite Properties_roundtrip by (done || lia). cbn [or_throw mbind outcome_bind]. apply at_offset_app in Hat.
    get_string Htopic. by get_bytes Hpay.
  - cbn [mbind outcome_bind]. rewrite string_app_nil_l in Hat. cbn [String.length]. rewrite Nat.add_0_r.
    get_string Htopic. get_bytes Hpay. rewrite <-Hnp. by destruct pk as [[] ?].
Qed.

Definition credential_bytes (c : ConnectParams) : string :=
  (if cpUsernameFlag c then encodeBytes (cpUsername c) else "") +:+ (if cpPasswordFlag c then encodeBytes (cpPassword c) else "").

Lemma decode_credentials_enc c pk buf off : wire_bytes (cpUsername c) → wire_bytes (cpPassword c) →
  cpUsernameFlag (pkConnect pk) = cpUsernameFlag c → cpPasswordFlag (pkConnect pk) = cpPasswordFlag c →
  cpUsername (pkConnect pk) = "" → cpPassword (pkConnect pk) = "" → at_offset buf off (credential_bytes c) →
  decode_credentials pk buf off = Return (pk <| pkConnect := (pkConnect pk)
      <| cpUsername := if cpUsernameFlag c then cpUsername c else "" |>
      <| cpPassword := if cpPasswordFlag c then cpPassword c else "" |> |>).
Proof.
  intros Hu Hp Fu Fp Eu Ep Hat. unfold decode_credentials, credential_bytes in *. pose proof (at_offset_length _ _ _ Hat) as Hl.
  rewrite string_length_app in Hl. rewrite Fu. destruct pk as [[] ?]; simpl in *; subst.
  destruct (cpUsernameFlag c).
  - rewrite length_encodeBytes in Hl. destruct (Nat.leb_spec (String.length buf) off); [lia|]. get_bytes Hu.
    simpl. destruct (cpPasswordFlag c); [|done]. rewrite <-(string_app_nil_r (encodeBytes _)) in Hat. by get_bytes Hp.
  - simpl. rewrite string_app_nil_l in Hat.
    destruct (cpPasswordFlag c); [|done]. rewrite <-(string_app_nil_r (encodeBytes _)) in Hat. by get_bytes Hp.
Qed.

Lemma ConnectEncode_carries pk : wf_packet pk → pkType pk = Connect →
  carries (ConnectEncode pk) ConnectDecode pk (wire_packet pk).
Proof.
  intros Hwf Ht. unfold carries, ConnectEncode. fold (will_bytes pk).
  destruct (connect_flags_bits (pkConnect pk) (wf_will_qos pk Hwf)) as (Hf & B0 & B1 & B2 & B3 & B5 & B6 & B7).
  pose proof (wf_connect_strings pk Hwf) as [Hcid _]%Forall_cons.
  pose proof (wf_connect_bytes pk Hwf) as [Hname [_ [Huser [Hpass _]%Forall_cons]%Forall_cons]%Forall_cons]%Forall_cons.
  pose proof (wf_props pk Hwf) as Hp. eexists. split; [reflexivity|]. start_decoding body Hlen Hat. unfold ConnectDecode. at_type Ht.
  get_bytes Hname. get_byte (wf_version pk Hwf). get_byte Hf. get_uint16 (wf_keepalive pk Hwf). rewrite B0, B1, B2, B3, B5, B6, B7.
  get_v5_properties pk Hp Hlen. get_string Hcid.
  clearbody body. set (mid := λ c, (arriving pk (N.of_nat (String.length body))) <| pkProperties := v5_properties pk 0 |> <| pkConnect := c |>).
  set (c := pkConnect pk) in *.
  match goal with |- context [cpWillFlag (pkConnect ?x)] => change x with (mid (mkConnectParams no_properties "" "" (cpProtocolName c) ""
    (cpClientIdentifier c) "" (cpKeepalive c) (cpPasswordFlag c) (cpUsernameFlag c) (cpWillQos c) (cpWillFlag c) (cpWillRetain c)
    (cpClean c))) end.
  change (cpWillFlag (pkConnect (mid _))) with (cpWillFlag c). unfold wire_connect. fold c.
  destruct (cpWillFlag c); [|rewrite string_app_nil_l in Hat].
  - match goal with |- context [decode_will ?x _ _] => rewrite (decode_will_enc pk x _ _ _ Hwf eq_refl eq_refl Hlen Hat) end.
    cbn [mbind outcome_bind]. apply at_offset_app in Hat.
    match goal with |- context [decode_credentials ?x _ _] =>
      by rewrite (decode_credentials_enc c x _ _ Huser Hpass eq_refl eq_refl eq_refl eq_refl Hat) end.
  - cbn [mbind outcome_bind]. match goal with |- context [decode_credentials ?x _ _] =>
      by rewrite (decode_credentials_enc c x _ _ Huser Hpass eq_refl eq_refl eq_refl eq_refl Hat) end.
Qed.

Lemma encode_packet_carries pk : wf_packet pk → carries (encode_packet pk) decode_body pk (wire_packet pk).
Proof.
  intros Hwf. unfold encode_packet, carries, decode_body. change (pkType (arriving pk _)) with (pkType pk).
  pose proof (wf_header pk Hwf) as Hh. pose proof (wf_type pk Hwf) as Ht1. cbv zeta.
  destruct (N.eqb_spec (pkType pk) Connect); [by apply ConnectEncode_carries|].
  destruct (N.eqb_spec (pkType pk) Connack) as [E|]; [rewrite E; by apply ConnackEncode_carries|].
  destruct (N.eqb_spec (pkType pk) Publish) as [E|]; [rewrite E; by apply PublishEncode_carries|].
  destruct (_ || _) eqn:E.
  { assert (pkType pk ≠ Disconnect) as ->%N.eqb_neq by (intros E'; by rewrite E' in E).
    apply AckEncode_carries; [done|]. apply orb_true_iff in E as [[[E|E]%orb_true_iff|E]%orb_true_iff|E]; apply N.eqb_eq in E; auto. }
  apply orb_false_iff in E as [[[A1%N.eqb_neq A2%N.eqb_neq]%orb_false_iff A3%N.eqb_neq]%orb_false_iff A4%N.eqb_neq].
  destruct (N.eqb_spec (pkType pk) Subscribe) as [E|]; [rewrite E; by apply SubscribeEncode_carries|].
  destruct (N.eqb_spec (pkType pk) Suback) as [E|]; [rewrite E; by apply SubackEncode_carries|].
  destruct (N.eqb_spec (pkType pk) Unsubscribe) as [E|]; [rewrite E; by apply UnsubscribeEncode_carries|].
  destruct (N.eqb_spec (pkType pk) Unsuback) as [E|]; [rewrite E; by apply UnsubackEncode_carries|].
  assert (pkType pk = Pingreq ∨ pkType pk = Pingresp → carries (Return (FixedHeader_Encode (pkFixedHeader pk))) (λ pk _, Return pk) pk (wire_packet pk)) as Hping.
  { intros Hping. exists "". unfold with_header, PingreqEncode, PingrespEncode. rewrite string_app_nil_r. simpl. split.
    - pose proof (wf_ping pk Hwf Hping) as E. destruct (pkFixedHeader pk). simpl in E. by subst.
    - intros _. by destruct Hping as [E|E]; at_type E. }
  destruct (N.eqb_spec (pkType pk) Pingreq) as [E|]; [rewrite E; apply Hping; auto|].
  destruct (N.eqb_spec (pkType pk) Pingresp) as [E|]; [rewrite E; apply Hping; auto|].
  destruct (N.eqb_spec (pkType pk) Disconnect) as [E|]; [by apply DisconnectEncode_carries|].
  destruct (N.eqb_spec (pkType pk) Auth) as [E|]; [by apply AuthEncode_carries|].
  exfalso. apply andb_true_iff in Hh as [Hh%N.ltb_lt _]. unfold pkType in *.
  unfold Connect, Connack, Publish, Puback, Pubrec, Pubrel, Pubcomp, Subscribe, Suback, Unsubscribe, Unsuback, Pingreq, Pingresp,
    Disconnect, Auth in *. lia.
Qed.

(** ** Claims *)

(** C38: no input makes the packet reader panic or loop: for every byte string a
    client sends, reading one packet returns a packet or an error. A packet it
    returns was taken from the front of the input, has a header the protocol
    allows, and is no larger than the configured maximum. *)
Theorem reading_never_panics maxSize version conn :
  match read_packet maxSize version conn with
  | Return (pk, rest) =>
      header_ok (pkFixedHeader pk) = true ∧
      (∃ used, conn = used +:+ rest ∧ (2 + N.to_nat (fhRemaining (pkFixedHeader pk)) <= String.length used)%nat) ∧
      ((0 < maxSize)%N → (fhRemaining (pkFixedHeader pk) < maxSize)%N)
  | Throw _ => True
  | Panic => False
  end.
Proof.
  change (safe (read_packet maxSize version conn) (λ '(pk, rest),
    header_ok (pkFixedHeader pk) = true ∧
    (∃ used, conn = used +:+ rest ∧ (2 + N.to_nat (fhRemaining (pkFixedHeader pk)) <= String.length used)%nat) ∧
    ((0 < maxSize)%N → (fhRemaining (pkFixedHeader pk) < maxSize)%N))).
  unfold read_packet. eapply safe_bind; [apply ReadFixedHeader_safe|]. intros [fh rest] (Hok & Hn & Hmax & used & -> & Hl).
  unfold ReadPacket. destruct (Nat.ltb_spec (String.length rest) (N.to_nat (fhRemaining fh))) as [|Hlen]; [done|].
  eapply safe_bind; [apply decode_body_safe|]. intros pk Hk. unfold keeps_header in Hk. simpl in Hk. simpl. rewrite Hk.
  split_and!; [done| |done]. exists (used +:+ take_bytes (N.to_nat (fhRemaining fh)) rest).
  rewrite string_app_assoc', take_drop_bytes, string_length_app, take_bytes_length by lia. split; [done|lia].
Qed.

(** C28: what one side writes, the other reads. A well-formed packet of any type
    encodes without error, and reading the bytes back from the front of a
    connection gives one packet and leaves the bytes after it. A plain packet
    ([plain_packet]) says the same after the journey: every field that MQTT gives its
    type is as it was. For any other packet the result is [wire_packet], which shows
    what the encoder leaves out: the reason code of an MQTT 5 acknowledgement if it is
    below 0x80 and there are no properties, properties that the type does not
    have or the receiver declined, and what an older version cannot say. Only
    packets over the protocol's length limit, or the reader's own, are excepted. *)
Theorem packet_roundtrip maxSize pk rest : wf_packet pk →
  ∃ body, encode_packet pk = Return (with_header pk body) ∧
    let n := N.of_nat (String.length body) in
    ((n <= 268435455)%N → (maxSize = 0 ∨ n < maxSize)%N →
     read_packet maxSize (pkProtocolVersion pk) (with_header pk body +:+ rest) = Return (wire_packet pk n, rest) ∧
     (plain_packet pk → content_of (wire_packet pk n) = content_of pk)).
Proof.
  intros Hwf. destruct (encode_packet_carries pk Hwf) as (body & Henc & Hdec). exists body. split; [done|]. intros n Hn Hmax. subst n.
  split; [|by apply plain_content].
  unfold with_header. rewrite <-string_app_assoc. rewrite read_with_header; [|apply (wf_header pk Hwf)|done..].
  specialize (Hdec Hn). unfold arriving in Hdec. by rewrite Hdec.
Qed.

(** A QoS 1 publish with MQTT 5 properties, followed by a ping. *)
Definition example_publish : Packet :=
  no_packet <| pkFixedHeader := mkFixedHeader 0 Publish 1 false true |> <| pkProtocolVersion := 5%N |> <| pkMods := mkMods 0 false true |>
    <| pkTopicName := "t/1/up" |> <| pkPacketID := 513%N |> <| pkPayload := "21.5" |>
    <| pkProperties := no_properties <| ResponseTopic := "t/1/reply" |> <| PayloadFormatFlag := true |> <| PayloadFormat := 1%N |> |>.

Lemma packet_roundtrip_witness : ∃ body pk, encode_packet example_publish = Return (with_header example_publish body) ∧
  read_packet 64 5 (with_header example_publish body +:+ "ping") = Return (pk, "ping") ∧
  content_of pk = CPublish false true 1 "t/1/up" 513 "21.5" (pkProperties example_publish).
Proof.
  destruct (packet_roundtrip 64 example_publish "ping") as (body & He & Hr).
  { constructor; try done; try (repeat constructor; done). }
  assert (String.length body <= 40)%nat as Hl.
  { pose (size := λ o : outcome string, match o with Return s => String.length s | _ => 0%nat end).
    assert (size (encode_packet example_publish) <= 40)%nat as E by (vm_compute; lia).
    rewrite He in E. simpl in E. rewrite string_length_app in E. lia. }
  destruct Hr as [Hr Hc]; [lia..|]. exists body, (wire_packet example_publish (N.of_nat (String.length body))).
  split; [done|]. split; [exact Hr|]. apply Hc. constructor; try done.
  constructor; repeat (constructor; try done).
Defined.

(** The reason code 0x10 of a PUBREC, no matching subscribers, is read back as
    success. *)
Lemma low_ack_reason_is_lost : let pk := no_packet <| pkFixedHeader := mkFixedHeader 0 Pubrec 0 false false |> <| pkProtocolVersion := 5%N |>
    <| pkPacketID := 7%N |> <| pkReasonCode := 16%N |> in
  match encode_packet pk with Return b => option_map (λ '(pk, _), pkReasonCode pk) (match read_packet 0 5 b with Return r => Some r | _ => None end) | _ => None end
  = Some 0%N.
Proof. vm_compute. reflexivity. Qed.
