(* ===== verification/Json.v ===== *)
(** JSON as encoding/json of the Go standard library writes and reads it: the
    text of a value, the parser, and the decoding of values into the fields of a
    struct. Used for the records that sessions are stored as.

    A byte slice is a string here, so nil and the empty slice are one value,
    which is written as null. The limit on nesting is left out. *)

From S2P Require Import Prelude GoStrings Base64 Decimal Codec.

Inductive json :=
  | JNull
  | JBool (b : bool)
  | JNum (lit : string)
  | JStr (s : string)
  | JArr (l : list json)
  | JObj (l : list (string * json)).

(** ** Runes *)

(** The first rune, as its bytes, and what follows it; [None] when the bytes
    are not UTF-8. *)
Definition decode_rune (s : string) : option (string * string) :=
  match s with
  | "" => None
  | String a s1 =>
      if in_range 0 127 a then Some (String a "", s1)
      else match s1 with
           | "" => None
           | String b s2 =>
               if in_range 194 223 a then if continuation b then Some (String a (String b ""), s2) else None
               else match s2 with
                    | "" => None
                    | String c s3 =>
                        let r3 := Some (String a (String b (String c "")), s3) in
                        if in_range 224 224 a then if in_range 160 191 b && continuation c then r3 else None
                        else if in_range 225 236 a || in_range 238 239 a then
                          if continuation b && continuation c then r3 else None
                        else if in_range 237 237 a then if in_range 128 159 b && continuation c then r3 else None
                        else match s3 with
                             | "" => None
                             | String d s4 =>
                                 let r4 := Some (String a (String b (String c (String d ""))), s4) in
                                 if in_range 240 240 a then
                                   if in_range 144 191 b && continuation c && continuation d then r4 else None
                                 else if in_range 241 243 a then
                                   if continuation b && continuation c && continuation d then r4 else None
                                 else if in_range 244 244 a then
                                   if in_range 128 143 b && continuation c && continuation d then r4 else None
                                 else None
                             end
                    end
           end
  end.

(** utf8.AppendRune. *)
Definition encode_rune (u : N) : string :=
  let low k := byte_of (128 + N.land (N.shiftr u k) 63) in
  if (u <? 128)%N then String (byte_of u) ""
  else if (u <? 2048)%N then String (byte_of (192 + N.shiftr u 6)) (String (low 0%N) "")
  else if (u <? 65536)%N then String (byte_of (224 + N.shiftr u 12)) (String (low 6%N) (String (low 0%N) ""))
  else String (byte_of (240 + N.shiftr u 18)) (String (low 12%N) (String (low 6%N) (String (low 0%N) ""))).

Definition RuneError : N := 65533.

(** ** Writing *)

Definition dq : ascii := "034".
Definition bs : ascii := "092".

Definition hex_digit (n : N) : ascii := if (n <? 10)%N then ascii_of_N (48 + n) else ascii_of_N (87 + n).

Definition escape_u (u : N) : string :=
  String bs (String "u" (String (hex_digit (N.shiftr u 12)) (String (hex_digit (N.land (N.shiftr u 8) 15))
    (String (hex_digit (N.land (N.shiftr u 4) 15)) (String (hex_digit (N.land u 15)) ""))))).

(** One rune of a string; HTML characters and the line separators are escaped. *)
Definition escape_rune (r : string) : string :=
  match r with
  | String c "" =>
      if Ascii.eqb c dq || Ascii.eqb c bs then String bs r
      else if Ascii.eqb c "008" then String bs "b"
      else if Ascii.eqb c "012" then String bs "f"
      else if Ascii.eqb c "010" then String bs "n"
      else if Ascii.eqb c "013" then String bs "r"
      else if Ascii.eqb c "009" then String bs "t"
      else if (N_of_ascii c <? 32)%N || Ascii.eqb c "<" || Ascii.eqb c ">" || Ascii.eqb c "&" then escape_u (N_of_ascii c)
      else r
  | _ => if String.eqb r (encode_rune 8232) then escape_u 8232
         else if String.eqb r (encode_rune 8233) then escape_u 8233
         else r
  end.

Fixpoint escape_loop (fuel : nat) (s : string) : string :=
  match fuel, s with
  | S fuel, String _ s1 =>
      match decode_rune s with
      | Some (r, rest) => escape_rune r +:+ escape_loop fuel rest
      | None => escape_u RuneError +:+ escape_loop fuel s1
      end
  | _, _ => ""
  end.

Definition quote (s : string) : string := String dq (escape_loop (String.length s) s +:+ String dq "").

Fixpoint print (v : json) : string :=
  match v with
  | JNull => "null"
  | JBool b => if b then "true" else "false"
  | JNum lit => lit
  | JStr s => quote s
  | JArr l => String "[" (join "," (map print l) +:+ "]")
  | JObj l => String "{" (join "," (map (λ '(k, v), quote k +:+ String ":" (print v)) l) +:+ "}")
  end.

(** ** Reading *)

Fixpoint skip_ws (s : string) : string :=
  match s with
  | String c t => if Ascii.eqb c " " || Ascii.eqb c "009" || Ascii.eqb c "010" || Ascii.eqb c "013" then skip_ws t else s
  | "" => ""
  end.

Definition hex_value (c : ascii) : option N :=
  let v := N_of_ascii c in
  if (48 <=? v)%N && (v <=? 57)%N then Some (v - 48)%N
  else if (97 <=? v)%N && (v <=? 102)%N then Some (v - 87)%N
  else if (65 <=? v)%N && (v <=? 70)%N then Some (v - 55)%N
  else None.

Definition hex4 (s : string) : option (N * string) :=
  match s with
  | String a (String b (String c (String d rest))) =>
      a ← hex_value a; b ← hex_value b; c ← hex_value c; d ← hex_value d;
      Some (a * 4096 + b * 256 + c * 16 + d, rest)%N
  | _ => None
  end.

Definition surrogate (u : N) : bool := (55296 <=? u)%N && (u <? 57344)%N.

(** utf16.DecodeRune, [None] for an invalid pair. *)
Definition surrogate_pair (u1 u2 : N) : option N :=
  if (55296 <=? u1)%N && (u1 <? 56320)%N && (56320 <=? u2)%N && (u2 <? 57344)%N then
    Some ((u1 - 55296) * 1024 + (u2 - 56320) + 65536)%N
  else None.

(** After a backslash and u: the text it stands for, and what follows. *)
Definition unescape_u (s : string) : option (string * string) :=
  '(u, rest) ← hex4 s;
  if surrogate u then
    match rest with
    | String b1 (String b2 rest2) =>
        if Ascii.eqb b1 bs && Ascii.eqb b2 "u" then
          match hex4 rest2 with
          | Some (u2, rest3) => match surrogate_pair u u2 with
                                | Some r => Some (encode_rune r, rest3)
                                | None => Some (encode_rune RuneError, rest)
                                end
          | None => Some (encode_rune RuneError, rest)
          end
        else Some (encode_rune RuneError, rest)
    | _ => Some (encode_rune RuneError, rest)
    end
  else Some (encode_rune u, rest).

Definition unescape_char (c : ascii) : option ascii :=
  if Ascii.eqb c dq || Ascii.eqb c bs || Ascii.eqb c "/" then Some c
  else if Ascii.eqb c "b" then Some ("008" : ascii)
  else if Ascii.eqb c "f" then Some ("012" : ascii)
  else if Ascii.eqb c "n" then Some ("010" : ascii)
  else if Ascii.eqb c "r" then Some ("013" : ascii)
  else if Ascii.eqb c "t" then Some ("009" : ascii)
  else None.

(** One unit of the inside of a string literal. *)
Definition unquote_step (s : string) : option (string * string) :=
  match s with
  | "" => None
  | String c s1 =>
      if Ascii.eqb c bs then
        match s1 with
        | "" => None
        | String e s2 =>
            if Ascii.eqb e "u" then unescape_u s2
            else match unescape_char e with Some x => Some (String x "", s2) | None => None end
        end
      else if (N_of_ascii c <? 32)%N then None
      else match decode_rune s with
           | Some (r, rest) => Some (r, rest)
           | None => Some (encode_rune RuneError, s1)
           end
  end.

(** The inside of a string literal and what follows its end. *)
Fixpoint unquote (fuel : nat) (s : string) : option (string * string) :=
  match fuel with
  | O => None
  | S fuel =>
      match s with
      | "" => None
      | String c s1 =>
          if Ascii.eqb c dq then Some ("", s1)
          else
            '(r, rest) ← unquote_step s;
            '(t, rest) ← unquote fuel rest;
            Some (r +:+ t, rest)
      end
  end.

Fixpoint take_digits (s : string) : string * string :=
  match s with
  | String c t => match digit_value c with
                  | Some _ => let '(d, rest) := take_digits t in (String c d, rest)
                  | None => ("", s)
                  end
  | "" => ("", "")
  end.

(** The integer part: no leading zero. *)
Definition scan_int (s : string) : option (string * string) :=
  match s with
  | String "0" t => Some ("0", t)
  | _ => match take_digits s with
         | ("", _) => None
         | (d, rest) => Some (d, rest)
         end
  end.

Definition scan_frac (s : string) : option (string * string) :=
  match s with
  | String "." t => match take_digits t with
                    | ("", _) => None
                    | (d, rest) => Some (String "." d, rest)
                    end
  | _ => Some ("", s)
  end.

Definition scan_exp (s : string) : option (string * string) :=
  match s with
  | String c t =>
      if Ascii.eqb c "e" || Ascii.eqb c "E" then
        let '(sign, t) := match t with
                          | String x u => if Ascii.eqb x "+" || Ascii.eqb x "-" then (String x "", u) else ("", t)
                          | "" => ("", t)
                          end in
        match take_digits t with
        | ("", _) => None
        | (d, rest) => Some (String c (sign +:+ d), rest)
        end
      else Some ("", s)
  | "" => Some ("", s)
  end.

Definition scan_number (s : string) : option (string * string) :=
  let '(sign, s) := match s with String "-" t => ("-", t) | _ => ("", s) end in
  '(i, s) ← scan_int s;
  '(f, s) ← scan_frac s;
  '(e, s) ← scan_exp s;
  Some (sign +:+ i +:+ f +:+ e, s).

Definition literal (word : string) (v : json) (s : string) : option (json * string) :=
  if has_prefix word s then Some (v, drop_bytes (String.length word) s) else None.

Fixpoint parse_value (fuel : nat) (s : string) : option (json * string) :=
  match fuel with
  | O => None
  | S fuel =>
      match skip_ws s with
      | "" => None
      | String c s1 =>
          if Ascii.eqb c "{" then
            match skip_ws s1 with
            | String "}" s2 => Some (JObj [], s2)
            | _ => '(l, rest) ← parse_members fuel s1; Some (JObj l, rest)
            end
          else if Ascii.eqb c "[" then
            match skip_ws s1 with
            | String "]" s2 => Some (JArr [], s2)
            | _ => '(l, rest) ← parse_elements fuel s1; Some (JArr l, rest)
            end
          else if Ascii.eqb c dq then
            '(t, rest) ← unquote (S (String.length s1)) s1; Some (JStr t, rest)
          else if Ascii.eqb c "t" then literal "true" (JBool true) (String c s1)
          else if Ascii.eqb c "f" then literal "false" (JBool false) (String c s1)
          else if Ascii.eqb c "n" then literal "null" JNull (String c s1)
          else '(lit, rest) ← scan_number (String c s1); Some (JNum lit, rest)
      end
  end
with parse_elements (fuel : nat) (s : string) : option (list json * string) :=
  match fuel with
  | O => None
  | S fuel =>
      '(v, rest) ← parse_value fuel s;
      match skip_ws rest with
      | String "," rest => '(l, rest) ← parse_elements fuel rest; Some (v :: l, rest)
      | String "]" rest => Some ([v], rest)
      | _ => None
      end
  end
with parse_members (fuel : nat) (s : string) : option (list (string * json) * string) :=
  match fuel with
  | O => None
  | S fuel =>
      match skip_ws s with
      | String c s1 =>
          if negb (Ascii.eqb c dq) then None
          else
            '(k, rest) ← unquote (S (String.length s1)) s1;
            match skip_ws rest with
            | String ":" rest =>
                '(v, rest) ← parse_value fuel rest;
                match skip_ws rest with
                | String "," rest => '(l, rest) ← parse_members fuel rest; Some ((k, v) :: l, rest)
                | String "}" rest => Some ([(k, v)], rest)
                | _ => None
                end
            | _ => None
            end
      | "" => None
      end
  end.

(** A whole document. Two units of fuel for each byte: one for a list, one for
    its elements. *)
Definition parse (data : string) : option json :=
  match parse_value (S (S (2 * String.length data))) data with
  | Some (v, rest) => if String.eqb (skip_ws rest) "" then Some v else None
  | None => None
  end.

(** ** Go values *)

(** json.Unmarshal into a Go variable: null leaves it as it is, a value of
    another kind or out of range is an error. *)
Definition into_string (v : json) (old : string) : option string :=
  match v with JNull => Some old | JStr s => Some s | _ => None end.
Definition into_bool (v : json) (old : bool) : option bool :=
  match v with JNull => Some old | JBool b => Some b | _ => None end.
Definition into_uint (max : N) (v : json) (old : N) : option N :=
  match v with JNull => Some old | JNum lit => ParseUint max lit | _ => None end.
Definition into_int (v : json) (old : Z) : option Z :=
  match v with JNull => Some old | JNum lit => ParseInt lit | _ => None end.

Definition into_list {A} (zero : A) (into : json → A → option A) (v : json) (old : list A) : option (list A) :=
  match v with JNull => Some [] | JArr l => mapM (λ x, into x zero) l | _ => None end.

Definition string_of_bytes (l : list N) : string := foldr (λ b s, String (ascii_of_N b) s) "" l.

Definition into_bytes (v : json) (old : string) : option string :=
  match v with
  | JNull => Some ""
  | JStr s => StdDecode s
  | JArr l => string_of_bytes <$> mapM (λ x, into_uint 255 x 0%N) l
  | _ => None
  end.

(** A key selects the field of that name, or one that differs in case only. *)
Definition field_named (names : list string) (k : string) : option string :=
  if existsb (String.eqb k) names then Some k else find (equal_fold k) names.

(** Into a struct whose fields are set by [set]; unknown keys are skipped. *)
Definition into_struct {R} (names : list string) (set : string → json → R → option R) (v : json) (r : R) : option R :=
  match v with
  | JNull => Some r
  | JObj l => fold_left (λ acc kv,
      r ← acc;
      match field_named names kv.1 with Some n => set n kv.2 r | None => Some r end) l (Some r)
  | _ => None
  end.

Definition jnat (n : N) : json := JNum (FormatUint n).
Definition jint (z : Z) : json := JNum (Itoa z).
Definition jbytes (s : string) : json := if String.eqb s "" then JNull else JStr (StdEncode s).

(** A struct field, with and without omitempty. *)
Definition member (k : string) (v : json) : list (string * json) := [(k, v)].
Definition member_opt (nonempty : bool) (k : string) (v : json) : list (string * json) := if nonempty then [(k, v)] else [].

(** ** Lemmas: runes *)

Lemma decode_rune_app s r t : decode_rune s = Some (r, t) →
  s = r +:+ t ∧ r ≠ "" ∧ ∀ u, decode_rune (r +:+ u) = Some (r, u).
Proof.
  destruct s as [|a s1]; [done|]. cbn [decode_rune]. intros H.
  repeat case_hyp H; simplify_eq; (split; [done|split; [done|]]); intros u; cbn [String.append decode_rune];
    rewrite ?string_app_cons, ?string_app_nil_l; cbn [decode_rune];
    repeat match goal with E : ?x = _ |- context [if ?x then _ else _] => rewrite E end; done.
Qed.

Lemma utf8_Valid_rune s : utf8_Valid s = true → s ≠ "" → ∃ r t, decode_rune s = Some (r, t) ∧ utf8_Valid t = true.
Proof.
  destruct s as [|a s1]; [done|]. intros H _. cbn [utf8_Valid decode_rune] in *.
  repeat case_hyp H; try done; breflect; repeat match goal with E : ?x = true |- context [?x] => rewrite E end; simpl; eauto.
Qed.

(** ** Lemmas: strings *)

Lemma escape_ascii c u : in_range 0 127 c = true →
  unquote_step (escape_rune (String c "") +:+ u) = Some (String c "", u) ∧
  ∃ d t, escape_rune (String c "") = String d t ∧ Ascii.eqb d dq = false.
Proof.
  intros H. destruct c as [[] [] [] [] [] [] [] []]; try discriminate H; (split; [reflexivity|]); do 2 eexists; (split; [reflexivity|done]).
Qed.

(** A rune is escaped to something the reader maps back to it. *)
Lemma unquote_escape s r t u : decode_rune s = Some (r, t) →
  unquote_step (escape_rune r +:+ u) = Some (r, u) ∧ ∃ d v, escape_rune r = String d v ∧ Ascii.eqb d dq = false.
Proof.
  intros H. destruct (decode_rune_app _ _ _ H) as (-> & Hne & Hd).
  destruct r as [|a r]; [done|]. destruct (in_range 0 127 a) eqn:Ea.
  { specialize (Hd ""). rewrite string_app_nil_r in Hd. cbn [decode_rune] in Hd. rewrite Ea in Hd. simplify_eq.
    by apply escape_ascii. }
  assert (Ascii.eqb a dq = false ∧ Ascii.eqb a bs = false ∧ (N_of_ascii a <? 32)%N = false) as (Hq & Hb & Hc).
  { clear -Ea. by destruct a as [[] [] [] [] [] [] [] []]. }
  destruct r as [|b r].
  { exfalso. specialize (Hd ""). rewrite string_app_nil_r in Hd. cbn [decode_rune] in Hd. by rewrite Ea in Hd. }
  assert (unquote_step (String a (String b r) +:+ u) = Some (String a (String b r), u)) as Hcopy.
  { specialize (Hd u). rewrite string_app_cons in *. unfold unquote_step. by rewrite Hb, Hc, Hd. }
  unfold escape_rune. destruct (String.eqb (String a (String b r)) (encode_rune 8232)) eqn:E1.
  { apply String.eqb_eq in E1 as ->. split; [reflexivity|]. do 2 eexists. split; [reflexivity|done]. }
  destruct (String.eqb (String a (String b r)) (encode_rune 8233)) eqn:E2.
  { apply String.eqb_eq in E2 as ->. split; [reflexivity|]. do 2 eexists. split; [reflexivity|done]. }
  split; [done|]. by do 2 eexists.
Qed.

Lemma unquote_loop n s fuel rest : utf8_Valid s = true → (String.length s <= n)%nat →
  (String.length (escape_loop n s +:+ String dq rest) < fuel)%nat →
  unquote fuel (escape_loop n s +:+ String dq rest) = Some (s, rest).
Proof.
  revert s fuel. induction n as [|n IH]; intros s fuel Hv Hn Hf; (destruct fuel as [|fuel]; [lia|]).
  { destruct s; [done|simpl in Hn; lia]. }
  destruct s as [|a s]; [done|]. destruct (utf8_Valid_rune _ Hv ltac:(done)) as (r & t & Hr & Ht).
  cbn [escape_loop] in *. rewrite Hr in *. destruct (decode_rune_app _ _ _ Hr) as (Heq & Hne & _).
  rewrite <-string_app_assoc in *. destruct (unquote_escape _ _ _ (escape_loop n t +:+ String dq rest) Hr) as (Hu & d & v & Ed & Hd).
  cbn [unquote]. rewrite Ed, string_app_cons in *. rewrite Hd, Hu. cbn [mbind option_bind].
  apply (f_equal String.length) in Heq as Hlen. rewrite string_length_app in Hlen. simpl in Hlen, Hn, Hf.
  rewrite string_length_app in Hf. destruct r as [|x r]; [done|]. simpl in Hlen.
  rewrite IH by (done || lia). cbn. by rewrite Heq.
Qed.

Lemma quote_parse s rest : utf8_Valid s = true →
  ∃ t, quote s +:+ rest = String dq t ∧ unquote (S (String.length t)) t = Some (s, rest).
Proof.
  intros Hv. unfold quote. rewrite string_app_cons, <-string_app_assoc. eexists. split; [reflexivity|].
  change (String dq "" +:+ rest) with (String dq rest). apply unquote_loop; [done|done|lia].
Qed.

(** ** Lemmas: numbers *)

(** [rest] does not continue a number. *)
Definition num_end (rest : string) : bool :=
  match rest with
  | String c _ => match digit_value c with Some _ => false | None => negb (Ascii.eqb c "." || Ascii.eqb c "e" || Ascii.eqb c "E") end
  | "" => true
  end.

Lemma take_digits_app s rest : all_digits s = true → num_end rest = true → take_digits (s +:+ rest) = (s, rest).
Proof.
  intros Hs Hr. induction s as [|c s IH].
  - rewrite string_app_nil_l. destruct rest as [|c t]; [done|]. cbn [num_end take_digits] in *. by destruct (digit_value c).
  - rewrite string_app_cons. cbn [all_digits take_digits] in *. destruct (digit_value c); [|done]. by rewrite IH.
Qed.

Lemma scan_int_FormatUint n rest : num_end rest = true → scan_int (FormatUint n +:+ rest) = Some (FormatUint n, rest).
Proof.
  intros Hr. destruct (FormatUint_first n) as (c & s & E & Hc). pose proof (FormatUint_digits n) as Hd.
  pose proof (take_digits_app _ rest Hd Hr) as Ht. rewrite E in *. rewrite string_app_cons in *.
  unfold scan_int. destruct (Ascii.eqb c "0") eqn:E0.
  - apply Ascii.eqb_eq in E0 as ->. apply FormatUint_lead in E as [_ ->]. done.
  - rewrite Ht. destruct c as [[] [] [] [] [] [] [] []]; done.
Qed.

Lemma scan_frac_end rest : num_end rest = true → scan_frac rest = Some ("", rest).
Proof. destruct rest as [|c t]; [done|]. simpl. intros H. destruct c as [[] [] [] [] [] [] [] []]; done. Qed.

Lemma scan_exp_end rest : num_end rest = true → scan_exp rest = Some ("", rest).
Proof.
  destruct rest as [|c t]; [done|]. cbn [num_end scan_exp]. destruct (digit_value c); [done|]. intros H.
  apply negb_true_iff, orb_false_iff in H as [[_ H1]%orb_false_iff H2]. by rewrite H1, H2.
Qed.

Lemma scan_number_Itoa z rest : num_end rest = true → scan_number (Itoa z +:+ rest) = Some (Itoa z, rest).
Proof.
  intros Hr. unfold Itoa. destruct (z <? 0)%Z.
  - rewrite <-string_app_assoc. change ("-" +:+ ?t) with (String "-" t). unfold scan_number.
    rewrite scan_int_FormatUint by done. cbn [mbind option_bind]. rewrite scan_frac_end by done. cbn [mbind option_bind].
    rewrite scan_exp_end by done. cbn [mbind option_bind]. by rewrite !string_app_nil_r.
  - unfold scan_number. destruct (FormatUint_first (Z.to_N z)) as (c & s & E & Hc).
    assert (match FormatUint (Z.to_N z) +:+ rest with String "-" t => ("-", t) | _ => ("", FormatUint (Z.to_N z) +:+ rest) end
            = ("", FormatUint (Z.to_N z) +:+ rest)) as ->.
    { rewrite E, string_app_cons. destruct c as [[] [] [] [] [] [] [] []]; done. }
    rewrite scan_int_FormatUint by done. cbn [mbind option_bind]. rewrite scan_frac_end by done. cbn [mbind option_bind].
    rewrite scan_exp_end by done. cbn [mbind option_bind]. by rewrite !string_app_nil_r.
Qed.

(** ** Lemmas: values *)

Lemma json_rect_list (P : json → Prop) :
  P JNull → (∀ b, P (JBool b)) → (∀ lit, P (JNum lit)) → (∀ s, P (JStr s)) →
  (∀ l, Forall P l → P (JArr l)) → (∀ l, Forall (λ kv, P kv.2) l → P (JObj l)) → ∀ v, P v.
Proof.
  intros Hnull Hbool Hnum Hstr Harr Hobj. fix IH 1. intros [|b|lit|s|l|l].
  - done.
  - done.
  - done.
  - done.
  - apply Harr. induction l as [|v l IHl]; constructor; [apply IH|apply IHl].
  - apply Hobj. induction l as [|[k v] l IHl]; constructor; [apply IH|apply IHl].
Qed.

(** Values that are written and read back unchanged: UTF-8 strings and integers. *)
Fixpoint printable (v : json) : Prop :=
  match v with
  | JNull | JBool _ => True
  | JNum lit => ∃ z, lit = Itoa z
  | JStr s => utf8_Valid s = true
  | JArr l => fold_right (λ v acc, printable v ∧ acc) True l
  | JObj l => fold_right (λ kv acc, (utf8_Valid kv.1 = true ∧ printable kv.2) ∧ acc) True l
  end.

Lemma Itoa_first z : ∃ c s, Itoa z = String c s ∧ (Ascii.eqb c "-" = true ∨ digit_value c ≠ None).
Proof.
  unfold Itoa. destruct (z <? 0)%Z; [do 2 eexists; split; [reflexivity|by left]|].
  destruct (FormatUint_first (Z.to_N z)) as (c & s & E & Hc). exists c, s. auto.
Qed.

(** The text of a value does not start with white space or a closing bracket. *)
Lemma printable_first v rest : printable v → ∃ c s, print v +:+ rest = String c s ∧ skip_ws (String c s) = String c s ∧
  Ascii.eqb c "]" = false.
Proof.
  destruct v as [|[]|lit|s|l|l]; intros Hp; try (do 2 eexists; split; [reflexivity|split; reflexivity]).
  destruct Hp as [z ->]. cbn [print]. destruct (Itoa_first z) as (c & s & E & Hc). rewrite E, string_app_cons.
  exists c, (s +:+ rest). split; [done|]. destruct c as [[] [] [] [] [] [] [] []]; by (done || destruct Hc).
Qed.

(** [v] is read back from its text, whatever follows. *)
Definition reads (v : json) : Prop := ∀ fuel rest, printable v → num_end rest = true →
  (2 * String.length (print v +:+ rest) < fuel)%nat → parse_value fuel (print v +:+ rest) = Some (v, rest).

Lemma parse_elements_print l fuel rest : l ≠ [] → Forall reads l → Forall printable l →
  (2 * String.length (join "," (map print l) +:+ String "]" rest) + 1 < fuel)%nat →
  parse_elements fuel (join "," (map print l) +:+ String "]" rest) = Some (l, rest).
Proof.
  intros Hne Hr. revert fuel Hne. induction Hr as [|v l Hv Hr IH]; intros fuel Hne Hp Hf; [done|].
  apply Forall_cons in Hp as [Hpv Hp]. destruct fuel as [|fuel]; [lia|]. cbn [parse_elements]. destruct l as [|w l].
  - cbn [map join] in *. rewrite Hv by (done || lia). done.
  - cbn [map] in *. rewrite join_cons, <-string_app_assoc, string_app_cons in *.
    rewrite Hv by (done || lia). cbn [mbind option_bind skip_ws Ascii.eqb Bool.eqb orb].
    rewrite string_length_app in Hf. cbn [String.length] in Hf. rewrite IH by (done || lia). done.
Qed.

Lemma parse_members_print l fuel rest : l ≠ [] → Forall (λ kv, reads kv.2) l →
  Forall (λ kv, utf8_Valid kv.1 = true ∧ printable kv.2) l →
  (2 * String.length (join "," (map (λ '(k, v), quote k +:+ String ":" (print v)) l) +:+ String "}" rest) < fuel)%nat →
  parse_members fuel (join "," (map (λ '(k, v), quote k +:+ String ":" (print v)) l) +:+ String "}" rest) = Some (l, rest).
Proof.
  intros Hne Hr. revert fuel Hne. induction Hr as [|[k v] l Hv Hr IH]; intros fuel Hne Hp Hf; [done|].
  apply Forall_cons in Hp as [[Hk Hpv] Hp]. destruct fuel as [|fuel]; [lia|]. simpl in Hk, Hpv, Hv.
  assert (∀ tail, (String.length tail < String.length (quote k +:+ tail))%nat) as Hlen.
  { intros tail. rewrite string_length_app. unfold quote. simpl. lia. }
  cbn [parse_members map] in *. destruct l as [|w l].
  - cbn [map join] in *. rewrite <-!string_app_assoc, !string_app_cons in *.
    destruct (quote_parse k (String ":" (print v +:+ String "}" rest)) Hk) as (t & Et & Hu).
    specialize (Hlen (String ":" (print v +:+ String "}" rest))). rewrite Et in *.
    cbn [skip_ws Ascii.eqb Bool.eqb orb negb dq]. rewrite Hu. cbn [mbind option_bind skip_ws Ascii.eqb Bool.eqb orb].
    cbn [String.length] in *. rewrite Hv by (done || lia). done.
  - cbn [map] in *. rewrite join_cons, <-!string_app_assoc, !string_app_cons in *.
    set (more := join "," (_ :: map _ l) +:+ String "}" rest) in *.
    destruct (quote_parse k (String ":" (print v +:+ String "," more)) Hk) as (t & Et & Hu).
    specialize (Hlen (String ":" (print v +:+ String "," more))). rewrite Et in *.
    cbn [skip_ws Ascii.eqb Bool.eqb orb negb dq]. rewrite Hu. cbn [mbind option_bind skip_ws Ascii.eqb Bool.eqb orb].
    cbn [String.length] in *. rewrite Hv by (done || lia). cbn [mbind option_bind skip_ws Ascii.eqb Bool.eqb orb].
    rewrite string_length_app in Hlen. cbn [String.length] in Hlen. unfold more in *. rewrite IH by (done || lia). done.
Qed.

Lemma parse_print v : reads v.
Proof.
  induction v as [|b|lit|s|l IH|l IH] using json_rect_list; intros fuel rest Hp Hr Hf; (destruct fuel as [|fuel]; [lia|]).
  - done.
  - by destruct b.
  - destruct Hp as [z ->]. cbn [print] in *. pose proof (scan_number_Itoa z rest Hr) as Hn.
    destruct (Itoa_first z) as (c & s & E & Hc). cbn [parse_value]. rewrite E, string_app_cons in *.
    destruct c as [[] [] [] [] [] [] [] []]; try (by destruct Hc); cbn [skip_ws Ascii.eqb Bool.eqb orb dq]; by rewrite Hn.
  - cbn [print] in *. destruct (quote_parse s rest Hp) as (t & Et & Hu). rewrite Et.
    cbn [parse_value skip_ws Ascii.eqb Bool.eqb orb dq]. by rewrite Hu.
  - apply Forall_fold_right in Hp. cbn [print] in *. rewrite string_app_cons, <-string_app_assoc in *.
    change ("]" +:+ rest) with (String "]" rest) in *. cbn [parse_value skip_ws Ascii.eqb Bool.eqb orb String.length] in *.
    destruct l as [|v l]; [done|]. assert (∃ c s, join "," (map print (v :: l)) +:+ String "]" rest = String c s ∧
      skip_ws (String c s) = String c s ∧ Ascii.eqb c "]" = false) as (c & s & E & Hs & Hc).
    { apply Forall_cons in Hp as [Hv _]. cbn [map]. destruct (map print l); [by apply printable_first|].
      rewrite join_cons, <-string_app_assoc. by apply printable_first. }
    pose proof (parse_elements_print (v :: l) fuel rest ltac:(done) IH Hp ltac:(lia)) as H. rewrite E in *. rewrite Hs.
    destruct c as [[] [] [] [] [] [] [] []]; try discriminate Hc; by rewrite H.
  - apply Forall_fold_right in Hp. cbn [print] in *. rewrite string_app_cons, <-string_app_assoc in *.
    change ("}" +:+ rest) with (String "}" rest) in *. cbn [parse_value skip_ws Ascii.eqb Bool.eqb orb String.length] in *.
    destruct l as [|[k v] l]; [done|].
    assert (∃ s, join "," (map (λ '(k, v), quote k +:+ String ":" (print v)) ((k, v) :: l)) +:+ String "}" rest = String dq s) as [s E].
    { cbn [map]. destruct (map _ l); [by eexists|]. rewrite join_cons. by eexists. }
    pose proof (parse_members_print ((k, v) :: l) fuel rest ltac:(done) IH Hp ltac:(lia)) as H. rewrite E in *.
    cbn [skip_ws Ascii.eqb Bool.eqb orb dq]. by rewrite H.
Qed.

(** What is written is read back. *)
Lemma parse_print_json v : printable v → parse (print v) = Some v.
Proof.
  intros Hp. unfold parse. pose proof (parse_print v (S (S (2 * String.length (print v)))) "" Hp eq_refl) as H.
  rewrite string_app_nil_r in H. by rewrite H by lia.
Qed.

(** ** Lemmas: Go values *)

Lemma utf8_ascii s : all_bytes (λ c, (N_of_ascii c < 128)%N) s → utf8_Valid s = true.
Proof.
  induction s as [|c s IH]; [done|]. intros [Hc Hs]. cbn [utf8_Valid].
  assert (in_range 0 127 c = true) as -> by (unfold in_range; apply andb_true_iff; split; apply N.leb_le; lia). auto.
Qed.

Lemma printable_jnat n : printable (jnat n).
Proof. exists (Z.of_N n). by rewrite Itoa_of_N. Qed.

Lemma printable_jint z : printable (jint z).
Proof. by exists z. Qed.

Lemma printable_jbytes s : printable (jbytes s).
Proof. unfold jbytes. destruct (String.eqb s ""); [done|]. apply utf8_ascii, std_encode_ascii. Qed.

Lemma into_bytes_jbytes s old : into_bytes (jbytes s) old = Some s.
Proof. unfold jbytes. destruct (String.eqb_spec s "") as [->|]; [done|]. apply std_roundtrip. Qed.

Lemma into_uint_jnat max n old : (n <= max)%N → into_uint max (jnat n) old = Some n.
Proof. apply ParseUint_FormatUint. Qed.

Lemma into_int_jint z old : (- Z.of_N int64_max - 1 <= z <= Z.of_N int64_max)%Z → into_int (jint z) old = Some z.
Proof. apply Atoi_Itoa. Qed.

Lemma printable_obj l : Forall (λ kv, utf8_Valid kv.1 = true ∧ printable kv.2) l → printable (JObj l).
Proof. apply Forall_fold_right. Qed.

Lemma printable_arr l : Forall printable l → printable (JArr l).
Proof. apply Forall_fold_right. Qed.

(** [l] takes the struct from [r] to [q]. *)
Definition fills {R} (names : list string) (set : string → json → R → option R) (l : list (string * json)) (r q : R) : Prop :=
  fold_left (λ acc kv, r ← acc; match field_named names kv.1 with Some n => set n kv.2 r | None => Some r end) l (Some r) = Some q.

Lemma fills_app {R} names (set : string → json → R → option R) l1 l2 r q s :
  fills names set l1 r q → fills names set l2 q s → fills names set (l1 ++ l2) r s.
Proof. unfold fills. intros H1 H2. by rewrite fold_left_app, H1. Qed.

Lemma fills_member {R} names (set : string → json → R → option R) k v r q :
  existsb (String.eqb k) names = true → set k v r = Some q → fills names set (member k v) r q.
Proof. unfold fills, field_named. simpl. by intros -> ->. Qed.

Lemma fills_member_opt {R} names (set : string → json → R → option R) (b : bool) k v r q :
  existsb (String.eqb k) names = true → (b = true → set k v r = Some q) → (b = false → q = r) →
  fills names set (member_opt b k v) r q.
Proof. destruct b; intros Hk H1 H2; [by apply fills_member; auto|]. by rewrite H2. Qed.

Lemma printable_member k v : utf8_Valid k = true → printable v → Forall (λ kv, utf8_Valid kv.1 = true ∧ printable kv.2) (member k v).
Proof. by repeat constructor. Qed.

Lemma printable_member_opt b k v : utf8_Valid k = true → printable v →
  Forall (λ kv, utf8_Valid kv.1 = true ∧ printable kv.2) (member_opt b k v).
Proof. destruct b; by repeat constructor. Qed.

Lemma into_list_map {A} zero (into : json → A → option A) (out : A → json) l old :
  Forall (λ x, into (out x) zero = Some x) l → into_list zero into (JArr (out <$> l)) old = Some l.
Proof.
  intros H. simpl. apply mapM_Some. rewrite Forall2_fmap_l. by apply Forall_Forall2_diag.
Qed.
