(* ===== verification/Storage.v ===== *)
(** The records a session is stored as: storage.go in
    thirdparty/mochi-mqtt-server/hooks/storage, with their JSON encoding, and the
    conversion of a stored message to a packet. *)

From S2P Require Import Prelude GoStrings Base64 Decimal Codec Properties Packets Json.

Definition SubscriptionKey : string := "SUB".
Definition InflightKey : string := "IFM".
Definition ClientKey : string := "CL".

(** ** Data *)

Record storageClientProperties := mkStorageClientProperties {
  cpsAuthenticationData : string;
  cpsUser : list UserProperty;
  cpsAuthenticationMethod : string;
  cpsSessionExpiryInterval : N;
  cpsMaximumPacketSize : N;
  cpsReceiveMaximum : N;
  cpsTopicAliasMaximum : N;
  cpsSessionExpiryIntervalFlag : bool;
  cpsRequestProblemInfo : N;
  cpsRequestProblemInfoFlag : bool;
  cpsRequestResponseInfo : N;
}.

Record storageClientWill := mkStorageClientWill {
  cwPayload : string;
  cwUser : list UserProperty;
  cwTopicName : string;
  cwFlag : N;
  cwWillDelayInterval : N;
  cwQos : N;
  cwRetain : bool;
}.

Record storageClient := mkStorageClient {
  scWill : storageClientWill;
  scProperties : storageClientProperties;
  scUsername : string;
  scID : string;
  scT : string;
  scRemote : string;
  scListener : string;
  scProtocolVersion : N;
  scClean : bool;
}.

Record storageMessageProperties := mkStorageMessageProperties {
  mpCorrelationData : string;
  mpSubscriptionIdentifier : list Z;
  mpUser : list UserProperty;
  mpContentType : string;
  mpResponseTopic : string;
  mpMessageExpiryInterval : N;
  mpTopicAlias : N;
  mpPayloadFormat : N;
  mpPayloadFormatFlag : bool;
}.

Record storageMessage := mkStorageMessage {
  smProperties : storageMessageProperties;
  smPayload : string;
  smT : string;
  smID : string;
  smClient : string;
  smOrigin : string;
  smTopicName : string;
  smFixedHeader : FixedHeader;
  smCreated : Z;
  smSent : Z;
  smPacketID : N;
}.

Record storageSubscription := mkStorageSubscription {
  stT : string;
  stID : string;
  stClient : string;
  stFilter : string;
  stIdentifier : Z;
  stRetainHandling : N;
  stQos : N;
  stRetainAsPublished : bool;
  stNoLocal : bool;
}.

#[export] Instance storageClientProperties_remake : Remake storageClientProperties := {| remake := λ p,
  mkStorageClientProperties (cpsAuthenticationData p) (cpsUser p) (cpsAuthenticationMethod p) (cpsSessionExpiryInterval p)
    (cpsMaximumPacketSize p) (cpsReceiveMaximum p) (cpsTopicAliasMaximum p) (cpsSessionExpiryIntervalFlag p)
    (cpsRequestProblemInfo p) (cpsRequestProblemInfoFlag p) (cpsRequestResponseInfo p) |}.
#[export] Instance storageClientWill_remake : Remake storageClientWill := {| remake := λ w,
  mkStorageClientWill (cwPayload w) (cwUser w) (cwTopicName w) (cwFlag w) (cwWillDelayInterval w) (cwQos w) (cwRetain w) |}.
#[export] Instance storageClient_remake : Remake storageClient := {| remake := λ c,
  mkStorageClient (scWill c) (scProperties c) (scUsername c) (scID c) (scT c) (scRemote c) (scListener c)
    (scProtocolVersion c) (scClean c) |}.
#[export] Instance storageMessageProperties_remake : Remake storageMessageProperties := {| remake := λ p,
  mkStorageMessageProperties (mpCorrelationData p) (mpSubscriptionIdentifier p) (mpUser p) (mpContentType p)
    (mpResponseTopic p) (mpMessageExpiryInterval p) (mpTopicAlias p) (mpPayloadFormat p) (mpPayloadFormatFlag p) |}.
#[export] Instance storageMessage_remake : Remake storageMessage := {| remake := λ m,
  mkStorageMessage (smProperties m) (smPayload m) (smT m) (smID m) (smClient m) (smOrigin m) (smTopicName m)
    (smFixedHeader m) (smCreated m) (smSent m) (smPacketID m) |}.
#[export] Instance storageSubscription_remake : Remake storageSubscription := {| remake := λ s,
  mkStorageSubscription (stT s) (stID s) (stClient s) (stFilter s) (stIdentifier s) (stRetainHandling s) (stQos s)
    (stRetainAsPublished s) (stNoLocal s) |}.

(** The zero values. *)
Definition no_client_properties := mkStorageClientProperties "" [] "" 0 0 0 0 false 0 false 0.
Definition no_client_will := mkStorageClientWill "" [] "" 0 0 0 false.
Definition no_client := mkStorageClient no_client_will no_client_properties "" "" "" "" "" 0 false.
Definition no_message_properties := mkStorageMessageProperties "" [] [] "" "" 0 0 0 false.
Definition no_message := mkStorageMessage no_message_properties "" "" "" "" "" "" (new_header 0) 0 0 0.
Definition no_subscription := mkStorageSubscription "" "" "" "" 0 0 0 false false.

(** ** Encoding *)

Definition nonempty (s : string) : bool := negb (String.eqb s "").
Definition nonzero (n : N) : bool := negb (n =? 0)%N.
Definition nonzeroZ (z : Z) : bool := negb (z =? 0)%Z.
Definition nonnil {A} (l : list A) : bool := match l with [] => false | _ => true end.

Definition user_json (u : UserProperty) : json := JObj (member "k" (JStr (Key u)) ++ member "v" (JStr (Val u))).

Definition header_json (fh : FixedHeader) : json :=
  JObj (member "remaining" (jnat (fhRemaining fh)) ++ member "type" (jnat (fhType fh)) ++ member "qos" (jnat (fhQos fh)) ++
        member "dup" (JBool (fhDup fh)) ++ member "retain" (JBool (fhRetain fh))).

Definition client_properties_json (p : storageClientProperties) : json :=
  JObj (member_opt (nonempty (cpsAuthenticationData p)) "authenticationData" (jbytes (cpsAuthenticationData p)) ++
        member_opt (nonnil (cpsUser p)) "user" (JArr (user_json <$> cpsUser p)) ++
        member_opt (nonempty (cpsAuthenticationMethod p)) "authenticationMethod" (JStr (cpsAuthenticationMethod p)) ++
        member_opt (nonzero (cpsSessionExpiryInterval p)) "sessionExpiryInterval" (jnat (cpsSessionExpiryInterval p)) ++
        member_opt (nonzero (cpsMaximumPacketSize p)) "maximumPacketSize" (jnat (cpsMaximumPacketSize p)) ++
        member_opt (nonzero (cpsReceiveMaximum p)) "receiveMaximum" (jnat (cpsReceiveMaximum p)) ++
        member_opt (nonzero (cpsTopicAliasMaximum p)) "topicAliasMaximum" (jnat (cpsTopicAliasMaximum p)) ++
        member_opt (cpsSessionExpiryIntervalFlag p) "sessionExpiryIntervalFlag" (JBool (cpsSessionExpiryIntervalFlag p)) ++
        member_opt (nonzero (cpsRequestProblemInfo p)) "requestProblemInfo" (jnat (cpsRequestProblemInfo p)) ++
        member_opt (cpsRequestProblemInfoFlag p) "requestProblemInfoFlag" (JBool (cpsRequestProblemInfoFlag p)) ++
        member_opt (nonzero (cpsRequestResponseInfo p)) "requestResponseInfo" (jnat (cpsRequestResponseInfo p))).

Definition client_will_json (w : storageClientWill) : json :=
  JObj (member_opt (nonempty (cwPayload w)) "payload" (jbytes (cwPayload w)) ++
        member_opt (nonnil (cwUser w)) "user" (JArr (user_json <$> cwUser w)) ++
        member_opt (nonempty (cwTopicName w)) "topicName" (JStr (cwTopicName w)) ++
        member_opt (nonzero (cwFlag w)) "flag" (jnat (cwFlag w)) ++
        member_opt (nonzero (cwWillDelayInterval w)) "willDelayInterval" (jnat (cwWillDelayInterval w)) ++
        member_opt (nonzero (cwQos w)) "qos" (jnat (cwQos w)) ++
        member_opt (cwRetain w) "retain" (JBool (cwRetain w))).

Definition client_json (c : storageClient) : json :=
  JObj (member "will" (client_will_json (scWill c)) ++ member "properties" (client_properties_json (scProperties c)) ++
        member "username" (jbytes (scUsername c)) ++ member "id" (JStr (scID c)) ++ member "t" (JStr (scT c)) ++
        member "remote" (JStr (scRemote c)) ++ member "listener" (JStr (scListener c)) ++
        member "protocolVersion" (jnat (scProtocolVersion c)) ++ member "clean" (JBool (scClean c))).

Definition message_properties_json (p : storageMessageProperties) : json :=
  JObj (member_opt (nonempty (mpCorrelationData p)) "correlationData" (jbytes (mpCorrelationData p)) ++
        member_opt (nonnil (mpSubscriptionIdentifier p)) "subscriptionIdentifier" (JArr (jint <$> mpSubscriptionIdentifier p)) ++
        member_opt (nonnil (mpUser p)) "user" (JArr (user_json <$> mpUser p)) ++
        member_opt (nonempty (mpContentType p)) "contentType" (JStr (mpContentType p)) ++
        member_opt (nonempty (mpResponseTopic p)) "responseTopic" (JStr (mpResponseTopic p)) ++
        member_opt (nonzero (mpMessageExpiryInterval p)) "messageExpiry" (jnat (mpMessageExpiryInterval p)) ++
        member_opt (nonzero (mpTopicAlias p)) "topicAlias" (jnat (mpTopicAlias p)) ++
        member_opt (nonzero (mpPayloadFormat p)) "payloadFormat" (jnat (mpPayloadFormat p)) ++
        member_opt (mpPayloadFormatFlag p) "payloadFormatFlag" (JBool (mpPayloadFormatFlag p))).

Definition message_json (m : storageMessage) : json :=
  JObj (member "properties" (message_properties_json (smProperties m)) ++ member "payload" (jbytes (smPayload m)) ++
        member_opt (nonempty (smT m)) "t" (JStr (smT m)) ++ member_opt (nonempty (smID m)) "id" (JStr (smID m)) ++
        member_opt (nonempty (smClient m)) "client" (JStr (smClient m)) ++
        member_opt (nonempty (smOrigin m)) "origin" (JStr (smOrigin m)) ++
        member_opt (nonempty (smTopicName m)) "topic_name" (JStr (smTopicName m)) ++
        member "fixedheader" (header_json (smFixedHeader m)) ++
        member_opt (nonzeroZ (smCreated m)) "created" (jint (smCreated m)) ++
        member_opt (nonzeroZ (smSent m)) "sent" (jint (smSent m)) ++
        member_opt (nonzero (smPacketID m)) "packet_id" (jnat (smPacketID m))).

Definition subscription_json (s : storageSubscription) : json :=
  JObj (member_opt (nonempty (stT s)) "t" (JStr (stT s)) ++ member_opt (nonempty (stID s)) "id" (JStr (stID s)) ++
        member_opt (nonempty (stClient s)) "client" (JStr (stClient s)) ++ member "filter" (JStr (stFilter s)) ++
        member_opt (nonzeroZ (stIdentifier s)) "identifier" (jint (stIdentifier s)) ++
        member_opt (nonzero (stRetainHandling s)) "retain_handling" (jnat (stRetainHandling s)) ++
        member "qos" (jnat (stQos s)) ++
        member_opt (stRetainAsPublished s) "retain_as_pub" (JBool (stRetainAsPublished s)) ++
        member_opt (stNoLocal s) "no_local" (JBool (stNoLocal s))).

Definition Client_MarshalBinary (d : storageClient) : string := print (client_json d).
Definition Message_MarshalBinary (d : storageMessage) : string := print (message_json d).
Definition Subscription_MarshalBinary (d : storageSubscription) : string := print (subscription_json d).

(** ** Decoding *)

Definition user_names : list string := ["k"; "v"].
Definition set_user (k : string) (v : json) (u : UserProperty) : option UserProperty :=
  if String.eqb k "k" then (λ x, mkUserProperty x (Val u)) <$> into_string v (Key u)
  else (λ x, mkUserProperty (Key u) x) <$> into_string v (Val u).
Definition into_user (v : json) (u : UserProperty) : option UserProperty := into_struct user_names set_user v u.
Definition into_users (v : json) (old : list UserProperty) : option (list UserProperty) :=
  into_list (mkUserProperty "" "") into_user v old.

Definition max_uint8 : N := 255.
Definition max_uint16 : N := 65535.
Definition max_uint32 : N := 4294967295.

(** The field Remaining is an int; a negative one is not modelled. *)
Definition header_names : list string := ["remaining"; "type"; "qos"; "dup"; "retain"].
Definition set_header (k : string) (v : json) (h : FixedHeader) : option FixedHeader :=
  if String.eqb k "remaining" then (λ x, h <| fhRemaining := x |>) <$> into_uint int64_max v (fhRemaining h)
  else if String.eqb k "type" then (λ x, h <| fhType := x |>) <$> into_uint max_uint8 v (fhType h)
  else if String.eqb k "qos" then (λ x, h <| fhQos := x |>) <$> into_uint max_uint8 v (fhQos h)
  else if String.eqb k "dup" then (λ x, h <| fhDup := x |>) <$> into_bool v (fhDup h)
  else (λ x, h <| fhRetain := x |>) <$> into_bool v (fhRetain h).

Definition client_properties_names : list string :=
  ["authenticationData"; "user"; "authenticationMethod"; "sessionExpiryInterval"; "maximumPacketSize"; "receiveMaximum";
   "topicAliasMaximum"; "sessionExpiryIntervalFlag"; "requestProblemInfo"; "requestProblemInfoFlag"; "requestResponseInfo"].
Definition set_client_properties (k : string) (v : json) (p : storageClientProperties) : option storageClientProperties :=
  if String.eqb k "authenticationData" then (λ x, p <| cpsAuthenticationData := x |>) <$> into_bytes v (cpsAuthenticationData p)
  else if String.eqb k "user" then (λ x, p <| cpsUser := x |>) <$> into_users v (cpsUser p)
  else if String.eqb k "authenticationMethod" then
    (λ x, p <| cpsAuthenticationMethod := x |>) <$> into_string v (cpsAuthenticationMethod p)
  else if String.eqb k "sessionExpiryInterval" then
    (λ x, p <| cpsSessionExpiryInterval := x |>) <$> into_uint max_uint32 v (cpsSessionExpiryInterval p)
  else if String.eqb k "maximumPacketSize" then
    (λ x, p <| cpsMaximumPacketSize := x |>) <$> into_uint max_uint32 v (cpsMaximumPacketSize p)
  else if String.eqb k "receiveMaximum" then (λ x, p <| cpsReceiveMaximum := x |>) <$> into_uint max_uint16 v (cpsReceiveMaximum p)
  else if String.eqb k "topicAliasMaximum" then
    (λ x, p <| cpsTopicAliasMaximum := x |>) <$> into_uint max_uint16 v (cpsTopicAliasMaximum p)
  else if String.eqb k "sessionExpiryIntervalFlag" then
    (λ x, p <| cpsSessionExpiryIntervalFlag := x |>) <$> into_bool v (cpsSessionExpiryIntervalFlag p)
  else if String.eqb k "requestProblemInfo" then
    (λ x, p <| cpsRequestProblemInfo := x |>) <$> into_uint max_uint8 v (cpsRequestProblemInfo p)
  else if String.eqb k "requestProblemInfoFlag" then
    (λ x, p <| cpsRequestProblemInfoFlag := x |>) <$> into_bool v (cpsRequestProblemInfoFlag p)
  else (λ x, p <| cpsRequestResponseInfo := x |>) <$> into_uint max_uint8 v (cpsRequestResponseInfo p).

Definition client_will_names : list string := ["payload"; "user"; "topicName"; "flag"; "willDelayInterval"; "qos"; "retain"].
Definition set_client_will (k : string) (v : json) (w : storageClientWill) : option storageClientWill :=
  if String.eqb k "payload" then (λ x, w <| cwPayload := x |>) <$> into_bytes v (cwPayload w)
  else if String.eqb k "user" then (λ x, w <| cwUser := x |>) <$> into_users v (cwUser w)
  else if String.eqb k "topicName" then (λ x, w <| cwTopicName := x |>) <$> into_string v (cwTopicName w)
  else if String.eqb k "flag" then (λ x, w <| cwFlag := x |>) <$> into_uint max_uint32 v (cwFlag w)
  else if String.eqb k "willDelayInterval" then
    (λ x, w <| cwWillDelayInterval := x |>) <$> into_uint max_uint32 v (cwWillDelayInterval w)
  else if String.eqb k "qos" then (λ x, w <| cwQos := x |>) <$> into_uint max_uint8 v (cwQos w)
  else (λ x, w <| cwRetain := x |>) <$> into_bool v (cwRetain w).

Definition client_names : list string :=
  ["will"; "properties"; "username"; "id"; "t"; "remote"; "listener"; "protocolVersion"; "clean"].
Definition set_client (k : string) (v : json) (c : storageClient) : option storageClient :=
  if String.eqb k "will" then (λ x, c <| scWill := x |>) <$> into_struct client_will_names set_client_will v (scWill c)
  else if String.eqb k "properties" then
    (λ x, c <| scProperties := x |>) <$> into_struct client_properties_names set_client_properties v (scProperties c)
  else if String.eqb k "username" then (λ x, c <| scUsername := x |>) <$> into_bytes v (scUsername c)
  else if String.eqb k "id" then (λ x, c <| scID := x |>) <$> into_string v (scID c)
  else if String.eqb k "t" then (λ x, c <| scT := x |>) <$> into_string v (scT c)
  else if String.eqb k "remote" then (λ x, c <| scRemote := x |>) <$> into_string v (scRemote c)
  else if String.eqb k "listener" then (λ x, c <| scListener := x |>) <$> into_string v (scListener c)
  else if String.eqb k "protocolVersion" then
    (λ x, c <| scProtocolVersion := x |>) <$> into_uint max_uint8 v (scProtocolVersion c)
  else (λ x, c <| scClean := x |>) <$> into_bool v (scClean c).

Definition message_properties_names : list string :=
  ["correlationData"; "subscriptionIdentifier"; "user"; "contentType"; "responseTopic"; "messageExpiry"; "topicAlias";
   "payloadFormat"; "payloadFormatFlag"].
Definition set_message_properties (k : string) (v : json) (p : storageMessageProperties) : option storageMessageProperties :=
  if String.eqb k "correlationData" then (λ x, p <| mpCorrelationData := x |>) <$> into_bytes v (mpCorrelationData p)
  else if String.eqb k "subscriptionIdentifier" then
    (λ x, p <| mpSubscriptionIdentifier := x |>) <$> into_list 0%Z into_int v (mpSubscriptionIdentifier p)
  else if String.eqb k "user" then (λ x, p <| mpUser := x |>) <$> into_users v (mpUser p)
  else if String.eqb k "contentType" then (λ x, p <| mpContentType := x |>) <$> into_string v (mpContentType p)
  else if String.eqb k "responseTopic" then (λ x, p <| mpResponseTopic := x |>) <$> into_string v (mpResponseTopic p)
  else if String.eqb k "messageExpiry" then
    (λ x, p <| mpMessageExpiryInterval := x |>) <$> into_uint max_uint32 v (mpMessageExpiryInterval p)
  else if String.eqb k "topicAlias" then (λ x, p <| mpTopicAlias := x |>) <$> into_uint max_uint16 v (mpTopicAlias p)
  else if String.eqb k "payloadFormat" then (λ x, p <| mpPayloadFormat := x |>) <$> into_uint max_uint8 v (mpPayloadFormat p)
  else (λ x, p <| mpPayloadFormatFlag := x |>) <$> into_bool v (mpPayloadFormatFlag p).

Definition message_names : list string :=
  ["properties"; "payload"; "t"; "id"; "client"; "origin"; "topic_name"; "fixedheader"; "created"; "sent"; "packet_id"].
Definition set_message (k : string) (v : json) (m : storageMessage) : option storageMessage :=
  if String.eqb k "properties" then
    (λ x, m <| smProperties := x |>) <$> into_struct message_properties_names set_message_properties v (smProperties m)
  else if String.eqb k "payload" then (λ x, m <| smPayload := x |>) <$> into_bytes v (smPayload m)
  else if String.eqb k "t" then (λ x, m <| smT := x |>) <$> into_string v (smT m)
  else if String.eqb k "id" then (λ x, m <| smID := x |>) <$> into_string v (smID m)
  else if String.eqb k "client" then (λ x, m <| smClient := x |>) <$> into_string v (smClient m)
  else if String.eqb k "origin" then (λ x, m <| smOrigin := x |>) <$> into_string v (smOrigin m)
  else if String.eqb k "topic_name" then (λ x, m <| smTopicName := x |>) <$> into_string v (smTopicName m)
  else if String.eqb k "fixedheader" then
    (λ x, m <| smFixedHeader := x |>) <$> into_struct header_names set_header v (smFixedHeader m)
  else if String.eqb k "created" then (λ x, m <| smCreated := x |>) <$> into_int v (smCreated m)
  else if String.eqb k "sent" then (λ x, m <| smSent := x |>) <$> into_int v (smSent m)
  else (λ x, m <| smPacketID := x |>) <$> into_uint max_uint16 v (smPacketID m).

Definition subscription_names : list string :=
  ["t"; "id"; "client"; "filter"; "identifier"; "retain_handling"; "qos"; "retain_as_pub"; "no_local"].
Definition set_subscription (k : string) (v : json) (s : storageSubscription) : option storageSubscription :=
  if String.eqb k "t" then (λ x, s <| stT := x |>) <$> into_string v (stT s)
  else if String.eqb k "id" then (λ x, s <| stID := x |>) <$> into_string v (stID s)
  else if String.eqb k "client" then (λ x, s <| stClient := x |>) <$> into_string v (stClient s)
  else if String.eqb k "filter" then (λ x, s <| stFilter := x |>) <$> into_string v (stFilter s)
  else if String.eqb k "identifier" then (λ x, s <| stIdentifier := x |>) <$> into_int v (stIdentifier s)
  else if String.eqb k "retain_handling" then
    (λ x, s <| stRetainHandling := x |>) <$> into_uint max_uint8 v (stRetainHandling s)
  else if String.eqb k "qos" then (λ x, s <| stQos := x |>) <$> into_uint max_uint8 v (stQos s)
  else if String.eqb k "retain_as_pub" then (λ x, s <| stRetainAsPublished := x |>) <$> into_bool v (stRetainAsPublished s)
  else (λ x, s <| stNoLocal := x |>) <$> into_bool v (stNoLocal s).

(** Into a zero value; no data leaves it as it is. *)
Definition Client_UnmarshalBinary (data : string) : option storageClient :=
  if String.eqb data "" then Some no_client else v ← parse data; into_struct client_names set_client v no_client.
Definition Message_UnmarshalBinary (data : string) : option storageMessage :=
  if String.eqb data "" then Some no_message else v ← parse data; into_struct message_names set_message v no_message.
Definition Subscription_UnmarshalBinary (data : string) : option storageSubscription :=
  if String.eqb data "" then Some no_subscription
  else v ← parse data; into_struct subscription_names set_subscription v no_subscription.

(** ** Packets *)

Definition FormatID (pk : Packet) : string := FormatUint (pkPacketID pk).

Definition ToPacket (d : storageMessage) : Packet :=
  let p := smProperties d in
  let pk := no_packet
    <| pkFixedHeader := smFixedHeader d |> <| pkPacketID := smPacketID d |> <| pkTopicName := smTopicName d |>
    <| pkPayload := smPayload d |> <| pkOrigin := smOrigin d |> <| pkCreated := smCreated d |>
    <| pkProperties := no_properties
         <| PayloadFormat := mpPayloadFormat p |> <| PayloadFormatFlag := mpPayloadFormatFlag p |>
         <| MessageExpiryInterval := mpMessageExpiryInterval p |> <| ContentType := mpContentType p |>
         <| ResponseTopic := mpResponseTopic p |> <| CorrelationData := mpCorrelationData p |>
         <| SubscriptionIdentifier := mpSubscriptionIdentifier p |> <| TopicAlias := mpTopicAlias p |> <| User := mpUser p |> |> in
  let pk := Packet_Copy true pk in
  pk <| pkFixedHeader := (pkFixedHeader pk) <| fhDup := fhDup (smFixedHeader d) |> |>.

(** ** Lemmas: round trips *)

(** Values the Go types can hold, strings in UTF-8. *)
Definition int64 (z : Z) : Prop := (- Z.of_N int64_max - 1 <= z <= Z.of_N int64_max)%Z.
Definition wf_user_property (u : UserProperty) : Prop := utf8_Valid (Key u) = true ∧ utf8_Valid (Val u) = true.

Record wf_message (m : storageMessage) : Prop := {
  wm_strings : Forall (λ s, utf8_Valid s = true) [smT m; smID m; smClient m; smOrigin m; smTopicName m;
    mpContentType (smProperties m); mpResponseTopic (smProperties m)];
  wm_user : Forall wf_user_property (mpUser (smProperties m));
  wm_ints : Forall int64 (smCreated m :: smSent m :: mpSubscriptionIdentifier (smProperties m));
  wm_remaining : (fhRemaining (smFixedHeader m) <= int64_max)%N;
  wm_uint8 : Forall (λ n, n <= max_uint8)%N [fhType (smFixedHeader m); fhQos (smFixedHeader m); mpPayloadFormat (smProperties m)];
  wm_uint16 : Forall (λ n, n <= max_uint16)%N [smPacketID m; mpTopicAlias (smProperties m)];
  wm_expiry : (mpMessageExpiryInterval (smProperties m) <= max_uint32)%N;
}.

Record wf_subscription (s : storageSubscription) : Prop := {
  ws_strings : Forall (λ s, utf8_Valid s = true) [stT s; stID s; stClient s; stFilter s];
  ws_ident : int64 (stIdentifier s);
  ws_bytes : Forall (λ n, n <= max_uint8)%N [stRetainHandling s; stQos s];
}.

Record wf_client (c : storageClient) : Prop := {
  wc_strings : Forall (λ s, utf8_Valid s = true) [scID c; scT c; scRemote c; scListener c; cwTopicName (scWill c);
    cpsAuthenticationMethod (scProperties c)];
  wc_user : Forall wf_user_property (cwUser (scWill c) ++ cpsUser (scProperties c));
  wc_uint8 : Forall (λ n, n <= max_uint8)%N [scProtocolVersion c; cwQos (scWill c); cpsRequestProblemInfo (scProperties c);
    cpsRequestResponseInfo (scProperties c)];
  wc_uint16 : Forall (λ n, n <= max_uint16)%N [cpsReceiveMaximum (scProperties c); cpsTopicAliasMaximum (scProperties c)];
  wc_uint32 : Forall (λ n, n <= max_uint32)%N [cwFlag (scWill c); cwWillDelayInterval (scWill c);
    cpsSessionExpiryInterval (scProperties c); cpsMaximumPacketSize (scProperties c)];
}.

Lemma nonempty_false s : nonempty s = false → s = "".
Proof. unfold nonempty. by intros ?%negb_false_iff%String.eqb_eq. Qed.
Lemma nonzero_false n : nonzero n = false → n = 0%N.
Proof. unfold nonzero. by intros ?%negb_false_iff%N.eqb_eq. Qed.
Lemma nonzeroZ_false z : nonzeroZ z = false → z = 0%Z.
Proof. unfold nonzeroZ. by intros ?%negb_false_iff%Z.eqb_eq. Qed.
Lemma nonnil_false {A} (l : list A) : nonnil l = false → l = [].
Proof. by destruct l. Qed.

Lemma into_string_str s old : into_string (JStr s) old = Some s.
Proof. done. Qed.
Lemma into_bool_bool b old : into_bool (JBool b) old = Some b.
Proof. done. Qed.

Lemma into_user_json u : into_user (user_json u) (mkUserProperty "" "") = Some u.
Proof. by destruct u. Qed.

Lemma into_users_json l old : into_users (JArr (user_json <$> l)) old = Some l.
Proof. apply into_list_map. induction l; constructor; [apply into_user_json|done]. Qed.

Lemma into_ints_json l old : Forall int64 l → into_list 0%Z into_int (JArr (jint <$> l)) old = Some l.
Proof. intros Hl. apply into_list_map. eapply Forall_impl; [done|]. intros z Hz. by apply into_int_jint. Qed.

(** The setter of one field, given the value it was written as. *)
Ltac set_field :=
  intros; lazymatch goal with |- ?set _ _ _ = _ => unfold set end; cbv [String.eqb Ascii.eqb Bool.eqb];
  first [rewrite into_bytes_jbytes | rewrite into_users_json | rewrite into_uint_jnat by assumption
        | rewrite into_int_jint by assumption | rewrite into_ints_json by assumption | rewrite into_string_str | rewrite into_bool_bool
        | cbn [smProperties smFixedHeader scWill scProperties]; match goal with H : into_struct _ _ _ _ = _ |- _ => rewrite H end];
  lazymatch goal with |- ?f <$> Some ?x = Some ?q => let a := eval cbv in (f x) in unify q a; reflexivity end.

(** An omitted field has its zero value. *)
Ltac omitted :=
  let E := fresh in
  intros E; first [apply nonempty_false in E | apply nonzero_false in E | apply nonzeroZ_false in E | apply nonnil_false in E | idtac];
  subst; reflexivity.

Ltac fill_field :=
  first [apply fills_member; [reflexivity|set_field] | apply fills_member_opt; [reflexivity|set_field|omitted]].
Ltac fill_fields := repeat (eapply fills_app; [fill_field|]); fill_field.

(** Side conditions of the round trips, one hypothesis each. *)
Ltac split_foralls :=
  repeat match goal with
  | H : Forall _ (_ :: _) |- _ => apply Forall_cons in H as [? H]
  | H : Forall _ [] |- _ => clear H
  | H : Forall _ (_ ++ _) |- _ => apply Forall_app in H as [? H]
  end.

Lemma into_header_json h : (fhRemaining h <= int64_max)%N → (fhType h <= max_uint8)%N → (fhQos h <= max_uint8)%N →
  into_struct header_names set_header (header_json h) (new_header 0) = Some h.
Proof.
  intros Hr Ht Hq. destruct h as [r t q d x]. cbn in Hr, Ht, Hq. unfold new_header.
  change (fills header_names set_header (member "remaining" (jnat r) ++ member "type" (jnat t) ++ member "qos" (jnat q) ++
    member "dup" (JBool d) ++ member "retain" (JBool x)) (mkFixedHeader 0 0 0 false false) (mkFixedHeader r t q d x)).
  fill_fields.
Qed.

Lemma into_message_properties_json p : Forall int64 (mpSubscriptionIdentifier p) → (mpMessageExpiryInterval p <= max_uint32)%N →
  (mpTopicAlias p <= max_uint16)%N → (mpPayloadFormat p <= max_uint8)%N →
  into_struct message_properties_names set_message_properties (message_properties_json p) no_message_properties = Some p.
Proof.
  intros. destruct p. cbn in * |-. unfold message_properties_json, no_message_properties. cbn [mpCorrelationData mpSubscriptionIdentifier mpUser
    mpContentType mpResponseTopic mpMessageExpiryInterval mpTopicAlias mpPayloadFormat mpPayloadFormatFlag].
  match goal with |- into_struct ?n ?f (JObj ?l) ?r = Some ?q => change (fills n f l r q) end. fill_fields.
Qed.

Lemma into_client_properties_json p : (cpsSessionExpiryInterval p <= max_uint32)%N → (cpsMaximumPacketSize p <= max_uint32)%N →
  (cpsReceiveMaximum p <= max_uint16)%N → (cpsTopicAliasMaximum p <= max_uint16)%N → (cpsRequestProblemInfo p <= max_uint8)%N →
  (cpsRequestResponseInfo p <= max_uint8)%N →
  into_struct client_properties_names set_client_properties (client_properties_json p) no_client_properties = Some p.
Proof.
  intros. destruct p. cbn in * |-. unfold client_properties_json, no_client_properties.
  cbn [cpsAuthenticationData cpsUser cpsAuthenticationMethod cpsSessionExpiryInterval cpsMaximumPacketSize cpsReceiveMaximum
    cpsTopicAliasMaximum cpsSessionExpiryIntervalFlag cpsRequestProblemInfo cpsRequestProblemInfoFlag cpsRequestResponseInfo].
  match goal with |- into_struct ?n ?f (JObj ?l) ?r = Some ?q => change (fills n f l r q) end. fill_fields.
Qed.

Lemma into_client_will_json w : (cwFlag w <= max_uint32)%N → (cwWillDelayInterval w <= max_uint32)%N → (cwQos w <= max_uint8)%N →
  into_struct client_will_names set_client_will (client_will_json w) no_client_will = Some w.
Proof.
  intros. destruct w. cbn in * |-. unfold client_will_json, no_client_will.
  cbn [cwPayload cwUser cwTopicName cwFlag cwWillDelayInterval cwQos cwRetain].
  match goal with |- into_struct ?n ?f (JObj ?l) ?r = Some ?q => change (fills n f l r q) end. fill_fields.
Qed.

Lemma into_message_json m : wf_message m → into_struct message_names set_message (message_json m) no_message = Some m.
Proof.
  intros []. destruct m as [p pay t id cl org top h cr se pid]. cbn in * |-. split_foralls.
  pose proof (into_message_properties_json p ltac:(done) ltac:(done) ltac:(done) ltac:(done)) as Hp.
  pose proof (into_header_json h ltac:(done) ltac:(done) ltac:(done)) as Hh. unfold new_header in Hh.
  unfold message_json, no_message, new_header.
  cbn [smProperties smPayload smT smID smClient smOrigin smTopicName smFixedHeader smCreated smSent smPacketID].
  match goal with |- into_struct ?n ?f (JObj ?l) ?r = Some ?q => change (fills n f l r q) end. fill_fields.
Qed.

Lemma into_subscription_json x : wf_subscription x →
  into_struct subscription_names set_subscription (subscription_json x) no_subscription = Some x.
Proof.
  intros []. destruct x. cbn in * |-. split_foralls. unfold subscription_json, no_subscription.
  cbn [stT stID stClient stFilter stIdentifier stRetainHandling stQos stRetainAsPublished stNoLocal].
  match goal with |- into_struct ?n ?f (JObj ?l) ?r = Some ?q => change (fills n f l r q) end. fill_fields.
Qed.

Lemma into_client_json c : wf_client c → into_struct client_names set_client (client_json c) no_client = Some c.
Proof.
  intros []. destruct c as [w p u id t re li v cl]. cbn in * |-. split_foralls.
  pose proof (into_client_properties_json p ltac:(done) ltac:(done) ltac:(done) ltac:(done) ltac:(done) ltac:(done)) as Hp.
  pose proof (into_client_will_json w ltac:(done) ltac:(done) ltac:(done)) as Hw. unfold no_client_properties, no_client_will in *.
  unfold client_json, no_client, no_client_properties, no_client_will.
  cbn [scWill scProperties scUsername scID scT scRemote scListener scProtocolVersion scClean].
  match goal with |- into_struct ?n ?f (JObj ?l) ?r = Some ?q => change (fills n f l r q) end. fill_fields.
Qed.

Lemma printable_users l : Forall wf_user_property l → printable (JArr (user_json <$> l)).
Proof.
  intros Hl. apply printable_arr. rewrite Forall_fmap. eapply Forall_impl; [exact Hl|]. intros u [Hk Hv].
  apply printable_obj. by repeat constructor.
Qed.

Lemma printable_ints l : printable (JArr (jint <$> l)).
Proof. apply printable_arr. rewrite Forall_fmap. induction l; constructor; [apply printable_jint|done]. Qed.

Create HintDb printing.
#[export] Hint Resolve printable_jnat printable_jint printable_jbytes printable_users printable_ints : printing.

(** Every field can be written. *)
Ltac print_fields :=
  apply printable_obj; repeat apply Forall_app_2;
  (first [apply printable_member | apply printable_member_opt]; [reflexivity|]; auto with printing; try done).

Lemma printable_message m : wf_message m → printable (message_json m).
Proof.
  intros []. split_foralls. assert (printable (message_properties_json (smProperties m))) by (unfold message_properties_json; print_fields).
  assert (printable (header_json (smFixedHeader m))) by (unfold header_json; print_fields). unfold message_json. print_fields.
Qed.

Lemma printable_subscription x : wf_subscription x → printable (subscription_json x).
Proof. intros []. split_foralls. unfold subscription_json. print_fields. Qed.

Lemma printable_client c : wf_client c → printable (client_json c).
Proof.
  intros []. split_foralls. assert (printable (client_properties_json (scProperties c))) by (unfold client_properties_json; print_fields).
  assert (printable (client_will_json (scWill c))) by (unfold client_will_json; print_fields). unfold client_json. print_fields.
Qed.

Lemma message_roundtrip m : wf_message m → Message_UnmarshalBinary (Message_MarshalBinary m) = Some m.
Proof.
  intros Hwf. unfold Message_UnmarshalBinary, Message_MarshalBinary. rewrite parse_print_json by by apply printable_message.
  by apply into_message_json.
Qed.

Lemma subscription_roundtrip x : wf_subscription x → Subscription_UnmarshalBinary (Subscription_MarshalBinary x) = Some x.
Proof.
  intros Hwf. unfold Subscription_UnmarshalBinary, Subscription_MarshalBinary.
  rewrite parse_print_json by by apply printable_subscription. by apply into_subscription_json.
Qed.

Lemma client_roundtrip c : wf_client c → Client_UnmarshalBinary (Client_MarshalBinary c) = Some c.
Proof.
  intros Hwf. unfold Client_UnmarshalBinary, Client_MarshalBinary. rewrite parse_print_json by by apply printable_client.
  by apply into_client_json.
Qed.
