(* ===== verification/Redis.v ===== *)
(** Redis, as the session store uses it, and programs that talk to it.

    The server is a parameter: [RedisServer] is what answers a command, and
    [RedisDocumented] says that it answers as the command reference does. Go code
    that talks to Redis is a [prog], a tree of the requests it makes and of what
    it does with each answer; Lua scripts are trees of commands that run
    atomically. [run] executes a program on a node whose Redis other nodes use at
    the same time: between any two requests the database may change, requests may
    fail with or without having been executed, and a transaction aborts when a
    watched key was touched. *)

From S2P Require Import Prelude GoStrings Base64 Decimal.

(** ** Data *)

Inductive redisValue :=
  | RString (s : string)
  | RHash (h : gmap string string)
  | RSet (m : gset string).

#[export] Instance redisValue_eq_dec : EqDecision redisValue.
Proof. solve_decision. Defined.

Abbreviation db := (gmap string redisValue).

Inductive redisErr :=
  | WrongType
  | NotAnInteger
  | ConnErr.

Abbreviation redisResult A := (sum redisErr A).

(** The commands, by the type of their reply. A nil reply is [None]; times to
    live are in nanoseconds, 0 for none. *)
Inductive cmd : Type → Type :=
  | GET (k : string) : cmd (option string)
  | SET (k v : string) (ttl : Z) : cmd unit
  | SETNX (k v : string) (ttl : Z) : cmd bool
  | DEL (ks : list string) : cmd N
  | EXISTS (ks : list string) : cmd N
  | INCR (k : string) : cmd Z
  | HSET (k f v : string) : cmd N
  | HSETNX (k f v : string) : cmd bool
  | HGET (k f : string) : cmd (option string)
  | HDEL (k : string) (fs : list string) : cmd N
  | HEXISTS (k f : string) : cmd bool
  | HLEN (k : string) : cmd N
  | HGETALL (k : string) : cmd (gmap string string)
  | SADD (k m : string) : cmd N
  | SREM (k m : string) : cmd N
  | SSCAN (k : string) (cursor : N) : cmd (list string * N)
  | HSCAN (k : string) (cursor : N) : cmd (list (string * string) * N).

Class RedisServer := {
  redis_call : ∀ {A}, cmd A → db → redisResult A * db;
  (** The page and the next cursor that a scan of a collection returns. *)
  redis_sscan_page : gset string → N → list string * N;
  redis_hscan_page : gmap string string → N → list (string * string) * N;
}.

(** ** The command reference *)

Definition hash_at (d : db) (k : string) : redisResult (gmap string string) :=
  match d !! k with None => inr ∅ | Some (RHash h) => inr h | Some _ => inl WrongType end.
Definition set_at (d : db) (k : string) : redisResult (gset string) :=
  match d !! k with None => inr ∅ | Some (RSet m) => inr m | Some _ => inl WrongType end.
Definition string_at (d : db) (k : string) : redisResult (option string) :=
  match d !! k with None => inr None | Some (RString s) => inr (Some s) | Some _ => inl WrongType end.

(** Empty collections do not exist. *)
Definition put_hash (k : string) (h : gmap string string) (d : db) : db :=
  if decide (h = ∅) then delete k d else <[k := RHash h]> d.
Definition put_set (k : string) (m : gset string) (d : db) : db :=
  if decide (m = ∅) then delete k d else <[k := RSet m]> d.

Definition with_type {A B} (d : db) (r : redisResult A) (f : A → B * db) : redisResult B * db :=
  match r with inl e => (inl e, d) | inr a => let '(b, d') := f a in (inr b, d') end.

Definition count_true (l : list bool) : N := N.of_nat (length (List.filter id l)).
Definition present {A} (m : gmap string A) (k : string) : bool := bool_decide (is_Some (m !! k)).

Definition documented `{RedisServer} {A} (c : cmd A) (d : db) : redisResult A * db :=
  match c in cmd A return redisResult A * db with
  | GET k => with_type d (string_at d k) (λ v, (v, d))
  | SET k v _ => (inr tt, <[k := RString v]> d)
  | SETNX k v _ => if present d k then (inr false, d) else (inr true, <[k := RString v]> d)
  | DEL ks => (inr (count_true (map (present d) (remove_dups ks))), foldr delete d ks)
  | EXISTS ks => (inr (count_true (map (present d) ks)), d)
  | INCR k =>
      match string_at d k with
      | inl e => (inl e, d)
      | inr v =>
          match (match v with None => Some 0%Z | Some s => ParseInt s end) with
          | None => (inl NotAnInteger, d)
          | Some n => if (n <? Z.of_N int64_max)%Z then (inr (n + 1)%Z, <[k := RString (Itoa (n + 1))]> d)
                      else (inl NotAnInteger, d)
          end
      end
  | HSET k f v => with_type d (hash_at d k) (λ h, (if present h f then 0%N else 1%N, put_hash k (<[f := v]> h) d))
  | HSETNX k f v =>
      with_type d (hash_at d k) (λ h, if present h f then (false, d) else (true, put_hash k (<[f := v]> h) d))
  | HGET k f => with_type d (hash_at d k) (λ h, (h !! f, d))
  | HDEL k fs =>
      with_type d (hash_at d k) (λ h, (count_true (map (present h) (remove_dups fs)), put_hash k (foldr delete h fs) d))
  | HEXISTS k f => with_type d (hash_at d k) (λ h, (present h f, d))
  | HLEN k => with_type d (hash_at d k) (λ h, (N.of_nat (size h), d))
  | HGETALL k => with_type d (hash_at d k) (λ h, (h, d))
  | SADD k m => with_type d (set_at d k) (λ s, (if bool_decide (m ∈ s) then 0%N else 1%N, put_set k ({[m]} ∪ s) d))
  | SREM k m => with_type d (set_at d k) (λ s, (if bool_decide (m ∈ s) then 1%N else 0%N, put_set k (s ∖ {[m]}) d))
  | SSCAN k cursor => with_type d (set_at d k) (λ s, (redis_sscan_page s cursor, d))
  | HSCAN k cursor => with_type d (hash_at d k) (λ h, (redis_hscan_page h cursor, d))
  end.

(** The pages a client gets when it follows the cursors, starting at [cursor],
    until the server returns 0. *)
Inductive scanned {A} (page : N → list A * N) : N → list (list A) → Prop :=
  | scanned_last cursor l : page cursor = (l, 0%N) → scanned page cursor [l]
  | scanned_more cursor l next ls : page cursor = (l, next) → next ≠ 0%N → scanned page next ls →
      scanned page cursor (l :: ls).

(** A full scan ends and returns every element, possibly more than once. *)
Class RedisDocumented `{RedisServer} : Prop := {
  redis_documented : ∀ {A} (c : cmd A) d, redis_call c d = documented c d;
  redis_sscan : ∀ s, ∃ pages, scanned (redis_sscan_page s) 0 pages ∧ list_to_set (concat pages) = s;
  redis_hscan : ∀ h, ∃ pages, scanned (redis_hscan_page h) 0 pages ∧ ∀ f v, (f, v) ∈ concat pages ↔ h !! f = Some v;
}.

(** ** Lua scripts *)

Inductive lua (A : Type) : Type :=
  | LRet (a : A)
  | LCall {X} (c : cmd X) (k : X → lua A).
Arguments LRet {A} a.
Arguments LCall {A X} c k.

(** A command that fails stops the script; what it did before stays. *)
Fixpoint run_lua `{RedisServer} {A} (p : lua A) (d : db) : redisResult A * db :=
  match p with
  | LRet a => (inr a, d)
  | LCall c k =>
      match redis_call c d with
      | (inl e, d) => (inl e, d)
      | (inr x, d) => run_lua (k x) d
      end
  end.

(** ** Programs *)

Inductive anycmd :=
  | Any {A} (c : cmd A).

(** What Go code asks of its surroundings. *)
Inductive event : Type → Type :=
  | Do {A} (c : cmd A) : event (redisResult A)
  | Multi (cs : list anycmd) : event (redisResult unit)             (* MULTI ... EXEC *)
  | Eval (p : lua Z) : event (redisResult Z)
  | Watch (ks : list string) : event (redisResult unit)
  | Exec (cs : list anycmd) : event (redisResult bool)              (* under WATCH; false: aborted *)
  | ReadHint : event Z                                              (* the cached schema *)
  | WriteHint (z : Z) : event unit
  | CtxErr : event bool                                             (* whether the context is done *)
  | LockClient (client : string) : event bool                       (* false: the context was done first *)
  | UnlockClient (client : string) : event unit
  | Now : event Z
  | NewUUID : event string
  | Order {A} (l : list A) : event (list A).                        (* the order a Go map is ranged over *)

Inductive prog (A : Type) : Type :=
  | Ret (a : A)
  | Vis {X} (e : event X) (k : X → prog A).
Arguments Ret {A} a.
Arguments Vis {A X} e k.

Fixpoint prog_bind {A B} (f : A → prog B) (p : prog A) : prog B :=
  match p with
  | Ret a => f a
  | Vis e k => Vis e (λ x, prog_bind f (k x))
  end.
#[export] Instance prog_ret : MRet prog := @Ret.
#[export] Instance prog_mbind : MBind prog := @prog_bind.

Definition ask {X} (e : event X) : prog X := Vis e Ret.

Fixpoint for_each {A B} (f : A → prog B) (l : list A) : prog (list B) :=
  match l with
  | [] => Ret []
  | x :: l => y ← f x; ys ← for_each f l; Ret (y :: ys)
  end.

(** ** Execution *)

(** Redis, the schema cached in the process, and the keys the connection
    watches with whether one of them was touched. *)
Record world := mkWorld {
  wDb : db;
  wHint : Z;
  wWatch : option (list string * bool);
}.

#[export] Instance world_remake : Remake world := {| remake := λ w, mkWorld (wDb w) (wHint w) (wWatch w) |}.

(** The commands of a transaction, one after the other; a failing one does not
    stop the others, its error is the result. *)
Fixpoint exec_all `{RedisServer} (cs : list anycmd) (d : db) : redisResult unit * db :=
  match cs with
  | [] => (inr tt, d)
  | Any c :: cs =>
      let '(r, d) := redis_call c d in
      let '(rs, d) := exec_all cs d in
      (match r with inl e => inl e | inr _ => rs end, d)
  end.

(** Whether a watched key differs. *)
Definition touched (ks : list string) (d d' : db) : bool := existsb (λ k, negb (bool_decide (d !! k = d' !! k))) ks.

Definition committed (r : redisResult unit) : redisResult bool :=
  match r with inl e => inl e | inr _ => inr true end.

(** The database transition a request made, if it made one. *)
Definition effect (d d' : db) : list (db * db) := if decide (d = d') then [] else [(d, d')].

(** What a program has to expect: what others do to the database and the cached
    schema, and whether requests can fail and contexts be cancelled. *)
Record environment := mkEnvironment {
  others : db * Z → db * Z → Prop;
  failures : Prop;
}.

Section run.
  Context `{RedisServer} (env : environment).

(** Other nodes and goroutines: any number of steps of theirs. A key can be
    touched without changing. *)
Definition interference (w w' : world) : Prop :=
  rtc (others env) (wDb w, wHint w) (wDb w', wHint w') ∧
  match wWatch w, wWatch w' with
  | None, None => True
  | Some (ks, dirty), Some (ks', dirty') =>
      ks' = ks ∧ (dirty' = false → dirty = false ∧ touched ks (wDb w) (wDb w') = false)
  | _, _ => False
  end.

(** A request that the server executes: the answer may get lost, or the request
    itself. *)
Definition answered {A} (exec : db → redisResult A * db) (w : world) (x : redisResult A) (w' : world)
    (tr : list (db * db)) : Prop :=
  let '(r, d) := exec (wDb w) in
  ((x = r ∨ (failures env ∧ x = inl ConnErr)) ∧
   w' = mkWorld d (wHint w) ((λ '(ks, dirty), (ks, dirty || touched ks (wDb w) d)) <$> wWatch w) ∧ tr = effect (wDb w) d) ∨
  (failures env ∧ x = inl ConnErr ∧ w' = w ∧ tr = []).

(** One request: its answer, the new world and the database transition it made. *)
Definition step {X} (e : event X) : world → X → world → list (db * db) → Prop :=
  match e in event X return world → X → world → list (db * db) → Prop with
  | Do c => answered (redis_call c)
  | Multi cs => answered (exec_all cs)
  | Eval p => answered (run_lua p)
  | Watch ks => λ w x w' tr,
      tr = [] ∧ ((x = inr tt ∧ w' = w <| wWatch := Some (ks, false) |>) ∨ (failures env ∧ x = inl ConnErr ∧ w' = w))
  | Exec cs => λ w x w' tr,
      let '(r, d) := exec_all cs (wDb w) in
      ((∃ ks, wWatch w = Some (ks, false)) ∧ (x = committed r ∨ (failures env ∧ x = inl ConnErr)) ∧ w' = mkWorld d (wHint w) None ∧
       tr = effect (wDb w) d) ∨
      ((∃ ks, wWatch w = Some (ks, true)) ∧ x = inr false ∧ w' = w <| wWatch := None |> ∧ tr = []) ∨
      ((failures env ∨ wWatch w = None) ∧ x = inl ConnErr ∧ w' = w <| wWatch := None |> ∧ tr = [])
  | ReadHint => λ w x w' tr, x = wHint w ∧ w' = w ∧ tr = []
  | WriteHint z => λ w x w' tr, w' = w <| wHint := z |> ∧ tr = []
  | CtxErr => λ w x w' tr, (x = true → failures env) ∧ w' = w ∧ tr = []
  | LockClient _ => λ w x w' tr, (x = false → failures env) ∧ w' = w ∧ tr = []
  | UnlockClient _ | Now | NewUUID => λ w x w' tr, w' = w ∧ tr = []
  | Order l => λ w x w' tr, x ≡ₚ l ∧ w' = w ∧ tr = []
  end.

(** A whole program; the trace lists what its requests did to the database. *)
Fixpoint run {A} (p : prog A) (w : world) (a : A) (w' : world) (tr : list (db * db)) : Prop :=
  match p with
  | Ret a' => a = a' ∧ w' = w ∧ tr = []
  | Vis e k => ∃ w0 x w1 tr1 tr2,
      interference w w0 ∧ step e w0 x w1 tr1 ∧ run (k x) w1 a w' tr2 ∧ tr = tr1 ++ tr2
  end.
End run.

(** No one else uses Redis, and it always answers. *)
Definition quiet : environment := mkEnvironment (λ _ _, False) False.
(** Anyone may do anything, and anything may fail. *)
Definition hostile : environment := mkEnvironment (λ _ _, True) True.

(** ** A server in memory

    Scans return one page. *)
Definition memory_pages : RedisServer := {|
  redis_call := λ A c d, (inl ConnErr, d);
  redis_sscan_page := λ s _, (elements s, 0%N);
  redis_hscan_page := λ h _, (map_to_list h, 0%N);
|}.

Definition memory : RedisServer := {|
  redis_call := λ A c d, @documented memory_pages A c d;
  redis_sscan_page := λ s _, (elements s, 0%N);
  redis_hscan_page := λ h _, (map_to_list h, 0%N);
|}.

#[export] Instance memory_documented : @RedisDocumented memory.
Proof.
  split.
  - by intros A [].
  - intros s. exists [elements s]. split; [by constructor|]. rewrite concat_cons, concat_nil, app_nil_r.
    by rewrite list_to_set_elements_L.
  - intros h. exists [map_to_list h]. split; [by constructor|]. intros f v.
    rewrite concat_cons, concat_nil, app_nil_r. apply elem_of_map_to_list.
Qed.

(** A program alone with a server that always answers. [now] and [uuid] are what
    the clock and the generator return. *)
Fixpoint perform `{RedisServer} {A} (now : Z) (uuid : string) (p : prog A) (w : world) : A * world :=
  match p with
  | Ret a => (a, w)
  | @Vis _ X e k =>
      let '(x, w) :=
        match e in event X return world → X * world with
        | Do c => λ w, let '(r, d) := redis_call c (wDb w) in
                       (r, mkWorld d (wHint w) ((λ '(ks, dirty), (ks, dirty || touched ks (wDb w) d)) <$> wWatch w))
        | Multi cs => λ w, let '(r, d) := exec_all cs (wDb w) in
                       (r, mkWorld d (wHint w) ((λ '(ks, dirty), (ks, dirty || touched ks (wDb w) d)) <$> wWatch w))
        | Eval p => λ w, let '(r, d) := run_lua p (wDb w) in
                       (r, mkWorld d (wHint w) ((λ '(ks, dirty), (ks, dirty || touched ks (wDb w) d)) <$> wWatch w))
        | Watch ks => λ w, (inr tt, w <| wWatch := Some (ks, false) |>)
        | Exec cs => λ w,
            match wWatch w with
            | None => (inl ConnErr, w <| wWatch := None |>)
            | Some (_, true) => (inr false, w <| wWatch := None |>)
            | Some (_, false) => let '(r, d) := exec_all cs (wDb w) in (committed r, mkWorld d (wHint w) None)
            end
        | ReadHint => λ w, (wHint w, w)
        | WriteHint z => λ w, (tt, w <| wHint := z |>)
        | CtxErr => λ w, (false, w)
        | LockClient _ => λ w, (true, w)
        | UnlockClient _ => λ w, (tt, w)
        | Now => λ w, (now, w)
        | NewUUID => λ w, (uuid, w)
        | Order l => λ w, (l, w)
        end w in
      perform now uuid (k x) w
  end.

(** ** Lemmas: runs *)

Section lemmas.
  Context `{RedisServer} (env : environment).

Lemma interference_refl w : interference env w w.
Proof.
  split; [done|]. destruct (wWatch w) as [[ks dirty]|]; [|done]. split; [done|]. intros ->. split; [done|].
  unfold touched. induction ks as [|k ks IH]; [done|]. simpl. by rewrite bool_decide_eq_true_2.
Qed.

Lemma run_bind {A B} (p : prog A) (f : A → prog B) w b w' tr :
  run env (p ≫= f) w b w' tr ↔
  ∃ a w1 tr1 tr2, run env p w a w1 tr1 ∧ run env (f a) w1 b w' tr2 ∧ tr = tr1 ++ tr2.
Proof.
  revert w b w' tr. induction p as [a|X e k IH]; intros w b w' tr.
  - split.
    + intros Hr. by exists a, w, [], tr.
    + intros (? & ? & ? & ? & (-> & -> & ->) & Hr & ->). done.
  - change (run env (Vis e k ≫= f) w b w' tr) with (run env (Vis e (λ x, k x ≫= f)) w b w' tr). simpl. split.
    + intros (w0 & x & w1 & tr1 & tr2 & Hi & Hs & Hr & ->). apply IH in Hr as (a & w2 & tr3 & tr4 & Hr1 & Hr2 & ->).
      exists a, w2, (tr1 ++ tr3), tr4. split_and!; [|done|by rewrite app_assoc]. by exists w0, x, w1, tr1, tr3.
    + intros (a & w2 & ? & tr4 & (w0 & x & w1 & tr1 & tr3 & Hi & Hs & Hr1 & ->) & Hr2 & ->).
      exists w0, x, w1, tr1, (tr3 ++ tr4). split_and!; [done|done| |by rewrite app_assoc]. apply IH. by exists a, w2, tr3, tr4.
Qed.

Lemma perform_run {A} now uuid (p : prog A) w :
  ∃ tr, run env p w (perform now uuid p w).1 (perform now uuid p w).2 tr.
Proof.
  revert w. induction p as [a|X e k IH]; intros w; [by exists []|]. cbn [perform run].
  set (f := match e in event X return world → X * world with Do _ => _ | _ => _ end).
  assert (∃ tr, step env e w (f w).1 (f w).2 tr) as [tr Hs].
  { destruct e as [A' c|cs|p|ks|cs| | | | | | | |]; unfold f; simpl; unfold answered.
    - destruct (redis_call c (wDb w)) as [r d]. eexists. left. eauto.
    - destruct (exec_all cs (wDb w)) as [r d]. eexists. left. eauto.
    - destruct (run_lua p (wDb w)) as [r d]. eexists. left. eauto.
    - exists []. eauto.
    - destruct (exec_all cs (wDb w)) as [r d]. destruct (wWatch w) as [[ks []]|]; eexists;
        [right; left|left|right; right]; simpl; split_and!; eauto.
    - by exists [].
    - by exists [].
    - by exists [].
    - by exists [].
    - by exists [].
    - by exists [].
    - by exists [].
    - by exists []. }
  destruct (f w) as [x w1] eqn:E. simpl in Hs. destruct (IH x w1) as [tr2 Hr].
  exists (tr ++ tr2), w, x, w1, tr, tr2. split_and!; [apply interference_refl|done|done|done].
Qed.

(** ** Lemmas: watched keys *)

(** The databases agree on the keys. *)
Definition agree (ks : list string) (d d' : db) : Prop := ∀ k, k ∈ ks → d !! k = d' !! k.

Lemma touched_false ks d d' : touched ks d d' = false ↔ agree ks d d'.
Proof.
  unfold touched, agree. rewrite <-not_true_iff_false, existsb_exists'. setoid_rewrite negb_true_iff.
  setoid_rewrite bool_decide_eq_false. split.
  - intros Hn k Hk. destruct (decide (d !! k = d' !! k)) as [|E]; [done|]. exfalso. eauto.
  - intros Ha (k & Hk & E). auto.
Qed.

(** The connection watches [ks] since the database was [d0]; as long as no key was
    touched the database still agrees with [d0]. *)
Definition watching (ks : list string) (d0 : db) (w : world) : Prop :=
  ∃ dirty, wWatch w = Some (ks, dirty) ∧ (dirty = false → agree ks (wDb w) d0).
Definition clean (w : world) : Prop := ∃ ks, wWatch w = Some (ks, false).

Lemma clean_agree ks d0 w : watching ks d0 w → clean w → agree ks (wDb w) d0.
Proof. intros (dirty & E & Ha) (ks' & E'). rewrite E in E'. simplify_eq. auto. Qed.

Lemma watching_interference ks d0 w w' : interference env w w' → watching ks d0 w → watching ks d0 w' ∧ (clean w' → clean w).
Proof.
  intros [_ Hw] (dirty & E & Ha). rewrite E in Hw. destruct (wWatch w') as [[ks' dirty']|] eqn:E'; [|done].
  destruct Hw as [-> Hd]. split.
  - exists dirty'. split; [done|]. intros ->. destruct (Hd eq_refl) as [-> Ht]. apply touched_false in Ht.
    intros k Hk. rewrite <-Ht by done. by apply Ha.
  - intros (ks' & E2). rewrite E' in E2. simplify_eq. destruct (Hd eq_refl) as [-> _]. by exists ks'.
Qed.

(** A request that only reads. *)
Lemma watching_read {A} (exec : db → redisResult A * db) ks d0 w w0 x w1 tr :
  (∀ d, (exec d).2 = d) → watching ks d0 w → interference env w w0 → answered env exec w0 x w1 tr →
  tr = [] ∧ watching ks d0 w1 ∧ (clean w1 → clean w) ∧ wHint w1 = wHint w0 ∧
  (∀ a, x = inr a → ∃ d, (clean w1 → agree ks d d0) ∧ (exec d).1 = inr a).
Proof.
  intros Hread Hw Hi Ha. destruct (watching_interference _ _ _ _ Hi Hw) as [Hw0 Hc]. specialize (Hread (wDb w0)).
  unfold answered in Ha. destruct (exec (wDb w0)) as [r d] eqn:E. simpl in Hread. subst d.
  destruct Ha as [(Hx & -> & ->)|(_ & -> & -> & ->)].
  - assert (mkWorld (wDb w0) (wHint w0) ((λ '(ks, dirty), (ks, dirty || touched ks (wDb w0) (wDb w0))) <$> wWatch w0) = w0) as ->.
    { destruct Hw0 as (dirty & E0 & _). rewrite E0. simpl.
      assert (touched ks (wDb w0) (wDb w0) = false) as -> by (by apply touched_false). rewrite orb_false_r, <-E0. by destruct w0. }
    unfold effect. rewrite decide_True by done. split_and!; [done|done|done|done|]. intros a ->. destruct Hx as [<-|[_ [=]]].
    exists (wDb w0). split; [by apply clean_agree|]. by rewrite E.
  - split_and!; done.
Qed.
End lemmas.

(** ** Lemmas: programs without interference *)

Section perform.
  Context `{RedisServer} (now : Z) (uuid : string).

Lemma perform_bind {A B} (p : prog A) (f : A → prog B) w :
  perform now uuid (p ≫= f) w = let '(a, w1) := perform now uuid p w in perform now uuid (f a) w1.
Proof.
  revert w. induction p as [a|X e k IH]; intros w; [done|].
  change (Vis e k ≫= f) with (Vis e (λ x, k x ≫= f)). cbn [perform].
  set (g := match e in event X return world → X * world with Do _ => _ | _ => _ end). destruct (g w) as [x w1]. apply IH.
Qed.

Lemma touched_refl ks d : touched ks d d = false.
Proof. by apply touched_false. Qed.

Lemma watch_unchanged (w : option (list string * bool)) d : (λ '(ks, dirty), (ks, dirty || touched ks d d)) <$> w = w.
Proof. destruct w as [[ks dirty]|]; [|done]. simpl. by rewrite touched_refl, orb_false_r. Qed.

Lemma perform_do_read {A} (c : cmd A) w r : redis_call c (wDb w) = (r, wDb w) → perform now uuid (ask (Do c)) w = (r, w).
Proof. intros Hc. unfold ask. cbn [perform]. rewrite Hc, watch_unchanged. by destruct w. Qed.

Lemma perform_eval_read p w r : run_lua p (wDb w) = (r, wDb w) → perform now uuid (ask (Eval p)) w = (r, w).
Proof. intros Hc. unfold ask. cbn [perform]. rewrite Hc, watch_unchanged. by destruct w. Qed.
End perform.

(** ** Lemmas: the changes a program can make *)

Section effects.
  Context `{RedisServer} (env : environment).

(** Every change that a run of [p] makes satisfies [P]. *)
Definition effects {A} (p : prog A) (P : db → db → Prop) : Prop :=
  ∀ w a w' tr, run env p w a w' tr → Forall (λ '(d, d'), P d d') tr.

Lemma effects_ret {A} (a : A) P : effects (Ret a) P.
Proof. by intros w a' w' tr (-> & -> & ->). Qed.

Lemma effects_bind {A B} (p : prog A) (f : A → prog B) P :
  effects p P → (∀ a, effects (f a) P) → effects (p ≫= f) P.
Proof.
  intros Hp Hf w b w' tr (a & w1 & tr1 & tr2 & H1 & H2 & ->)%run_bind. apply Forall_app. split; [by eapply Hp|by eapply Hf].
Qed.

(** The same, with what is known of the value in between. *)
Lemma effects_bind_post {A B} (p : prog A) (f : A → prog B) P (Q : A → Prop) :
  effects p P → (∀ w a w' tr, run env p w a w' tr → Q a) → (∀ a, Q a → effects (f a) P) → effects (p ≫= f) P.
Proof.
  intros Hp HQ Hf w b w' tr (a & w1 & tr1 & tr2 & H1 & H2 & ->)%run_bind. apply Forall_app.
  split; [by eapply Hp|by eapply Hf; [eapply HQ|]].
Qed.

Lemma effect_Forall (P : db → db → Prop) d d' : (d ≠ d' → P d d') → Forall (λ '(d, d'), P d d') (effect d d').
Proof. intros HP. unfold effect. destruct (decide (d = d')); repeat constructor; auto. Qed.

Lemma answered_effects {A} (exec : db → redisResult A * db) (P : db → db → Prop) w x w' tr :
  (∀ d, d ≠ (exec d).2 → P d (exec d).2) → answered env exec w x w' tr → Forall (λ '(d, d'), P d d') tr.
Proof.
  intros HP. unfold answered. specialize (HP (wDb w)). destruct (exec (wDb w)) as [r d].
  intros [(_ & _ & ->)|(_ & _ & _ & ->)]; [by apply effect_Forall|done].
Qed.

Lemma effects_ask {X} (e : event X) P : (∀ w x w' tr, step env e w x w' tr → Forall (λ '(d, d'), P d d') tr) → effects (ask e) P.
Proof.
  intros He w a w' tr (w0 & x & w1 & tr1 & tr2 & _ & Hs & (-> & -> & ->) & ->). rewrite app_nil_r. by eapply He.
Qed.

Lemma effects_do {A} (c : cmd A) (P : db → db → Prop) :
  (∀ d, d ≠ (redis_call c d).2 → P d (redis_call c d).2) → effects (ask (Do c)) P.
Proof. intros HP. apply effects_ask. intros w x w' tr Hs. by eapply answered_effects. Qed.

Lemma effects_multi cs (P : db → db → Prop) :
  (∀ d, d ≠ (exec_all cs d).2 → P d (exec_all cs d).2) → effects (ask (Multi cs)) P.
Proof. intros HP. apply effects_ask. intros w x w' tr Hs. by eapply answered_effects. Qed.

Lemma effects_eval p (P : db → db → Prop) : (∀ d, d ≠ (run_lua p d).2 → P d (run_lua p d).2) → effects (ask (Eval p)) P.
Proof. intros HP. apply effects_ask. intros w x w' tr Hs. by eapply answered_effects. Qed.

(** Requests that leave the database alone. *)
Definition harmless {X} (e : event X) : bool :=
  match e with
  | Watch _ | ReadHint | WriteHint _ | CtxErr | LockClient _ | UnlockClient _ | Now | NewUUID | Order _ => true
  | _ => false
  end.

Lemma effects_harmless {X} (e : event X) P : harmless e = true → effects (ask e) P.
Proof. intros He. apply effects_ask. intros w x w' tr Hs. destruct e; try done; simpl in Hs; naive_solver. Qed.
End effects.
