(* ===== verification/Router.v ===== *)
(** The cluster routing table: internal/cluster/routing/router.go over the
    ClusterStore interface of internal/cluster/store/store.go.

    The store is a type class: the operations Router uses, with the documented
    behaviour as laws, and an in-memory instance. A [Router] is the local cache:
    the topic index, its inverse [byNode] and the two indices of offline shared
    ownership. Write operations act on the store and publish a [routeEvent];
    [applyEvent] and [reconcile] bring caches up to date. *)

From S2P Require Import Prelude GoStrings Acl Topics Base64.

(** ** Keys *)

Definition keySep : ascii := zero.

Definition routeKey (topic nodeID : string) : string := topic +:+ String keySep nodeID.

Definition parseRouteKey (key : string) : option (string * string) := cut_last keySep key.

Definition offlineRoutePrefix : string := "$offlineroute/".

Definition OfflineRouteKey (filter : string) : string := offlineRoutePrefix +:+ filter.

Definition ownershipKeyPrefix : string := "$offline/".

Definition OwnershipKey (clientID filter : string) : string :=
  ownershipKeyPrefix +:+ EncodeToString (clientID +:+ String zero filter).

Definition ownershipKeyParts (key : string) : option (string * string) :=
  if negb (has_prefix ownershipKeyPrefix key) then None
  else match DecodeString (trim_prefix ownershipKeyPrefix key) with
       | None => None
       | Some raw =>
           match cut zero raw with
           | None => None
           | Some (clientID, filter) => if String.eqb filter "" then None else Some (clientID, filter)
           end
       end.

Definition ownershipKeyClientID (key : string) : option string := fst <$> ownershipKeyParts key.

Definition sharedOwnerKey (nodeID clientID : string) : string := nodeID +:+ String keySep clientID.

Definition sharedOwnerNode (key : string) : option string :=
  match cut keySep key with
  | Some (l, _) => if String.eqb l "" then None else Some l
  | None => None
  end.

(** ** Events and the store *)

Inductive eventOp := eventSubscribe | eventUnsubscribe | eventUnsubscribeBatch | eventPurgeNode | eventOther.

Record routeEvent := mkEvent {
  evOp : eventOp;
  evTopic : string;
  evTopics : list string;
  evNodeID : string;
}.

(** What Router uses of a ClusterStore; [None] is an error. *)
Class ClusterStore (S : Type) := {
  store_keys : S → gset string;
  store_published : S → list routeEvent;
  store_Put : string → S → option S;
  store_Delete : list string → S → option S;
  store_Scan : S → option (list string);
  store_Publish : routeEvent → S → option S;
}.

(** The documented behaviour: Put writes the key, Delete removes the keys and
    does not mind missing ones, Scan visits every stored key, Publish leaves
    the keys alone. *)
Class ClusterStoreLaws (S : Type) `{ClusterStore S} := {
  law_Put k s s' : store_Put k s = Some s' →
    store_keys s' = {[k]} ∪ store_keys s ∧ store_published s' = store_published s;
  law_Delete ks s s' : store_Delete ks s = Some s' →
    store_keys s' = store_keys s ∖ list_to_set ks ∧ store_published s' = store_published s;
  law_Scan s l : store_Scan s = Some l → list_to_set l = store_keys s;
  law_Publish ev s s' : store_Publish ev s = Some s' →
    store_keys s' = store_keys s ∧ store_published s' = store_published s ++ [ev];
}.

(** An in-memory store that can be switched off. *)
Record memStore := mkMemStore { mem_keys : gset string; mem_events : list routeEvent; mem_up : bool }.

#[export] Instance memStore_ClusterStore : ClusterStore memStore := {
  store_keys := mem_keys;
  store_published := mem_events;
  store_Put k s := if mem_up s then Some (mkMemStore ({[k]} ∪ mem_keys s) (mem_events s) true) else None;
  store_Delete ks s := if mem_up s then Some (mkMemStore (mem_keys s ∖ list_to_set ks) (mem_events s) true) else None;
  store_Scan s := if mem_up s then Some (elements (mem_keys s)) else None;
  store_Publish ev s := if mem_up s then Some (mkMemStore (mem_keys s) (mem_events s ++ [ev]) true) else None;
}.

#[export] Instance memStore_Laws : ClusterStoreLaws memStore.
Proof.
  split; simpl.
  - intros k s s'. destruct (mem_up s); by intros [= <-].
  - intros ks s s'. destruct (mem_up s); by intros [= <-].
  - intros s l. destruct (mem_up s); intros [= <-]. apply list_to_set_elements_L.
  - intros ev s s'. destruct (mem_up s); by intros [= <-].
Qed.

(** ** The local cache *)

Record Router := mkRouter {
  index : particle;
  byNode : gmap string (gset string);
  offlineShared : gmap string particle;
  offlineSharedOwners : gmap string (gset string);
  storeUp : bool;
  storeFailures : N;
}.

Definition emptyRouter : Router := mkRouter NewTopicsIndex ∅ ∅ ∅ false 0.

Definition addOfflineSharedOwnershipLocked (topic nodeID : string) (r : Router) : Router :=
  match ownershipKeyParts topic with
  | None => r
  | Some (clientID, filter) =>
      match SharedFilter filter with
      | None => r
      | Some (_, underlying) =>
          let idx := default NewTopicsIndex (offlineShared r !! filter) in
          let ownerKey := sharedOwnerKey nodeID clientID in
          let owners := default ∅ (offlineSharedOwners r !! filter) in
          if bool_decide (ownerKey ∈ owners) then
            mkRouter (index r) (byNode r) (<[filter := idx]> (offlineShared r))
              (<[filter := owners]> (offlineSharedOwners r)) (storeUp r) (storeFailures r)
          else
            mkRouter (index r) (byNode r)
              (<[filter := (Subscribe ownerKey (filter_subscription underlying) idx).1]> (offlineShared r))
              (<[filter := {[ownerKey]} ∪ owners]> (offlineSharedOwners r)) (storeUp r) (storeFailures r)
      end
  end.

Definition removeOfflineSharedOwnershipLocked (topic nodeID : string) (r : Router) : Router :=
  match ownershipKeyParts topic with
  | None => r
  | Some (clientID, filter) =>
      match SharedFilter filter with
      | None => r
      | Some (_, underlying) =>
          match offlineShared r !! filter with
          | None => r
          | Some idx =>
              let ownerKey := sharedOwnerKey nodeID clientID in
              let idx := (Unsubscribe underlying ownerKey idx).1 in
              match offlineSharedOwners r !! filter with
              | None =>
                  mkRouter (index r) (byNode r) (<[filter := idx]> (offlineShared r))
                    (offlineSharedOwners r) (storeUp r) (storeFailures r)
              | Some owners =>
                  let owners := owners ∖ {[ownerKey]} in
                  if bool_decide (owners = ∅) then
                    mkRouter (index r) (byNode r) (delete filter (offlineShared r))
                      (delete filter (offlineSharedOwners r)) (storeUp r) (storeFailures r)
                  else
                    mkRouter (index r) (byNode r) (<[filter := idx]> (offlineShared r))
                      (<[filter := owners]> (offlineSharedOwners r)) (storeUp r) (storeFailures r)
              end
          end
      end
  end.

Definition addLocalLocked (topic nodeID : string) (r : Router) : Router :=
  let topics := default ∅ (byNode r !! nodeID) in
  addOfflineSharedOwnershipLocked topic nodeID
    (mkRouter (Subscribe nodeID (filter_subscription topic) (index r)).1
       (<[nodeID := {[topic]} ∪ topics]> (byNode r))
       (offlineShared r) (offlineSharedOwners r) (storeUp r) (storeFailures r)).

Definition removeLocalLocked (topic nodeID : string) (r : Router) : Router :=
  let byNode' :=
    match byNode r !! nodeID with
    | None => byNode r
    | Some topics =>
        let topics := topics ∖ {[topic]} in
        if bool_decide (topics = ∅) then delete nodeID (byNode r) else <[nodeID := topics]> (byNode r)
    end in
  removeOfflineSharedOwnershipLocked topic nodeID
    (mkRouter (Unsubscribe topic nodeID (index r)).1 byNode'
       (offlineShared r) (offlineSharedOwners r) (storeUp r) (storeFailures r)).

Definition topicsForNodeLocked (nodeID : string) (r : Router) : list string :=
  elements (default ∅ (byNode r !! nodeID)).

Definition TopicsForNode (nodeID : string) (r : Router) : list string := topicsForNodeLocked nodeID r.

Definition applyEvent (ev : routeEvent) (r : Router) : Router :=
  match evOp ev with
  | eventSubscribe => addLocalLocked (evTopic ev) (evNodeID ev) r
  | eventUnsubscribe => removeLocalLocked (evTopic ev) (evNodeID ev) r
  | eventUnsubscribeBatch => fold_left (λ r t, removeLocalLocked t (evNodeID ev) r) (evTopics ev) r
  | eventPurgeNode =>
      fold_left (λ r t, removeLocalLocked t (evNodeID ev) r) (topicsForNodeLocked (evNodeID ev) r) r
  | eventOther => r
  end.

(** One key of the scan in [reconcile]. *)
Definition reconcile_key (key : string) (r : Router) : Router :=
  match parseRouteKey key with
  | None => r
  | Some (topic, nodeID) =>
      let topics := default ∅ (byNode r !! nodeID) in
      let byNode' := <[nodeID := {[topic]} ∪ topics]> (byNode r) in
      let index' := (Subscribe nodeID (filter_subscription topic) (index r)).1 in
      match ownershipKeyParts topic with
      | None => mkRouter index' byNode' (offlineShared r) (offlineSharedOwners r) (storeUp r) (storeFailures r)
      | Some (clientID, filter) =>
          match SharedFilter filter with
          | None => mkRouter index' byNode' (offlineShared r) (offlineSharedOwners r) (storeUp r) (storeFailures r)
          | Some (_, underlying) =>
              let fresh := bool_decide (offlineShared r !! filter = None) in
              let idx := default NewTopicsIndex (offlineShared r !! filter) in
              let owners := if fresh then ∅ else default ∅ (offlineSharedOwners r !! filter) in
              let ownerKey := sharedOwnerKey nodeID clientID in
              mkRouter index' byNode'
                (<[filter := (Subscribe ownerKey (filter_subscription underlying) idx).1]> (offlineShared r))
                (<[filter := {[ownerKey]} ∪ owners]> (offlineSharedOwners r)) (storeUp r) (storeFailures r)
          end
      end
  end.

Section Operations.
  Context {S : Type} `{!ClusterStore S}.

(** [reconcile] on the result of Scan: the new cache and whether it succeeded. *)
Definition reconcile (s : S) (r : Router) : Router * bool :=
  match store_Scan s with
  | None =>
      (mkRouter (index r) (byNode r) (offlineShared r) (offlineSharedOwners r) false
         ((storeFailures r + 1) mod 2 ^ 64)%N, false)
  | Some keys =>
      let c := fold_left (λ r k, reconcile_key k r) keys emptyRouter in
      (mkRouter (index c) (byNode c) (offlineShared c) (offlineSharedOwners c) true 0, true)
  end.

(** *** Write path: the store afterwards and whether the call succeeded *)

Definition publish (ev : routeEvent) (s : S) : S * bool :=
  match store_Publish ev s with Some s' => (s', true) | None => (s, false) end.

Definition Router_Subscribe (topic nodeID : string) (s : S) : S * bool :=
  match store_Put (routeKey topic nodeID) s with
  | None => (s, false)
  | Some s => publish (mkEvent eventSubscribe topic [] nodeID) s
  end.

Definition Router_Unsubscribe (topic nodeID : string) (s : S) : S * bool :=
  match store_Delete [routeKey topic nodeID] s with
  | None => (s, false)
  | Some s => publish (mkEvent eventUnsubscribe topic [] nodeID) s
  end.

Definition UnsubscribeBatch (topics : list string) (nodeID : string) (r : Router) (s : S) : S * bool :=
  let topics := match topics with [] => TopicsForNode nodeID r | _ :: _ => topics end in
  match topics with
  | [] => (s, true)
  | _ :: _ =>
      match store_Delete ((λ t, routeKey t nodeID) <$> topics) s with
      | None => (s, false)
      | Some s => publish (mkEvent eventUnsubscribeBatch "" topics nodeID) s
      end
  end.

Definition PurgeNode (nodeID : string) (r : Router) (s : S) : S * bool :=
  match TopicsForNode nodeID r with
  | [] => (s, true)
  | topics =>
      match store_Delete ((λ t, routeKey t nodeID) <$> topics) s with
      | None => (s, false)
      | Some s => publish (mkEvent eventPurgeNode "" [] nodeID) s
      end
  end.
End Operations.

(** *** Read path *)

Record LivePlan := mkLivePlan { Nodes : gset string; SharedNodes : gmap string string }.

Definition LiveDeliveryPlan (topic localNodeID : string) (r : Router) : LivePlan :=
  let '(ns, sh) := SubscriberRoutingPlan topic localNodeID (index r) in mkLivePlan ns sh.

Definition NodesFor (topic localNodeID : string) (r : Router) : gset string :=
  Nodes (LiveDeliveryPlan topic localNodeID r).

Record offlineSharedSelection := mkSelection { selNode : string; selClient : string }.

(** One owner key in the selection loop. *)
Definition select_owner (choice : offlineSharedSelection) (ownerKey : string) : offlineSharedSelection :=
  match sharedOwnerNode ownerKey with
  | None => choice
  | Some nodeID =>
      let clientID := drop_bytes (String.length nodeID + 1) ownerKey in
      if String.eqb (selNode choice) "" || ltb nodeID (selNode choice)
         || (String.eqb nodeID (selNode choice) && ltb clientID (selClient choice))
      then mkSelection nodeID clientID else choice
  end.

(** The choice for one shared filter, with the order of the owner keys. *)
Definition select_owners (keys : list string) : option offlineSharedSelection :=
  let choice := fold_left select_owner keys (mkSelection "" "") in
  if String.eqb (selNode choice) "" then None else Some choice.

Definition offlineSharedSelectionsLocked (topic : string) (r : Router) :
    gmap string offlineSharedSelection :=
  let liveShared := Shared (TopicsIndex_Subscribers topic (index r)) in
  map_imap (λ filter sharedIndex,
    if bool_decide (is_Some (liveShared !! filter)) then None
    else select_owners (fst <$> map_to_list (Subscriptions (TopicsIndex_Subscribers topic sharedIndex))))
    (offlineShared r).

Definition OfflineNodesFor (topic : string) (r : Router) : list string :=
  let out := fst <$> map_to_list (Subscriptions (TopicsIndex_Subscribers (OfflineRouteKey topic) (index r))) in
  fold_left (λ out '(_, selected),
    if bool_decide (selNode selected ∈ out) then out else out ++ [selNode selected])
    (map_to_list (offlineSharedSelectionsLocked topic r)) out.

Definition OfflineSharedClientsFor (topic nodeID : string) (r : Router) : gmap string string :=
  fold_left (λ clients '(filter, selected),
    if String.eqb (selNode selected) nodeID then <[filter := selClient selected]> clients else clients)
    (map_to_list (offlineSharedSelectionsLocked topic r)) ∅.

(** The [add] closure: append unless already there. *)
Definition add_distinct (c : string) (clients : list string) : list string :=
  if bool_decide (c ∈ clients) then clients else clients ++ [c].

Definition OfflineDeliveryCandidates (topic nodeID : string) (r : Router) :
    list string * gmap string string :=
  let clients :=
    fold_left (λ clients key,
      match ownershipKeyParts key with
      | None => clients
      | Some (clientID, filter) =>
          match SharedFilter filter with
          | Some _ => clients
          | None => if MatchTopic filter topic then add_distinct clientID clients else clients
          end
      end) (elements (default ∅ (byNode r !! nodeID))) [] in
  fold_left (λ '(clients, sel) '(filter, selected),
    if String.eqb (selNode selected) nodeID
    then (add_distinct (selClient selected) clients, <[filter := selClient selected]> sel)
    else (clients, sel))
    (map_to_list (offlineSharedSelectionsLocked topic r)) (clients, ∅).

Definition OwnedClientIDs (nodeID : string) (r : Router) : list string :=
  fold_left (λ out t,
    match ownershipKeyClientID t with
    | None => out
    | Some clientID => add_distinct clientID out
    end) (TopicsForNode nodeID r) [].

Definition NodesWithRoutes (r : Router) : list string := fst <$> map_to_list (byNode r).

Definition Snapshot (r : Router) : gmap string (list string) :=
  fold_left (λ out '(nodeID, topics),
    fold_left (λ out t, <[t := default [] (out !! t) ++ [nodeID]]> out) (elements topics) out)
    (map_to_list (byNode r)) ∅.

(** ** Specification *)

(** The abstract routing table: which node is registered under which key. *)
Definition registered (r : Router) (t n : string) : Prop := t ∈ default ∅ (byNode r !! n).

(** Share filters in the spelling the broker stores them under. *)
Definition canonical (t : string) : Prop :=
  IsSharedFilter t = true →
  ∃ g rest, contains_byte "/" g = false ∧ t = "$share/" +:+ g +:+ "/" +:+ rest.

(** Table entries as the gateway writes them: canonical share filters,
    ownership keys built by OwnershipKey, node names without NUL. *)
Record regular (t n : string) : Prop := {
  reg_canonical : canonical t;
  reg_ownership : ∀ c f, ownershipKeyParts t = Some (c, f) → t = OwnershipKey c f;
  reg_node : contains_byte zero n = false;
  reg_node_nonempty : n ≠ "";
}.

(** The index holds exactly the table [R]. *)
Definition index_ok (R : string → string → Prop) (x : particle) : Prop :=
  trimmed x ∧
  ∀ s n sub, slot_lookup s n x = Some sub ↔ ∃ t, R t n ∧ slot t = s ∧ sub = filter_subscription t.

(** The owner keys of a shared filter according to the table. *)
Definition owner_of (R : string → string → Prop) (f ok : string) : Prop :=
  ∃ t n c g u, R t n ∧ ownershipKeyParts t = Some (c, f) ∧ SharedFilter f = Some (g, u) ∧
    ok = sharedOwnerKey n c.

Definition owners_ok (R : string → string → Prop) (off : gmap string particle)
    (own : gmap string (gset string)) : Prop :=
  (∀ f ok, ok ∈ default ∅ (own !! f) ↔ owner_of R f ok) ∧
  map_Forall (λ _ o, o ≠ ∅) own ∧
  (∀ f, match off !! f with
        | None => own !! f = None
        | Some idx => ∃ g u o, SharedFilter f = Some (g, u) ∧ own !! f = Some o ∧ trimmed idx ∧
            ∀ s k sub, slot_lookup s k idx = Some sub ↔
              k ∈ o ∧ s = slot u ∧ sub = filter_subscription u
        end).

Record router_inv (R : string → string → Prop) (r : Router) : Prop := {
  inv_table : ∀ t n, registered r t n ↔ R t n;
  inv_regular : ∀ t n, R t n → regular t n;
  inv_nonempty : map_Forall (λ _ ts, ts ≠ ∅) (byNode r);
  inv_index : index_ok R (index r);
  inv_owners : owners_ok R (offlineShared r) (offlineSharedOwners r);
}.

Definition table_add (t n : string) (R : string → string → Prop) : string → string → Prop :=
  λ t' n', R t' n' ∨ (t' = t ∧ n' = n).

Definition table_remove (t n : string) (R : string → string → Prop) : string → string → Prop :=
  λ t' n', R t' n' ∧ ¬ (t' = t ∧ n' = n).

(** ** Lemmas: keys *)

Lemma parse_routeKey topic nodeID :
  contains_byte zero nodeID = false → parseRouteKey (routeKey topic nodeID) = Some (topic, nodeID).
Proof. apply cut_last_app. Qed.

Lemma parseRouteKey_inv key topic nodeID :
  parseRouteKey key = Some (topic, nodeID) → key = routeKey topic nodeID ∧ contains_byte zero nodeID = false.
Proof. apply cut_last_Some. Qed.

Lemma ownershipKey_parts clientID filter :
  contains_byte zero clientID = false → filter ≠ "" →
  ownershipKeyParts (OwnershipKey clientID filter) = Some (clientID, filter).
Proof.
  intros Hc Hf. unfold ownershipKeyParts, OwnershipKey.
  rewrite has_prefix_app, trim_prefix_app, decode_encode. simpl.
  rewrite cut_app by done. by apply String.eqb_neq in Hf as ->.
Qed.

Lemma ownershipKeyParts_inv key c f :
  ownershipKeyParts key = Some (c, f) → contains_byte zero c = false ∧ f ≠ "".
Proof.
  unfold ownershipKeyParts. intros H. repeat case_match; try done. injection H as -> ->.
  breflect. split; [|done]. match goal with E : cut _ _ = Some _ |- _ => by apply cut_Some in E as [_ ?] end.
Qed.

Lemma sharedOwnerKey_inj n1 c1 n2 c2 :
  contains_byte zero n1 = false → contains_byte zero n2 = false →
  sharedOwnerKey n1 c1 = sharedOwnerKey n2 c2 → n1 = n2 ∧ c1 = c2.
Proof.
  intros H1 H2 H. pose proof (cut_app zero n1 c1 H1) as E1. unfold sharedOwnerKey, keySep in H.
  rewrite H, cut_app in E1 by done. by injection E1.
Qed.

(** Two canonical filters in the same slot are the same filter. *)
Lemma levels_shared g rest :
  contains_byte "/" g = false →
  IsSharedFilter ("$share/" +:+ g +:+ "/" +:+ rest) = true ∧
  slot ("$share/" +:+ g +:+ "/" +:+ rest) = (Some g, split "/" rest).
Proof.
  intros Hg.
  assert (cut "/" ("$share/" +:+ g +:+ "/" +:+ rest) = Some ("$share", g +:+ "/" +:+ rest)) as E1.
  { apply (cut_app "/" "$share"). done. }
  assert (cut "/" (g +:+ "/" +:+ rest) = Some (g, rest)) as E2.
  { apply (cut_app "/" g). done. }
  assert (IsSharedFilter ("$share/" +:+ g +:+ "/" +:+ rest) = true) as Hs.
  { unfold IsSharedFilter, isolateParticle. cbn [isolate_loop]. by rewrite E1. }
  split; [done|]. unfold slot. rewrite Hs. unfold isolateParticle. cbn [isolate_loop].
  rewrite E1, E2. cbn [fst]. by rewrite (levels_from_cut _ _ _ _ E1), (levels_from_cut _ _ _ _ E2), levels_from_0.
Qed.

Lemma slot_inj t1 t2 : canonical t1 → canonical t2 → slot t1 = slot t2 → t1 = t2.
Proof.
  intros H1 H2. destruct (IsSharedFilter t1) eqn:E1, (IsSharedFilter t2) eqn:E2.
  - destruct (H1 E1) as (g1 & r1 & Hg1 & ->), (H2 E2) as (g2 & r2 & Hg2 & ->).
    rewrite (proj2 (levels_shared g1 r1 Hg1)), (proj2 (levels_shared g2 r2 Hg2)). intros [= -> Hs].
    by apply split_inj in Hs as ->.
  - unfold slot. by rewrite E1, E2.
  - unfold slot. by rewrite E1, E2.
  - unfold slot. rewrite E1, E2, !levels_from_0. intros [= Hs]. by apply split_inj in Hs.
Qed.

(** ** Lemmas: the index against the table *)

Lemma index_ok_ext R R' x : (∀ t n, R t n ↔ R' t n) → index_ok R x → index_ok R' x.
Proof. intros HR [Ht H]. split; [done|]. intros s n sub. rewrite H. by setoid_rewrite HR. Qed.

Lemma index_ok_add R t n x :
  (∀ t' n', R t' n' → canonical t') → canonical t →
  index_ok R x → index_ok (table_add t n R) (Subscribe n (filter_subscription t) x).1.
Proof.
  intros HR Hc [Ht H]. split; [by apply Subscribe_trimmed|].
  intros s n' sub. rewrite Subscribe_lookup. simpl Filter. unfold table_add.
  destruct (decide (slot t = s ∧ n = n')) as [[<- <-]|Hd].
  - split; [intros [= <-]; exists t; auto|].
    intros (t' & [HR'|[-> _]] & Hs & ->); [|done]. apply HR in HR'. by rewrite (slot_inj t' t).
  - rewrite H. split; [naive_solver|]. intros (t' & [?|[-> ->]] & ? & ?); [eauto|]. tauto.
Qed.

Lemma index_ok_remove R t n x :
  (∀ t' n', R t' n' → canonical t') → canonical t →
  index_ok R x → index_ok (table_remove t n R) (Unsubscribe t n x).1.
Proof.
  intros HR Hc [Ht H]. split; [by apply Unsubscribe_trimmed|].
  intros s n' sub. rewrite Unsubscribe_lookup. unfold table_remove.
  destruct (decide (slot t = s ∧ n = n')) as [[<- <-]|Hd].
  - split; [done|]. intros (t' & [HR' Hn] & Hs & ->). destruct Hn. split; [|done].
    apply slot_inj; eauto.
  - rewrite H. split; [|naive_solver]. intros (t' & ? & ? & ?). exists t'. split_and!; try done.
    intros [-> ->]. by apply Hd.
Qed.

(** ** Lemmas: offline shared ownership against the table *)

Lemma owners_ok_ext R R' off own : (∀ t n, R t n ↔ R' t n) → owners_ok R off own → owners_ok R' off own.
Proof.
  intros HR (H1 & H2 & H3). split_and!; [|done|done]. intros f ok. rewrite H1.
  unfold owner_of. by setoid_rewrite HR.
Qed.

(** Entries that are not ownership keys of shared filters change nothing. *)
Definition shared_ownership (t : string) : option (string * string * string) :=
  match ownershipKeyParts t with
  | None => None
  | Some (c, f) => match SharedFilter f with Some (_, u) => Some (c, f, u) | None => None end
  end.

Lemma owner_of_shared R f ok :
  owner_of R f ok ↔ ∃ t n c u, R t n ∧ shared_ownership t = Some (c, f, u) ∧ ok = sharedOwnerKey n c.
Proof.
  unfold owner_of, shared_ownership. split.
  - intros (t & n & c & g & u & HR & E1 & E2 & ->). exists t, n, c, u. by rewrite E1, E2.
  - intros (t & n & c & u & HR & E & ->). repeat case_match; try done. injection E as -> -> ->.
    eexists t, n, c, _, u. split_and!; [done|done|eassumption|done].
Qed.

Lemma shared_ownership_Some t c f u :
  shared_ownership t = Some (c, f, u) ↔ ownershipKeyParts t = Some (c, f) ∧ ∃ g, SharedFilter f = Some (g, u).
Proof.
  unfold shared_ownership. split.
  - intros H. repeat case_match; try done. injection H as -> -> ->. eauto.
  - intros [-> [g ->]]. done.
Qed.

Lemma owners_ok_skip_add R t n off own :
  shared_ownership t = None → owners_ok R off own → owners_ok (table_add t n R) off own.
Proof.
  intros Hs (H1 & H2 & H3). split_and!; [|done|done]. intros f ok. rewrite H1, !owner_of_shared.
  unfold table_add. split; [naive_solver|].
  intros (t' & n' & c & u & [?|[-> ->]] & E & ?); [eauto 10|congruence].
Qed.

Lemma owners_ok_skip_remove R t n off own :
  shared_ownership t = None → owners_ok R off own → owners_ok (table_remove t n R) off own.
Proof.
  intros Hs (H1 & H2 & H3). split_and!; [|done|done]. intros f ok. rewrite H1, !owner_of_shared.
  unfold table_remove. split; [|naive_solver].
  intros (t' & n' & c & u & ? & E & ?). exists t', n', c, u. split_and!; try done.
  intros [-> _]. congruence.
Qed.

(** The owner keys of filter [f] after adding (t, n). *)
Lemma owner_of_add R t n c f u f' ok :
  shared_ownership t = Some (c, f, u) →
  owner_of (table_add t n R) f' ok ↔ owner_of R f' ok ∨ (f' = f ∧ ok = sharedOwnerKey n c).
Proof.
  intros Hs. rewrite !owner_of_shared. unfold table_add. split.
  - intros (t' & n' & c' & u' & [?|[-> ->]] & E & ->); [left; eauto 10|]. right. by simplify_eq.
  - intros [(t' & n' & c' & u' & ? & E & ->)|[-> ->]]; eauto 12.
Qed.

Lemma owner_of_remove R t n c f u f' ok :
  (∀ t' n', R t' n' → regular t' n') → regular t n →
  shared_ownership t = Some (c, f, u) →
  owner_of (table_remove t n R) f' ok ↔ owner_of R f' ok ∧ ¬ (f' = f ∧ ok = sharedOwnerKey n c).
Proof.
  intros HR Hreg Hs. rewrite !owner_of_shared. unfold table_remove. split.
  - intros (t' & n' & c' & u' & [HR' Hn] & E & ->). split; [eauto 10|]. intros [-> Hk].
    destruct (sharedOwnerKey_inj _ _ _ _ (reg_node _ _ (HR _ _ HR')) (reg_node _ _ Hreg) Hk) as [-> ->].
    apply Hn. split; [|done]. apply shared_ownership_Some in E as [E _]. apply shared_ownership_Some in Hs as [Hs _].
    rewrite (reg_ownership _ _ (HR _ _ HR') _ _ E). by rewrite (reg_ownership _ _ Hreg _ _ Hs).
  - intros [(t' & n' & c' & u' & HR' & E & ->) Hn]. exists t', n', c', u'. split_and!; try done.
    intros [-> ->]. apply Hn. by simplify_eq.
Qed.

Lemma slot_lookup_new s c : slot_lookup s c NewTopicsIndex = None.
Proof.
  destruct s as [[g|] p]; simpl; rewrite content_at_new; simpl; [|by rewrite lookup_empty].
  unfold shared_Get. simpl. by rewrite lookup_empty.
Qed.

(** What an index of offline owners holds before it is touched. *)
Lemma owners_ok_idx R off own f g u :
  owners_ok R off own → SharedFilter f = Some (g, u) →
  trimmed (default NewTopicsIndex (off !! f)) ∧
  ∀ s k sub, slot_lookup s k (default NewTopicsIndex (off !! f)) = Some sub ↔
    k ∈ default ∅ (own !! f) ∧ s = slot u ∧ sub = filter_subscription u.
Proof.
  intros (_ & _ & H3) Hf. specialize (H3 f). destruct (off !! f) as [idx|]; simpl.
  - destruct H3 as (g' & u' & o & Hf' & Ho & Ht & H). rewrite Hf in Hf'. injection Hf' as <- <-.
    by rewrite Ho.
  - rewrite H3. split; [apply trimmed_new|]. intros s k sub. rewrite slot_lookup_new. simpl.
    split; [done|]. by intros [[]%not_elem_of_empty _].
Qed.

Lemma owners_ok_add R t n c f u off own :
  shared_ownership t = Some (c, f, u) → owners_ok R off own →
  owners_ok (table_add t n R)
    (<[f := (Subscribe (sharedOwnerKey n c) (filter_subscription u) (default NewTopicsIndex (off !! f))).1]> off)
    (<[f := {[sharedOwnerKey n c]} ∪ default ∅ (own !! f)]> own).
Proof.
  intros Hs Hok. pose proof Hs as (_ & g & Hf)%shared_ownership_Some.
  pose proof (owners_ok_idx _ _ _ _ _ _ Hok Hf) as [Ht Hi]. destruct Hok as (H1 & H2 & H3).
  split_and!.
  - intros f' ok. rewrite (owner_of_add _ _ _ _ _ _ _ _ Hs), <-H1, lookup_insert.
    destruct (decide (f = f')) as [<-|Hn]; simpl; [set_solver|]. naive_solver.
  - apply map_Forall_insert_2; [set_solver|done].
  - intros f'. rewrite !lookup_insert. destruct (decide (f = f')) as [<-|Hn]; [|apply H3].
    exists g, u, ({[sharedOwnerKey n c]} ∪ default ∅ (own !! f)). split_and!; [done|done|by apply Subscribe_trimmed|].
    intros s k sub. rewrite Subscribe_lookup. simpl Filter.
    destruct (decide (slot u = s ∧ sharedOwnerKey n c = k)) as [[<- <-]|Hd].
    + split; [intros [= <-]; set_solver|]. by intros (_ & _ & ->).
    + rewrite Hi, elem_of_union, elem_of_singleton. naive_solver.
Qed.

Lemma owners_ok_present R t n c f u off own :
  shared_ownership t = Some (c, f, u) → owners_ok R off own →
  sharedOwnerKey n c ∈ default ∅ (own !! f) →
  owners_ok (table_add t n R) (<[f := default NewTopicsIndex (off !! f)]> off)
    (<[f := default ∅ (own !! f)]> own).
Proof.
  intros Hs (H1 & H2 & H3) Hin. pose proof (H3 f) as Hf.
  destruct (own !! f) as [o|] eqn:Eo; [|by apply not_elem_of_empty in Hin].
  destruct (off !! f) as [idx|] eqn:Ei; [|done]. simpl in *.
  rewrite !insert_id by done. split_and!; [|done|done].
  intros f' ok. rewrite (owner_of_add _ _ _ _ _ _ _ _ Hs), <-H1. split; [by left|].
  intros [?|[-> ->]]; [done|]. by rewrite Eo.
Qed.

Lemma owners_ok_absent R t n c f u off own :
  (∀ t' n', R t' n' → regular t' n') → regular t n →
  shared_ownership t = Some (c, f, u) → owners_ok R off own → off !! f = None →
  owners_ok (table_remove t n R) off own.
Proof.
  intros HR Hreg Hs (H1 & H2 & H3) Hi. split_and!; [|done|done].
  intros f' ok. rewrite (owner_of_remove _ _ _ _ _ _ _ _ HR Hreg Hs), <-H1. split; [|tauto].
  intros Hin. split; [done|]. intros [-> ->]. pose proof (H3 f) as Hf. rewrite Hi in Hf.
  rewrite Hf in Hin. by apply not_elem_of_empty in Hin.
Qed.

Lemma owners_ok_remove R t n c f u off own idx o :
  (∀ t' n', R t' n' → regular t' n') → regular t n →
  shared_ownership t = Some (c, f, u) → owners_ok R off own →
  off !! f = Some idx → own !! f = Some o →
  owners_ok (table_remove t n R)
    (if bool_decide (o ∖ {[sharedOwnerKey n c]} = ∅) then delete f off
     else <[f := (Unsubscribe u (sharedOwnerKey n c) idx).1]> off)
    (if bool_decide (o ∖ {[sharedOwnerKey n c]} = ∅) then delete f own
     else <[f := o ∖ {[sharedOwnerKey n c]}]> own).
Proof.
  intros HR Hreg Hs Hok Hi Ho. pose proof Hs as (_ & g & Hf)%shared_ownership_Some.
  pose proof (owners_ok_idx _ _ _ _ _ _ Hok Hf) as [Ht Hidx]. rewrite Hi, Ho in *. simpl in *.
  destruct Hok as (H1 & H2 & H3). set (k0 := sharedOwnerKey n c) in *.
  assert (∀ f' ok, owner_of (table_remove t n R) f' ok ↔
    if decide (f = f') then ok ∈ o ∖ {[k0]} else ok ∈ default ∅ (own !! f')) as Hown.
  { intros f' ok. rewrite (owner_of_remove _ _ _ _ _ _ _ _ HR Hreg Hs), <-H1.
    destruct (decide (f = f')) as [<-|Hn]; [rewrite Ho; simpl; set_solver|]. naive_solver. }
  case_bool_decide as Ee; split_and!.
  - intros f' ok. rewrite Hown, lookup_delete. destruct (decide (f = f')); [|done]. rewrite Ee. set_solver.
  - by apply map_Forall_delete.
  - intros f'. rewrite !lookup_delete. destruct (decide (f = f')); [done|]. apply H3.
  - intros f' ok. rewrite Hown, lookup_insert. by destruct (decide (f = f')).
  - by apply map_Forall_insert_2.
  - intros f'. rewrite !lookup_insert. destruct (decide (f = f')) as [<-|]; [|apply H3].
    exists g, u, (o ∖ {[k0]}). split_and!; [done|done|by apply Unsubscribe_trimmed|].
    intros s k sub. rewrite Unsubscribe_lookup.
    destruct (decide (slot u = s ∧ k0 = k)) as [[<- <-]|Hd]; [split; [done|set_solver]|].
    rewrite Hidx, elem_of_difference, elem_of_singleton. naive_solver.
Qed.

(** ** Lemmas: cache updates *)

Lemma router_inv_ext R R' r : (∀ t n, R t n ↔ R' t n) → router_inv R r → router_inv R' r.
Proof.
  intros HR [H1 H2 H3 H4 H5]. split.
  - intros t n. by rewrite H1.
  - intros t n. rewrite <-HR. apply H2.
  - done.
  - by eapply index_ok_ext.
  - by eapply owners_ok_ext.
Qed.

Lemma table_add_regular R t n :
  (∀ t' n', R t' n' → regular t' n') → regular t n → ∀ t' n', table_add t n R t' n' → regular t' n'.
Proof. intros HR Hreg t' n' [?|[-> ->]]; auto. Qed.

(** The parts of the invariant that do not depend on the offline indices. *)
Lemma byNode_add R r t n m :
  (∀ t n, registered r t n ↔ R t n) → map_Forall (λ _ ts, ts ≠ ∅) (byNode r) →
  m = <[n := {[t]} ∪ default ∅ (byNode r !! n)]> (byNode r) →
  (∀ t' n', t' ∈ default ∅ (m !! n') ↔ table_add t n R t' n') ∧ map_Forall (λ _ ts, ts ≠ ∅) m.
Proof.
  intros HR Hne ->. split; [|apply map_Forall_insert_2; [set_solver|done]].
  intros t' n'. unfold table_add. rewrite <-HR. unfold registered. rewrite lookup_insert.
  destruct (decide (n = n')) as [<-|Hn]; simpl; [set_solver|]. naive_solver.
Qed.

Lemma byNode_remove R r t n m :
  (∀ t n, registered r t n ↔ R t n) → map_Forall (λ _ ts, ts ≠ ∅) (byNode r) →
  m = match byNode r !! n with
      | None => byNode r
      | Some topics => if bool_decide (topics ∖ {[t]} = ∅) then delete n (byNode r)
                       else <[n := topics ∖ {[t]}]> (byNode r)
      end →
  (∀ t' n', t' ∈ default ∅ (m !! n') ↔ table_remove t n R t' n') ∧ map_Forall (λ _ ts, ts ≠ ∅) m.
Proof.
  intros HR Hne ->. unfold table_remove. setoid_rewrite <-HR. unfold registered.
  destruct (byNode r !! n) as [ts|] eqn:E.
  - case_bool_decide as Ee; (split; [|by first [apply map_Forall_delete|apply map_Forall_insert_2]]);
      intros t' n'; rewrite ?lookup_delete, ?lookup_insert;
      destruct (decide (n = n')) as [<-|Hn]; simpl; try naive_solver; rewrite E; simpl; set_solver.
  - split; [|done]. intros t' n'. destruct (decide (n = n')) as [<-|Hn]; [|naive_solver].
    rewrite E. simpl. set_solver.
Qed.

Lemma addLocal_inv R t n r :
  regular t n → router_inv R r → router_inv (table_add t n R) (addLocalLocked t n r).
Proof.
  intros Hreg [H1 H2 H3 H4 H5].
  destruct (byNode_add R r t n _ H1 H3 eq_refl) as [Hb Hne].
  assert (index_ok (table_add t n R) (Subscribe n (filter_subscription t) (index r)).1) as Hi.
  { apply index_ok_add; [intros t' n' ?; eapply reg_canonical; eauto|by eapply reg_canonical|done]. }
  unfold addLocalLocked, addOfflineSharedOwnershipLocked. simpl.
  pose proof (shared_ownership_Some t) as Hso. unfold shared_ownership in Hso.
  destruct (ownershipKeyParts t) as [[c f]|] eqn:Ep; [destruct (SharedFilter f) as [[g u]|] eqn:Ef|].
  - assert (shared_ownership t = Some (c, f, u)) as Hs by (unfold shared_ownership; by rewrite Ep, Ef).
    case_bool_decide; split; try done; try (by apply table_add_regular).
    + by eapply owners_ok_present.
    + by eapply owners_ok_add.
  - split; try done; [by apply table_add_regular|].
    apply owners_ok_skip_add; [|done]. unfold shared_ownership. by rewrite Ep, Ef.
  - split; try done; [by apply table_add_regular|].
    apply owners_ok_skip_add; [|done]. unfold shared_ownership. by rewrite Ep.
Qed.

Lemma removeLocal_inv R t n r :
  regular t n → router_inv R r → router_inv (table_remove t n R) (removeLocalLocked t n r).
Proof.
  intros Hreg [H1 H2 H3 H4 H5].
  destruct (byNode_remove R r t n _ H1 H3 eq_refl) as [Hb Hne].
  assert (index_ok (table_remove t n R) (Unsubscribe t n (index r)).1) as Hi.
  { apply index_ok_remove; [intros t' n' ?; eapply reg_canonical; eauto|by eapply reg_canonical|done]. }
  assert (∀ t' n', table_remove t n R t' n' → regular t' n') as Hr by (intros t' n' [? _]; auto).
  unfold removeLocalLocked, removeOfflineSharedOwnershipLocked. simpl.
  destruct (ownershipKeyParts t) as [[c f]|] eqn:Ep; [destruct (SharedFilter f) as [[g u]|] eqn:Ef|].
  - assert (shared_ownership t = Some (c, f, u)) as Hs by (unfold shared_ownership; by rewrite Ep, Ef).
    destruct (offlineShared r !! f) as [idx|] eqn:Ei; [|by split; try done; eapply owners_ok_absent].
    destruct (offlineSharedOwners r !! f) as [o|] eqn:Eo.
    2:{ destruct H5 as (_ & _ & H5). specialize (H5 f). rewrite Ei, Eo in H5. naive_solver. }
    pose proof (owners_ok_remove R t n c f u _ _ idx o H2 Hreg Hs H5 Ei Eo) as Ho.
    case_bool_decide; by split.
  - split; try done. apply owners_ok_skip_remove; [|done]. unfold shared_ownership. by rewrite Ep, Ef.
  - split; try done. apply owners_ok_skip_remove; [|done]. unfold shared_ownership. by rewrite Ep.
Qed.

Lemma reconcile_key_inv R key r :
  (∀ t n, parseRouteKey key = Some (t, n) → regular t n) → router_inv R r →
  router_inv (λ t n, R t n ∨ parseRouteKey key = Some (t, n)) (reconcile_key key r).
Proof.
  intros Hreg Hr. unfold reconcile_key. destruct (parseRouteKey key) as [[t n]|].
  2:{ eapply router_inv_ext; [|done]. intros t n. naive_solver. }
  specialize (Hreg t n eq_refl).
  assert (router_inv (table_add t n R)
    match ownershipKeyParts t with
    | Some (c, f) =>
        match SharedFilter f with
        | Some (_, u) =>
            mkRouter (Subscribe n (filter_subscription t) (index r)).1
              (<[n := {[t]} ∪ default ∅ (byNode r !! n)]> (byNode r))
              (<[f := (Subscribe (sharedOwnerKey n c) (filter_subscription u)
                        (default NewTopicsIndex (offlineShared r !! f))).1]> (offlineShared r))
              (<[f := {[sharedOwnerKey n c]} ∪ default ∅ (offlineSharedOwners r !! f)]> (offlineSharedOwners r))
              (storeUp r) (storeFailures r)
        | None => mkRouter (Subscribe n (filter_subscription t) (index r)).1
              (<[n := {[t]} ∪ default ∅ (byNode r !! n)]> (byNode r))
              (offlineShared r) (offlineSharedOwners r) (storeUp r) (storeFailures r)
        end
    | None => mkRouter (Subscribe n (filter_subscription t) (index r)).1
              (<[n := {[t]} ∪ default ∅ (byNode r !! n)]> (byNode r))
              (offlineShared r) (offlineSharedOwners r) (storeUp r) (storeFailures r)
    end) as Hadd.
  { destruct Hr as [H1 H2 H3 H4 H5]. destruct (byNode_add R r t n _ H1 H3 eq_refl) as [Hb Hne].
    assert (index_ok (table_add t n R) (Subscribe n (filter_subscription t) (index r)).1) as Hi.
    { apply index_ok_add; [intros t' n' ?; eapply reg_canonical; eauto|by eapply reg_canonical|done]. }
    destruct (ownershipKeyParts t) as [[c f]|] eqn:Ep; [destruct (SharedFilter f) as [[g u]|] eqn:Ef|];
      (split; try done; [by apply table_add_regular|]).
    - apply owners_ok_add; [unfold shared_ownership; by rewrite Ep, Ef|done].
    - apply owners_ok_skip_add; [unfold shared_ownership; by rewrite Ep, Ef|done].
    - apply owners_ok_skip_add; [unfold shared_ownership; by rewrite Ep|done]. }
  assert (∀ f, (if bool_decide (offlineShared r !! f = None) then ∅
    else default ∅ (offlineSharedOwners r !! f)) = default ∅ (offlineSharedOwners r !! f)) as Hfresh.
  { intros f. case_bool_decide as E; [|done]. destruct (inv_owners _ _ Hr) as (_ & _ & H).
    specialize (H f). rewrite E in H. by rewrite H. }
  eapply router_inv_ext; [|].
  2:{ destruct (ownershipKeyParts t) as [[c f]|]; [destruct (SharedFilter f) as [[g u]|]|];
        [rewrite Hfresh|..]; exact Hadd. }
  intros t' n'. unfold table_add. naive_solver.
Qed.

(** ** Lemmas: events and reconciliation *)

Definition event_regular (ev : routeEvent) : Prop :=
  match evOp ev with
  | eventSubscribe | eventUnsubscribe => regular (evTopic ev) (evNodeID ev)
  | eventUnsubscribeBatch => ∀ t, t ∈ evTopics ev → regular t (evNodeID ev)
  | eventPurgeNode | eventOther => True
  end.

(** What an event means for the table. *)
Definition table_event (ev : routeEvent) (R : string → string → Prop) : string → string → Prop :=
  match evOp ev with
  | eventSubscribe => table_add (evTopic ev) (evNodeID ev) R
  | eventUnsubscribe => table_remove (evTopic ev) (evNodeID ev) R
  | eventUnsubscribeBatch => λ t n, R t n ∧ ¬ (t ∈ evTopics ev ∧ n = evNodeID ev)
  | eventPurgeNode => λ t n, R t n ∧ n ≠ evNodeID ev
  | eventOther => R
  end.

Lemma fold_removeLocal_inv R n ts r :
  (∀ t, t ∈ ts → regular t n) → router_inv R r →
  router_inv (λ t' n', R t' n' ∧ ¬ (t' ∈ ts ∧ n' = n)) (fold_left (λ r t, removeLocalLocked t n r) ts r).
Proof.
  revert R r. induction ts as [|t ts IH]; intros R r Hreg Hr; simpl.
  - eapply router_inv_ext; [|done]. intros t' n'. rewrite elem_of_nil. tauto.
  - eapply router_inv_ext; [|apply IH; [|apply removeLocal_inv; [|exact Hr]]].
    + intros t' n'. unfold table_remove. rewrite elem_of_cons. tauto.
    + intros t' ?. apply Hreg. by right.
    + apply Hreg. by left.
Qed.

Lemma applyEvent_inv R ev r :
  event_regular ev → router_inv R r → router_inv (table_event ev R) (applyEvent ev r).
Proof.
  intros Hev Hr. unfold event_regular, table_event, applyEvent in *. destruct (evOp ev).
  - by apply addLocal_inv.
  - by apply removeLocal_inv.
  - by apply fold_removeLocal_inv.
  - assert (∀ t, t ∈ topicsForNodeLocked (evNodeID ev) r ↔ R t (evNodeID ev)) as Ht.
    { intros t. rewrite <-(inv_table _ _ Hr). unfold topicsForNodeLocked, registered. apply elem_of_elements. }
    eapply router_inv_ext; [|apply (fold_removeLocal_inv R); [|exact Hr]].
    + intros t n. cbv beta. split.
      * intros [HR Hn]. split; [done|]. intros ->. apply Hn. by rewrite Ht.
      * intros [HR Hn]. split; [done|]. tauto.
    + intros t HR%Ht. by apply (inv_regular _ _ Hr).
  - done.
Qed.

Lemma emptyRouter_inv : router_inv (λ _ _, False) emptyRouter.
Proof.
  split; simpl.
  - intros t n. unfold registered. simpl. rewrite lookup_empty. simpl. set_solver.
  - done.
  - apply map_Forall_empty.
  - split; [apply trimmed_new|]. intros s n sub. rewrite slot_lookup_new. split; [done|naive_solver].
  - split_and!; [|apply map_Forall_empty|intros f; by rewrite lookup_empty].
    intros f ok. rewrite lookup_empty. simpl. unfold owner_of. set_solver.
Qed.

Lemma fold_reconcile_inv R keys r :
  (∀ k t n, k ∈ keys → parseRouteKey k = Some (t, n) → regular t n) → router_inv R r →
  router_inv (λ t n, R t n ∨ ∃ k, k ∈ keys ∧ parseRouteKey k = Some (t, n))
    (fold_left (λ r k, reconcile_key k r) keys r).
Proof.
  revert R r. induction keys as [|k keys IH]; intros R r Hreg Hr; simpl.
  - eapply router_inv_ext; [|done]. intros t n. split; [by left|].
    intros [?|(k & []%not_elem_of_nil & _)]; done.
  - eapply router_inv_ext; [|apply IH; [|apply reconcile_key_inv; [|exact Hr]]].
    + intros t n. setoid_rewrite elem_of_cons. split.
      * intros [[?|?]|(k' & ? & ?)]; eauto.
      * intros [?|(k' & [->|?] & ?)]; eauto.
    + intros k' t n ?. apply Hreg. by right.
    + intros t n. apply Hreg. by left.
Qed.

Section Convergence.
  Context {S : Type} `{!ClusterStore S} `{!ClusterStoreLaws S}.

(** The table the store holds. *)
Definition store_table (s : S) (t n : string) : Prop :=
  ∃ k, k ∈ store_keys s ∧ parseRouteKey k = Some (t, n).

(** A cache that mirrors the store. *)
Definition converged (s : S) (r : Router) : Prop := router_inv (store_table s) r.

(** A store in which all entries were written by the gateway. *)
Definition store_regular (s : S) : Prop := ∀ t n, store_table s t n → regular t n.

Lemma store_table_Put s s' t n t' n' :
  regular t n → store_Put (routeKey t n) s = Some s' →
  store_table s' t' n' ↔ table_add t n (store_table s) t' n'.
Proof.
  intros Hreg [Hk _]%law_Put. unfold store_table, table_add. rewrite Hk.
  setoid_rewrite elem_of_union. setoid_rewrite elem_of_singleton. split.
  - intros (k & [->|?] & E); [|eauto]. rewrite parse_routeKey in E by apply Hreg. injection E as -> ->. auto.
  - intros [(k & ? & ?)|[-> ->]]; [eauto|]. eexists. split; [by left|]. apply parse_routeKey, Hreg.
Qed.

Lemma store_table_Delete s s' n ts t' n' :
  (∀ t, t ∈ ts → regular t n) → store_Delete ((λ t, routeKey t n) <$> ts) s = Some s' →
  store_table s' t' n' ↔ store_table s t' n' ∧ ¬ (t' ∈ ts ∧ n' = n).
Proof.
  intros Hreg [Hk _]%law_Delete. unfold store_table. rewrite Hk.
  setoid_rewrite elem_of_difference. setoid_rewrite elem_of_list_to_set. setoid_rewrite list_elem_of_fmap. split.
  - intros (k & [? Hn] & E). split; [eauto|]. intros [Hin ->]. apply Hn. exists t'.
    split; [|done]. by apply parseRouteKey_inv in E as [-> _].
  - intros [(k & ? & E) Hn]. exists k. split; [|done]. split; [done|]. intros (t & -> & Hin).
    rewrite parse_routeKey in E by (eapply reg_node, Hreg, Hin). injection E as <- <-. by apply Hn.
Qed.

Lemma publish_ok ev (s s' : S) :
  publish ev s = (s', true) → store_keys s' = store_keys s ∧ store_published s' = store_published s ++ [ev].
Proof. unfold publish. destruct (store_Publish ev s) eqn:E; intros [= <-]. by apply law_Publish in E. Qed.

(** An event that does to the table what the write did to the store keeps a
    cache converged. *)
Lemma converged_event ev (s s' : S) r :
  event_regular ev → (∀ t n, store_table s' t n ↔ table_event ev (store_table s) t n) →
  converged s r → converged s' (applyEvent ev r).
Proof.
  intros Hev Hs Hr. eapply router_inv_ext; [|apply applyEvent_inv; [done|exact Hr]].
  intros t n. by rewrite Hs.
Qed.

Lemma store_table_keys (s s' : S) t n :
  store_keys s' = store_keys s → store_table s' t n ↔ store_table s t n.
Proof. intros H. unfold store_table. by rewrite H. Qed.

Lemma Router_Subscribe_sim t n s s' r :
  regular t n → converged s r → Router_Subscribe t n s = (s', true) →
  ∃ ev, store_published s' = store_published s ++ [ev] ∧ converged s' (applyEvent ev r).
Proof.
  intros Hreg Hr. unfold Router_Subscribe. destruct (store_Put _ s) as [s1|] eqn:E; [|done].
  intros [Hk Hp]%publish_ok. pose proof (law_Put _ _ _ E) as [_ Hp1]. rewrite Hp, Hp1.
  eexists. split; [done|]. apply (converged_event _ s); [done| |done].
  intros t' n'. rewrite (store_table_keys s1) by done. by apply store_table_Put.
Qed.

Lemma Router_Unsubscribe_sim t n s s' r :
  regular t n → converged s r → Router_Unsubscribe t n s = (s', true) →
  ∃ ev, store_published s' = store_published s ++ [ev] ∧ converged s' (applyEvent ev r).
Proof.
  intros Hreg Hr. unfold Router_Unsubscribe.
  change [routeKey t n] with ((λ t, routeKey t n) <$> [t]).
  destruct (store_Delete _ s) as [s1|] eqn:E; [|done].
  intros [Hk Hp]%publish_ok. pose proof (law_Delete _ _ _ E) as [_ Hp1]. rewrite Hp, Hp1.
  eexists. split; [done|]. apply (converged_event _ s); [done| |done].
  intros t' n'. rewrite (store_table_keys s1) by done.
  rewrite (store_table_Delete s s1 n [t] t' n'); [|by intros ? ->%list_elem_of_singleton|done].
  unfold table_event, table_remove. simpl. by rewrite list_elem_of_singleton.
Qed.

(** The topics a converged cache lists for a node are those of the table. *)
Lemma TopicsForNode_spec (s : S) r n t : converged s r → t ∈ TopicsForNode n r ↔ store_table s t n.
Proof.
  intros Hr. rewrite <-(inv_table _ _ Hr). unfold TopicsForNode, topicsForNodeLocked, registered.
  apply elem_of_elements.
Qed.

Lemma UnsubscribeBatch_sim ts n s s' r1 r2 :
  (∀ t, t ∈ ts → regular t n) → converged s r1 → converged s r2 →
  UnsubscribeBatch ts n r1 s = (s', true) →
  ∃ evs, store_published s' = store_published s ++ evs ∧
         converged s' (fold_left (λ r ev, applyEvent ev r) evs r2).
Proof.
  intros Hreg H1 H2. unfold UnsubscribeBatch.
  set (ts' := match ts with [] => TopicsForNode n r1 | _ :: _ => ts end).
  assert (∀ t, t ∈ ts' → regular t n) as Hreg'.
  { intros t Ht. destruct ts; [|by apply Hreg]. apply (inv_regular _ _ H1), (TopicsForNode_spec s r1), Ht. done. }
  destruct ts' as [|t0 ts0] eqn:Ets.
  { intros [= <-]. exists []. rewrite app_nil_r. done. }
  rewrite <-Ets in *. destruct (store_Delete _ s) as [s1|] eqn:E; [|done].
  intros [Hk Hp]%publish_ok. pose proof (law_Delete _ _ _ E) as [_ Hp1]. rewrite Hp, Hp1.
  eexists. split; [done|]. simpl. apply (converged_event _ s); [done| |done].
  intros t' n'. rewrite (store_table_keys s1) by done. by rewrite (store_table_Delete s s1 n ts' t' n').
Qed.

Lemma PurgeNode_sim n s s' r1 r2 :
  converged s r1 → converged s r2 → PurgeNode n r1 s = (s', true) →
  (∀ t, ¬ store_table s' t n) ∧
  ∃ evs, store_published s' = store_published s ++ evs ∧
         converged s' (fold_left (λ r ev, applyEvent ev r) evs r2).
Proof.
  intros H1 H2. unfold PurgeNode. pose proof (λ t, TopicsForNode_spec s r1 n t H1) as Ht.
  destruct (TopicsForNode n r1) as [|t0 ts0] eqn:Ets.
  { intros [= <-]. split; [intros t Hs%Ht; by apply not_elem_of_nil in Hs|].
    exists []. by rewrite app_nil_r. }
  rewrite <-Ets in *. destruct (store_Delete _ s) as [s1|] eqn:E; [|done].
  intros [Hk Hp]%publish_ok. pose proof (law_Delete _ _ _ E) as [_ Hp1].
  assert (∀ t' n', store_table s1 t' n' ↔ store_table s t' n' ∧ n' ≠ n) as Hd.
  { intros t' n'. rewrite (store_table_Delete s s1 n (TopicsForNode n r1) t' n');
      [|intros t Hs%Ht; by apply (inv_regular _ _ H1)|done].
    rewrite Ht. split; [|tauto]. intros [? Hn]. split; [done|]. intros ->. tauto. }
  split; [intros t; rewrite (store_table_keys s1), Hd by done; tauto|].
  rewrite Hp, Hp1. eexists. split; [done|]. simpl. apply (converged_event _ s); [done| |done].
  intros t' n'. rewrite (store_table_keys s1) by done. apply Hd.
Qed.

Lemma reconcile_converges (s : S) r r' :
  store_regular s → reconcile s r = (r', true) → converged s r' ∧ storeUp r' = true.
Proof.
  intros Hs. unfold reconcile. destruct (store_Scan s) as [keys|] eqn:E; [|done].
  apply law_Scan in E. intros [= <-]. split; [|done].
  assert (router_inv (store_table s) (fold_left (λ r k, reconcile_key k r) keys emptyRouter)) as H.
  { eapply router_inv_ext; [|apply fold_reconcile_inv; [|apply emptyRouter_inv]].
    - intros t n. unfold store_table. setoid_rewrite <-E. setoid_rewrite elem_of_list_to_set. naive_solver.
    - intros k t n Hk Hp. apply Hs. exists k. split; [|done]. rewrite <-E. by apply elem_of_list_to_set. }
  destruct H as [H1 H2 H3 H4 H5]. by split.
Qed.
End Convergence.

(** ** Lemmas: queries on a cache that holds a table *)

(** A filter of an ordinary subscription receives a topic. *)
Definition filter_receives (f topic : string) : Prop :=
  IsSharedFilter f = false ∧ address_matches topic (split "/" f) ∧
  dollar_skipped topic (filter_subscription f) = false.

(** A node is a live member of shared filter [f] for a topic. *)
Definition live_member (R : string → string → Prop) (topic f n : string) : Prop :=
  R f n ∧ IsSharedFilter f = true ∧ address_matches topic (slot f).2.

Lemma slot_ordinary f path : slot f = (None, path) ↔ IsSharedFilter f = false ∧ path = split "/" f.
Proof.
  unfold slot. destruct (IsSharedFilter f); rewrite ?levels_from_0; [split; [done|by intros []]|].
  split; [intros [= <-]; done|by intros [_ ->]].
Qed.

Lemma slot_shared f g path : slot f = (Some g, path) → IsSharedFilter f = true.
Proof. unfold slot. by destruct (IsSharedFilter f). Qed.

Lemma ordinary_subscriber_table R x topic n :
  index_ok R x → ordinary_subscriber topic x n ↔ ∃ t, R t n ∧ filter_receives t topic.
Proof.
  intros [_ H]. unfold ordinary_subscriber, filter_receives. split.
  - intros (path & s & Hm & (t & HR & Hs & ->)%H & Hd). apply slot_ordinary in Hs as [? ->]. eauto.
  - intros (t & HR & Hs & Hm & Hd). exists (split "/" t), (filter_subscription t).
    split_and!; [done| |done]. apply H. exists t. split_and!; [done| |done]. by apply slot_ordinary.
Qed.

Lemma group_member_table R x topic f n :
  index_ok R x → group_member topic x f n ↔ live_member R topic f n.
Proof.
  intros [_ H]. unfold group_member, live_member. split.
  - intros (path & g & s & Hm & (t & HR & Hs & ->)%H & <-). simpl.
    rewrite Hs. split_and!; [done|by eapply slot_shared|done].
  - intros (HR & Hsh & Hm). destruct (slot f) as [[g|] path] eqn:E.
    + exists path, g, (filter_subscription f). split_and!; [done| |done]. apply H. eauto.
    + apply slot_ordinary in E as [? _]. congruence.
Qed.

Lemma LiveDeliveryPlan_table R r topic local :
  router_inv R r → topic ≠ "" → Forall literal_level (split "/" topic) →
  let plan := LiveDeliveryPlan topic local r in
  (∀ n, n ∈ Nodes plan ↔
     (∃ t, R t n ∧ filter_receives t topic) ∨
     ∃ f, SharedNodes plan !! f = Some n ∧ ¬ (local ≠ "" ∧ live_member R topic f local)) ∧
  (∀ f, match SharedNodes plan !! f with
        | None => ∀ n, ¬ live_member R topic f n
        | Some n => live_member R topic f n ∧ (local ≠ "" → live_member R topic f local → n = local)
        end).
Proof.
  intros Hr Ht HF. destruct (SubscriberRoutingPlan_spec topic local (index r) Ht) as [H1 H2].
  pose proof (inv_index _ _ Hr) as Hi.
  assert (∀ n, ordinary_at topic (index r) n ↔ ∃ t, R t n ∧ filter_receives t topic) as Ho.
  { intros n. by rewrite ordinary_at_mqtt, ordinary_subscriber_table. }
  assert (∀ f n, member_at topic (index r) f n ↔ live_member R topic f n) as Hm.
  { intros f n. by rewrite member_at_mqtt, group_member_table. }
  unfold LiveDeliveryPlan. destruct (SubscriberRoutingPlan topic local (index r)) as [ns sh]. simpl in *. split.
  - intros n. rewrite H1, Ho. by setoid_rewrite Hm.
  - intros f. specialize (H2 f). destruct (sh !! f); by setoid_rewrite <-Hm.
Qed.

(** The selection order: node first, then client, byte-wise. *)
Definition sel_le (a b : offlineSharedSelection) : Prop :=
  ltb (selNode a) (selNode b) = true ∨
  (selNode a = selNode b ∧ (selClient a = selClient b ∨ ltb (selClient a) (selClient b) = true)).

Lemma sel_le_trans a b c : sel_le a b → sel_le b c → sel_le a c.
Proof.
  unfold sel_le. intros [H1|[E1 H1]] [H2|[E2 H2]].
  - left. eauto using ltb_trans.
  - left. by rewrite <-E2.
  - left. by rewrite E1.
  - right. split; [congruence|]. destruct H1 as [E|H1], H2 as [E'|H2]; [left; congruence|right; by rewrite E|
      right; by rewrite <-E'|right; eauto using ltb_trans].
Qed.

Lemma sel_le_refl a : sel_le a a.
Proof. right. auto. Qed.

Definition sel_key (a : offlineSharedSelection) : string := sharedOwnerKey (selNode a) (selClient a).

(** Owner keys as the router builds them. *)
Definition sel_valid (a : offlineSharedSelection) : Prop :=
  selNode a ≠ "" ∧ contains_byte zero (selNode a) = false.

Lemma select_owner_key choice a :
  sel_valid a →
  select_owner choice (sel_key a) =
    if String.eqb (selNode choice) "" || ltb (selNode a) (selNode choice)
       || (String.eqb (selNode a) (selNode choice) && ltb (selClient a) (selClient choice))
    then a else choice.
Proof.
  intros [Hne Hz]. unfold select_owner, sel_key, sharedOwnerNode, sharedOwnerKey.
  rewrite cut_app by done. apply String.eqb_neq in Hne. rewrite Hne.
  assert (drop_bytes (String.length (selNode a) + 1) (selNode a +:+ String keySep (selClient a)) = selClient a) as ->.
  { replace (selNode a +:+ String keySep (selClient a)) with ((selNode a +:+ String keySep "") +:+ selClient a)
      by (by rewrite <-string_app_assoc).
    replace (String.length (selNode a) + 1) with (String.length (selNode a +:+ String keySep "")).
    - apply drop_bytes_app.
    - rewrite string_length_app. done. }
  by destruct a.
Qed.

Lemma select_owners_fold l seen choice :
  Forall sel_valid l →
  (selNode choice = "" ∧ seen = [] ∨ selNode choice ≠ "" ∧ choice ∈ seen ∧ ∀ x, x ∈ seen → sel_le choice x) →
  let c := fold_left select_owner (sel_key <$> l) choice in
  selNode c = "" ∧ seen ++ l = [] ∨
  selNode c ≠ "" ∧ c ∈ seen ++ l ∧ ∀ x, x ∈ seen ++ l → sel_le c x.
Proof.
  intros HF. revert seen choice. induction HF as [|a l Ha HF IH]; intros seen choice Hc; simpl.
  - rewrite app_nil_r. done.
  - replace (seen ++ a :: l) with ((seen ++ [a]) ++ l) by (by rewrite <-app_assoc).
    apply IH. rewrite select_owner_key by done.
    destruct (_ || _ || _) eqn:E.
    + right. split; [apply Ha|]. split; [set_solver|].
      intros x [Hx|Hx%list_elem_of_singleton]%elem_of_app; [|subst x; apply sel_le_refl].
      destruct Hc as [[_ ->]|(Hne & Hin & Hle)]; [by apply not_elem_of_nil in Hx|].
      apply sel_le_trans with choice; [|by apply Hle].
      apply String.eqb_neq in Hne. rewrite Hne in E. simpl in E. apply orb_true_iff in E as [E|E]; [by left|].
      apply andb_true_iff in E as [E1%String.eqb_eq E2]. right. auto.
    + apply orb_false_iff in E as [[E1 E2]%orb_false_iff E3].
      destruct Hc as [[E0 _]|(Hne & Hin & Hle)]; [by rewrite E0 in E1|].
      right. split; [done|]. split; [set_solver|].
      intros x [Hx|Hx%list_elem_of_singleton]%elem_of_app; [by apply Hle|]. subst x.
      destruct (ltb (selNode choice) (selNode a)) eqn:E4; [by left|].
      pose proof (ltb_total _ _ E4 E2) as En. right. split; [done|].
      rewrite En, String.eqb_refl in E3. simpl in E3.
      destruct (ltb (selClient choice) (selClient a)) eqn:E5; [by right|].
      left. by apply ltb_total.
Qed.

(** The selection is the least owner, whatever the iteration order. *)
Lemma select_owners_min l :
  Forall sel_valid l →
  match select_owners (sel_key <$> l) with
  | None => l = []
  | Some c => c ∈ l ∧ ∀ x, x ∈ l → sel_le c x
  end.
Proof.
  intros HF. unfold select_owners.
  destruct (select_owners_fold l [] (mkSelection "" "") HF) as [[E El]|(Hne & H)]; [by left| |].
  - by rewrite E.
  - apply String.eqb_neq in Hne. by rewrite Hne.
Qed.

(** Node and client that own an offline session in shared filter [f] whose
    underlying filter receives the topic. *)
Definition offline_owner (R : string → string → Prop) (topic f : string) (a : offlineSharedSelection) : Prop :=
  ∃ t g u, R t (selNode a) ∧ ownershipKeyParts t = Some (selClient a, f) ∧
    SharedFilter f = Some (g, u) ∧ filter_receives u topic.

Lemma sel_key_list keys :
  Forall (λ k, ∃ a, sel_valid a ∧ k = sel_key a) keys → ∃ l, keys = sel_key <$> l ∧ Forall sel_valid l.
Proof.
  induction 1 as [|k keys (a & Ha & ->) HF (l & -> & Hl)]; [by exists []|].
  exists (a :: l). split; [done|by constructor].
Qed.

Lemma sel_key_inj a b : sel_valid a → sel_valid b → sel_key a = sel_key b → a = b.
Proof.
  intros [_ Ha] [_ Hb] H. destruct (sharedOwnerKey_inj _ _ _ _ Ha Hb H). destruct a, b. simpl in *. congruence.
Qed.

(** The owner keys an index of offline owners returns for a topic. *)
Lemma offline_idx_matches o u idx topic k :
  topic ≠ "" → Forall literal_level (split "/" topic) →
  (∀ s k sub, slot_lookup s k idx = Some sub ↔ k ∈ o ∧ s = slot u ∧ sub = filter_subscription u) →
  k ∈ (map_to_list (Subscriptions (TopicsIndex_Subscribers topic idx))).*1 ↔
  k ∈ (o : gset string) ∧ filter_receives u topic.
Proof.
  intros Ht HF H. transitivity (is_Some (Subscriptions (TopicsIndex_Subscribers topic idx) !! k)).
  { rewrite list_elem_of_fmap. split.
    - intros ([k' v] & -> & Hv%elem_of_map_to_list). eauto.
    - intros [v Hv]. exists (k, v). split; [done|]. by apply elem_of_map_to_list. }
  destruct (TopicsIndex_Subscribers_spec topic idx Ht) as [-> _].
  rewrite ordinary_at_mqtt by done. unfold ordinary_subscriber, filter_receives. split.
  - intros (path & s & Hm & (Hk & Hs & ->)%H & Hd). symmetry in Hs. by apply slot_ordinary in Hs as [? ->].
  - intros (Hk & Hs & Hm & Hd). exists (split "/" u), (filter_subscription u).
    split_and!; [done| |done]. apply H. split_and!; [done| |done]. symmetry. by apply slot_ordinary.
Qed.

Lemma liveShared_member R r topic f :
  router_inv R r → topic ≠ "" → Forall literal_level (split "/" topic) →
  is_Some (Shared (TopicsIndex_Subscribers topic (index r)) !! f) ↔ ∃ n, live_member R topic f n.
Proof.
  intros Hr Ht HF. destruct (TopicsIndex_Subscribers_spec topic (index r) Ht) as [_ ->].
  setoid_rewrite member_at_mqtt; [|done]. by setoid_rewrite (group_member_table R _ _ _ _ (inv_index _ _ Hr)).
Qed.

Lemma offline_owner_of R topic f a :
  offline_owner R topic f a ↔
  ∃ g u, SharedFilter f = Some (g, u) ∧ filter_receives u topic ∧
    ∃ t, R t (selNode a) ∧ ownershipKeyParts t = Some (selClient a, f).
Proof. unfold offline_owner. naive_solver. Qed.

Lemma owner_of_selection R f k :
  (∀ t n, R t n → regular t n) →
  owner_of R f k ↔
  ∃ a g u, sel_valid a ∧ k = sel_key a ∧ SharedFilter f = Some (g, u) ∧
    ∃ t, R t (selNode a) ∧ ownershipKeyParts t = Some (selClient a, f).
Proof.
  intros HR. unfold owner_of. split.
  - intros (t & n & c & g & u & Ht & Ep & Ef & ->). exists (mkSelection n c), g, u.
    split_and!; [|done|done|eauto]. destruct (HR _ _ Ht). by split.
  - intros ([n c] & g & u & Hv & -> & Ef & t & Ht & Ep). eauto 10.
Qed.

Lemma offlineSharedSelections_spec R r topic f :
  router_inv R r → topic ≠ "" → Forall literal_level (split "/" topic) →
  match offlineSharedSelectionsLocked topic r !! f with
  | Some a => (∀ n, ¬ live_member R topic f n) ∧ offline_owner R topic f a ∧
              ∀ b, offline_owner R topic f b → sel_le a b
  | None => (∃ n, live_member R topic f n) ∨ ∀ b, ¬ offline_owner R topic f b
  end.
Proof.
  intros Hr Ht HF. pose proof (liveShared_member R r topic f Hr Ht HF) as Hlive.
  destruct (inv_owners _ _ Hr) as (H1 & H2 & H3). pose proof (inv_regular _ _ Hr) as HR.
  setoid_rewrite owner_of_selection in H1; [|done].
  unfold offlineSharedSelectionsLocked. rewrite map_lookup_imap. specialize (H3 f).
  destruct (offlineShared r !! f) as [idx|]; simpl.
  2:{ right. intros b (g & u & Ef & Hm & t & HRt & Ep)%offline_owner_of.
      assert (sel_key b ∈ default ∅ (offlineSharedOwners r !! f)) as Hin.
      { apply H1. exists b, g, u. split_and!; eauto. destruct (HR _ _ HRt). by split. }
      rewrite H3 in Hin. by apply not_elem_of_empty in Hin. }
  case_bool_decide as El; [left; by apply Hlive|]. rewrite Hlive in El.
  destruct H3 as (g & u & o & Ef & Eo & _ & Hidx).
  assert (∀ k, k ∈ o ↔ ∃ a, sel_valid a ∧ k = sel_key a ∧ ∃ t, R t (selNode a) ∧ ownershipKeyParts t = Some (selClient a, f)) as Ho.
  { intros k. specialize (H1 f k). rewrite Eo in H1. simpl in H1. rewrite H1. naive_solver. }
  pose proof (λ k, offline_idx_matches o u idx topic k Ht HF Hidx) as Hk.
  destruct (sel_key_list (map_to_list (Subscriptions (TopicsIndex_Subscribers topic idx))).*1) as (l & El' & Hl).
  { apply Forall_forall. intros k [(a & ? & ? & _)%Ho _]%Hk. eauto. }
  assert (∀ a, a ∈ l ↔ offline_owner R topic f a) as Hmem.
  { intros a. rewrite offline_owner_of. split.
    - intros Ha. rewrite Forall_forall in Hl. pose proof (Hl a Ha) as Hv.
      assert (sel_key a ∈ sel_key <$> l) as Hin by (by apply list_elem_of_fmap_2).
      rewrite <-El' in Hin. apply Hk in Hin as [(b & Hb & E & Hb')%Ho Hm].
      apply sel_key_inj in E as ->; eauto 10.
    - intros (g' & u' & Ef' & Hm & t & HRt & Ep). rewrite Ef in Ef'. injection Ef' as <- <-.
      assert (sel_valid a) as Hv by (destruct (HR _ _ HRt); by split).
      assert (sel_key a ∈ sel_key <$> l) as (b & E & Hb)%list_elem_of_fmap.
      { rewrite <-El'. apply Hk. split; [|done]. apply Ho. eauto 10. }
      rewrite Forall_forall in Hl. apply sel_key_inj in E as ->; auto. }
  pose proof (select_owners_min l Hl) as Hmin. rewrite El'.
  destruct (select_owners (sel_key <$> l)) as [c|].
  - destruct Hmin as [Hc Hle]. split_and!; [naive_solver|by apply Hmem|]. intros b Hb%Hmem. by apply Hle.
  - right. intros b Hb%Hmem. rewrite Hmin in Hb. by apply not_elem_of_nil in Hb.
Qed.

Lemma add_distinct_elem c x l : c ∈ add_distinct x l ↔ c ∈ l ∨ c = x.
Proof.
  unfold add_distinct. case_bool_decide; [|by rewrite elem_of_app, list_elem_of_singleton].
  split; [by left|]. by intros [?| ->].
Qed.

Lemma add_distinct_NoDup x l : NoDup l → NoDup (add_distinct x l).
Proof.
  intros Hl. unfold add_distinct. case_bool_decide; [done|].
  apply NoDup_app. split_and!; [done|set_solver|apply NoDup_singleton].
Qed.

(** A loop that adds [h x] when it is defined. *)
Lemma fold_add_distinct {A} (h : A → option string) l acc :
  NoDup acc →
  let r := fold_left (λ out x, match h x with Some c => add_distinct c out | None => out end) l acc in
  NoDup r ∧ ∀ c, c ∈ r ↔ c ∈ acc ∨ ∃ x, x ∈ l ∧ h x = Some c.
Proof.
  revert acc. induction l as [|x l IH]; intros acc Hnd; simpl.
  - split; [done|]. intros c. split; [by left|]. intros [?|(x & []%not_elem_of_nil & _)]; done.
  - destruct (h x) as [c0|] eqn:E.
    + destruct (IH _ (add_distinct_NoDup c0 acc Hnd)) as [H1 H2]. split; [done|].
      intros c. rewrite H2, add_distinct_elem. setoid_rewrite elem_of_cons. split.
      * intros [[?| ->]|(y & ? & ?)]; eauto 10.
      * intros [?|(y & [->|?] & ?)]; [auto|left; right; congruence|eauto].
    + destruct (IH acc Hnd) as [H1 H2]. split; [done|]. intros c. rewrite H2. setoid_rewrite elem_of_cons.
      split; [naive_solver|]. intros [?|(y & [->|?] & ?)]; [auto|congruence|eauto].
Qed.

Lemma OwnedClientIDs_table R r n :
  router_inv R r →
  NoDup (OwnedClientIDs n r) ∧
  ∀ c, c ∈ OwnedClientIDs n r ↔ ∃ f, R (OwnershipKey c f) n ∧ contains_byte zero c = false ∧ f ≠ "".
Proof.
  intros Hr. unfold OwnedClientIDs.
  destruct (fold_add_distinct ownershipKeyClientID (TopicsForNode n r) [] ltac:(constructor)) as [H1 H2].
  split; [exact H1|]. intros c. rewrite H2. unfold TopicsForNode, topicsForNodeLocked, ownershipKeyClientID.
  setoid_rewrite elem_of_elements.
  assert (∀ t, t ∈ default ∅ (byNode r !! n) ↔ R t n) as Ht by (intros; apply (inv_table _ _ Hr)).
  setoid_rewrite Ht. split.
  - intros [[]%not_elem_of_nil|(t & HR & ([c' f] & E & Hp)%fmap_Some)]. simpl in Hp. subst c'.
    exists f. pose proof (ownershipKeyParts_inv _ _ _ E) as [? ?].
    by rewrite <-(reg_ownership _ _ (inv_regular _ _ Hr _ _ HR) _ _ E).
  - intros (f & HR & Hc & Hf). right. eexists. split; [done|]. by rewrite ownershipKey_parts.
Qed.

(** ** Properties *)

(** The write operations. *)
Inductive write_op :=
  | WSubscribe (topic nodeID : string)
  | WUnsubscribe (topic nodeID : string)
  | WUnsubscribeBatch (topics : list string) (nodeID : string)
  | WPurgeNode (nodeID : string).

Definition run_op {S} `{!ClusterStore S} (op : write_op) (r : Router) (s : S) : S * bool :=
  match op with
  | WSubscribe t n => Router_Subscribe t n s
  | WUnsubscribe t n => Router_Unsubscribe t n s
  | WUnsubscribeBatch ts n => UnsubscribeBatch ts n r s
  | WPurgeNode n => PurgeNode n r s
  end.

Definition op_regular (op : write_op) : Prop :=
  match op with
  | WSubscribe t n | WUnsubscribe t n => regular t n
  | WUnsubscribeBatch ts n => ∀ t, t ∈ ts → regular t n
  | WPurgeNode _ => True
  end.


Definition witness_store : memStore := mkMemStore ∅ [] true.

Lemma regular_plain : regular "a/+" "core-1".
Proof. by split. Qed.

Lemma witness_converged : converged witness_store emptyRouter.
Proof.
  apply (router_inv_ext (λ _ _, False)); [|apply emptyRouter_inv].
  intros t n. split; [done|]. by intros (k & []%not_elem_of_empty & _).
Qed.


(** A successful reconciliation makes the cache mirror the store whatever it
    held before (events lost or applied out of order), and a failed one leaves
    the cache as it was and marks the store down. *)
Theorem reconcile_restores_convergence {S} `{!ClusterStore S} `{!ClusterStoreLaws S} (s : S) r :
  store_regular s →
  let '(r', ok) := reconcile s r in
  if ok then converged s r' ∧ storeUp r' = true
  else index r' = index r ∧ byNode r' = byNode r ∧ offlineShared r' = offlineShared r ∧
       offlineSharedOwners r' = offlineSharedOwners r ∧ storeUp r' = false.
Proof.
  intros Hs. destruct (reconcile s r) as [r' ok] eqn:E. destruct ok.
  - by apply (reconcile_converges s r).
  - unfold reconcile in E. destruct (store_Scan s); [done|]. by injection E as <-.
Qed.

Definition witness_full_store : memStore := mkMemStore {[routeKey "a/+" "core-1"]} [] true.

Lemma witness_full_regular : store_regular witness_full_store.
Proof.
  intros t n (k & Hk & E). simpl in Hk. apply elem_of_singleton in Hk. subst k. vm_compute in E. injection E as <- <-.
  apply regular_plain.
Qed.

Lemma reconcile_restores_convergence_witness :
  converged witness_full_store (reconcile witness_full_store emptyRouter).1.
Proof.
  pose proof (reconcile_restores_convergence witness_full_store emptyRouter witness_full_regular) as H.
  destruct (reconcile witness_full_store emptyRouter) as [r' b] eqn:E. destruct b.
  - apply H.
  - apply (f_equal snd) in E. vm_compute in E. discriminate E.
Defined.

(** Live delivery: on a cache that holds table [R], the plan for a concrete
    topic sends to exactly the nodes with an ordinary filter that receives it
    and to the chosen non-local nodes; each shared filter with a live member is
    assigned to exactly one member node, and to the local node if it is one. *)
Theorem live_plan_one_node_per_group R r topic local :
  router_inv R r → topic ≠ "" → Forall literal_level (split "/" topic) →
  let plan := LiveDeliveryPlan topic local r in
  (∀ n, n ∈ Nodes plan ↔
     (∃ t, R t n ∧ filter_receives t topic) ∨
     ∃ f, SharedNodes plan !! f = Some n ∧ ¬ (local ≠ "" ∧ live_member R topic f local)) ∧
  (∀ f, match SharedNodes plan !! f with
        | None => ∀ n, ¬ live_member R topic f n
        | Some n => live_member R topic f n ∧ (local ≠ "" → live_member R topic f local → n = local)
        end).
Proof. apply LiveDeliveryPlan_table. Qed.

Definition witness_router : Router := addLocalLocked "a/+" "core-1" emptyRouter.

Lemma witness_router_inv : router_inv (table_add "a/+" "core-1" (λ _ _, False)) witness_router.
Proof. apply addLocal_inv; [apply regular_plain|apply emptyRouter_inv]. Qed.

Lemma live_plan_one_node_per_group_witness :
  filter_receives "a/+" "a/b" ∧ "core-1" ∈ Nodes (LiveDeliveryPlan "a/b" "" witness_router).
Proof.
  assert (Forall literal_level (split "/" "a/b")) as HF by (simpl; literal_levels).
  destruct (live_plan_one_node_per_group _ witness_router "a/b" "" witness_router_inv ltac:(done) HF) as [H _].
  assert ("core-1" ∈ Nodes (LiveDeliveryPlan "a/b" "" witness_router)) as Hin by (vm_compute; reflexivity).
  split; [|exact Hin]. destruct (proj1 (H "core-1") Hin) as [(t & [[]|[-> _]] & Ht)|(f & Hf & _)]; [exact Ht|].
  vm_compute in Hf. by destruct f.
Defined.

(** Offline delivery to share groups: a filter is given to one of its
    offline members only when it has no live member, and then to the owner
    that is least by (node, client) — the same choice on every node whose cache
    holds the same table, whatever the map iteration order. *)
Theorem offline_selection_is_least R r topic f :
  router_inv R r → topic ≠ "" → Forall literal_level (split "/" topic) →
  match offlineSharedSelectionsLocked topic r !! f with
  | Some a => (∀ n, ¬ live_member R topic f n) ∧ offline_owner R topic f a ∧
              ∀ b, offline_owner R topic f b → sel_le a b
  | None => (∃ n, live_member R topic f n) ∨ ∀ b, ¬ offline_owner R topic f b
  end.
Proof. apply offlineSharedSelections_spec. Qed.

Definition witness_owner_router : Router :=
  addLocalLocked (OwnershipKey "dev2" "$share/g/a/+") "core-1"
    (addLocalLocked (OwnershipKey "dev1" "$share/g/a/+") "core-1" emptyRouter).

Lemma regular_owner c : c = "dev1" ∨ c = "dev2" → regular (OwnershipKey c "$share/g/a/+") "core-1".
Proof.
  intros Hc. split; [| |done|done].
  - destruct Hc as [-> | ->]; intros H; vm_compute in H; discriminate H.
  - intros c' f H. rewrite ownershipKey_parts in H by (by destruct Hc as [-> | ->]). by injection H as <- <-.
Qed.

Lemma witness_owner_inv :
  router_inv (table_add (OwnershipKey "dev2" "$share/g/a/+") "core-1"
    (table_add (OwnershipKey "dev1" "$share/g/a/+") "core-1" (λ _ _, False))) witness_owner_router.
Proof.
  apply addLocal_inv; [apply regular_owner; auto|]. apply addLocal_inv; [apply regular_owner; auto|].
  apply emptyRouter_inv.
Qed.

Lemma offline_selection_is_least_witness :
  offlineSharedSelectionsLocked "a/b" witness_owner_router !! "$share/g/a/+" = Some (mkSelection "core-1" "dev1") ∧
  ∃ R, offline_owner R "a/b" "$share/g/a/+" (mkSelection "core-1" "dev1").
Proof.
  assert (Forall literal_level (split "/" "a/b")) as HF by (simpl; literal_levels).
  pose proof (offline_selection_is_least _ witness_owner_router "a/b" "$share/g/a/+" witness_owner_inv ltac:(done) HF) as H.
  assert (offlineSharedSelectionsLocked "a/b" witness_owner_router !! "$share/g/a/+" =
    Some (mkSelection "core-1" "dev1")) as E by (vm_compute; reflexivity).
  split; [exact E|]. rewrite E in H. destruct H as (_ & H & _). eexists. exact H.
Defined.

(** Keys round-trip: a route key parses back to its topic and node and an
    ownership key to its client and filter; ownership keys of different
    sessions differ and are a single topic level without wildcard bytes. *)
Theorem keys_roundtrip :
  (∀ topic nodeID, contains_byte zero nodeID = false →
     parseRouteKey (routeKey topic nodeID) = Some (topic, nodeID)) ∧
  (∀ clientID filter, contains_byte zero clientID = false → filter ≠ "" →
     ownershipKeyParts (OwnershipKey clientID filter) = Some (clientID, filter)) ∧
  (∀ clientID filter, ∃ level, split "/" (OwnershipKey clientID filter) = ["$offline"; level] ∧
     contains_byte "+" level = false ∧ contains_byte "#" level = false).
Proof.
  split_and!; [apply parse_routeKey|apply ownershipKey_parts|].
  intros c f. exists (EncodeToString (c +:+ String zero f)).
  split_and!; [|apply encode_safe; set_solver|apply encode_safe; set_solver].
  unfold OwnershipKey, ownershipKeyPrefix.
  change ("$offline/" +:+ EncodeToString (c +:+ String zero f)) with
    ("$offline" +:+ String "/" (EncodeToString (c +:+ String zero f))).
  rewrite split_app_sep, split_no_sep; [done| |done]. apply encode_safe. set_solver.
Qed.

(** The ownership index read back from the table: a node owns exactly the
    clients with an ownership entry for some filter, each listed once. *)
Theorem owned_clients_spec R r n :
  router_inv R r →
  NoDup (OwnedClientIDs n r) ∧
  ∀ c, c ∈ OwnedClientIDs n r ↔ ∃ f, R (OwnershipKey c f) n ∧ contains_byte zero c = false ∧ f ≠ "".
Proof. apply OwnedClientIDs_table. Qed.

Lemma owned_clients_spec_witness : NoDup (OwnedClientIDs "core-1" witness_owner_router).
Proof. apply (owned_clients_spec _ witness_owner_router "core-1" witness_owner_inv). Defined.

(** Two spellings of the share prefix collide in the index: dropping one
    unsubscribes the other, although the node is still registered under it. *)
Lemma mixed_case_share_lost :
  let r := removeLocalLocked "$SHARE/g/a" "n" (addLocalLocked "$SHARE/g/a" "n" (addLocalLocked "$share/g/a" "n" emptyRouter)) in
  TopicsForNode "n" r = ["$share/g/a"] ∧ NodesFor "a" "" r = ∅.
Proof. vm_compute. done. Qed.

(** A shared subscription to # shows up as the owner of every offline session. *)
Lemma shared_wildcard_poses_as_owner :
  NodesFor (OwnershipKey "dev1" "a/b") "" (addLocalLocked "$share/g/#" "n" emptyRouter) = {["n"]}.
Proof. vm_compute. reflexivity. Qed.
