(* ===== verification/RouterLoop.v ===== *)
(** The goroutines of a router: internal/cluster/routing/router.go, New,
    consumeEvents, reconcileLoop and Close, as a transition system over a store
    that other nodes write to.

    The channel carries the JSON of the events and may lose them. A
    reconciliation is two steps, the scan of the store and the replacement of the
    cache under the lock: events that arrive in between are applied to the cache
    that is about to be replaced. *)
From S2P Require Import Prelude GoStrings Decimal Codec Json Router.

Open Scope string_scope.

(** ** Events on the wire *)

Definition op_text (op : eventOp) : string :=
  match op with
  | eventSubscribe => "sub"
  | eventUnsubscribe => "unsub"
  | eventUnsubscribeBatch => "unsub_batch"
  | eventPurgeNode => "purge"
  | eventOther => ""
  end.

Definition op_of_text (s : string) : eventOp :=
  if String.eqb s "sub" then eventSubscribe
  else if String.eqb s "unsub" then eventUnsubscribe
  else if String.eqb s "unsub_batch" then eventUnsubscribeBatch
  else if String.eqb s "purge" then eventPurgeNode
  else eventOther.

Definition event_json (ev : routeEvent) : json :=
  JObj (member "op" (JStr (op_text (evOp ev))) ++
        member_opt (negb (String.eqb (evTopic ev) "")) "topic" (JStr (evTopic ev)) ++
        member_opt (match evTopics ev with [] => false | _ => true end) "topics" (JArr (JStr <$> evTopics ev)) ++
        member "node_id" (JStr (evNodeID ev)))%list.

Definition marshalEvent (ev : routeEvent) : string := print (event_json ev).

Definition no_event : routeEvent := mkEvent eventOther "" [] "".

Definition set_event (k : string) (v : json) (ev : routeEvent) : option routeEvent :=
  let '(mkEvent op t ts n) := ev in
  if String.eqb k "op" then (λ x, mkEvent (op_of_text x) t ts n) <$> into_string v (op_text op)
  else if String.eqb k "topic" then (λ x, mkEvent op x ts n) <$> into_string v t
  else if String.eqb k "topics" then (λ x, mkEvent op t x n) <$> into_list "" into_string v ts
  else (λ x, mkEvent op t ts x) <$> into_string v n.

Definition unmarshalEvent (msg : string) : option routeEvent :=
  v ← parse msg; into_struct ["op"; "topic"; "topics"; "node_id"] set_event v no_event.

(** One message in consumeEvents. *)
Definition consume (msg : string) (r : Router) : Router :=
  match unmarshalEvent msg with Some ev => applyEvent ev r | None => r end.

(** ** The system *)

Section Loop.
Context {S : Type} `{!ClusterStore S}.

Record loop := mkLoop {
  lStore : S;
  lCache : Router;
  lSubscribed : bool;
  lQueue : list string;
  lScan : option (list string);
}.

(** The second half of [reconcile]: the cache built from the keys of a scan. *)
Definition rebuilt (keys : list string) : Router :=
  let c := fold_left (λ r k, reconcile_key k r) keys emptyRouter in
  mkRouter (index c) (byNode c) (offlineShared c) (offlineSharedOwners c) true 0.

(** A scan that failed. *)
Definition scan_failed (r : Router) : Router :=
  mkRouter (index r) (byNode r) (offlineShared r) (offlineSharedOwners r) false ((storeFailures r + 1) mod 2 ^ 64)%N.

(** New: a reconciliation, then the subscription; without the first there is no router. *)
Definition New (s : S) : option loop :=
  match reconcile s emptyRouter with
  | (r, true) => Some (mkLoop s r false [] None)
  | (_, false) => None
  end.

Inductive label := LSubscribe | LWrite (op : write_op) | LConsume | LScanned | LScanFailed | LSwap.

(** [writer] is the cache of the node that writes; [kept] are the messages that
    reach the subscription. *)
Inductive lstep : label → loop → loop → Prop :=
  | step_subscribe s r q sc :
      lstep LSubscribe (mkLoop s r false q sc) (mkLoop s r true q sc)
  | step_write op writer s s' ok evs kept r sub q sc :
      run_op op writer s = (s', ok) → store_published s' = (store_published s ++ evs)%list →
      kept `sublist_of` (if sub : bool then marshalEvent <$> evs else []) →
      lstep (LWrite op) (mkLoop s r sub q sc) (mkLoop s' r sub (q ++ kept)%list sc)
  | step_consume s r msg q sc :
      lstep LConsume (mkLoop s r true (msg :: q) sc) (mkLoop s (consume msg r) true q sc)
  | step_scan s r sub q keys :
      store_Scan s = Some keys →
      lstep LScanned (mkLoop s r sub q None) (mkLoop s r sub q (Some keys))
  | step_scan_failed s r sub q :
      store_Scan s = None →
      lstep LScanFailed (mkLoop s r sub q None) (mkLoop s (scan_failed r) sub q None)
  | step_swap s r sub q keys :
      lstep LSwap (mkLoop s r sub q (Some keys)) (mkLoop s (rebuilt keys) sub q None).

Inductive path : list label → loop → loop → Prop :=
  | path_nil l : path [] l l
  | path_snoc labels a l1 l2 l3 : path labels l1 l2 → lstep a l2 l3 → path (labels ++ [a])%list l1 l3.

(** ** What the cache holds *)

Definition keys_table (keys : list string) (t n : string) : Prop := ∃ k, k ∈ keys ∧ parseRouteKey k = Some (t, n).

(** The scan a cache was built from, and the messages consumed since. *)
Inductive history (s0 : S) : loop → list string → list string → Prop :=
  | history_new l keys : New s0 = Some l → store_Scan s0 = Some keys → history s0 l keys []
  | history_step a l l' keys since : history s0 l keys since → lstep a l l' →
      history s0 l' (match a, lScan l with LSwap, Some scanned => scanned | _, _ => keys end)
        (match a with LSwap => [] | LConsume => since ++ take 1 (lQueue l) | _ => since end)%list.

Definition table_message (msg : string) (R : string → string → Prop) : string → string → Prop :=
  match unmarshalEvent msg with Some ev => table_event ev R | None => R end.

Definition message_regular (msg : string) : Prop :=
  match unmarshalEvent msg with Some ev => event_regular ev | None => True end.
End Loop.

(** ** Events survive the channel *)

Definition wf_event (ev : routeEvent) : Prop := Forall (λ s, utf8_Valid s = true) (evTopic ev :: evNodeID ev :: evTopics ev).

Lemma op_roundtrip op : op_of_text (op_text op) = op.
Proof. by destruct op. Qed.

Lemma event_roundtrip ev : wf_event ev → unmarshalEvent (marshalEvent ev) = Some ev.
Proof.
  destruct ev as [op t ts n]. unfold wf_event. cbn [evTopic evNodeID evTopics]. intros Hwf.
  apply Forall_cons in Hwf as [Ht Hwf]. apply Forall_cons in Hwf as [Hn Hts].
  unfold unmarshalEvent, marshalEvent. rewrite parse_print_json; cbn [mbind option_bind].
  - unfold event_json, no_event. cbn [evOp evTopic evTopics evNodeID].
    match goal with |- into_struct ?n ?f (JObj ?l) ?r = Some ?q => change (fills n f l r q) end.
    eapply fills_app; [apply (fills_member _ _ _ _ _ (mkEvent op "" [] "")); [reflexivity|by cbn; rewrite op_roundtrip]|].
    apply (fills_app _ _ _ _ _ (mkEvent op t [] "")).
    { apply fills_member_opt; [reflexivity|done|]. by destruct (String.eqb_spec t "") as [->|]. }
    apply (fills_app _ _ _ _ _ (mkEvent op t ts "")); [|by apply fills_member].
    apply fills_member_opt; [reflexivity| |by destruct ts]. intros _.
    change (set_event "topics" ?v _) with ((λ x, mkEvent op t x "") <$> into_list "" into_string v []).
    rewrite into_list_map; [done|]. by apply Forall_true.
  - unfold event_json. apply printable_obj. cbn [evOp evTopic evTopics evNodeID].
    repeat apply Forall_app_2; [apply printable_member| apply printable_member_opt|apply printable_member_opt|apply printable_member]; try done.
    + by destruct op.
    + apply printable_arr. by apply Forall_fmap.
Qed.

(** ** Lemmas *)

Lemma router_inv_health R r b n : router_inv R r →
  router_inv R (mkRouter (index r) (byNode r) (offlineShared r) (offlineSharedOwners r) b n).
Proof. intros [H1 H2 H3 H4 H5]. by split. Qed.

Lemma consume_inv R msg r : message_regular msg → router_inv R r → router_inv (table_message msg R) (consume msg r).
Proof.
  unfold message_regular, table_message, consume. destruct (unmarshalEvent msg) as [ev|]; [by apply applyEvent_inv|done].
Qed.

Lemma rebuilt_inv keys : (∀ k t n, k ∈ keys → parseRouteKey k = Some (t, n) → regular t n) → router_inv (keys_table keys) (rebuilt keys).
Proof.
  intros Hk. unfold rebuilt. apply router_inv_health. eapply router_inv_ext; [|apply fold_reconcile_inv; [exact Hk|apply emptyRouter_inv]].
  intros t n. unfold keys_table. naive_solver.
Qed.

Lemma addLocal_registers t n r : registered (addLocalLocked t n r) t n.
Proof.
  unfold registered, addLocalLocked, addOfflineSharedOwnershipLocked. repeat case_match; cbn [byNode];
    rewrite lookup_insert_eq; cbn; set_solver.
Qed.

Section Theorems.
Context {S : Type} `{!ClusterStore S}.
Implicit Types s : S.

Lemma New_inv s l : New s = Some l → ∃ keys, store_Scan s = Some keys ∧ l = mkLoop s (rebuilt keys) false [] None.
Proof.
  unfold New, reconcile. destruct (store_Scan s) as [keys|] eqn:E; [|done]. intros [= <-]. by exists keys.
Qed.

(** C21: The cache is the scan it was built from, changed by the messages consumed
    since the replacement of the cache, in their order, and by nothing else:
    neither by what was written without an event that arrived, nor by events that
    were consumed before the replacement. The entries of the scan and of the
    messages must be regular ([regular]); for two spellings of one share prefix it
    fails ([Router.mixed_case_share_lost]). *)
Theorem cache_is_scan_and_events s0 l keys since : history s0 l keys since →
  (∀ k t n, k ∈ keys → parseRouteKey k = Some (t, n) → regular t n) → Forall message_regular since →
  router_inv (fold_left (λ R m, table_message m R) since (keys_table keys)) (lCache l).
Proof.
  induction 1 as [l keys Hnew Hscan|a l l' keys since Hh IH Hs]; intros Hk Hm.
  - apply New_inv in Hnew as (keys' & E & ->). simplify_eq. by apply rebuilt_inv.
  - destruct Hs; cbn [lScan lQueue lCache take] in *; try (by apply IH).
    + rewrite take_0 in *. rewrite fold_left_app. apply Forall_app in Hm as [Hm1 Hm2]. apply Forall_cons in Hm2 as [Hm2 _].
      cbn [fold_left]. apply consume_inv; [done|by apply IH].
    + apply router_inv_health. by apply IH.
    + by apply rebuilt_inv.
Qed.

(** ** When the writes stop *)

Context `{!ClusterStoreLaws S}.

Definition quiet (a : label) : bool := match a with LWrite _ => false | _ => true end.

(** Without writes and with nothing left to consume the store stays as it is,
    every scan sees it, and a replacement installs it. *)
Lemma quiet_path labels l l' : path labels l l' → forallb quiet labels = true → lQueue l = [] → lScan l = None →
  lStore l' = lStore l ∧ lQueue l' = [] ∧
  (∀ keys, lScan l' = Some keys → list_to_set keys = store_keys (lStore l)) ∧
  (LSwap ∈ labels → store_regular (lStore l) → converged (lStore l) (lCache l')).
Proof.
  induction 1 as [l|labels a l1 l2 l3 Hp IH Hs]; intros Hq Hqueue Hscan.
  { rewrite Hscan. split_and!; [done|done|done|]. intros []%not_elem_of_nil. }
  rewrite forallb_app in Hq. apply andb_true_iff in Hq as [Hq Ha]. destruct (IH Hq Hqueue Hscan) as (H1 & H2 & H3 & H4).
  assert (LSwap ∈ (labels ++ [a])%list → a ≠ LSwap → LSwap ∈ labels) as Hin.
  { intros Hl Hne. apply elem_of_app in Hl as [Hl|Hl]; [done|]. apply list_elem_of_singleton in Hl. congruence. }
  destruct Hs as [| | |s r sub q keys Hk|s r sub q|s r sub q keys]; cbn [lStore lQueue lScan lCache] in *; try done; subst.
  - split_and!; auto. 
  - split_and!; auto. intros ? [= <-]. by apply law_Scan in Hk.
  - split_and!; auto. intros Hl Hr. apply router_inv_health. by apply H4; [apply Hin|].
  - split_and!; [done|done|done|]. intros _ Hr. specialize (H3 _ eq_refl). unfold converged.
    eapply router_inv_ext; [|apply rebuilt_inv].
    + intros t n. unfold keys_table, store_table. setoid_rewrite <-H3. by setoid_rewrite elem_of_list_to_set.
    + intros k t n Hin' E. apply Hr. exists k. split; [|done]. rewrite <-H3. by apply elem_of_list_to_set.
Qed.

Lemma path_app labels1 labels2 l1 l2 l3 : path labels1 l1 l2 → path labels2 l2 l3 → path (labels1 ++ labels2)%list l1 l3.
Proof.
  intros H1 H2. revert H1. induction H2 as [l|labels a l l' l'' Hp IH Hs]; intros H1; [by rewrite app_nil_r|].
  rewrite app_assoc. eapply path_snoc; [by apply IH|exact Hs].
Qed.

Lemma path_one a l l' : lstep a l l' → path [a] l l'.
Proof. intros H. apply (path_snoc [] a l l l'); [constructor|done]. Qed.

(** The goroutines can always take what is in the channel and reconcile. *)
Lemma drained s r sub q sc : ∃ labels r', path labels (mkLoop s r sub q sc) (mkLoop s r' true [] sc) ∧ forallb quiet labels = true.
Proof.
  assert (∀ r, ∃ labels r', path labels (mkLoop s r true q sc) (mkLoop s r' true [] sc) ∧ forallb quiet labels = true) as Hd.
  { induction q as [|m q IH]; intros r0; [exists [], r0; by split; [constructor|]|].
    destruct (IH (consume m r0)) as (labels & r' & Hp & Hq). exists ([LConsume] ++ labels)%list, r'. split; [|done].
    eapply path_app; [apply path_one; constructor|exact Hp]. }
  destruct sub; [apply Hd|]. destruct (Hd r) as (labels & r' & Hp & Hq). exists ([LSubscribe] ++ labels)%list, r'. split; [|done].
  eapply path_app; [apply path_one; constructor|exact Hp].
Qed.

(** C5: Whatever a router missed, lost or undid, in any state of it, over a store with
    regular entries ([regular]: shared filters in the spelling $share/group/...,
    ownership keys as OwnershipKey writes them, node names that are not empty and
    have no NUL): once the writes stop and its channel is drained, the next whole
    reconciliation makes its cache mirror the store, and it stays so; and while the
    store answers, its goroutines can always get there. *)
Theorem cache_converges_after_writes l : store_regular (lStore l) →
  (∀ labels l', lQueue l = [] → lScan l = None → path labels l l' → forallb quiet labels = true → LSwap ∈ labels →
     lStore l' = lStore l ∧ converged (lStore l') (lCache l')) ∧
  (is_Some (store_Scan (lStore l)) → ∃ labels l', path labels l l' ∧ forallb quiet labels = true ∧
     lStore l' = lStore l ∧ lQueue l' = [] ∧ converged (lStore l') (lCache l')).
Proof.
  intros Hreg. split.
  - intros labels l' Hq Hs Hp Hquiet Hswap. destruct (quiet_path _ _ _ Hp Hquiet Hq Hs) as (-> & _ & _ & H). auto.
  - intros [keys Hk]. destruct l as [s r sub q sc]. cbn [lStore] in *. destruct (drained s r sub q sc) as (labels & r' & Hp & Hq).
    assert (∃ labels2 r2, path labels2 (mkLoop s r' true [] sc) (mkLoop s r2 true [] None) ∧ forallb quiet labels2 = true) as (labels2 & r2 & Hp2 & Hq2).
    { destruct sc as [ks|]; [exists [LSwap], (rebuilt ks); split; [apply path_one; constructor|done]|exists [], r'; by split; [constructor|]]. }
    assert (path [LScanned; LSwap] (mkLoop s r2 true [] None) (mkLoop s (rebuilt keys) true [] None)) as Hp3.
    { eapply (path_app [LScanned] [LSwap]); apply path_one; by constructor. }
    exists (labels ++ labels2 ++ [LScanned; LSwap])%list, (mkLoop s (rebuilt keys) true [] None). split_and!; [|by rewrite !forallb_app, Hq, Hq2|done|done|].
    + eapply path_app; [exact Hp|]. eapply path_app; [exact Hp2|exact Hp3].
    + destruct (quiet_path _ _ _ Hp3 eq_refl eq_refl eq_refl) as (_ & _ & _ & H). apply H; [set_solver|exact Hreg].
Qed.

(** C40: A subscription that another node makes while a scan is under way, and whose
    event has even arrived, is gone after the replacement: nothing is left in the
    channel, the store has the entry and the cache does not, until the next
    reconciliation. *)
Theorem event_during_scan_is_undone s r keys s' t n :
  regular t n → wf_event (mkEvent eventSubscribe t [] n) → (∀ k, k ∈ keys → parseRouteKey k ≠ Some (t, n)) →
  (∀ k t n, k ∈ keys → parseRouteKey k = Some (t, n) → regular t n) →
  Router_Subscribe t n s = (s', true) →
  ∃ l1 l2, path [LWrite (WSubscribe t n); LConsume] (mkLoop s r true [] (Some keys)) l1 ∧ lstep LSwap l1 l2 ∧
    registered (lCache l1) t n ∧
    lStore l2 = s' ∧ lQueue l2 = [] ∧ lScan l2 = None ∧ store_table (lStore l2) t n ∧ ¬ registered (lCache l2) t n.
Proof.
  intros Hreg Hwf Hk Hkr Hsub. set (ev := mkEvent eventSubscribe t [] n). set (msg := marshalEvent ev).
  assert (store_published s' = (store_published s ++ [ev])%list ∧ store_table s' t n) as [Hpub Htab].
  { unfold Router_Subscribe in Hsub. destruct (store_Put (routeKey t n) s) as [s1|] eqn:Ep; [|done].
    apply publish_ok in Hsub as [Hkeys ->]. destruct (law_Put _ _ _ Ep) as [_ ->]. split; [done|].
    apply (store_table_keys s1 s' t n Hkeys), (store_table_Put s s1 t n t n Hreg Ep). by right. }
  set (l0 := mkLoop s r true [] (Some keys)). set (l1 := mkLoop s' (consume msg r) true [] (Some keys)).
  assert (consume msg r = addLocalLocked t n r) as Hc.
  { unfold consume, msg. by rewrite event_roundtrip. }
  exists l1, (mkLoop s' (rebuilt keys) true [] None). split_and!; [| | |done|done|done|done|].
  - apply (path_snoc [LWrite (WSubscribe t n)] LConsume l0 (mkLoop s' r true [msg] (Some keys)) l1); [|constructor].
    apply (path_snoc [] (LWrite (WSubscribe t n)) l0 l0); [constructor|].
    apply (step_write (WSubscribe t n) r s s' true [ev] [msg] r true [] (Some keys)); [done|done|done].
  - constructor.
  - change (registered (consume msg r) t n). rewrite Hc. apply addLocal_registers.
  - cbn [lCache]. rewrite (inv_table _ _ (rebuilt_inv keys Hkr)). intros (k & Hin & E). by apply (Hk k).
Qed.
End Theorems.

(** An empty store, a router on it, and a subscription made by another node. *)
Definition started : loop := mkLoop witness_store (rebuilt []) false [] None.
Definition with_entry : memStore := (Router_Subscribe "a/+" "core-1" witness_store).1.
Definition entry_event : routeEvent := mkEvent eventSubscribe "a/+" [] "core-1".
Definition scanning : loop := mkLoop witness_store (rebuilt []) true [] (Some []).

Lemma entry_step sc : lstep (LWrite (WSubscribe "a/+" "core-1"))
  (mkLoop witness_store (rebuilt []) true [] sc) (mkLoop with_entry (rebuilt []) true [marshalEvent entry_event] sc).
Proof. by apply (step_write (WSubscribe "a/+" "core-1") emptyRouter witness_store with_entry true [entry_event] [marshalEvent entry_event]). Qed.

Lemma event_during_scan_is_undone_witness : ∃ l1 l2,
  path [LWrite (WSubscribe "a/+" "core-1"); LConsume] scanning l1 ∧ lstep LSwap l1 l2 ∧
  store_table (lStore l2) "a/+" "core-1" ∧ ¬ registered (lCache l2) "a/+" "core-1".
Proof.
  destruct (event_during_scan_is_undone witness_store (rebuilt []) [] with_entry "a/+" "core-1" regular_plain) as (l1 & l2 & H1 & H2 & _ & _ & _ & _ & H3 & H4);
    [by repeat constructor|by intros k []%not_elem_of_nil|by intros k t n []%not_elem_of_nil|reflexivity|].
  exists l1, l2. auto.
Defined.

(** Subscribed, written, consumed: the entry is in the cache. *)
Lemma cache_is_scan_and_events_witness : ∃ l,
  history witness_store l [] [marshalEvent entry_event] ∧ registered (lCache l) "a/+" "core-1".
Proof.
  set (l := mkLoop with_entry (consume (marshalEvent entry_event) (rebuilt [])) true [] None).
  assert (history witness_store l [] [marshalEvent entry_event]) as Hh.
  { apply (history_step witness_store LConsume (mkLoop with_entry (rebuilt []) true [marshalEvent entry_event] None) l [] []); [|constructor].
    apply (history_step witness_store (LWrite (WSubscribe "a/+" "core-1")) (mkLoop witness_store (rebuilt []) true [] None) _ [] []); [|apply entry_step].
    apply (history_step witness_store LSubscribe started _ [] []); [by apply history_new|constructor]. }
  assert (unmarshalEvent (marshalEvent entry_event) = Some entry_event) as He by by apply event_roundtrip; repeat constructor.
  exists l. split; [exact Hh|]. apply (inv_table _ _ (cache_is_scan_and_events witness_store l [] [marshalEvent entry_event] Hh
    ltac:(by intros k t n []%not_elem_of_nil) ltac:(constructor; [unfold message_regular; rewrite He; exact regular_plain|constructor]))).
  change (table_message (marshalEvent entry_event) (keys_table []) "a/+" "core-1"). unfold table_message. rewrite He. by right.
Defined.

(** The entry that a replacement undid is back after the next one. *)
Lemma cache_converges_after_writes_witness : ∃ l' : @loop memStore, converged with_entry (lCache l') ∧ registered (lCache l') "a/+" "core-1".
Proof.
  set (l := mkLoop with_entry (rebuilt []) true [] None).
  assert (store_table with_entry "a/+" "core-1") as Htab by by exists (routeKey "a/+" "core-1").
  assert (store_regular with_entry) as Hreg.
  { intros t n (k & Hk & E). assert (k = routeKey "a/+" "core-1") as ->.
    { cbn in Hk. apply elem_of_union in Hk as [?%elem_of_singleton|[]%not_elem_of_empty]; done. }
    vm_compute in E. injection E as <- <-. apply regular_plain. }
  destruct (proj2 (cache_converges_after_writes l Hreg)) as (labels & l' & _ & _ & Es & _ & Hc); [by eexists|].
  exists l'. rewrite Es in Hc. split; [exact Hc|]. by apply (inv_table _ _ Hc).
Defined.
