(* ===== verification/Placement.v ===== *)
(** Placement of offline sessions, internal/session/placement.go: FNV-1a,
    the splitmix64-style finalizer and rendezvous hashing, on 64-bit words kept
    as [N] below 2^64 with the wrap-around written out. *)

From S2P Require Import Prelude GoStrings.

Local Open Scope N_scope.

Definition word64 : N := 2 ^ 64.

(** hash/fnv's 64-bit FNV-1a. *)
Definition fnvOffset : N := 14695981039346656037.
Definition fnvPrime : N := 1099511628211.

Fixpoint fnv_write (h : N) (s : string) : N :=
  match s with
  | EmptyString => h
  | String c r => fnv_write ((N.lxor h (N_of_ascii c) * fnvPrime) mod word64) r
  end.

Definition fnvHash64 (s : string) : N := fnv_write fnvOffset s.

Definition xorshift (k x : N) : N := N.lxor x (N.shiftr x k).
Definition wmul (c x : N) : N := (x * c) mod word64.

Definition mul1 : N := 0xbf58476d1ce4e5b9.
Definition mul2 : N := 0x94d049bb133111eb.

Definition finalizer (x : N) : N := xorshift 31 (wmul mul2 (xorshift 27 (wmul mul1 (xorshift 30 x)))).

Definition rendezvousScore (clientID nodeID : string) : N :=
  finalizer (N.lxor (fnvHash64 clientID) (fnvHash64 nodeID)).

(** The loop of [Owner] after the first candidate. *)
Definition owner_step (clientID : string) (best : string * N) (nodeID : string) : string * N :=
  let score := rendezvousScore clientID nodeID in
  if best.2 <? score then (nodeID, score) else best.

Definition Owner (clientID : string) (liveEdgeNodeIDs : list string) : option string :=
  match liveEdgeNodeIDs with
  | [] => None
  | n :: rest => Some (fold_left (owner_step clientID) rest (n, rendezvousScore clientID n)).1
  end.

(** ** Specification *)

(** Node names with different FNV hashes. *)
Definition hashes_distinct (nodes : list string) : Prop :=
  ∀ n1 n2, n1 ∈ nodes → n2 ∈ nodes → fnvHash64 n1 = fnvHash64 n2 → n1 = n2.

(** ** Lemmas: word arithmetic *)

Lemma lxor_bound x y : x < word64 → y < word64 → N.lxor x y < word64.
Proof.
  unfold word64. intros Hx Hy. destruct (N.eq_0_gt_0_cases (N.lxor x y)) as [->|H]; [lia|].
  apply N.log2_lt_pow2; [done|]. eapply N.le_lt_trans; [apply N.log2_lxor|].
  apply N.max_lub_lt; [destruct (N.eq_0_gt_0_cases x) as [->|]|destruct (N.eq_0_gt_0_cases y) as [->|]];
    try (simpl; lia); by apply N.log2_lt_pow2.
Qed.

Lemma shiftr_bound x k : x < word64 → N.shiftr x k < word64.
Proof.
  intros H. eapply N.le_lt_trans; [|exact H]. rewrite N.shiftr_div_pow2.
  apply N.Div0.div_le_upper_bound. pose proof (N.pow_nonzero 2 k ltac:(done)). nia.
Qed.

Lemma xorshift_bound k x : x < word64 → xorshift k x < word64.
Proof. intros. apply lxor_bound; [done|by apply shiftr_bound]. Qed.

Lemma wmul_bound c x : wmul c x < word64.
Proof. by apply N.mod_lt. Qed.

Lemma fnvHash64_bound s : fnvHash64 s < word64.
Proof.
  unfold fnvHash64. assert (∀ s h, h < word64 → fnv_write h s < word64) as H; [|by apply H].
  clear s. induction s as [|c s IH]; intros h Hh; simpl; [done|]. apply IH. by apply N.mod_lt.
Qed.

(** A word that is its own right shift is zero. *)
Lemma shiftr_fixpoint d k : 0 < k → d = N.shiftr d k → d = 0.
Proof.
  intros Hk H. destruct (N.eq_0_gt_0_cases d) as [|Hd]; [done|].
  rewrite N.shiftr_div_pow2 in H. exfalso.
  pose proof (N.div_lt d (2 ^ k) Hd (N.pow_gt_1 2 k ltac:(done) ltac:(lia))). lia.
Qed.

Lemma xorshift_inj k x y : 0 < k → xorshift k x = xorshift k y → x = y.
Proof.
  intros Hk H. apply N.lxor_eq. apply (shiftr_fixpoint _ k); [done|].
  rewrite N.shiftr_lxor. apply N.bits_inj. intros i.
  apply (f_equal (λ z, N.testbit z i)) in H. unfold xorshift in H. rewrite !N.lxor_spec in *.
  by destruct (N.testbit x i), (N.testbit y i), (N.testbit (N.shiftr x k) i), (N.testbit (N.shiftr y k) i).
Qed.

(** Multiplication by a constant with an inverse modulo 2^64. *)
Lemma wmul_inj c c' x y :
  (c * c') mod word64 = 1 → x < word64 → y < word64 → wmul c x = wmul c y → x = y.
Proof.
  intros Hc Hx Hy H. unfold wmul in H.
  assert (∀ z, z < word64 → ((z * c) mod word64 * c') mod word64 = z) as Hinv.
  { intros z Hz. rewrite N.Div0.mul_mod_idemp_l, <-N.mul_assoc, <-N.Div0.mul_mod_idemp_r, Hc, N.mul_1_r.
    by apply N.mod_small. }
  rewrite <-(Hinv x Hx), <-(Hinv y Hy). by rewrite H.
Qed.

Definition inv1 : N := 0x96de1b173f119089.
Definition inv2 : N := 0x319642b2d24d8ec3.

Lemma finalizer_inj x y : x < word64 → y < word64 → finalizer x = finalizer y → x = y.
Proof.
  intros Hx Hy H. unfold finalizer in H.
  apply xorshift_inj in H; [|done].
  apply (wmul_inj mul2 inv2) in H; [|by vm_compute|apply xorshift_bound, wmul_bound..].
  apply xorshift_inj in H; [|done].
  apply (wmul_inj mul1 inv1) in H; [|by vm_compute|by apply xorshift_bound..].
  by apply xorshift_inj in H.
Qed.

(** For a fixed client, two nodes tie exactly when their hashes collide. *)
Lemma rendezvousScore_inj c n1 n2 :
  rendezvousScore c n1 = rendezvousScore c n2 → fnvHash64 n1 = fnvHash64 n2.
Proof.
  intros H. apply finalizer_inj in H; [|apply lxor_bound; apply fnvHash64_bound..].
  apply (f_equal (N.lxor (fnvHash64 c))) in H.
  by rewrite <-!N.lxor_assoc, !N.lxor_nilpotent, !N.lxor_0_l in H.
Qed.

(** ** Lemmas: Owner *)

Lemma owner_fold c rest n s :
  s = rendezvousScore c n →
  let b := fold_left (owner_step c) rest (n, s) in
  b.2 = rendezvousScore c b.1 ∧ b.1 ∈ n :: rest ∧
  ∀ m, m ∈ n :: rest → rendezvousScore c m <= b.2.
Proof.
  revert n s. induction rest as [|m rest IH]; intros n s Hs; simpl.
  - split; [done|]. split; [by left|]. intros m ->%list_elem_of_singleton. lia.
  - assert (owner_step c (n, s) m =
      if s <? rendezvousScore c m then (m, rendezvousScore c m) else (n, s)) as -> by done.
    destruct (N.ltb_spec s (rendezvousScore c m)) as [Hlt|Hge].
    + destruct (IH m _ eq_refl) as (H1 & H2 & H3). split; [done|]. split; [by right|].
      intros k [->|Hk]%elem_of_cons; [|by apply H3].
      pose proof (H3 m ltac:(by left)). lia.
    + destruct (IH n s Hs) as (H1 & H2 & H3). split; [done|]. split.
      * apply elem_of_cons in H2 as [->|?]; [by left|]. right. by right.
      * intros k [->|[->|Hk]%elem_of_cons]%elem_of_cons; [by apply H3; left| |by apply H3; right].
        pose proof (H3 n ltac:(by left)). lia.
Qed.

Lemma Owner_max c nodes o :
  Owner c nodes = Some o →
  o ∈ nodes ∧ ∀ m, m ∈ nodes → rendezvousScore c m <= rendezvousScore c o.
Proof.
  destruct nodes as [|n rest]; [done|]. intros [= <-].
  destruct (owner_fold c rest n _ eq_refl) as (H1 & H2 & H3). split; [done|].
  intros m Hm. rewrite <-H1. by apply H3.
Qed.

Lemma Owner_total c nodes : nodes ≠ [] → is_Some (Owner c nodes).
Proof. destruct nodes; [done|]. intros _. by eexists. Qed.

(** With distinct hashes the owner is the node with the greatest score. *)
Lemma Owner_unique c nodes o :
  hashes_distinct nodes → o ∈ nodes → (∀ m, m ∈ nodes → rendezvousScore c m <= rendezvousScore c o) →
  Owner c nodes = Some o.
Proof.
  intros Hd Ho Hmax. destruct (Owner_total c nodes) as [o' E]; [by intros ->; apply not_elem_of_nil in Ho|].
  rewrite E. f_equal. destruct (Owner_max _ _ _ E) as [Ho' Hmax'].
  apply Hd; [done|done|]. apply (rendezvousScore_inj c).
  pose proof (Hmax o' Ho'). pose proof (Hmax' o Ho). lia.
Qed.

(** ** Properties *)

(** Placement needs no coordination and moves as little as possible. When
    the node names have different hashes: every permutation or duplication of
    the node list gives the same owner; losing other nodes keeps the owner; and
    a node that joins changes the owner only to itself. *)
Theorem owner_stable c nodes nodes' o :
  hashes_distinct (nodes ++ nodes') → Owner c nodes = Some o →
  ((∀ n, n ∈ nodes ↔ n ∈ nodes') → Owner c nodes' = Some o) ∧
  ((∀ n, n ∈ nodes' → n ∈ nodes) → o ∈ nodes' → Owner c nodes' = Some o) ∧
  (∀ j, nodes' = j :: nodes → Owner c nodes' = Some o ∨ Owner c nodes' = Some j).
Proof.
  intros Hd E. destruct (Owner_max _ _ _ E) as [Ho Hmax].
  assert (hashes_distinct nodes') as Hd' by (intros n1 n2 ??; apply Hd; set_solver).
  split_and!.
  - intros H. apply Owner_unique; [done|by apply H|]. intros m Hm. by apply Hmax, H.
  - intros H Ho'. apply Owner_unique; auto.
  - intros j ->. destruct (N.leb_spec (rendezvousScore c j) (rendezvousScore c o)).
    + left. apply Owner_unique; [done|set_solver|]. intros m [->|?]%elem_of_cons; auto.
    + right. apply Owner_unique; [done|set_solver|]. intros m [->|?]%elem_of_cons; [lia|].
      specialize (Hmax m ltac:(done)). lia.
Qed.

Lemma owner_stable_witness :
  Owner "dev1" ["edge-1"; "edge-2"; "edge-3"] = Some "edge-3" ∨
  Owner "dev1" ["edge-1"; "edge-2"; "edge-3"] = Owner "dev1" ["edge-1"; "edge-2"].
Proof.
  assert (hashes_distinct (["edge-1"; "edge-2"] ++ ["edge-3"; "edge-1"; "edge-2"])) as Hd.
  { intros n1 n2 H1 H2. simpl in H1, H2. rewrite !elem_of_cons, elem_of_nil in H1, H2.
    destruct H1 as [->|[->|[->|[->|[->|[]]]]]], H2 as [->|[->|[->|[->|[->|[]]]]]];
      intros E; first [reflexivity|vm_compute in E; discriminate E]. }
  destruct (Owner "dev1" ["edge-1"; "edge-2"]) as [o|] eqn:E; [|discriminate E].
  destruct (owner_stable "dev1" _ _ o Hd E) as (_ & _ & H).
  assert (Owner "dev1" ["edge-1"; "edge-2"; "edge-3"] = Owner "dev1" ["edge-3"; "edge-1"; "edge-2"]) as ->
    by (vm_compute; reflexivity).
  destruct (H "edge-3" eq_refl) as [?|?]; [by right|by left].
Defined.

(** The finalizer loses nothing: on 64-bit words it is injective, so for a
    given client two nodes tie only if their FNV hashes collide. *)
Theorem score_ties_are_hash_collisions c n1 n2 :
  rendezvousScore c n1 = rendezvousScore c n2 ↔ fnvHash64 n1 = fnvHash64 n2.
Proof. split; [apply rendezvousScore_inj|]. unfold rendezvousScore. by intros ->. Qed.
