(* ===== verification/Session.v ===== *)
(** Offline sessions: internal/session (offline_session.go, delivery.go,
    reconciler.go), the ownership registry they are placed in
    (internal/cluster/raft/offline_ownership.go) and the routing reconciler
    that re-asserts live subscriptions (internal/cluster/routing/reconciler.go).

    The delivery queue is an argument, a state-passing function. A handover of
    an offline session is a program of registry calls; it runs over the routing
    store of Router, with other nodes writing at the same time and with reads
    answered by a cache that may lag. *)

From stdpp Require Import relations.
From S2P Require Import Prelude GoStrings Acl Topics Base64 Storage Effects Router Placement.

(** ** Sessions (offline_session.go) *)

Record OfflineSubscription := mkOfflineSubscription { subFilter : string; subQoS : N }.

(** [sessLastSeenAt] is [None] for the zero time. *)
Record OfflineSession := mkOfflineSession {
  sessClientID : string;
  sessSubscriptions : list OfflineSubscription;
  sessLastSeenAt : option Z;
}.

Definition FromStorage (clientID : string) (subs : list storageSubscription) : OfflineSession :=
  mkOfflineSession clientID
    (fold_left (λ acc sub,
       if negb (String.eqb (stClient sub) clientID) then acc
       else acc ++ [mkOfflineSubscription (stFilter sub) (stQos sub)]) subs []) None.

(** [clients] are the IDs of the storage.Client rows. *)
Definition AllFromStorage (clients : list string) (subs : list storageSubscription) : list OfflineSession :=
  let byClient : gmap string (list storageSubscription) :=
    fold_left (λ m sub, <[stClient sub := default [] (m !! stClient sub) ++ [sub]]> m) subs ∅ in
  fold_left (λ out c, out ++ [FromStorage c (default [] (byClient !! c))]) clients [].

Definition FilterOffline (sessions : list OfflineSession) (liveClaimed : gmap string string) :
    list OfflineSession :=
  fold_left (λ out s,
    match liveClaimed !! sessClientID s with
    | Some _ => out
    | None => out ++ [s]
    end) sessions [].

(** ** Delivery (delivery.go) *)

Record InflightMessage := mkInflightMessage { msgTopic : string; msgPayload : string; msgQoS : N }.

(** Whether the loop of [bestMatchQoS] reaches its end for a subscription: the
    shared filter was given to this client and the filter matches. *)
Definition sub_considered (clientID topic : string) (sharedSelected : gmap string string)
    (sub : OfflineSubscription) : bool :=
  match SharedFilter (subFilter sub) with
  | Some (_, sharedFilter) =>
      if negb (String.eqb (default "" (sharedSelected !! subFilter sub)) clientID) then false
      else MatchTopic sharedFilter topic
  | None => MatchTopic (subFilter sub) topic
  end.

Definition best_step (clientID topic : string) (publishQoS : N) (sharedSelected : gmap string string)
    (acc : N * bool) (sub : OfflineSubscription) : N * bool :=
  let '(qos, matched) := acc in
  if negb (sub_considered clientID topic sharedSelected sub) then (qos, matched)
  else
    let effective := if (publishQoS <? subQoS sub)%N then publishQoS else subQoS sub in
    (if (qos <? effective)%N then effective else qos, true).

Definition bestMatchQoS (s : OfflineSession) (topic : string) (publishQoS : N)
    (sharedSelected : gmap string string) : N * bool :=
  fold_left (best_step (sessClientID s) topic publishQoS sharedSelected) (sessSubscriptions s) (0%N, false).

(** sort.Strings followed by the first element. *)
Fixpoint least (clients : list string) : option string :=
  match clients with
  | [] => None
  | c :: rest => match least rest with
                 | None => Some c
                 | Some d => if ltb d c then Some d else Some c
                 end
  end.

(** The [candidates] map: clients of matching shared filters, in order. *)
Definition shared_candidates (owned : list OfflineSession) (topic : string) : gmap string (list string) :=
  fold_left (λ m s,
    fold_left (λ m sub,
      match SharedFilter (subFilter sub) with
      | None => m
      | Some (_, filter) =>
          if negb (MatchTopic filter topic) then m
          else <[subFilter sub := default [] (m !! subFilter sub) ++ [sessClientID s]]> m
      end) (sessSubscriptions s) m) owned ∅.

Definition selectSharedSessions (owned : list OfflineSession) (topic : string) : gmap string string :=
  omap least (shared_candidates owned topic).

Section Deliver.
  (** [Queue] returns [None] on error, otherwise the packet ID and whether the
      message was queued (false: deduplicated). *)
  Context {Q : Type} (Queue : string → InflightMessage → Q → Q * option (N * bool)).

(** One session of the loop; the counter is an int. *)
Definition deliver_one (topic payload : string) (publishQoS : N) (sharedSelected : gmap string string)
    (acc : Q * Z) (s : OfflineSession) : Q * Z :=
  let '(q, delivered) := acc in
  let '(qos, matched) := bestMatchQoS s topic publishQoS sharedSelected in
  if negb matched || (qos =? 0)%N then (q, delivered)
  else
    match Queue (sessClientID s) (mkInflightMessage topic payload qos) q with
    | (q, None) => (q, delivered)
    | (q, Some (_, queued)) => if queued : bool then (q, (delivered + 1)%Z) else (q, delivered)
    end.

(** [SharedSelected] is [None] when the caller left the map nil. *)
Definition Deliver (SharedSelected : option (gmap string string)) (owned : list OfflineSession)
    (topic payload : string) (publishQoS : N) (q : Q) : Q * Z :=
  let sharedSelected := match SharedSelected with
                        | None => selectSharedSessions owned topic
                        | Some m => m
                        end in
  fold_left (deliver_one topic payload publishQoS sharedSelected) owned (q, 0%Z).
End Deliver.

(** ** Ownership registry (offline_ownership.go) *)

(** offlineOwnerRegistry: the calls OfflineOwnership makes; a write answers
    false on error, a read lists nodes in the order of a map. *)
Inductive ownerReq : Type → Type :=
  | reg_Subscribe (topic nodeID : string) : ownerReq bool
  | reg_Unsubscribe (topic nodeID : string) : ownerReq bool
  | reg_NodesFor (topic : string) : ownerReq (list string).

Definition CurrentOwner (clientID filter : string) : proc ownerReq (option string) :=
  (nodes <- request (reg_NodesFor (OwnershipKey clientID filter));; Done (head nodes))%proc.

Definition Place (clientID filter newOwner : string) : proc ownerReq bool :=
  (let key := OwnershipKey clientID filter in
   old <- CurrentOwner clientID filter;;
   ok <- request (reg_Subscribe key newOwner);;
   if negb ok then Done false
   else
     ok <- request (reg_Subscribe (OfflineRouteKey filter) newOwner);;
     if negb ok then Done false
     else
       match old with
       | Some o => if negb (String.eqb o newOwner) then _ <- request (reg_Unsubscribe key o);; Done true else Done true
       | None => Done true
       end)%proc.

Definition Clear (clientID filter : string) : proc ownerReq bool :=
  (old <- CurrentOwner clientID filter;;
   match old with
   | None => Done true
   | Some o => request (reg_Unsubscribe (OwnershipKey clientID filter) o)
   end)%proc.

(** ** Placement loop (reconciler.go) *)

(** One subscription; the answer tells whether it was moved. *)
Definition reconcile_sub (clientID newOwner : string) (sub : OfflineSubscription) : proc ownerReq bool :=
  (current <- CurrentOwner clientID (subFilter sub);;
   if match current with Some n => String.eqb n newOwner | None => false end then Done false
   else Place clientID (subFilter sub) newOwner)%proc.

Fixpoint reconcile_subs (clientID newOwner : string) (subs : list OfflineSubscription) (moved : Z) : proc ownerReq Z :=
  (match subs with
   | [] => Done moved
   | sub :: subs => ok <- reconcile_sub clientID newOwner sub;; reconcile_subs clientID newOwner subs (if ok then moved + 1 else moved)%Z
   end)%proc.

Fixpoint reconcile_sessions (liveEdges : list string) (sessions : list OfflineSession) (moved : Z) : proc ownerReq Z :=
  (match sessions with
   | [] => Done moved
   | sess :: sessions =>
       match Owner (sessClientID sess) liveEdges with
       | None => reconcile_sessions liveEdges sessions moved
       | Some newOwner =>
           moved <- reconcile_subs (sessClientID sess) newOwner (sessSubscriptions sess) moved;;
           reconcile_sessions liveEdges sessions moved
       end
   end)%proc.

(** [ReconcileOnce] with the live edges and the inventory ([None]: failed);
    the number of moves is what it logs. *)
Definition ReconcileOnce (liveEdges : list string) (inventory : option (list OfflineSession)) : proc ownerReq Z :=
  match liveEdges, inventory with
  | [], _ | _, None => Done 0%Z
  | _ :: _, Some sessions => reconcile_sessions liveEdges sessions 0
  end.

(** ** The calls on the routing store

    CoreRegistry and EdgeRegistry pass the writes on to the router, which writes
    to the store. *)
Section OnStore.
  Context {S : Type} `{!ClusterStore S}.

(** A write acts on the store. A read is served by the cache of the node, which
    follows the store later: here it may answer anything. *)
Definition serves {X} (e : ownerReq X) (s : S) : X → S → Prop :=
  match e in ownerReq X return X → S → Prop with
  | reg_Subscribe t n => λ ok s', Router_Subscribe t n s = (s', ok)
  | reg_Unsubscribe t n => λ ok s', Router_Unsubscribe t n s = (s', ok)
  | reg_NodesFor _ => λ _ s', s' = s
  end.

(** The node [n] is registered in the store as owner of the session's filter. *)
Definition owns (c f n : string) (s : S) : Prop := routeKey (OwnershipKey c f) n ∈ store_keys s.
Definition owned (c f : string) (s : S) : Prop := ∃ n, owns c f n s.

Definition calls (p : proc ownerReq bool) (s : S) (p' : proc ownerReq bool) (s' : S) : Prop :=
  match p with
  | Done _ => False
  | Call e k => ∃ x, serves e s x s' ∧ p' = k x
  end.

(** A handover of [f] of client [c] to [new]: its own calls, and in between
    whatever others do to the store (other nodes, and calls that took effect
    although they answered with an error), as long as they keep an owner and do
    not take away the new owner's entry. *)
Inductive place_step (c f new : string) : proc ownerReq bool * S → proc ownerReq bool * S → Prop :=
  | place_call p s p' s' : calls p s p' s' → place_step c f new (p, s) (p', s')
  | place_other p s s' : (owned c f s → owned c f s') → (owns c f new s → owns c f new s') →
      place_step c f new (p, s) (p, s').

(** A run without interference in which the cache of the node stays as it is. *)
Definition serve (nodesFor : string → list string) {X} (e : ownerReq X) (s : S) : X * S :=
  match e in ownerReq X return X * S with
  | reg_Subscribe t n => let '(s', ok) := Router_Subscribe t n s in (ok, s')
  | reg_Unsubscribe t n => let '(s', ok) := Router_Unsubscribe t n s in (ok, s')
  | reg_NodesFor t => (nodesFor t, s)
  end.

Fixpoint exec (nodesFor : string → list string) {A} (p : proc ownerReq A) (s : S) : A * S :=
  match p with
  | Done a => (a, s)
  | Call e k => let '(x, s') := serve nodesFor e s in exec nodesFor (k x) s'
  end.
End OnStore.

(** ** Routing reconciler (routing/reconciler.go) *)

(** [clients] are the filters of each connected client's subscriptions. *)
Definition LocalSubscriptions (clients : list (gset string)) : list string :=
  elements (fold_left (λ seen fs, seen ∪ fs) clients (∅ : gset string)).

Section RoutingReconciler.
  Context {S : Type} (reg_TopicsForNode : string → S → list string)
    (reg_Subscribe' : string → string → S → S * bool).

Definition reconcileOnce (nodeID : string) (clients : list (gset string)) (s : S) : S :=
  let local := LocalSubscriptions clients in
  match local with
  | [] => s
  | _ :: _ =>
      let knownSet : gset string := list_to_set (reg_TopicsForNode nodeID s) in
      let missing := List.filter (λ t, negb (bool_decide (t ∈ knownSet))) local in
      fold_left (λ s t, (reg_Subscribe' t nodeID s).1) missing s
  end.
End RoutingReconciler.

(** ** Specification *)

(** A subscription of a session takes part in a delivery. *)
Definition sub_matches (clientID topic : string) (sel : gmap string string) (sub : OfflineSubscription) : Prop :=
  match SharedFilter (subFilter sub) with
  | Some (_, u) => default "" (sel !! subFilter sub) = clientID ∧ MatchTopic u topic = true
  | None => MatchTopic (subFilter sub) topic = true
  end.

(** A session is a candidate of a shared filter for a topic. *)
Definition shared_candidate (owned : list OfflineSession) (topic f c : string) : Prop :=
  ∃ s sub g u, s ∈ owned ∧ sub ∈ sessSubscriptions s ∧ subFilter sub = f ∧
    SharedFilter f = Some (g, u) ∧ MatchTopic u topic = true ∧ sessClientID s = c.

(** ** Lemmas: sessions *)

Definition rows_of (c : string) (subs : list storageSubscription) : list storageSubscription :=
  List.filter (λ sub, String.eqb (stClient sub) c) subs.

Definition to_offline (sub : storageSubscription) : OfflineSubscription :=
  mkOfflineSubscription (stFilter sub) (stQos sub).

Lemma FromStorage_rows c subs : FromStorage c subs = mkOfflineSession c (to_offline <$> rows_of c subs) None.
Proof.
  unfold FromStorage. f_equal.
  rewrite (fold_left_collect (λ sub, if String.eqb (stClient sub) c then [to_offline sub] else [])).
  2:{ intros acc sub. destruct (String.eqb (stClient sub) c); [done|by rewrite app_nil_r]. }
  apply list_bind_filter.
Qed.

Lemma group_rows subs (m : gmap string (list storageSubscription)) c :
  default [] (fold_left (λ m sub, <[stClient sub := default [] (m !! stClient sub) ++ [sub]]> m) subs m !! c)
  = default [] (m !! c) ++ rows_of c subs.
Proof.
  revert m. induction subs as [|sub subs IH]; intros m; simpl; [by rewrite app_nil_r|].
  rewrite IH, lookup_insert. destruct (decide (stClient sub = c)) as [<-|Hn].
  - rewrite String.eqb_refl. simpl. by rewrite <-app_assoc.
  - apply String.eqb_neq in Hn. by rewrite Hn.
Qed.

Lemma rows_of_idemp c subs : rows_of c (rows_of c subs) = rows_of c subs.
Proof.
  unfold rows_of. induction subs as [|sub subs IH]; simpl; [done|].
  destruct (String.eqb (stClient sub) c) eqn:E; simpl; [by rewrite E, IH|done].
Qed.

Lemma FilterOffline_filter sessions live :
  FilterOffline sessions live = filter (λ s, live !! sessClientID s = None) sessions.
Proof.
  unfold FilterOffline.
  rewrite (fold_left_collect (λ s, match live !! sessClientID s with Some _ => [] | None => [s] end)).
  2:{ intros acc s. case_match; [by rewrite app_nil_r|done]. }
  rewrite app_nil_l. induction sessions as [|s l IH]; [done|]. rewrite bind_cons, IH, filter_cons.
  by destruct (live !! sessClientID s).
Qed.

(** ** Lemmas: delivery *)

Lemma sub_considered_iff c topic sel sub :
  sub_considered c topic sel sub = true ↔ sub_matches c topic sel sub.
Proof.
  unfold sub_considered, sub_matches. destruct (SharedFilter _) as [[g u]|]; [|done].
  destruct (String.eqb_spec (default "" (sel !! subFilter sub)) c); simpl; naive_solver.
Qed.

Lemma best_fold c topic pq sel l q m :
  let r := fold_left (best_step c topic pq sel) l (q, m) in
  (r.2 = true ↔ m = true ∨ ∃ sub, sub ∈ l ∧ sub_considered c topic sel sub = true) ∧
  (q <= r.1)%N ∧ (∀ sub, sub ∈ l → sub_considered c topic sel sub = true → (N.min pq (subQoS sub) <= r.1)%N) ∧
  (r.1 = q ∨ ∃ sub, sub ∈ l ∧ sub_considered c topic sel sub = true ∧ r.1 = N.min pq (subQoS sub)).
Proof.
  revert q m. induction l as [|sub l IH]; intros q m.
  - simpl. split_and!; [|lia| |by left].
    + split; [by left|]. intros [?|(? & []%not_elem_of_nil & _)]; done.
    + intros ? []%not_elem_of_nil.
  - cbn [fold_left]. unfold best_step at 2 4 6 8 10.
    set (e := if (pq <? subQoS sub)%N then pq else subQoS sub).
    assert (e = N.min pq (subQoS sub)) as He by (unfold e; destruct (N.ltb_spec pq (subQoS sub)); lia).
    setoid_rewrite elem_of_cons. destruct (sub_considered c topic sel sub) eqn:E; simpl.
    + destruct (IH (if (q <? e)%N then e else q) true) as (H1 & H2 & H3 & H4).
      assert (q <= (if (q <? e)%N then e else q) /\ e <= (if (q <? e)%N then e else q))%N as [Ha Hb]
        by (destruct (N.ltb_spec q e); lia).
      split_and!; [|lia| |].
      * rewrite H1. split; [|by left]. intros _. right. eauto.
      * intros sub' [->|?] Hs; [|by apply H3]. rewrite <-He. lia.
      * destruct H4 as [H4|(sub' & ? & ? & ?)]; [|eauto 10].
        destruct (N.ltb_spec q e); [|by left]. right. exists sub. rewrite <-He. eauto.
    + destruct (IH q m) as (H1 & H2 & H3 & H4). split_and!; [|done| |].
      * rewrite H1. split; [intros [?|(? & ? & ?)]; eauto|]. intros [?|(? & [->|?] & ?)]; [auto|congruence|eauto].
      * intros sub' [->|?] Hs; [congruence|by apply H3].
      * destruct H4 as [?|(sub' & ? & ? & ?)]; [by left|]. right. exists sub'. auto.
Qed.

Lemma least_spec l :
  match least l with
  | None => l = []
  | Some c => c ∈ l ∧ ∀ d, d ∈ l → ltb d c = false
  end.
Proof.
  induction l as [|c l IH]; simpl; [done|]. destruct (least l) as [d|].
  - destruct IH as [Hd Hmin]. destruct (ltb d c) eqn:E.
    + split; [by right|]. intros x [->|?]%elem_of_cons; [by apply ltb_asym|by apply Hmin].
    + split; [by left|]. intros x [->|Hx]%elem_of_cons; [apply ltb_irrefl|].
      destruct (ltb x c) eqn:Ex; [|done]. specialize (Hmin x Hx).
      destruct (ltb c d) eqn:Ec; [by rewrite (ltb_trans _ _ _ Ex Ec) in Hmin|].
      rewrite (ltb_total _ _ Ec E) in Ex. congruence.
  - subst l. split; [by left|]. intros d ->%list_elem_of_singleton. apply ltb_irrefl.
Qed.

Lemma candidates_inner topic cid subs (m : gmap string (list string)) f c :
  c ∈ default [] (fold_left (λ m sub,
      match SharedFilter (subFilter sub) with
      | None => m
      | Some (_, filter) =>
          if negb (MatchTopic filter topic) then m
          else <[subFilter sub := default [] (m !! subFilter sub) ++ [cid]]> m
      end) subs m !! f) ↔
  c ∈ default [] (m !! f) ∨
  (c = cid ∧ ∃ sub g u, sub ∈ subs ∧ subFilter sub = f ∧ SharedFilter f = Some (g, u) ∧ MatchTopic u topic = true).
Proof.
  revert m. induction subs as [|sub subs IH]; intros m; simpl.
  - split; [by left|]. intros [?|(_ & ? & ? & ? & []%not_elem_of_nil & _)]; done.
  - rewrite IH. setoid_rewrite elem_of_cons.
    destruct (SharedFilter (subFilter sub)) as [[g u]|] eqn:E; [destruct (MatchTopic u topic) eqn:Em|]; simpl.
    + rewrite lookup_insert. destruct (decide (subFilter sub = f)) as [<-|Hn]; simpl.
      * rewrite elem_of_app, list_elem_of_singleton. split.
        -- intros [[?| ->]|(-> & sub' & g' & u' & ? & ?)]; [by left| |right; eauto 10].
           right. split; [done|]. exists sub, g, u. auto.
        -- intros [?|(-> & sub' & g' & u' & [->|?] & ?)]; [auto|auto|right; eauto 10].
      * split; [intros [?|(-> & sub' & g' & u' & ? & ?)]; [auto|right; eauto 10]|].
        intros [?|(-> & sub' & g' & u' & [->|?] & Hf & ?)]; [auto|done|right; eauto 10].
    + split; [intros [?|(-> & sub' & g' & u' & ? & ?)]; [auto|right; eauto 10]|].
      intros [?|(-> & sub' & g' & u' & [->|?] & <- & E' & ?)]; [auto| |right; eauto 10].
      rewrite E in E'. injection E' as <- <-. congruence.
    + split; [intros [?|(-> & sub' & g' & u' & ? & ?)]; [auto|right; eauto 10]|].
      intros [?|(-> & sub' & g' & u' & [->|?] & <- & E' & ?)]; [auto|congruence|right; eauto 10].
Qed.

Lemma shared_candidates_elem owned topic f c :
  c ∈ default [] (shared_candidates owned topic !! f) ↔ shared_candidate owned topic f c.
Proof.
  unfold shared_candidates, shared_candidate.
  assert (∀ l (m : gmap string (list string)),
    c ∈ default [] (fold_left (λ m s, fold_left (λ m sub,
      match SharedFilter (subFilter sub) with
      | None => m
      | Some (_, filter) =>
          if negb (MatchTopic filter topic) then m
          else <[subFilter sub := default [] (m !! subFilter sub) ++ [sessClientID s]]> m
      end) (sessSubscriptions s) m) l m !! f) ↔
    c ∈ default [] (m !! f) ∨ ∃ s sub g u, s ∈ l ∧ sub ∈ sessSubscriptions s ∧ subFilter sub = f ∧
      SharedFilter f = Some (g, u) ∧ MatchTopic u topic = true ∧ sessClientID s = c) as H.
  { induction l as [|s l IH]; intros m; simpl.
    - split; [by left|]. intros [?|(? & ? & ? & ? & []%not_elem_of_nil & _)]; done.
    - rewrite IH, candidates_inner. setoid_rewrite elem_of_cons. split.
      + intros [[?|(-> & sub & g & u & ? & ? & ? & ?)]|(s' & sub & g & u & ? & ?)]; [by left| |];
          right; [exists s|exists s']; exists sub, g, u; naive_solver.
      + intros [?|(s' & sub & g & u & [->|?] & ? & ? & ? & ? & ?)]; [auto| |].
        * left. right. split; [done|]. eauto 10.
        * right. exists s', sub, g, u. by auto 10. }
  rewrite H, lookup_empty. simpl. split; [|by right]. intros [[]%not_elem_of_nil|?]; done.
Qed.

Lemma selectSharedSessions_spec owned topic f :
  match selectSharedSessions owned topic !! f with
  | None => ∀ c, ¬ shared_candidate owned topic f c
  | Some c => shared_candidate owned topic f c ∧ ∀ d, shared_candidate owned topic f d → ltb d c = false
  end.
Proof.
  unfold selectSharedSessions. rewrite lookup_omap.
  pose proof (shared_candidates_elem owned topic f) as Hc.
  destruct (shared_candidates owned topic !! f) as [l|]; simpl in *.
  - pose proof (least_spec l) as Hl. destruct (least l) as [c|].
    + destruct Hl as [Hin Hmin]. split; [by apply Hc|]. intros d Hd. apply Hmin. by apply Hc.
    + subst l. intros c Hd%Hc. by apply not_elem_of_nil in Hd.
  - intros c Hd%Hc. by apply not_elem_of_nil in Hd.
Qed.

(** What is handed to the queue: each session at most once, in order. *)
Definition delivery_of (topic payload : string) (pq : N) (sel : gmap string string) (s : OfflineSession) :
    option (string * InflightMessage) :=
  let '(qos, matched) := bestMatchQoS s topic pq sel in
  if matched && negb (qos =? 0)%N then Some (sessClientID s, mkInflightMessage topic payload qos) else None.

Definition deliveries (topic payload : string) (pq : N) (sel : gmap string string) (owned : list OfflineSession) :
    list (string * InflightMessage) := omap (delivery_of topic payload pq sel) owned.

(** The queue calls of a delivery, counting those that queued. *)
Definition enqueue_all {Q} (Queue : string → InflightMessage → Q → Q * option (N * bool))
    (l : list (string * InflightMessage)) (q : Q) : Q * Z :=
  fold_left (λ '(q, n) '(c, m),
    match Queue c m q with
    | (q, Some (_, true)) => (q, (n + 1)%Z)
    | (q, _) => (q, n)
    end) l (q, 0%Z).

Lemma Deliver_enqueue {Q} (Queue : string → InflightMessage → Q → Q * option (N * bool)) SharedSelected owned
    topic payload pq q :
  Deliver Queue SharedSelected owned topic payload pq q =
  enqueue_all Queue (deliveries topic payload pq
    (default (selectSharedSessions owned topic) SharedSelected) owned) q.
Proof.
  unfold Deliver, enqueue_all, deliveries. generalize 0%Z.
  replace (match SharedSelected with None => selectSharedSessions owned topic | Some m => m end)
    with (default (selectSharedSessions owned topic) SharedSelected) by (by destruct SharedSelected).
  generalize (default (selectSharedSessions owned topic) SharedSelected). intros sel. revert q.
  induction owned as [|s l IH]; intros q n; simpl; [done|].
  unfold delivery_of at 1. destruct (bestMatchQoS s topic pq sel) as [qos m].
  destruct m, (qos =? 0)%N; simpl; try apply IH.
  destruct (Queue _ _ q) as [q' [[pid []]|]]; apply IH.
Qed.

Lemma delivery_of_spec topic payload pq sel s c m :
  delivery_of topic payload pq sel s = Some (c, m) ↔
  c = sessClientID s ∧ msgTopic m = topic ∧ msgPayload m = payload ∧ (0 < msgQoS m)%N ∧
  (∀ sub, sub ∈ sessSubscriptions s → sub_matches c topic sel sub → (N.min pq (subQoS sub) <= msgQoS m)%N) ∧
  (∃ sub, sub ∈ sessSubscriptions s ∧ sub_matches c topic sel sub ∧ msgQoS m = N.min pq (subQoS sub)).
Proof.
  unfold delivery_of, bestMatchQoS. pose proof (best_fold (sessClientID s) topic pq sel (sessSubscriptions s) 0 false) as H.
  destruct (fold_left _ _ _) as [qos b]. simpl in H. destruct H as (H1 & _ & H3 & H4).
  setoid_rewrite <-sub_considered_iff. split.
  - destruct b, (N.eqb_spec qos 0) as [?|Hq]; simpl; try done. intros [= <- <-]. simpl.
    split_and!; try done; [lia|]. destruct H4; [lia|done].
  - intros (-> & Ht & Hp & Hpos & Hmax & sub & Hs & Hc & Hq). destruct m as [mt mp mq]. simpl in *. subst mt mp.
    assert (b = true) as -> by (apply H1; eauto). pose proof (H3 sub Hs Hc).
    destruct H4 as [->|(sub' & Hs' & Hc' & ->)]; [lia|]. specialize (Hmax sub' Hs' Hc').
    destruct (N.eqb_spec (N.min pq (subQoS sub')) 0); [lia|]. simpl. do 3 f_equal. lia.
Qed.

(** ** Lemmas: ownership *)

Lemma OwnershipKey_inj c f c' f' :
  contains_byte zero c = false → contains_byte zero c' = false →
  OwnershipKey c f = OwnershipKey c' f' → c = c' ∧ f = f'.
Proof.
  intros Hc Hc' E. apply (f_equal (trim_prefix ownershipKeyPrefix)) in E. unfold OwnershipKey in E.
  rewrite !trim_prefix_app in E. apply encode_inj, (f_equal (cut zero)) in E.
  rewrite !cut_app in E by done. by injection E.
Qed.

Lemma routeKey_inj t n t' n' :
  contains_byte zero n = false → contains_byte zero n' = false → routeKey t n = routeKey t' n' → t = t' ∧ n = n'.
Proof.
  intros Hn Hn' E. apply (f_equal parseRouteKey) in E. rewrite !parse_routeKey in E by done. by injection E.
Qed.

Lemma routeKey_node t n n' : routeKey t n = routeKey t n' → n = n'.
Proof.
  unfold routeKey. intros E. induction t as [|a t IH]; [rewrite !string_app_nil_l in E; by injection E|].
  rewrite !string_app_cons in E. injection E as E. by apply IH.
Qed.

Section Ownership.
  Context {S : Type} `{!ClusterStore S} `{!ClusterStoreLaws S}.

Lemma Subscribe_keys t n (s s' : S) ok : Router_Subscribe t n s = (s', ok) →
  store_keys s ⊆ store_keys s' ∧ (ok = true → routeKey t n ∈ store_keys s') ∧
  store_keys s' ⊆ {[routeKey t n]} ∪ store_keys s.
Proof.
  unfold Router_Subscribe. destruct (store_Put (routeKey t n) s) as [s1|] eqn:E; [|intros [= <- <-]; set_solver].
  apply law_Put in E as [E _]. unfold publish. destruct (store_Publish _ s1) as [s2|] eqn:E2; intros [= <- <-]; [|set_solver].
  apply law_Publish in E2 as [-> _]. set_solver.
Qed.

Lemma Unsubscribe_keys t n (s s' : S) ok : Router_Unsubscribe t n s = (s', ok) →
  store_keys s ∖ {[routeKey t n]} ⊆ store_keys s' ∧ store_keys s' ⊆ store_keys s.
Proof.
  unfold Router_Unsubscribe. destruct (store_Delete [routeKey t n] s) as [s1|] eqn:E; [|intros [= <- <-]; set_solver].
  apply law_Delete in E as [E _]. unfold publish. destruct (store_Publish _ s1) as [s2|] eqn:E2; intros [= <- <-]; [|set_solver].
  apply law_Publish in E2 as [-> _]. set_solver.
Qed.

(** *** Handover *)

(** A program that gives up an owner only after the new one was registered, and
    reports success only then. *)
Fixpoint keeps (key new : string) (p : proc ownerReq bool) (placed : Prop) : Prop :=
  match p with
  | Done ok => ok = true → placed
  | @Call _ _ X e k =>
      match e in ownerReq X return (X → Prop → Prop) → Prop with
      | reg_Subscribe t n => λ kk, kk false placed ∧ kk true (placed ∨ (t = key ∧ n = new))
      | reg_Unsubscribe t n => λ kk, (t = key ∧ placed ∧ n ≠ new) ∧ ∀ ok, kk ok placed
      | reg_NodesFor _ => λ kk, ∀ l, kk l placed
      end (λ x, keeps key new (k x))
  end.

Lemma Place_keeps c f new : keeps (OwnershipKey c f) new (Place c f new) False.
Proof.
  cbn. intros nodes. split; [done|]. split; [done|].
  destruct (head nodes) as [o|]; cbn; [|tauto]. destruct (String.eqb_spec o new) as [->|Hne]; cbn; [tauto|].
  split; [|tauto]. split_and!; [done|tauto|done].
Qed.

Definition place_inv (c f new : string) (s0 : S) (st : proc ownerReq bool * S) : Prop :=
  (owned c f s0 → owned c f st.2) ∧ ∃ placed : Prop, (placed → owns c f new st.2) ∧ keeps (OwnershipKey c f) new st.1 placed.

Lemma place_call_inv c f new s0 p s p' s' :
  place_inv c f new s0 (p, s) → calls p s p' s' → place_inv c f new s0 (p', s').
Proof.
  intros [Ho (placed & Hp & Hk)]. destruct p as [ok|X e k]; [done|]. intros (x & Hs & ->). cbn in *.
  destruct e as [t n|t n|t]; cbn in Hs, Hk.
  - destruct (Subscribe_keys _ _ _ _ _ Hs) as (Hsub & Hin & _). destruct Hk as [Hf Ht]. split; cbn.
    + intros (m & Hm)%Ho. exists m. by apply Hsub.
    + destruct x; [exists (placed ∨ (t = OwnershipKey c f ∧ n = new)); split; [|done]|exists placed; split; [|done]].
      * intros [Hpl|[-> ->]]; [by apply Hsub, Hp|by apply Hin].
      * intros Hpl. by apply Hsub, Hp.
  - destruct (Unsubscribe_keys _ _ _ _ _ Hs) as [Hdel _]. destruct Hk as [(-> & Hpl & Hne) Hk].
    assert (owns c f new s') as Hnew.
    { apply Hdel, elem_of_difference. split; [by apply Hp|]. by intros E%elem_of_singleton%routeKey_node. }
    split; cbn; [by exists new|]. exists placed. split; [done|]. apply Hk.
  - subst s'. split; [done|]. exists placed. split; [done|]. apply Hk.
Qed.

Lemma place_step_inv c f new s0 st st' :
  place_inv c f new s0 st → place_step c f new st st' → place_inv c f new s0 st'.
Proof.
  intros Hi Hs. revert Hi. destruct Hs as [p s p' s' Hc|p s s' H1 H2]; intros Hi; [by eapply place_call_inv|]. destruct Hi as [Ho (placed & Hp & Hk)].
  split; cbn in *; [auto|]. exists placed. auto.
Qed.

(** *** One pass of the placement loop *)

Context (up : S → Prop) (nodesFor : string → list string).

Lemma exec_bind {A B} (p : proc ownerReq A) (q : A → proc ownerReq B) (s : S) :
  exec nodesFor (proc_bind p q) s = let '(a, s') := exec nodesFor p s in exec nodesFor (q a) s'.
Proof.
  revert s. induction p as [a|X e k IH]; intros s; cbn; [done|]. destruct (serve nodesFor e s) as [x s']. apply IH.
Qed.

Context (Hsub : ∀ t n s, up s → ∃ s', Router_Subscribe t n s = (s', true) ∧ up s')
  (Hunsub : ∀ t n s, up s → ∃ s', Router_Unsubscribe t n s = (s', true) ∧ up s')
  (Hnodes : ∀ t, Forall (λ n, contains_byte zero n = false) (nodesFor t)).

Definition named (c f : string) : option string := head (nodesFor (OwnershipKey c f)).

(** What one placement does to the owners of all sessions. *)
Lemma Place_owners c f new s : contains_byte zero c = false → contains_byte zero new = false → up s →
  let s' := (exec nodesFor (Place c f new) s).2 in
  up s' ∧ owns c f new s' ∧
  (∀ c' f' n, contains_byte zero c' = false → contains_byte zero n = false → (c', f') ≠ (c, f) → owns c' f' n s' ↔ owns c' f' n s).
Proof.
  intros Hc Hnew Hs. cbn. fold (named c f).
  destruct (Hsub (OwnershipKey c f) new s Hs) as (s1 & E1 & Hs1). rewrite E1. cbn.
  destruct (Hsub (OfflineRouteKey f) new s1 Hs1) as (s2 & E2 & Hs2). rewrite E2. cbn.
  destruct (Subscribe_keys _ _ _ _ _ E1) as (A1 & A2 & A3), (Subscribe_keys _ _ _ _ _ E2) as (B1 & _ & B3).
  assert (∀ c' f' n, contains_byte zero c' = false → contains_byte zero n = false → (c', f') ≠ (c, f) →
    owns c' f' n s2 ↔ owns c' f' n s) as Hother.
  { intros c' f' n Hc' Hn Hne. unfold owns. split; [|auto]. intros [E%elem_of_singleton|[E%elem_of_singleton|?]%A3%elem_of_union]%B3%elem_of_union; [| |done].
    - apply routeKey_inj in E as [E _]; [|done|done]. by unfold OwnershipKey, OfflineRouteKey in E.
    - apply routeKey_inj in E as [E _]; [|done|done]. apply OwnershipKey_inj in E as [-> ->]; done. }
  assert (owns c f new s2) as Hown by by apply B1, A2.
  destruct (named c f) as [o|] eqn:Eo; cbn; [|done]. destruct (String.eqb_spec o new) as [->|Hne]; cbn; [done|].
  destruct (Hunsub (OwnershipKey c f) o s2 Hs2) as (s3 & E3 & Hs3). rewrite E3. cbn.
  destruct (Unsubscribe_keys _ _ _ _ _ E3) as [D1 D2]. split; [done|]. split.
  - apply D1, elem_of_difference. split; [done|]. intros E%elem_of_singleton%routeKey_node. congruence.
  - intros c' f' n Hc' Hn Hx. rewrite <-Hother by done. split; [apply D2|]. intros Ho. apply D1, elem_of_difference.
    split; [done|]. intros E%elem_of_singleton. apply routeKey_inj in E as [E _]; [by apply OwnershipKey_inj in E as [-> ->]|done|].
    unfold named in Eo. specialize (Hnodes (OwnershipKey c f)). destruct (nodesFor _); [done|]. injection Eo as ->. by inv Hnodes.
Qed.

(** The session's filter is at the owner [n], in the store or by what the cache says. *)
Definition placed_at (c f n : string) (s : S) : Prop := named c f = Some n ∨ owns c f n s.

Lemma reconcile_sub_owners c new sub s : contains_byte zero c = false → contains_byte zero new = false → up s →
  let s' := (exec nodesFor (reconcile_sub c new sub) s).2 in
  up s' ∧ placed_at c (subFilter sub) new s' ∧
  (∀ c' f' n, contains_byte zero c' = false → contains_byte zero n = false → (c', f') ≠ (c, subFilter sub) → owns c' f' n s' ↔ owns c' f' n s).
Proof.
  intros Hc Hnew Hs. unfold reconcile_sub. rewrite exec_bind. cbn [CurrentOwner request proc_bind exec serve]. fold (named c (subFilter sub)).
  destruct (match named c (subFilter sub) with Some n => String.eqb n new | None => false end) eqn:E.
  - cbn. split; [done|]. split; [|done]. left. destruct (named c (subFilter sub)); [|done]. by apply String.eqb_eq in E as ->.
  - destruct (Place_owners c (subFilter sub) new s Hc Hnew Hs) as (? & ? & ?). split; [done|]. split; [by right|done].
Qed.

(** The (client, filter) pairs an inventory asks to place. *)
Definition placements (sessions : list OfflineSession) : list (string * string) :=
  sessions ≫= λ sess, (λ sub, (sessClientID sess, subFilter sub)) <$> sessSubscriptions sess.

(** The pass so far: the pairs of [done] are at their owners, the others are as in [s0]. *)
Definition pass_inv (liveEdges : list string) (s0 : S) (done : list (string * string)) (s : S) : Prop :=
  up s ∧
  (∀ c f, (c, f) ∈ done → ∃ n, Owner c liveEdges = Some n ∧ placed_at c f n s) ∧
  (∀ c f n, contains_byte zero c = false → contains_byte zero n = false → (c, f) ∉ done → owns c f n s ↔ owns c f n s0).
Context (liveEdges : list string) (Hedges : Forall (λ n, contains_byte zero n = false) liveEdges).

Lemma reconcile_sub_pass s0 done c new sub s : Owner c liveEdges = Some new → contains_byte zero c = false →
  Forall (λ '(c, _), contains_byte zero c = false) done → pass_inv liveEdges s0 done s →
  pass_inv liveEdges s0 ((c, subFilter sub) :: done) (exec nodesFor (reconcile_sub c new sub) s).2.
Proof.
  intros Ho Hc Hd (Hu & H1 & H2).
  assert (Forall (λ n, contains_byte zero n = false) liveEdges → contains_byte zero new = false) as Hnew.
  { intros HF. apply Owner_max in Ho as [Hin _]. by eapply Forall_forall in HF. }
  destruct (reconcile_sub_owners c new sub s Hc (Hnew Hedges) Hu) as (H3 & H4 & H5). split; [done|]. split.
  - intros c' f' [E|Hin]%elem_of_cons; [injection E as -> ->; eauto|]. destruct (H1 c' f' Hin) as (n & En & Hn). exists n. split; [done|].
    destruct (decide ((c', f') = (c, subFilter sub))) as [E|Hne]; [injection E as -> ->; congruence|].
    destruct Hn as [?|Hn]; [by left|right]. apply H5; [|by apply Owner_max in En as [? _]; eapply Forall_forall in Hedges|done|done].
    exact (proj1 (Forall_forall _ _) Hd (c', f') Hin).
  - intros c' f' n Hc' Hn [Hne Hnin]%not_elem_of_cons. rewrite H5 by done. by apply H2.
Qed.

Lemma reconcile_subs_pass s0 done c new l m s : Owner c liveEdges = Some new → contains_byte zero c = false →
  Forall (λ '(c, _), contains_byte zero c = false) done → pass_inv liveEdges s0 done s →
  ∃ done', (∀ x, x ∈ done' ↔ x ∈ done ∨ x ∈ (λ sub, (c, subFilter sub)) <$> l) ∧
    Forall (λ '(c, _), contains_byte zero c = false) done' ∧
    pass_inv liveEdges s0 done' (exec nodesFor (reconcile_subs c new l m) s).2.
Proof.
  intros Ho Hc. revert done m s. induction l as [|sub l IH]; intros done m s Hd Hi; cbn [reconcile_subs].
  - exists done. split; [|done]. intros x. rewrite elem_of_nil. tauto.
  - pose proof (reconcile_sub_pass s0 done c new sub s Ho Hc Hd Hi) as Hi'. rewrite exec_bind.
    destruct (exec nodesFor (reconcile_sub c new sub) s) as [ok s1]. cbn in Hi'.
    destruct (IH ((c, subFilter sub) :: done) (if ok then m + 1 else m)%Z s1 ltac:(by constructor) Hi') as (done' & H1 & H2 & H3).
    exists done'. split; [|done]. intros x. rewrite H1, fmap_cons, !elem_of_cons. tauto.
Qed.

Lemma reconcile_sessions_pass s0 sessions done m s : liveEdges ≠ [] →
  Forall (λ sess, contains_byte zero (sessClientID sess) = false) sessions →
  Forall (λ '(c, _), contains_byte zero c = false) done → pass_inv liveEdges s0 done s →
  ∃ done', (∀ x, x ∈ done' ↔ x ∈ done ∨ x ∈ placements sessions) ∧
    pass_inv liveEdges s0 done' (exec nodesFor (reconcile_sessions liveEdges sessions m) s).2.
Proof.
  intros Hl HF. revert done m s. induction HF as [|sess l Hc HF IH]; intros done m s Hd Hi; cbn [reconcile_sessions].
  - exists done. split; [|done]. intros x. cbn. rewrite elem_of_nil. tauto.
  - destruct (Owner_total (sessClientID sess) liveEdges Hl) as [new Enew]. rewrite Enew, exec_bind.
    destruct (reconcile_subs_pass s0 done _ new (sessSubscriptions sess) m s Enew Hc Hd Hi) as (d1 & H1 & H2 & H3).
    destruct (exec nodesFor (reconcile_subs _ _ _ m) s) as [m' s']. cbn in H3.
    destruct (IH d1 m' s' H2 H3) as (d2 & H4 & H5). exists d2. split; [|done]. intros x.
    unfold placements. rewrite H4, H1, bind_cons, elem_of_app. fold (placements l). tauto.
Qed.
End Ownership.

(** ** Lemmas: routing reconciler *)

Lemma LocalSubscriptions_elem clients t : t ∈ LocalSubscriptions clients ↔ ∃ fs, fs ∈ clients ∧ t ∈ fs.
Proof.
  unfold LocalSubscriptions. rewrite elem_of_elements.
  assert (∀ (seen : gset string), t ∈ fold_left (λ seen fs, seen ∪ fs) clients seen ↔
    t ∈ seen ∨ ∃ fs, fs ∈ clients ∧ t ∈ fs) as H.
  { induction clients as [|fs l IH]; intros seen; simpl.
    - split; [by left|]. intros [?|(? & []%not_elem_of_nil & _)]. done.
    - rewrite IH, elem_of_union. setoid_rewrite elem_of_cons. naive_solver. }
  rewrite H. set_solver.
Qed.

Section Reassert.
  Context {S : Type} `{!ClusterStore S} `{!ClusterStoreLaws S}.

Lemma Router_Subscribe_table t n (s s' : S) t' n' :
  regular t n → Router_Subscribe t n s = (s', true) →
  store_table s' t' n' ↔ table_add t n (store_table s) t' n'.
Proof.
  intros Hreg. unfold Router_Subscribe. destruct (store_Put _ s) as [s1|] eqn:E; [|done].
  intros [Hk _]%publish_ok. rewrite (store_table_keys s1) by done. by apply store_table_Put.
Qed.

(** Registering a list of filters with a store that stays up. *)
Lemma reassert_fold (up : S → Prop) n l (s : S) :
  (∀ t s, up s → ∃ s', Router_Subscribe t n s = (s', true) ∧ up s') → up s → (∀ t, t ∈ l → regular t n) →
  ∀ t' n', store_table (fold_left (λ s t, (Router_Subscribe t n s).1) l s) t' n' ↔
    store_table s t' n' ∨ (t' ∈ l ∧ n' = n).
Proof.
  intros Hup. revert s. induction l as [|t l IH]; intros s Hs Hreg t' n'; simpl.
  - split; [by left|]. intros [?|[[]%not_elem_of_nil _]]. done.
  - destruct (Hup t s Hs) as (s1 & E & Hs1). rewrite E. simpl.
    rewrite IH; [|done|set_solver]. rewrite (Router_Subscribe_table _ _ _ _ _ _ (Hreg t ltac:(by left)) E).
    unfold table_add. rewrite elem_of_cons. tauto.
Qed.
End Reassert.

(** ** Claims *)

(** Rebuilding sessions from storage groups rows by client and loses
    nothing: the grouped inventory equals filtering the rows once per client,
    and removing the live claims leaves exactly the unclaimed sessions. *)
Theorem inventory_is_per_client_filter clients subs live :
  AllFromStorage clients subs = (λ c, FromStorage c subs) <$> clients ∧
  FilterOffline (AllFromStorage clients subs) live =
    (λ c, FromStorage c subs) <$> filter (λ c, live !! c = None) clients.
Proof.
  assert (AllFromStorage clients subs = (λ c, FromStorage c subs) <$> clients) as H.
  { unfold AllFromStorage.
    rewrite (fold_left_collect (λ c, [FromStorage c (default [] (fold_left (λ m sub,
      <[stClient sub := default [] (m !! stClient sub) ++ [sub]]> m) subs (∅ : gmap _ _) !! c))])) by done.
    rewrite app_nil_l. induction clients as [|c l IH]; [done|]. rewrite bind_cons, IH, fmap_cons. simpl. f_equal.
    rewrite group_rows, lookup_empty. simpl. by rewrite !FromStorage_rows, rows_of_idemp. }
  split; [done|]. rewrite FilterOffline_filter, H. clear H. induction clients as [|c l IH]; [done|].
  rewrite fmap_cons, !filter_cons, IH. simpl. by destruct (decide (live !! c = None)).
Qed.

(** An offline delivery hands each owned session at most one message, in
    order: exactly the sessions with a matching subscription whose effective
    QoS (the best over the subscriptions of the smaller of the two QoS) is
    above 0 get one; the result counts the messages that were queued. *)
Theorem offline_delivery_spec {Q} (Queue : string → InflightMessage → Q → Q * option (N * bool)) SharedSelected
    owned topic payload pq q :
  let sel := default (selectSharedSessions owned topic) SharedSelected in
  ∃ l, Deliver Queue SharedSelected owned topic payload pq q = enqueue_all Queue l q ∧
    l.*1 `sublist_of` (sessClientID <$> owned) ∧
    ∀ c m, (c, m) ∈ l ↔ ∃ s, s ∈ owned ∧ c = sessClientID s ∧ msgTopic m = topic ∧ msgPayload m = payload ∧
      (0 < msgQoS m)%N ∧
      (∀ sub, sub ∈ sessSubscriptions s → sub_matches c topic sel sub → (N.min pq (subQoS sub) <= msgQoS m)%N) ∧
      (∃ sub, sub ∈ sessSubscriptions s ∧ sub_matches c topic sel sub ∧ msgQoS m = N.min pq (subQoS sub)).
Proof.
  intros sel. exists (deliveries topic payload pq sel owned). split_and!; [apply Deliver_enqueue| |].
  - unfold deliveries. clearbody sel. induction owned as [|s l IH]; simpl; [constructor|].
    destruct (delivery_of topic payload pq sel s) as [[c m]|] eqn:E; simpl; [|by constructor].
    apply delivery_of_spec in E as [-> _]. by constructor.
  - intros c m. unfold deliveries. rewrite list_elem_of_omap. by setoid_rewrite delivery_of_spec.
Qed.

(** One session of a shared group: among the owned sessions that hold a
    matching shared filter, exactly the one with the smallest client ID
    receives through that filter. *)
Theorem shared_filter_delivered_once owned topic s0 sub0 g u :
  s0 ∈ owned → sub0 ∈ sessSubscriptions s0 → SharedFilter (subFilter sub0) = Some (g, u) → MatchTopic u topic = true →
  ∃ c, shared_candidate owned topic (subFilter sub0) c ∧ ltb (sessClientID s0) c = false ∧
    ∀ s sub, s ∈ owned → sub ∈ sessSubscriptions s → subFilter sub = subFilter sub0 →
      sub_matches (sessClientID s) topic (selectSharedSessions owned topic) sub ↔ sessClientID s = c.
Proof.
  intros Hs Hsub HS Hm. pose proof (selectSharedSessions_spec owned topic (subFilter sub0)) as H.
  assert (shared_candidate owned topic (subFilter sub0) (sessClientID s0)) as Hc by (exists s0, sub0, g, u; auto 10).
  destruct (selectSharedSessions owned topic !! subFilter sub0) as [c|] eqn:E; [|by destruct (H _ Hc)].
  destruct H as [H1 H2]. exists c. split_and!; [done|by apply H2|]. intros s sub Hs' Hsub' Ef.
  unfold sub_matches. rewrite Ef, HS, E. simpl. naive_solver.
Qed.

Definition witness_shared_sessions : list OfflineSession :=
  [mkOfflineSession "dev2" [mkOfflineSubscription "$share/g/a/+" 1] None;
   mkOfflineSession "dev1" [mkOfflineSubscription "$share/g/a/+" 2] None].

Lemma shared_filter_delivered_once_witness :
  ∃ c, shared_candidate witness_shared_sessions "a/b" "$share/g/a/+" c ∧ ltb "dev2" c = false.
Proof.
  destruct (shared_filter_delivered_once witness_shared_sessions "a/b"
    (mkOfflineSession "dev2" [mkOfflineSubscription "$share/g/a/+" 1] None) (mkOfflineSubscription "$share/g/a/+" 1) "g" "a/+"
    ltac:(by left) ltac:(by left) eq_refl eq_refl) as (c & H1 & H2 & _).
  exists c. split; [exact H1|exact H2].
Defined.

(** C27: handing a session over leaves no gap. While a placement runs over the
    routing store, and whatever the cache of the node answered, whichever of the
    calls fail and whatever other nodes write meanwhile (short of removing the
    new owner's entry or leaving the filter without owner themselves), every
    state of the store that it passes through has an owner if the first had one;
    when it reports success the new owner is registered in the store. The caches
    of the nodes follow the store afterwards. *)
Theorem place_never_leaves_a_gap {S} `{!ClusterStore S} `{!ClusterStoreLaws S} c f new (s0 s : S) p :
  rtc (place_step c f new) (Place c f new, s0) (p, s) →
  (owned c f s0 → owned c f s) ∧ (p = Done true → owns c f new s).
Proof.
  intros Hr. assert (place_inv c f new s0 (p, s)) as [H1 (placed & H2 & H3)].
  { refine (rtc_ind_r (place_inv c f new s0) _ _ _ _ Hr); [|intros st st' _ Hs Hi; by eapply place_step_inv].
    split; [done|]. exists False. split; [done|]. apply Place_keeps. }
  split; [done|]. intros ->. by apply H2, H3.
Qed.

Definition witness_owned_store : memStore := mkMemStore {[routeKey (OwnershipKey "dev1" "a/+") "edge-1"]} [] true.

(** The handover to edge-2 runs to its end. *)
Lemma witness_handover : ∃ s, rtc (place_step "dev1" "a/+" "edge-2") (Place "dev1" "a/+" "edge-2", witness_owned_store) (Done true, s).
Proof.
  eexists. eapply rtc_l; [apply place_call; exists ["edge-1"]; by split|].
  eapply rtc_l; [apply place_call; exists true; by split|]. eapply rtc_l; [apply place_call; exists true; by split|].
  eapply rtc_l; [apply place_call; exists true; by split|]. apply rtc_refl.
Qed.

Lemma place_never_leaves_a_gap_witness :
  ∃ s, rtc (place_step "dev1" "a/+" "edge-2") (Place "dev1" "a/+" "edge-2", witness_owned_store) (Done true, s) ∧
    owned "dev1" "a/+" s ∧ owns "dev1" "a/+" "edge-2" s.
Proof.
  destruct witness_handover as [s Hr]. exists s. split; [exact Hr|].
  destruct (place_never_leaves_a_gap _ _ _ _ _ _ Hr) as [H1 H2]. split; [apply H1|by apply H2].
  exists "edge-1". change (routeKey (OwnershipKey "dev1" "a/+") "edge-1" ∈ mem_keys witness_owned_store). simpl. set_solver.
Defined.

(** One pass of the placement loop, over a store that answers and with a cache
    that stays as it is: each inventoried (client, filter) ends at [Owner] of the
    client over the live edges, in the store or, where the loop skipped it, by
    what the cache says; the owners of all other pairs are unchanged. *)
Theorem reconcile_places_every_session {S} `{!ClusterStore S} `{!ClusterStoreLaws S} (up : S → Prop) nodesFor
    liveEdges sessions (s : S) :
  (∀ t n s, up s → ∃ s', Router_Subscribe t n s = (s', true) ∧ up s') →
  (∀ t n s, up s → ∃ s', Router_Unsubscribe t n s = (s', true) ∧ up s') →
  (∀ t, Forall (λ n, contains_byte zero n = false) (nodesFor t)) →
  Forall (λ n, contains_byte zero n = false) liveEdges → liveEdges ≠ [] →
  Forall (λ sess, contains_byte zero (sessClientID sess) = false) sessions → up s →
  let s' := (exec nodesFor (ReconcileOnce liveEdges (Some sessions)) s).2 in
  (∀ c f, (c, f) ∈ placements sessions → ∃ n, Owner c liveEdges = Some n ∧
     (head (nodesFor (OwnershipKey c f)) = Some n ∨ owns c f n s')) ∧
  (∀ c f n, contains_byte zero c = false → contains_byte zero n = false → (c, f) ∉ placements sessions →
     owns c f n s' ↔ owns c f n s).
Proof.
  intros Hsub Hunsub Hn He Hl HF Hs s'.
  destruct (reconcile_sessions_pass up nodesFor Hsub Hunsub Hn liveEdges He s sessions [] 0 s Hl HF ltac:(done)) as (d & H1 & _ & H2 & H3).
  { split; [done|]. split; [intros c f []%not_elem_of_nil|done]. }
  assert (∀ x, x ∈ d ↔ x ∈ placements sessions) as Hd by (intros x; rewrite H1, elem_of_nil; tauto).
  setoid_rewrite Hd in H2. setoid_rewrite Hd in H3. subst s'. unfold ReconcileOnce. by destruct liveEdges.
Qed.

Lemma reconcile_places_every_session_witness :
  let s' := (exec (λ _, ["edge-9"]) (ReconcileOnce ["edge-1"; "edge-2"]
    (Some [mkOfflineSession "dev1" [mkOfflineSubscription "a/+" 1] None])) witness_owned_store).2 in
  ∃ n, Owner "dev1" ["edge-1"; "edge-2"] = Some n ∧ (Some "edge-9" = Some n ∨ owns "dev1" "a/+" n s').
Proof.
  refine (proj1 (reconcile_places_every_session (λ s, mem_up s = true) (λ _, ["edge-9"]) ["edge-1"; "edge-2"]
    [mkOfflineSession "dev1" [mkOfflineSubscription "a/+" 1] None] witness_owned_store _ _ _ _ _ _ _) "dev1" "a/+" _).
  - intros t n [ks evs u]. simpl. intros ->. eexists. split; reflexivity.
  - intros t n [ks evs u]. simpl. intros ->. eexists. split; reflexivity.
  - intros t. by repeat constructor.
  - by repeat constructor.
  - done.
  - by repeat constructor.
  - reflexivity.
  - by left.
Defined.

(** One pass of the routing reconciler repairs the routing table: with a
    cache that mirrors the store and a store that stays up, the store ends
    with its former entries and one for this node and every filter a local
    client holds. *)
Theorem reconciler_reasserts_local_filters {S} `{!ClusterStore S} `{!ClusterStoreLaws S} (up : S → Prop)
    nodeID clients (s : S) r :
  (∀ t s, up s → ∃ s', Router_Subscribe t nodeID s = (s', true) ∧ up s') → up s → converged s r →
  (∀ t, t ∈ LocalSubscriptions clients → regular t nodeID) →
  ∀ t n, store_table (reconcileOnce (λ n _, TopicsForNode n r) Router_Subscribe nodeID clients s) t n ↔
    store_table s t n ∨ (n = nodeID ∧ ∃ fs, fs ∈ clients ∧ t ∈ fs).
Proof.
  intros Hup Hs Hr Hreg t n. rewrite <-LocalSubscriptions_elem. unfold reconcileOnce.
  destruct (LocalSubscriptions clients) as [|t0 l] eqn:E.
  { split; [by left|]. intros [?|[_ []%not_elem_of_nil]]. done. }
  rewrite <-E in *. rewrite (reassert_fold up); [|done|done|].
  - rewrite list_elem_of_In, filter_In, <-list_elem_of_In, negb_true_iff, bool_decide_eq_false, elem_of_list_to_set.
    rewrite (TopicsForNode_spec s) by done. destruct (decide (n = nodeID)) as [->|]; [|tauto].
    destruct (decide (t ∈ TopicsForNode nodeID r)) as [Hk|Hk]; rewrite (TopicsForNode_spec s) in Hk by done; tauto.
  - intros t' [? _]%list_elem_of_In%filter_In. by apply Hreg, list_elem_of_In.
Qed.

Lemma reconciler_reasserts_local_filters_witness :
  store_table (reconcileOnce (λ n _, TopicsForNode n emptyRouter) Router_Subscribe "core-1" [{["a/+"]}] witness_store)
    "a/+" "core-1".
Proof.
  apply (reconciler_reasserts_local_filters (λ s, mem_up s = true) "core-1" [{["a/+"]}] witness_store emptyRouter).
  - intros t [keys evs up]. simpl. intros ->. eexists. split; reflexivity.
  - reflexivity.
  - exact witness_converged.
  - intros t (fs & ->%list_elem_of_singleton & ->%elem_of_singleton)%LocalSubscriptions_elem. exact regular_plain.
  - right. split; [reflexivity|]. exists {["a/+"]}. split; [by left|by apply elem_of_singleton].
Defined.
