(* ===== verification/Auth.v ===== *)
(** Device authentication: internal/auth.

    Credentials (auth.go, provider.go, file_provider.go, credential_cache.go),
    token and certificate checks (crypto.go), key and CA caches (jwks_cache.go,
    device_ca_cache.go) and the tenant settings (tenant_config.go).

    A UUID is its canonical text. Code outside the repository is an argument:
    uuid.Parse, bcrypt, the JWT parser, X.509 chain verification, SHA-256, the
    credential file, the key endpoints and the database. [now] is the clock
    reading of an operation. *)

From S2P Require Import Prelude GoStrings Base64.

(** ** Identities (auth.go, crypto.go) *)

Record DeviceInfo := mkDeviceInfo {
  ID : string;
  TenantID : string;
  TenantSlug : string;
  FleetID : option string;
  FleetIDStr : string;
  Identity : string;
}.

Definition RedpandaTopic (d : DeviceInfo) (category typ : string) : string :=
  "keel." +:+ TenantSlug d +:+ "." +:+ FleetIDStr d +:+ "." +:+ ID d +:+ "." +:+ category +:+ "." +:+ typ.

(** uuid.Nil *)
Definition uuid_Nil : string := "00000000-0000-0000-0000-000000000000".

Inductive AuthMethod := AuthMethodPassword | AuthMethodJWT | AuthMethodCertificate | authMethodTestConsumer.

Definition DetectAuthMethod (password : string) : AuthMethod :=
  if (4 <? String.length password)%nat && String.eqb (take_bytes 3 password) "eyJ" then AuthMethodJWT
  else AuthMethodPassword.

Definition ParseClientIdentifier (clientID : string) : option (string * string) :=
  match splitN "/" clientID 4 with
  | [p0; tenantID; p2; deviceID] =>
      if negb (String.eqb p0 "tenants") || negb (String.eqb p2 "devices") then None
      else if String.eqb tenantID "" || String.eqb deviceID "" then None
      else Some (tenantID, deviceID)
  | _ => None
  end.

(** The settings of a tenant (tenant_config.go); a nil CA list is [None]. *)
Record TenantGatewayConfig := mkTenantConfig {
  PasswordAuthEnabled : bool;
  JWTAuthEnabled : bool;
  CertAuthEnabled : bool;
  JWTPublicKeyPEM : string;
  JWKSURL : string;
  cfgTrustedCAPEMs : option (list string);
  ClavexCAURL : string;
  ClavexAgentToken : string;
  AutoProvisioning : bool;
  MaxConnections : Z;
  MaxBytesPerDay : Z;
  cfgTracingEnabled : bool;
}.

(** The configuration of a tenant without a row. *)
Definition defaultTenantConfig : TenantGatewayConfig :=
  mkTenantConfig true false false "" "" None "" "" false 0 0 false.

(** ** Tenant settings cache (tenant_config.go) *)

Record cachedEntry := mkCachedEntry { entryCfg : TenantGatewayConfig; entryExpiresAt : Z }.

Abbreviation TenantConfigCache := (gmap string cachedEntry).

(** The answer of the database: an error, no row, or a row. *)
Inductive dbAnswer := dbError | dbNoRows | dbRow (cfg : TenantGatewayConfig).

Definition tenant_load (answer : dbAnswer) : option TenantGatewayConfig :=
  match answer with
  | dbError => None
  | dbNoRows => Some defaultTenantConfig
  | dbRow cfg => Some cfg
  end.

Definition tenant_Get (db : string → dbAnswer) (ttl now : Z) (tenantID : string) (c : TenantConfigCache) :
    TenantConfigCache * option TenantGatewayConfig :=
  let reload :=
    match tenant_load (db tenantID) with
    | None => (c, None)
    | Some cfg => (<[tenantID := mkCachedEntry cfg (now + ttl)]> c, Some cfg)
    end in
  match c !! tenantID with
  | Some entry => if (now <? entryExpiresAt entry)%Z then (c, Some (entryCfg entry)) else reload
  | None => reload
  end.

Definition tenant_Invalidate (tenantID : string) (c : TenantConfigCache) : TenantConfigCache := delete tenantID c.

Definition tenant_TracingEnabled (tenantID : string) (c : TenantConfigCache) : bool :=
  match c !! tenantID with
  | None => false
  | Some entry => cfgTracingEnabled (entryCfg entry)
  end.

(** ** Key sets (jwks_cache.go) *)

Inductive curve := P256 | P384 | P521.

Inductive PublicKey := RSAPublicKey (n : N) (e : Z) | ECDSAPublicKey (c : curve) (x y : N) | OtherKey.

(** big.Int.SetBytes: big-endian. *)
Fixpoint setBytes (acc : N) (s : string) : N :=
  match s with
  | EmptyString => acc
  | String c t => setBytes (acc * 256 + N_of_ascii c) t
  end.

(** int(x.Int64()): the low 64 bits, signed. *)
Definition int64_of (n : N) : Z :=
  let low := (Z.of_N n mod 2 ^ 64)%Z in
  if (low <? 2 ^ 63)%Z then low else (low - 2 ^ 64)%Z.

Record jwk := mkJwk {
  jwkKty : string; jwkKid : string; jwkN : string; jwkE : string; jwkCrv : string; jwkX : string; jwkY : string;
}.

Definition ecCurve (crv : string) : option curve :=
  if String.eqb crv "P-256" then Some P256
  else if String.eqb crv "P-384" then Some P384
  else if String.eqb crv "P-521" then Some P521
  else None.

Definition jwk_publicKey (k : jwk) : option PublicKey :=
  if String.eqb (jwkKty k) "RSA" then
    nb ← DecodeString (jwkN k); eb ← DecodeString (jwkE k);
    Some (RSAPublicKey (setBytes 0 nb) (int64_of (setBytes 0 eb)))
  else if String.eqb (jwkKty k) "EC" then
    c ← ecCurve (jwkCrv k); xb ← DecodeString (jwkX k); yb ← DecodeString (jwkY k);
    Some (ECDSAPublicKey c (setBytes 0 xb) (setBytes 0 yb))
  else None.

(** [fetch]: [endpoint] is the decoded document, [None] on any error. *)
Definition jwks_fetch (endpoint : string → option (list jwk)) (jwksURL : string) : option (gmap string PublicKey) :=
  match endpoint jwksURL with
  | None => None
  | Some set =>
      Some (fold_left (λ keys k,
        if String.eqb (jwkKid k) "" then keys
        else match jwk_publicKey k with
             | None => keys
             | Some pub => <[jwkKid k := pub]> keys
             end) set ∅)
  end.

Record jwksEntry := mkJwksEntry { jwksKeys : option (gmap string PublicKey); jwksExpiresAt : Z }.

Abbreviation JWKSCache := (gmap string jwksEntry).

Definition jwks_fresh (now : Z) (e : jwksEntry) : bool :=
  negb (jwksExpiresAt e =? 0)%Z && (now <? jwksExpiresAt e)%Z.

Definition lookupKey (e : jwksEntry) (kid : string) : option PublicKey := m ← jwksKeys e; m !! kid.

Definition jwks_Key (endpoint : string → option (list jwk)) (ttl now : Z) (tenantID jwksURL kid : string)
    (c : JWKSCache) : JWKSCache * option PublicKey :=
  let e := default (mkJwksEntry None 0) (c !! tenantID) in
  let c := <[tenantID := e]> c in
  let refresh :=
    match jwks_fetch endpoint jwksURL with
    | None => (c, lookupKey e kid)
    | Some keys => (<[tenantID := mkJwksEntry (Some keys) (now + ttl)]> c, keys !! kid)
    end in
  match lookupKey e kid with
  | Some k => if jwks_fresh now e then (c, Some k) else refresh
  | None => refresh
  end.

(** ** Device CAs (device_ca_cache.go) *)

Record deviceCAEntry := mkDeviceCAEntry { caPEMs : option (list string); caExpiresAt : Z }.

Abbreviation DeviceCACache := (gmap string deviceCAEntry).

(** [fetch]: the custodian's answer is an error, or the optional PEM field. *)
Definition ca_fetch (answer : option (option string)) : option (list string) :=
  match answer with
  | None | Some None => None
  | Some (Some pem) => if String.eqb pem "" then None else Some [pem]
  end.

Definition ca_fresh (now : Z) (e : deviceCAEntry) : bool :=
  negb (caExpiresAt e =? 0)%Z && (now <? caExpiresAt e)%Z.

Definition TrustedCAPEMs (custodian : string → string → option (option string)) (ttl now : Z)
    (tenantID caURL token : string) (c : DeviceCACache) : DeviceCACache * option (list string) :=
  let e := default (mkDeviceCAEntry None 0) (c !! tenantID) in
  let c := <[tenantID := e]> c in
  let refresh :=
    match ca_fetch (custodian caURL token) with
    | None => (c, caPEMs e)
    | Some pems => (<[tenantID := mkDeviceCAEntry (Some pems) (now + ttl)]> c, Some pems)
    end in
  match caPEMs e with
  | Some pems => if ca_fresh now e then (c, Some pems) else refresh
  | None => refresh
  end.

(** ** Tokens (crypto.go) *)

Inductive authError :=
  | ErrAuthNotConfigured | ErrNoJWKSCache | ErrInvalidKid | ErrInvalidKey | ErrSigningMethod
  | ErrTokenInvalid | ErrClaims | ErrInvalidCredentials | ErrOther.

Inductive SigningMethod := SigningMethodRSA | SigningMethodECDSA | SigningMethodOther.

(** What the key function sees of a parsed token; a missing or non-string kid
    header is empty. *)
Record Token := mkToken { tokKid : string; tokMethod : SigningMethod }.

(** The claims read after parsing; missing ones are empty. *)
Record Claims := mkClaims { claimSub : string; claimTid : string }.

Definition checkSigningMethod (t : Token) (pubKey : PublicKey) : option authError :=
  match pubKey, tokMethod t with
  | RSAPublicKey _ _, SigningMethodRSA => None
  | ECDSAPublicKey _ _ _, SigningMethodECDSA => None
  | _, _ => Some ErrSigningMethod
  end.

(** A key function, with the key-set cache as its state. *)
Definition Keyfunc := Token → JWKSCache → JWKSCache * (authError + PublicKey).

Section Tokens.
  (** x509.ParsePKIXPublicKey of the first PEM block. *)
  Context (parsePKIX : string → option PublicKey).
  (** jwt.ParseWithClaims with the audience "keel-gateway", issued-at checked
      and expiry required: [None] on error, else the Valid flag and claims. *)
  Context (ParseWithClaims : Z → string → Keyfunc → JWKSCache → JWKSCache * option (bool * Claims)).
  Context (endpoint : string → option (list jwk)) (jwksTTL : Z).

Definition parsePublicKeyPEM (pem : string) : option PublicKey :=
  match parsePKIX pem with
  | Some (RSAPublicKey n e) => Some (RSAPublicKey n e)
  | Some (ECDSAPublicKey c x y) => Some (ECDSAPublicKey c x y)
  | _ => None
  end.

(** [jwks] tells whether a cache was provided. *)
Definition jwtKeyFunc (now : Z) (tenantID : string) (cfg : TenantGatewayConfig) (jwks : bool) : authError + Keyfunc :=
  if negb (String.eqb (JWKSURL cfg) "") then
    if negb jwks then inl ErrNoJWKSCache
    else inr (λ t c,
      if String.eqb (tokKid t) "" then (c, inl ErrInvalidKid)
      else match jwks_Key endpoint jwksTTL now tenantID (JWKSURL cfg) (tokKid t) c with
           | (c, None) => (c, inl ErrInvalidKid)
           | (c, Some key) =>
               match checkSigningMethod t key with
               | Some err => (c, inl err)
               | None => (c, inr key)
               end
           end)
  else if negb (String.eqb (JWTPublicKeyPEM cfg) "") then
    match parsePublicKeyPEM (JWTPublicKeyPEM cfg) with
    | None => inl ErrInvalidKey
    | Some pubKey => inr (λ t c,
        match checkSigningMethod t pubKey with
        | Some err => (c, inl err)
        | None => (c, inr pubKey)
        end)
    end
  else inl ErrAuthNotConfigured.

Definition validateJWTClaims (now : Z) (token : string) (keyFunc : Keyfunc) (tenantID deviceID : string)
    (requireSub : bool) (c : JWKSCache) : JWKSCache * option authError :=
  match ParseWithClaims now token keyFunc c with
  | (c, None) => (c, Some ErrTokenInvalid)
  | (c, Some (valid, claims)) =>
      if negb valid then (c, Some ErrTokenInvalid)
      else
        let sub := claimSub claims in
        if requireSub : bool then
          if negb (String.eqb sub deviceID) then (c, Some ErrClaims)
          else if negb (String.eqb (claimTid claims) "") && negb (String.eqb (claimTid claims) tenantID)
          then (c, Some ErrClaims) else (c, None)
        else if negb (String.eqb sub "") && negb (String.eqb sub deviceID) then (c, Some ErrClaims)
        else if negb (String.eqb (claimTid claims) "") && negb (String.eqb (claimTid claims) tenantID)
        then (c, Some ErrClaims) else (c, None)
  end.

Definition ValidateJWT (now : Z) (tenantID deviceID token : string) (cfg : TenantGatewayConfig) (jwks : bool)
    (c : JWKSCache) : JWKSCache * option authError :=
  match jwtKeyFunc now tenantID cfg jwks with
  | inl err => (c, Some err)
  | inr keyFunc => validateJWTClaims now token keyFunc tenantID deviceID true c
  end.

Definition ValidateJWTFromClientID (now : Z) (tenantID deviceID token : string) (cfg : TenantGatewayConfig)
    (jwks : bool) (c : JWKSCache) : JWKSCache * option authError :=
  match jwtKeyFunc now tenantID cfg jwks with
  | inl err => (c, Some err)
  | inr keyFunc => validateJWTClaims now token keyFunc tenantID deviceID false c
  end.
End Tokens.

(** ** Certificates (crypto.go) *)

Section Certificates.
  (** A certificate: its common name, and whether the chain verifies for
      client authentication against a list of parsed root PEMs. *)
  Context {Cert : Type} (CommonName : Cert → string) (pemOK : string → bool) (chainOK : Cert → list string → bool).

Definition VerifyCertificate (cert : Cert) (trustedCAPEMs : option (list string)) : option (string * string) :=
  match cut "@" (CommonName cert) with
  | None => None
  | Some (deviceID, tenantID) =>
      if String.eqb deviceID "" || String.eqb tenantID "" then None
      else match trustedCAPEMs with
           | None => Some (deviceID, tenantID)
           | Some [] => None
           | Some pems =>
               if negb (forallb pemOK pems) then None
               else if negb (chainOK cert pems) then None
               else Some (deviceID, tenantID)
           end
  end.
End Certificates.

Definition NewPendingDeviceInfo (uuidParse : string → option string) (deviceID tenantID : string) : DeviceInfo :=
  mkDeviceInfo (default uuid_Nil (uuidParse deviceID)) (default uuid_Nil (uuidParse tenantID)) "pending" None "nofleet" "".

(** ** Providers (provider.go) *)

(** AuthProvider: [None] is any error. *)
Class AuthProvider (P : Type) := {
  provider_ValidatePassword : string → string → P → P * option DeviceInfo;
  provider_LookupByCN : string → string → P → P * option DeviceInfo;
}.

(** ** File provider (file_provider.go, credential_cache.go) *)

Record fileCredential := mkFileCredential {
  credDeviceID : string;
  credUsername : string;
  credTenantID : string;
  credTenantSlug : string;
  credFleetID : string;
  credPasswordHash : string;
  credJWTPublicKeyPEM : string;
}.

Definition credentialKey (c : fileCredential) : string :=
  if negb (String.eqb (credUsername c) "") then credUsername c else credDeviceID c.

Record FileProvider := mkFileProvider {
  byKey : gmap string fileCredential;
  credCache : gmap string Z;
}.

Definition newFileProvider : FileProvider := mkFileProvider ∅ ∅.

(** hex.EncodeToString *)
Definition hexDigit (n : N) : ascii := byte_at (N.to_nat n) "0123456789abcdef".

Fixpoint hexEncode (s : string) : string :=
  match s with
  | EmptyString => ""
  | String c t => String (hexDigit (N_of_ascii c / 16)) (String (hexDigit (N_of_ascii c mod 16)) (hexEncode t))
  end.

Inductive bcryptResult := bcryptMatch | bcryptMismatch | bcryptError.

Section FileProvider.
  Context (uuidParse : string → option string).
  Context (bcryptCompare : string → string → bcryptResult).
  Context (Sum256 : string → string).
  (** The cache's TTL. *)
  Context (credTTL : Z).

Definition cacheKey (deviceID token : string) : string := deviceID +:+ ":" +:+ hexEncode (Sum256 token).

Definition cache_check (now : Z) (deviceID token : string) (f : FileProvider) : bool :=
  match credCache f !! cacheKey deviceID token with
  | None => false
  | Some ts => (now - ts <? credTTL)%Z
  end.

Definition cache_set (now : Z) (deviceID token : string) (f : FileProvider) : FileProvider :=
  mkFileProvider (byKey f) (<[cacheKey deviceID token := now]> (credCache f)).

Definition cache_invalidate (f : FileProvider) : FileProvider := mkFileProvider (byKey f) ∅.

(** The loop of [load]: [None] on a bad device_id or a duplicate key. *)
Fixpoint load_devices (devices : list fileCredential) (m : gmap string fileCredential) :
    option (gmap string fileCredential) :=
  match devices with
  | [] => Some m
  | c :: rest =>
      match uuidParse (credDeviceID c) with
      | None => None
      | Some _ =>
          match m !! credentialKey c with
          | Some _ => None
          | None => load_devices rest (<[credentialKey c := c]> m)
          end
      end
  end.

(** [file] is the parsed file, [None] when it cannot be read or parsed. *)
Definition file_load (file : option (list fileCredential)) (f : FileProvider) : FileProvider * bool :=
  match file with
  | None => (f, false)
  | Some devices =>
      match load_devices devices ∅ with
      | None => (f, false)
      | Some m => (cache_invalidate (mkFileProvider m (credCache f)), true)
      end
  end.

Definition toDeviceInfo (c : fileCredential) : option DeviceInfo :=
  devUUID ← uuidParse (credDeviceID c); tenUUID ← uuidParse (credTenantID c);
  let '(fleet, fleetStr) :=
    if negb (String.eqb (credFleetID c) "") then
      match uuidParse (credFleetID c) with
      | Some fid => (Some fid, fid)
      | None => (None, "nofleet")
      end
    else (None, "nofleet") in
  Some (mkDeviceInfo devUUID tenUUID (credTenantSlug c) fleet fleetStr "").

(** The lazy load at the start of both lookups; [None]: it failed. *)
Definition ensure_loaded (file : option (list fileCredential)) (f : FileProvider) : option FileProvider :=
  if (size (byKey f) =? 0)%nat then
    match file_load file f with (f, true) => Some f | (_, false) => None end
  else Some f.

Definition file_ValidatePassword (now : Z) (file : option (list fileCredential)) (username token : string)
    (f : FileProvider) : FileProvider * option DeviceInfo :=
  match ensure_loaded file f with
  | None => (f, None)
  | Some f =>
      if cache_check now username token f then
        match byKey f !! username with
        | None => (f, None)
        | Some cred => (f, toDeviceInfo cred)
        end
      else
        match byKey f !! username with
        | None => (f, None)
        | Some cred =>
            if String.eqb (credPasswordHash cred) "" then (f, None)
            else match bcryptCompare (credPasswordHash cred) token with
                 | bcryptMatch => (cache_set now username token f, toDeviceInfo cred)
                 | _ => (f, None)
                 end
        end
  end.

Definition file_LookupByCN (file : option (list fileCredential)) (deviceID tenantID : string) (f : FileProvider) :
    FileProvider * option DeviceInfo :=
  match ensure_loaded file f with
  | None => (f, None)
  | Some f =>
      match byKey f !! deviceID with
      | None => (f, None)
      | Some cred =>
          if negb (String.eqb (credTenantID cred) tenantID) then (f, None) else (f, toDeviceInfo cred)
      end
  end.

Definition file_AuthProvider (now : Z) (file : option (list fileCredential)) : AuthProvider FileProvider :=
  Build_AuthProvider _ (file_ValidatePassword now file) (file_LookupByCN file).
End FileProvider.

(** ** Specification *)

Section FileProviderSpec.
  Context (uuidParse : string → option string) (bcryptCompare : string → string → bcryptResult)
    (Sum256 : string → string) (credTTL : Z).

(** The operations of a file provider, at any time and with any file. *)
Inductive file_step : FileProvider → FileProvider → Prop :=
  | step_password now file u t f :
      file_step f (file_ValidatePassword uuidParse bcryptCompare Sum256 credTTL now file u t f).1
  | step_lookup file d t f : file_step f (file_LookupByCN uuidParse file d t f).1
  | step_load file f : file_step f (file_load uuidParse file f).1.

(** bcrypt accepts the token for the credential. *)
Definition accepts (cred : fileCredential) (token : string) : Prop :=
  credPasswordHash cred ≠ "" ∧ bcryptCompare (credPasswordHash cred) token = bcryptMatch.

(** Every cached entry stands for an accepted token of a current credential. *)
Definition cache_sound (f : FileProvider) : Prop :=
  ∀ k ts, credCache f !! k = Some ts →
    ∃ u t cred, k = cacheKey Sum256 u t ∧ byKey f !! u = Some cred ∧ accepts cred t.

(** ** Lemmas: file provider *)

Lemma hexDigit_not_colon : ∀ k : N, (k < 16)%N → hexDigit k ≠ ":"%char.
Proof.
  intros k Hk. assert (Forall (λ n, hexDigit (N.of_nat n) ≠ ":"%char) (seq 0 16)) as HF.
  { repeat constructor; by vm_compute. }
  rewrite Forall_forall in HF. specialize (HF (N.to_nat k)). rewrite N2Nat.id in HF. apply HF.
  apply elem_of_seq. lia.
Qed.

Lemma hexDigit_inj k l : (k < 16)%N → (l < 16)%N → hexDigit k = hexDigit l → k = l.
Proof.
  intros Hk Hl. assert (Forall (λ n, index_byte (hexDigit (N.of_nat n)) "0123456789abcdef" = Some (N.of_nat n)) (seq 0 16)) as HF.
  { repeat constructor; by vm_compute. }
  rewrite Forall_forall in HF. pose proof (HF (N.to_nat k)) as Ek. pose proof (HF (N.to_nat l)) as El.
  rewrite N2Nat.id in Ek, El. intros E. rewrite E, El in Ek; [|apply elem_of_seq; lia].
  specialize (Ek ltac:(apply elem_of_seq; lia)). congruence.
Qed.

Lemma nibbles c : (N_of_ascii c / 16 < 16)%N ∧ (N_of_ascii c mod 16 < 16)%N.
Proof.
  pose proof (N_of_ascii_lt c). split; [|by apply N.mod_lt]. apply N.Div0.div_lt_upper_bound. lia.
Qed.

Lemma hex_no_colon s : contains_byte ":" (hexEncode s) = false.
Proof.
  induction s as [|c s IH]; [done|]. destruct (nibbles c) as [H1 H2].
  apply hexDigit_not_colon in H1, H2. cbn [hexEncode contains_byte].
  apply Ascii.eqb_neq in H1, H2. rewrite H1, H2. done.
Qed.

Lemma hexEncode_inj s t : hexEncode s = hexEncode t → s = t.
Proof.
  revert t. induction s as [|c s IH]; intros [|d t]; try done. cbn [hexEncode].
  destruct (nibbles c), (nibbles d). intros [= H3 H4 H5]%(f_equal id).
  apply hexDigit_inj in H3; [|done|done]. apply hexDigit_inj in H4; [|done|done].
  rewrite (IH t H5). f_equal. apply N_of_ascii_inj.
  by rewrite (N.div_mod' (N_of_ascii c) 16), (N.div_mod' (N_of_ascii d) 16), H3, H4.
Qed.

Lemma cacheKey_inj u t u' t' :
  cacheKey Sum256 u t = cacheKey Sum256 u' t' → u = u' ∧ Sum256 t = Sum256 t'.
Proof.
  unfold cacheKey. intros E. apply (f_equal (cut_last ":")) in E.
  change (":" +:+ hexEncode (Sum256 t)) with (String ":" (hexEncode (Sum256 t))) in E.
  change (":" +:+ hexEncode (Sum256 t')) with (String ":" (hexEncode (Sum256 t'))) in E.
  rewrite !cut_last_app in E by apply hex_no_colon. injection E as -> E. split; [done|]. by apply hexEncode_inj.
Qed.

Lemma load_sound file f f' ok : cache_sound f → file_load uuidParse file f = (f', ok) → cache_sound f'.
Proof.
  intros Hs. unfold file_load. destruct file as [l|]; [|intros [= <- <-]; done].
  destruct (load_devices uuidParse l ∅); intros [= <- <-]; [|done].
  intros k ts. simpl. by rewrite lookup_empty.
Qed.

Lemma ensure_loaded_sound file f f' : cache_sound f → ensure_loaded uuidParse file f = Some f' → cache_sound f'.
Proof.
  intros Hs. unfold ensure_loaded. case_match; [|intros [= <-]; done].
  destruct (file_load uuidParse file f) as [f1 []] eqn:E; intros [= <-]. by eapply load_sound.
Qed.

Lemma file_step_sound f f' : cache_sound f → file_step f f' → cache_sound f'.
Proof.
  intros Hs Hstep. inversion Hstep as [now file u t f0|file d t f0|file f0]; subst.
  - unfold file_ValidatePassword. destruct (ensure_loaded uuidParse file f) as [f1|] eqn:E; [|done].
    pose proof (ensure_loaded_sound _ _ _ Hs E) as Hs1.
    destruct (cache_check _ _ _ _ _ f1); [by case_match|]. destruct (byKey f1 !! u) as [cred|] eqn:Ec; [|done].
    destruct (String.eqb_spec (credPasswordHash cred) ""); [done|].
    destruct (bcryptCompare _ t) eqn:Eb; [|done|done]. simpl. intros k ts. simpl. rewrite lookup_insert.
    destruct (decide _) as [<-|]; [|apply Hs1]. intros [= <-]. by exists u, t, cred.
  - unfold file_LookupByCN. destruct (ensure_loaded uuidParse file f) as [f1|] eqn:E; [|done].
    pose proof (ensure_loaded_sound _ _ _ Hs E). repeat case_match; done.
  - destruct (file_load uuidParse file f) as [f1 ok] eqn:E. by eapply load_sound.
Qed.

Lemma reachable_sound f : rtc file_step newFileProvider f → cache_sound f.
Proof.
  intros Hr. assert (cache_sound newFileProvider) as H0 by (intros k ts; simpl; by rewrite lookup_empty).
  revert H0. induction Hr as [|f f1 f2 Hs Hr IH]; [done|]. intros H. apply IH. by eapply file_step_sound.
Qed.

Lemma ensure_loaded_same file f f1 : ensure_loaded uuidParse file f = Some f1 →
  ∀ now u t, (file_ValidatePassword uuidParse bcryptCompare Sum256 credTTL now file u t f) =
    if cache_check Sum256 credTTL now u t f1 then
      (f1, byKey f1 !! u ≫= toDeviceInfo uuidParse)
    else match byKey f1 !! u with
      | None => (f1, None)
      | Some cred =>
          if String.eqb (credPasswordHash cred) "" then (f1, None)
          else match bcryptCompare (credPasswordHash cred) t with
               | bcryptMatch => (cache_set Sum256 now u t f1, toDeviceInfo uuidParse cred)
               | _ => (f1, None)
               end
      end.
Proof. intros E now u t. unfold file_ValidatePassword. rewrite E. by case_match; [case_match|]. Qed.
End FileProviderSpec.

(** A tenant settings cache used with a clock that does not go back; [db] is
    the database over time. *)
Inductive tenant_reach (db : Z → string → dbAnswer) (ttl : Z) : Z → TenantConfigCache → Prop :=
  | reach_new t : tenant_reach db ttl t ∅
  | reach_get t t' tid c : tenant_reach db ttl t c → (t <= t')%Z →
      tenant_reach db ttl t' (tenant_Get (db t') ttl t' tid c).1
  | reach_invalidate t tid c : tenant_reach db ttl t c → tenant_reach db ttl t (tenant_Invalidate tid c).

(** Every entry is what the database answered a TTL before it expires. *)
Lemma tenant_reach_entries db ttl t c :
  tenant_reach db ttl t c →
  ∀ tid e, c !! tid = Some e →
    (entryExpiresAt e - ttl <= t)%Z ∧ tenant_load (db (entryExpiresAt e - ttl)%Z tid) = Some (entryCfg e).
Proof.
  induction 1 as [t|t t' tid c Hr IH Ht|t tid c Hr IH]; intros tid' e.
  - by rewrite lookup_empty.
  - unfold tenant_Get.
    assert (c !! tid' = Some e → (entryExpiresAt e - ttl <= t')%Z ∧
      tenant_load (db (entryExpiresAt e - ttl)%Z tid') = Some (entryCfg e)) as Hold.
    { intros [? ?]%IH. split; [lia|done]. }
    assert ((match tenant_load (db t' tid) with None => (c, None) | Some cfg =>
      (<[tid := mkCachedEntry cfg (t' + ttl)]> c, Some cfg) end).1 !! tid' = Some e →
      (entryExpiresAt e - ttl <= t')%Z ∧ tenant_load (db (entryExpiresAt e - ttl)%Z tid') = Some (entryCfg e)) as Hnew.
    { destruct (tenant_load (db t' tid)) as [cfg|] eqn:El; simpl; [|done]. rewrite lookup_insert.
      destruct (decide (tid = tid')) as [<-|]; [|done]. intros [= <-]. simpl.
      replace (t' + ttl - ttl)%Z with t' by lia. split; [lia|done]. }
    destruct (c !! tid) as [e0|]; [|done]. by destruct (t' <? entryExpiresAt e0)%Z.
  - unfold tenant_Invalidate. intros [_ He]%lookup_delete_Some. by apply IH.
Qed.

(** The key a tenant's settings give for a token: from its key-set endpoint
    through the cache if it has one, else its static key. *)
Definition tenant_key (parsePKIX : string → option PublicKey) (endpoint : string → option (list jwk)) (ttl now : Z)
    (tenantID : string) (cfg : TenantGatewayConfig) (c : JWKSCache) (t : Token) (key : PublicKey) : Prop :=
  if String.eqb (JWKSURL cfg) "" then parsePKIX (JWTPublicKeyPEM cfg) = Some key
  else tokKid t ≠ "" ∧ (jwks_Key endpoint ttl now tenantID (JWKSURL cfg) (tokKid t) c).2 = Some key.

(** The algorithm of the token is one for keys of this type. *)
Definition method_fits (t : Token) (key : PublicKey) : Prop :=
  match key with
  | RSAPublicKey _ _ => tokMethod t = SigningMethodRSA
  | ECDSAPublicKey _ _ _ => tokMethod t = SigningMethodECDSA
  | OtherKey => False
  end.

Lemma jwtKeyFunc_key parsePKIX endpoint ttl now tenantID cfg jwks kf t c c' key :
  jwtKeyFunc parsePKIX endpoint ttl now tenantID cfg jwks = inr kf → kf t c = (c', inr key) →
  tenant_key parsePKIX endpoint ttl now tenantID cfg c t key ∧ method_fits t key.
Proof.
  unfold jwtKeyFunc, tenant_key. destruct (String.eqb_spec (JWKSURL cfg) "") as [Eu|Hu]; simpl.
  - destruct (String.eqb_spec (JWTPublicKeyPEM cfg) ""); simpl; [done|]. unfold parsePublicKeyPEM.
    destruct (parsePKIX (JWTPublicKeyPEM cfg)) as [k|]; [|done].
    destruct k; intros [= <-]; unfold checkSigningMethod; destruct (tokMethod t) eqn:Em; intros [= <- <-]; by rewrite ?Em.
  - destruct jwks; simpl; [|done]. intros [= <-].
    destruct (String.eqb_spec (tokKid t) ""); [done|].
    destruct (jwks_Key _ _ _ _ _ _ c) as [c1 [k|]]; [|done].
    destruct (checkSigningMethod t k) eqn:Ek; [done|]. intros [= <- <-]. split; [done|].
    unfold checkSigningMethod in Ek. unfold method_fits. destruct k, (tokMethod t); done.
Qed.

Lemma validateJWTClaims_ok P now token kf tenantID deviceID strict c c' :
  validateJWTClaims P now token kf tenantID deviceID strict c = (c', None) →
  ∃ claims, P now token kf c = (c', Some (true, claims)) ∧
    (claimSub claims = deviceID ∨ (strict = false ∧ claimSub claims = "")) ∧
    (claimTid claims = "" ∨ claimTid claims = tenantID).
Proof.
  unfold validateJWTClaims. destruct (P now token kf c) as [c1 [[valid claims]|]]; [|done].
  destruct valid; simpl; [|done].
  destruct (String.eqb_spec (claimSub claims) deviceID), (String.eqb_spec (claimSub claims) ""),
    (String.eqb_spec (claimTid claims) ""), (String.eqb_spec (claimTid claims) tenantID), strict;
    simpl; intros [= <-]; exists claims; auto.
Qed.

(** ** Claims *)

(** C32: the credential cache never admits a wrong password: whatever sequence of
    logins, lookups and file reloads went before, a login succeeds only for a
    credential in force whose bcrypt hash accepts the token, or one with the
    same SHA-256 digest; and a token bcrypt accepts is admitted with or without
    a cache entry. *)
Theorem file_password_sound uuidParse bcryptCompare Sum256 credTTL now file u t f :
  rtc (file_step uuidParse bcryptCompare Sum256 credTTL) newFileProvider f →
  (∀ f' info, file_ValidatePassword uuidParse bcryptCompare Sum256 credTTL now file u t f = (f', Some info) →
     ∃ cred t', byKey f' !! u = Some cred ∧ Sum256 t' = Sum256 t ∧ accepts bcryptCompare cred t' ∧
       toDeviceInfo uuidParse cred = Some info) ∧
  (∀ f1 cred, ensure_loaded uuidParse file f = Some f1 → byKey f1 !! u = Some cred → accepts bcryptCompare cred t →
     (file_ValidatePassword uuidParse bcryptCompare Sum256 credTTL now file u t f).2 = toDeviceInfo uuidParse cred).
Proof.
  intros Hr%reachable_sound. split.
  - intros f' info. destruct (ensure_loaded uuidParse file f) as [f1|] eqn:E;
      [|unfold file_ValidatePassword; by rewrite E].
    pose proof (ensure_loaded_sound _ _ _ _ _ _ Hr E) as Hs.
    rewrite (ensure_loaded_same _ _ _ _ _ _ _ E). unfold cache_check.
    destruct (credCache f1 !! cacheKey Sum256 u t) as [ts|] eqn:Ec; [destruct (_ <? _)%Z|].
    + intros [= -> Hi]. apply bind_Some in Hi as (cred & Hc & Hi).
      destruct (Hs _ _ Ec) as (u' & t' & cred' & Hk & Hc' & Ha). apply cacheKey_inj in Hk as [<- Hd].
      rewrite Hc in Hc'. injection Hc' as <-. eauto 10.
    + unfold accepts. intros H. repeat case_match; try done. breflect. injection H as <- Hi. eauto 10.
    + unfold accepts. intros H. repeat case_match; try done. breflect. injection H as <- Hi. eauto 10.
  - intros f1 cred E Hc [Hh Hb]. rewrite (ensure_loaded_same _ _ _ _ _ _ _ E), Hc.
    case_match; simpl; [done|]. apply String.eqb_neq in Hh. by rewrite Hh, Hb.
Qed.

Definition witness_credential : fileCredential := mkFileCredential "dev" "" "ten" "acme" "" "hash" "".

Definition witness_bcrypt (hash token : string) : bcryptResult :=
  if String.eqb hash "hash" && String.eqb token "secret" then bcryptMatch else bcryptMismatch.

Lemma file_password_sound_witness :
  (file_ValidatePassword Some witness_bcrypt (λ t, t) 30 5 (Some [witness_credential]) "dev" "secret" newFileProvider).2 =
  Some (mkDeviceInfo "dev" "ten" "acme" None "nofleet" "").
Proof.
  destruct (file_password_sound Some witness_bcrypt (λ t, t) 30 5 (Some [witness_credential]) "dev" "secret"
    newFileProvider ltac:(apply rtc_refl)) as [_ H].
  refine (H (mkFileProvider {["dev" := witness_credential]} ∅) witness_credential _ _ _).
  - vm_compute. reflexivity.
  - vm_compute. reflexivity.
  - split; [discriminate|]. vm_compute. reflexivity.
Defined.

(** Tenant settings are never staler than the TTL: on a cache used with a
    clock that does not go back, a lookup that succeeds returns what the
    database answered for the tenant now or less than a TTL ago, and a lookup
    fails only when the database fails now. *)
Theorem tenant_settings_staleness db ttl t now tid c :
  tenant_reach db ttl t c → (t <= now)%Z →
  match (tenant_Get (db now) ttl now tid c).2 with
  | Some cfg => ∃ t0, (t0 <= now)%Z ∧ (t0 = now ∨ now < t0 + ttl)%Z ∧ tenant_load (db t0 tid) = Some cfg
  | None => db now tid = dbError
  end.
Proof.
  intros Hr Ht. unfold tenant_Get. pose proof (tenant_reach_entries _ _ _ _ Hr tid) as He.
  assert (match (match tenant_load (db now tid) with None => (c, None) | Some cfg =>
      (<[tid := mkCachedEntry cfg (now + ttl)]> c, Some cfg) end).2 with
    | Some cfg => ∃ t0, (t0 <= now)%Z ∧ (t0 = now ∨ now < t0 + ttl)%Z ∧ tenant_load (db t0 tid) = Some cfg
    | None => db now tid = dbError end) as Hload.
  { destruct (tenant_load (db now tid)) as [cfg|] eqn:El; simpl; [exists now; split_and!; [lia|auto|done]|].
    by destruct (db now tid). }
  destruct (c !! tid) as [e|]; [|done]. destruct (Z.ltb_spec now (entryExpiresAt e)) as [Hlt|]; [|done].
  destruct (He e eq_refl) as [H1 H2]. exists (entryExpiresAt e - ttl)%Z. split_and!; [lia|right; lia|done].
Qed.

Lemma tenant_settings_staleness_witness :
  match (tenant_Get (λ _, dbNoRows) 300 10 "acme" (tenant_Get (λ _, dbNoRows) 300 0 "acme" ∅).1).2 with
  | Some cfg => ∃ t0, (t0 <= 10)%Z ∧ (t0 = 10 ∨ 10 < t0 + 300)%Z ∧ tenant_load dbNoRows = Some cfg
  | None => dbNoRows = dbError
  end.
Proof.
  apply (tenant_settings_staleness (λ _ _, dbNoRows) 300 0 10 "acme" (tenant_Get (λ _, dbNoRows) 300 0 "acme" ∅).1).
  - apply (reach_get (λ _ _, dbNoRows) 300 0 0 "acme" ∅); [constructor|lia].
  - lia.
Defined.

(** A device token is accepted only under a key of its tenant: if the JWT
    library reports success only for a token signed by the key the key function
    returned, an accepted token is signed by the tenant's key (its key-set
    endpoint if configured, else the static key), with an algorithm for that
    key type, and names this device and, if any, this tenant; only in client-ID
    mode may the subject be missing. *)
Theorem jwt_accepted_only_under_tenant_key parsePKIX ParseWithClaims endpoint ttl
    (SignedBy : PublicKey → string → Token → Claims → Prop) now tenantID deviceID token cfg jwks (c c' : JWKSCache)
    (strict : bool) :
  (∀ now tok kf (c c' : JWKSCache) v claims, ParseWithClaims now tok kf c = (c', Some (v, claims)) →
     ∃ t key, kf t c = (c', inr key) ∧ SignedBy key tok t claims) →
  (if strict then ValidateJWT parsePKIX ParseWithClaims endpoint ttl now tenantID deviceID token cfg jwks c
   else ValidateJWTFromClientID parsePKIX ParseWithClaims endpoint ttl now tenantID deviceID token cfg jwks c)
    = (c', None) →
  ∃ t key claims, tenant_key parsePKIX endpoint ttl now tenantID cfg c t key ∧ method_fits t key ∧
    SignedBy key token t claims ∧
    (claimSub claims = deviceID ∨ (strict = false ∧ claimSub claims = "")) ∧
    (claimTid claims = "" ∨ claimTid claims = tenantID).
Proof.
  intros Hlib H. unfold ValidateJWT, ValidateJWTFromClientID in H.
  destruct (jwtKeyFunc parsePKIX endpoint ttl now tenantID cfg jwks) as [err|kf] eqn:Ek; [by destruct strict|].
  assert (validateJWTClaims ParseWithClaims now token kf tenantID deviceID strict c = (c', None)) as Hv
    by (by destruct strict).
  apply validateJWTClaims_ok in Hv as (claims & Hp & Hsub & Htid).
  destruct (Hlib _ _ _ _ _ _ _ Hp) as (t & key & Hkf & Hsig).
  destruct (jwtKeyFunc_key _ _ _ _ _ _ _ _ _ _ _ _ Ek Hkf). exists t, key, claims. auto.
Qed.

(** A parser that accepts one token, and tenant settings with a static key. *)
Definition witness_parser (now : Z) (tok : string) (kf : Keyfunc) (c : JWKSCache) : JWKSCache * option (bool * Claims) :=
  match kf (mkToken "" SigningMethodRSA) c with
  | (c, inr _) => if String.eqb tok "eyJ.dev" then (c, Some (true, mkClaims "dev" "")) else (c, None)
  | (c, inl _) => (c, None)
  end.

Definition witness_jwt_config : TenantGatewayConfig :=
  mkTenantConfig false true false "pem" "" None "" "" false 0 0 false.

Lemma jwt_accepted_only_under_tenant_key_witness :
  ∃ t key, tenant_key (λ _, Some (RSAPublicKey 5 3)) (λ _, None) 300 0 "ten" witness_jwt_config ∅ t key ∧
    method_fits t key.
Proof.
  destruct (jwt_accepted_only_under_tenant_key (λ _, Some (RSAPublicKey 5 3)) witness_parser (λ _, None) 300
    (λ _ tok _ _, tok = "eyJ.dev") 0 "ten" "dev" "eyJ.dev" witness_jwt_config false ∅ ∅ true)
    as (t & key & claims & Hk & Hm & _).
  - unfold witness_parser. intros now tok kf c c' v claims H.
    destruct (kf (mkToken "" SigningMethodRSA) c) as [c1 [|key]] eqn:E; [discriminate H|].
    destruct (String.eqb_spec tok "eyJ.dev"); [|discriminate H]. injection H as -> _ _.
    exists (mkToken "" SigningMethodRSA), key. split; [exact E|assumption].
  - vm_compute. reflexivity.
  - exists t, key. split; [exact Hk|exact Hm].
Defined.
