(* ===== verification/RedisSession.v ===== *)
(** The Redis session store: redis_session.go and offline_packet_id.go in
    internal/broker.

    Operations are programs ([prog] of Redis) that return an error or a value.
    [configured] is the hook's configuredIFMSchema, 0 for auto mode; the cached
    schema (ifmSchema) is read and written by requests of its own because other
    goroutines share it. Pipelines are their commands in order; counters, logs
    and timeouts are left out, a context that is done shows as a failed request. *)

From S2P Require Import Prelude GoStrings Acl Topics Base64 Decimal Codec Properties Packets Json Storage Redis Router Placement Session Auth.

(** ** Keys *)

Definition redisKeyPrefix : string := "keel:gw:".
Definition redisClientIndex : string := redisKeyPrefix +:+ "CLIENTS".
Definition redisMigrationLock : string := redisKeyPrefix +:+ "MIGRATE:V2".
Definition redisIFMSchemaKey : string := redisKeyPrefix +:+ "IFM:SCHEMA".
Definition redisIFMSchemaLegacy : Z := 1.
Definition redisIFMSchemaV2 : Z := 2.
Definition redisScanCount : nat := 256.
Definition legacyClientHash : string := redisKeyPrefix +:+ ClientKey.
Definition legacySubHash : string := redisKeyPrefix +:+ SubscriptionKey.
Definition legacyInflightHash : string := redisKeyPrefix +:+ InflightKey.
Definition legacyPacketIDPrefix : string := redisKeyPrefix +:+ "PKID:".
Definition redisLastSeenPrefix : string := redisKeyPrefix +:+ "LASTSEEN:".
Definition redisDedupKeyPrefix : string := redisKeyPrefix +:+ "PUBDEDUP:".

Definition redisClientToken (clientID : string) : string := EncodeToString clientID.
Definition redisClientKey (clientID : string) : string := redisKeyPrefix +:+ ClientKey +:+ ":" +:+ redisClientToken clientID.
Definition redisLastSeenKey (clientID : string) : string := redisLastSeenPrefix +:+ redisClientToken clientID.
Definition redisSubKey (clientID : string) : string := redisKeyPrefix +:+ SubscriptionKey +:+ ":" +:+ redisClientToken clientID.
Definition redisInflightKey (clientID : string) : string := redisKeyPrefix +:+ InflightKey +:+ ":" +:+ redisClientToken clientID.
Definition redisPacketIDKey (clientID : string) : string := redisKeyPrefix +:+ "PKID:" +:+ redisClientToken clientID.
Definition dedup_key (publishID clientID : string) : string :=
  redisDedupKeyPrefix +:+ publishID +:+ ":" +:+ redisClientToken clientID.

(** ** Errors *)

Inductive sessionError :=
  | ERedis (e : redisErr)
  | EInvalidMode (mode : string)
  | EInvalidMarker (raw : string)
  | ESchemaConflict (schema configured : Z)
  | EActivationMode
  | EMarkerAbsent
  | EActivateFrom (current : string)
  | EIFMSchemaChanged
  | EMarkerMismatch (configured : Z)
  | EChangedRepeatedly (clientID : string)
  | EUnmarshal (field : string)
  | EFieldDisagrees (field expected : string)
  | EMigrationTimeout
  | EPacketIDInUse (packetID : N)
  | EBadCounter
  | EAlreadyDelivered
  | EQuotaExceeded
  | ETxFailed
  | ECtxDone
  | EContention
  | EScanBound.

Abbreviation result A := (sum sessionError A).

(** if err != nil { return err } *)
Definition ebind {A B} (m : prog (result A)) (f : A → prog (result B)) : prog (result B) :=
  r ← m; match r with inl e => Ret (inl e) | inr a => f a end.
Notation "x ⇐ m ; k" := (ebind m (λ x, k)) (at level 20, m at level 100, k at level 200, format "x  ⇐  m ;  '/' k").
Notation "' x ⇐ m ; k" := (ebind m (λ x, k))
  (at level 20, x pattern, m at level 100, k at level 200, format "' x  ⇐  m ;  '/' k").

Definition ok {A} (a : A) : prog (result A) := Ret (inr a).
Definition error {A} (e : sessionError) : prog (result A) := Ret (inl e).
Definition lift {A} (r : redisResult A) : result A := match r with inl e => inl (ERedis e) | inr a => inr a end.
Definition redis {A} (c : cmd A) : prog (result A) := r ← ask (Do c); Ret (lift r).
Definition eval (p : lua Z) : prog (result Z) := r ← ask (Eval p); Ret (lift r).
Definition tx_pipeline (cs : list anycmd) : prog (result unit) := r ← ask (Multi cs); Ret (lift r).

(** Stop at the first error. *)
Fixpoint traverse {A B} (f : A → prog (result B)) (l : list A) : prog (result (list B)) :=
  match l with
  | [] => ok []
  | x :: l => y ⇐ f x; ys ⇐ traverse f l; ok (y :: ys)
  end.

(** ** The schema of the inflight hashes *)

Definition validateIFMSchema (configured schema : Z) : result Z :=
  if negb (configured =? 0)%Z && negb (schema =? configured)%Z then inl (ESchemaConflict schema configured) else inr schema.

Definition valid_schema (schema : Z) : bool := (schema =? redisIFMSchemaLegacy)%Z || (schema =? redisIFMSchemaV2)%Z.

Definition readIFMSchema (configured : Z) : prog (result Z) :=
  raw ⇐ redis (GET redisIFMSchemaKey);
  match raw with
  | None => Ret (validateIFMSchema configured redisIFMSchemaLegacy)
  | Some raw =>
      match Atoi raw with
      | Some schema => if valid_schema schema then Ret (validateIFMSchema configured schema) else error (EInvalidMarker raw)
      | None => error (EInvalidMarker raw)
      end
  end.

Definition schemaVersion : prog Z :=
  schema ← ask ReadHint;
  Ret (if (schema =? redisIFMSchemaV2)%Z then redisIFMSchemaV2 else redisIFMSchemaLegacy).

Definition setSchemaVersion (schema : Z) : prog unit := ask (WriteHint schema).

Definition refreshSchemaVersion (configured : Z) : prog (result Z) :=
  if negb (configured =? 0)%Z then ok configured
  else
    schema ⇐ readIFMSchema configured;
    _ ← setSchemaVersion schema;
    ok schema.

(** The new configuredIFMSchema with the outcome. *)
Definition ConfigureIFMSchema (configured : Z) (mode : string) : prog (Z * result unit) :=
  let select c :=
    r ← readIFMSchema c;
    match r with
    | inl e => Ret (c, inl e)
    | inr schema => _ ← setSchemaVersion schema; Ret (c, inr tt)
    end in
  if String.eqb mode "" || String.eqb mode "auto" then select 0%Z
  else if String.eqb mode "1" then select redisIFMSchemaLegacy
  else if String.eqb mode "2" then select redisIFMSchemaV2
  else Ret (configured, inl (EInvalidMode mode)).

Definition ActivateDirectionalSchema (configured : Z) : prog (result unit) :=
  if negb (configured =? 0)%Z then error EActivationMode
  else
    current ⇐ redis (GET redisIFMSchemaKey);
    match current with
    | None => error EMarkerAbsent
    | Some current =>
        if negb (String.eqb current (Itoa redisIFMSchemaLegacy)) then error (EActivateFrom current)
        else
          _ ⇐ redis (SET redisIFMSchemaKey (Itoa redisIFMSchemaV2) 0);
          _ ← setSchemaVersion redisIFMSchemaV2;
          ok tt
    end.

(** ** Fields *)

Definition pk_in (types : list N) (pk : Packet) : bool := existsb (N.eqb (pkType pk)) types.

Definition inflightFieldKey (pk : Packet) : string :=
  (if pk_in [Puback; Pubrec; Pubcomp] pk then "in:" else "out:") +:+ FormatID pk.

Definition isInboundInflightPacket (pk : Packet) : bool := pk_in [Puback; Pubrec; Pubrel; Pubcomp] pk.

Definition inflightCompletionFieldKey (pk : Packet) : string :=
  (if (pkType pk =? Pubrel)%N then "in:" else "out:") +:+ FormatID pk.

Definition inflightDroppedFieldKey (pk : Packet) : string :=
  (if isInboundInflightPacket pk then "in:" else "out:") +:+ FormatID pk.

Definition directional (field : string) : bool := has_prefix "in:" field || has_prefix "out:" field.

(** ** Scripts *)

Definition migrateLegacyInflightFieldScript (key field target : string) : lua Z :=
  LCall (HGET key field) (λ value,
  match value with
  | None => LRet 0%Z
  | Some value =>
      LCall (HEXISTS key target) (λ exists_,
      if exists_ : bool then LCall (HDEL key [field]) (λ _, LRet 1%Z)
      else LCall (HSET key target value) (λ _, LCall (HDEL key [field]) (λ _, LRet 1%Z)))
  end).

(** The test every fenced script starts with. *)
Definition fence {A} (schema : string) (reject accept : lua A) : lua A :=
  LCall (GET redisIFMSchemaKey) (λ marker, if String.eqb (default "1" marker) schema then accept else reject).

Definition schemaFencedHSetScript (hash schema field value : string) : lua Z :=
  fence schema (LRet 0%Z) (LCall (HSET hash field value) (λ _, LRet 1%Z)).

Definition schemaFencedHSetNXScript (hash schema field value : string) : lua Z :=
  fence schema (LRet (-1)%Z) (LCall (HSETNX hash field value) (λ n : bool, LRet (if n then 1 else 0)%Z)).

Definition schemaFencedHDelScript (hash schema : string) (fields : list string) : lua Z :=
  fence schema (LRet 0%Z) (LCall (HDEL hash fields) (λ _, LRet 1%Z)).

(** [n] offsets are left of the 65535. Lua counts in doubles, which are exact up to
    2^53; the counter grows by at most 65535 for a message. *)
Fixpoint next_counter_loop (key prefix : string) (counter offset : Z) (n : nat) : lua Z :=
  match n with
  | O => LRet 0%Z
  | S n =>
      let id := Itoa ((counter + offset) mod 65535 + 1) in
      LCall (HEXISTS key (prefix +:+ id)) (λ used : bool,
      if used then next_counter_loop key prefix counter (offset + 1) n
      else if String.eqb prefix "" then LRet (counter + offset + 1)%Z
      else LCall (HEXISTS key id) (λ used : bool,
           if used then next_counter_loop key prefix counter (offset + 1) n else LRet (counter + offset + 1)%Z))
  end.

Definition packet_ids : nat := N.to_nat 65535.

Definition nextOfflinePacketCounterScript (key : string) (counter : Z) (prefix : string) : lua Z :=
  if String.eqb prefix "" then
    LCall (HLEN key) (λ n, if (65535 <=? n)%N then LRet 0%Z else next_counter_loop key prefix counter 0 packet_ids)
  else next_counter_loop key prefix counter 0 packet_ids.

(** ** Fenced writes *)

Definition schemaMismatchError (configured : Z) : sessionError :=
  if negb (configured =? 0)%Z then EMarkerMismatch configured else EIFMSchemaChanged.

Definition fencedHSet (configured : Z) (hash field value : string) (schema : Z) : prog (result unit) :=
  n ⇐ eval (schemaFencedHSetScript hash (Itoa schema) field value);
  if (n =? 0)%Z then error (schemaMismatchError configured) else ok tt.

Definition fencedHSetNX (configured : Z) (hash field value : string) (schema : Z) : prog (result bool) :=
  n ⇐ eval (schemaFencedHSetNXScript hash (Itoa schema) field value);
  if (n <? 0)%Z then error (schemaMismatchError configured) else ok (n =? 1)%Z.

Definition delete_fields (schema : Z) (pk : Packet) (dropped : bool) : list string :=
  if (schema =? redisIFMSchemaV2)%Z then
    [if dropped then inflightDroppedFieldKey pk else inflightCompletionFieldKey pk; FormatID pk]
  else [FormatID pk].

Fixpoint delete_attempts (attempts : nat) (configured : Z) (clientID : string) (pk : Packet) (dropped : bool) (schema : Z) :
    prog (result unit) :=
  match attempts with
  | O => error (EChangedRepeatedly clientID)
  | S attempts =>
      n ⇐ eval (schemaFencedHDelScript (redisInflightKey clientID) (Itoa schema) (delete_fields schema pk dropped));
      if (n =? 1)%Z then ok tt
      else match schemaMismatchError configured with
           | EIFMSchemaChanged =>
               schema ⇐ refreshSchemaVersion configured;
               delete_attempts attempts configured clientID pk dropped schema
           | e => error e
           end
  end.

Definition deleteInflight (configured : Z) (clientID : string) (pk : Packet) (dropped : bool) : prog (result unit) :=
  schema ← schemaVersion;
  delete_attempts 2 configured clientID pk dropped schema.

(** storage.Message of an inflight packet; [id] is its field. *)
Definition inflight_message (clientID id : string) (pk : Packet) (sent : Z) : storageMessage :=
  let props := Properties_Copy false (pkProperties pk) in
  mkStorageMessage
    (mkStorageMessageProperties (CorrelationData props) (SubscriptionIdentifier props) (User props) (ContentType props)
       (ResponseTopic props) (MessageExpiryInterval props) (TopicAlias props) (PayloadFormat props) false)
    (pkPayload pk) InflightKey id clientID (pkOrigin pk) (pkTopicName pk) (pkFixedHeader pk) (pkCreated pk) sent (pkPacketID pk).

Definition write_field (schema : Z) (pk : Packet) : string :=
  if (schema =? redisIFMSchemaV2)%Z then inflightFieldKey pk else FormatID pk.

Fixpoint publish_attempts (attempts : nat) (configured : Z) (clientID : string) (pk : Packet) (sent : Z) (schema : Z) :
    prog (result unit) :=
  match attempts with
  | O => error (EChangedRepeatedly clientID)
  | S attempts =>
      let field := write_field schema pk in
      let data := Message_MarshalBinary (inflight_message clientID field pk sent) in
      r ← fencedHSet configured (redisInflightKey clientID) field data schema;
      match r with
      | inl EIFMSchemaChanged =>
          schema ⇐ refreshSchemaVersion configured;
          publish_attempts attempts configured clientID pk sent schema
      | _ => Ret r
      end
  end.

Definition OnQosPublishResult (configured : Z) (clientID : string) (pk : Packet) (sent : Z) : prog (result unit) :=
  if pkInboundFlow pk && (pkType pk =? Puback)%N then ok tt
  else
    schema ← schemaVersion;
    publish_attempts 2 configured clientID pk sent schema.

Definition OnQosCompleteResult (configured : Z) (clientID : string) (pk : Packet) : prog (result unit) :=
  if pkInboundFlow pk && (pkType pk =? Puback)%N then ok tt
  else deleteInflight configured clientID pk false.

Definition OnQosDroppedResult (configured : Z) (clientID : string) (pk : Packet) : prog (result unit) :=
  deleteInflight configured clientID pk true.

(** ** Reading inflight messages *)

Definition migrate_field (clientID key : string) (row : string * string) : prog (result unit) :=
  let '(field, raw) := row in
  if directional field then ok tt
  else match Message_UnmarshalBinary raw with
       | None => error (EUnmarshal field)
       | Some msg =>
           _ ⇐ eval (migrateLegacyInflightFieldScript key field (inflightFieldKey (ToPacket msg)));
           ok tt
       end.

Definition migrateLegacyInflightFields (clientID : string) : prog (result unit) :=
  schema ← schemaVersion;
  if negb (schema =? redisIFMSchemaV2)%Z then ok tt
  else
    rows ⇐ redis (HGETALL (redisInflightKey clientID));
    rows ← ask (Order (map_to_list rows));
    _ ⇐ traverse (migrate_field clientID (redisInflightKey clientID)) rows;
    ok tt.

(** sort.Strings *)
Fixpoint insert_sorted (x : string) (l : list string) : list string :=
  match l with
  | [] => [x]
  | y :: l' => if ltb y x then y :: insert_sorted x l' else x :: l
  end.
Definition sort_strings (l : list string) : list string := foldr insert_sorted [] l.

(** The fields that are read under the schema. *)
Fixpoint readable_fields (fields : list string) : prog (list string) :=
  match fields with
  | [] => Ret []
  | field :: fields =>
      schema ← schemaVersion;
      rest ← readable_fields fields;
      Ret (if (schema =? redisIFMSchemaLegacy)%Z && directional field then rest else field :: rest)
  end.

Definition read_field (rows : gmap string string) (field : string) : prog (result storageMessage) :=
  match Message_UnmarshalBinary (default "" (rows !! field)) with
  | None => error (EUnmarshal field)
  | Some m =>
      schema ← schemaVersion;
      let expected := inflightFieldKey (ToPacket m) in
      if (schema =? redisIFMSchemaV2)%Z && directional field && negb (String.eqb field expected) then
        error (EFieldDisagrees field expected)
      else ok m
  end.

Definition storedInflightForClient (configured : Z) (clientID : string) : prog (result (list storageMessage)) :=
  _ ⇐ refreshSchemaVersion configured;
  _ ⇐ migrateLegacyInflightFields clientID;
  rows ⇐ redis (HGETALL (redisInflightKey clientID));
  fields ← ask (Order (map_to_list rows).*1);
  fields ← readable_fields fields;
  traverse (read_field rows) (sort_strings fields).

Definition InflightForClient (configured : Z) (clientID : string) : prog (result (list storageMessage)) :=
  storedInflightForClient configured clientID.

(** ** Offline delivery *)

(** uint16((n-1)%65535) + 1 *)
Definition packet_id_of (n : Z) : N := Z.to_N ((Z.rem (n - 1) 65535 mod 65536 + 1) mod 65536).

Definition NextPacketID (clientID : string) : prog (result N) :=
  n ⇐ redis (INCR (redisPacketIDKey clientID));
  ok (packet_id_of n).

Definition offline_message (clientID : string) (packetID : N) (msg : InflightMessage) (now : Z) : storageMessage :=
  mkStorageMessage no_message_properties (msgPayload msg) InflightKey (clientID +:+ ":" +:+ FormatUint packetID) clientID ""
    (msgTopic msg) (mkFixedHeader 0 Publish (msgQoS msg) false false) now 0 packetID.

Definition marshalOfflineInflight (clientID : string) (packetID : N) (msg : InflightMessage) : prog string :=
  now ← ask Now;
  Ret (Message_MarshalBinary (offline_message clientID packetID msg now)).

Definition offline_field (schema : Z) (packetID : N) : string :=
  if (schema =? redisIFMSchemaLegacy)%Z then FormatUint packetID else "out:" +:+ FormatUint packetID.

Fixpoint enqueue_attempts (attempts : nat) (configured : Z) (clientID : string) (packetID : N) (data : string) (schema : Z) :
    prog (result unit) :=
  match attempts with
  | O => error (EChangedRepeatedly clientID)
  | S attempts =>
      r ← fencedHSetNX configured (redisInflightKey clientID) (offline_field schema packetID) data schema;
      match r with
      | inl EIFMSchemaChanged =>
          schema ⇐ refreshSchemaVersion configured;
          enqueue_attempts attempts configured clientID packetID data schema
      | inl e => error e
      | inr inserted => if inserted : bool then ok tt else error (EPacketIDInUse packetID)
      end
  end.

Definition EnqueueOfflineInflight (configured : Z) (clientID : string) (packetID : N) (msg : InflightMessage) :
    prog (result unit) :=
  data ← marshalOfflineInflight clientID packetID msg;
  schema ⇐ refreshSchemaVersion configured;
  enqueue_attempts 2 configured clientID packetID data schema.

Definition nextOfflinePacketCounter (key : string) (counter : Z) (prefix : string) : prog (result Z) :=
  done1 ← ask CtxErr;
  if done1 : bool then error ECtxDone
  else
    next ⇐ eval (nextOfflinePacketCounterScript key counter prefix);
    done2 ← ask CtxErr;
    if done2 : bool then error ECtxDone else ok next.

Definition set_cmds (counterKey inflightKey : string) (dedupKey : option string) (nextCounter schema : Z) (packetID : N)
    (data : string) (ttl : Z) : list anycmd :=
  [Any (SET counterKey (Itoa nextCounter) 0); Any (HSET inflightKey (offline_field schema packetID) data)] ++
  match dedupKey with Some k => [Any (SET k "1" ttl)] | None => [] end.

(** The function passed to [rdb.Watch] up to the transaction: the schema and the
    counter of the packet ID it chose. *)
Definition queue_plan (configured : Z) (dedupKey : option string) (clientID : string) : prog (result (Z * Z)) :=
  marker ⇐ redis (GET redisIFMSchemaKey);
  schema ⇐ match marker with
           | None => ok redisIFMSchemaLegacy
           | Some marker => let schema := default 0%Z (Atoi marker) in
                            if valid_schema schema then ok schema else error (EInvalidMarker marker)
           end;
  _ ⇐ Ret (validateIFMSchema configured schema);
  _ ← setSchemaVersion schema;
  _ ⇐ match dedupKey with
      | None => ok tt
      | Some k => n ⇐ redis (EXISTS [k]); if (n =? 0)%N then ok tt else error EAlreadyDelivered
      end;
  counter ⇐ redis (GET (redisPacketIDKey clientID));
  counter ⇐ match counter with
            | None => ok 0%Z
            | Some s => match ParseInt s with Some n => ok n | None => error EBadCounter end
            end;
  nextCounter ⇐ nextOfflinePacketCounter (redisInflightKey clientID) counter
                  (if (schema =? redisIFMSchemaLegacy)%Z then "" else "out:");
  if (nextCounter =? 0)%Z then error EQuotaExceeded else ok (schema, nextCounter).

(** The packet ID it committed. *)
Definition queue_tx (configured : Z) (dedupKey : option string) (clientID : string) (ttl : Z) (msg : InflightMessage) :
    prog (result N) :=
  '(schema, nextCounter) ⇐ queue_plan configured dedupKey clientID;
  let packetID := packet_id_of nextCounter in
  data ← marshalOfflineInflight clientID packetID msg;
  r ← ask (Exec (set_cmds (redisPacketIDKey clientID) (redisInflightKey clientID) dedupKey nextCounter schema packetID data ttl));
  match r with
  | inl e => error (ERedis e)
  | inr false => error ETxFailed
  | inr true => ok packetID
  end.

Definition watch_keys (dedupKey : option string) (clientID : string) : list string :=
  [redisInflightKey clientID; redisPacketIDKey clientID; redisIFMSchemaKey] ++ match dedupKey with Some k => [k] | None => [] end.

(** [attempts] are left of the 32; the wait between two of them can be cut short
    by the context. *)
Fixpoint queue_attempts (attempts : nat) (configured : Z) (dedupKey : option string) (clientID : string) (ttl : Z)
    (msg : InflightMessage) : prog (result (N * bool)) :=
  match attempts with
  | O => error EContention
  | S attempts =>
      r ← (_ ⇐ (r ← ask (Watch (watch_keys dedupKey clientID)); Ret (lift r));
           queue_tx configured dedupKey clientID ttl msg);
      match r with
      | inl EAlreadyDelivered => ok (0%N, false)
      | inl ETxFailed =>
          cut ← (match attempts with O => Ret false | S _ => ask CtxErr end);
          if cut : bool then error ECtxDone
          else queue_attempts attempts configured dedupKey clientID ttl msg
      | inl e => error e
      | inr packetID => ok (packetID, true)
      end
  end.

Definition QueueOfflineInflight (configured : Z) (publishID clientID : string) (ttl : Z) (msg : InflightMessage) :
    prog (result (N * bool)) :=
  done_ ← ask CtxErr;
  if done_ : bool then error ECtxDone
  else
    locked ← ask (LockClient clientID);
    if negb locked then error ECtxDone
    else
      let dedupKey := if String.eqb publishID uuid_Nil then None else Some (dedup_key publishID clientID) in
      r ← queue_attempts 32 configured dedupKey clientID ttl msg;
      _ ← ask (UnlockClient clientID);
      Ret r.

(** ** Session records *)

(** mqtt.Client, the fields that are stored. *)
Record mqttClient := mkMqttClient {
  clID : string;
  clRemote : string;
  clListener : string;
  clUsername : string;
  clClean : bool;
  clProtocolVersion : N;
  clProps : Properties;
  clWill : storageClientWill;
}.

Definition stored_client (cl : mqttClient) : storageClient :=
  let props := Properties_Copy false (clProps cl) in
  mkStorageClient (clWill cl)
    (mkStorageClientProperties (AuthenticationData props) (User props) (AuthenticationMethod props) (SessionExpiryInterval props)
       (MaximumPacketSize props) (ReceiveMaximum props) (TopicAliasMaximum props) false (RequestProblemInfo props) false
       (RequestResponseInfo props))
    (clUsername cl) (clID cl) ClientKey (clRemote cl) (clListener cl) (clProtocolVersion cl) (clClean cl).

(** Errors are logged only. *)
Definition logged {A} (p : prog (result A)) : prog unit := _ ← p; Ret tt.

Definition saveClient (cl : mqttClient) : prog unit :=
  logged (tx_pipeline [Any (SET (redisClientKey (clID cl)) (Client_MarshalBinary (stored_client cl)) 0);
                       Any (SADD redisClientIndex (clID cl))]).

Definition OnSessionEstablished (cl : mqttClient) : prog unit := saveClient cl.

Definition deleteSessionState (clientID : string) : prog unit :=
  logged (tx_pipeline [Any (DEL [redisClientKey clientID; redisLastSeenKey clientID; redisSubKey clientID;
                                 redisInflightKey clientID; redisPacketIDKey clientID]);
                       Any (SREM redisClientIndex clientID)]).

Definition OnClientExpired (clientID : string) : prog unit := deleteSessionState clientID.

(** [FormatTime] is time.Format with RFC3339Nano in UTC. *)
Definition markOffline (FormatTime : Z → string) (clientID : string) : prog unit :=
  now ← ask Now;
  logged (redis (SET (redisLastSeenKey clientID) (FormatTime now) 0)).

(** [takenOver]: the client was stopped by a session takeover. *)
Definition OnDisconnect (FormatTime : Z → string) (clientID : string) (takenOver expire : bool) : prog unit :=
  if takenOver then Ret tt
  else if negb expire then markOffline FormatTime clientID
  else deleteSessionState clientID.

Definition stored_subscription (clientID : string) (f : Subscription) (code : N) : storageSubscription :=
  mkStorageSubscription SubscriptionKey (Filter f) clientID (Filter f) (Identifier f) (RetainHandling f) code
    (RetainAsPublished f) (NoLocal f).

(** One filter for each reason code; [false] when the codes run out, which
    panics. *)
Fixpoint OnSubscribed (clientID : string) (filters : list Subscription) (reasonCodes : list N) : prog bool :=
  match filters, reasonCodes with
  | [], _ => Ret true
  | _, [] => Ret false
  | f :: filters, code :: codes =>
      _ ← logged (redis (HSET (redisSubKey clientID) (Filter f) (Subscription_MarshalBinary (stored_subscription clientID f code))));
      OnSubscribed clientID filters codes
  end.

Fixpoint OnUnsubscribed (clientID : string) (filters : list Subscription) : prog unit :=
  match filters with
  | [] => Ret tt
  | f :: filters => _ ← logged (redis (HDEL (redisSubKey clientID) [Filter f])); OnUnsubscribed clientID filters
  end.

(** ** Reading sessions *)

(** Rows that cannot be decoded are skipped. *)
Definition decodeSubscriptions (rows : list string) : list storageSubscription := omap Subscription_UnmarshalBinary rows.

Definition SubscriptionsForClient (clientID : string) : prog (result (list storageSubscription)) :=
  rows ⇐ redis (HGETALL (redisSubKey clientID));
  rows ← ask (Order (map_to_list rows).*2);
  ok (decodeSubscriptions rows).

(** A scan follows the cursors until the server returns 0; [fuel] bounds the
    number of pages. [f] handles one page. *)
Fixpoint scan_pages {A B} (fuel : nat) (page : N → cmd (list A * N)) (f : list A → prog (result (list B))) (cursor : N) :
    prog (result (list B)) :=
  match fuel with
  | O => error EScanBound
  | S fuel =>
      '(rows, next) ⇐ redis (page cursor);
      out ⇐ f rows;
      if (next =? 0)%N then ok out
      else rest ⇐ scan_pages fuel page f next; ok (out ++ rest)
  end.

Definition indexedClientIDs (fuel : nat) : prog (result (list string)) :=
  scan_pages fuel (SSCAN redisClientIndex) ok 0.

Definition stored_client_of (clientID : string) : prog (result (list storageClient)) :=
  raw ⇐ redis (GET (redisClientKey clientID));
  match raw with
  | None => ok []
  | Some raw => ok (match Client_UnmarshalBinary raw with Some c => [c] | None => [] end)
  end.

Definition StoredClients (fuel : nat) : prog (result (list storageClient)) :=
  ids ⇐ indexedClientIDs fuel;
  out ⇐ traverse stored_client_of ids;
  ok (concat out).

Definition StoredSubscriptions (fuel : nat) : prog (result (list storageSubscription)) :=
  ids ⇐ indexedClientIDs fuel;
  out ⇐ traverse SubscriptionsForClient ids;
  ok (concat out).

Definition StoredInflightMessages (fuel : nat) (configured : Z) : prog (result (list storageMessage)) :=
  ids ⇐ indexedClientIDs fuel;
  out ⇐ traverse (storedInflightForClient configured) ids;
  ok (concat out).

(** What a command of a pipeline contributes to the error of its Exec: a nil
    reply is an error too. *)
Inductive pipeOutcome := POk | PNil | PErr (e : redisErr).

Definition outcome_of {A} (r : redisResult A) : pipeOutcome := match r with inl e => PErr e | inr _ => POk end.
Definition outcome_of_get (r : redisResult (option string)) : pipeOutcome :=
  match r with inl e => PErr e | inr None => PNil | inr (Some _) => POk end.

(** The error of Exec: a lost connection, otherwise the first error; a nil reply
    is ignored by the callers. *)
Fixpoint first_error (l : list pipeOutcome) : option redisErr :=
  match l with
  | [] | PNil :: _ => None
  | POk :: l => first_error l
  | PErr e :: _ => Some e
  end.
Definition exec_error (l : list pipeOutcome) : option redisErr :=
  if existsb (λ o, match o with PErr ConnErr => true | _ => false end) l then Some ConnErr else first_error l.

Definition inventory_replies (clientID : string) :
    prog (redisResult (option string) * redisResult (option string) * redisResult (gmap string string)) :=
  client ← ask (Do (GET (redisClientKey clientID)));
  lastSeen ← ask (Do (GET (redisLastSeenKey clientID)));
  subs ← ask (Do (HGETALL (redisSubKey clientID)));
  Ret (client, lastSeen, subs).

(** [ParseTime] is time.Parse with RFC3339Nano. *)
Definition inventory_session (ParseTime : string → option Z)
    (replies : redisResult (option string) * redisResult (option string) * redisResult (gmap string string)) :
    prog (result (list OfflineSession)) :=
  let '(client, lastSeen, subs) := replies in
  match client with
  | inl e => error (ERedis e)
  | inr None => ok []
  | inr (Some raw) =>
      match Client_UnmarshalBinary raw with
      | None => ok []
      | Some client =>
          rows ← ask (Order (map_to_list (match subs with inl _ => ∅ | inr rows => rows end)).*2);
          let offline := FromStorage (scID client) (decodeSubscriptions rows) in
          let seen := match lastSeen with inr (Some raw) => ParseTime raw | _ => None end in
          ok [mkOfflineSession (sessClientID offline) (sessSubscriptions offline) seen]
      end
  end.

Definition inventory_page (ParseTime : string → option Z) (liveClaimed : gmap string string) (ids : list string) :
    prog (result (list OfflineSession)) :=
  let ids := List.filter (λ id, negb (present liveClaimed id)) ids in
  replies ← for_each inventory_replies ids;
  match exec_error (concat (map (λ '(client, lastSeen, subs),
          [outcome_of_get client; outcome_of_get lastSeen; outcome_of subs]) replies)) with
  | Some e => error (ERedis e)
  | None => out ⇐ traverse (inventory_session ParseTime) replies; ok (concat out)
  end.

Definition OfflineInventoryExcept (ParseTime : string → option Z) (fuel : nat) (liveClaimed : gmap string string) :
    prog (result (list OfflineSession)) :=
  scan_pages fuel (SSCAN redisClientIndex) (inventory_page ParseTime liveClaimed) 0.

Definition OfflineInventory (ParseTime : string → option Z) (fuel : nat) : prog (result (list OfflineSession)) :=
  OfflineInventoryExcept ParseTime fuel ∅.

(** Slices of at most [n] elements; [fuel] is the number of elements. *)
Fixpoint batches {A} (fuel n : nat) (l : list A) : list (list A) :=
  match fuel, l with
  | S fuel, _ :: _ => take n l :: batches fuel n (drop n l)
  | _, _ => []
  end.

Definition owned_batch (ids : list string) : prog (result (list OfflineSession)) :=
  replies ← for_each (λ id, ask (Do (HGETALL (redisSubKey id)))) ids;
  match exec_error (map outcome_of replies) with
  | Some e => error (ERedis e)
  | None =>
      traverse (λ '(clientID, reply),
        rows ← ask (Order (map_to_list (match reply with inl _ => ∅ | inr rows => rows end)).*2);
        ok (FromStorage clientID (decodeSubscriptions rows))) (zip ids replies)
  end.

Definition OwnedOfflineSessions (ownedClientIDs : list string) : prog (result (list OfflineSession)) :=
  out ⇐ traverse owned_batch (batches (length ownedClientIDs) redisScanCount ownedClientIDs);
  ok (concat out).

Definition MarkDelivered (publishID clientID : string) (ttl : Z) : prog (result bool) :=
  if String.eqb publishID uuid_Nil then ok true
  else redis (SETNX (dedup_key publishID clientID) "1" ttl).

(** The migrations of a page come before the lengths, which are pipelined. *)
Definition count_page (ids : list string) : prog (result (list N)) :=
  _ ⇐ traverse migrateLegacyInflightFields ids;
  replies ← for_each (λ id, ask (Do (HLEN (redisInflightKey id)))) ids;
  match exec_error (map outcome_of replies) with
  | Some e => error (ERedis e)
  | None => ok (map (λ r, match r with inl _ => 0%N | inr n => n end) replies)
  end.

Definition InflightCount (fuel : nat) : prog (result N) :=
  counts ⇐ scan_pages fuel (SSCAN redisClientIndex) count_page 0;
  ok (foldr N.add 0%N counts).

(** ** The fleet-wide migration *)

Definition unlockScript (token : string) : lua Z :=
  LCall (GET redisMigrationLock) (λ v,
  match v with
  | Some v => if String.eqb v token then LCall (DEL [redisMigrationLock]) (λ n, LRet (Z.of_N n)) else LRet 0%Z
  | None => LRet 0%Z
  end).

Definition legacy_hashes : list string := [legacyClientHash; legacySubHash; legacyInflightHash].

(** Take the lock, or see that another node has finished. At least 100 ms pass
    between two attempts and 5 minutes are allowed, so the bound of 3001 attempts
    is not what ends the loop. *)
Fixpoint acquire_migration_lock (attempts : nat) (deadline : Z) (token : string) : prog (result bool) :=
  match attempts with
  | O => error EMigrationTimeout
  | S attempts =>
      acquired ⇐ redis (SETNX redisMigrationLock token 1800000000000);
      if acquired : bool then ok true
      else
        remaining ⇐ redis (EXISTS legacy_hashes);
        if (remaining =? 0)%N then ok false
        else
          now ← ask Now;
          if (deadline <? now)%Z then error EMigrationTimeout
          else acquire_migration_lock attempts deadline token
  end.

(** What a row becomes: the commands that write it, and its client. *)
Definition migrate_client_row (raw : string) : result (list anycmd * string) :=
  match Client_UnmarshalBinary raw with
  | None => inl (EUnmarshal legacyClientHash)
  | Some c => inr ([Any (SET (redisClientKey (scID c)) raw 0); Any (SADD redisClientIndex (scID c))], scID c)
  end.
Definition migrate_sub_row (raw : string) : result (list anycmd * string) :=
  match Subscription_UnmarshalBinary raw with
  | None => inl (EUnmarshal legacySubHash)
  | Some s => inr ([Any (HSET (redisSubKey (stClient s)) (stFilter s) raw); Any (SADD redisClientIndex (stClient s))], stClient s)
  end.
Definition migrate_inflight_row (schema : Z) (raw : string) : result (list anycmd * string) :=
  match Message_UnmarshalBinary raw with
  | None => inl (EUnmarshal legacyInflightHash)
  | Some m =>
      let packet := ToPacket m in
      let field := if (schema =? redisIFMSchemaV2)%Z then inflightFieldKey packet else FormatID packet in
      inr ([Any (HSET (redisInflightKey (smClient m)) field raw); Any (SADD redisClientIndex (smClient m))], smClient m)
  end.

(** The callback of one row: it reads the cached schema itself. *)
Definition add_row (convert : Z → string → result (list anycmd * string)) (row : string * string) :
    prog (result (list anycmd * string)) :=
  schema ← schemaVersion;
  Ret (convert schema row.2).

Definition do_any (c : anycmd) : prog pipeOutcome :=
  match c with Any c => r ← ask (Do c); Ret (outcome_of r) end.

(** One page: nothing of it is written unless all its rows can be read. *)
Definition migrate_page (convert : Z → string → result (list anycmd * string)) (rows : list (string * string)) :
    prog (result (list string)) :=
  adds ⇐ traverse (add_row convert) rows;
  outcomes ← for_each do_any (concat adds.*1);
  match exec_error outcomes with
  | Some e => error (ERedis e)
  | None => ok adds.*2
  end.

Definition migrateLegacyHash (fuel : nat) (key : string) (convert : Z → string → result (list anycmd * string)) :
    prog (result (list string)) :=
  scan_pages fuel (HSCAN key) (migrate_page convert) 0.

(** The packet-ID counter of one migrated client. *)
Definition migrate_counter (clientID : string) : prog (result (list anycmd)) :=
  let oldKey := legacyPacketIDPrefix +:+ clientID in
  n ⇐ redis (GET oldKey);
  ok (match n with
      | None => []
      | Some n => Any (SET (redisPacketIDKey clientID) n 0) ::
                  (if String.eqb oldKey (redisPacketIDKey clientID) then [] else [Any (DEL [oldKey])])
      end).

Definition migrate_rows (fuel : nat) : prog (result unit) :=
  clients1 ⇐ migrateLegacyHash fuel legacyClientHash (λ _, migrate_client_row);
  clients2 ⇐ migrateLegacyHash fuel legacySubHash (λ _, migrate_sub_row);
  clients3 ⇐ migrateLegacyHash fuel legacyInflightHash migrate_inflight_row;
  clients ← ask (Order (elements (list_to_set (clients1 ++ clients2 ++ clients3) : gset string)));
  counters ⇐ traverse migrate_counter clients;
  tx_pipeline (concat counters ++ [Any (DEL legacy_hashes)]).

Definition migrateLegacySchema (fuel : nat) : prog (result unit) :=
  legacy ⇐ redis (EXISTS legacy_hashes);
  if (legacy =? 0)%N then ok tt
  else
    token ← ask NewUUID;
    now ← ask Now;
    mine ⇐ acquire_migration_lock 3001 (now + 300000000000) token;
    if negb mine then ok tt
    else
      r ← migrate_rows fuel;
      _ ← eval (unlockScript token);
      Ret r.

(** [ping] is the outcome of the connectivity test. *)
Definition Init (fuel : nat) (configured : Z) (ping : option redisErr) : prog (result unit) :=
  match ping with
  | Some e => error (ERedis e)
  | None =>
      schema ⇐ readIFMSchema configured;
      _ ← setSchemaVersion schema;
      migrateLegacySchema fuel
  end.

(** ** Lemmas: programs *)

Section programs.
  Context `{RedisServer} `{!RedisDocumented} (env : environment).

Lemma run_ebind {A B} (m : prog (result A)) (f : A → prog (result B)) w r w' tr :
  run env (ebind m f) w r w' tr →
  ∃ r1 w1 tr1 tr2, run env m w r1 w1 tr1 ∧ tr = tr1 ++ tr2 ∧
    match r1 with inl e => r = inl e ∧ w' = w1 ∧ tr2 = [] | inr a => run env (f a) w1 r w' tr2 end.
Proof.
  unfold ebind. intros (r1 & w1 & tr1 & tr2 & H1 & H2 & ->)%run_bind. exists r1, w1, tr1, tr2. by destruct r1.
Qed.

(** [p] only reads, on a connection that watches [ks] since the database was
    [d0]; a value it returns satisfies [P] if no key was touched meanwhile. *)
Definition reading {A} (ks : list string) (d0 : db) (p : prog (result A)) (P : A → Prop) : Prop :=
  ∀ w r w' tr, watching ks d0 w → run env p w r w' tr →
    tr = [] ∧ watching ks d0 w' ∧ (clean w' → clean w) ∧ ∀ a, r = inr a → clean w' → P a.

Lemma reading_ok {A} ks d0 (a : A) (P : A → Prop) : P a → reading ks d0 (ok a) P.
Proof. intros Ha w r w' tr Hw (-> & -> & ->). split_and!; try done. by intros ? [= <-]. Qed.

Lemma reading_error {A} ks d0 e (P : A → Prop) : reading ks d0 (error e) P.
Proof. intros w r w' tr Hw (-> & -> & ->). by split_and!. Qed.

Lemma reading_bind {A B} ks d0 (p : prog (result A)) (f : A → prog (result B)) (P : A → Prop) Q :
  reading ks d0 p P → (∀ a, reading ks d0 (f a) (λ b, P a → Q b)) → reading ks d0 (ebind p f) Q.
Proof.
  intros Hp Hf w r w' tr Hw (r1 & w1 & tr1 & tr2 & H1 & -> & H2)%run_ebind.
  destruct (Hp _ _ _ _ Hw H1) as (-> & Hw1 & Hc1 & HP). destruct r1 as [e|a].
  - destruct H2 as (-> & -> & ->). by split_and!.
  - destruct (Hf a _ _ _ _ Hw1 H2) as (-> & Hw2 & Hc2 & HQ). split_and!; [done|done|auto|]. eauto.
Qed.

Lemma reading_ask {X B} (e : event X) (f : X → prog (result B)) ks d0 Q :
  (∀ w x w' tr, step env e w x w' tr → tr = [] ∧ wDb w' = wDb w ∧ wWatch w' = wWatch w) →
  (∀ x, reading ks d0 (f x) Q) → reading ks d0 (x ← ask e; f x) Q.
Proof.
  intros He Hf w r w' tr Hw (x & w1 & tr1 & tr2 & H1 & H2 & ->)%run_bind.
  destruct H1 as (w0 & x' & w2 & tr3 & tr4 & Hi & Hs & (-> & -> & ->) & ->).
  destruct (He _ _ _ _ Hs) as (-> & Ed & Ew). destruct (watching_interference env _ _ _ _ Hi Hw) as [Hw0 Hc0].
  assert (watching ks d0 w2) as Hw2 by (unfold watching in *; by rewrite Ed, Ew).
  assert (clean w2 → clean w0) as Hc2 by (unfold clean; by rewrite Ew).
  destruct (Hf x' _ _ _ _ Hw2 H2) as (-> & Hw' & Hc' & HQ). split_and!; [done|done|auto|done].
Qed.

Lemma reading_answered {A} (e : event (redisResult A)) (exec : db → redisResult A * db) ks d0 P :
  (∀ w x w' tr, step env e w x w' tr → answered env exec w x w' tr) → (∀ d, (exec d).2 = d) →
  (∀ d a, agree ks d d0 → (exec d).1 = inr a → P a) → reading ks d0 (r ← ask e; Ret (lift r)) P.
Proof.
  intros He Hread HP w r w' tr Hw (x & w1 & tr1 & tr2 & H1 & (-> & -> & ->) & ->)%run_bind.
  destruct H1 as (w0 & x' & w2 & tr3 & tr4 & Hi & Hs & (-> & -> & ->) & ->).
  destruct (watching_read env exec ks d0 w w0 x' w2 tr3 Hread Hw Hi (He _ _ _ _ Hs)) as (-> & Hw2 & Hc & _ & Hx).
  split_and!; [done|done|done|]. intros a Ea Hcl. destruct x' as [e'|a']; simpl in Ea; simplify_eq.
  destruct (Hx a eq_refl) as (d & Hd & E). eauto.
Qed.

Lemma reading_redis {A} (c : cmd A) ks d0 P : (∀ d, (documented c d).2 = d) →
  (∀ d a, agree ks d d0 → (documented c d).1 = inr a → P a) → reading ks d0 (redis c) P.
Proof.
  intros Hr HP. apply (reading_answered (Do c) (redis_call c)); [done|intros d; by rewrite redis_documented|].
  intros d a. rewrite redis_documented. apply HP.
Qed.

Lemma reading_eval (p : lua Z) ks d0 P : (∀ d, (run_lua p d).2 = d) →
  (∀ d a, agree ks d d0 → (run_lua p d).1 = inr a → P a) → reading ks d0 (eval p) P.
Proof. intros Hr HP. by apply (reading_answered (Eval p) (run_lua p)). Qed.
End programs.

(** ** Lemmas: programs without interference *)

Section performed.
  Context `{RedisServer} `{!RedisDocumented} (now : Z) (uuid : string).

Lemma perform_ebind {A B} (m : prog (result A)) (f : A → prog (result B)) w :
  perform now uuid (ebind m f) w =
  match perform now uuid m w with
  | (inl e, w1) => (inl e, w1)
  | (inr a, w1) => perform now uuid (f a) w1
  end.
Proof.
  unfold ebind. rewrite perform_bind.
  change ((let '(r, w1) := perform now uuid m w in perform now uuid (match r with inl e => Ret (inl e) | inr a => f a end) w1) =
    match perform now uuid m w with (inl e, w1) => (inl e, w1) | (inr a, w1) => perform now uuid (f a) w1 end).
  by destruct (perform now uuid m w) as [[e|a] w1].
Qed.

Lemma perform_read {A} (c : cmd A) w r : documented c (wDb w) = (r, wDb w) → perform now uuid (redis c) w = (lift r, w).
Proof. intros Hc. unfold redis. rewrite perform_bind, (perform_do_read _ _ _ _ r); [done|]. by rewrite redis_documented. Qed.

Lemma perform_eval p w r : run_lua p (wDb w) = (r, wDb w) → perform now uuid (eval p) w = (lift r, w).
Proof. intros Hc. unfold eval. by rewrite perform_bind, (perform_eval_read _ _ _ _ r). Qed.
End performed.

(** ** Lemmas: the changes an operation can make *)

Section changes.
  Context `{RedisServer} `{!RedisDocumented} (env : environment).

Lemma effects_ebind {A B} (m : prog (result A)) (f : A → prog (result B)) P :
  effects env m P → (∀ a, effects env (f a) P) → effects env (ebind m f) P.
Proof. intros Hm Hf. apply effects_bind; [done|]. intros [e|a]; [apply effects_ret|done]. Qed.

Lemma effects_redis {A} (c : cmd A) (P : db → db → Prop) :
  (∀ d, d ≠ (documented c d).2 → P d (documented c d).2) → effects env (redis c) P.
Proof. intros HP. apply effects_bind; [|intros; apply effects_ret]. apply effects_do. intros d. rewrite redis_documented. auto. Qed.

Lemma effects_script p (P : db → db → Prop) : (∀ d, d ≠ (run_lua p d).2 → P d (run_lua p d).2) → effects env (eval p) P.
Proof. intros HP. apply effects_bind; [by apply effects_eval|intros; apply effects_ret]. Qed.

Lemma effects_tx cs (P : db → db → Prop) : (∀ d, d ≠ (exec_all cs d).2 → P d (exec_all cs d).2) → effects env (tx_pipeline cs) P.
Proof. intros HP. apply effects_bind; [by apply effects_multi|intros; apply effects_ret]. Qed.

Lemma effects_get k P : effects env (redis (GET k)) P.
Proof. apply effects_redis. intros d Hd. simpl in Hd. by destruct (string_at d k). Qed.

Lemma effects_schemaVersion P : effects env schemaVersion P.
Proof. apply effects_bind; [by apply effects_harmless|intros; apply effects_ret]. Qed.

Lemma effects_readIFMSchema configured P : effects env (readIFMSchema configured) P.
Proof.
  apply effects_ebind; [apply effects_get|]. intros [raw|]; [|apply effects_ret].
  destruct (Atoi raw) as [z|]; [destruct (valid_schema z)|]; apply effects_ret.
Qed.

Lemma effects_refresh configured P : effects env (refreshSchemaVersion configured) P.
Proof.
  unfold refreshSchemaVersion. destruct (negb _); [apply effects_ret|].
  apply effects_ebind; [apply effects_readIFMSchema|]. intros z. apply effects_bind; [by apply effects_harmless|intros; apply effects_ret].
Qed.

(** A schema that was read is valid. *)
Definition configuration (configured : Z) : Prop := configured = 0%Z ∨ valid_schema configured = true.

Lemma run_schemaVersion w r w' tr : run env schemaVersion w r w' tr → valid_schema r = true.
Proof.
  intros (z & w1 & tr1 & tr2 & _ & (-> & _) & _)%run_bind. by destruct (z =? redisIFMSchemaV2)%Z.
Qed.

Lemma run_readIFMSchema configured w r w' tr z : run env (readIFMSchema configured) w r w' tr → r = inr z → valid_schema z = true.
Proof.
  intros (r1 & w1 & tr1 & tr2 & _ & -> & H2)%run_ebind ->. destruct r1 as [e|raw]; [by destruct H2|].
  assert (∀ s, valid_schema s = true → run env (Ret (validateIFMSchema configured s)) w1 (inr z) w' tr2 → valid_schema z = true) as Hv.
  { intros s Hs (E & _). unfold validateIFMSchema in E. by destruct (_ && _); simplify_eq. }
  destruct raw as [raw|]; [|by eapply (Hv redisIFMSchemaLegacy)].
  destruct (Atoi raw) as [s|]; [|by destruct H2]. destruct (valid_schema s) eqn:E; [by eapply (Hv s)|by destruct H2].
Qed.

Lemma run_refresh configured w r w' tr z : configuration configured →
  run env (refreshSchemaVersion configured) w r w' tr → r = inr z → valid_schema z = true.
Proof.
  unfold refreshSchemaVersion. intros Hc Hr ->. destruct (Z.eqb_spec configured 0) as [E|E]; cbn [negb] in Hr.
  - apply run_ebind in Hr as (r1 & w1 & tr1 & tr2 & H1 & -> & H2). destruct r1 as [e|s]; [by destruct H2|].
    apply run_bind in H2 as (u & w2 & tr3 & tr4 & _ & (E' & _) & _). simplify_eq. by eapply run_readIFMSchema.
  - destruct Hr as (E' & _). simplify_eq. by destruct Hc.
Qed.
End changes.

(** ** Lemmas: alone with a reliable server

    The answers are determined; only the order of maps is not. *)
Section alone.
  Context `{RedisServer} `{!RedisDocumented}.

Lemma interference_quiet w w' : wWatch w = None → interference quiet w w' → w' = w.
Proof.
  intros Hw [Hr Hi]. rewrite Hw in Hi. destruct w as [d z x], w' as [d' z' x']. simpl in *. subst x.
  destruct x'; [done|]. by inversion Hr; simplify_eq.
Qed.

Lemma answered_quiet {A} (exec : db → redisResult A * db) d z x w' tr : answered quiet exec (mkWorld d z None) x w' tr →
  x = (exec d).1 ∧ w' = mkWorld (exec d).2 z None.
Proof.
  unfold answered. simpl. destruct (exec d) as [r d']. intros [(Hx & -> & _)|(? & _)]; [|done].
  destruct Hx as [->|[? _]]; [done|done].
Qed.

Lemma run_quiet_ask {X} (e : event X) d z x w' tr : run quiet (ask e) (mkWorld d z None) x w' tr →
  ∃ tr', step quiet e (mkWorld d z None) x w' tr'.
Proof.
  intros (w0 & x' & w1 & tr1 & tr2 & Hi & Hs & (-> & -> & _) & _). apply interference_quiet in Hi as ->; [|done]. by exists tr1.
Qed.

Lemma run_quiet_redis {A} (c : cmd A) d z r w' tr : run quiet (redis c) (mkWorld d z None) r w' tr →
  r = lift (documented c d).1 ∧ w' = mkWorld (documented c d).2 z None.
Proof.
  intros (x & w1 & tr1 & tr2 & [tr' Hs]%run_quiet_ask & (-> & -> & _) & _)%run_bind.
  apply answered_quiet in Hs as [-> ->]. by rewrite redis_documented.
Qed.

Lemma run_quiet_eval p d z r w' tr : run quiet (eval p) (mkWorld d z None) r w' tr →
  r = lift (run_lua p d).1 ∧ w' = mkWorld (run_lua p d).2 z None.
Proof.
  intros (x & w1 & tr1 & tr2 & [tr' Hs]%run_quiet_ask & (-> & -> & _) & _)%run_bind. by apply answered_quiet in Hs as [-> ->].
Qed.

Lemma run_quiet_tx cs d z r w' tr : run quiet (tx_pipeline cs) (mkWorld d z None) r w' tr →
  r = lift (exec_all cs d).1 ∧ w' = mkWorld (exec_all cs d).2 z None.
Proof.
  intros (x & w1 & tr1 & tr2 & [tr' Hs]%run_quiet_ask & (-> & -> & _) & _)%run_bind. by apply answered_quiet in Hs as [-> ->].
Qed.

Lemma run_quiet_schemaVersion d z r w' tr : run quiet schemaVersion (mkWorld d z None) r w' tr →
  r = (if (z =? redisIFMSchemaV2)%Z then redisIFMSchemaV2 else redisIFMSchemaLegacy) ∧ w' = mkWorld d z None.
Proof.
  by intros (x & w1 & tr1 & tr2 & [tr' (-> & -> & _)]%run_quiet_ask & (-> & -> & _) & _)%run_bind.
Qed.

Lemma run_quiet_order {A} (l : list A) d z l' w' tr : run quiet (ask (Order l)) (mkWorld d z None) l' w' tr →
  l' ≡ₚ l ∧ w' = mkWorld d z None.
Proof. by intros [tr' (Hp & -> & _)]%run_quiet_ask. Qed.
End alone.
