(* ===== verification/OfflineQueue.v ===== *)
(** The offline queue of the session store: what QueueOfflineInflight does to
    Redis, under any interference, and that a message is queued whenever a packet
    ID is free. *)

From S2P Require Import Prelude GoStrings Acl Topics Base64 Decimal Codec Properties Packets Json Storage Redis Router Placement Session Auth RedisSession.

Section queue.
  Context `{RedisServer} `{!RedisDocumented} (env : environment).

(** ** Lemmas: the choice of a packet ID *)

(** The ID that a counter stands for. *)
Definition id_of (counter : Z) : N := Z.to_N ((counter - 1) mod 65535 + 1).

Lemma id_of_bounds n : (1 <= id_of n <= 65535)%N.
Proof. unfold id_of. pose proof (Z.mod_pos_bound (n - 1) 65535 ltac:(lia)). lia. Qed.

Lemma packet_id_of_id n : (1 <= n)%Z → packet_id_of n = id_of n.
Proof.
  intros Hn. unfold packet_id_of, id_of. rewrite Z.rem_mod_nonneg by lia. pose proof (Z.mod_pos_bound (n - 1) 65535 ltac:(lia)).
  rewrite (Z.mod_small ((n - 1) mod 65535)) by lia. by rewrite Z.mod_small by lia.
Qed.

(** Whether the hash has a message under the ID. *)
Definition id_used (h : gmap string string) (prefix : string) (id : N) : bool :=
  present h (prefix +:+ FormatUint id) || (negb (String.eqb prefix "") && present h (FormatUint id)).

Fixpoint first_free (h : gmap string string) (prefix : string) (counter offset : Z) (n : nat) : Z :=
  match n with
  | O => 0
  | S n => if id_used h prefix (id_of (counter + offset + 1)) then first_free h prefix counter (offset + 1) n
           else (counter + offset + 1)%Z
  end.

Lemma run_next_counter_loop key prefix counter offset n d h : hash_at d key = inr h →
  run_lua (next_counter_loop key prefix counter offset n) d = (inr (first_free h prefix counter offset n), d).
Proof.
  intros Hh. revert offset. induction n as [|n IH]; intros offset; [done|]. cbn [next_counter_loop run_lua first_free].
  rewrite redis_documented. cbn [documented]. rewrite Hh. cbn [with_type].
  assert (Itoa ((counter + offset) mod 65535 + 1) = FormatUint (id_of (counter + offset + 1))) as ->.
  { unfold id_of. replace (counter + offset + 1 - 1)%Z with (counter + offset)%Z by lia.
    rewrite <-Itoa_of_N, Z2N.id; [done|]. pose proof (Z.mod_pos_bound (counter + offset) 65535 ltac:(lia)). lia. }
  unfold id_used. destruct (present h (prefix +:+ _)); [apply IH|]. destruct (String.eqb prefix ""); [done|]. simpl.
  rewrite redis_documented. cbn [documented]. rewrite Hh. cbn [with_type]. by destruct (present h (FormatUint _)).
Qed.

Lemma first_free_spec h prefix counter offset n : (0 <= counter + offset)%Z →
  let z := first_free h prefix counter offset n in
  (z = 0 ∧ ∀ i : Z, (0 <= i < Z.of_nat n)%Z → id_used h prefix (id_of (counter + offset + i + 1)) = true)%Z ∨
  (∃ i, (0 <= i < Z.of_nat n)%Z ∧ z = (counter + offset + i + 1)%Z ∧ id_used h prefix (id_of z) = false ∧
     ∀ j, (0 <= j < i)%Z → id_used h prefix (id_of (counter + offset + j + 1)) = true).
Proof.
  revert offset. induction n as [|n IH]; intros offset Ho; cbn [first_free]; [left; split; [done|lia]|].
  destruct (id_used h prefix (id_of (counter + offset + 1))) eqn:E.
  - destruct (IH (offset + 1)%Z ltac:(lia)) as [[Hz Hall]|(i & Hi & Hz & Hf & Hall)]; [left|right].
    + split; [done|]. intros i Hi. destruct (decide (i = 0)%Z) as [->|]; [by rewrite Z.add_0_r|].
      replace (counter + offset + i + 1)%Z with (counter + (offset + 1) + (i - 1) + 1)%Z by lia. apply Hall. lia.
    + exists (i + 1)%Z. split_and!; [lia|lia|lia|done|]. intros j Hj. destruct (decide (j = 0)%Z) as [->|]; [by rewrite Z.add_0_r|].
      replace (counter + offset + j + 1)%Z with (counter + (offset + 1) + (j - 1) + 1)%Z by lia. apply Hall. lia.
  - right. exists 0%Z. split_and!; [lia|lia|lia|done|lia].
Qed.

(** The answer of the whole script. *)
Definition next_counter (h : gmap string string) (prefix : string) (counter : Z) : Z :=
  if String.eqb prefix "" && (65535 <=? N.of_nat (size h))%N then 0%Z else first_free h prefix counter 0 packet_ids.

Lemma run_next_counter key prefix counter d :
  run_lua (nextOfflinePacketCounterScript key counter prefix) d =
  match hash_at d key with inl e => (inl e, d) | inr h => (inr (next_counter h prefix counter), d) end.
Proof.
  unfold nextOfflinePacketCounterScript, next_counter. destruct (hash_at d key) as [e|h] eqn:Hh.
  - assert (∀ n off, run_lua (next_counter_loop key prefix counter off (S n)) d = (inl e, d)) as Hloop.
    { intros n off. cbn [next_counter_loop run_lua]. rewrite redis_documented. cbn [documented]. by rewrite Hh. }
    destruct (String.eqb prefix "").
    + cbn [run_lua]. rewrite redis_documented. cbn [documented]. by rewrite Hh.
    + unfold packet_ids. change (N.to_nat 65535) with (S (N.to_nat 65534)). apply Hloop.
  - destruct (String.eqb prefix "") eqn:Ep; [|by apply run_next_counter_loop].
    cbn [run_lua]. rewrite redis_documented. cbn [documented]. rewrite Hh. cbn [with_type].
    destruct (65535 <=? N.of_nat (size h))%N; [done|]. by apply run_next_counter_loop.
Qed.

(** Some ID is free unless all 65535 are in use, or the shortcut on the size of a
    schema 1 hash applies. *)
Lemma next_counter_zero h prefix counter : (0 <= counter)%Z → next_counter h prefix counter = 0%Z →
  (prefix = "" ∧ (65535 <= N.of_nat (size h))%N) ∨ ∀ id, (1 <= id <= 65535)%N → id_used h prefix id = true.
Proof.
  intros Hc Hz. unfold next_counter in Hz.
  assert (first_free h prefix counter 0 packet_ids = 0%Z → ∀ id, (1 <= id <= 65535)%N → id_used h prefix id = true) as Hall.
  { intros Hf id Hid. destruct (first_free_spec h prefix counter 0 packet_ids ltac:(lia)) as [[_ Hall]|(i & Hi & E & _)]; [|lia].
    set (i := ((Z.of_N id - 1 - counter) mod 65535)%Z). pose proof (Z.mod_pos_bound (Z.of_N id - 1 - counter) 65535 ltac:(lia)).
    specialize (Hall i). rewrite <-Hall by (unfold packet_ids; rewrite N_nat_Z; unfold i; lia). f_equal. unfold id_of.
    replace (counter + 0 + i + 1 - 1)%Z with (counter + i)%Z by lia. unfold i. rewrite Zplus_mod_idemp_r.
    replace (counter + (Z.of_N id - 1 - counter))%Z with (Z.of_N id - 1)%Z by lia. rewrite Z.mod_small by lia. lia. }
  destruct (String.eqb_spec prefix "") as [->|Hp]; [|by right; apply Hall].
  destruct (N.leb_spec 65535 (N.of_nat (size h))); [by left|right; by apply Hall].
Qed.

(** ** Lemmas: the offline queue *)

(** The schema that the marker stands for, the counter, and the prefix of the
    fields. *)
Definition marker_schema (d : db) : option Z :=
  match string_at d redisIFMSchemaKey with
  | inr None => Some redisIFMSchemaLegacy
  | inr (Some raw) => let schema := default 0%Z (Atoi raw) in if valid_schema schema then Some schema else None
  | inl _ => None
  end.
Definition counter_at (d : db) (clientID : string) : option Z :=
  match string_at d (redisPacketIDKey clientID) with
  | inr None => Some 0%Z
  | inr (Some raw) => ParseInt raw
  | inl _ => None
  end.
Definition field_prefix (schema : Z) : string := if (schema =? redisIFMSchemaLegacy)%Z then "" else "out:".

(** What the transaction relies on. *)
Definition planned (configured : Z) (dedupKey : option string) (clientID : string) (d : db) (schema next : Z) : Prop :=
  marker_schema d = Some schema ∧ validateIFMSchema configured schema = inr schema ∧
  (∀ k, dedupKey = Some k → d !! k = None) ∧
  ∃ counter h, counter_at d clientID = Some counter ∧ hash_at d (redisInflightKey clientID) = inr h ∧
    next = next_counter h (field_prefix schema) counter ∧ next ≠ 0%Z.

Lemma planned_agree configured dedupKey clientID d d' schema next :
  agree (watch_keys dedupKey clientID) d d' → planned configured dedupKey clientID d' schema next →
  planned configured dedupKey clientID d schema next.
Proof.
  unfold agree, watch_keys. intros Ha (Hm & Hv & Hd & counter & h & Hc & Hh & Hn).
  assert (d !! redisInflightKey clientID = d' !! redisInflightKey clientID) as E1 by (apply Ha; set_solver).
  assert (d !! redisPacketIDKey clientID = d' !! redisPacketIDKey clientID) as E2 by (apply Ha; set_solver).
  assert (d !! redisIFMSchemaKey = d' !! redisIFMSchemaKey) as E3 by (apply Ha; set_solver).
  unfold planned, marker_schema, counter_at, hash_at, string_at in *. rewrite E1, E2, E3. split_and!; [done|done| |].
  - intros k ->. rewrite Ha by set_solver. auto.
  - by exists counter, h.
Qed.

Lemma count_true_single b : (count_true [b] =? 0)%N = negb b.
Proof. by destruct b. Qed.

Lemma queue_plan_reading configured dedupKey clientID d0 :
  reading env (watch_keys dedupKey clientID) d0 (queue_plan configured dedupKey clientID)
    (λ '(schema, next), planned configured dedupKey clientID d0 schema next).
Proof.
  set (ks := watch_keys dedupKey clientID). unfold queue_plan.
  assert (∀ k, k ∈ ks → ∀ d, agree ks d d0 → d !! k = d0 !! k) as Hag by (intros k Hk d Ha; by apply Ha).
  assert (redisInflightKey clientID ∈ ks ∧ redisPacketIDKey clientID ∈ ks ∧ redisIFMSchemaKey ∈ ks) as (K1 & K2 & K3)
    by (unfold ks, watch_keys; set_solver).
  eapply (reading_bind _ _ _ _ _ (λ m, string_at d0 redisIFMSchemaKey = inr m)).
  { apply reading_redis; [intros d; simpl; by destruct (string_at d _)|]. intros d m Ha. simpl. unfold string_at.
    rewrite (Hag _ K3 d Ha). destruct (d0 !! redisIFMSchemaKey) as [[]|]; simpl; congruence. }
  intros marker. eapply (reading_bind _ _ _ _ _ (λ schema, string_at d0 redisIFMSchemaKey = inr marker → marker_schema d0 = Some schema)).
  { unfold marker_schema. destruct marker as [marker|]; [|apply reading_ok; by intros ->].
    destruct (valid_schema (default 0%Z (Atoi marker))) eqn:Ev; [|apply reading_error]. apply reading_ok. intros ->. by rewrite Ev. }
  intros schema. eapply (reading_bind _ _ _ _ _ (λ s, validateIFMSchema configured schema = inr s)).
  { destruct (validateIFMSchema configured schema) as [e|s'] eqn:Ev; [apply reading_error|by apply reading_ok]. }
  intros s1. apply reading_ask; [intros w x w' tr [-> ->]; done|]. intros [].
  eapply (reading_bind _ _ _ _ _ (λ _, ∀ k, dedupKey = Some k → d0 !! k = None)).
  { destruct dedupKey as [k|]; [|by apply reading_ok].
    eapply (reading_bind _ _ _ _ _ (λ n, (n =? 0)%N = true → d0 !! k = None)).
    - apply reading_redis; [done|]. intros d n Ha [= <-]. simpl. rewrite count_true_single. unfold present. intros Hn.
      apply negb_true_iff, bool_decide_eq_false, eq_None_not_Some in Hn.
      rewrite <-(Hag k ltac:(unfold ks, watch_keys; set_solver) d Ha). done.
    - intros n. destruct (n =? 0)%N; [|apply reading_error]. apply reading_ok. intros Hn k' [= <-]. auto. }
  intros _. eapply (reading_bind _ _ _ _ _ (λ c, string_at d0 (redisPacketIDKey clientID) = inr c)).
  { apply reading_redis; [intros d; simpl; by destruct (string_at d _)|]. intros d m Ha. simpl. unfold string_at.
    rewrite (Hag _ K2 d Ha). destruct (d0 !! redisPacketIDKey clientID) as [[]|]; simpl; congruence. }
  intros raw. eapply (reading_bind _ _ _ _ _ (λ c, string_at d0 (redisPacketIDKey clientID) = inr raw → counter_at d0 clientID = Some c)).
  { unfold counter_at. destruct raw as [raw|]; [|apply reading_ok; by intros ->].
    destruct (ParseInt raw) eqn:Ep; [|apply reading_error]. apply reading_ok. by intros ->. }
  intros counter. fold (field_prefix schema).
  eapply (reading_bind _ _ _ _ _ (λ n, ∃ h, hash_at d0 (redisInflightKey clientID) = inr h ∧ n = next_counter h (field_prefix schema) counter)).
  { unfold nextOfflinePacketCounter. apply reading_ask; [intros w x w' tr (_ & -> & ->); done|]. intros []; [apply reading_error|].
    eapply (reading_bind _ _ _ _ _ (λ n, ∃ h, hash_at d0 (redisInflightKey clientID) = inr h ∧ n = next_counter h (field_prefix schema) counter)).
    - apply reading_eval; [intros d; rewrite run_next_counter; by destruct (hash_at d _)|].
      intros d n Ha. rewrite run_next_counter. unfold hash_at. rewrite (Hag _ K1 d Ha). intros E.
      destruct (d0 !! redisInflightKey clientID) as [[]|]; simpl in *; simplify_eq; eauto.
    - intros n. apply reading_ask; [intros w x w' tr (_ & -> & ->); done|]. intros []; [apply reading_error|by apply reading_ok]. }
  intros next. destruct (Z.eqb_spec next 0) as [|Hn0]; [apply reading_error|]. apply reading_ok.
  intros (h & Hh & ->) Hc Hc' Hd Hv Hm Hm'. split_and!; [auto| |done|by exists counter, h; auto].
  unfold validateIFMSchema in *. by destruct (_ && _); simplify_eq.
Qed.

(** The database after the transaction. *)
Definition enqueue (dedupKey : option string) (clientID : string) (field data : string) (next : Z) (h : gmap string string)
    (d : db) : db :=
  let d := put_hash (redisInflightKey clientID) (<[field := data]> h) (<[redisPacketIDKey clientID := RString (Itoa next)]> d) in
  match dedupKey with Some k => <[k := RString "1"]> d | None => d end.

Lemma keys_differ clientID : redisPacketIDKey clientID ≠ redisInflightKey clientID.
Proof. done. Qed.

Lemma exec_set_cmds clientID dedupKey next schema id data ttl d h : hash_at d (redisInflightKey clientID) = inr h →
  exec_all (set_cmds (redisPacketIDKey clientID) (redisInflightKey clientID) dedupKey next schema id data ttl) d =
  (inr tt, enqueue dedupKey clientID (offline_field schema id) data next h d).
Proof.
  intros Hh. unfold set_cmds. cbn [app exec_all]. rewrite redis_documented. cbn [documented].
  rewrite redis_documented. cbn [documented]. assert (hash_at (<[redisPacketIDKey clientID := RString (Itoa next)]> d) (redisInflightKey clientID) = inr h) as ->.
  { unfold hash_at in *. by rewrite lookup_insert_ne. }
  cbn [with_type]. unfold enqueue. destruct dedupKey as [k|]; cbn [exec_all]; [|done]. by rewrite redis_documented.
Qed.

(** One message was added, under an ID that nothing used, in the format of the
    schema in force, and only if the publish was not yet marked delivered. *)
Definition enqueued (configured : Z) (dedupKey : option string) (clientID : string) (msg : InflightMessage) (id : N)
    (d1 d2 : db) : Prop :=
  ∃ schema counter h next now,
    marker_schema d1 = Some schema ∧ validateIFMSchema configured schema = inr schema ∧
    (∀ k, dedupKey = Some k → d1 !! k = None) ∧
    counter_at d1 clientID = Some counter ∧ hash_at d1 (redisInflightKey clientID) = inr h ∧
    ((0 <= counter)%Z → (counter < next <= counter + 65535)%Z ∧ (1 <= id <= 65535)%N ∧ id_used h (field_prefix schema) id = false) ∧
    d2 = enqueue dedupKey clientID (offline_field schema id)
           (Message_MarshalBinary (offline_message clientID id msg now)) next h d1.

Lemma planned_enqueued configured dedupKey clientID msg schema next now d h :
  planned configured dedupKey clientID d schema next → hash_at d (redisInflightKey clientID) = inr h →
  enqueued configured dedupKey clientID msg (packet_id_of next) d
    (enqueue dedupKey clientID (offline_field schema (packet_id_of next))
       (Message_MarshalBinary (offline_message clientID (packet_id_of next) msg now)) next h d).
Proof.
  intros (Hm & Hv & Hd & counter & h' & Hc & Hh' & Hn & Hn0) Hh. rewrite Hh in Hh'. injection Hh' as <-.
  exists schema, counter, h, next, now. split_and!; try done. intros Hpos. unfold next_counter in Hn.
  destruct (_ && _); [done|]. destruct (first_free_spec h (field_prefix schema) counter 0 packet_ids ltac:(lia))
    as [[Hz _]|(i & Hi & Hz & Hf & _)]; [congruence|]. rewrite <-Hn in Hz, Hf.
  rewrite packet_id_of_id by lia. pose proof (id_of_bounds next). unfold packet_ids in Hi. rewrite N_nat_Z in Hi. split_and!; try done; lia.
Qed.

(** What a run of the transaction did. *)
Definition tx_effect (configured : Z) (dedupKey : option string) (clientID : string) (msg : InflightMessage) (r : result N)
    (tr : list (db * db)) : Prop :=
  match r with
  | inr id => ∃ d1 d2, tr = effect d1 d2 ∧ enqueued configured dedupKey clientID msg id d1 d2
  | inl e => tr = [] ∨ (e ≠ ETxFailed ∧ e ≠ EAlreadyDelivered ∧
                        ∃ id d1 d2, tr = effect d1 d2 ∧ enqueued configured dedupKey clientID msg id d1 d2)
  end.

Lemma queue_tx_effect configured dedupKey clientID ttl msg d0 w r w' tr :
  watching (watch_keys dedupKey clientID) d0 w → run env (queue_tx configured dedupKey clientID ttl msg) w r w' tr →
  tx_effect configured dedupKey clientID msg r tr.
Proof.
  intros Hw (r1 & w1 & tr1 & tr2 & H1 & -> & H2)%run_ebind.
  destruct (queue_plan_reading configured dedupKey clientID d0 _ _ _ _ Hw H1) as (-> & Hw1 & _ & HP).
  destruct r1 as [e|[schema next]]; [destruct H2 as (-> & -> & ->); by left|]. cbn [app].
  apply run_bind in H2 as (data & w2 & tr3 & tr4 & H2 & H3 & ->).
  apply run_bind in H2 as (now & w3 & tr5 & tr6 & H2 & (-> & -> & ->) & ->).
  destruct H2 as (wa & now' & wb & tr7 & tr8 & Hi & (-> & ->) & (-> & -> & ->) & ->).
  destruct (watching_interference env _ _ _ _ Hi Hw1) as [Hw2 Hc2].
  apply run_bind in H3 as (x & w4 & tr9 & tr10 & H3 & H4 & ->).
  destruct H3 as (wc & x' & wd & tr11 & tr12 & Hi' & Hs & (-> & -> & ->) & ->).
  destruct (watching_interference env _ _ _ _ Hi' Hw2) as [Hw3 Hc3]. cbn [app]. rewrite app_nil_r. cbn [step] in Hs.
  set (cmds := set_cmds _ _ _ _ _ _ _ _) in Hs. destruct (exec_all cmds (wDb wc)) as [rx d] eqn:Ex.
  destruct Hs as [(Hcl & Hx & -> & ->)|[(_ & -> & -> & ->)|(_ & -> & -> & ->)]].
  - assert (planned configured dedupKey clientID (wDb wc) schema next) as Hpl.
    { eapply planned_agree; [by apply clean_agree|]. apply (HP _ eq_refl). auto. }
    pose proof Hpl as (_ & _ & _ & counter & h & _ & Hh & _). unfold cmds in Ex.
    rewrite (exec_set_cmds _ _ _ _ _ _ _ _ h Hh) in Ex. injection Ex as <- <-.
    pose proof (planned_enqueued configured dedupKey clientID msg schema next now' (wDb wc) h Hpl Hh) as He.
    destruct Hx as [->|[_ ->]]; simpl in H4; destruct H4 as (-> & -> & ->); rewrite app_nil_r; simpl; [by eexists _, _|].
    right. split_and!; try done. by eexists _, _, _.
  - destruct H4 as (-> & -> & ->). by left.
  - destruct H4 as (-> & -> & ->). by left.
Qed.

Lemma queue_attempts_effect n configured dedupKey clientID ttl msg w r w' tr :
  run env (queue_attempts n configured dedupKey clientID ttl msg) w r w' tr →
  match r with
  | inr (id, true) => ∃ d1 d2, tr = effect d1 d2 ∧ enqueued configured dedupKey clientID msg id d1 d2
  | inr (_, false) => tr = []
  | inl _ => tr = [] ∨ ∃ id d1 d2, tr = effect d1 d2 ∧ enqueued configured dedupKey clientID msg id d1 d2
  end.
Proof.
  revert w r w' tr. induction n as [|n IH]; intros w r w' tr; [intros (-> & -> & ->); by left|].
  cbn [queue_attempts]. intros (r1 & w1 & tr1 & tr2 & H1 & H2 & ->)%run_bind.
  assert (tx_effect configured dedupKey clientID msg r1 tr1) as He.
  { apply run_ebind in H1 as (rw & w2 & tr3 & tr4 & H1 & -> & H3).
    apply run_bind in H1 as (x & w3 & tr5 & tr6 & H1 & (-> & -> & ->) & ->).
    destruct H1 as (wa & x' & wb & tr7 & tr8 & Hi & Hs & (-> & -> & ->) & ->).
    cbn [step] in Hs. destruct Hs as (-> & [[-> ->]|(_ & -> & ->)]); cbn [lift] in H3; cbn [app].
    - eapply (queue_tx_effect _ _ _ _ _ (wDb wa)); [|exact H3]. exists false. split; [done|]. intros _ k _. done.
    - destruct H3 as (-> & -> & ->). by left. }
  destruct r1 as [e|id]; [|destruct H2 as (-> & -> & ->); by rewrite app_nil_r].
  destruct He as [->|(Hn1 & Hn2 & He)].
  - destruct e; try (destruct H2 as (-> & -> & ->); by left); [by destruct H2 as (-> & -> & ->)|].
    cbn [app]. apply run_bind in H2 as (cut & w2 & tr3 & tr4 & H2 & H3 & ->).
    assert (tr3 = []) as ->.
    { destruct n; [by destruct H2 as (_ & _ & ->)|]. by destruct H2 as (wa & x' & wb & tr7 & tr8 & Hi & (_ & -> & ->) & (-> & -> & ->) & ->). }
    destruct cut; [destruct H3 as (-> & -> & ->); by left|]. by apply IH in H3.
  - destruct e; try done; destruct H2 as (-> & -> & ->); rewrite app_nil_r; by right.
Qed.
(** ** Lemmas: queueing without interference *)

Lemma queue_plan_performed now uuid configured dedupKey clientID d hint watch schema next :
  planned configured dedupKey clientID d schema next →
  perform now uuid (queue_plan configured dedupKey clientID) (mkWorld d hint watch) = (inr (schema, next), mkWorld d schema watch).
Proof.
  intros (Hm & Hv & Hd & counter & h & Hc & Hh & Hn & Hn0). unfold queue_plan, marker_schema, counter_at in *.
  rewrite perform_ebind, (perform_read _ _ _ _ (string_at d redisIFMSchemaKey)) by (simpl; by destruct (string_at d _)).
  destruct (string_at d redisIFMSchemaKey) as [|marker]; [done|]. cbn [lift]. rewrite perform_ebind.
  assert (perform now uuid (match marker with
    | None => ok redisIFMSchemaLegacy
    | Some marker => if valid_schema (default 0%Z (Atoi marker)) then ok (default 0%Z (Atoi marker)) else error (EInvalidMarker marker)
    end) (mkWorld d hint watch) = (inr schema, mkWorld d hint watch)) as ->.
  { destruct marker as [marker|]; [|by injection Hm as <-]. destruct (valid_schema _); [by injection Hm as <-|done]. }
  rewrite perform_ebind, Hv. cbn [perform]. rewrite perform_bind. cbn [perform setSchemaVersion ask].
  rewrite perform_ebind. change ((mkWorld d hint watch) <| wHint := schema |>) with (mkWorld d schema watch).
  assert (perform now uuid (match dedupKey with
    | None => ok tt
    | Some k => n ⇐ redis (EXISTS [k]); if (n =? 0)%N then ok tt else error EAlreadyDelivered
    end) (mkWorld d schema watch) = (inr tt, mkWorld d schema watch)) as ->.
  { destruct dedupKey as [k|]; [|done]. rewrite perform_ebind, (perform_read _ _ _ _ (inr (count_true [present d k]))) by done.
    cbn [lift]. rewrite count_true_single. unfold present. by rewrite bool_decide_eq_false_2 by (rewrite (Hd k eq_refl); by intros [? ?]). }
  rewrite perform_ebind, (perform_read _ _ _ _ (string_at d (redisPacketIDKey clientID))) by (simpl; by destruct (string_at d _)).
  destruct (string_at d (redisPacketIDKey clientID)) as [|raw]; [done|]. cbn [lift]. rewrite perform_ebind.
  assert (perform now uuid (match raw with
    | None => ok 0%Z
    | Some s => match ParseInt s with Some n => ok n | None => error EBadCounter end
    end) (mkWorld d schema watch) = (inr counter, mkWorld d schema watch)) as ->.
  { destruct raw as [raw|]; [by rewrite Hc|by injection Hc as <-]. }
  fold (field_prefix schema). rewrite perform_ebind. unfold nextOfflinePacketCounter. rewrite perform_bind. cbn [perform ask].
  rewrite perform_ebind, (perform_eval _ _ _ _ (inr next)) by (rewrite run_next_counter; cbn [wDb]; by rewrite Hh, <-Hn).
  cbn [lift]. rewrite perform_bind. cbn [perform ask ok]. by destruct (Z.eqb_spec next 0).
Qed.

Lemma queue_tx_performed now uuid configured dedupKey clientID ttl msg d hint watch schema next h :
  planned configured dedupKey clientID d schema next → hash_at d (redisInflightKey clientID) = inr h →
  let id := packet_id_of next in
  perform now uuid (queue_tx configured dedupKey clientID ttl msg) (mkWorld d hint (Some (watch, false))) =
  (inr id, mkWorld (enqueue dedupKey clientID (offline_field schema id)
                      (Message_MarshalBinary (offline_message clientID id msg now)) next h d) schema None).
Proof.
  intros Hp Hh id. unfold queue_tx. rewrite perform_ebind, (queue_plan_performed _ _ _ _ _ _ _ _ schema next) by done.
  cbv zeta. rewrite perform_bind. unfold marshalOfflineInflight. rewrite perform_bind. cbn [perform ask]. rewrite perform_bind.
  cbn [perform ask wWatch wDb wHint]. fold id. by rewrite (exec_set_cmds _ _ _ _ _ _ _ _ h Hh).
Qed.

(** The lock and the cancelled context leave the database alone. *)
Lemma run_queue configured publishID clientID ttl msg w r w' tr :
  run env (QueueOfflineInflight configured publishID clientID ttl msg) w r w' tr →
  let dedupKey := if String.eqb publishID uuid_Nil then None else Some (dedup_key publishID clientID) in
  match r with
  | inr (id, true) => ∃ d1 d2, tr = effect d1 d2 ∧ enqueued configured dedupKey clientID msg id d1 d2
  | inr (_, false) => tr = []
  | inl _ => tr = [] ∨ ∃ id d1 d2, tr = effect d1 d2 ∧ enqueued configured dedupKey clientID msg id d1 d2
  end.
Proof.
  intros (b & w1 & tr1 & tr2 & H1 & H2 & ->)%run_bind dedupKey.
  destruct H1 as (wa & b' & wb & tra & trb & _ & (_ & -> & ->) & (-> & -> & ->) & ->).
  destruct b'; [destruct H2 as (-> & -> & ->); by left|].
  apply run_bind in H2 as (l & w2 & tr3 & tr4 & H1 & H2 & ->).
  destruct H1 as (wc & l' & wd & trc & trd & _ & (_ & -> & ->) & (-> & -> & ->) & ->).
  destruct l'; [|destruct H2 as (-> & -> & ->); by left]. cbn [negb] in H2.
  apply run_bind in H2 as (r1 & w3 & tr5 & tr6 & H2 & H3 & ->).
  apply run_bind in H3 as (u & w4 & tr7 & tr8 & H3 & (-> & -> & ->) & ->).
  destruct H3 as (we & u' & wf & tre & trf & _ & (-> & ->) & (-> & -> & ->) & ->).
  cbn [app]. rewrite !app_nil_r. by apply queue_attempts_effect in H2.
Qed.
End queue.

(** ** Claims *)

(** C1: queueing a message for an offline client is atomic and never overwrites,
    whatever other nodes, other goroutines and the network do meanwhile. Over a
    whole call the database changes at most once, and that change adds exactly
    one message under a packet ID in 1..65535 that no stored message used, in the
    field format of the schema in force at that moment, advances the counter, and
    marks the publish delivered, which it was not before. A call that reports the
    message queued made that change; one that reports a duplicate changed nothing. *)
Theorem offline_enqueue_is_atomic `{RedisServer} `{!RedisDocumented} env configured publishID clientID ttl msg w r w' tr :
  run env (QueueOfflineInflight configured publishID clientID ttl msg) w r w' tr →
  let dedupKey := if String.eqb publishID uuid_Nil then None else Some (dedup_key publishID clientID) in
  match r with
  | inr (id, true) => ∃ d1 d2, tr = effect d1 d2 ∧ enqueued configured dedupKey clientID msg id d1 d2
  | inr (_, false) => tr = []
  | inl _ => tr = [] ∨ ∃ id d1 d2, tr = effect d1 d2 ∧ enqueued configured dedupKey clientID msg id d1 d2
  end.
Proof. apply run_queue. Qed.

Definition example_world : world := mkWorld ∅ 0 None.
Definition example_message : InflightMessage := mkInflightMessage "t/1/down" "on" 1.

Lemma offline_enqueue_is_atomic_witness :
  ∃ tr d1 d2, tr = effect d1 d2 ∧ enqueued 0 (Some (dedup_key "e1" "dev")) "dev" example_message 1 d1 d2 ∧
    @run memory hostile _ (QueueOfflineInflight 0 "e1" "dev" 60 example_message) example_world (inr (1%N, true))
      (@perform memory _ 0 "" (QueueOfflineInflight 0 "e1" "dev" 60 example_message) example_world).2 tr.
Proof.
  destruct (@perform_run memory hostile _ 0 "" (QueueOfflineInflight 0 "e1" "dev" 60 example_message) example_world) as [tr Hr].
  assert ((@perform memory _ 0 "" (QueueOfflineInflight 0 "e1" "dev" 60 example_message) example_world).1 = inr (1%N, true)) as E
    by (vm_compute; reflexivity).
  rewrite E in Hr. destruct (@offline_enqueue_is_atomic memory _ _ _ _ _ _ _ _ _ _ _ Hr) as (d1 & d2 & H1 & H2). by exists tr, d1, d2.
Defined.

(** A message is queued whenever a packet ID is free. When the marker is valid
    and agrees with the configured schema, the publish was not delivered before
    and one of the 65535 IDs is unused, a call without interference queues the
    message under the first unused ID after the counter and reports success; a
    schema 1 hash must also hold fewer than 65535 fields. *)
Theorem offline_enqueue_succeeds `{RedisServer} `{!RedisDocumented} now uuid configured publishID clientID ttl msg d hint watch
    schema counter h :
  let dedupKey := if String.eqb publishID uuid_Nil then None else Some (dedup_key publishID clientID) in
  marker_schema d = Some schema → validateIFMSchema configured schema = inr schema →
  (∀ k, dedupKey = Some k → d !! k = None) →
  counter_at d clientID = Some counter → (0 <= counter)%Z → hash_at d (redisInflightKey clientID) = inr h →
  (∃ id, (1 <= id <= 65535)%N ∧ id_used h (field_prefix schema) id = false) →
  (schema = redisIFMSchemaLegacy → N.of_nat (size h) < 65535)%N →
  ∃ next, (counter < next)%Z ∧ (∀ n, (counter < n < next)%Z → id_used h (field_prefix schema) (id_of n) = true) ∧
    let id := id_of next in
    id_used h (field_prefix schema) id = false ∧
    perform now uuid (QueueOfflineInflight configured publishID clientID ttl msg) (mkWorld d hint watch) =
    (inr (id, true), mkWorld (enqueue dedupKey clientID (offline_field schema id)
       (Message_MarshalBinary (offline_message clientID id msg now)) next h d) schema None).
Proof.
  intros dedupKey Hm Hv Hd Hc Hpos Hh (id & Hid & Hfree) Hsize.
  assert (next_counter h (field_prefix schema) counter ≠ 0%Z) as Hn0.
  { intros Hz. destruct (next_counter_zero _ _ _ Hpos Hz) as [[Hp Hs]|Hall]; [|by rewrite Hall in Hfree].
    unfold field_prefix in Hp. destruct (Z.eqb_spec schema redisIFMSchemaLegacy); [|done]. lia. }
  set (next := next_counter h (field_prefix schema) counter) in *.
  assert (planned configured dedupKey clientID d schema next) as Hplan by (split_and!; eauto 10).
  assert (next = first_free h (field_prefix schema) counter 0 packet_ids) as Hff.
  { unfold next, next_counter in *. by destruct (_ && _). }
  destruct (first_free_spec h (field_prefix schema) counter 0 packet_ids ltac:(lia)) as [[Hz _]|(i & Hi & Hz & Hf & Hall)]; [congruence|].
  rewrite <-Hff in Hz, Hf. exists next. cbv zeta. split_and!; [lia| |done|].
  - intros n Hn. replace n with (counter + 0 + (n - counter - 1) + 1)%Z by lia. apply Hall. lia.
  - unfold QueueOfflineInflight. rewrite perform_bind. cbn [perform ask]. rewrite perform_bind. cbn [perform ask negb].
    rewrite perform_bind. fold dedupKey. cbn [queue_attempts]. rewrite perform_bind, perform_ebind, perform_bind.
    cbn [perform ask lift]. change ((mkWorld d hint watch) <| wWatch := ?x |>) with (mkWorld d hint x).
    rewrite (queue_tx_performed _ _ _ _ _ _ _ _ _ _ schema next h Hplan Hh). rewrite packet_id_of_id by lia. cbn [perform ok].
    by rewrite perform_bind.
Qed.

Lemma offline_enqueue_succeeds_witness : ∃ next,
  let id := id_of next in
  @perform memory _ 0 "" (QueueOfflineInflight 0 "e1" "dev" 60 example_message) example_world =
  (inr (id, true), mkWorld (enqueue (Some (dedup_key "e1" "dev")) "dev" (offline_field 1 id)
     (Message_MarshalBinary (offline_message "dev" id example_message 0)) next ∅ ∅) 1 None).
Proof.
  destruct (@offline_enqueue_succeeds memory _ 0 "" 0 "e1" "dev" 60 example_message ∅ 0 None 1 0 ∅) as (next & _ & _ & _ & H);
    try done; try (by exists 1%N). by exists next.
Defined.
