(* ===== verification/InflightStore.v ===== *)
(** The inflight messages of the session store: the schema fence, the migration
    of numeric fields, and that a stored message is read back. *)

From S2P Require Import Prelude GoStrings Acl Topics Base64 Decimal Codec Properties Packets Json Storage Redis Router Placement Session Auth RedisSession OfflineQueue.

(** ** Lemmas: fields *)

Lemma FormatUint_not_directional n : directional (FormatUint n) = false.
Proof.
  destruct (FormatUint_first n) as (c & s & E & Hc). rewrite E. unfold directional.
  destruct c as [[] [] [] [] [] [] [] []]; try done; by destruct Hc.
Qed.

Lemma directional_out s : directional ("out:" +:+ s) = true.
Proof. unfold directional. by rewrite (has_prefix_app "out:"), orb_true_r. Qed.
Lemma directional_in s : directional ("in:" +:+ s) = true.
Proof. unfold directional. by rewrite (has_prefix_app "in:"). Qed.

Lemma inflightFieldKey_directional pk : directional (inflightFieldKey pk) = true.
Proof. unfold inflightFieldKey. destruct (pk_in _ _); [apply directional_in|apply directional_out]. Qed.

Lemma valid_schema_cases schema : valid_schema schema = true → schema = redisIFMSchemaLegacy ∨ schema = redisIFMSchemaV2.
Proof. unfold valid_schema. rewrite orb_true_iff, !Z.eqb_eq. done. Qed.

Lemma write_field_format schema pk : valid_schema schema = true → directional (write_field schema pk) = (schema =? redisIFMSchemaV2)%Z.
Proof.
  intros [-> | ->]%valid_schema_cases; [apply FormatUint_not_directional|apply inflightFieldKey_directional].
Qed.

(** The field of a message under a schema: its number, under schema 2 with the
    direction in front. *)
Definition schema_field (schema : Z) (inbound : bool) (id : N) : string :=
  if (schema =? 2)%Z then (if inbound then "in:" else "out:") +:+ FormatUint id else FormatUint id.

(** ** Lemmas: hashes *)

Lemma hash_at_put k h d : hash_at (put_hash k h d) k = inr h.
Proof.
  unfold hash_at, put_hash. destruct (decide (h = ∅)) as [->|]; [by rewrite lookup_delete_eq|by rewrite lookup_insert_eq].
Qed.

Lemma lookup_put_hash_ne k k' h d : k ≠ k' → put_hash k h d !! k' = d !! k'.
Proof.
  intros Hk. unfold put_hash. destruct (decide (h = ∅)); [by rewrite lookup_delete_ne|by rewrite lookup_insert_ne].
Qed.

Lemma inflight_key_inj c c' : redisInflightKey c = redisInflightKey c' → c = c'.
Proof.
  unfold redisInflightKey, redisClientToken. intros E. do 3 apply string_app_inj_l in E. by apply encode_inj in E.
Qed.

(** The marker lives among the per-client keys: it is the inflight key of a client
    ID that is not UTF-8, which MQTT forbids. *)
Lemma marker_key_not_inflight c : utf8_Valid c = true → redisInflightKey c ≠ redisIFMSchemaKey.
Proof.
  unfold redisInflightKey, redisIFMSchemaKey, redisClientToken. intros Hc E. apply string_app_inj_l in E.
  change ("IFM:SCHEMA") with (InflightKey +:+ ":" +:+ "SCHEMA") in E. do 2 apply string_app_inj_l in E.
  pose proof (decode_encode c) as Hd. rewrite E in Hd. vm_compute in Hd. injection Hd as <-. by vm_compute in Hc.
Qed.

(** ** The schema fence *)

(** A change of [clientID]'s inflight hash under the schema in force: the hash
    changes as [change] says for that schema, and neither the marker nor another
    client's hash changes. *)
Definition fenced (clientID : string) (change : Z → gmap string string → gmap string string → Prop) (d1 d2 : db) : Prop :=
  ∃ schema h1 h2, marker_schema d1 = Some schema ∧
    hash_at d1 (redisInflightKey clientID) = inr h1 ∧ hash_at d2 (redisInflightKey clientID) = inr h2 ∧
    change schema h1 h2 ∧
    d2 !! redisIFMSchemaKey = d1 !! redisIFMSchemaKey ∧
    ∀ c, c ≠ clientID → d2 !! redisInflightKey c = d1 !! redisInflightKey c.

(** The packet is written to its field, and no other field changes. *)
Definition stores (clientID : string) (pk : Packet) (sent : Z) (schema : Z) (h1 h2 : gmap string string) : Prop :=
  let f := schema_field schema (pk_in [Puback; Pubrec; Pubcomp] pk) (pkPacketID pk) in
  h2 = <[f := Message_MarshalBinary (inflight_message clientID f pk sent)]> h1.

(** The field of the packet and its numeric field are removed, and no other field
    changes. *)
Definition removes (inbound : bool) (id : N) (schema : Z) (h1 h2 : gmap string string) : Prop :=
  ∀ f, h2 !! f = if decide (f = schema_field schema inbound id ∨ f = FormatUint id) then None else h1 !! f.

(** The message is written to the outbound field of [id], and no other field changes. *)
Definition queues (clientID : string) (id : N) (msg : InflightMessage) (schema : Z) (h1 h2 : gmap string string) : Prop :=
  ∃ now, h2 = <[schema_field schema false id := Message_MarshalBinary (offline_message clientID id msg now)]> h1.

Lemma write_field_schema schema pk : valid_schema schema = true →
  write_field schema pk = schema_field schema (pk_in [Puback; Pubrec; Pubcomp] pk) (pkPacketID pk).
Proof. by intros [-> | ->]%valid_schema_cases. Qed.

Lemma offline_field_schema schema id : valid_schema schema = true → offline_field schema id = schema_field schema false id.
Proof. by intros [-> | ->]%valid_schema_cases. Qed.

Lemma lookup_foldr_delete (h : gmap string string) fs f : foldr delete h fs !! f = if decide (f ∈ fs) then None else h !! f.
Proof.
  induction fs as [|x fs IH]; cbn [foldr]; [done|]. destruct (decide (x = f)) as [->|Hn].
  - rewrite lookup_delete_eq, decide_True; [done|by left].
  - rewrite lookup_delete_ne, IH by done. apply decide_ext. rewrite elem_of_cons. naive_solver.
Qed.

Lemma delete_fields_remove schema pk (dropped : bool) h : valid_schema schema = true →
  removes (if dropped then pk_in [Puback; Pubrec; Pubrel; Pubcomp] pk else (pkType pk =? Pubrel)%N) (pkPacketID pk) schema h
    (foldr delete h (delete_fields schema pk dropped)).
Proof.
  intros Hv f. rewrite lookup_foldr_delete. apply decide_ext. unfold delete_fields, schema_field.
  destruct (valid_schema_cases schema Hv) as [-> | ->]; cbn [Z.eqb redisIFMSchemaLegacy redisIFMSchemaV2 Pos.eqb].
  - rewrite list_elem_of_singleton. unfold FormatID. tauto.
  - rewrite elem_of_cons, list_elem_of_singleton. by destruct dropped.
Qed.

Section fence.
  Context `{RedisServer} `{!RedisDocumented} (env : environment).
  Context (clientID : string) (Hclient : utf8_Valid clientID = true).

Lemma run_fence {A} schema (reject accept : lua A) d :
  run_lua (fence schema reject accept) d =
  match string_at d redisIFMSchemaKey with
  | inl e => (inl e, d)
  | inr marker => if String.eqb (default "1" marker) schema then run_lua accept d else run_lua reject d
  end.
Proof.
  unfold fence. cbn [run_lua]. rewrite redis_documented. cbn [documented].
  destruct (string_at d redisIFMSchemaKey) as [e|m]; [done|]. cbn [with_type]. by destruct (String.eqb _ _).
Qed.

(** A fence that lets the script pass has seen its schema. *)
Lemma fence_marker schema marker d : valid_schema schema = true → string_at d redisIFMSchemaKey = inr marker →
  String.eqb (default "1" marker) (Itoa schema) = true → marker_schema d = Some schema.
Proof.
  intros Hv Hs E%String.eqb_eq. unfold marker_schema. rewrite Hs.
  assert (Atoi (Itoa schema) = Some schema) as Ha by (destruct (valid_schema_cases schema Hv) as [-> | ->]; reflexivity).
  destruct marker as [raw|]; simpl in E.
  - subst raw. rewrite Ha. simpl. by rewrite Hv.
  - destruct (valid_schema_cases schema Hv) as [-> | ->]; done.
Qed.

Lemma fenced_put (change : Z → gmap string string → gmap string string → Prop) schema h1 h2 d :
  marker_schema d = Some schema → hash_at d (redisInflightKey clientID) = inr h1 → change schema h1 h2 →
  fenced clientID change d (put_hash (redisInflightKey clientID) h2 d).
Proof.
  intros Hm Hh Hf. exists schema, h1, h2. split_and!; [done|done|apply hash_at_put|done| |].
  - by rewrite lookup_put_hash_ne by by apply marker_key_not_inflight.
  - intros c Hc. rewrite lookup_put_hash_ne; [done|]. by intros ?%inflight_key_inj.
Qed.

Lemma effects_fencedHSet (change : Z → gmap string string → gmap string string → Prop) configured field value schema :
  valid_schema schema = true → (∀ h, change schema h (<[field := value]> h)) →
  effects env (fencedHSet configured (redisInflightKey clientID) field value schema) (fenced clientID change).
Proof.
  intros Hv Hf. apply effects_ebind; [|intros n; destruct (n =? 0)%Z; apply effects_ret]. apply effects_script. intros d.
  unfold schemaFencedHSetScript. rewrite run_fence. destruct (string_at d redisIFMSchemaKey) as [e|marker] eqn:Es; [done|].
  destruct (String.eqb _ _) eqn:E; [|done]. pose proof (fence_marker _ _ _ Hv Es E) as Hm.
  cbn [run_lua]. rewrite redis_documented. cbn [documented]. destruct (hash_at d _) as [e|h] eqn:Eh; [done|]. cbn [with_type run_lua snd].
  intros _. by apply (fenced_put _ schema h).
Qed.

Lemma effects_fencedHSetNX (change : Z → gmap string string → gmap string string → Prop) configured field value schema :
  valid_schema schema = true → (∀ h, h !! field = None → change schema h (<[field := value]> h)) →
  effects env (fencedHSetNX configured (redisInflightKey clientID) field value schema) (fenced clientID change).
Proof.
  intros Hv Hf. apply effects_ebind; [|intros n; destruct (n <? 0)%Z; apply effects_ret]. apply effects_script. intros d.
  unfold schemaFencedHSetNXScript. rewrite run_fence. destruct (string_at d redisIFMSchemaKey) as [e|marker] eqn:Es; [done|].
  destruct (String.eqb _ _) eqn:E; [|done]. pose proof (fence_marker _ _ _ Hv Es E) as Hm.
  cbn [run_lua]. rewrite redis_documented. cbn [documented]. destruct (hash_at d _) as [e|h] eqn:Eh; [done|]. cbn [with_type].
  destruct (present h field) eqn:Ep; [done|]. cbn [run_lua snd].
  intros _. apply (fenced_put _ schema h); [done|done|]. apply Hf. unfold present in Ep. apply bool_decide_eq_false in Ep.
  by apply eq_None_not_Some.
Qed.

Lemma effects_fencedHDel (change : Z → gmap string string → gmap string string → Prop) fields schema :
  valid_schema schema = true → (∀ h, change schema h (foldr delete h fields)) →
  effects env (eval (schemaFencedHDelScript (redisInflightKey clientID) (Itoa schema) fields)) (fenced clientID change).
Proof.
  intros Hv Hf. apply effects_script. intros d.
  unfold schemaFencedHDelScript. rewrite run_fence. destruct (string_at d redisIFMSchemaKey) as [e|marker] eqn:Es; [done|].
  destruct (String.eqb _ _) eqn:E; [|done]. pose proof (fence_marker _ _ _ Hv Es E) as Hm.
  cbn [run_lua]. rewrite redis_documented. cbn [documented]. destruct (hash_at d _) as [e|h] eqn:Eh; [done|]. cbn [with_type run_lua snd].
  intros _. by apply (fenced_put _ schema h).
Qed.

Lemma effects_publish n configured pk sent schema : configuration configured → valid_schema schema = true →
  effects env (publish_attempts n configured clientID pk sent schema) (fenced clientID (stores clientID pk sent)).
Proof.
  intros Hc. revert schema. induction n as [|n IH]; intros schema Hv; [apply effects_ret|]. cbn [publish_attempts].
  apply effects_bind; [apply effects_fencedHSet; [done|]; intros h; unfold stores; by rewrite <-write_field_schema|].
  intros [[]|[]]; try apply effects_ret.
  eapply (effects_bind_post _ _ _ _ (λ r, ∀ z, r = inr z → valid_schema z = true)); [apply effects_refresh| |].
  - intros w a w' tr Hr z. by eapply run_refresh.
  - intros [e|z] Hz; [apply effects_ret|]. apply IH. auto.
Qed.

(** The direction of the field that a completion or a drop removes. *)
Definition removed_inbound (pk : Packet) (dropped : bool) : bool :=
  if dropped then pk_in [Puback; Pubrec; Pubrel; Pubcomp] pk else (pkType pk =? Pubrel)%N.

Lemma effects_delete n configured pk dropped schema : configuration configured → valid_schema schema = true →
  effects env (delete_attempts n configured clientID pk dropped schema) (fenced clientID (removes (removed_inbound pk dropped) (pkPacketID pk))).
Proof.
  intros Hc. revert schema. induction n as [|n IH]; intros schema Hv; [apply effects_ret|]. cbn [delete_attempts].
  apply effects_ebind; [apply effects_fencedHDel; [done|]; intros h; by apply delete_fields_remove|]. intros k. destruct (k =? 1)%Z; [apply effects_ret|].
  destruct (schemaMismatchError configured); try apply effects_ret.
  eapply (effects_bind_post _ _ _ _ (λ r, ∀ z, r = inr z → valid_schema z = true)); [apply effects_refresh| |].
  - intros w a w' tr Hr z. by eapply run_refresh.
  - intros [e|z] Hz; [apply effects_ret|]. apply IH. auto.
Qed.

(** A queued message takes a free field. *)
Definition queues_free (id : N) (msg : InflightMessage) (schema : Z) (h1 h2 : gmap string string) : Prop :=
  h1 !! schema_field schema false id = None ∧ queues clientID id msg schema h1 h2.

Lemma effects_enqueue n configured id msg now schema : configuration configured → valid_schema schema = true →
  effects env (enqueue_attempts n configured clientID id (Message_MarshalBinary (offline_message clientID id msg now)) schema)
    (fenced clientID (queues_free id msg)).
Proof.
  intros Hc. revert schema. induction n as [|n IH]; intros schema Hv; [apply effects_ret|]. cbn [enqueue_attempts].
  apply effects_bind.
  { apply effects_fencedHSetNX; [done|]. intros h Hn. rewrite offline_field_schema in * by done. split; [done|]. by exists now. }
  intros [[]|[]]; try apply effects_ret.
  eapply (effects_bind_post _ _ _ _ (λ r, ∀ z, r = inr z → valid_schema z = true)); [apply effects_refresh| |].
  - intros w a w' tr Hr z. by eapply run_refresh.
  - intros [e|z] Hz; [apply effects_ret|]. apply IH. auto.
Qed.

Lemma effects_deleteInflight configured pk dropped : configuration configured →
  effects env (deleteInflight configured clientID pk dropped) (fenced clientID (removes (removed_inbound pk dropped) (pkPacketID pk))).
Proof.
  intros Hc. eapply effects_bind_post; [apply effects_schemaVersion|apply run_schemaVersion|].
  intros schema Hv. by apply effects_delete.
Qed.

Lemma effects_EnqueueOffline configured id msg : configuration configured →
  effects env (EnqueueOfflineInflight configured clientID id msg) (fenced clientID (queues_free id msg)).
Proof.
  intros Hc. eapply (effects_bind_post _ _ _ _ (λ data, ∃ now, data = Message_MarshalBinary (offline_message clientID id msg now))).
  { apply effects_bind; [by apply effects_harmless|intros; apply effects_ret]. }
  { intros w data w' tr (now & w1 & tr1 & tr2 & _ & (-> & _) & _)%run_bind. by exists now. }
  intros data [now ->]. eapply (effects_bind_post _ _ _ _ (λ r, ∀ z, r = inr z → valid_schema z = true)); [apply effects_refresh| |].
  - intros w a w' tr Hr z. by eapply run_refresh.
  - intros [e|z] Hz; [apply effects_ret|]. by apply effects_enqueue; auto.
Qed.

Lemma fenced_enqueued configured dedupKey msg id d1 d2 :
  (∀ k, dedupKey = Some k → k ≠ redisIFMSchemaKey ∧ ∀ c, k ≠ redisInflightKey c) →
  enqueued configured dedupKey clientID msg id d1 d2 → fenced clientID (queues clientID id msg) d1 d2.
Proof.
  intros Hk (schema & counter & h & next & now & Hm & _ & _ & _ & Hh & _ & ->).
  assert (valid_schema schema = true) as Hv.
  { unfold marker_schema in Hm. destruct (string_at _ _) as [|[raw|]]; [done| |by injection Hm as <-].
    cbv zeta in Hm. destruct (valid_schema (default 0%Z (Atoi raw))) eqn:E; by simplify_eq. }
  set (h2 := <[offline_field schema id := Message_MarshalBinary (offline_message clientID id msg now)]> h).
  exists schema, h, h2. unfold enqueue.
  assert (∀ k x d, dedupKey = Some k → k ≠ x → <[k := RString "1"]> d !! x = d !! x) as Hne
    by (intros; by rewrite lookup_insert_ne).
  split_and!; [done|done| | | |].
  - destruct dedupKey as [k|]; [|apply hash_at_put]. unfold hash_at. rewrite lookup_insert_ne by (by apply Hk). apply hash_at_put.
  - exists now. by rewrite <-offline_field_schema.
  - destruct dedupKey as [k|]; [rewrite lookup_insert_ne by (by apply Hk)|]; rewrite lookup_put_hash_ne by (by apply marker_key_not_inflight); by rewrite lookup_insert_ne.
  - intros c Hc. assert (redisInflightKey clientID ≠ redisInflightKey c) by (by intros ?%inflight_key_inj).
    destruct dedupKey as [k|]; [rewrite lookup_insert_ne by (by apply Hk)|]; rewrite lookup_put_hash_ne by done; by rewrite lookup_insert_ne.
Qed.
End fence.

(** ** The migration of numeric fields *)

#[local] Opaque Message_UnmarshalBinary Message_MarshalBinary ToPacket.

(** The hash after the script moved [field] to [target]. *)
Definition moved (h : gmap string string) (field target : string) : gmap string string :=
  match h !! field with
  | None => h
  | Some v => if present h target then delete field h else delete field (<[target := v]> h)
  end.

Definition migrate_step (h : gmap string string) (row : string * string) : gmap string string :=
  let '(field, raw) := row in
  if directional field then h
  else match Message_UnmarshalBinary raw with
       | None => h
       | Some m => moved h field (inflightFieldKey (ToPacket m))
       end.

(** Hashes whose values are messages, stored under a field of their own ID. *)
Definition wf_inflight (h : gmap string string) : Prop := ∀ f raw, h !! f = Some raw →
  ∃ m, Message_UnmarshalBinary raw = Some m ∧
    f = if directional f then inflightFieldKey (ToPacket m) else FormatID (ToPacket m).

(** A message in a numeric field belongs under [t]. *)
Definition moves_to (f raw t : string) : bool :=
  negb (directional f) &&
  match Message_UnmarshalBinary raw with Some m => String.eqb (inflightFieldKey (ToPacket m)) t | None => false end.

(** The hash after the migration: directional fields are kept, a numeric field is
    moved unless its directional field exists. *)
Definition migrated (h h' : gmap string string) : Prop := ∀ t v, h' !! t = Some v ↔
  directional t = true ∧ (h !! t = Some v ∨ (h !! t = None ∧ ∃ f, h !! f = Some v ∧ moves_to f v t = true)).

Lemma present_true {A} (m : gmap string A) k : present m k = true ↔ is_Some (m !! k).
Proof. unfold present. by rewrite bool_decide_eq_true. Qed.
Lemma present_false {A} (m : gmap string A) k : present m k = false ↔ m !! k = None.
Proof. unfold present. by rewrite bool_decide_eq_false, eq_None_not_Some. Qed.

Lemma moves_to_true f raw t : moves_to f raw t = true ↔
  directional f = false ∧ ∃ m, Message_UnmarshalBinary raw = Some m ∧ inflightFieldKey (ToPacket m) = t.
Proof.
  unfold moves_to. rewrite andb_true_iff, negb_true_iff. destruct (Message_UnmarshalBinary raw) as [m|]; [rewrite String.eqb_eq|]; naive_solver.
Qed.

Lemma moved_lookup h f raw t x : h !! f = Some raw → f ≠ t →
  moved h f t !! x = if decide (x = f) then None else if decide (x = t) then Some (default raw (h !! t)) else h !! x.
Proof.
  intros Hf Hne. unfold moved. rewrite Hf. destruct (present h t) eqn:Ep.
  - apply present_true in Ep as [v Hv]. rewrite Hv. destruct (decide (x = f)) as [->|]; [by rewrite lookup_delete_eq|].
    rewrite lookup_delete_ne by done. by destruct (decide (x = t)) as [->|].
  - apply present_false in Ep. rewrite Ep. destruct (decide (x = f)) as [->|]; [by rewrite lookup_delete_eq|].
    rewrite lookup_delete_ne by done. destruct (decide (x = t)) as [->|]; [by rewrite lookup_insert_eq|by rewrite lookup_insert_ne].
Qed.

(** Two numeric fields never move to the same place. *)
Lemma moves_to_inj h f1 f2 v1 v2 t : wf_inflight h → h !! f1 = Some v1 → h !! f2 = Some v2 →
  moves_to f1 v1 t = true → moves_to f2 v2 t = true → f1 = f2.
Proof.
  intros Hwf H1 H2 (D1 & m1 & U1 & T1)%moves_to_true (D2 & m2 & U2 & T2)%moves_to_true.
  destruct (Hwf _ _ H1) as (m1' & U1' & F1), (Hwf _ _ H2) as (m2' & U2' & F2). rewrite D1 in F1. rewrite D2 in F2.
  rewrite U1 in U1'. rewrite U2 in U2'. injection U1' as <-. injection U2' as <-. rewrite F1, F2. rewrite <-T2 in T1. unfold inflightFieldKey in T1.
  destruct (pk_in _ (ToPacket m1)), (pk_in _ (ToPacket m2)); [|done|done|]; by apply string_app_inj_l in T1.
Qed.

(** The message that [rows] hold for the directional field [t]. *)
Fixpoint pending (rows : list (string * string)) (t : string) : option string :=
  match rows with
  | [] => None
  | (f, raw) :: rows => if moves_to f raw t then Some raw else pending rows t
  end.

(** The rows in [l] remain to be handled, in any order. *)
Lemma migrate_fold l h t : NoDup l.*1 →
  (∀ f raw, (f, raw) ∈ l → is_Some (Message_UnmarshalBinary raw) ∧ (directional f = false → h !! f = Some raw)) →
  foldl migrate_step h l !! t =
    if directional t then match h !! t with Some v => Some v | None => pending l t end
    else if decide (t ∈ l.*1) then None else h !! t.
Proof.
  revert h. induction l as [|[f raw] l IH]; intros h Hnd Hl; cbn [foldl].
  { cbn. destruct (directional t); [by destruct (h !! t)|done]. }
  cbn in Hnd. apply NoDup_cons in Hnd as [Hf Hnd]. destruct (Hl f raw ltac:(left)) as [[m Hm] Hraw].
  cbn [migrate_step pending fmap list_fmap fst]. unfold moves_to. rewrite Hm. destruct (directional f) eqn:Df; cbn [negb andb].
  - rewrite IH; [|done|intros ?? ?; apply Hl; by right]. destruct (directional t) eqn:Dt; [done|].
    assert (t ≠ f) by congruence. destruct (decide (t ∈ l.*1)) as [?|Hn], (decide (t ∈ f :: l.*1)) as [Hi|Hn']; [done| |by apply elem_of_cons in Hi as [?|?]|done].
    destruct Hn'. by right.
  - specialize (Hraw eq_refl). set (x := inflightFieldKey (ToPacket m)). assert (directional x = true) as Dx by apply inflightFieldKey_directional.
    assert (f ≠ x) by congruence. rewrite IH; [|done|].
    + rewrite (moved_lookup _ _ _ _ _ Hraw) by done. destruct (directional t) eqn:Dt.
      * rewrite decide_False by congruence. destruct (String.eqb_spec x t) as [<-|]; [rewrite decide_True by done; by destruct (h !! x)|].
        by rewrite decide_False by done.
      * rewrite (decide_False (P := t = x)) by congruence.
        destruct (decide (t ∈ l.*1)), (decide (t = f)), (decide (t ∈ f :: l.*1)); set_solver.
    + intros f' raw' Hin. destruct (Hl f' raw' ltac:(by right)) as [Hm' Hr']. split; [done|]. intros Df'. rewrite (moved_lookup _ _ _ _ _ Hraw) by done.
      rewrite !decide_False; [by apply Hr'|congruence|]. intros ->. apply Hf, list_elem_of_fmap. by exists (f, raw').
Qed.

Lemma pending_Some h l t v : wf_inflight h → l ≡ₚ map_to_list h →
  pending l t = Some v ↔ ∃ f, h !! f = Some v ∧ moves_to f v t = true.
Proof.
  intros Hwf Hl. assert (∀ f raw, (f, raw) ∈ l → h !! f = Some raw) as Hin by (intros ??; rewrite Hl; by rewrite elem_of_map_to_list).
  trans (∃ f, (f, v) ∈ l ∧ moves_to f v t = true); [|setoid_rewrite Hl; by setoid_rewrite elem_of_map_to_list]. clear Hl.
  induction l as [|[f raw] l IH]; [split; [done|by intros (? & ?%not_elem_of_nil & _)]|].
  cbn [pending]. destruct (moves_to f raw t) eqn:Em.
  - split; [intros [= ->]; exists f; split; [left|done]|]. intros (f' & Hf' & Em').
    assert (f' = f) as -> by (eapply moves_to_inj; [done|by apply Hin| |done|done]; apply Hin; left).
    apply Hin in Hf'. rewrite (Hin f raw) in Hf' by left. congruence.
  - rewrite IH by (intros; apply Hin; by right). split; intros (f' & Hf' & Em'); exists f'; (split; [|done]); [by right|].
    apply elem_of_cons in Hf' as [[= -> ->]|]; [congruence|done].
Qed.

Lemma migrate_rows_spec h l : wf_inflight h → l ≡ₚ map_to_list h → migrated h (foldl migrate_step h l).
Proof.
  intros Hwf Hl t v. assert (∀ f raw, (f, raw) ∈ l ↔ h !! f = Some raw) as Hin by (intros; rewrite Hl; by rewrite elem_of_map_to_list).
  rewrite migrate_fold.
  - destruct (directional t) eqn:Dt.
    + destruct (h !! t) as [v'|] eqn:Et; [naive_solver|]. rewrite pending_Some by done. naive_solver.
    + split; [|naive_solver]. destruct (decide (t ∈ l.*1)) as [|Hn]; [done|]. intros Hv. exfalso. apply Hn, list_elem_of_fmap. exists (t, v). by rewrite Hin.
  - rewrite Hl. apply NoDup_fst_map_to_list.
  - intros f raw Hf%Hin. destruct (Hwf _ _ Hf) as (m & Hm & _). by rewrite Hm.
Qed.

(** Migrating twice changes nothing more. *)
Lemma migrated_wf h h' : wf_inflight h → migrated h h' → wf_inflight h'.
Proof.
  intros Hwf Hm f raw [Df [Hf|(_ & f' & Hf' & Hmv)]]%Hm; rewrite Df.
  - destruct (Hwf _ _ Hf) as (m & Um & Hk). rewrite Df in Hk. by exists m.
  - apply moves_to_true in Hmv as (_ & m & Um & Hk). by exists m.
Qed.

Lemma migrated_unique h h1 h2 : migrated h h1 → migrated h h2 → h1 = h2.
Proof. intros H1 H2. apply map_eq. intros t. apply option_eq. intros v. by rewrite (H1 t v), (H2 t v). Qed.

(** ** Reading, alone with a reliable server *)
Section reading_store.
  Context `{RedisServer} `{!RedisDocumented}.

(** A database that differs from [d] at most in the hash at [key], now [h]. *)
Definition rehashed (key : string) (h : gmap string string) (d d' : db) : Prop :=
  hash_at d' key = inr h ∧ ∀ k, k ≠ key → d' !! k = d !! k.

Lemma rehashed_put key h d : rehashed key h d (put_hash key h d).
Proof. split; [apply hash_at_put|]. intros k Hk. by rewrite lookup_put_hash_ne. Qed.

Lemma rehashed_trans key h h' d d' d'' : rehashed key h d d' → rehashed key h' d' d'' → rehashed key h' d d''.
Proof. intros [_ H1] [H2 H3]. split; [done|]. intros k Hk. rewrite H3 by done. by apply H1. Qed.

Lemma migrate_script key f t h d : hash_at d key = inr h → f ≠ t →
  ∃ n, (run_lua (migrateLegacyInflightFieldScript key f t) d).1 = inr n ∧
    rehashed key (moved h f t) d (run_lua (migrateLegacyInflightFieldScript key f t) d).2.
Proof.
  intros Hh Hne. cbn [migrateLegacyInflightFieldScript run_lua]. rewrite !redis_documented. cbn [documented with_type]. rewrite Hh. unfold with_type, moved.
  destruct (h !! f) as [v|] eqn:Ef; [|exists 0%Z; by repeat split].
  cbn [run_lua]. rewrite !redis_documented. cbn [documented]. rewrite Hh. unfold with_type.
  destruct (present h t); cbn [run_lua]; rewrite redis_documented; cbn [documented]; rewrite Hh; unfold with_type; cbn [run_lua foldr].
  - exists 1%Z. split; [done|apply rehashed_put].
  - rewrite redis_documented. cbn [documented]. rewrite hash_at_put. unfold with_type. cbn [run_lua foldr]. exists 1%Z. split; [done|].
    eapply rehashed_trans; apply rehashed_put.
Qed.

Lemma run_migrate_rows clientID key rows d z h r w' tr :
  run quiet (traverse (migrate_field clientID key) rows) (mkWorld d z None) r w' tr → hash_at d key = inr h →
  Forall (λ row, is_Some (Message_UnmarshalBinary row.2)) rows →
  (∃ l, r = inr l) ∧ ∃ d', w' = mkWorld d' z None ∧ rehashed key (foldl migrate_step h rows) d d'.
Proof.
  revert d h r w' tr. induction rows as [|[f raw] rows IH]; intros d h r w' tr Hr Hh Hl.
  { destruct Hr as (-> & -> & _). split; [by exists []|]. exists d. by repeat split. }
  apply Forall_cons in Hl as [[m Hm] Hl]. cbn [snd] in Hm. cbn [traverse] in Hr. apply run_ebind in Hr as (r1 & w1 & tr1 & tr2 & H1 & -> & H2).
  assert (r1 = inr tt ∧ ∃ d1, w1 = mkWorld d1 z None ∧ rehashed key (migrate_step h (f, raw)) d d1) as (-> & d1 & -> & Hd1).
  { cbn [migrate_field migrate_step] in *. rewrite Hm in *. destruct (directional f) eqn:Df.
    - destruct H1 as (-> & -> & _). split; [done|]. exists d. by repeat split.
    - apply run_ebind in H1 as (r2 & w2 & tr3 & tr4 & [-> ->]%run_quiet_eval & -> & H1).
      destruct (migrate_script key f (inflightFieldKey (ToPacket m)) h d Hh) as (n & Hn & Hd).
      { intros ->. by rewrite inflightFieldKey_directional in Df. }
      rewrite Hn in H1. destruct H1 as (-> & -> & _). split; [done|]. by eexists. }
  apply run_ebind in H2 as (r3 & w3 & tr5 & tr6 & H2 & -> & H3).
  apply (IH _ (migrate_step h (f, raw))) in H2 as [[l ->] (d' & -> & Hd')]; [|by apply Hd1|done].
  destruct H3 as (-> & -> & _). split; [by eexists|]. exists d'. split; [done|]. cbn [foldl]. by eapply rehashed_trans.
Qed.

Lemma run_readable fields d z l w' tr : run quiet (readable_fields fields) (mkWorld d z None) l w' tr →
  l = List.filter (λ f, negb (negb (z =? redisIFMSchemaV2)%Z && directional f)) fields ∧ w' = mkWorld d z None.
Proof.
  revert l w' tr. induction fields as [|f fields IH]; intros l w' tr Hr; [by destruct Hr as (-> & -> & _)|].
  cbn [readable_fields List.filter] in *. apply run_bind in Hr as (s & w1 & tr1 & tr2 & [-> ->]%run_quiet_schemaVersion & Hr & ->).
  apply run_bind in Hr as (rest & w2 & tr3 & tr4 & [-> ->]%IH & (-> & -> & _) & ->). split; [|done].
  destruct (z =? redisIFMSchemaV2)%Z; cbn; by destruct (directional f).
Qed.

(** The messages stored under [fields]. *)
Definition stored_under (h : gmap string string) (f : string) (m : storageMessage) : Prop :=
  ∃ raw, h !! f = Some raw ∧ Message_UnmarshalBinary raw = Some m.

Lemma run_read_fields rows fields d z r w' tr : run quiet (traverse (read_field rows) fields) (mkWorld d z None) r w' tr →
  wf_inflight rows → Forall (λ f, is_Some (rows !! f)) fields →
  w' = mkWorld d z None ∧ ∃ l, r = inr l ∧ Forall2 (stored_under rows) fields l.
Proof.
  intros Hr Hwf. revert r w' tr Hr. induction fields as [|f fields IH]; intros r w' tr Hr Hf.
  { destruct Hr as (-> & -> & _). split; [done|]. exists []. by split; [|constructor]. }
  apply Forall_cons in Hf as [[raw Hraw] Hf]. destruct (Hwf _ _ Hraw) as (m & Hm & Hk).
  cbn [traverse] in Hr. apply run_ebind in Hr as (r1 & w1 & tr1 & tr2 & H1 & -> & H2).
  assert (r1 = inr m ∧ w1 = mkWorld d z None) as [-> ->].
  { unfold read_field in H1. rewrite Hraw in H1. change (default "" (Some raw)) with raw in H1. rewrite Hm in H1.
    apply run_bind in H1 as (s & w2 & tr3 & tr4 & [-> ->]%run_quiet_schemaVersion & H1 & _).
    destruct (directional f); [rewrite <-Hk, String.eqb_refl, andb_false_r in H1|rewrite andb_false_r in H1]; by destruct H1 as (-> & -> & _). }
  apply run_ebind in H2 as (r3 & w3 & tr5 & tr6 & H2 & -> & H3).
  apply IH in H2 as (-> & l & -> & Hl); [|done]. destruct H3 as (-> & -> & _). split; [done|]. exists (m :: l).
  split; [done|]. constructor; [by exists raw|done].
Qed.
End reading_store.

(** ** Sorting *)

Lemma insert_sorted_comm x y l : insert_sorted x (insert_sorted y l) = insert_sorted y (insert_sorted x l).
Proof.
  induction l as [|z l IH]; cbn [insert_sorted].
  - destruct (ltb y x) eqn:E1, (ltb x y) eqn:E2; try done; [by rewrite (ltb_asym _ _ E1) in E2|by rewrite (ltb_total _ _ E1 E2)].
  - assert (∀ a b, ltb z a = true → ltb z b = false → ltb b a = true) as Hlt.
    { intros a b Ha Hb. destruct (ltb b z) eqn:E; [by eapply ltb_trans|]. by rewrite (ltb_total _ _ E Hb). }
    destruct (ltb z x) eqn:Ex, (ltb z y) eqn:Ey; cbn [insert_sorted]; rewrite ?Ex, ?Ey.
    + by rewrite IH.
    + by rewrite (Hlt x y).
    + by rewrite (Hlt y x).
    + destruct (ltb y x) eqn:E1, (ltb x y) eqn:E2; try done; [by rewrite (ltb_asym _ _ E1) in E2|by rewrite (ltb_total _ _ E1 E2)].
Qed.

Lemma sort_strings_perm l1 l2 : l1 ≡ₚ l2 → sort_strings l1 = sort_strings l2.
Proof.
  unfold sort_strings. induction 1 as [|x l1 l2 _ IH|x y l|l1 l2 l3 _ IH1 _ IH2]; cbn [foldr]; [done|by rewrite IH|apply insert_sorted_comm|congruence].
Qed.

Lemma list_filter_perm {A} (p : A → bool) l1 l2 : l1 ≡ₚ l2 → List.filter p l1 ≡ₚ List.filter p l2.
Proof.
  induction 1 as [|x l1 l2 _ IH|x y l|l1 l2 l3 _ IH1 _ IH2]; cbn; [done| | |by trans (List.filter p l2)].
  - destruct (p x); [by constructor|done].
  - destruct (p x), (p y); try done. constructor.
Qed.

Lemma insert_sorted_perm x l : insert_sorted x l ≡ₚ x :: l.
Proof.
  induction l as [|y l IH]; cbn; [done|]. destruct (ltb y x); [|done]. rewrite IH. by constructor.
Qed.
Lemma sort_strings_id l : sort_strings l ≡ₚ l.
Proof. induction l as [|x l IH]; [done|]. cbn. rewrite insert_sorted_perm. by rewrite <-IH at 2. Qed.

(** ** The schema in force *)

(** The marker stands for [schema], and the node follows it or is pinned to it. *)
Definition in_force (configured : Z) (d : db) (hint schema : Z) : Prop :=
  valid_schema schema = true ∧
  (string_at d redisIFMSchemaKey = inr (Some (Itoa schema)) ∨ (string_at d redisIFMSchemaKey = inr None ∧ schema = redisIFMSchemaLegacy)) ∧
  (configured = 0%Z ∨ (configured = schema ∧ hint = schema)).

Section schema_in_force.
  Context `{RedisServer} `{!RedisDocumented}.

Lemma Atoi_schema schema : valid_schema schema = true → Atoi (Itoa schema) = Some schema.
Proof. by intros [-> | ->]%valid_schema_cases. Qed.

Lemma in_force_same configured d d' hint schema : d' !! redisIFMSchemaKey = d !! redisIFMSchemaKey →
  in_force configured d hint schema → in_force configured d' schema schema.
Proof. intros Hd (Hv & Hm & Hc). unfold in_force, string_at in *. rewrite Hd. naive_solver. Qed.

Lemma run_quiet_refresh configured d hint schema r w' tr : in_force configured d hint schema →
  run quiet (refreshSchemaVersion configured) (mkWorld d hint None) r w' tr → r = inr schema ∧ w' = mkWorld d schema None.
Proof.
  intros (Hv & Hm & [-> | [-> ->]]) Hr.
  - apply run_ebind in Hr as (r1 & w1 & tr1 & tr2 & H1 & -> & H2). unfold readIFMSchema in H1.
    apply run_ebind in H1 as (r0 & w0 & tr3 & tr4 & [-> ->]%run_quiet_redis & -> & H1). cbn [documented] in H1.
    assert (r1 = inr schema ∧ w1 = mkWorld d hint None) as [-> ->].
    { destruct Hm as [Hm|[Hm ->]]; rewrite Hm in H1; cbn in H1.
      - rewrite Atoi_schema, Hv in H1 by done. by destruct H1 as (-> & -> & _).
      - by destruct H1 as (-> & -> & _). }
    by apply run_bind in H2 as (u & w2 & tr5 & tr6 & [tr' (-> & _)]%run_quiet_ask & (-> & -> & _) & _).
  - unfold refreshSchemaVersion in Hr. assert (schema ≠ 0%Z) as Hn by (by intros ->).
    destruct (Z.eqb_spec schema 0); [done|]. by destruct Hr as (-> & -> & _).
Qed.

Lemma run_quiet_fencedHSet configured d hint schema s k f v h r w' tr :
  in_force configured d hint schema → valid_schema s = true → hash_at d k = inr h →
  run quiet (fencedHSet configured k f v s) (mkWorld d hint None) r w' tr →
  (s = schema ∧ r = inr tt ∧ w' = mkWorld (put_hash k (<[f := v]> h) d) hint None) ∨
  (s ≠ schema ∧ r = inl (schemaMismatchError configured) ∧ w' = mkWorld d hint None).
Proof.
  intros (Hv & Hm & _) Hs Hh (r1 & w1 & tr1 & tr2 & [-> ->]%run_quiet_eval & -> & H2)%run_ebind.
  unfold schemaFencedHSetScript, fence in H2. cbn [run_lua] in H2. rewrite redis_documented in H2. cbn [documented] in H2.
  assert (∃ marker, string_at d redisIFMSchemaKey = inr marker ∧ String.eqb (default "1" marker) (Itoa s) = (s =? schema)%Z) as (marker & Hk & Hb).
  { destruct Hm as [Hm|[Hm ->]]; rewrite Hm; (eexists; split; [done|]); destruct (valid_schema_cases s Hs) as [-> | ->];
      destruct (valid_schema_cases _ Hv) as [E | E]; try rewrite E; done. }
  rewrite Hk in H2. cbn [with_type] in H2. rewrite Hb in H2. destruct (Z.eqb_spec s schema); [left|right].
  - cbn [run_lua] in H2. rewrite redis_documented in H2. cbn [documented] in H2. rewrite Hh in H2. by destruct H2 as (-> & -> & _).
  - by destruct H2 as (-> & -> & _).
Qed.

Lemma run_quiet_publish clientID configured d hint schema pk sent h r w' tr :
  in_force configured d hint schema → hash_at d (redisInflightKey clientID) = inr h →
  pkInboundFlow pk && (pkType pk =? Puback)%N = false →
  run quiet (OnQosPublishResult configured clientID pk sent) (mkWorld d hint None) r w' tr →
  r = inr tt ∧ ∃ hint', w' = mkWorld (put_hash (redisInflightKey clientID)
    (<[write_field schema pk := Message_MarshalBinary (inflight_message clientID (write_field schema pk) pk sent)]> h) d) hint' None.
Proof.
  intros Hf Hh Hin Hr. unfold OnQosPublishResult in Hr. rewrite Hin in Hr.
  apply run_bind in Hr as (s & w1 & tr1 & tr2 & Hs & Hr & _). pose proof (run_schemaVersion _ _ _ _ _ Hs) as Hv.
  apply run_quiet_schemaVersion in Hs as [-> ->]. set (s := if (_ =? _)%Z then _ else _) in *.
  apply run_bind in Hr as (r1 & w2 & tr3 & tr4 & H1 & Hr & _).
  apply (run_quiet_fencedHSet _ _ _ schema _ _ _ _ h) in H1 as [(E & -> & ->)|(Hne & -> & ->)]; [|..|done|done|done].
  { destruct Hr as (-> & -> & _). rewrite E. eauto. }
  assert (configured = 0%Z) as ->.
  { destruct Hf as (Hvs & _ & [?|[_ ->]]); [done|]. destruct Hne. unfold s. by destruct (valid_schema_cases schema Hvs) as [-> | ->]. }
  cbn [schemaMismatchError negb Z.eqb] in Hr. apply run_ebind in Hr as (r2 & w3 & tr5 & tr6 & H1 & _ & Hr).
  apply (run_quiet_refresh _ _ _ schema) in H1 as [-> ->]; [|done]. apply run_bind in Hr as (r1 & w2 & tr7 & tr8 & H1 & Hr & _).
  apply (run_quiet_fencedHSet _ _ _ schema _ _ _ _ h) in H1 as [(_ & -> & ->)|(? & _)]; [|done|by eapply in_force_same|by apply Hf|done].
  destruct Hr as (-> & -> & _). eauto.
Qed.

(** What is read, for any order of the hash's fields. *)
Lemma run_quiet_read clientID configured d hint schema h r w' tr :
  utf8_Valid clientID = true → in_force configured d hint schema → hash_at d (redisInflightKey clientID) = inr h → wf_inflight h →
  run quiet (InflightForClient configured clientID) (mkWorld d hint None) r w' tr →
  ∃ d' h' msgs, w' = mkWorld d' schema None ∧ rehashed (redisInflightKey clientID) h' d d' ∧
    (if (schema =? redisIFMSchemaV2)%Z then migrated h h' else h' = h) ∧ r = inr msgs ∧
    Forall2 (stored_under h')
      (sort_strings (List.filter (λ f, (schema =? redisIFMSchemaV2)%Z || negb (directional f)) (map_to_list h').*1)) msgs.
Proof.
  intros Hc Hf Hh Hwf (r1 & w1 & tr1 & tr2 & H1 & _ & Hr)%run_ebind.
  apply (run_quiet_refresh _ _ _ schema) in H1 as [-> ->]; [|done]. apply run_ebind in Hr as (r2 & w2 & tr3 & tr4 & H1 & _ & Hr).
  assert (∃ d' h', r2 = inr tt ∧ w2 = mkWorld d' schema None ∧ rehashed (redisInflightKey clientID) h' d d' ∧
    if (schema =? redisIFMSchemaV2)%Z then migrated h h' else h' = h) as (d' & h' & -> & -> & Hd' & Hm).
  { apply run_bind in H1 as (s & w3 & tr5 & tr6 & [-> ->]%run_quiet_schemaVersion & H1 & _).
    destruct (schema =? redisIFMSchemaV2)%Z; cbn [negb] in H1.
    - apply run_ebind in H1 as (r3 & w3 & tr7 & tr8 & [-> ->]%run_quiet_redis & _ & H1). cbn [documented] in H1. rewrite Hh in H1. cbn [with_type lift fst snd] in H1.
      apply run_bind in H1 as (rows & w4 & tr9 & tr10 & [Hp ->]%run_quiet_order & H1 & _).
      apply run_ebind in H1 as (r4 & w5 & tr11 & tr12 & H1 & _ & H2).
      eapply run_migrate_rows in H1 as [[l ->] (d1 & -> & Hd1)]; [|done|].
      + destruct H2 as (-> & -> & _). exists d1, (foldl migrate_step h rows). split_and!; [done|done|done|]. by apply migrate_rows_spec.
      + apply Forall_forall. intros [f raw] Hin. rewrite Hp in Hin. apply elem_of_map_to_list in Hin. destruct (Hwf _ _ Hin) as (m & Hm & _). by eexists.
    - destruct H1 as (-> & -> & _). by exists d, h. }
  assert (wf_inflight h') as Hwf' by (destruct (schema =? redisIFMSchemaV2)%Z; [by eapply migrated_wf|by subst h']).
  apply run_ebind in Hr as (r3 & w3 & tr5 & tr6 & [-> ->]%run_quiet_redis & _ & Hr). cbn [documented] in Hr.
  rewrite (proj1 Hd') in Hr. cbn [with_type lift fst snd] in Hr. apply run_bind in Hr as (fields & w4 & tr7 & tr8 & [Hp ->]%run_quiet_order & Hr & _).
  apply run_bind in Hr as (fs & w5 & tr9 & tr10 & [-> ->]%run_readable & Hr & _).
  set (keep := λ f, (schema =? redisIFMSchemaV2)%Z || negb (directional f)).
  assert (sort_strings (List.filter (λ f, negb (negb (schema =? redisIFMSchemaV2)%Z && directional f)) fields) =
          sort_strings (List.filter keep (map_to_list h').*1)) as E.
  { rewrite (List.filter_ext _ keep) by (intros f; unfold keep; by rewrite negb_andb, negb_involutive). apply sort_strings_perm. by apply list_filter_perm. }
  rewrite E in Hr. apply run_read_fields in Hr as (-> & msgs & -> & Hl); [by exists d', h', msgs|done|].
  apply Forall_forall. intros f. rewrite sort_strings_id, list_elem_of_In, List.filter_In, <-list_elem_of_In.
  intros [((f' & raw) & -> & Hin%elem_of_map_to_list)%list_elem_of_fmap _]. by eexists.
Qed.
End schema_in_force.

(** ** Claims *)

Lemma dedup_key_apart publishID clientID : dedup_key publishID clientID ≠ redisIFMSchemaKey ∧
  ∀ c, dedup_key publishID clientID ≠ redisInflightKey c.
Proof. by split. Qed.


Definition example_packet : Packet :=
  no_packet <| pkFixedHeader := mkFixedHeader 0 Publish 1 false false |> <| pkPacketID := 7%N |> <| pkTopicName := "t/1/down" |>
    <| pkPayload := "on" |>.


Lemma stored_under_unique h fields l1 l2 : Forall2 (stored_under h) fields l1 → Forall2 (stored_under h) fields l2 → l1 = l2.
Proof.
  intros H1. revert l2. induction H1 as [|f m fields l1 (raw & Hf & Hm) _ IH]; intros l2 H2; inversion H2 as [|? m2 ? l3 (raw2 & Hf2 & Hm2) Hr]; [done|].
  subst. f_equal; [congruence|by apply IH].
Qed.

(** A node that resumes a session reads every stored message exactly once. On a
    reliable server without interference the call always succeeds; its result and
    the stored hash do not depend on the order in which maps are walked. Under
    schema 2 the hash is migrated: a numeric field moves to the directional field
    of its message unless that one exists, and directional fields are kept; under
    schema 1 it stays and only numeric fields are read. The messages come in the
    order of their fields, and nothing else in the database changes. *)
Theorem inflight_reading_migrates `{RedisServer} `{!RedisDocumented} clientID configured d hint schema h :
  utf8_Valid clientID = true → in_force configured d hint schema → hash_at d (redisInflightKey clientID) = inr h → wf_inflight h →
  ∃ h' msgs, (if (schema =? redisIFMSchemaV2)%Z then migrated h h' else h' = h) ∧
    Forall2 (stored_under h')
      (sort_strings (List.filter (λ f, (schema =? redisIFMSchemaV2)%Z || negb (directional f)) (map_to_list h').*1)) msgs ∧
    (∃ w' tr, run quiet (InflightForClient configured clientID) (mkWorld d hint None) (inr msgs) w' tr) ∧
    ∀ r w' tr, run quiet (InflightForClient configured clientID) (mkWorld d hint None) r w' tr →
      r = inr msgs ∧ ∃ d', w' = mkWorld d' schema None ∧ rehashed (redisInflightKey clientID) h' d d'.
Proof.
  intros Hc Hf Hh Hwf. destruct (perform_run quiet 0 "" (InflightForClient configured clientID) (mkWorld d hint None)) as [tr0 Hr0].
  destruct (run_quiet_read _ _ _ _ _ _ _ _ _ Hc Hf Hh Hwf Hr0) as (d0 & h0 & msgs & E0 & Hd0 & Hm0 & Er & Hl0).
  exists h0, msgs. split_and!; [done|done|rewrite <-Er; eauto|]. intros r w' tr Hr.
  destruct (run_quiet_read _ _ _ _ _ _ _ _ _ Hc Hf Hh Hwf Hr) as (d1 & h1 & msgs1 & -> & Hd1 & Hm1 & -> & Hl1).
  assert (h1 = h0) as -> by (destruct (schema =? redisIFMSchemaV2)%Z; [by eapply migrated_unique|congruence]).
  rewrite (stored_under_unique _ _ _ _ Hl1 Hl0). eauto.
Qed.

#[local] Transparent ToPacket.
(** What the conversion to a packet keeps of a persisted one. *)
Lemma ToPacket_inflight clientID id pk sent :
  let q := ToPacket (inflight_message clientID id pk sent) in
  pkFixedHeader q = pkFixedHeader pk ∧ pkPacketID q = pkPacketID pk ∧ pkTopicName q = pkTopicName pk ∧
  pkPayload q = pkPayload pk ∧ pkOrigin q = pkOrigin pk ∧ pkCreated q = pkCreated pk.
Proof.
  cbv zeta. destruct pk as [? ? ? ? ? ? ? [] ]. by repeat split.
Qed.
#[local] Opaque ToPacket.

Lemma inflightFieldKey_same pk q : pkFixedHeader q = pkFixedHeader pk → pkPacketID q = pkPacketID pk →
  FormatID q = FormatID pk ∧ inflightFieldKey q = inflightFieldKey pk.
Proof. intros H1 H2. unfold inflightFieldKey, pk_in, FormatID, pkType. by rewrite H1, H2. Qed.

Lemma wf_inflight_insert h schema pk m : wf_inflight h → valid_schema schema = true → wf_message m →
  pkFixedHeader (ToPacket m) = pkFixedHeader pk → pkPacketID (ToPacket m) = pkPacketID pk →
  wf_inflight (<[write_field schema pk := Message_MarshalBinary m]> h).
Proof.
  intros Hwf Hv Hm H1 H2 f raw. destruct (inflightFieldKey_same _ _ H1 H2) as [E1 E2].
  destruct (decide (f = write_field schema pk)) as [->|Hne]; [|rewrite lookup_insert_ne by done; apply Hwf].
  rewrite lookup_insert_eq. intros [= <-]. exists m. split; [by apply message_roundtrip|].
  rewrite write_field_format by done. unfold write_field. rewrite E1, E2. by destruct (schema =? redisIFMSchemaV2)%Z.
Qed.

Lemma read_messages h fields msgs m : Forall2 (stored_under h) fields msgs →
  m ∈ msgs ↔ ∃ f raw, f ∈ fields ∧ h !! f = Some raw ∧ Message_UnmarshalBinary raw = Some m.
Proof.
  induction 1 as [|f m1 fields msgs (raw & Hf & Hm) _ IH]; [set_solver|]. rewrite elem_of_cons, IH. split.
  - intros [->|(f' & raw' & Hin & ?)]; [exists f, raw|exists f', raw']; set_solver.
  - intros (f' & raw' & [->|Hin]%elem_of_cons & Hf' & Hm'); [left|right]; [congruence|naive_solver].
Qed.

(** Reading the hash [h2] that [h1] was turned into. *)
Lemma migrated_from schema h1 h2 f raw : (if (schema =? redisIFMSchemaV2)%Z then migrated h1 h2 else h2 = h1) →
  (h2 !! f = Some raw → ∃ f', h1 !! f' = Some raw) ∧
  (h1 !! f = Some raw → directional f = (schema =? redisIFMSchemaV2)%Z →
   f ∈ sort_strings (List.filter (λ f, (schema =? redisIFMSchemaV2)%Z || negb (directional f)) (map_to_list h2).*1) ∧ h2 !! f = Some raw).
Proof.
  intros Hm. assert ((h2 !! f = Some raw → ∃ f', h1 !! f' = Some raw) ∧
    (h1 !! f = Some raw → directional f = (schema =? redisIFMSchemaV2)%Z → h2 !! f = Some raw)) as [H1 H2].
  { destruct (schema =? redisIFMSchemaV2)%Z; [|subst h2; eauto]. specialize (Hm f raw). split; [|naive_solver].
    intros (_ & [?|(_ & f' & ? & _)])%Hm; eauto. }
  split; [done|]. intros Hf Hd. specialize (H2 Hf Hd). split; [|done].
  rewrite sort_strings_id, list_elem_of_In, List.filter_In, <-list_elem_of_In, Hd. split; [|by destruct (schema =? redisIFMSchemaV2)%Z].
  apply list_elem_of_fmap. exists (f, raw). by rewrite elem_of_map_to_list.
Qed.

(** A message that was stored for a session is there when the session resumes.
    After storing an unacknowledged packet succeeds, a node that later reads the
    session, with whatever schema it had cached, gets it back among the messages,
    with the same fixed header, packet ID, topic, payload, origin and creation
    time, and gets no message that was not stored. *)
Theorem inflight_survives_reconnect `{RedisServer} `{!RedisDocumented} clientID configured d hint schema pk sent h r w tr :
  utf8_Valid clientID = true → in_force configured d hint schema → hash_at d (redisInflightKey clientID) = inr h → wf_inflight h →
  pkInboundFlow pk && (pkType pk =? Puback)%N = false →
  let m := inflight_message clientID (write_field schema pk) pk sent in
  wf_message m →
  run quiet (OnQosPublishResult configured clientID pk sent) (mkWorld d hint None) r w tr →
  r = inr tt ∧ ∀ configured2 hint2 r2 w2 tr2, in_force configured2 (wDb w) hint2 schema →
    run quiet (InflightForClient configured2 clientID) (mkWorld (wDb w) hint2 None) r2 w2 tr2 →
    ∃ msgs, r2 = inr msgs ∧ m ∈ msgs ∧
      (let q := ToPacket m in
       pkFixedHeader q = pkFixedHeader pk ∧ pkPacketID q = pkPacketID pk ∧ pkTopicName q = pkTopicName pk ∧
       pkPayload q = pkPayload pk ∧ pkOrigin q = pkOrigin pk ∧ pkCreated q = pkCreated pk) ∧
      ∀ m', m' ∈ msgs → m' = m ∨ ∃ f, stored_under h f m'.
Proof.
  intros Hc Hf Hh Hwf Hin m Hm Hr. destruct (run_quiet_publish _ _ _ _ _ _ _ _ _ _ _ Hf Hh Hin Hr) as (-> & hint' & ->).
  split; [done|]. fold m. set (h1 := <[_ := _]> h). set (d1 := put_hash _ _ _). cbn [wDb]. intros configured2 hint2 r2 w2 tr2 Hf2 Hr2.
  destruct (ToPacket_inflight clientID (write_field schema pk) pk sent) as (T1 & T2 & T3).
  assert (wf_inflight h1) as Hwf1 by (by apply wf_inflight_insert; [| apply Hf|..]).
  destruct (run_quiet_read _ _ _ _ _ _ _ _ _ Hc Hf2 (hash_at_put _ _ _) Hwf1 Hr2) as (d2 & h2 & msgs & _ & _ & Hm2 & -> & Hl).
  exists msgs. split; [done|]. split; [|split; [done|]].
  - apply (read_messages _ _ _ _ Hl). exists (write_field schema pk), (Message_MarshalBinary m).
    destruct (migrated_from schema h1 h2 (write_field schema pk) (Message_MarshalBinary m) Hm2) as [_ Hin2].
    destruct Hin2 as [? ?]; [apply lookup_insert_eq|by apply write_field_format, Hf|]. split_and!; [done|done|by apply message_roundtrip].
  - intros m' (f & raw & _ & Hf2' & Hm')%(read_messages _ _ _ _ Hl). destruct (migrated_from _ _ _ f raw Hm2) as [Hfrom _].
    destruct (Hfrom Hf2') as [f' Hf']. unfold h1 in Hf'. destruct (decide (f' = write_field schema pk)) as [->|Hne].
    + left. rewrite lookup_insert_eq in Hf'. injection Hf' as <-. rewrite message_roundtrip in Hm' by done. congruence.
    + right. rewrite lookup_insert_ne in Hf' by done. by exists f', raw.
Qed.

(** Two messages of a session, one in a numeric field from before the activation. *)
Definition example_legacy : Packet := example_packet <| pkPacketID := 3%N |>.
Definition example_store : db :=
  {[ redisIFMSchemaKey := RString "2";
     redisInflightKey "dev" := RHash {[ "3" := Message_MarshalBinary (inflight_message "dev" "3" example_legacy 0) ]} ]}.

#[local] Transparent Message_UnmarshalBinary Message_MarshalBinary ToPacket.
Lemma example_store_hash : hash_at example_store (redisInflightKey "dev") =
  inr {[ "3" := Message_MarshalBinary (inflight_message "dev" "3" example_legacy 0) ]}.
Proof. vm_compute. reflexivity. Qed.
Lemma example_store_wf : wf_inflight {[ "3" := Message_MarshalBinary (inflight_message "dev" "3" example_legacy 0) ]}.
Proof.
  intros f raw [<- <-]%lookup_singleton_Some. eexists. split; [vm_compute; reflexivity|]. vm_compute. reflexivity.
Qed.
Lemma example_in_force : in_force 0 example_store 0 2.
Proof. split_and!; [done| |by left]. left. vm_compute. reflexivity. Qed.

Lemma inflight_reading_migrates_witness : ∃ h' msgs w' tr,
  migrated {[ "3" := Message_MarshalBinary (inflight_message "dev" "3" example_legacy 0) ]} h' ∧
  @run memory quiet _ (InflightForClient 0 "dev") (mkWorld example_store 0 None) (inr msgs) w' tr.
Proof.
  destruct (@inflight_reading_migrates memory _ "dev" 0 example_store 0 2 _ eq_refl example_in_force example_store_hash example_store_wf)
    as (h' & msgs & Hm & _ & (w' & tr & Hr) & _). by exists h', msgs, w', tr.
Defined.

Lemma example_message_wf : wf_message (inflight_message "dev" (write_field 2 example_packet) example_packet 0).
Proof.
  split.
  - repeat constructor.
  - constructor.
  - repeat constructor; done.
  - done.
  - repeat constructor; done.
  - repeat constructor; done.
  - done.
Qed.

Lemma inflight_survives_reconnect_witness : ∃ w tr w2 tr2 msgs,
  @run memory quiet _ (OnQosPublishResult 0 "dev" example_packet 0) (mkWorld example_store 0 None) (inr tt) w tr ∧
  @run memory quiet _ (InflightForClient 2 "dev") (mkWorld (wDb w) 2 None) (inr msgs) w2 tr2 ∧
  inflight_message "dev" "out:7" example_packet 0 ∈ msgs.
Proof.
  set (p := OnQosPublishResult 0 "dev" example_packet 0).
  destruct (@perform_run memory quiet _ 0 "" p (mkWorld example_store 0 None)) as [tr Hr].
  assert ((@perform memory _ 0 "" p (mkWorld example_store 0 None)).1 = inr tt) as E by (vm_compute; reflexivity).
  set (w := (@perform memory _ 0 "" p (mkWorld example_store 0 None)).2) in *. rewrite E in Hr.
  destruct (@perform_run memory quiet _ 0 "" (InflightForClient 2 "dev") (mkWorld (wDb w) 2 None)) as [tr2 Hr2].
  destruct (@inflight_survives_reconnect memory _ "dev" 0 example_store 0 2 example_packet 0 _ _ _ _ eq_refl example_in_force
    example_store_hash example_store_wf eq_refl example_message_wf Hr) as [_ Hread].
  assert (in_force 2 (wDb w) 2 2) as Hf by (split_and!; [done| |by right]; left; vm_compute; reflexivity).
  destruct (Hread _ _ _ _ _ Hf Hr2) as (msgs & Er & Hin & _). rewrite Er in Hr2.
  exists w, tr. eexists. exists tr2, msgs. split_and!; [done|done|done].
Defined.
