(* ===== verification/SessionRecords.v ===== *)
(** * The session records in Redis

    Correctness of the part of RedisSession that stores who has a session: the
    end of a session leaves nothing of it behind and touches no other client, and
    the inventory from which offline sessions are placed lists every stored
    session. *)
From stdpp Require Import base gmap sets list strings.
From S2P Require Import Prelude GoStrings Codec Properties Base64 Decimal Json Storage Redis Session RedisSession OfflineQueue InflightStore.

(** ** Keys *)

Definition session_keys (clientID : string) : list string :=
  [redisClientKey clientID; redisLastSeenKey clientID; redisSubKey clientID; redisInflightKey clientID; redisPacketIDKey clientID].

(** Keys of different clients are different. *)
Lemma session_keys_disjoint c c' k : c ≠ c' → k ∈ session_keys c → k ∉ session_keys c'.
Proof.
  intros Hc Hk Hk'. apply Hc.
  repeat (apply elem_of_cons in Hk as [-> | Hk]); try (by apply not_elem_of_nil in Hk);
    repeat (apply elem_of_cons in Hk' as [E | Hk']); try (by apply not_elem_of_nil in Hk'); try done;
    unfold redisClientKey, redisLastSeenKey, redisSubKey, redisInflightKey, redisPacketIDKey, redisClientToken in E;
    repeat apply string_app_inj_l in E; by apply encode_inj in E.
Qed.

Lemma index_not_session_key c : redisClientIndex ∉ session_keys c.
Proof. intros Hk. repeat (apply elem_of_cons in Hk as [E | Hk]); try (by apply not_elem_of_nil in Hk); done. Qed.

(** ** The end of a session *)

(** What a disconnect may change. *)
Definition session_ended (clientID : string) (expire : bool) (d1 d2 : db) : Prop :=
  (∀ k, k ∉ session_keys clientID → k ≠ redisClientIndex → d2 !! k = d1 !! k) ∧
  if expire then
    (∀ k, k ∈ session_keys clientID → d2 !! k = None) ∧
    (∀ m, set_at d1 redisClientIndex = inr m → set_at d2 redisClientIndex = inr (m ∖ {[clientID]}))
  else ∀ k, k ≠ redisLastSeenKey clientID → d2 !! k = d1 !! k.

Lemma lookup_foldr_delete_db ks (d : db) k : foldr delete d ks !! k = if decide (k ∈ ks) then None else d !! k.
Proof.
  induction ks as [|k' ks IH]; [done|]. cbn. destruct (decide (k = k')) as [->|Hne].
  - rewrite lookup_delete_eq, decide_True; [done|left].
  - rewrite lookup_delete_ne, IH by done. destruct (decide (k ∈ ks)); [rewrite decide_True; [done|by right]|].
    rewrite decide_False; [done|]. by intros [?|?]%elem_of_cons.
Qed.

Lemma set_at_put k m d : set_at (put_set k m d) k = inr m.
Proof. unfold set_at, put_set. destruct (decide (m = ∅)) as [->|]; [by rewrite lookup_delete_eq|by rewrite lookup_insert_eq]. Qed.
Lemma lookup_put_set_ne k k' m d : k ≠ k' → put_set k m d !! k' = d !! k'.
Proof. intros Hk. unfold put_set. destruct (decide (m = ∅)); [by rewrite lookup_delete_ne|by rewrite lookup_insert_ne]. Qed.

Section ends.
  Context `{RedisServer} `{!RedisDocumented} (env : environment).

(** The transaction that ends a session. *)
Lemma delete_ends clientID d :
  session_ended clientID true d (exec_all [Any (DEL (session_keys clientID)); Any (SREM redisClientIndex clientID)] d).2.
Proof.
  cbn [exec_all]. rewrite redis_documented. cbn [documented].
  rewrite redis_documented. cbn [documented]. set (d1 := foldr delete d (session_keys clientID)).
  assert (∀ k, d1 !! k = if decide (k ∈ session_keys clientID) then None else d !! k) as Hd1 by apply lookup_foldr_delete_db.
  assert (d1 !! redisClientIndex = d !! redisClientIndex) as Hi by (rewrite Hd1, decide_False; [done|apply index_not_session_key]).
  assert (set_at d1 redisClientIndex = set_at d redisClientIndex) as Hs by (unfold set_at; by rewrite Hi).
  destruct (set_at d1 redisClientIndex) as [e|m] eqn:Em; cbn [with_type exec_all snd].
  - split; [intros k Hk _; by rewrite Hd1, decide_False|]. split; [intros k Hk; by rewrite Hd1, decide_True|]. intros m Hm. congruence.
  - split; [intros k Hk Hk'; by rewrite lookup_put_set_ne, Hd1, decide_False|]. split.
    + intros k Hk. rewrite lookup_put_set_ne, Hd1, decide_True; [done|done|]. intros <-. by destruct (index_not_session_key clientID).
    + intros m' Hm. rewrite set_at_put. congruence.
Qed.

Lemma effects_deleteSessionState clientID : effects env (deleteSessionState clientID) (session_ended clientID true).
Proof. apply effects_bind; [|intros; apply effects_ret]. apply effects_tx. intros d _. apply delete_ends. Qed.

Lemma deleteSessionState_alone clientID d z w' tr :
  run quiet (deleteSessionState clientID) (mkWorld d z None) tt w' tr → session_ended clientID true d (wDb w').
Proof. intros (r & w1 & tr1 & tr2 & [_ ->]%run_quiet_tx & (_ & -> & _) & _)%run_bind. apply delete_ends. Qed.

(** The last-seen time is set and nothing else changes. *)
Lemma seen_ended clientID (v : string) d : session_ended clientID false d (<[redisLastSeenKey clientID := RString v]> d).
Proof.
  assert (∀ k, k ≠ redisLastSeenKey clientID → <[redisLastSeenKey clientID := RString v]> d !! k = d !! k) as Hd
    by (intros k Hk; by rewrite lookup_insert_ne).
  split; [|done]. intros k Hk _. apply Hd. intros ->. apply Hk. set_solver.
Qed.

Lemma effects_markOffline F clientID : effects env (markOffline F clientID) (session_ended clientID false).
Proof.
  apply effects_bind; [by apply effects_harmless|]. intros now. apply effects_bind; [|intros; apply effects_ret].
  apply effects_redis. intros d _. apply seen_ended.
Qed.

Lemma markOffline_alone F clientID d z w' tr : run quiet (markOffline F clientID) (mkWorld d z None) tt w' tr →
  ∃ now, wDb w' = <[redisLastSeenKey clientID := RString (F now)]> d.
Proof.
  intros (now & w1 & tr1 & tr2 & [tr' [-> _]]%run_quiet_ask & Hr & _)%run_bind. exists now.
  by apply run_bind in Hr as (r & w2 & tr3 & tr4 & [_ ->]%run_quiet_redis & (_ & -> & _) & _).
Qed.
End ends.

(** ** Programs that only read, alone with a reliable server *)
Section quietly.
  Context `{RedisServer} `{!RedisDocumented} (d : db) (z : Z).

Definition quietly {A} (p : prog A) (P : A → Prop) : Prop :=
  ∀ a w' tr, run quiet p (mkWorld d z None) a w' tr → P a ∧ w' = mkWorld d z None.
(** It succeeds with a result in [P]. *)
Definition succeeds {A} (p : prog (result A)) (P : A → Prop) : Prop := quietly p (λ r, ∃ a, r = inr a ∧ P a).

Lemma quietly_ret {A} (a : A) (P : A → Prop) : P a → quietly (Ret a) P.
Proof. intros Ha a' w' tr (-> & -> & _). done. Qed.
Lemma succeeds_ok {A} (a : A) (P : A → Prop) : P a → succeeds (ok a) P.
Proof. intros Ha. apply quietly_ret. eauto. Qed.

Lemma quietly_bind {A B} (p : prog A) (f : A → prog B) P Q : quietly p P → (∀ a, P a → quietly (f a) Q) → quietly (p ≫= f) Q.
Proof. intros Hp Hf b w' tr (a & w1 & tr1 & tr2 & [Ha ->]%Hp & Hb & _)%run_bind. by eapply Hf. Qed.
Lemma succeeds_ebind {A B} (p : prog (result A)) (f : A → prog (result B)) P Q :
  succeeds p P → (∀ a, P a → succeeds (f a) Q) → succeeds (ebind p f) Q.
Proof. intros Hp Hf. eapply quietly_bind; [exact Hp|]. intros r (a & -> & Ha). by apply Hf. Qed.

Lemma quietly_weaken {A} (p : prog A) (P Q : A → Prop) : quietly p P → (∀ a, P a → Q a) → quietly p Q.
Proof. intros Hp HPQ a w' tr [Ha ->]%Hp. auto. Qed.

Lemma quietly_read {A} (c : cmd A) r : documented c d = (r, d) → quietly (ask (Do c)) (λ x, x = r).
Proof. intros Hc x w' tr [tr' [-> ->]%answered_quiet]%run_quiet_ask. by rewrite redis_documented, Hc. Qed.
Lemma succeeds_redis {A} (c : cmd A) a : documented c d = (inr a, d) → succeeds (redis c) (λ x, x = a).
Proof. intros Hc. eapply quietly_bind; [by apply quietly_read|]. intros x ->. apply quietly_ret. eauto. Qed.

Lemma quietly_order {A} (l : list A) : quietly (ask (Order l)) (λ l', l' ≡ₚ l).
Proof. intros l' w' tr Hr. by apply run_quiet_order in Hr. Qed.

Lemma quietly_for_each {A B} (f : A → prog B) l (P : A → B → Prop) :
  (∀ x, x ∈ l → quietly (f x) (P x)) → quietly (for_each f l) (Forall2 P l).
Proof.
  induction l as [|x l IH]; intros Hf; [apply quietly_ret; constructor|]. cbn [for_each].
  eapply quietly_bind; [apply Hf; left|]. intros y Hy. eapply quietly_bind; [apply IH; intros; apply Hf; by right|].
  intros ys Hys. apply quietly_ret. by constructor.
Qed.

Lemma succeeds_traverse {A B} (f : A → prog (result B)) l (P : A → B → Prop) :
  (∀ x, x ∈ l → succeeds (f x) (P x)) → succeeds (traverse f l) (Forall2 P l).
Proof.
  induction l as [|x l IH]; intros Hf; [apply succeeds_ok; constructor|]. cbn [traverse].
  eapply succeeds_ebind; [apply Hf; left|]. intros y Hy. eapply succeeds_ebind; [apply IH; intros; apply Hf; by right|].
  intros ys Hys. apply succeeds_ok. by constructor.
Qed.

Lemma traverse_map {A B C} (f : B → prog (result C)) (g : A → B) l : traverse f (map g l) = traverse (λ x, f (g x)) l.
Proof. induction l as [|x l IH]; [done|]. cbn. by rewrite IH. Qed.

(** A scan gets all its pages when the fuel covers them. *)
Lemma succeeds_scan {A B} fuel (page : N → cmd (list A * N)) (pages_of : N → list A * N) (f : list A → prog (result (list B)))
    cursor pages (P : list A → list B → Prop) :
  (∀ c, documented (page c) d = (inr (pages_of c), d)) → scanned pages_of cursor pages → length pages <= fuel →
  (∀ l, l ∈ pages → succeeds (f l) (P l)) →
  succeeds (scan_pages fuel page f cursor) (λ out, ∃ outs, out = concat outs ∧ Forall2 P pages outs).
Proof.
  intros Hpage Hs. revert fuel. induction Hs as [cursor l E|cursor l next ls E Hne Hs IH]; intros fuel Hfuel Hf;
    (destruct fuel as [|fuel]; [cbn in Hfuel; lia|]); cbn [scan_pages];
    (eapply succeeds_ebind; [apply succeeds_redis; rewrite Hpage, E; done|]); intros x ->;
    (eapply succeeds_ebind; [apply Hf; left|]); intros out Hout.
  - apply succeeds_ok. exists [out]. cbn. rewrite app_nil_r. split; [done|by repeat constructor].
  - destruct (N.eqb_spec next 0); [done|]. eapply succeeds_ebind; [apply IH; [cbn in Hfuel; lia|intros; apply Hf; by right]|].
    intros rest (outs & -> & Houts). apply succeeds_ok. exists (out :: outs). split; [done|by constructor].
Qed.
End quietly.

(** ** The inventory of offline sessions *)

(** Every key of a stored session has its type. *)
Definition typed_session (d : db) (id : string) : Prop :=
  (∃ r, string_at d (redisClientKey id) = inr r) ∧ (∃ r, string_at d (redisLastSeenKey id) = inr r) ∧
  ∃ h, hash_at d (redisSubKey id) = inr h.

(** What is stored of the offline session of [id]. *)
Definition stored_session (ParseTime : string → option Z) (d : db) (id : string) (s : OfflineSession) : Prop :=
  ∃ raw c h rows seen, string_at d (redisClientKey id) = inr (Some raw) ∧ Client_UnmarshalBinary raw = Some c ∧
    hash_at d (redisSubKey id) = inr h ∧ rows ≡ₚ (map_to_list h).*2 ∧ string_at d (redisLastSeenKey id) = inr seen ∧
    s = mkOfflineSession (scID c) (sessSubscriptions (FromStorage (scID c) (decodeSubscriptions rows))) (seen ≫= ParseTime).

Lemma exec_error_none l : Forall (λ o, ∀ e, o ≠ PErr e) l → exec_error l = None.
Proof.
  intros Hl. unfold exec_error. assert (existsb (λ o, match o with PErr ConnErr => true | _ => false end) l = false) as ->.
  { induction Hl as [|o l Ho _ IH]; [done|]. cbn. rewrite IH. destruct o as [| |[]]; try done. by destruct (Ho ConnErr). }
  induction Hl as [|o l Ho _ IH]; [done|]. cbn. destruct o; [done|done|]. by destruct (Ho e).
Qed.

Lemma Forall2_In_r {A B} (P : A → B → Prop) l k y : Forall2 P l k → y ∈ k → ∃ x, x ∈ l ∧ P x y.
Proof. intros Hf [i Hi]%list_elem_of_lookup. destruct (Forall2_lookup_r _ _ _ _ _ Hf Hi) as (x & ? & ?). exists x. split; [by eapply list_elem_of_lookup_2|done]. Qed.
Lemma Forall2_In_l {A B} (P : A → B → Prop) l k x : Forall2 P l k → x ∈ l → ∃ y, y ∈ k ∧ P x y.
Proof. intros Hf [i Hi]%list_elem_of_lookup. destruct (Forall2_lookup_l _ _ _ _ _ Hf Hi) as (y & ? & ?). exists y. split; [by eapply list_elem_of_lookup_2|done]. Qed.

Section inventory.
  Context `{RedisServer} `{!RedisDocumented} (ParseTime : string → option Z) (d : db) (z : Z).
  #[local] Opaque Client_UnmarshalBinary.

Lemma inventory_replies_spec id : typed_session d id →
  quietly d z (inventory_replies id)
    (λ x, x = (string_at d (redisClientKey id), string_at d (redisLastSeenKey id), hash_at d (redisSubKey id))).
Proof.
  intros ((c & Hc) & (l & Hl) & (h & Hh)). rewrite Hc, Hl, Hh.
  eapply quietly_bind; [apply quietly_read; cbn [documented]; rewrite Hc; done|]. intros ? ->.
  eapply quietly_bind; [apply quietly_read; cbn [documented]; rewrite Hl; done|]. intros ? ->.
  eapply quietly_bind; [apply quietly_read; cbn [documented]; rewrite Hh; done|]. intros ? ->. by apply quietly_ret.
Qed.

(** One session for a client whose record can be decoded, none otherwise. *)
Definition inventory_entry (id : string) (out : list OfflineSession) : Prop :=
  match string_at d (redisClientKey id) with
  | inr (Some raw) => if Client_UnmarshalBinary raw is Some _ then ∃ s, out = [s] ∧ stored_session ParseTime d id s else out = []
  | _ => out = []
  end.

Lemma inventory_session_spec id : typed_session d id →
  succeeds d z (inventory_session ParseTime (string_at d (redisClientKey id), string_at d (redisLastSeenKey id), hash_at d (redisSubKey id)))
    (inventory_entry id).
Proof.
  intros ((c & Hc) & (l & Hl) & (h & Hh)). unfold inventory_entry, inventory_session. rewrite Hc, Hl, Hh.
  destruct c as [raw|]; [|by apply succeeds_ok]. destruct (Client_UnmarshalBinary raw) as [c|] eqn:Ec; [|by apply succeeds_ok].
  eapply quietly_bind; [apply quietly_order|]. intros rows Hrows. apply succeeds_ok. eexists. split; [done|].
  exists raw, c, h, rows, l. by split_and!.
Qed.

Lemma inventory_page_spec live ids : (∀ id, id ∈ ids → typed_session d id) →
  succeeds d z (inventory_page ParseTime live ids)
    (λ out, ∃ outs, out = concat outs ∧ Forall2 inventory_entry (List.filter (λ id, negb (present live id)) ids) outs).
Proof.
  intros Ht. unfold inventory_page. set (l := List.filter _ ids).
  assert (∀ id, id ∈ l → typed_session d id) as Htl.
  { intros id. unfold l. rewrite list_elem_of_In, List.filter_In, <-list_elem_of_In. intros [? _]. auto. }
  eapply quietly_bind; [apply quietly_for_each; intros id Hid; apply inventory_replies_spec, Htl, Hid|].
  intros replies Hr. cbv beta. assert (replies = map (λ id, (string_at d (redisClientKey id), string_at d (redisLastSeenKey id), hash_at d (redisSubKey id))) l) as ->.
  { clear Htl. induction Hr as [|id x l' xs -> _ IH]; [done|]. cbn. by rewrite IH. }
  rewrite exec_error_none.
  - rewrite traverse_map. eapply succeeds_ebind; [apply succeeds_traverse; intros id Hid; apply inventory_session_spec, Htl, Hid|].
    intros outs Houts. apply succeeds_ok. by exists outs.
  - rewrite map_map. apply Forall_forall. intros o (os & Ho & Hos)%list_elem_of_In%List.in_concat.
    apply List.in_map_iff in Ho as (id & <- & Hid%list_elem_of_In). destruct (Htl _ Hid) as ((c & Hc) & (t & Ht') & (h & Hh)).
    rewrite Hc, Ht', Hh in Hos. intros e ->. cbn in Hos. destruct c, t; naive_solver.
Qed.

(** The pages of a scan together. *)
Lemma inventory_pages (live : gmap string string) pages outs :
  Forall2 (λ ids out, ∃ outs, out = concat outs ∧ Forall2 inventory_entry (List.filter (λ id, negb (present live id)) ids) outs) pages outs →
  (∀ s, s ∈ concat outs → ∃ id, id ∈ concat pages ∧ live !! id = None ∧ stored_session ParseTime d id s) ∧
  (∀ id raw, id ∈ concat pages → live !! id = None → string_at d (redisClientKey id) = inr (Some raw) → is_Some (Client_UnmarshalBinary raw) →
     ∃ s, s ∈ concat outs ∧ stored_session ParseTime d id s).
Proof.
  induction 1 as [|ids out pages outs (os & -> & Hos) _ [IH1 IH2]]; [by split; [intros ? ?%not_elem_of_nil|intros ? ? ?%not_elem_of_nil]|].
  cbn [concat]. setoid_rewrite elem_of_app.
  assert (∀ id, id ∈ List.filter (λ id, negb (present live id)) ids ↔ id ∈ ids ∧ live !! id = None) as Hf.
  { intros id. by rewrite list_elem_of_In, List.filter_In, <-list_elem_of_In, negb_true_iff, present_false. }
  split.
  - intros s [Hs|Hs]; [|naive_solver]. apply list_elem_of_In, List.in_concat in Hs as (o & Ho%list_elem_of_In & Hs%list_elem_of_In).
    destruct (Forall2_In_r _ _ _ _ Hos Ho) as (id & [Hid Hl]%Hf & He). exists id. split; [by left|]. split; [done|].
    unfold inventory_entry in He. destruct (string_at d (redisClientKey id)) as [|[raw|]];
      [|destruct (Client_UnmarshalBinary raw); [destruct He as (s' & -> & Hst); by apply list_elem_of_singleton in Hs as ->|]|];
      subst o; by apply not_elem_of_nil in Hs.
  - intros id raw [Hid|Hid] Hl Hr Hc; [|destruct (IH2 id raw) as (s & ? & ?); eauto].
    destruct (Forall2_In_l _ _ _ id Hos) as (o & Ho & He); [by apply Hf|]. unfold inventory_entry in He. rewrite Hr in He.
    destruct Hc as [c Hc]. rewrite Hc in He. destruct He as (s & -> & Hst). exists s. split; [left|done].
    apply list_elem_of_In, List.in_concat. exists [s]. split; [by apply list_elem_of_In|by left].
Qed.
End inventory.

(** ** Claims *)

(** C31: the end of a session leaves nothing of it behind and touches nobody else.
    Whatever other nodes, other goroutines and the network do meanwhile: a
    connection that was taken over changes nothing; a disconnect that keeps the
    session changes only the client's last-seen time; the only change that a
    disconnect which ends it, or the expiry of a session, makes is to delete in one
    step the client's record, last-seen time, subscriptions, inflight messages and
    packet ID counter and to take the client out of the index; no key of another
    client changes. When the server answers and nobody interferes, they do it: a
    disconnect that keeps the session sets the last-seen time, and one that ends it
    and an expiry leave a database without any key of the client. *)
Theorem ended_sessions_leave_nothing `{RedisServer} `{!RedisDocumented} env FormatTime clientID :
  (∀ takenOver expire, effects env (OnDisconnect FormatTime clientID takenOver expire)
     (λ d1 d2, takenOver = false ∧ session_ended clientID expire d1 d2)) ∧
  effects env (OnClientExpired clientID) (session_ended clientID true) ∧
  (∀ expire d1 d2 c k, session_ended clientID expire d1 d2 → c ≠ clientID → k ∈ session_keys c → d2 !! k = d1 !! k) ∧
  (∀ d z w' tr, run quiet (OnDisconnect FormatTime clientID false false) (mkWorld d z None) tt w' tr →
     ∃ now, wDb w' = <[redisLastSeenKey clientID := RString (FormatTime now)]> d) ∧
  (∀ d z w' tr, run quiet (OnDisconnect FormatTime clientID false true) (mkWorld d z None) tt w' tr ∨
     run quiet (OnClientExpired clientID) (mkWorld d z None) tt w' tr →
     session_ended clientID true d (wDb w') ∧ ∀ k, k ∈ session_keys clientID → wDb w' !! k = None).
Proof.
  split_and!.
  - intros [] expire; [apply effects_ret|]. unfold OnDisconnect. destruct expire; cbn [negb];
      [pose proof (effects_deleteSessionState env clientID) as He|pose proof (effects_markOffline env FormatTime clientID) as He];
      intros w r w' tr Hr%He; (eapply Forall_impl; [exact Hr|]); by intros [].
  - apply effects_deleteSessionState.
  - intros expire d1 d2 c k [Hd _] Hc Hk. apply Hd; [by eapply session_keys_disjoint|]. intros ->. by apply index_not_session_key in Hk.
  - intros d z w' tr. apply markOffline_alone.
  - intros d z w' tr Hr. assert (session_ended clientID true d (wDb w')) as He by (destruct Hr; by eapply deleteSessionState_alone).
    split; [done|]. apply He.
Qed.

Definition example_session : db :=
  {[ redisClientIndex := RSet {["dev"; "dev2"]}; redisPacketIDKey "dev" := RString "7"; redisPacketIDKey "dev2" := RString "9" ]}.

Lemma ended_sessions_leave_nothing_witness :
  effects (H := memory) hostile (OnClientExpired "dev") (session_ended "dev" true) ∧
  bool_decide (wDb (@perform memory _ 0 "" (OnClientExpired "dev") (mkWorld example_session 0 None)).2 =
    {[ redisClientIndex := RSet {["dev2"]}; redisPacketIDKey "dev2" := RString "9" ]}) = true.
Proof.
  split; [|vm_compute; reflexivity]. apply (@ended_sessions_leave_nothing memory _ hostile (λ _, "") "dev").
Defined.

(** The inventory of offline sessions is complete and exact. On a reliable
    server without interference, and with fuel for the pages of the index, it
    succeeds; every session it lists is the stored session of an indexed client
    that is not claimed by a live connection, with the subscriptions stored for
    it; and every such client whose record can be decoded is listed. *)
Theorem offline_inventory_is_exact `{RedisServer} `{!RedisDocumented} ParseTime d z live ids :
  set_at d redisClientIndex = inr ids → (∀ id, id ∈ ids → typed_session d id) →
  ∃ pages, ∀ fuel, pages <= fuel →
  succeeds d z (OfflineInventoryExcept ParseTime fuel live) (λ out,
    (∀ s, s ∈ out → ∃ id, id ∈ ids ∧ live !! id = None ∧ stored_session ParseTime d id s) ∧
    (∀ id raw, id ∈ ids → live !! id = None → string_at d (redisClientKey id) = inr (Some raw) → is_Some (Client_UnmarshalBinary raw) →
       ∃ s, s ∈ out ∧ stored_session ParseTime d id s)).
Proof.
  intros Hi Ht. destruct (redis_sscan ids) as (pages & Hs & Hids). exists (length pages). intros fuel Hfuel.
  eapply quietly_weaken; [eapply succeeds_scan; [|exact Hs|exact Hfuel|]|].
  - intros c. cbn [documented]. by rewrite Hi.
  - intros l Hl. apply inventory_page_spec. intros id Hid. apply Ht. rewrite <-Hids. apply elem_of_list_to_set, list_elem_of_In, List.in_concat.
    exists l. by rewrite <-!list_elem_of_In.
  - intros r (out & -> & outs & -> & Houts). exists (concat outs). split; [done|].
    apply inventory_pages in Houts. rewrite <-Hids. split.
    + intros s Hs'. apply Houts in Hs' as (id & Hid & Hl & Hst). exists id. rewrite elem_of_list_to_set. naive_solver.
    + intros id raw Hid Hl Hr Hc. apply elem_of_list_to_set in Hid. destruct (proj2 Houts id raw) as (s & ? & ?); eauto.
Qed.

Definition example_client : mqttClient := mkMqttClient "dev" "" "tcp" "" false 5 no_properties no_client_will.
Definition example_inventory : db :=
  {[ redisClientIndex := RSet {["dev"]}; redisClientKey "dev" := RString (Client_MarshalBinary (stored_client example_client)) ]}.

Lemma offline_inventory_is_exact_witness : ∃ pages, ∀ fuel, pages <= fuel →
  succeeds (H := memory) example_inventory 0 (OfflineInventoryExcept (λ _, None) fuel ∅)
    (λ out, ∃ s, s ∈ out ∧ stored_session (λ _, None) example_inventory "dev" s).
Proof.
  destruct (@offline_inventory_is_exact memory _ (λ _, None) example_inventory 0 ∅ {["dev"]}) as [pages Hp].
  - vm_compute. reflexivity.
  - intros id ->%elem_of_singleton. split_and!; eexists; vm_compute; reflexivity.
  - exists pages. intros fuel Hf. eapply quietly_weaken; [exact (Hp fuel Hf)|]. intros r (out & -> & _ & Hall).
    exists out. split; [done|]. apply (Hall "dev" (Client_MarshalBinary (stored_client example_client)));
      [by apply elem_of_singleton|done|vm_compute; reflexivity|eexists; vm_compute; reflexivity].
Defined.
