(* ===== verification/OfflineLock.v ===== *)
(** * The in-process lock of an offline client

    RedisSessionHook.lockOfflineClient (redis_session.go): goroutines that queue
    messages for the same client take turns on a one-slot channel that lives as
    long as somebody uses it. Pointers are addresses of a heap, so that the entry
    a goroutine deletes from the map and the lock it holds are told apart. The
    model interleaves any number of goroutines; the sections under the mutex, the
    channel operations and the cancellation of a context are single steps. *)
From stdpp Require Import base gmap sets list strings.
From S2P Require Import Prelude.

(** offlineClientLock: [tokenFull] says that the channel holds its token. *)
Record offlineClientLock := mkLock {
  refs : nat;
  tokenFull : bool;
}.

(** Where a goroutine is: outside; at the select; inside, with the release function
    in hand; at releaseRef, after a cancellation or after giving the token back. *)
Inductive goroutine :=
  | Outside
  | Selecting (clientID : string) (lock : nat)
  | Inside (clientID : string) (lock : nat)
  | Releasing (clientID : string) (lock : nat).

Record lockState := mkLockState {
  offlineLocks : gmap string nat;
  heap : gmap nat offlineClientLock;
  goroutines : gmap nat goroutine;
}.

Definition initial : lockState := mkLockState ∅ ∅ ∅.

(** The first critical section: find or make the lock and count the reference.
    [fresh] is the address that an allocation gets. *)
Definition take_ref (clientID : string) (fresh : nat) (s : lockState) : nat * lockState :=
  let '(lock, locks, h) :=
    match offlineLocks s !! clientID with
    | Some lock => (lock, offlineLocks s, heap s)
    | None => (fresh, <[clientID := fresh]> (offlineLocks s), <[fresh := mkLock 0 false]> (heap s))
    end in
  (lock, mkLockState locks (alter (λ l, mkLock (S (refs l)) (tokenFull l)) lock h) (goroutines s)).

(** releaseRef *)
Definition releaseRef (clientID : string) (lock : nat) (s : lockState) : lockState :=
  let h := alter (λ l, mkLock (pred (refs l)) (tokenFull l)) lock (heap s) in
  let locks := match h !! lock with
               | Some l => if decide (refs l = 0) then delete clientID (offlineLocks s) else offlineLocks s
               | None => offlineLocks s
               end in
  mkLockState locks h (goroutines s).

Definition set_token (full : bool) (lock : nat) (s : lockState) : lockState :=
  mkLockState (offlineLocks s) (alter (λ l, mkLock (refs l) full) lock (heap s)) (goroutines s).

Definition goto (g : nat) (st : goroutine) (s : lockState) : lockState :=
  mkLockState (offlineLocks s) (heap s) (<[g := st]> (goroutines s)).

Definition at_state (s : lockState) (g : nat) : goroutine := default Outside (goroutines s !! g).

Inductive step : lockState → lockState → Prop :=
  (** A call starts; a context that is cancelled already returns without a trace. *)
  | step_enter s g clientID fresh lock s1 : at_state s g = Outside → heap s !! fresh = None →
      take_ref clientID fresh s = (lock, s1) → step s (goto g (Selecting clientID lock) s1)
  (** The select: the send when the slot is empty, or the cancellation. *)
  | step_acquire s g clientID lock l : at_state s g = Selecting clientID lock → heap s !! lock = Some l → tokenFull l = false →
      step s (goto g (Inside clientID lock) (set_token true lock s))
  | step_cancel s g clientID lock : at_state s g = Selecting clientID lock → step s (goto g (Releasing clientID lock) s)
  (** The release function: the receive, then releaseRef. *)
  | step_release s g clientID lock l : at_state s g = Inside clientID lock → heap s !! lock = Some l → tokenFull l = true →
      step s (goto g (Releasing clientID lock) (set_token false lock s))
  | step_unref s g clientID lock : at_state s g = Releasing clientID lock →
      step s (goto g Outside (releaseRef clientID lock s)).

Definition reachable (s : lockState) : Prop := rtc step initial s.

(** ** Invariant *)

Definition uses (st : goroutine) : option (string * nat) :=
  match st with Outside => None | Selecting c l | Inside c l | Releasing c l => Some (c, l) end.
Definition inside (st : goroutine) : option (string * nat) := match st with Inside c l => Some (c, l) | _ => None end.

(** The goroutines for which [f] gives [x]. *)
Definition having (f : goroutine → option (string * nat)) (x : string * nat) (gs : gmap nat goroutine) : nat :=
  size (filter (λ p : nat * goroutine, f p.2 = Some x) gs).

(** The map holds exactly the locks in use, under the client of their users; the
    count of a lock is the number of its users and its slot is full when one of
    them is inside. *)
Record lock_inv (s : lockState) : Prop := {
  inv_lock : ∀ c l, offlineLocks s !! c = Some l → ∃ k, heap s !! l = Some k ∧ refs k ≠ 0 ∧
    refs k = having uses (c, l) (goroutines s) ∧ having inside (c, l) (goroutines s) = if tokenFull k then 1 else 0;
  inv_use : ∀ g st c l, goroutines s !! g = Some st → uses st = Some (c, l) → offlineLocks s !! c = Some l;
  inv_inj : ∀ c c' l, offlineLocks s !! c = Some l → offlineLocks s !! c' = Some l → c = c';
}.

(** Moving one goroutine changes a count by at most one. *)
Lemma having_goto f x g st (gs : gmap nat goroutine) : f Outside = None →
  having f x (<[g := st]> gs) + (if decide (f (default Outside (gs !! g)) = Some x) then 1 else 0) =
  having f x gs + (if decide (f st = Some x) then 1 else 0).
Proof.
  intros Ho. unfold having. rewrite map_filter_insert. cbn [snd].
  assert (filter (λ p : nat * goroutine, f p.2 = Some x) gs !! g = if decide (f (default Outside (gs !! g)) = Some x) then gs !! g else None) as Hg.
  { rewrite map_lookup_filter. destruct (gs !! g) as [st'|] eqn:E; cbn; [|by rewrite decide_False by by rewrite Ho].
    destruct (decide (f st' = Some x)); [by rewrite option_guard_True|by rewrite option_guard_False]. }
  assert (f (default Outside (gs !! g)) = Some x → is_Some (gs !! g)) as Hs by (destruct (gs !! g); [eauto|cbn; congruence]).
  destruct (decide (f st = Some x)).
  - rewrite map_size_insert, Hg. destruct (decide (f (default Outside (gs !! g)) = Some x)) as [E|E]; [|unfold id; lia]. destruct (Hs E) as [? ->]. unfold id. lia.
  - rewrite map_filter_delete, map_size_delete, Hg. destruct (decide (f (default Outside (gs !! g)) = Some x)) as [E|E]; [|unfold id; lia].
    destruct (Hs E) as [st' Hst]. rewrite Hst in *. cbn in *. assert (size (filter (λ p : nat * goroutine, f p.2 = Some x) gs) ≠ 0); [|lia].
    intros Hz%map_size_empty_inv. by rewrite Hz in Hg.
Qed.

Lemma having_pos f x gs g st : gs !! g = Some st → f st = Some x → having f x gs ≠ 0.
Proof.
  intros Hg Hf Hz%map_size_empty_inv. assert (filter (λ p : nat * goroutine, f p.2 = Some x) gs !! g = Some st) as E by by apply map_lookup_filter_Some.
  by rewrite Hz in E.
Qed.

Lemma having_one f x gs g1 g2 st1 st2 : f Outside = None → having f x gs <= 1 →
  gs !! g1 = Some st1 → f st1 = Some x → gs !! g2 = Some st2 → f st2 = Some x → g1 = g2.
Proof.
  intros Ho Hle H1 F1 H2 F2. destruct (decide (g1 = g2)) as [|Hne]; [done|]. exfalso.
  pose proof (having_goto f x g1 Outside gs Ho) as E. rewrite H1 in E. cbn in E. rewrite decide_True, decide_False in E by (rewrite ?Ho; done).
  assert (having f x (<[g1 := Outside]> gs) ≠ 0) as Hp; [|lia]. apply (having_pos _ _ _ g2 st2); [by rewrite lookup_insert_ne|done].
Qed.

(** Counts after a goroutine moved to [st]. *)
Lemma uses_goto s g st x : having uses x (goroutines (goto g st s)) + (if decide (uses (at_state s g) = Some x) then 1 else 0) =
  having uses x (goroutines s) + (if decide (uses st = Some x) then 1 else 0).
Proof. by apply having_goto. Qed.
Lemma inside_goto s g st x : having inside x (goroutines (goto g st s)) + (if decide (inside (at_state s g) = Some x) then 1 else 0) =
  having inside x (goroutines s) + (if decide (inside st = Some x) then 1 else 0).
Proof. by apply having_goto. Qed.

Lemma at_use s g st c l : lock_inv s → at_state s g = st → uses st = Some (c, l) →
  offlineLocks s !! c = Some l ∧ goroutines s !! g = Some st.
Proof.
  intros Hi Ha Hu. unfold at_state in Ha. destruct (goroutines s !! g) as [st'|] eqn:E; cbn in Ha; [|by subst st].
  subst st'. split; [by eapply inv_use|done].
Qed.

Lemma use_goto s g st g' st' c l : goroutines (goto g st s) !! g' = Some st' → uses st' = Some (c, l) →
  (g' = g ∧ uses st = Some (c, l)) ∨ (g' ≠ g ∧ goroutines s !! g' = Some st').
Proof. cbn. intros [[<- <-]|[? ?]]%lookup_insert_Some ?; [by left|by right]. Qed.

(** A step that moves a user of a lock and may fill or empty its slot. *)
Lemma inv_move s g st st' c l (full : bool) k : lock_inv s → at_state s g = st → uses st = Some (c, l) → uses st' = Some (c, l) →
  heap s !! l = Some k → having inside (c, l) (goroutines (goto g st' s)) = (if full then 1 else 0) →
  lock_inv (goto g st' (set_token full l s)).
Proof.
  intros Hi Ha Hu Hu' Hk Hfull. destruct (at_use _ _ _ _ _ Hi Ha Hu) as [Hl Hg]. split; cbn.
  - intros c0 l0 H0. destruct (inv_lock _ Hi _ _ H0) as (k0 & Hk0 & Hr & Hn & Hin).
    pose proof (uses_goto s g st' (c0, l0)) as E. rewrite Ha, Hu, Hu' in E. cbn in E.
    destruct (decide (l0 = l)) as [->|Hne].
    + assert (c0 = c) as -> by by eapply inv_inj. simplify_eq. eexists. rewrite lookup_alter_eq, Hk. cbn.
      split_and!; [done|done|cbn; lia|done].
    + exists k0. rewrite lookup_alter_ne by done. split_and!; [done|done|lia|].
      pose proof (inside_goto s g st' (c0, l0)) as E'. rewrite Ha in E'. cbn in E'.
      assert (∀ x, uses x = Some (c, l) → inside x ≠ Some (c0, l0)) as Hx by (intros []; cbn; congruence).
      rewrite !decide_False in E' by eauto. rewrite <-Hin. lia.
  - intros g' st0 c0 l0 H0 Hu0. destruct (use_goto s g st' g' st0 c0 l0 H0 Hu0) as [[_ E]|[_ E]]; [congruence|by eapply inv_use].
  - apply Hi.
Qed.

Lemma having_zero f x gs : (∀ g st, gs !! g = Some st → f st ≠ Some x) → having f x gs = 0.
Proof. intros Hx. unfold having. apply map_size_empty_iff, map_empty. intros g. rewrite map_lookup_filter_None. right. intros st Hg. by apply (Hx g st). Qed.

(** Moving to a place that is not inside keeps the number inside, when the goroutine
    was not inside before. *)
Lemma inside_kept s g st x : inside (at_state s g) = None → inside st = None →
  having inside x (goroutines (goto g st s)) = having inside x (goroutines s).
Proof. intros H1 H2. pose proof (inside_goto s g st x) as E. rewrite H1, H2, !decide_False in E by done. lia. Qed.

(** The reference goes to the lock in the map, or to a new one that is put there. *)
Lemma take_ref_spec s c fresh l s1 : lock_inv s → take_ref c fresh s = (l, s1) →
  goroutines s1 = goroutines s ∧
  (offlineLocks s !! c = Some l ∧ offlineLocks s1 = offlineLocks s ∧
     (∃ k, heap s !! l = Some k ∧ heap s1 = <[l := mkLock (S (refs k)) (tokenFull k)]> (heap s)) ∨
   offlineLocks s !! c = None ∧ l = fresh ∧ offlineLocks s1 = <[c := l]> (offlineLocks s) ∧ heap s1 = <[l := mkLock 1 false]> (heap s)).
Proof.
  intros Hi Ht. unfold take_ref in Ht. destruct (offlineLocks s !! c) as [l'|] eqn:El; simplify_eq/=; (split; [done|]).
  - left. destruct (inv_lock _ Hi _ _ El) as (k & Hk & _). split_and!; [done|done|]. exists k. split; [done|].
    apply map_eq. intros i. destruct (decide (i = l)) as [->|]; [by rewrite lookup_alter_eq, Hk, lookup_insert_eq|by rewrite lookup_alter_ne, lookup_insert_ne].
  - right. split_and!; [done|done|done|]. apply map_eq. intros i.
    destruct (decide (i = l)) as [->|]; [by rewrite lookup_alter_eq, !lookup_insert_eq|by rewrite lookup_alter_ne, !lookup_insert_ne].
Qed.

Lemma inv_enter s g c fresh l s1 : lock_inv s → at_state s g = Outside → heap s !! fresh = None →
  take_ref c fresh s = (l, s1) → lock_inv (goto g (Selecting c l) s1).
Proof.
  intros Hi Ha Hf Ht. destruct (take_ref_spec _ _ _ _ _ Hi Ht) as [Hgs Hcase].
  assert (∀ c0, offlineLocks s !! c0 ≠ Some fresh) as Hnf.
  { intros c0 H0. destruct (inv_lock _ Hi _ _ H0) as (k & Hk & _). congruence. }
  clear Ht. assert (∀ c0 l0, having uses (c0, l0) (goroutines (goto g (Selecting c l) s)) =
    having uses (c0, l0) (goroutines s) + if decide ((c, l) = (c0, l0)) then 1 else 0) as Hu.
  { intros c0 l0. pose proof (uses_goto s g (Selecting c l) (c0, l0)) as E. rewrite Ha, (decide_False (P := uses Outside = _)) in E by done. cbn [uses] in E.
    destruct (decide (Some (c, l) = Some (c0, l0))), (decide ((c, l) = (c0, l0))); try congruence; lia. }
  assert (∀ x, having inside x (goroutines (goto g (Selecting c l) s)) = having inside x (goroutines s)) as Hin by (intros; apply inside_kept; by rewrite ?Ha).
  cbn in Hu, Hin. split; cbn; rewrite ?Hgs.
  - intros c0 l0 H0. rewrite Hu, Hin. destruct Hcase as [(El & E1 & k & Hk & E2)|(El & -> & E1 & E2)]; rewrite E1 in H0; rewrite E2.
    + destruct (inv_lock _ Hi _ _ H0) as (k0 & Hk0 & Hr & Hn & Hc). destruct (decide (l0 = l)) as [->|Hne].
      * assert (c0 = c) as -> by by eapply inv_inj. simplify_eq. exists (mkLock (S (refs k)) (tokenFull k)). rewrite lookup_insert_eq, decide_True by done. cbn. split_and!; [done|lia|lia|done].
      * exists k0. rewrite lookup_insert_ne, decide_False by congruence. split_and!; [done|done|lia|done].
    + apply lookup_insert_Some in H0 as [[<- <-]|[Hc0 H0]].
      * exists (mkLock 1 false). rewrite lookup_insert_eq, decide_True by done. cbn. rewrite !having_zero; [done| |].
        -- intros g0 st0 Hg0 Hi0. assert (uses st0 = Some (c, fresh)) as Hu0 by by destruct st0. by rewrite (inv_use _ Hi _ _ _ _ Hg0 Hu0) in El.
        -- intros g0 st0 Hg0 Hu0. by rewrite (inv_use _ Hi _ _ _ _ Hg0 Hu0) in El.
      * destruct (inv_lock _ Hi _ _ H0) as (k0 & Hk0 & Hr & Hn & Hc). exists k0.
        rewrite lookup_insert_ne, decide_False by (congruence || by intros ->; destruct (Hnf c0)). split_and!; [done|done|lia|done].
  - intros g0 st0 c0 l0 H0 Hu0. destruct (use_goto s g (Selecting c l) g0 st0 c0 l0 H0 Hu0) as [[_ [= <- <-]]|[_ Hg0]].
    + destruct Hcase as [(? & -> & _)|(_ & _ & -> & _)]; [done|by rewrite lookup_insert_eq].
    + pose proof (inv_use _ Hi _ _ _ _ Hg0 Hu0) as Hl0. destruct Hcase as [(? & -> & _)|(El & _ & -> & _)]; [done|]. rewrite lookup_insert_ne; [done|congruence].
  - intros c0 c1 l0. destruct Hcase as [(? & -> & _)|(El & -> & -> & _)]; [by eapply inv_inj|].
    intros [[<- <-]|[? H1]]%lookup_insert_Some [[<- ?]|[? H2]]%lookup_insert_Some; subst; try done;
      [by destruct (Hnf c1)|by destruct (Hnf c0)|by eapply inv_inj].
Qed.

Lemma inv_unref s g c l : lock_inv s → at_state s g = Releasing c l → lock_inv (goto g Outside (releaseRef c l s)).
Proof.
  intros Hi Ha. destruct (at_use _ _ _ c l Hi Ha eq_refl) as [Hl _]. destruct (inv_lock _ Hi _ _ Hl) as (k & Hk & Hr & Hn & Hc).
  assert (∀ x, having uses x (goroutines (goto g Outside s)) + (if decide ((c, l) = x) then 1 else 0) = having uses x (goroutines s)) as Hu.
  { intros x. pose proof (uses_goto s g Outside x) as E. rewrite Ha, (decide_False (P := uses Outside = _)) in E by done. cbn [uses] in E.
    destruct (decide (Some (c, l) = Some x)), (decide ((c, l) = x)); try congruence; lia. }
  assert (∀ x, having inside x (goroutines (goto g Outside s)) = having inside x (goroutines s)) as Hin by (intros; apply inside_kept; by rewrite ?Ha).
  assert (∀ g' st c' l', goroutines (goto g Outside s) !! g' = Some st → uses st = Some (c', l') → offlineLocks s !! c' = Some l') as Huse.
  { intros g' st c' l' H' Hu'. destruct (use_goto s g Outside g' st c' l' H' Hu') as [[_ [=]]|[_ ?]]. by eapply inv_use. }
  cbn in Hu, Hin, Huse. unfold releaseRef. rewrite lookup_alter_eq, Hk. cbn [fmap option_fmap option_map refs].
  assert (∀ c0 l0, offlineLocks s !! c0 = Some l0 → (c0 = c → pred (refs k) ≠ 0) → ∃ k0,
    alter (λ l, mkLock (pred (refs l)) (tokenFull l)) l (heap s) !! l0 = Some k0 ∧ refs k0 ≠ 0 ∧
    refs k0 = having uses (c0, l0) (<[g := Outside]> (goroutines s)) ∧
    having inside (c0, l0) (<[g := Outside]> (goroutines s)) = if tokenFull k0 then 1 else 0) as Hlocks.
  { intros c0 l0 H0 Hd. specialize (Hu (c0, l0)). rewrite Hin. destruct (decide (l0 = l)) as [->|Hne].
    - assert (c0 = c) as -> by by eapply inv_inj. rewrite decide_True in Hu by done. exists (mkLock (pred (refs k)) (tokenFull k)).
      rewrite lookup_alter_eq, Hk. cbn. split_and!; [done|by apply Hd|lia|done].
    - rewrite decide_False in Hu by congruence. destruct (inv_lock _ Hi _ _ H0) as (k0 & ? & ? & ? & ?). exists k0.
      rewrite lookup_alter_ne by done. split_and!; [done|done|lia|done]. }
  destruct (decide (pred (refs k) = 0)) as [Hz|Hz]; split; cbn.
  - intros c0 l0 [Hne H0]%lookup_delete_Some. apply Hlocks; [done|congruence].
  - intros g' st c' l' H' Hu'. pose proof (Huse _ _ _ _ H' Hu') as H1. apply lookup_delete_Some. split; [|done]. intros <-.
    assert (l' = l) as -> by congruence. specialize (Hu (c, l)). rewrite decide_True in Hu by done.
    destruct (having_pos uses (c, l) (<[g := Outside]> (goroutines s)) g' st); [done|done|lia].
  - intros c0 c1 l0 [_ H0]%lookup_delete_Some [_ H1]%lookup_delete_Some. by eapply inv_inj.
  - intros c0 l0 H0. by apply Hlocks.
  - done.
  - apply Hi.
Qed.

Lemma step_inv s s' : step s s' → lock_inv s → lock_inv s'.
Proof.
  intros Hs Hi. destruct Hs as [s g c fresh l s1 Ha Hf Ht|s g c l k Ha Hk Hfree|s g c l Ha|s g c l k Ha Hk Hfull|s g c l Ha].
  - by eapply inv_enter.
  - destruct (at_use _ _ _ c l Hi Ha eq_refl) as [Hl _]. destruct (inv_lock _ Hi _ _ Hl) as (k' & Hk' & _ & _ & Hc).
    eapply inv_move; [done|exact Ha|done|done|done|]. pose proof (inside_goto s g (Inside c l) (c, l)) as E.
    rewrite Ha, (decide_True (P := inside (Inside c l) = _)), decide_False in E by done. simplify_eq. rewrite Hfree in Hc. lia.
  - destruct (at_use _ _ _ c l Hi Ha eq_refl) as [Hl _]. destruct (inv_lock _ Hi _ _ Hl) as (k & Hk & _ & _ & Hc).
    assert (goto g (Releasing c l) s = goto g (Releasing c l) (set_token (tokenFull k) l s)) as ->.
    { unfold goto, set_token. f_equal. apply map_eq. intros i. cbn. destruct (decide (i = l)) as [->|]; [rewrite lookup_alter_eq, Hk; by destruct k|by rewrite lookup_alter_ne]. }
    eapply inv_move; [done|exact Ha|done|done|done|]. rewrite inside_kept; [done|by rewrite Ha|done].
  - destruct (at_use _ _ _ c l Hi Ha eq_refl) as [Hl _]. destruct (inv_lock _ Hi _ _ Hl) as (k' & Hk' & _ & _ & Hc).
    eapply inv_move; [done|exact Ha|done|done|done|]. pose proof (inside_goto s g (Releasing c l) (c, l)) as E.
    rewrite Ha, (decide_False (P := inside (Releasing c l) = _)), decide_True in E by done. simplify_eq. rewrite Hfull in Hc. lia.
  - by apply inv_unref.
Qed.

Lemma reachable_inv s : reachable s → lock_inv s.
Proof.
  assert (lock_inv initial) as H0 by (split; [by intros ? ?|by intros ? ? ? ?|by intros ? ? ?]).
  unfold reachable. intros Hr. induction Hr as [|s1 s2 s3 Hs _ IH]; [done|]. apply IH. by eapply step_inv.
Qed.

(** C37: calls that queue messages for one client take turns. However the calls of a
    node interleave and whichever of them are cancelled: no two are inside for the
    same client; a call that waits while nobody is inside can enter, and a call
    that is inside can give the lock back; and the map holds a lock for exactly
    the clients that some call uses, so that it is empty when no call runs. *)
Theorem offline_lock_excludes s : reachable s →
  (∀ g1 g2 c l1 l2, goroutines s !! g1 = Some (Inside c l1) → goroutines s !! g2 = Some (Inside c l2) → g1 = g2) ∧
  (∀ g c l, goroutines s !! g = Some (Selecting c l) → (∀ g' l', goroutines s !! g' ≠ Some (Inside c l')) →
     ∃ s', step s s' ∧ goroutines s' !! g = Some (Inside c l)) ∧
  (∀ g c l, goroutines s !! g = Some (Inside c l) → ∃ s', step s s' ∧ goroutines s' !! g = Some (Releasing c l)) ∧
  (∀ c, is_Some (offlineLocks s !! c) ↔ ∃ g st l, goroutines s !! g = Some st ∧ uses st = Some (c, l)).
Proof.
  intros Hi%reachable_inv. assert (∀ g st, goroutines s !! g = Some st → at_state s g = st) as Hat by (intros g st E; unfold at_state; by rewrite E).
  split_and!.
  - intros g1 g2 c l1 l2 H1 H2. pose proof (inv_use _ Hi _ _ c l1 H1 eq_refl) as E1. pose proof (inv_use _ Hi _ _ c l2 H2 eq_refl) as E2.
    assert (l2 = l1) as -> by congruence. destruct (inv_lock _ Hi _ _ E1) as (k & _ & _ & _ & Hc).
    eapply (having_one inside (c, l1)); [done| |exact H1|done|exact H2|done]. rewrite Hc. destruct (tokenFull k); lia.
  - intros g c l Hg Hno. pose proof (inv_use _ Hi _ _ c l Hg eq_refl) as E1. destruct (inv_lock _ Hi _ _ E1) as (k & Hk & _ & _ & Hc).
    eexists. split; [eapply step_acquire; [by apply Hat|done|]|by cbn; rewrite lookup_insert_eq].
    destruct (tokenFull k); [|done]. rewrite having_zero in Hc; [done|]. intros g' st Hg'. destruct st; try done. cbn. intros [= -> ->]. by destruct (Hno g' l).
  - intros g c l Hg. pose proof (inv_use _ Hi _ _ c l Hg eq_refl) as E1. destruct (inv_lock _ Hi _ _ E1) as (k & Hk & _ & _ & Hc).
    eexists. split; [eapply step_release; [by apply Hat|done|]|by cbn; rewrite lookup_insert_eq].
    destruct (tokenFull k); [done|]. by destruct (having_pos inside (c, l) (goroutines s) g (Inside c l)).
  - intros c. split; [|by intros (g & st & l & Hg & Hu); exists l; eapply inv_use].
    intros [l Hl]. destruct (inv_lock _ Hi _ _ Hl) as (k & Hk & Hr & Hn & _).
    destruct (decide (map_Forall (λ _ st, uses st ≠ Some (c, l)) (goroutines s))) as [Hf|Hf].
    + rewrite having_zero in Hn; [congruence|]. apply Hf.
    + apply map_not_Forall in Hf as (g & st & Hg & Hu); [|apply _]. exists g, st, l. split; [done|]. destruct (decide (uses st = Some (c, l))); [done|]. by destruct Hu.
Qed.

(** One goroutine is inside and another waits. *)
Definition example_state : lockState :=
  goto 2 (Selecting "dev" 0) (take_ref "dev" 1 (goto 1 (Inside "dev" 0) (set_token true 0 (goto 1 (Selecting "dev" 0) (take_ref "dev" 0 initial).2)))).2.

Lemma example_state_reachable : reachable example_state.
Proof.
  eapply rtc_l; [eapply (step_enter _ 1 "dev" 0); done|]. eapply rtc_l; [eapply (step_acquire _ 1 "dev" 0); done|].
  apply rtc_once. eapply (step_enter _ 2 "dev" 1); done.
Qed.

Lemma offline_lock_excludes_witness : goroutines example_state !! 1 = Some (Inside "dev" 0) ∧
  ∃ s', step example_state s' ∧ goroutines s' !! 1 = Some (Releasing "dev" 0).
Proof.
  split; [done|]. destruct (offline_lock_excludes example_state example_state_reachable) as (_ & _ & Hr & _). by apply Hr.
Defined.
