(* ===== verification/HookAcl.v ===== *)
(** Topic access control of the broker hook: OnACLCheck and its helpers in
    internal/broker/hooks.go. A UUID is its canonical text; uuid.Parse is an
    argument. *)

From S2P Require Import Prelude GoStrings Acl Auth.

(** What the hook keeps of a connection. The connection is identified by the
    address of its mqtt.Client. *)
Record clientState := mkClientState {
  csInfo : DeviceInfo;
  csMethod : AuthMethod;
  csUsername : string;
  csClient : positive;
  csGeneration : N;
}.

Definition isAllowedConsumerSubscribe (topic : string) : bool :=
  let topic := match SharedFilter topic with Some (_, underlying) => underlying | None => topic end in
  if String.eqb topic "telemetry/#" || String.eqb topic "telemetry" then true
  else has_prefix "telemetry/" topic && negb (contains_byte "+" topic || contains_byte "#" topic).

(** [rest[n]] as a byte; 0 past the end, where the code's length guard has
    already failed. *)
Fixpoint nth_byte (s : string) (n : nat) : ascii :=
  match s, n with
  | EmptyString, _ => zero
  | String c _, O => c
  | String _ s, S n => nth_byte s n
  end.

Definition isHonoTopicShape (topic prefix : string) (info : DeviceInfo) : bool :=
  let rest := drop_bytes (String.length prefix) topic in
  let tid := TenantID info in
  (String.length tid + 1 <=? String.length rest)%nat && String.eqb (take_bytes (String.length tid) rest) tid &&
  Ascii.eqb (nth_byte rest (String.length tid)) "/".

Definition isHonoTopicOwned (topic prefix : string) (info : DeviceInfo) : bool :=
  let rest := drop_bytes (String.length prefix) topic in
  let td := TenantID info +:+ "/" +:+ ID info in
  String.eqb rest td ||
  ((String.length td <? String.length rest)%nat && String.eqb (take_bytes (String.length td) rest) td &&
   Ascii.eqb (nth_byte rest (String.length td)) "/").

Section Publish.
  Context (uuidParse : string → option string).

(** The cases after the via/ prefix. *)
Definition isAllowedPlain (topic : string) (info : DeviceInfo) : bool :=
  if String.eqb topic "telemetry" || String.eqb topic "t" || String.eqb topic "event" || String.eqb topic "e" ||
     String.eqb topic "status/heartbeat" || String.eqb topic "status/ota" || String.eqb topic "status/ca" then true
  else if (2 <? String.length topic)%nat &&
          (String.eqb (take_bytes 2 topic) "t/" || String.eqb (take_bytes 2 topic) "e/") then true
  else if (10 <? String.length topic)%nat && String.eqb (take_bytes 10 topic) "telemetry/" then
    isHonoTopicOwned topic "telemetry/" info || negb (isHonoTopicShape topic "telemetry/" info)
  else if (6 <? String.length topic)%nat && String.eqb (take_bytes 6 topic) "event/" then
    isHonoTopicOwned topic "event/" info || negb (isHonoTopicShape topic "event/" info)
  else false.

(** The recursion drops at least the via/ prefix; [fuel] bounds it by the
    length of the topic. *)
Fixpoint allowed_publish (fuel : nat) (topic : string) (info : DeviceInfo) : bool :=
  match fuel with
  | O => false
  | S fuel =>
      if has_prefix "via/" topic then
        let rest := trim_prefix "via/" topic in
        match cut "/" rest with
        | Some (subID, subTopic) =>
            if (0 <? String.length subID)%nat then
              match uuidParse subID with
              | Some _ => allowed_publish fuel subTopic info
              | None => false
              end
            else false
        | None => false
        end
      else isAllowedPlain topic info
  end.

Definition isAllowedPublish (topic : string) (info : DeviceInfo) : bool :=
  allowed_publish (S (String.length topic)) topic info.

(** [EvaluateACL] is the cluster registry's decision, [None] when standalone. *)
Definition OnACLCheck (EvaluateACL : option (string → string → string → string → Decision))
    (clients : gmap string clientState) (clientID topic : string) (write : bool) : bool :=
  match clients !! clientID with
  | None => false
  | Some state =>
      let action := if write then ActionPublish else ActionSubscribe in
      let fallback :=
        match csMethod state with
        | authMethodTestConsumer => negb write && isAllowedConsumerSubscribe topic
        | _ =>
            let info := csInfo state in
            if write then isAllowedPublish topic info
            else
              String.eqb topic ("command/" +:+ ID info) ||
              String.eqb topic ("command/" +:+ ID info +:+ "/#") ||
              String.eqb topic ("command/" +:+ TenantID info +:+ "//" +:+ ID info +:+ "/req/#")
        end in
      match EvaluateACL with
      | None => fallback
      | Some evaluate =>
          let decision := evaluate clientID (csUsername state) topic action in
          match DecisionRule decision with
          | Some _ => Allowed decision
          | None => fallback
          end
      end
  end.
End Publish.

(** ** Specification *)

(** The topics a device may publish to: the fixed ones, the short ones, the
    long ones unless they name another device of the device's own tenant, and
    any of these on behalf of a sub-device. *)
Inductive publishable (uuidParse : string → option string) (info : DeviceInfo) : string → Prop :=
  | publish_fixed t :
      t ∈ ["telemetry"; "t"; "event"; "e"; "status/heartbeat"; "status/ota"; "status/ca"] →
      publishable uuidParse info t
  | publish_short p r : p ∈ ["t/"; "e/"] → r ≠ "" → publishable uuidParse info (p +:+ r)
  | publish_long p r : p ∈ ["telemetry/"; "event/"] → r ≠ "" →
      (∀ x, r = TenantID info +:+ "/" +:+ x → x = ID info ∨ ∃ y, x = ID info +:+ "/" +:+ y) →
      publishable uuidParse info (p +:+ r)
  | publish_via u r : u ≠ "" → contains_byte "/" u = false → is_Some (uuidParse u) →
      publishable uuidParse info r → publishable uuidParse info ("via/" +:+ u +:+ "/" +:+ r).

(** The decision without RBAC. *)
Definition legacy_allows (uuidParse : string → option string) (state : clientState) (topic : string) (write : bool) : Prop :=
  let info := csInfo state in
  match csMethod state with
  | authMethodTestConsumer => write = false ∧ isAllowedConsumerSubscribe topic = true
  | _ =>
      if write then publishable uuidParse info topic
      else topic = "command/" +:+ ID info ∨ topic = "command/" +:+ ID info +:+ "/#" ∨
           topic = "command/" +:+ TenantID info +:+ "//" +:+ ID info +:+ "/req/#"
  end.

(** ** Lemmas *)

Lemma take_prefix n p s : String.length p = n → String.eqb (take_bytes n s) p = has_prefix p s.
Proof.
  intros <-. revert s. induction p as [|c p IH]; intros s; [done|]. destruct s as [|d s]; [done|].
  cbn [String.length take_bytes has_prefix String.eqb]. rewrite IH, (Ascii.eqb_sym c d). by destruct (Ascii.eqb d c).
Qed.

Lemma byte_at_app p c s : nth_byte (p +:+ String c s) (String.length p) = c.
Proof. induction p as [|d p IH]; [done|]. rewrite string_app_cons. apply IH. Qed.

(** A slice comparison followed by a byte comparison is a prefix test. *)
Lemma prefix_slash p r :
  ((String.length p <? String.length r)%nat && String.eqb (take_bytes (String.length p) r) p &&
   Ascii.eqb (nth_byte r (String.length p)) "/") = true ↔ ∃ y, r = p +:+ "/" +:+ y.
Proof.
  rewrite !andb_true_iff, take_prefix, has_prefix_true, Ascii.eqb_eq by done. split.
  - intros [[Hl%Nat.ltb_lt (s & ->)] Hb]. rewrite string_length_app in Hl. destruct s as [|c s]; [simpl in Hl; lia|].
    rewrite byte_at_app in Hb. subst c. by exists s.
  - intros (y & ->). change ("/" +:+ y) with (String "/" y). rewrite byte_at_app. split_and!; [|eauto|done].
    apply Nat.ltb_lt. rewrite string_length_app. simpl. lia.
Qed.

Lemma isHonoTopicShape_spec p r info :
  isHonoTopicShape (p +:+ r) p info = true ↔ ∃ x, r = TenantID info +:+ "/" +:+ x.
Proof.
  unfold isHonoTopicShape. rewrite drop_bytes_app, <-prefix_slash. rewrite Nat.add_1_r.
  replace (S (String.length (TenantID info)) <=? String.length r)%nat
    with (String.length (TenantID info) <? String.length r)%nat by done. done.
Qed.

Lemma isHonoTopicOwned_spec p r info :
  isHonoTopicOwned (p +:+ r) p info = true ↔
  ∃ x, r = TenantID info +:+ "/" +:+ x ∧ (x = ID info ∨ ∃ y, x = ID info +:+ "/" +:+ y).
Proof.
  unfold isHonoTopicOwned. rewrite drop_bytes_app, orb_true_iff, prefix_slash, String.eqb_eq. split.
  - intros [->|(y & ->)]; [eauto|]. eexists. rewrite <-!string_app_assoc. eauto.
  - intros (x & -> & [->|(y & ->)]); [by left|]. right. exists y. by rewrite <-!string_app_assoc.
Qed.

Lemma owned_or_not_shape p r info :
  isHonoTopicOwned (p +:+ r) p info || negb (isHonoTopicShape (p +:+ r) p info) = true ↔
  ∀ x, r = TenantID info +:+ "/" +:+ x → x = ID info ∨ ∃ y, x = ID info +:+ "/" +:+ y.
Proof.
  rewrite orb_true_iff, isHonoTopicOwned_spec, negb_true_iff, <-not_true_iff_false, isHonoTopicShape_spec. split.
  - intros [(x & -> & Hx)|Hn] x' E; [|by destruct Hn; eauto].
    apply string_app_inj_l, (string_app_inj_l "/") in E. by subst.
  - intros H. destruct (isHonoTopicShape (p +:+ r) p info) eqn:E.
    + apply isHonoTopicShape_spec in E as [x ->]. left. eauto.
    + right. by rewrite <-isHonoTopicShape_spec, E.
Qed.

Lemma isAllowedPlain_telemetry r info : r ≠ "" →
  isAllowedPlain ("telemetry/" +:+ r) info =
  isHonoTopicOwned ("telemetry/" +:+ r) "telemetry/" info || negb (isHonoTopicShape ("telemetry/" +:+ r) "telemetry/" info).
Proof.
  intros Hr. unfold isAllowedPlain.
  generalize (isHonoTopicOwned ("telemetry/" +:+ r) "telemetry/" info || negb (isHonoTopicShape ("telemetry/" +:+ r) "telemetry/" info)).
  intros b. destruct r; [done|]. reflexivity.
Qed.

Lemma isAllowedPlain_event r info : r ≠ "" →
  isAllowedPlain ("event/" +:+ r) info =
  isHonoTopicOwned ("event/" +:+ r) "event/" info || negb (isHonoTopicShape ("event/" +:+ r) "event/" info).
Proof.
  intros Hr. unfold isAllowedPlain.
  generalize (isHonoTopicOwned ("event/" +:+ r) "event/" info || negb (isHonoTopicShape ("event/" +:+ r) "event/" info)).
  intros b. rewrite (andb_comm (10 <? _)%nat). destruct r; [done|]. reflexivity.
Qed.

Lemma isAllowedPlain_sound uuidParse info t : isAllowedPlain t info = true → publishable uuidParse info t.
Proof.
  unfold isAllowedPlain.
  rewrite (take_prefix 2 "t/"), (take_prefix 2 "e/"), (take_prefix 10 "telemetry/"), (take_prefix 6 "event/") by done.
  destruct (_ || String.eqb t "status/ca") eqn:E1.
  { intros _. apply publish_fixed. repeat (apply orb_true_iff in E1 as [E1|E1]); apply String.eqb_eq in E1 as ->; set_solver. }
  assert (∀ p (n : nat), String.length p = n → (n <? String.length t)%nat && has_prefix p t = true → ∃ r, r ≠ "" ∧ t = p +:+ r) as Hp.
  { intros p n Hn [Hl%Nat.ltb_lt (r & ->)%has_prefix_true]%andb_true_iff. exists r. split; [|done].
    intros ->. rewrite string_length_app in Hl. simpl in Hl. lia. }
  destruct ((2 <? _)%nat && _) eqn:E2.
  { intros _. rewrite andb_orb_distrib_r in E2. apply orb_true_iff in E2 as [E2|E2];
      eapply Hp in E2 as (r & Hr & ->); try done; apply publish_short; set_solver. }
  destruct ((10 <? _)%nat && _) eqn:E3.
  { apply (Hp "telemetry/" 10 eq_refl) in E3 as (r & Hr & ->). rewrite owned_or_not_shape. apply publish_long; set_solver. }
  destruct ((6 <? _)%nat && _) eqn:E4; [|done].
  apply (Hp "event/" 6 eq_refl) in E4 as (r & Hr & ->). rewrite owned_or_not_shape. apply publish_long; set_solver.
Qed.

Lemma allowed_publish_spec uuidParse info fuel t : (String.length t < fuel)%nat →
  allowed_publish uuidParse fuel t info = true ↔ publishable uuidParse info t.
Proof.
  revert t. induction fuel as [|fuel IH]; intros t Hf; [lia|]. cbn [allowed_publish]. split.
  - destruct (has_prefix "via/" t) eqn:Ev; [|apply isAllowedPlain_sound].
    apply has_prefix_true in Ev as [rest ->]. rewrite trim_prefix_app.
    destruct (cut "/" rest) as [[u r]|] eqn:Ec; [|done]. apply cut_Some in Ec as [-> Hu].
    destruct u as [|c u]; [done|]. cbn [String.length Nat.ltb Nat.leb]. destruct (uuidParse (String c u)) eqn:Eu; [|done].
    rewrite IH; [intros Hr; by apply publish_via|].
    rewrite !string_length_app in Hf. simpl in Hf. lia.
  - intros Hp. destruct Hp as [t Ht|p r Ht Hr|p r Ht Hr Hx|u r Hu Hs Hk Hr].
    + rewrite !elem_of_cons, elem_of_nil in Ht. by destruct Ht as [->|[->|[->|[->|[->|[->|[->|[]]]]]]]].
    + rewrite !elem_of_cons, elem_of_nil in Ht. destruct r; [done|]. by destruct Ht as [->|[->|[]]].
    + rewrite !elem_of_cons, elem_of_nil in Ht. destruct Ht as [->|[->|[]]].
      * change (has_prefix "via/" ("telemetry/" +:+ r)) with false. cbn iota.
        by rewrite isAllowedPlain_telemetry, owned_or_not_shape.
      * change (has_prefix "via/" ("event/" +:+ r)) with false. cbn iota.
        by rewrite isAllowedPlain_event, owned_or_not_shape.
    + rewrite has_prefix_app, trim_prefix_app. change ("/" +:+ r) with (String "/" r) in *.
      rewrite cut_app by done. destruct u as [|c u]; [done|]. cbn [String.length Nat.ltb Nat.leb]. destruct Hk as [k ->].
      apply IH; [|done]. rewrite !string_length_app in Hf. simpl in Hf. lia.
Qed.

(** ** Claims *)

(** Topic access of a connected client: an RBAC decision with a rule is
    final; without one a device publishes exactly to [publishable] topics (the
    via/ recursion terminates on every topic) and subscribes exactly to its own
    command topics, the test consumer only reads telemetry, and an unknown
    client gets nothing. *)
Theorem acl_check_spec uuidParse EvaluateACL clients clientID topic write :
  OnACLCheck uuidParse EvaluateACL clients clientID topic write = true ↔
  ∃ state, clients !! clientID = Some state ∧
    match (λ evaluate, evaluate clientID (csUsername state) topic (if write then ActionPublish else ActionSubscribe))
            <$> EvaluateACL with
    | Some (mkDecision effect (Some _)) => effect = EffectAllow
    | _ => legacy_allows uuidParse state topic write
    end.
Proof.
  unfold OnACLCheck. destruct (clients !! clientID) as [state|]; [|naive_solver].
  transitivity (match (λ evaluate, evaluate clientID (csUsername state) topic (if write then ActionPublish else ActionSubscribe))
            <$> EvaluateACL with
    | Some (mkDecision effect (Some _)) => effect = EffectAllow
    | _ => legacy_allows uuidParse state topic write
    end); [|naive_solver].
  match goal with |- context [match EvaluateACL with None => ?f | Some _ => _ end] =>
    assert (f = true ↔ legacy_allows uuidParse state topic write) as Hf end.
  { unfold legacy_allows, isAllowedPublish. destruct (csMethod state).
    4: { destruct write; simpl; naive_solver. }
    all: destruct write; [apply allowed_publish_spec; lia|rewrite !orb_true_iff, !String.eqb_eq; tauto]. }
  destruct EvaluateACL as [evaluate|]; simpl; [|done].
  destruct (evaluate _ _ _ _) as [effect [rule|]]; simpl; [|done]. unfold Allowed. simpl. apply String.eqb_eq.
Qed.

(** Topics of another tenant are taken for plain topics. *)
Lemma publish_to_other_tenant_allowed :
  isAllowedPublish (λ _, None) "telemetry/tenant-b/dev-b" (mkDeviceInfo "dev-a" "tenant-a" "a" None "nofleet" "") = true ∧
  isAllowedPublish (λ _, None) "telemetry/tenant-a/dev-b" (mkDeviceInfo "dev-a" "tenant-a" "a" None "nofleet" "") = false.
Proof. done. Qed.

(** A device may subscribe to its tenant-qualified command filter, but no
    command under it passes the check made again at delivery. *)
Lemma tenant_command_refused_at_delivery :
  let state := mkClientState (mkDeviceInfo "dev" "ten" "t" None "nofleet" "") AuthMethodPassword "u" 1 1 in
  let check topic := OnACLCheck (λ _, None) None {["c1" := state]} "c1" topic false in
  check "command/ten//dev/req/#" = true ∧ check "command/ten//dev/req/r1/reboot" = false ∧
  check "command/dev/#" = true ∧ check "command/dev/reboot" = false.
Proof. vm_compute. done. Qed.
