(* ===== verification/HookAuth.v ===== *)
(** CONNECT authentication of the broker hook: authenticate and
    authenticateCert in internal/broker/hooks.go. The caches and the provider
    are the state; the cluster registry's IsRevoked is an argument, absent in
    standalone mode. Metrics and logs are left out; starting the
    auto-provisioning goroutine is recorded. *)

From S2P Require Import Prelude GoStrings Auth.

Definition testConsumerUsername : string := "test-consumer".
Definition testConsumerPassword : string := "consumer-e2e-testpass".

Definition testConsumerDeviceInfo : DeviceInfo := mkDeviceInfo uuid_Nil uuid_Nil "test-consumer" None "nofleet" "".

(** The provider and the caches, and the auto-provisioning requests started. *)
Record authState (P : Type) := mkAuthState {
  asProvider : P;
  asTenants : TenantConfigCache;
  asJWKS : JWKSCache;
  asCAs : DeviceCACache;
  asProvisioning : list (string * string);
}.
Arguments mkAuthState {_}.
Arguments asProvider {_}.
Arguments asTenants {_}.
Arguments asJWKS {_}.
Arguments asCAs {_}.
Arguments asProvisioning {_}.

Definition set_Identity (info : DeviceInfo) (identity : string) : DeviceInfo :=
  mkDeviceInfo (ID info) (TenantID info) (TenantSlug info) (FleetID info) (FleetIDStr info) identity.

(** The services the hook authenticates against, and its configuration. *)
Record authServices (Cert : Type) := mkAuthServices {
  svUuidParse : string → option string;
  svParsePKIX : string → option PublicKey;
  svParseWithClaims : Z → string → Keyfunc → JWKSCache → JWKSCache * option (bool * Claims);
  svEndpoint : string → option (list jwk);
  svJwksTTL : Z;
  svCustodian : string → string → option (option string);
  svCaTTL : Z;
  svDB : string → dbAnswer;
  svTenantTTL : Z;
  svCommonName : Cert → string;
  svPemOK : string → bool;
  svChainOK : Cert → list string → bool;
  svHasJWKSCache : bool;
  svHasDeviceCACache : bool;
  svDefaultTenantID : string;
  svIsRevoked : option (string → bool);
}.
Arguments svUuidParse {_}.
Arguments svParsePKIX {_}.
Arguments svParseWithClaims {_}.
Arguments svEndpoint {_}.
Arguments svJwksTTL {_}.
Arguments svCustodian {_}.
Arguments svCaTTL {_}.
Arguments svDB {_}.
Arguments svTenantTTL {_}.
Arguments svCommonName {_}.
Arguments svPemOK {_}.
Arguments svChainOK {_}.
Arguments svHasJWKSCache {_}.
Arguments svHasDeviceCACache {_}.
Arguments svDefaultTenantID {_}.
Arguments svIsRevoked {_}.

Section Authenticate.
  Context {P : Type} `{!AuthProvider P} {Cert : Type} (sv : authServices Cert) (now : Z).

(** h.tenantCache.Get *)
Definition get_tenant (tenantID : string) (st : authState P) : authState P * option TenantGatewayConfig :=
  let '(tenants, cfg) := tenant_Get (svDB sv) (svTenantTTL sv) now tenantID (asTenants st) in
  (mkAuthState (asProvider st) tenants (asJWKS st) (asCAs st) (asProvisioning st), cfg).

(** h.deviceCACache.TrustedCAPEMs *)
Definition get_cas (tenantID : string) (cfg : TenantGatewayConfig) (st : authState P) :
    authState P * option (list string) :=
  let '(cas, pems) := TrustedCAPEMs (svCustodian sv) (svCaTTL sv) now tenantID (ClavexCAURL cfg) (ClavexAgentToken cfg) (asCAs st) in
  (mkAuthState (asProvider st) (asTenants st) (asJWKS st) cas (asProvisioning st), pems).

(** auth.ValidateJWT or, in client-ID mode, auth.ValidateJWTFromClientID. *)
Definition check_jwt (clientIDMode : bool) (tenantID deviceID password : string) (cfg : TenantGatewayConfig)
    (st : authState P) : authState P * option authError :=
  let validate := if clientIDMode then ValidateJWTFromClientID else ValidateJWT in
  let '(c, err) := validate (svParsePKIX sv) (svParseWithClaims sv) (svEndpoint sv) (svJwksTTL sv) now
                     tenantID deviceID password cfg (svHasJWKSCache sv) (asJWKS st) in
  (mkAuthState (asProvider st) (asTenants st) c (asCAs st) (asProvisioning st), err).

Definition lookup_cn (deviceID tenantID : string) (st : authState P) : authState P * option DeviceInfo :=
  let '(p, info) := provider_LookupByCN deviceID tenantID (asProvider st) in
  (mkAuthState p (asTenants st) (asJWKS st) (asCAs st) (asProvisioning st), info).

Definition validate_password (deviceID password : string) (st : authState P) : authState P * option DeviceInfo :=
  let '(p, info) := provider_ValidatePassword deviceID password (asProvider st) in
  (mkAuthState p (asTenants st) (asJWKS st) (asCAs st) (asProvisioning st), info).

Definition add_provisioning (tenantID deviceID : string) (st : authState P) : authState P :=
  mkAuthState (asProvider st) (asTenants st) (asJWKS st) (asCAs st) (asProvisioning st ++ [(tenantID, deviceID)]).

Definition verify (cert : Cert) (pems : option (list string)) : option (string * string) :=
  VerifyCertificate (svCommonName sv) (svPemOK sv) (svChainOK sv) cert pems.

Definition isRevoked (identity : string) : bool :=
  match svIsRevoked sv with None => false | Some revoked => revoked identity end.

(** The end of [authenticateCert], once the CAs are known. *)
Definition finish_cert (cert : Cert) (tenantCfg : TenantGatewayConfig) (trustedCAPEMs : option (list string))
    (st : authState P) : authState P * option DeviceInfo :=
  match verify cert trustedCAPEMs with
  | None => (st, None)
  | Some (deviceID, tenantID) =>
      if isRevoked (deviceID +:+ "@" +:+ tenantID) then (st, None)
      else
        let identity := deviceID +:+ "@" +:+ tenantID in
        match lookup_cn deviceID tenantID st with
        | (st, Some info) => (st, Some (set_Identity info identity))
        | (st, None) =>
            if AutoProvisioning tenantCfg then
              (add_provisioning tenantID deviceID st,
               Some (set_Identity (NewPendingDeviceInfo (svUuidParse sv) deviceID tenantID) identity))
            else (st, None)
        end
  end.

Definition authenticateCert (cert : Cert) (st : authState P) : authState P * option DeviceInfo :=
  match verify cert None with
  | None => (st, None)
  | Some (_, tenantID) =>
      match get_tenant tenantID st with
      | (st, None) => (st, None)
      | (st, Some tenantCfg) =>
          if negb (CertAuthEnabled tenantCfg) then (st, None)
          else if negb (String.eqb (ClavexCAURL tenantCfg) "") && svHasDeviceCACache sv then
            match get_cas tenantID tenantCfg st with
            | (st, None) => (st, None)
            | (st, Some pems) => finish_cert cert tenantCfg (Some pems) st
            end
          else finish_cert cert tenantCfg (cfgTrustedCAPEMs tenantCfg) st
      end
  end.

(** The device and tenant a CONNECT without certificate claims. *)
Definition claimed_identity (clientID username : string) : string * string :=
  match cut "@" username with
  | Some (deviceID, tenantID) => (deviceID, tenantID)
  | None =>
      if negb (String.eqb username "") then (username, svDefaultTenantID sv)
      else (clientID, svDefaultTenantID sv)
  end.

(** Steps shared by the token branches: settings allow JWT, the token is valid,
    the device exists. *)
Definition authenticate_jwt (clientIDMode : bool) (tenantID deviceID password : string)
    (tenantCfg : TenantGatewayConfig) (st : authState P) : authState P * option DeviceInfo :=
  if negb (JWTAuthEnabled tenantCfg) then (st, None)
  else match check_jwt clientIDMode tenantID deviceID password tenantCfg st with
       | (st, Some _) => (st, None)
       | (st, None) => lookup_cn deviceID tenantID st
       end.

(** Username mode: the method decides between token and password. *)
Definition authenticate_username (clientID username password : string) (method : AuthMethod) (st : authState P) :
    authState P * option DeviceInfo :=
  let '(deviceID, tenantID) := claimed_identity clientID username in
  match get_tenant tenantID st with
  | (st, None) => (st, None)
  | (st, Some tenantCfg) =>
      match method with
      | AuthMethodJWT => authenticate_jwt false tenantID deviceID password tenantCfg st
      | _ => if PasswordAuthEnabled tenantCfg then validate_password deviceID password st else (st, None)
      end
  end.

(** [cert] is the first peer certificate of a TLS connection, if any. *)
Definition authenticate (cert : option Cert) (clientID username password : string) (st : authState P) :
    authState P * option DeviceInfo * AuthMethod :=
  match cert with
  | Some cert => (authenticateCert cert st, AuthMethodCertificate)
  | None =>
      if String.eqb username testConsumerUsername then
        ((st, if String.eqb password testConsumerPassword then Some testConsumerDeviceInfo else None),
         authMethodTestConsumer)
      else
        let method := DetectAuthMethod password in
        match ParseClientIdentifier clientID with
        | Some (tid, did) =>
            if (0 <? String.length password)%nat then
              (match get_tenant tid st with
               | (st, None) => (st, None)
               | (st, Some tenantCfg) => authenticate_jwt true tid did password tenantCfg st
               end, method)
            else (authenticate_username clientID username password method st, method)
        | None => (authenticate_username clientID username password method st, method)
        end
  end.
End Authenticate.

(** ** Specification *)

(** LookupByCN finds devices of the given tenant only. *)
Class AuthProviderLaws (P : Type) `{!AuthProvider P} (uuidParse : string → option string) : Prop :=
  law_LookupByCN d t (p p' : P) info : provider_LookupByCN d t p = (p', Some info) → uuidParse t = Some (TenantID info).

Section Admission.
  Context {P : Type} `{!AuthProvider P} {Cert : Type} (sv : authServices Cert) (now : Z).
  Context (cert : option Cert) (clientID username password : string) (st : authState P).

(** The settings of a tenant as the cache gives them. *)
Definition settings (t : string) (cfg : TenantGatewayConfig) : Prop := (get_tenant sv now t st).2 = Some cfg.

(** The CA list a tenant's certificates are checked against. *)
Definition trusted_cas (t : string) (cfg : TenantGatewayConfig) (pems : option (list string)) : Prop :=
  if negb (String.eqb (ClavexCAURL cfg) "") && svHasDeviceCACache sv
  then ∃ l, pems = Some l ∧ (get_cas sv now t cfg (get_tenant sv now t st).1).2 = Some l
  else pems = cfgTrustedCAPEMs cfg.

(** Settings with certificates enabled have a list of CAs, maybe empty. *)
Definition lists_cas (cfg : TenantGatewayConfig) : Prop := CertAuthEnabled cfg = true → is_Some (cfgTrustedCAPEMs cfg).

(** What a device admitted by a method has shown. *)
Inductive admission : DeviceInfo → AuthMethod → Prop :=
  | admit_certificate crt d t cfg l info :
      cert = Some crt → svCommonName sv crt = d +:+ "@" +:+ t → contains_byte "@" d = false →
      settings t cfg → CertAuthEnabled cfg = true →
      trusted_cas t cfg (Some l) → l ≠ [] → svChainOK sv crt l = true →
      isRevoked sv (d +:+ "@" +:+ t) = false →
      Identity info = d +:+ "@" +:+ t → TenantID info = default uuid_Nil (svUuidParse sv t) →
      admission info AuthMethodCertificate
  | admit_test_consumer :
      cert = None → username = testConsumerUsername → password = testConsumerPassword →
      admission testConsumerDeviceInfo authMethodTestConsumer
  | admit_token (clientIDMode : bool) d t cfg info :
      cert = None → username ≠ testConsumerUsername →
      (if clientIDMode then ParseClientIdentifier clientID = Some (t, d)
       else claimed_identity sv clientID username = (d, t) ∧ DetectAuthMethod password = AuthMethodJWT) →
      settings t cfg → JWTAuthEnabled cfg = true →
      (check_jwt sv now clientIDMode t d password cfg (get_tenant sv now t st).1).2 = None →
      svUuidParse sv t = Some (TenantID info) →
      admission info (DetectAuthMethod password)
  | admit_password d t cfg info :
      cert = None → username ≠ testConsumerUsername → claimed_identity sv clientID username = (d, t) →
      settings t cfg → PasswordAuthEnabled cfg = true →
      (provider_ValidatePassword d password (asProvider st)).2 = Some info →
      admission info (DetectAuthMethod password).

Lemma verify_chain crt pems d t :
  verify sv crt pems = Some (d, t) →
  svCommonName sv crt = d +:+ "@" +:+ t ∧ contains_byte "@" d = false ∧
  ∀ l, pems = Some l → l ≠ [] ∧ svChainOK sv crt l = true.
Proof.
  unfold verify, VerifyCertificate. destruct (cut "@" (svCommonName sv crt)) as [[d' t']|] eqn:Ec; [|done].
  apply cut_Some in Ec as [-> Hd]. destruct (_ || _); [done|].
  destruct pems as [[|p l]|]; [done| |intros [= <- <-]; done].
  destruct (forallb _ _); simpl; [|done]. destruct (svChainOK sv crt (p :: l)) eqn:E; simpl; [|done].
  intros [= <- <-]. split_and!; [done|done|]. by intros ? [= <-].
Qed.

Lemma verify_same_identity crt pems d t d' t' :
  verify sv crt None = Some (d, t) → verify sv crt pems = Some (d', t') → d = d' ∧ t = t'.
Proof.
  unfold verify, VerifyCertificate. destruct (cut "@" (svCommonName sv crt)) as [[x y]|]; [|done].
  destruct (_ || _); [done|]. intros [= <- <-]. destruct pems as [[|p l]|]; [done| |by intros [= <- <-]].
  destruct (forallb _ _); simpl; [|done]. destruct (svChainOK _ _ _); simpl; [|done]. by intros [= <- <-].
Qed.

Context `{!AuthProviderLaws P (svUuidParse sv)}.

Lemma finish_cert_admits crt cfg pems d t st1 st' info :
  verify sv crt None = Some (d, t) → finish_cert sv crt cfg pems st1 = (st', Some info) →
  verify sv crt pems = Some (d, t) ∧ isRevoked sv (d +:+ "@" +:+ t) = false ∧
  Identity info = d +:+ "@" +:+ t ∧ TenantID info = default uuid_Nil (svUuidParse sv t).
Proof.
  intros Hv. unfold finish_cert. destruct (verify sv crt pems) as [[d' t']|] eqn:E; [|done].
  destruct (verify_same_identity _ _ _ _ _ _ Hv E) as [<- <-].
  destruct (isRevoked sv _) eqn:Er; [done|]. unfold lookup_cn.
  destruct (provider_LookupByCN d t (asProvider st1)) as [p [i|]] eqn:El.
  - intros [= <- <-]. simpl. split_and!; try done. by rewrite (law_LookupByCN _ _ _ _ _ El).
  - destruct (AutoProvisioning cfg); [|done]. by intros [= <- <-].
Qed.

Lemma authenticate_jwt_admits mode t d cfg st1 st' info :
  authenticate_jwt sv now mode t d password cfg st1 = (st', Some info) →
  JWTAuthEnabled cfg = true ∧ (check_jwt sv now mode t d password cfg st1).2 = None ∧
  svUuidParse sv t = Some (TenantID info).
Proof.
  unfold authenticate_jwt. destruct (JWTAuthEnabled cfg); simpl; [|done].
  destruct (check_jwt sv now mode t d password cfg st1) as [st2 [err|]]; [done|]. unfold lookup_cn.
  destruct (provider_LookupByCN d t (asProvider st2)) as [p i] eqn:El. intros [= <- ->].
  split_and!; [done|done|]. by apply (law_LookupByCN _ _ _ _ _ El).
Qed.

Lemma authenticate_username_admits st' info :
  cert = None → username ≠ testConsumerUsername →
  authenticate_username sv now clientID username password (DetectAuthMethod password) st = (st', Some info) →
  admission info (DetectAuthMethod password).
Proof.
  intros Hc Hu. unfold authenticate_username. destruct (claimed_identity sv clientID username) as [d t] eqn:Ei.
  destruct (get_tenant sv now t st) as [st1 [cfg|]] eqn:Eg; [|done].
  assert (settings t cfg) as Hs by (unfold settings; by rewrite Eg).
  assert (asProvider st1 = asProvider st) as Hp
    by (unfold get_tenant in Eg; destruct (tenant_Get _ _ _ _ _) in Eg; by injection Eg as <- _).
  assert ((if PasswordAuthEnabled cfg then validate_password d password st1 else (st1, None)) = (st', Some info) →
    admission info (DetectAuthMethod password)) as Hpw.
  { destruct (PasswordAuthEnabled cfg) eqn:Ep; [|done]. unfold validate_password. rewrite Hp.
    destruct (provider_ValidatePassword d password (asProvider st)) as [p i] eqn:Ev. intros [= _ ->].
    eapply admit_password; try done. by rewrite Ev. }
  destruct (DetectAuthMethod password) eqn:Em; try done.
  intros (H1 & H2 & H3)%authenticate_jwt_admits. rewrite <-Em.
  eapply (admit_token false); try done. by rewrite Eg.
Qed.
End Admission.

(** ** Claims *)

Lemma get_tenant_lists_cas {P Cert} (sv : authServices Cert) now t (st : authState P) cfg :
  (∀ t cfg, svDB sv t = dbRow cfg → is_Some (cfgTrustedCAPEMs cfg)) →
  (∀ t e, asTenants st !! t = Some e → lists_cas (entryCfg e)) →
  (get_tenant sv now t st).2 = Some cfg → lists_cas cfg.
Proof.
  intros Hdb Hc. unfold get_tenant, tenant_Get, tenant_load, lists_cas. specialize (Hdb t).
  destruct (asTenants st !! t) as [e|] eqn:Ee; [destruct (_ <? _)%Z|].
  - intros [= <-]. by apply (Hc _ _ Ee).
  - destruct (svDB sv t) as [| |c]; [done|by intros [= <-]|]. intros [= <-] _. by apply Hdb.
  - destruct (svDB sv t) as [| |c]; [done|by intros [= <-]|]. intros [= <-] _. by apply Hdb.
Qed.

(** C10: every admitted device has shown what its method requires. With a
    provider whose CN lookup respects tenants and settings from the query, whose
    list of CAs is COALESCEd and so never nil in a row, there are four ways in. A
    certificate admits the device its common name gives, under a tenant with
    certificate login enabled, on a chain to the CAs of that tenant, of which there
    is at least one, if it is not revoked, and the connection carries that
    identity. A token admits under a tenant with tokens enabled and valid for it;
    either way the device gets the ID of that tenant. A password needs the tenant
    that the login names to allow passwords and the provider to accept it for the
    named device; the named tenant need not be the tenant of the device, see
    [password_login_picks_its_tenant]. The fixed name and password of the test
    consumer admit as the test consumer. *)
Theorem admitted_devices_proved_themselves {P} `{!AuthProvider P} {Cert} (sv : authServices Cert) now cert clientID
    username password (st st' : authState P) info m :
  AuthProviderLaws P (svUuidParse sv) →
  (∀ t cfg, svDB sv t = dbRow cfg → is_Some (cfgTrustedCAPEMs cfg)) →
  (∀ t e, asTenants st !! t = Some e → lists_cas (entryCfg e)) →
  authenticate sv now cert clientID username password st = (st', Some info, m) →
  admission sv now cert clientID username password st info m.
Proof.
  intros Hlaw Hdb Hcache. unfold authenticate. destruct cert as [crt|].
  - intros [= H <-]. unfold authenticateCert in H. destruct (verify sv crt None) as [[d t]|] eqn:Ev; [|done].
    pose proof (get_tenant_lists_cas sv now t st) as Hl.
    destruct (get_tenant sv now t st) as [st1 [cfg|]] eqn:Eg; [|done]. specialize (Hl cfg Hdb Hcache eq_refl).
    destruct (CertAuthEnabled cfg) eqn:Ec; simpl in H; [|done].
    assert (∃ st2 l, finish_cert sv crt cfg (Some l) st2 = (st', Some info) ∧ trusted_cas sv now st t cfg (Some l))
      as (st2 & l & Hf & Hca).
    { unfold trusted_cas. rewrite Eg. destruct (_ && svHasDeviceCACache sv).
      - destruct (get_cas sv now t cfg st1) as [st2 [l|]] eqn:El; [|done]. exists st2, l. split; [done|].
        exists l. split; [done|]. cbn [fst]. by rewrite El.
      - destruct (Hl Ec) as [l El]. exists st1, l. by rewrite <-El. }
    destruct (finish_cert_admits _ _ _ _ _ _ _ _ _ Ev Hf) as (Hv & Hr & Hi & Ht).
    destruct (verify_chain _ _ _ _ _ Hv) as (Hcn & Hd & Hch). destruct (Hch l eq_refl) as [Hne Hok].
    eapply admit_certificate; try done. unfold settings. by rewrite Eg.
  - destruct (String.eqb_spec username testConsumerUsername) as [Hu|Hu].
    { intros [= <- Hi <-]. destruct (String.eqb_spec password testConsumerPassword); [|done].
      injection Hi as <-. by apply admit_test_consumer. }
    destruct (ParseClientIdentifier clientID) as [[t d]|] eqn:Eid; [destruct (0 <? String.length password)%nat|];
      intros [= H <-]; [|by eapply authenticate_username_admits|by eapply authenticate_username_admits].
    destruct (get_tenant sv now t st) as [st1 [cfg|]] eqn:Eg; [|done].
    apply authenticate_jwt_admits in H as (H1 & H2 & H3); [|done].
    eapply (admit_token _ _ _ _ _ _ _ true); try done; [unfold settings|]; by rewrite Eg.
Qed.

(** The file provider respects tenants. *)
Lemma file_provider_laws uuidParse bcryptCompare Sum256 credTTL now file :
  @AuthProviderLaws FileProvider (file_AuthProvider uuidParse bcryptCompare Sum256 credTTL now file) uuidParse.
Proof.
  intros d t p p' info H. cbn in H. unfold file_LookupByCN in H.
  destruct (ensure_loaded uuidParse file p) as [f|]; [|done]. destruct (byKey f !! d) as [cred|]; [|done].
  destruct (String.eqb_spec (credTenantID cred) t) as [<-|]; simpl in H; [|done]. injection H as _ H.
  unfold toDeviceInfo in H. apply bind_Some in H as (dev & _ & H). apply bind_Some in H as (ten & -> & H).
  repeat case_match; by injection H as <-.
Qed.

(** Tenant A allows passwords, tenant B only certificates. *)
Definition witness_settings (t : string) : dbAnswer :=
  if String.eqb t "tenant-b" then dbRow (mkTenantConfig false false true "" "" (Some ["ca"]) "" "" false 0 0 false)
  else dbNoRows.

Definition witness_services : authServices unit :=
  mkAuthServices unit Some (λ _, None) witness_parser (λ _, None) 300 (λ _ _, None) 300 witness_settings 300
    (λ _, "dev-b@tenant-b") (λ _, true) (λ _ _, true) false false "" None.

Definition witness_file : option (list fileCredential) :=
  Some [mkFileCredential "dev-b" "" "tenant-b" "b" "" "hash" ""].

Definition witness_provider : AuthProvider FileProvider := file_AuthProvider Some witness_bcrypt (λ t, t) 30 5 witness_file.

Definition witness_auth_state : authState FileProvider := mkAuthState newFileProvider ∅ ∅ ∅ [].

Lemma admitted_devices_proved_themselves_witness :
  ∃ info, admission (AuthProvider0:=witness_provider) witness_services 5 (Some tt) "c1" "" "" witness_auth_state info AuthMethodCertificate.
Proof.
  exists (mkDeviceInfo "dev-b" "tenant-b" "b" None "nofleet" "dev-b@tenant-b").
  apply (admitted_devices_proved_themselves (AuthProvider0:=witness_provider) witness_services 5 (Some tt) "c1" "" ""
    witness_auth_state (@authenticate _ witness_provider _ witness_services 5 (Some tt) "c1" "" "" witness_auth_state).1.1).
  - exact (file_provider_laws Some witness_bcrypt (λ t, t) 30 5 witness_file).
  - intros t cfg. simpl. unfold witness_settings. destruct (String.eqb t "tenant-b"); [|discriminate]. intros [= <-]. by eexists.
  - intros t e. simpl. rewrite lookup_empty. discriminate.
  - vm_compute. reflexivity.
Defined.

(** The password path checks the settings of the tenant named in the username,
    not those of the device's tenant: a device of tenant B, which allows
    certificates only, logs in with its password by naming tenant A. *)
Lemma password_login_picks_its_tenant :
  let run username := @authenticate _ witness_provider _ witness_services 5 None "c1" username "secret" witness_auth_state in
  (run "dev-b@tenant-b").1.2 = None ∧
  (run "dev-b@tenant-a").1.2 = Some (mkDeviceInfo "dev-b" "tenant-b" "b" None "nofleet" "").
Proof. vm_compute. done. Qed.
