(* ===== verification/Fanout.v ===== *)
(** Cross-node fan-out of a publish: fanOutPlan, forwardToClusterSubscribers,
    forwardClusterTargets and OnSelectSubscribers of internal/broker/hooks.go,
    DeliverOffline of internal/broker/offline_delivery_dispatch.go and the
    message conversions of internal/cluster/dataplane.

    The registry is the record of the queries the code makes of it; optional
    interfaces are options. Nil slices and maps are [None]. The forwards of one
    publish run concurrently; they are the set of messages sent. *)

From S2P Require Import Prelude GoStrings Acl Topics Router Session.

(** ** Data plane messages (message.go, grpc_forwarder.go) *)

Record Message := mkMessage {
  SourceNodeID : string;
  msgTenantID : string;
  mTopic : string;
  mPayload : string;
  mQoS : N;
  PublishID : string;
  SharedFilters : option (list string);
}.

(** pb.ForwardRequest *)
Record ForwardRequest := mkForwardRequest {
  reqSourceNodeId : string;
  reqTenantId : string;
  reqTopic : string;
  reqPayload : string;
  reqQos : N;
  reqPublishId : string;
  reqSharedRoutingSet : bool;
  reqSharedFilters : list string;
}.

(** The request [Forward] sends. *)
Definition requestFromMessage (msg : Message) : ForwardRequest :=
  mkForwardRequest (SourceNodeID msg) (msgTenantID msg) (mTopic msg) (mPayload msg) (mQoS msg) (PublishID msg)
    (match SharedFilters msg with Some _ => true | None => false end) (default [] (SharedFilters msg)).

(** uuid.Parse is an argument; a failed parse gives the zero UUID. byte(qos)
    keeps the low eight bits. *)
Definition messageFromRequest (uuidParse : string → option string) (zeroUUID : string) (req : ForwardRequest) : Message :=
  mkMessage (reqSourceNodeId req) (reqTenantId req) (reqTopic req) (reqPayload req) (reqQos req mod 256)
    (default zeroUUID (uuidParse (reqPublishId req)))
    (if reqSharedRoutingSet req then Some (reqSharedFilters req) else None).

(** ** Targets (hooks.go) *)

(** The registry queries of the publish path. *)
Record publishRegistry := mkPublishRegistry {
  prLiveDeliveryPlan : option (string → string → list string * gmap string string);
  prNodesFor : string → string → list string;
  prOfflineNodesFor : string → list string;
  prOfflineDeliveryCandidates : option (string → string → list string * gmap string string);
  prOwnedClientIDs : string → list string;
  prOfflineSharedClientsFor : option (string → string → gmap string string);
}.

(** The [seen] set and the output of the two loops. *)
Definition append_new (out : list string) (n : string) : list string :=
  if bool_decide (n ∈ out) then out else out ++ [n].

Definition fanOutPlan (reg : publishRegistry) (nodeID topic : string) : list string * option (gmap string string) :=
  let '(live, sharedNodes) :=
    match prLiveDeliveryPlan reg with
    | Some planner => let '(nodes, shared) := planner topic nodeID in (nodes, Some shared)
    | None => (prNodesFor reg topic nodeID, None)
    end in
  match prOfflineNodesFor reg topic with
  | [] => (live, sharedNodes)
  | offline => (fold_left append_new offline (fold_left append_new live []), sharedNodes)
  end.

Definition sharedFiltersForNode (selected : option (gmap string string)) (nodeID : string) : option (list string) :=
  match selected with
  | None => None
  | Some m => Some (fst <$> filter (λ e, e.2 = nodeID) (map_to_list m))
  end.

(** The messages sent, with their targets. *)
Definition forwardClusterTargets (self : string) (nodes : list string) (msg : Message)
    (sharedNodes : option (gmap string string)) : list (string * Message) :=
  (λ nodeID,
    (nodeID, match sharedNodes with
             | None => msg
             | Some _ => mkMessage (SourceNodeID msg) (msgTenantID msg) (mTopic msg) (mPayload msg) (mQoS msg)
                           (PublishID msg) (sharedFiltersForNode sharedNodes nodeID)
             end)) <$> filter (λ n, n ≠ self) nodes.

Section DeliverOffline.
  (** The session store: owned sessions ([None] on error) and the enqueue of
      one message with its dedup marker. *)
  Context {Q : Type} (OwnedOfflineSessions : list string → Q → option (list OfflineSession))
    (QueueOfflineInflight : string → string → InflightMessage → Q → Q * option (N * bool)).

(** Absent registry and store are handled by the callers' options. *)
Definition DeliverOffline (reg : publishRegistry) (nodeID publishID topic payload : string) (qos : N) (q : Q) : Q :=
  if (qos =? 0)%N then q
  else
    let '(owned, sharedSelected) :=
      match prOfflineDeliveryCandidates reg with
      | Some selector => selector topic nodeID
      | None =>
          (prOwnedClientIDs reg nodeID,
           match prOfflineSharedClientsFor reg with Some selector => selector topic nodeID | None => ∅ end)
      end in
    match owned with
    | [] => q
    | _ :: _ =>
        match OwnedOfflineSessions owned q with
        | None => q
        | Some sessions =>
            (Deliver (λ clientID msg q,
               match QueueOfflineInflight publishID clientID msg q with
               | (q, None) => (q, None)
               | (q, Some (packetID, queued)) => if queued : bool then (q, Some (packetID, true)) else (q, Some (0%N, false))
               end) (Some sharedSelected) sessions topic payload qos q).1
        end
    end.

(** [reg] is [None] in standalone mode, [hasStore] tells whether the offline
    store is configured and [hasFwd] whether the forwarder is. The result is
    the store, the messages sent and the shared filters left to this node. *)
Definition forwardToClusterSubscribers (reg : option publishRegistry) (hasStore hasFwd : bool) (nodeID tenantID publishID
    topic payload : string) (qos : N) (q : Q) : Q * list (string * Message) * option (list string) :=
  match reg with
  | None => (q, [], None)
  | Some reg =>
      let q := if hasStore then DeliverOffline reg nodeID publishID topic payload qos q else q in
      let '(nodes, sharedNodes) := fanOutPlan reg nodeID topic in
      let localShared := sharedFiltersForNode sharedNodes nodeID in
      if negb hasFwd then (q, [], localShared)
      else match nodes with
           | [] => (q, [], localShared)
           | _ :: _ =>
               (q, forwardClusterTargets nodeID nodes
                     (mkMessage nodeID tenantID topic payload qos publishID None) sharedNodes, localShared)
           end
  end.
End DeliverOffline.

(** ** Local selection (OnSelectSubscribers) *)

(** [connected] says whether the server has an open connection (or an inline
    client) for a client ID. *)
Definition OnSelectSubscribers (clusterAndServer hasOfflineStore : bool) (connected : string → bool)
    (pkSharedFilters : option (list string)) (subs : Subscribers) : Subscribers :=
  if negb clusterAndServer then subs
  else
    mkSubscribers
      (omap (λ members,
         let members := filter (λ e, connected e.1 = true) members in
         if (size members =? 0)%nat then None else Some members)
        (match pkSharedFilters with
         | None => Shared subs
         | Some allowed => filter (λ e, e.1 ∈ allowed) (Shared subs)
         end))
      (SharedSelected subs) (SharedSelectedGroups subs)
      (if hasOfflineStore then filter (λ e, connected e.1 = true) (Subscriptions subs) else Subscriptions subs)
      (InlineSubscriptions subs).

(** ** Specification *)

(** The registry of a core node: the router's queries. *)
Definition router_registry (r : Router) : publishRegistry :=
  mkPublishRegistry
    (Some (λ topic local, let plan := LiveDeliveryPlan topic local r in (elements (Nodes plan), SharedNodes plan)))
    (λ topic local, elements (NodesFor topic local r))
    (λ topic, OfflineNodesFor topic r)
    (Some (λ topic nodeID, OfflineDeliveryCandidates topic nodeID r))
    (λ nodeID, OwnedClientIDs nodeID r)
    (Some (λ topic nodeID, OfflineSharedClientsFor topic nodeID r)).

(** Node [n] was told to serve shared filter [f]: locally, or by a message
    after its transport. *)
Definition told (uuidParse : string → option string) (zeroUUID self : string) (sent : list (string * Message))
    (localShared : option (list string)) (n f : string) : Prop :=
  (n = self ∧ ∃ l, localShared = Some l ∧ f ∈ l) ∨
  ∃ m l, (n, m) ∈ sent ∧ SharedFilters (messageFromRequest uuidParse zeroUUID (requestFromMessage m)) = Some l ∧ f ∈ l.

(** ** Lemmas *)

Lemma append_new_fold l out n : n ∈ fold_left append_new l out ↔ n ∈ out ∨ n ∈ l.
Proof.
  revert out. induction l as [|x l IH]; intros out; simpl; [rewrite elem_of_nil; tauto|].
  rewrite IH, elem_of_cons. unfold append_new. case_bool_decide; [naive_solver|].
  rewrite elem_of_app, list_elem_of_singleton. tauto.
Qed.

Lemma append_new_NoDup l out : NoDup out → NoDup (fold_left append_new l out).
Proof.
  revert out. induction l as [|x l IH]; intros out Hn; simpl; [done|]. apply IH. unfold append_new.
  case_bool_decide; [done|]. apply NoDup_app. split_and!; [done| |apply NoDup_singleton].
  intros y Hy ->%list_elem_of_singleton. done.
Qed.

Lemma sharedFiltersForNode_elem (m : gmap string string) n f l :
  sharedFiltersForNode (Some m) n = Some l → f ∈ l ↔ m !! f = Some n.
Proof.
  intros [= <-]. rewrite list_elem_of_fmap. split.
  - intros ([f' n'] & -> & Hf). apply list_elem_of_filter in Hf as [<- Hf]. by apply elem_of_map_to_list in Hf.
  - intros Hf. exists (f, n). split; [done|]. apply list_elem_of_filter. split; [done|]. by apply elem_of_map_to_list.
Qed.

Lemma transport_keeps_shared uuidParse zero m :
  SharedFilters (messageFromRequest uuidParse zero (requestFromMessage m)) = SharedFilters m.
Proof. unfold messageFromRequest, requestFromMessage. simpl. by destruct (SharedFilters m). Qed.

(** The targets of a plan, without repetition and without this node. *)
Lemma fanOutPlan_nodes r self topic :
  let '(nodes, shared) := fanOutPlan (router_registry r) self topic in
  shared = Some (SharedNodes (LiveDeliveryPlan topic self r)) ∧ NoDup nodes ∧
  ∀ n, n ∈ nodes ↔ n ∈ Nodes (LiveDeliveryPlan topic self r) ∨ n ∈ OfflineNodesFor topic r.
Proof.
  unfold fanOutPlan. cbn [prLiveDeliveryPlan prOfflineNodesFor router_registry].
  destruct (OfflineNodesFor topic r) as [|x l] eqn:E.
  - split_and!; [done|apply NoDup_elements|]. intros n. rewrite elem_of_elements, elem_of_nil. tauto.
  - split_and!; [done|apply append_new_NoDup, append_new_NoDup, NoDup_nil_2|].
    intros n. rewrite !append_new_fold, elem_of_nil, elem_of_elements. tauto.
Qed.

Lemma forwardClusterTargets_elem self nodes msg (shared : gmap string string) n m :
  (n, m) ∈ forwardClusterTargets self nodes msg (Some shared) →
  n ∈ nodes ∧ n ≠ self ∧ SharedFilters m = sharedFiltersForNode (Some shared) n.
Proof.
  unfold forwardClusterTargets. rewrite list_elem_of_fmap. intros (n' & [= -> ->] & H).
  apply list_elem_of_filter in H as [? ?]. done.
Qed.

Lemma forwardClusterTargets_fst self nodes msg shared :
  (forwardClusterTargets self nodes msg shared).*1 = filter (λ n, n ≠ self) nodes.
Proof. unfold forwardClusterTargets. rewrite <-list_fmap_compose. apply list_fmap_id. Qed.

(** Who is told a shared filter, when its node is this one or a target. *)
Lemma told_iff uuidParse zero self nodes msg (shared : gmap string string) n f :
  (∀ f n, shared !! f = Some n → n = self ∨ n ∈ nodes) →
  told uuidParse zero self (forwardClusterTargets self nodes msg (Some shared)) (sharedFiltersForNode (Some shared) self) n f ↔
  shared !! f = Some n.
Proof.
  intros Hn. unfold told. setoid_rewrite transport_keeps_shared. split.
  - intros [(-> & l & Hl & Hf)|(m & l & Hm & Hl & Hf)]; [by apply (sharedFiltersForNode_elem _ _ _ _ Hl)|].
    apply forwardClusterTargets_elem in Hm as (_ & _ & Em). rewrite Em in Hl.
    by apply (sharedFiltersForNode_elem _ _ _ _ Hl).
  - intros Hf. destruct (decide (n = self)) as [->|Hs].
    + left. split; [done|]. eexists. split; [reflexivity|]. by apply (sharedFiltersForNode_elem shared self f _ eq_refl).
    + right. destruct (Hn f n Hf) as [?|Hin]; [done|].
      assert (n ∈ (forwardClusterTargets self nodes msg (Some shared)).*1) as H1.
      { rewrite forwardClusterTargets_fst. by apply list_elem_of_filter. }
      apply list_elem_of_fmap in H1 as ([n' m] & -> & Hm). exists m.
      destruct (forwardClusterTargets_elem _ _ _ _ _ _ Hm) as (_ & _ & Em). rewrite Em.
      eexists. split_and!; [done|reflexivity|]. by apply (sharedFiltersForNode_elem shared _ f _ eq_refl).
Qed.

(** A node drops the shared filters it was not told to serve. *)
Lemma OnSelectSubscribers_unlisted hasStore connected l subs f :
  f ∉ l → Shared (OnSelectSubscribers true hasStore connected (Some l) subs) !! f = None.
Proof.
  intros Hf. simpl. rewrite lookup_omap. destruct (filter _ (Shared subs) !! f) as [members|] eqn:E; [|done].
  by apply map_lookup_filter_Some in E as [_ ?].
Qed.

Section Fanout.
  Context {Q : Type} (OwnedOfflineSessions : list string → Q → option (list OfflineSession))
    (QueueOfflineInflight : string → string → InflightMessage → Q → Q * option (N * bool)).

(** A publish on a core node, with a forwarder: what is sent and kept. *)
Lemma forward_plan r hasStore self tenantID publishID topic payload qos q :
  ∃ nodes, let '(_, sent, localShared) := forwardToClusterSubscribers OwnedOfflineSessions QueueOfflineInflight
      (Some (router_registry r)) hasStore true self tenantID publishID topic payload qos q in
    let shared := SharedNodes (LiveDeliveryPlan topic self r) in
    NoDup nodes ∧ localShared = sharedFiltersForNode (Some shared) self ∧
    (∀ n, n ∈ nodes ↔ n ∈ Nodes (LiveDeliveryPlan topic self r) ∨ n ∈ OfflineNodesFor topic r) ∧
    sent = forwardClusterTargets self nodes (mkMessage self tenantID topic payload qos publishID None) (Some shared).
Proof.
  unfold forwardToClusterSubscribers. pose proof (fanOutPlan_nodes r self topic) as H.
  destruct (fanOutPlan (router_registry r) self topic) as [nodes shared]. destruct H as (-> & Hnd & Hn).
  exists nodes. simpl negb. cbn iota. by destruct nodes.
Qed.
End Fanout.

(** ** Claims *)

(** C2: a publish reaches every share group once across the cluster. On a node
    whose cache holds table [R], all entries of which are regular ([regular]: shared
    filters spelled $share/group/..., ownership keys as OwnershipKey writes them,
    node names not empty and without NUL), a publish to a concrete topic is forwarded
    once to each other node with a live or offline target and to no other, and
    each shared filter with a live member is assigned, after transport, to
    exactly one node, which has a member; a node that gets the message without
    the filter has no shared subscriber left for it after OnSelectSubscribers.
    (With two spellings of one share prefix on a node a live group can be missing
    from the cache: [Router.mixed_case_share_lost].) *)
Theorem share_group_served_by_one_node {Q} OwnedOfflineSessions (QueueOfflineInflight : string → string → InflightMessage → Q → Q * option (N * bool))
    uuidParse zeroUUID R r hasStore self tenantID publishID topic payload qos (q : Q) :
  router_inv R r → topic ≠ "" → Forall literal_level (split "/" topic) → self ≠ "" →
  let '(_, sent, localShared) := forwardToClusterSubscribers OwnedOfflineSessions QueueOfflineInflight
      (Some (router_registry r)) hasStore true self tenantID publishID topic payload qos q in
  NoDup sent.*1 ∧
  (∀ n, n ∈ sent.*1 ↔ n ≠ self ∧ (n ∈ Nodes (LiveDeliveryPlan topic self r) ∨ n ∈ OfflineNodesFor topic r)) ∧
  (∀ f, (∃ n, live_member R topic f n) →
     ∃ n, live_member R topic f n ∧ ∀ n', told uuidParse zeroUUID self sent localShared n' f ↔ n' = n) ∧
  (∀ f, ¬ (∃ n, live_member R topic f n) → ∀ n', ¬ told uuidParse zeroUUID self sent localShared n' f) ∧
  (∀ n m f hasStore connected subs, (n, m) ∈ sent → ¬ told uuidParse zeroUUID self sent localShared n f →
     Shared (OnSelectSubscribers true hasStore connected
       (SharedFilters (messageFromRequest uuidParse zeroUUID (requestFromMessage m))) subs) !! f = None).
Proof.
  intros Hr Ht HF Hself. pose proof (LiveDeliveryPlan_table R r topic self Hr Ht HF) as [Hnodes Hshared].
  destruct (forward_plan OwnedOfflineSessions QueueOfflineInflight r hasStore self tenantID publishID topic payload qos q)
    as [nodes H]. destruct (forwardToClusterSubscribers _ _ _ _ _ _ _ _ _ _ _ q) as [[q' sent] localShared].
  destruct H as (Hnd & -> & Hn & ->).
  set (shared := SharedNodes (LiveDeliveryPlan topic self r)) in *.
  assert (∀ f n, shared !! f = Some n → n = self ∨ n ∈ nodes) as Htargets.
  { intros f n Hf. destruct (decide (n = self)) as [|Hs]; [by left|]. right. apply Hn. left. apply Hnodes. right.
    exists f. split; [done|]. intros [_ Hl]. specialize (Hshared f). fold shared in Hshared. rewrite Hf in Hshared.
    destruct Hshared as [_ Hx]. by apply Hs, Hx. }
  rewrite forwardClusterTargets_fst. split_and!.
  - by apply NoDup_filter.
  - intros n. rewrite list_elem_of_filter, Hn. done.
  - intros f [n0 Hl]. specialize (Hshared f). fold shared in Hshared. destruct (shared !! f) as [n|] eqn:E.
    + exists n. split; [apply Hshared|]. intros n'. rewrite told_iff, E by done. naive_solver.
    + by destruct (Hshared n0).
  - intros f Hno n'. rewrite told_iff by done. intros E. apply Hno. specialize (Hshared f). fold shared in Hshared.
    rewrite E in Hshared. exists n'. apply Hshared.
  - intros n m f hs connected subs Hm Hnot. destruct (forwardClusterTargets_elem _ _ _ _ _ _ Hm) as (_ & _ & Em).
    rewrite transport_keeps_shared, Em. apply OnSelectSubscribers_unlisted. intros Hf. apply Hnot. right.
    exists m. eexists. rewrite transport_keeps_shared, Em. split_and!; [done|reflexivity|done].
Qed.

(** Two members of a group on two nodes. *)
Definition witness_shared_router : Router :=
  addLocalLocked "$share/g/a" "n2" (addLocalLocked "$share/g/a" "n1" emptyRouter).

Definition witness_shared_table : string → string → Prop :=
  table_add "$share/g/a" "n2" (table_add "$share/g/a" "n1" (λ _ _, False)).

Lemma regular_shared n : n = "n1" ∨ n = "n2" → regular "$share/g/a" n.
Proof.
  intros Hn. split; [|by intros c f H; vm_compute in H|by destruct Hn as [->| ->]|by destruct Hn as [->| ->]].
  intros _. by exists "g", "a".
Qed.

Lemma witness_shared_inv : router_inv witness_shared_table witness_shared_router.
Proof.
  apply addLocal_inv; [apply regular_shared; auto|]. apply addLocal_inv; [apply regular_shared; auto|].
  apply emptyRouter_inv.
Qed.

Lemma share_group_served_by_one_node_witness :
  live_member witness_shared_table "a" "$share/g/a" "n1" ∧
  ∃ n, live_member witness_shared_table "a" "$share/g/a" n.
Proof.
  assert (live_member witness_shared_table "a" "$share/g/a" "n1") as Hl.
  { split_and!; [left; by right|reflexivity|]. split.
    - left. split; [vm_compute; set_solver|]. constructor; [by right|constructor].
    - intros (pre & Hp & _). change (["a"] = pre ++ ["+"; "#"]) in Hp. by destruct pre as [|? [|? pre]]. }
  split; [exact Hl|].
  pose proof (share_group_served_by_one_node (λ _ (_ : unit), None) (λ _ _ _ q, (q, None)) Some "" witness_shared_table
    witness_shared_router false "n0" "t" "p" "a" "payload" 1 tt witness_shared_inv ltac:(done)
    ltac:(simpl; literal_levels) ltac:(done)) as H.
  destruct (forwardToClusterSubscribers _ _ _ _ _ _ _ _ _ _ _ tt) as [[q' sent] localShared].
  destruct H as (_ & _ & H & _). destruct (H "$share/g/a" (ex_intro _ "n1" Hl)) as (n & Hn & _).
  exists n. exact Hn.
Defined.
