(* ===== verification/RateLimit.v ===== *)
(** Per-key rate limits and the keep-alive ceiling: internal/broker/ratelimit.go
    and internal/broker/max_keepalive.go. The token bucket (x/time/rate) is an
    argument: [NewLimiter] and [Allow]. *)

From S2P Require Import Prelude GoStrings.

Section RateLimit.
  Context {L : Type} (NewLimiter : L) (Allow : Z → L → L * bool).

Record rateLimiterEntry := mkRateLimiterEntry { limiter : L; lastSeen : Z }.

(** The limiter: its TTL and its buckets. *)
Record keyedRateLimiter := mkKeyedRateLimiter { ttl : Z; entries : gmap string rateLimiterEntry }.

Definition sweep (now : Z) (l : keyedRateLimiter) : keyedRateLimiter :=
  mkKeyedRateLimiter (ttl l) (filter (λ e, (now - lastSeen e.2 <= ttl l)%Z) (entries l)).

(** A nil limiter is [None] and allows everything. *)
Definition allow (now : Z) (key : string) (l : option keyedRateLimiter) : option keyedRateLimiter * bool :=
  match l with
  | None => (None, true)
  | Some l =>
      let e := match entries l !! key with
               | Some e => e
               | None => mkRateLimiterEntry NewLimiter 0
               end in
      let '(b, ok) := Allow now (limiter e) in
      (Some (mkKeyedRateLimiter (ttl l) (<[key := mkRateLimiterEntry b now]> (entries l))), ok)
  end.

Definition entryCount (l : option keyedRateLimiter) : nat :=
  match l with None => O | Some l => size (entries l) end.
End RateLimit.

Arguments keyedRateLimiter : clear implicits.
Arguments rateLimiterEntry : clear implicits.

(** ** Keep-alive ceiling *)

(** The connection state [OnConnect] writes. *)
Record keepaliveState := mkKeepaliveState { Keepalive : N; ServerKeepalive : bool }.

Definition OnConnect (MaxSeconds : N) (protocolVersion requested : N) (s : keepaliveState) : keepaliveState :=
  if negb (protocolVersion =? 5)%N then s
  else if negb (requested =? 0)%N && (requested <=? MaxSeconds)%N then s
  else mkKeepaliveState MaxSeconds true.
