(* ===== verification/Hooks.v ===== *)
(** Connection lifecycle of the broker hook: the state of keelHook and its
    handlers OnConnectAuthenticate, OnDisconnect, OnClientExpired, OnSubscribed
    and OnUnsubscribed in internal/broker/hooks.go, with the per-node reference
    counts that decide when a filter is routed to this node.

    A handler is a program of requests. Each section under h.mu is one request,
    and so is each call of another component; the hook holds no lock between
    them. Handlers of different connections run as goroutines that interleave at
    the requests, over the routing store of Router. mqtt.Client pointers are
    positives. *)

From stdpp Require Import relations.
From S2P Require Import Prelude GoStrings Effects Auth HookAcl HookAuth Router Placement Session.

(** ** State *)

Record keelHook := mkKeelHook {
  clients : gmap string clientState;
  generation : gmap string N;
  clusterFilterRefs : gmap string (gset string);
  tenantConns : gmap string Z;
  packetReceivedAt : gmap positive Z;
}.

Definition Init : keelHook := mkKeelHook ∅ ∅ ∅ ∅ ∅.

(** Work handed to other goroutines or components. *)
Inductive hookEvent :=
  | EvictSent (targetNode clientID : string)
  | ConnectionEvent (info : DeviceInfo) (state : string)
  | LastSeenUpdate (deviceID : string)
  | RetainedBackfill (clientID : string) (filters : list string).

(** The hook's wiring: the registry and the forwarder may be absent. *)
Record hookConfig := mkHookConfig {
  hcCluster : bool;
  hcForwarder : bool;
  hcNodeID : string;
  hcOwnership : bool;
  hcLiveEdges : bool;
  hcBatch : bool;
  hcConnectors : bool;
  hcRetained : bool;
}.

(** What a handler asks for. First the sections under h.mu, then the calls of
    keelraft.Registry for this node (false or [None] is an error; ClaimSession
    answers with the node evicted from, empty for none), then the other
    components. Authenticate is [HookAuth.authenticate], PlaceOwner and
    ClearOwner are [Session.Place] and [Session.Clear]. *)
Inductive hookE : Type → Type :=
  | AddRef (clientID filter : string) : hookE bool
  | RemoveRefs (clientID : string) (filters : list string) : hookE (list string)
  | Admit (cl : positive) (clientID username : string) (info : DeviceInfo) (method : AuthMethod)
      (tenantCfg : option TenantGatewayConfig) : hookE bool
  | Withdraw (clientID tenantStr : string) : hookE unit
  | Leave (cl : positive) (clientID : string) (cleanup : bool) : hookE (option clientState)
  | Expire (cl : positive) (clientID : string) : hookE bool
  | Subscribe (filter : string) : hookE bool
  | Unsubscribe (filter : string) : hookE bool
  | UnsubscribeMany (filters : list string) : hookE bool
  | ClaimSession (clientID identity : string) : hookE (option string)
  | ReleaseSession (clientID : string) : hookE bool
  | AllowConnect (ip : string) : hookE bool
  | Authenticate (cl : positive) (clientID username password : string) : hookE (option (DeviceInfo * AuthMethod))
  | TenantConfig (tenantID : string) : hookE (option TenantGatewayConfig)
  | LiveEdges : hookE (list string)
  | PlaceOwner (clientID filter owner : string) : hookE bool
  | StoredFilters (clientID : string) : hookE (option (list string))
  | ClearOwner (clientID filter : string) : hookE bool
  | Emit (e : hookEvent) : hookE unit.

(** ** Sections under the mutex *)

Definition set_refs (refs : gmap string (gset string)) (h : keelHook) : keelHook :=
  mkKeelHook (clients h) (generation h) refs (tenantConns h) (packetReceivedAt h).

Definition addClusterFilterRef (clientID filter : string) (h : keelHook) : keelHook * bool :=
  let users := default ∅ (clusterFilterRefs h !! filter) in
  if decide (clientID ∈ users) then (set_refs (<[filter := users]> (clusterFilterRefs h)) h, false)
  else (set_refs (<[filter := {[clientID]} ∪ users]> (clusterFilterRefs h)) h, bool_decide (users = ∅)).

Definition remove_ref (clientID : string) (acc : keelHook * list string) (filter : string) : keelHook * list string :=
  let '(h, lastUsers) := acc in
  match clusterFilterRefs h !! filter with
  | None => (h, lastUsers ++ [filter])
  | Some users =>
      let users := users ∖ {[clientID]} in
      if decide (users = ∅) then (set_refs (delete filter (clusterFilterRefs h)) h, lastUsers ++ [filter])
      else (set_refs (<[filter := users]> (clusterFilterRefs h)) h, lastUsers)
  end.

(** [filters] are the keys of the map in the order it is ranged over. *)
Definition removeClusterFilterRefs (clientID : string) (filters : list string) (h : keelHook) : keelHook * list string :=
  fold_left (remove_ref clientID) filters (h, []).

Definition conns (t : string) (h : keelHook) : Z := default 0%Z (tenantConns h !! t).

(** The count of a tenant that a connection leaves; it never goes below zero. *)
Definition one_less (t : string) (h : keelHook) : gmap string Z :=
  if (0 <? conns t h)%Z then <[t := (conns t h - 1)%Z]> (tenantConns h) else tenantConns h.

(** The registration of an authenticated connection; generations are uint64. *)
Definition track (cl : positive) (clientID username : string) (info : DeviceInfo) (method : AuthMethod) (h : keelHook) :
    keelHook :=
  let g := ((default 0 (generation h !! clientID) + 1) mod 2 ^ 64)%N in
  mkKeelHook (<[clientID := mkClientState info method username cl g]> (clients h))
    (<[clientID := g]> (generation h)) (clusterFilterRefs h)
    (<[TenantID info := (conns (TenantID info) h + 1)%Z]> (tenantConns h)) (packetReceivedAt h).

(** The limit check and the registration, in one section. *)
Definition admit_section (cl : positive) (clientID username : string) (info : DeviceInfo) (method : AuthMethod)
    (tenantCfg : option TenantGatewayConfig) (h : keelHook) : keelHook * bool :=
  let limited := match tenantCfg with
                 | Some c => (0 <? MaxConnections c)%Z && (MaxConnections c <=? conns (TenantID info) h)%Z
                 | None => false
                 end in
  if limited then (h, false) else (track cl clientID username info method h, true).

(** The rollback after a failed claim. *)
Definition withdraw_section (clientID tenantStr : string) (h : keelHook) : keelHook :=
  mkKeelHook (delete clientID (clients h)) (generation h) (clusterFilterRefs h) (one_less tenantStr h) (packetReceivedAt h).

(** The tracked state, if it belongs to this connection. *)
Definition current (cl : positive) (clientID : string) (h : keelHook) : option clientState :=
  match clients h !! clientID with
  | Some state =>
      if Pos.eqb (csClient state) cl && (csGeneration state =? default 0 (generation h !! clientID))%N
      then Some state else None
  | None => None
  end.

Definition untrack (clientID : string) (state : clientState) (cleanup : bool) (h : keelHook) : keelHook :=
  let counts := one_less (TenantID (csInfo state)) h in
  if cleanup
  then mkKeelHook (delete clientID (clients h)) (delete clientID (generation h)) (clusterFilterRefs h) counts (packetReceivedAt h)
  else mkKeelHook (clients h) (generation h) (clusterFilterRefs h) counts (packetReceivedAt h).

Definition leave_section (cl : positive) (clientID : string) (cleanup : bool) (h : keelHook) : keelHook * option clientState :=
  match current cl clientID h with
  | None => (h, None)
  | Some state => (untrack clientID state cleanup h, Some state)
  end.

Definition expire_section (cl : positive) (clientID : string) (h : keelHook) : keelHook * bool :=
  match clients h !! clientID with
  | Some state =>
      if Pos.eqb (csClient state) cl
      then (mkKeelHook (delete clientID (clients h)) (delete clientID (generation h)) (clusterFilterRefs h)
              (tenantConns h) (packetReceivedAt h), true)
      else (h, false)
  | None => (h, false)
  end.

Definition lookup_DeviceInfo (clientID : string) (h : keelHook) : option DeviceInfo := csInfo <$> clients h !! clientID.

(** The sections of connecting and disconnecting; [None] for other requests. *)
Definition section {X} (e : hookE X) (h : keelHook) : option (keelHook * X) :=
  match e in hookE X return option (keelHook * X) with
  | Admit cl c user info method cfg => Some (admit_section cl c user info method cfg h)
  | Withdraw c t => Some (withdraw_section c t h, tt)
  | Leave cl c cleanup => Some (leave_section cl c cleanup h)
  | Expire cl c => Some (expire_section cl c h)
  | _ => None
  end.

(** ** Handlers *)

Section Lifecycle.
  Context (cfg : hookConfig).
  Local Open Scope proc_scope.

(** The loop of the two subscribe functions; an error is logged. *)
Fixpoint subscribe_each (clientID : string) (filters : list string) : proc hookE unit :=
  match filters with
  | [] => Done tt
  | filter :: filters =>
      first <- request (AddRef clientID filter);;
      if negb first then subscribe_each clientID filters
      else _ <- request (Subscribe filter);; subscribe_each clientID filters
  end.

(** [filters] are the keys of the map in the order it is ranged over; also
    subscribeClusterFiltersFromStorage, with the filters of the stored rows. *)
Definition subscribeClusterFilters (clientID : string) (filters : list string) : proc hookE unit :=
  if negb (hcCluster cfg) then Done tt else subscribe_each clientID filters.

Fixpoint unsubscribe_each (filters : list string) : proc hookE unit :=
  match filters with
  | [] => Done tt
  | filter :: filters => _ <- request (Unsubscribe filter);; unsubscribe_each filters
  end.

(** [subs] are the filters the connection is still subscribed to. *)
Definition unsubscribeClusterFilters (clientID : string) (subs : list string) : proc hookE unit :=
  if negb (hcCluster cfg) then Done tt
  else
    match subs with
    | [] => Done tt
    | _ :: _ =>
        filters <- request (RemoveRefs clientID subs);;
        match filters with
        | [] => Done tt
        | _ :: _ => if hcBatch cfg then _ <- request (UnsubscribeMany filters);; Done tt else unsubscribe_each filters
        end
    end.

Definition OnSubscribed (clientID : string) (filters : list string) : proc hookE unit :=
  (if hcCluster cfg then subscribeClusterFilters clientID filters else Done tt);;
  if hcRetained cfg then request (Emit (RetainedBackfill clientID filters)) else Done tt.

Definition OnUnsubscribed (clientID : string) (filters : list string) : proc hookE unit :=
  if negb (hcCluster cfg) then Done tt
  else last <- request (RemoveRefs clientID filters);; unsubscribe_each last.

(** *** Offline ownership *)

Fixpoint place_each (clientID owner : string) (filters : list string) : proc hookE unit :=
  match filters with
  | [] => Done tt
  | f :: filters => _ <- request (PlaceOwner clientID f owner);; place_each clientID owner filters
  end.

Definition placeOfflineOwnership (clientID : string) (subs : list string) : proc hookE unit :=
  if negb (hcOwnership cfg) || negb (hcLiveEdges cfg) then Done tt
  else
    edges <- request LiveEdges;;
    match Owner clientID edges with
    | None => Done tt
    | Some owner => place_each clientID owner subs
    end.

Fixpoint clear_each (clientID : string) (filters : list string) : proc hookE unit :=
  match filters with
  | [] => Done tt
  | f :: filters => _ <- request (ClearOwner clientID f);; clear_each clientID filters
  end.

Definition clearOfflineOwnership (clientID : string) : proc hookE unit :=
  if negb (hcOwnership cfg) then Done tt
  else
    stored <- request (StoredFilters clientID);;
    match stored with
    | None => Done tt
    | Some filters => clear_each clientID filters
    end.

(** *** Connecting *)

Definition forwardConnectionEvent (info : DeviceInfo) (state : string) : proc hookE unit :=
  if negb (hcConnectors cfg) then Done tt else request (Emit (ConnectionEvent info state)).

Definition claimClusterSession (clientID tenantStr identity : string) : proc hookE bool :=
  if negb (hcCluster cfg) then Done true
  else
    claimed <- request (ClaimSession clientID identity);;
    match claimed with
    | None => _ <- request (Withdraw clientID tenantStr);; Done false
    | Some evictedFrom =>
        if negb (String.eqb evictedFrom "") && negb (String.eqb evictedFrom (hcNodeID cfg)) && hcForwarder cfg
        then _ <- request (Emit (EvictSent evictedFrom clientID));; Done true
        else Done true
    end.

Definition OnConnectAuthenticate (ip : string) (cl : positive) (clientID username password : string) : proc hookE bool :=
  ok <- request (AllowConnect ip);;
  if negb ok then Done false
  else
    auth <- request (Authenticate cl clientID username password);;
    match auth with
    | None => Done false
    | Some (info, method) =>
        tenantCfg <- request (TenantConfig (TenantID info));;
        admitted <- request (Admit cl clientID username info method tenantCfg);;
        if negb admitted then Done false
        else
          claimed <- claimClusterSession clientID (TenantID info) (Identity info);;
          if negb claimed then Done false
          else
            _ <- request (Emit (LastSeenUpdate (ID info)));;
            _ <- forwardConnectionEvent info "online";;
            Done true
    end.

(** *** Disconnecting *)

(** [evicted]: the connection was stopped with ErrSessionTakenOver. *)
Definition OnDisconnect (cl : positive) (clientID : string) (subs : list string) (expire evicted : bool) : proc hookE unit :=
  let cleanup := expire || evicted in
  left <- request (Leave cl clientID cleanup);;
  match left with
  | None => Done tt
  | Some state =>
      _ <- forwardConnectionEvent (csInfo state) "offline";;
      _ <- (if cleanup then unsubscribeClusterFilters clientID subs
            else _ <- placeOfflineOwnership clientID subs;; unsubscribeClusterFilters clientID subs);;
      if hcCluster cfg then _ <- request (ReleaseSession clientID);; Done tt else Done tt
  end.

Definition OnClientExpired (cl : positive) (clientID : string) (subs : list string) : proc hookE unit :=
  ok <- request (Expire cl clientID);;
  if negb ok then Done tt else unsubscribeClusterFilters clientID subs.

(** The goroutines of the hook. Go maps have each key once. *)
Inductive handler : proc hookE unit → Prop :=
  | h_connect ip cl c user pw : handler (_ <- OnConnectAuthenticate ip cl c user pw;; Done tt)
  | h_subscribed c fs : NoDup fs → handler (OnSubscribed c fs)
  | h_unsubscribed c fs : NoDup fs → handler (OnUnsubscribed c fs)
  | h_disconnect cl c subs expire evicted : NoDup subs → handler (OnDisconnect cl c subs expire evicted)
  | h_expired cl c subs : NoDup subs → handler (OnClientExpired cl c subs)
  | h_resumed c fs : handler (_ <- clearOfflineOwnership c;; subscribeClusterFilters c fs).
End Lifecycle.

(** ** Goroutines over the routing store *)

(** The outcome of a section that asks for a registry call: the goroutine that
    ran it is to register ([dLive]) or to withdraw the filter. *)
Record decision := mkDecision { dThread : nat; dFilter : string; dLive : bool }.

Section Concurrent.
  Context {S : Type} `{!ClusterStore S} (cfg : hookConfig).

(** The hook, its goroutines and the routing store. [cTold] has the pairs of
    client and filter that the hook was told of and not told to drop, in the
    order in which the sections ran (OnSubscribed is also told of filters the
    broker rejected). [cDue] has the decisions whose call is still to be made,
    oldest first. [cDisturbed] has the filters whose entry for this node may be
    wrong for a reason named below. *)
Record conc := mkConc {
  cHook : keelHook;
  cTold : gset (string * string);
  cThreads : gmap nat (proc hookE unit);
  cDue : list decision;
  cStore : S;
  cDisturbed : gset string;
}.

(** The node is registered for [f] in the store. *)
Definition row (f : string) (s : S) : Prop := routeKey f (hcNodeID cfg) ∈ store_keys s.

Definition set_thread (i : nat) (p : proc hookE unit) (w : conc) : conc :=
  mkConc (cHook w) (cTold w) (<[i := p]> (cThreads w)) (cDue w) (cStore w) (cDisturbed w).

(** The oldest open decision about [f] is one of goroutine [i]. *)
Definition in_turn (i : nat) (due : list decision) (f : string) : Prop :=
  match filter (λ d, dFilter d = f) due with d :: _ => dThread d = i | [] => False end.

#[export] Instance in_turn_dec i due f : Decision (in_turn i due f).
Proof. unfold in_turn. destruct (filter _ due); apply _. Defined.

Fixpoint take_due (i : nat) (f : string) (due : list decision) : list decision :=
  match due with
  | [] => []
  | d :: due => if decide (dThread d = i ∧ dFilter d = f) then due else d :: take_due i f due
  end.

(** A call of goroutine [i] about the filters [fs] returned. The filters are
    disturbed if it failed (it may have taken effect or not) or overtook the call
    of an older decision. *)
Definition called (i : nat) (fs : list string) (ok : bool) (s : S) (p : proc hookE unit) (w : conc) : conc :=
  mkConc (cHook w) (cTold w) (<[i := p]> (cThreads w)) (fold_left (λ due f, take_due i f due) fs (cDue w)) s
    (cDisturbed w ∪ list_to_set (if ok then filter (λ f, ¬ in_turn i (cDue w) f) fs else fs)).

(** A call on the store; on an edge node without router it fails at once. *)
Definition reaches (write : S → S * bool) (s s' : S) (ok : bool) : Prop :=
  write s = (s', ok) ∨ (s' = s ∧ ok = false).

Definition request_step {X} (i : nat) (e : hookE X) (k : X → proc hookE unit) (w w' : conc) : Prop :=
  match e in hookE X return (X → proc hookE unit) → Prop with
  | AddRef c f => λ k,
      let '(h, first) := addClusterFilterRef c f (cHook w) in
      w' = mkConc h ({[(c, f)]} ∪ cTold w) (<[i := k first]> (cThreads w))
             (cDue w ++ (if first then [mkDecision i f true] else [])) (cStore w) (cDisturbed w)
  | RemoveRefs c fs => λ k,
      let '(h, last) := removeClusterFilterRefs c fs (cHook w) in
      w' = mkConc h (cTold w ∖ list_to_set ((λ f, (c, f)) <$> fs)) (<[i := k last]> (cThreads w))
             (cDue w ++ ((λ f, mkDecision i f false) <$> last)) (cStore w) (cDisturbed w)
  | Subscribe f => λ k, ∃ s ok, reaches (Router_Subscribe f (hcNodeID cfg)) (cStore w) s ok ∧ w' = called i [f] ok s (k ok) w
  | Unsubscribe f => λ k, ∃ s ok, reaches (Router_Unsubscribe f (hcNodeID cfg)) (cStore w) s ok ∧ w' = called i [f] ok s (k ok) w
  | UnsubscribeMany fs => λ k, ∃ r s ok,
      reaches (UnsubscribeBatch fs (hcNodeID cfg) r) (cStore w) s ok ∧ w' = called i fs ok s (k ok) w
  | e => λ k,
      match section e (cHook w) with
      | Some (h, x) => w' = mkConc h (cTold w) (<[i := k x]> (cThreads w)) (cDue w) (cStore w) (cDisturbed w)
      | None => ∃ x, w' = set_thread i (k x) w
      end
  end k.

Definition thread_step (i : nat) (p : proc hookE unit) (w w' : conc) : Prop :=
  match p with
  | Done _ => w' = mkConc (cHook w) (cTold w) (delete i (cThreads w)) (cDue w) (cStore w) (cDisturbed w)
  | Call e k => request_step i e k w w'
  end.

(** A handler starts, a goroutine makes its next request, or the store changes
    by someone else's hand (another node, the placement of offline sessions, a
    purge of this node, a failed call that takes effect later), which disturbs
    the filters whose entry for this node changes. *)
Inductive conc_step (w : conc) : conc → Prop :=
  | step_start i p : cThreads w !! i = None → handler cfg p → conc_step w (set_thread i p w)
  | step_thread i p w' : cThreads w !! i = Some p → thread_step i p w w' → conc_step w w'
  | step_world s D : (∀ f, f ∉ D → row f s ↔ row f (cStore w)) →
      conc_step w (mkConc (cHook w) (cTold w) (cThreads w) (cDue w) s (cDisturbed w ∪ D)).

(** A new hook; entries left from an earlier run of the node count as disturbed. *)
Definition starts (w : conc) : Prop :=
  cHook w = Init ∧ cTold w = ∅ ∧ cThreads w = ∅ ∧ cDue w = [] ∧ ∀ f, f ∉ cDisturbed w → ¬ row f (cStore w).
End Concurrent.

(** ** Specification *)

(** The subscriptions live on this node, as (client, filter) pairs. *)
Definition live_subs := string → string → Prop.

Definition live_add (c : string) (fs : gset string) (A : live_subs) : live_subs :=
  λ c' f, A c' f ∨ (c' = c ∧ f ∈ fs).
Definition live_remove (c : string) (fs : gset string) (A : live_subs) : live_subs :=
  λ c' f, A c' f ∧ ¬ (c' = c ∧ f ∈ fs).

(** The reference map holds exactly the live subscriptions. *)
Definition refs_hold (A : live_subs) (h : keelHook) : Prop :=
  (∀ c f, c ∈ default ∅ (clusterFilterRefs h !! f) ↔ A c f) ∧
  (∀ f users, clusterFilterRefs h !! f = Some users → users ≠ ∅).

(** ** Lemmas: references *)

Lemma refs_hold_ext A A' h : (∀ c f, A c f ↔ A' c f) → refs_hold A h → refs_hold A' h.
Proof. intros HA [H1 H2]. split; [|done]. intros c f. by rewrite H1. Qed.

Lemma addClusterFilterRef_spec A c f h h' first :
  refs_hold A h → addClusterFilterRef c f h = (h', first) →
  refs_hold (live_add c {[f]} A) h' ∧ (first = true ↔ ¬ ∃ c', A c' f).
Proof.
  intros [H1 H2]. unfold addClusterFilterRef, live_add. pose proof (H1 c f) as Hc.
  assert (∀ c', c' ∈ default ∅ (clusterFilterRefs h !! f) ↔ A c' f) as Hf by (intros; apply H1).
  set (users := default ∅ (clusterFilterRefs h !! f)) in *.
  destruct (decide (c ∈ users)) as [Hin|Hn]; intros [= <- <-]; (split; [split|]); simpl.
  - intros c' f'. rewrite lookup_insert. destruct (decide (f = f')) as [<-|Hne]; simpl.
    + rewrite Hf. split; [auto|]. intros [?|[-> _]]; [done|by apply Hf].
    + rewrite H1. set_solver.
  - intros f' u. rewrite lookup_insert. destruct (decide (f = f')) as [<-|]; [|apply H2]. intros [= <-]. set_solver.
  - split; [done|]. intros Hno. destruct Hno. exists c. by apply Hf.
  - intros c' f'. rewrite lookup_insert. destruct (decide (f = f')) as [<-|Hne]; simpl.
    + rewrite elem_of_union, elem_of_singleton, Hf. set_solver.
    + rewrite H1. set_solver.
  - intros f' u. rewrite lookup_insert. destruct (decide (f = f')) as [<-|]; [|apply H2]. intros [= <-]. set_solver.
  - rewrite bool_decide_eq_true. split.
    + intros Hu (c' & Hc'%Hf). set_solver.
    + intros Hno. apply elem_of_equiv_empty_L. intros c' Hc'%Hf. eauto.
Qed.

Lemma remove_ref_spec A c f h last h' last' :
  refs_hold A h → remove_ref c (h, last) f = (h', last') →
  refs_hold (live_remove c {[f]} A) h' ∧
  ∀ g, g ∈ last' ↔ g ∈ last ∨ (g = f ∧ ¬ ∃ c', live_remove c {[f]} A c' f).
Proof.
  intros [H1 H2]. unfold remove_ref, live_remove.
  destruct (clusterFilterRefs h !! f) as [users|] eqn:E.
  - assert (∀ c', c' ∈ users ∖ {[c]} ↔ A c' f ∧ ¬ (c' = c ∧ f ∈ ({[f]} : gset string))) as Hf.
    { intros c'. rewrite elem_of_difference, elem_of_singleton. specialize (H1 c' f). rewrite E in H1. simpl in H1.
      rewrite H1. set_solver. }
    destruct (decide (users ∖ {[c]} = ∅)) as [He|Hne]; intros [= <- <-]; (split; [split|]); simpl.
    + intros c' f'. destruct (decide (f = f')) as [<-|Hd].
      * rewrite lookup_delete_eq, <-Hf, He. done.
      * rewrite lookup_delete_ne, H1 by done. set_solver.
    + intros f' u. rewrite lookup_delete_Some. intros [_ ?]. by eapply H2.
    + intros g. rewrite elem_of_app, list_elem_of_singleton. split; [|tauto]. intros [?| ->]; [auto|right].
      split; [done|]. intros (c' & Hc'%Hf). by rewrite He in Hc'.
    + intros c' f'. rewrite lookup_insert. destruct (decide (f = f')) as [<-|Hd]; simpl; [apply Hf|].
      rewrite H1. set_solver.
    + intros f' u. rewrite lookup_insert. destruct (decide (f = f')); [|apply H2]. by intros [= <-].
    + intros g. split; [auto|]. intros [?|[-> Hno]]; [done|]. apply set_choose_L in Hne as [c' Hc'].
      destruct Hno. exists c'. by apply Hf.
  - intros [= <- <-]. assert (∀ c', ¬ A c' f) as Hno.
    { intros c' Hc'%H1. rewrite E in Hc'. by apply not_elem_of_empty in Hc'. }
    split; [split; [|done]|].
    + intros c' f'. rewrite H1. split; [|tauto]. intros HA. split; [done|].
      intros [_ ->%elem_of_singleton]. by destruct (Hno c').
    + intros g. rewrite elem_of_app, list_elem_of_singleton. split; [|tauto]. intros [?| ->]; [auto|right].
      split; [done|]. intros (c' & Hc' & _). by destruct (Hno c').
Qed.

Lemma remove_refs_fold A c l h last h' last' :
  refs_hold A h → fold_left (remove_ref c) l (h, last) = (h', last') →
  refs_hold (live_remove c (list_to_set l) A) h' ∧
  ∀ g, g ∈ last' ↔ g ∈ last ∨ (g ∈ l ∧ ¬ ∃ c', live_remove c (list_to_set l) A c' g).
Proof.
  revert A h last. induction l as [|f l IH]; intros A h last Hh; cbn [fold_left].
  - intros [= <- <-]. split.
    + eapply refs_hold_ext; [|done]. unfold live_remove. set_solver.
    + intros g. rewrite elem_of_nil. tauto.
  - destruct (remove_ref c (h, last) f) as [h1 last1] eqn:E1. intros E.
    destruct (remove_ref_spec _ _ _ _ _ _ _ Hh E1) as [Hh1 Hl1].
    destruct (IH _ _ _ Hh1 E) as [Hh' Hl'].
    assert (∀ c' g, live_remove c (list_to_set l) (live_remove c {[f]} A) c' g ↔
      live_remove c (list_to_set (f :: l)) A c' g) as Heq.
    { intros c' g. unfold live_remove. rewrite list_to_set_cons, elem_of_union. tauto. }
    split; [by eapply refs_hold_ext|]. intros g. rewrite Hl', Hl1, elem_of_cons. setoid_rewrite Heq. split.
    + intros [[?|[-> Hno]]|[? Hno]]; [auto| |auto]. right. split; [auto|]. intros (c' & Hc'). apply Hno. exists c'.
      unfold live_remove in *. split; [apply Hc'|]. intros [-> ?]. apply Hc'. set_solver.
    + intros [?|[[->|?] Hno]]; [auto| |auto]. left. right. split; [done|]. intros (c' & HA & Hx). apply Hno. exists c'.
      split; [done|]. intros [-> _]. apply Hx. set_solver.
Qed.

Lemma removeClusterFilterRefs_spec A c fs h h' last :
  refs_hold A h → removeClusterFilterRefs c fs h = (h', last) →
  refs_hold (live_remove c (list_to_set fs) A) h' ∧
  ∀ g, g ∈ last ↔ g ∈ fs ∧ ¬ ∃ c', live_remove c (list_to_set fs) A c' g.
Proof.
  intros Hh E. destruct (remove_refs_fold _ _ _ _ _ _ _ Hh E) as [H1 H2].
  split; [done|]. intros g. rewrite H2, elem_of_nil. tauto.
Qed.

Lemma remove_refs_sublist c l h last h' last' :
  fold_left (remove_ref c) l (h, last) = (h', last') → ∃ l', last' = last ++ l' ∧ l' `sublist_of` l.
Proof.
  revert h last. induction l as [|f l IH]; intros h last; cbn [fold_left].
  - intros [= <- <-]. exists []. by rewrite app_nil_r.
  - destruct (remove_ref c (h, last) f) as [h1 last1] eqn:E. intros (l' & -> & Hl)%IH.
    assert (last1 = last ∨ last1 = last ++ [f]) as [->| ->].
    { revert E. unfold remove_ref. case_match; [|intros [= _ <-]; by right]. case_decide; intros [= _ <-]; [by right|by left]. }
    + exists l'. split; [done|by constructor].
    + exists (f :: l'). rewrite <-app_assoc. split; [done|by constructor].
Qed.



(** ** Lemmas: open decisions *)

Abbreviation mine i due := (filter (λ d, dThread d = i) due).
Abbreviation about f due := (filter (λ d, dFilter d = f) due).

Lemma mine_take i f due d rest : mine i due = d :: rest → dFilter d = f → mine i (take_due i f due) = rest.
Proof.
  intros E <-. induction due as [|d' due IH]; [done|]. cbn [take_due]. rewrite filter_cons in E. case_decide as Hi.
  - injection E as -> E. by rewrite decide_True.
  - rewrite decide_False by tauto. rewrite filter_cons, decide_False by done. by apply IH.
Qed.

Lemma mine_take_ne i j f due : j ≠ i → mine j (take_due i f due) = mine j due.
Proof.
  intros Hne. induction due as [|d due IH]; cbn [take_due]; [done|]. case_decide as Hd.
  - destruct Hd as [<- _]. by rewrite filter_cons, decide_False.
  - rewrite !filter_cons. case_decide; by rewrite IH.
Qed.

Lemma about_take_ne i f g due : g ≠ f → about g (take_due i f due) = about g due.
Proof.
  intros Hne. induction due as [|d due IH]; cbn [take_due]; [done|]. case_decide as Hd.
  - destruct Hd as [_ <-]. by rewrite filter_cons, decide_False.
  - rewrite !filter_cons. case_decide; by rewrite IH.
Qed.

Lemma about_take i f due d rest : about f due = d :: rest → dThread d = i → about f (take_due i f due) = rest.
Proof.
  intros E <-. induction due as [|d' due IH]; [done|]. cbn [take_due]. rewrite filter_cons in E. case_decide as Hi.
  - injection E as -> E. by rewrite decide_True.
  - rewrite decide_False by tauto. rewrite filter_cons, decide_False by done. by apply IH.
Qed.

Abbreviation settle i fs due := (fold_left (λ due f, take_due i f due) fs due).

Lemma mine_settle i live fs rest due : mine i due = (λ f, mkDecision i f live) <$> fs ++ rest →
  mine i (settle i fs due) = (λ f, mkDecision i f live) <$> rest.
Proof.
  revert due. induction fs as [|f fs IH]; intros due E; cbn [fold_left]; [done|]. apply IH.
  by apply (mine_take i f due (mkDecision i f live)).
Qed.

Lemma mine_settle_ne i j fs due : j ≠ i → mine j (settle i fs due) = mine j due.
Proof. intros Hne. revert due. induction fs as [|f fs IH]; intros due; cbn [fold_left]; [done|]. by rewrite IH, mine_take_ne. Qed.

Lemma about_settle_ne i g fs due : g ∉ fs → about g (settle i fs due) = about g due.
Proof.
  revert due. induction fs as [|f fs IH]; intros due; cbn [fold_left]; [done|]. intros [Hne Hn]%not_elem_of_cons. by rewrite IH, about_take_ne.
Qed.

Lemma about_settle i g fs due d rest : NoDup fs → g ∈ fs → about g due = d :: rest → dThread d = i →
  about g (settle i fs due) = rest.
Proof.
  intros Hnd. revert due. induction Hnd as [|f fs Hn Hnd IH]; intros due; [by intros ?%elem_of_nil|]. cbn [fold_left].
  intros [->|Hin]%elem_of_cons E Ed.
  - rewrite about_settle_ne by done. by eapply about_take.
  - apply IH; [done| |done]. rewrite about_take_ne; [done|]. by intros ->.
Qed.

Lemma settle_sub i fs due d : d ∈ settle i fs due → d ∈ due.
Proof.
  revert due. induction fs as [|f fs IH]; intros due; cbn [fold_left]; [done|]. intros Hd%IH. clear IH. induction due as [|d' due IH]; cbn in Hd; [done|].
  case_decide; [by right|]. apply elem_of_cons in Hd as [->|Hd]; [by left|right; auto].
Qed.

(** ** Lemmas: programs *)

(** A program whose goroutine has the open decisions [fs]: it makes exactly the
    calls they ask for, in their order, before it runs another section on the
    references and before it ends. *)
Fixpoint obeys {A} (p : proc hookE A) (live : bool) (fs : list string) : Prop :=
  match p with
  | Done _ => fs = []
  | @Call _ _ X e k =>
      match e in hookE X return (X → bool → list string → Prop) → Prop with
      | AddRef c f => λ kk, fs = [] ∧ kk true true [f] ∧ kk false live []
      | RemoveRefs c gs => λ kk, fs = [] ∧ NoDup gs ∧ ∀ l, kk l false l
      | Subscribe f => λ kk, live = true ∧ ∃ rest, fs = f :: rest ∧ ∀ ok, kk ok live rest
      | Unsubscribe f => λ kk, live = false ∧ ∃ rest, fs = f :: rest ∧ ∀ ok, kk ok live rest
      | UnsubscribeMany gs => λ kk, live = false ∧ gs ≠ [] ∧ fs = gs ∧ ∀ ok, kk ok live []
      | _ => λ kk, ∀ x, kk x live fs
      end (λ x, obeys (k x))
  end.

Lemma obeys_bind {A B} (p : proc hookE A) (q : A → proc hookE B) live fs :
  obeys p live fs → (∀ a live, obeys (q a) live []) → obeys (proc_bind p q) live fs.
Proof.
  intros Hp Hq. revert live fs Hp. induction p as [a|X e k IH]; intros live fs Hp; cbn in Hp |- *; [subst; auto|].
  destruct e; naive_solver.
Qed.

Section Obeys.
  Context (cfg : hookConfig).

Lemma subscribe_each_obeys c fs live : obeys (subscribe_each c fs) live [].
Proof. revert live. induction fs as [|f fs IH]; intros live; cbn; [done|]. split_and!; [done|done| |auto]. exists []. auto. Qed.

Lemma unsubscribe_each_obeys fs : obeys (unsubscribe_each fs) false fs.
Proof. induction fs as [|f fs IH]; cbn; [done|]. split; [done|]. exists fs. auto. Qed.

Lemma subscribeClusterFilters_obeys c fs live : obeys (subscribeClusterFilters cfg c fs) live [].
Proof. unfold subscribeClusterFilters. destruct (hcCluster cfg); [apply subscribe_each_obeys|done]. Qed.

Lemma unsubscribeClusterFilters_obeys c subs live : NoDup subs → obeys (unsubscribeClusterFilters cfg c subs) live [].
Proof.
  intros Hs. unfold unsubscribeClusterFilters. destruct (hcCluster cfg); [|done]. destruct subs as [|f subs]; [done|].
  cbn. split_and!; [done|done|]. intros [|g l]; [done|]. destruct (hcBatch cfg); [done|]. apply unsubscribe_each_obeys.
Qed.

Lemma place_obeys c subs live : obeys (placeOfflineOwnership cfg c subs) live [].
Proof.
  unfold placeOfflineOwnership. destruct (_ || _); [done|]. cbn. intros edges. destruct (Owner c edges) as [o|]; [|done].
  induction subs; cbn; auto.
Qed.

Lemma clear_obeys c live : obeys (clearOfflineOwnership cfg c) live [].
Proof. unfold clearOfflineOwnership. destruct (hcOwnership cfg); [|done]. cbn. intros [l|]; [|done]. induction l; cbn; auto. Qed.

Lemma event_obeys info st live : obeys (forwardConnectionEvent cfg info st) live [].
Proof. unfold forwardConnectionEvent. by destruct (hcConnectors cfg). Qed.

Lemma claim_obeys c t i live : obeys (claimClusterSession cfg c t i) live [].
Proof.
  unfold claimClusterSession. destruct (hcCluster cfg); [|done]. cbn. intros [from|]; [|done]. by destruct (_ && hcForwarder cfg).
Qed.

Lemma connect_obeys ip cl c user pw live : obeys (OnConnectAuthenticate cfg ip cl c user pw) live [].
Proof.
  unfold OnConnectAuthenticate. apply obeys_bind; [done|]. clear live. intros [] live; cbn; [|done].
  intros [[info method]|]; [|done]. intros tcfg [|]; cbn; [|done]. apply obeys_bind; [apply claim_obeys|].
  clear live. intros [] live; cbn; [|done]. intros _. apply obeys_bind; [apply event_obeys|done].
Qed.

Lemma disconnect_obeys cl c subs expire evicted live : NoDup subs → obeys (OnDisconnect cfg cl c subs expire evicted) live [].
Proof.
  intros Hs. cbn. intros [state|]; [|done]. apply obeys_bind; [apply event_obeys|]. clear live. intros _ live.
  apply obeys_bind.
  - destruct (expire || evicted); [by apply unsubscribeClusterFilters_obeys|].
    apply obeys_bind; [apply place_obeys|]. intros. by apply unsubscribeClusterFilters_obeys.
  - clear live. intros _ live. by destruct (hcCluster cfg).
Qed.

Lemma handler_obeys p live : handler cfg p → obeys p live [].
Proof.
  intros [ip cl c user pw|c fs _|c fs Hs|cl c subs expire evicted Hs|cl c subs Hs|c fs].
  - apply obeys_bind; [apply connect_obeys|done].
  - unfold OnSubscribed. apply obeys_bind; [|by destruct (hcRetained cfg)].
    destruct (hcCluster cfg) eqn:E; [apply subscribeClusterFilters_obeys|done].
  - unfold OnUnsubscribed. destruct (hcCluster cfg); [|done]. cbn. split_and!; [done|done|apply unsubscribe_each_obeys].
  - by apply disconnect_obeys.
  - cbn. intros []; [by apply unsubscribeClusterFilters_obeys|done].
  - apply obeys_bind; [apply clear_obeys|]. intros. apply subscribeClusterFilters_obeys.
Qed.
End Obeys.

(** ** Lemmas: goroutines *)

Section Routes.
  Context {S : Type} `{!ClusterStore S} `{!ClusterStoreLaws S} (cfg : hookConfig).
  Context (Hnode : contains_byte zero (hcNodeID cfg) = false).
  Local Abbreviation rowed := (row cfg).

(** Some client is known to hold [f]. *)
Definition told_of (f : string) (w : conc (S:=S)) : Prop := ∃ c, (c, f) ∈ cTold w.

(** What goroutine [i], at [p], still owes. *)
Definition owes (i : nat) (p : proc hookE unit) (due : list decision) : Prop :=
  ∃ live fs, mine i due = (λ f, mkDecision i f live) <$> fs ∧ NoDup fs ∧ obeys p live fs.

Record conc_inv (w : conc (S:=S)) : Prop := {
  ci_refs : refs_hold (λ c f, (c, f) ∈ cTold w) (cHook w);
  ci_threads : ∀ i p, cThreads w !! i = Some p → owes i p (cDue w);
  ci_due : ∀ d, d ∈ cDue w → is_Some (cThreads w !! dThread d);
  ci_rows : ∀ f, f ∉ cDisturbed w →
    match last (about f (cDue w)) with Some d => dLive d = true ↔ told_of f w | None => rowed f (cStore w) ↔ told_of f w end;
}.

(** A step that leaves references, decisions and store alone. *)
Lemma keep_inv i p h w : conc_inv w → clusterFilterRefs h = clusterFilterRefs (cHook w) → owes i p (cDue w) →
  conc_inv (mkConc h (cTold w) (<[i := p]> (cThreads w)) (cDue w) (cStore w) (cDisturbed w)).
Proof.
  intros [[H1 H1'] H2 H3 H4] Hh Ho. split; cbn.
  - split; by rewrite Hh.
  - intros j q. rewrite lookup_insert. case_decide; [intros [= <-]; by subst|apply H2].
  - intros d Hd. rewrite lookup_insert. case_decide; [done|by apply H3].
  - exact H4.
Qed.

Lemma section_refs {X} (e : hookE X) h h' x : section e h = Some (h', x) → clusterFilterRefs h' = clusterFilterRefs h.
Proof.
  destruct e as [| |cl c user info m tcfg|c t|cl c cleanup|cl c| | | | | | | | | | | | |]; cbn; try done.
  - unfold admit_section. case_match; by intros [= <- <-].
  - by intros [= <- <-].
  - unfold leave_section. case_match; intros [= <- <-]; [|done]. unfold untrack. by destruct cleanup.
  - unfold expire_section. repeat case_match; by intros [= <- <-].
Qed.

(** What a call about the filters [fs] does to the entries of this node. *)
Definition writes (live : bool) (fs : list string) (s s' : S) (ok : bool) : Prop :=
  (∀ g, g ∉ fs → rowed g s' ↔ rowed g s) ∧ (ok = true → ∀ g, g ∈ fs → rowed g s' ↔ live = true).

Lemma row_key f g : routeKey g (hcNodeID cfg) = routeKey f (hcNodeID cfg) → g = f.
Proof. intros E. by apply routeKey_inj in E as [-> _]. Qed.

Lemma Subscribe_writes f (s s' : S) ok : reaches (Router_Subscribe f (hcNodeID cfg)) s s' ok → writes true [f] s s' ok.
Proof.
  intros [E|[-> ->]]; [|by split]. destruct (Subscribe_keys _ _ _ _ _ E) as (H1 & H2 & H3). split; unfold row.
  - intros g Hg. split; [|auto]. intros [E'%elem_of_singleton|?]%H3%elem_of_union; [|done]. apply row_key in E' as ->. set_solver.
  - intros -> g ->%list_elem_of_singleton. naive_solver.
Qed.

Lemma delete_writes fs ev (s s1 s' : S) ok : store_Delete ((λ t, routeKey t (hcNodeID cfg)) <$> fs) s = Some s1 →
  publish ev s1 = (s', ok) → writes false fs s s' ok.
Proof.
  intros [E _]%law_Delete Hp.
  assert (store_keys s' = store_keys s1) as E'.
  { unfold publish in Hp. destruct (store_Publish ev s1) as [s2|] eqn:E2; injection Hp as <- <-; [|done]. by apply law_Publish in E2 as [-> _]. }
  split; unfold row; rewrite E', E; setoid_rewrite elem_of_difference; setoid_rewrite elem_of_list_to_set; setoid_rewrite list_elem_of_fmap.
  - intros g Hg. split; [tauto|]. intros Hin. split; [done|]. intros (f & ->%row_key & Hf). done.
  - intros _ g Hg. split; [|done]. intros [_ Hn]. destruct Hn. eauto.
Qed.

Lemma Unsubscribe_writes f (s s' : S) ok : reaches (Router_Unsubscribe f (hcNodeID cfg)) s s' ok → writes false [f] s s' ok.
Proof.
  intros [E|[-> ->]]; [|by split]. revert E. unfold Router_Unsubscribe. change [routeKey f (hcNodeID cfg)] with ((λ t, routeKey t (hcNodeID cfg)) <$> [f]).
  destruct (store_Delete _ s) as [s1|] eqn:Ed; [intros Hp; by eapply delete_writes|]. intros [= <- <-]. by split.
Qed.

Lemma Batch_writes fs r (s s' : S) ok : fs ≠ [] → reaches (UnsubscribeBatch fs (hcNodeID cfg) r) s s' ok → writes false fs s s' ok.
Proof.
  intros Hne [E|[-> ->]]; [|by split]. revert E. unfold UnsubscribeBatch. destruct fs as [|f fs]; [done|].
  destruct (store_Delete _ s) as [s1|] eqn:Ed; [intros Hp; by eapply delete_writes|]. intros [= <- <-]. by split.
Qed.

(** A call that a goroutine owed. *)
Lemma called_inv i live fs rest ok s' p w : conc_inv w → mine i (cDue w) = (λ f, mkDecision i f live) <$> fs ++ rest →
  NoDup (fs ++ rest) → writes live fs (cStore w) s' ok → obeys p live rest → conc_inv (called i fs ok s' p w).
Proof.
  intros [H1 H2 H3 H4] Hmine Hnd [Hw1 Hw2] Hp. apply NoDup_app in Hnd as (Hfs & _ & Hrest). split; cbn.
  - done.
  - intros j q. rewrite lookup_insert. case_decide as Hj.
    + intros [= <-]. subst j. exists live, rest. split; [by apply mine_settle|done].
    + intros (live' & fs' & E & ? & ?)%H2. exists live', fs'. by rewrite mine_settle_ne.
  - intros d Hd%settle_sub. rewrite lookup_insert. case_decide; [done|by apply H3].
  - intros g [Hg Hlate]%not_elem_of_union. specialize (H4 g Hg). destruct (decide (g ∈ fs)) as [Hin|Hout].
    + rewrite elem_of_list_to_set in Hlate. destruct ok; [|done].
      assert (in_turn i (cDue w) g) as Ht by (apply dec_stable; intros ?; by apply Hlate, list_elem_of_filter).
      unfold in_turn in Ht. destruct (about g (cDue w)) as [|d tl] eqn:E; [done|].
      rewrite (about_settle i g fs _ d tl Hfs Hin E Ht). destruct tl as [|d' tl].
      * cbn in H4 |- *. rewrite (Hw2 eq_refl g Hin). unfold told_of in *. cbn. rewrite <-H4.
        assert (d ∈ mine i (cDue w)) as Hd.
        { apply list_elem_of_filter. split; [done|]. assert (d ∈ about g (cDue w)) as [_ ?]%list_elem_of_filter by (rewrite E; by left). done. }
        rewrite Hmine in Hd. apply list_elem_of_fmap in Hd as (f & -> & _). done.
      * change (last (d :: d' :: tl)) with (last (d' :: tl)) in H4. destruct (last (d' :: tl)) eqn:El; [exact H4|].
        by apply last_None in El.
    + rewrite about_settle_ne by done. destruct (last _); [done|]. rewrite Hw1 by done. exact H4.
Qed.

(** A section on the references decides about the filters [fs]. *)
Lemma decided_inv i live fs p h told w :
  conc_inv w → is_Some (cThreads w !! i) → mine i (cDue w) = [] → NoDup fs → obeys p live fs →
  refs_hold (λ c f, (c, f) ∈ told) h →
  (∀ f, if decide (f ∈ fs) then (∃ c, (c, f) ∈ told) ↔ live = true else (∃ c, (c, f) ∈ told) ↔ told_of f w) →
  conc_inv (mkConc h told (<[i := p]> (cThreads w)) (cDue w ++ ((λ f, mkDecision i f live) <$> fs)) (cStore w) (cDisturbed w)).
Proof.
  intros [_ H2 H3 H4] Hi Hmine Hnd Hp Hrefs Htold.
  assert (∀ j l, mine j ((λ f, mkDecision i f live) <$> l) = if decide (j = i) then (λ f, mkDecision i f live) <$> l else []) as Hj.
  { intros j l. induction l as [|f l IH]; [by case_decide|]. rewrite fmap_cons, filter_cons, IH. cbn. repeat case_decide; congruence. }
  assert (∀ g l, NoDup l → about g ((λ f, mkDecision i f live) <$> l) = if decide (g ∈ l) then [mkDecision i g live] else []) as Hg.
  { intros g l. induction 1 as [|f l Hn Hl IH]; [done|]. rewrite fmap_cons, filter_cons, IH. cbn.
    destruct (decide (f = g)) as [->|Hne].
    - rewrite (decide_False (P := g ∈ l)) by done. rewrite decide_True; [done|by left].
    - repeat case_decide; set_solver. }
  split; cbn.
  - done.
  - intros j q. rewrite lookup_insert. case_decide as Hx.
    + intros [= <-]. subst j. exists live, fs. by rewrite filter_app, Hmine, Hj, decide_True.
    + intros (live' & fs' & E & ? & ?)%H2. exists live', fs'. rewrite filter_app, Hj, decide_False by done. by rewrite app_nil_r.
  - intros d [Hd|(f & -> & _)%list_elem_of_fmap]%elem_of_app; rewrite lookup_insert; cbn; case_decide; [done|by apply H3|done|done].
  - intros g Hd. specialize (H4 g Hd). specialize (Htold g). rewrite filter_app, (Hg g fs Hnd). unfold told_of in *. cbn.
    case_decide.
    + rewrite last_snoc. cbn. tauto.
    + rewrite app_nil_r. destruct (last _); cbn in *; tauto.
Qed.

Lemma owes_nothing i p due : owes i p due → (∀ live fs, obeys p live fs → fs = []) → mine i due = [].
Proof. intros (live & fs & -> & _ & Ho) H. by rewrite (H _ _ Ho). Qed.

Lemma AddRef_inv i c f k w w' : conc_inv w → cThreads w !! i = Some (Call (AddRef c f) k) →
  request_step cfg i (AddRef c f) k w w' → conc_inv w'.
Proof.
  intros Hw Ei. pose proof (ci_threads _ Hw _ _ Ei) as Ho. cbn. destruct (addClusterFilterRef c f (cHook w)) as [h first] eqn:E. intros ->.
  destruct (addClusterFilterRef_spec _ _ _ _ _ _ (ci_refs _ Hw) E) as [Hh Hfirst].
  assert (refs_hold (λ c' f', (c', f') ∈ {[(c, f)]} ∪ cTold w) h) as Hh'.
  { eapply refs_hold_ext; [|exact Hh]. intros c' f'. unfold live_add. set_solver. }
  pose proof (owes_nothing _ _ _ Ho ltac:(intros ? ? [? _]; done)) as Hm. destruct Ho as (live & fs & _ & _ & Ho). cbn in Ho.
  destruct first.
  - apply (decided_inv i true [f]); [done|by rewrite Ei|done|apply NoDup_singleton|apply Ho|done|].
    intros g. unfold told_of. case_decide as Hg; [|set_solver]. apply list_elem_of_singleton in Hg as ->. split; [done|]. exists c. set_solver.
  - apply (decided_inv i live []); [done|by rewrite Ei|done|constructor|apply Ho|done|].
    intros g. rewrite decide_False by apply not_elem_of_nil. unfold told_of. split; [|set_solver].
    intros (c' & [E'%elem_of_singleton|?]%elem_of_union); [|eauto]. injection E' as -> ->.
    destruct (decide (set_Exists (λ x, x.2 = f) (cTold w))) as [(x & Hx & <-)|Hno]; [exists x.1; by destruct x|].
    exfalso. enough (false = true) by done. apply Hfirst. intros (c' & Hc'). apply Hno. by exists (c', f).
Qed.

Lemma RemoveRefs_inv i c fs k w w' : conc_inv w → cThreads w !! i = Some (Call (RemoveRefs c fs) k) →
  request_step cfg i (RemoveRefs c fs) k w w' → conc_inv w'.
Proof.
  intros Hw Ei. pose proof (ci_threads _ Hw _ _ Ei) as Ho. cbn. destruct (removeClusterFilterRefs c fs (cHook w)) as [h l] eqn:E. intros ->.
  destruct (removeClusterFilterRefs_spec _ _ _ _ _ _ (ci_refs _ Hw) E) as [Hh Hl].
  destruct (remove_refs_sublist _ _ _ _ _ _ E) as (l' & El & Hsub). cbn in El. subst l'.
  pose proof (owes_nothing _ _ _ Ho ltac:(intros ? ? [? _]; done)) as Hm. destruct Ho as (live & gs & _ & _ & Ho). cbn in Ho.
  destruct Ho as (_ & Hnd & Ho). set (told := cTold w ∖ list_to_set ((λ f, (c, f)) <$> fs)).
  assert (∀ c' f', live_remove c (list_to_set fs) (λ c f, (c, f) ∈ cTold w) c' f' ↔ (c', f') ∈ told) as Ht.
  { intros c' f'. unfold live_remove, told. rewrite elem_of_difference, !elem_of_list_to_set, list_elem_of_fmap. naive_solver. }
  apply (decided_inv i false l); [done|by rewrite Ei|done|by eapply sublist_NoDup|apply Ho|by eapply refs_hold_ext|].
  setoid_rewrite Ht in Hl. intros g. unfold told_of. case_decide as Hg.
  - apply Hl in Hg as [_ Hg]. split; [intros Hx; by destruct Hg|done].
  - rewrite Hl in Hg. split; [set_solver|]. intros (c' & Hc').
    destruct (decide (g ∈ fs)) as [Hin|Hout]; [|exists c'; apply Ht; unfold live_remove; rewrite elem_of_list_to_set; tauto].
    destruct (decide (set_Exists (λ x, x.2 = g) told)) as [(x & Hx & <-)|Hno]; [exists x.1; by destruct x|].
    destruct Hg. split; [done|]. intros (c'' & Hc''). apply Hno. by exists (c'', g).
Qed.

Lemma thread_inv i p w w' : conc_inv w → cThreads w !! i = Some p → thread_step cfg i p w w' → conc_inv w'.
Proof.
  intros Hw Ei Hs. pose proof (ci_threads _ Hw _ _ Ei) as Ho. destruct p as [[]|X e k].
  - pose proof (owes_nothing _ _ _ Ho ltac:(done)) as Hm. destruct Hw as [H1 H2 H3 H4]. cbn in Hs. subst w'. split; cbn; try done.
    + intros j q [_ ?]%lookup_delete_Some. by apply H2.
    + intros d Hd. rewrite lookup_delete_ne; [by apply H3|]. intros Ed.
      assert (d ∈ mine i (cDue w)) as Hx by by apply list_elem_of_filter. rewrite Hm in Hx. by apply elem_of_nil in Hx.
  - cbn in Hs. destruct Ho as (live & fs & Em & Hnd & Ho).
    destruct e as [c f|c fs'|cl c user info m tcfg|c t|cl c cleanup|cl c|f|f|fs'| | | | | | | | | |]; cbn in Hs, Ho; try by
      (first [subst w'|destruct Hs as [x ->]]; apply keep_inv; [done|done|exists live, fs; split_and!; [done|done|apply Ho]]).
    + by eapply AddRef_inv.
    + by eapply RemoveRefs_inv.
    + destruct (admit_section cl c user info m tcfg (cHook w)) as [h x] eqn:E. subst w'. apply keep_inv; [done| |by exists live, fs].
      apply (section_refs (Admit cl c user info m tcfg) _ _ x). cbn. by rewrite E.
    + destruct (leave_section cl c cleanup (cHook w)) as [h x] eqn:E. subst w'. apply keep_inv; [done| |by exists live, fs].
      apply (section_refs (Leave cl c cleanup) _ _ x). cbn. by rewrite E.
    + destruct (expire_section cl c (cHook w)) as [h x] eqn:E. subst w'. apply keep_inv; [done| |by exists live, fs].
      apply (section_refs (Expire cl c) _ _ x). cbn. by rewrite E.
    + destruct Hs as (s & ok & Hr & ->), Ho as (-> & rest & -> & Hk). by apply (called_inv i true [f] rest); [| | |apply Subscribe_writes|].
    + destruct Hs as (s & ok & Hr & ->), Ho as (-> & rest & -> & Hk). by apply (called_inv i false [f] rest); [| | |apply Unsubscribe_writes|].
    + destruct Hs as (r & s & ok & Hr & ->), Ho as (-> & Hne & -> & Hk).
      apply (called_inv i false fs' []); rewrite ?app_nil_r; [done|done|done|by eapply Batch_writes|done].
Qed.

Lemma conc_step_inv w w' : conc_inv w → conc_step cfg w w' → conc_inv w'.
Proof.
  intros Hw [i p Hi Hp|i p w1 Hi Hs|s D Hrow]; [|by eapply thread_inv|].
  - apply keep_inv; [done|done|]. exists true, []. split_and!; [|constructor|by eapply handler_obeys].
    destruct (mine i (cDue w)) as [|d l] eqn:E; [done|]. assert (d ∈ mine i (cDue w)) as Hd by (rewrite E; by left).
    apply list_elem_of_filter in Hd as [<- Hd]. apply (ci_due _ Hw) in Hd as [? ?]. congruence.
  - destruct Hw as [H1 H2 H3 H4]. split; cbn; try done. intros f [Hf HD]%not_elem_of_union. specialize (H4 f Hf).
    destruct (last _); [done|]. by rewrite Hrow.
Qed.

Lemma starts_inv w : starts cfg w → conc_inv w.
Proof.
  intros (E1 & E2 & E3 & E4 & Hr). split.
  - rewrite E1, E2. split; cbn; [|done]. intros c f. rewrite lookup_empty. set_solver.
  - rewrite E3. done.
  - rewrite E4. by intros d ?%elem_of_nil.
  - intros f Hf. rewrite E4. cbn. unfold told_of. rewrite E2. specialize (Hr f Hf). set_solver.
Qed.
End Routes.

(** ** Claims *)

(** C9: routing follows what the hook was told. However the goroutines of the
    handlers interleave between their sections and their registry calls, whatever
    calls fail and whatever others do to the store: the reference map lists
    exactly the pairs of client and filter that the hook was told of and not told
    to drop; every open decision belongs to a goroutine that is still running;
    and with no open decision about a filter, this node is registered for it in
    the store exactly if some client is known to hold it, unless a call about the
    filter failed or overtook the call of an older decision, or someone else
    changed the entry. *)
Theorem routes_follow_subscriptions {S} `{!ClusterStore S} `{!ClusterStoreLaws S} cfg (w0 w : conc (S:=S)) :
  contains_byte zero (hcNodeID cfg) = false → starts cfg w0 → rtc (conc_step cfg) w0 w →
  (∀ c f, c ∈ default ∅ (clusterFilterRefs (cHook w) !! f) ↔ (c, f) ∈ cTold w) ∧
  (∀ d, d ∈ cDue w → is_Some (cThreads w !! dThread d)) ∧
  (∀ f, f ∉ cDisturbed w → (∀ d, d ∈ cDue w → dFilter d ≠ f) → row cfg f (cStore w) ↔ ∃ c, (c, f) ∈ cTold w).
Proof.
  intros Hn H0 Hr. assert (conc_inv cfg w) as [[H1 _] _ H3 H4].
  { refine (rtc_ind_r (conc_inv cfg) _ _ _ _ Hr); [by apply starts_inv|]. intros ? ? _ Hs Hi. by eapply conc_step_inv. }
  split_and!; [done|done|]. intros f Hf Hno. specialize (H4 f Hf).
  destruct (filter (λ d, dFilter d = f) (cDue w)) as [|d l] eqn:E; [exact H4|].
  assert (d ∈ filter (λ d, dFilter d = f) (cDue w)) as [Ed Hd]%list_elem_of_filter by (rewrite E; by left).
  by destruct (Hno d Hd).
Qed.

Definition witness_config : hookConfig := mkHookConfig true true "edge-1" false false true false false.

Definition witness_conc : conc := mkConc Init ∅ ∅ [] (mkMemStore ∅ [] true) ∅.

(** One client subscribes and its goroutine ends. *)
Lemma witness_run : ∃ w, rtc (conc_step witness_config) witness_conc w ∧ ("dev1", "a/+") ∈ cTold w ∧
  ("a/+" ∉ cDisturbed w) ∧ cDue w = [].
Proof.
  eexists. split_and!.
  - eapply rtc_l; [apply (step_start _ _ 0); [done|]; apply (h_subscribed _ "dev1" ["a/+"]), NoDup_singleton|].
    eapply rtc_l; [eapply (step_thread _ _ 0); [reflexivity|]; reflexivity|].
    eapply rtc_l; [eapply (step_thread _ _ 0); [reflexivity|]; do 2 eexists; split; [left; reflexivity|reflexivity]|].
    eapply rtc_l; [eapply (step_thread _ _ 0); [reflexivity|]; reflexivity|]. apply rtc_refl.
  - cbn. set_solver.
  - cbn. set_solver.
  - reflexivity.
Qed.

Lemma routes_follow_subscriptions_witness :
  ∃ w, rtc (conc_step witness_config) witness_conc w ∧ row witness_config "a/+" (cStore w).
Proof.
  destruct witness_run as (w & Hr & Ht & Hd & Hdue). exists w. split; [exact Hr|].
  destruct (routes_follow_subscriptions witness_config witness_conc w eq_refl) as (_ & _ & H).
  - split_and!; try reflexivity. intros f _. apply not_elem_of_empty.
  - exact Hr.
  - apply (H "a/+" Hd); [|exists "dev1"; exact Ht]. rewrite Hdue. by intros d ?%elem_of_nil.
Defined.

(** A call can overtake an older one, since the mutex is released in between: a
    client drops a filter, another takes it up, and the withdrawal decided first
    reaches the store last. All calls succeed, a client holds the filter, and the
    node is not registered for it (until the routing reconciler runs). *)
Lemma overtaken_call_loses_route :
  let '(h1, first1) := addClusterFilterRef "dev1" "a" Init in
  let '(h2, last) := removeClusterFilterRefs "dev1" ["a"] h1 in
  let '(h3, first2) := addClusterFilterRef "dev2" "a" h2 in
  let s1 := Router_Subscribe "a" "edge-1" (mkMemStore ∅ [] true) in
  let s2 := Router_Subscribe "a" "edge-1" s1.1 in
  let s3 := Router_Unsubscribe "a" "edge-1" s2.1 in
  first1 = true ∧ last = ["a"] ∧ first2 = true ∧ clusterFilterRefs h3 !! "a" = Some {["dev2"]} ∧
  s1.2 = true ∧ s2.2 = true ∧ s3.2 = true ∧ elements (store_keys s3.1) = [].
Proof. vm_compute. done. Qed.

(** A late disconnect cannot hurt the newer connection: a CONNECT succeeds only
    after it was registered under the identity it authenticated as; from then on
    the section of a disconnect or expiry of any other connection with the same
    client ID changes nothing, and the handler ends there without a call. *)
Theorem late_disconnect_is_ignored cfg ip cl c user pw tr :
  runs (OnConnectAuthenticate cfg ip cl c user pw) true tr →
  ∃ info method tcfg, Event (Authenticate cl c user pw) (Some (info, method)) ∈ tr ∧
    Event (Admit cl c user info method tcfg) true ∈ tr ∧
    ∀ h h', admit_section cl c user info method tcfg h = (h', true) →
      (∃ state, current cl c h' = Some state ∧ csInfo state = info ∧ csMethod state = method ∧ csUsername state = user) ∧
      ∀ old cleanup, old ≠ cl → leave_section old c cleanup h' = (h', None) ∧ expire_section old c h' = (h', false).
Proof.
  intros ([] & ? & -> & Hr); cbn in Hr; [|by destruct Hr].
  destruct Hr as (auth & ? & -> & Hr). destruct auth as [[info method]|]; cbn in Hr; [|by destruct Hr].
  destruct Hr as (tcfg & ? & -> & [] & ? & -> & Hr); cbn in Hr; [|by destruct Hr].
  exists info, method, tcfg. split; [by right; left|]. split; [by do 3 right; left|]. intros h h'. unfold admit_section.
  case_match; [done|]. intros [= <-]. unfold current, leave_section, expire_section, current. cbn. rewrite !lookup_insert_eq. cbn.
  rewrite Pos.eqb_refl, N.eqb_refl. split; [by eexists|]. intros old cleanup Hne.
  by destruct (Pos.eqb_spec cl old) as [->|].
Qed.

Lemma late_disconnect_is_ignored_witness :
  ∃ tr, runs (OnConnectAuthenticate witness_config "10.0.0.1" 2 "c1" "u" "p") true tr ∧
    ∃ info method tcfg, Event (Admit 2 "c1" "u" info method tcfg) true ∈ tr.
Proof.
  exists [Event (AllowConnect "10.0.0.1") true; Event (Authenticate 2 "c1" "u" "p") (Some (testConsumerDeviceInfo, authMethodTestConsumer));
    Event (TenantConfig (TenantID testConsumerDeviceInfo)) None; Event (Admit 2 "c1" "u" testConsumerDeviceInfo authMethodTestConsumer None) true;
    Event (ClaimSession "c1" (Identity testConsumerDeviceInfo)) (Some ""); Event (Emit (LastSeenUpdate (ID testConsumerDeviceInfo))) tt].
  match goal with |- ?P ∧ _ => assert P as Hr by (cbn; repeat eexists) end. split; [exact Hr|].
  destruct (late_disconnect_is_ignored _ _ _ _ _ _ _ Hr) as (info & method & tcfg & _ & H & _). by exists info, method, tcfg.
Defined.

(** The per-tenant connection count leaks on takeover: the late disconnect is
    ignored as a whole, so the count of the replaced connection is never given
    back and counts against MaxConnections for good. *)
Lemma takeover_leaks_connection_count :
  let connect cl h := (admit_section cl "c1" "u" testConsumerDeviceInfo authMethodTestConsumer None h).1 in
  let h := connect 2%positive (connect 1%positive Init) in
  let h := (leave_section 1 "c1" false h).1 in
  let h := (leave_section 2 "c1" true h).1 in
  clients h = ∅ ∧ conns (TenantID testConsumerDeviceInfo) h = 1%Z.
Proof. vm_compute. done. Qed.
