(* ===== verification/Publish.v ===== *)
(** The publish handler of the broker hook: OnPublish, OnPacketRead,
    OnPacketProcessed and withinDataVolumeLimit in internal/broker/hooks.go,
    and the daily byte quota of internal/forwarder/volume.go.

    The Redis counters are a map from keys to integers; the Lua script is
    translated, [redisUp] says whether it runs. Their expiry, two days after
    the last write to a key that names one day, is left out. Lua numbers are
    integers here: a double is exact up to 2^53 bytes. [day] is the UTC date of
    the clock reading. Metrics are left out. *)

From S2P Require Import Prelude GoStrings Acl Topics Router Session Auth HookAcl HookAuth Fanout RateLimit Hooks.

(** ** Daily byte quota (volume.go) *)

Definition DailyBytesKey (tenantID day : string) : string := "keel:gw:rl:bytes:" +:+ tenantID +:+ ":" +:+ day.

Definition luaCheckAndRecord (key : string) (max add : Z) (db : gmap string Z) : gmap string Z * Z :=
  let cur := default 0%Z (db !! key) in
  if (0 <? max)%Z && (max <? cur + add)%Z then (db, (-1)%Z)
  else (<[key := (cur + add)%Z]> db, (cur + add)%Z).

(** True: within the quota. *)
Definition CheckAndRecordBytes (hasRedis redisUp : bool) (tenantID day : string) (msgBytes maxBytes : Z)
    (db : gmap string Z) : gmap string Z * bool :=
  if negb hasRedis then (db, true)
  else if negb redisUp then (db, true)
  else
    let '(db, result) := luaCheckAndRecord (DailyBytesKey tenantID day) maxBytes msgBytes db in
    (db, negb (result =? -1)%Z).

(** ** Handlers *)

(** A publish packet, the fields read. *)
Record publishPacket := mkPublishPacket {
  pkTopicName : string;
  pkPayload : string;
  pkQos : N;
  pkSharedFilters : option (list string);
}.

(** A request to the output connectors (connector.ForwardRequest). *)
Record outputRequest := mkOutputRequest {
  orTopic : string;
  orPayload : string;
  orDeviceId : string;
  orTenantId : string;
  orTenantSlug : string;
  orFleetId : string;
}.

Inductive publishError := ErrQuotaExceeded | ErrRejectPacket.

Definition set_received (m : gmap positive Z) (h : keelHook) : keelHook :=
  mkKeelHook (clients h) (generation h) (clusterFilterRefs h) (tenantConns h) m.

Definition OnPacketRead (now : Z) (cl : positive) (isPublish : bool) (h : keelHook) : keelHook :=
  if isPublish then set_received (<[cl := now]> (packetReceivedAt h)) h else h.

Definition OnPacketProcessed (cl : positive) (isPublish : bool) (h : keelHook) : keelHook :=
  if isPublish then set_received (delete cl (packetReceivedAt h)) h else h.

Definition isInfluxTopic (influxTopicFilters : list string) (topic : string) : bool :=
  existsb (λ filter, MatchTopic filter topic) influxTopicFilters.

(** What the publish path is wired to. *)
Record publishConfig := mkPublishConfig {
  pcRegistry : option publishRegistry;
  pcOfflineStore : bool;
  pcForwarder : bool;
  pcNodeID : string;
  pcConnectors : nat;
  pcRedis : bool;
  pcTenantCache : bool;
}.

Section OnPublish.
  Context {P : Type} {Cert : Type} (sv : authServices Cert).
  Context {L : Type} (NewLimiter : L) (Allow : Z → L → L * bool).
  Context {Q : Type} (OwnedOfflineSessions : list string → Q → option (list OfflineSession))
    (QueueOfflineInflight : string → string → InflightMessage → Q → Q * option (N * bool)).
  Context (cfg : publishConfig).

(** The state a publish acts on: the hook, its limiter and settings cache, the
    offline queue and the byte counters; and what it sends to other nodes and
    to the connectors, and the devices whose last-seen time it updates. *)
Record publishWorld := mkPublishWorld {
  pwHook : keelHook;
  pwLimiter : option (keyedRateLimiter L);
  pwAuth : authState P;
  pwQueue : Q;
  pwBytes : gmap string Z;
  pwSent : list (string * Message);
  pwOutput : list outputRequest;
  pwLastSeen : list string;
}.

Definition withinDataVolumeLimit (now : Z) (day : string) (redisUp : bool) (tenantID : string) (payloadBytes : Z)
    (a : authState P) (db : gmap string Z) : authState P * gmap string Z * bool :=
  if negb (pcRedis cfg) || negb (pcTenantCache cfg) then (a, db, true)
  else
    let '(a, tenantCfg) := get_tenant sv now tenantID a in
    let maxBytes := match tenantCfg with Some c => MaxBytesPerDay c | None => 0%Z end in
    let '(db, ok) := CheckAndRecordBytes true redisUp tenantID day payloadBytes maxBytes db in
    (a, db, ok).

(** One request per connector. *)
Definition forwardToOutputConnector (info : DeviceInfo) (pk : publishPacket) : list outputRequest :=
  replicate (pcConnectors cfg)
    (mkOutputRequest (pkTopicName pk) (pkPayload pk) (ID info) (TenantID info) (TenantSlug info) (FleetIDStr info)).

(** [publishID] is the fresh UUID of the event. *)
Definition OnPublish (now : Z) (day : string) (redisUp : bool) (publishID : string) (cl : positive) (clientID : string)
    (protocolVersion : N) (pk : publishPacket) (w : publishWorld) : publishWorld * publishPacket * option publishError :=
  match clients (pwHook w) !! clientID with
  | None => (w, pk, None)
  | Some state =>
      let info := csInfo state in
      let tenantStr := TenantID info in
      let h := match packetReceivedAt (pwHook w) !! cl with
               | Some _ => set_received (delete cl (packetReceivedAt (pwHook w))) (pwHook w)
               | None => pwHook w
               end in
      let '(lim, ok) := if negb (String.eqb tenantStr uuid_Nil) then allow NewLimiter Allow now tenantStr (pwLimiter w)
                        else (pwLimiter w, true) in
      if negb ok then
        (mkPublishWorld h lim (pwAuth w) (pwQueue w) (pwBytes w) (pwSent w) (pwOutput w) (pwLastSeen w), pk,
         Some (if (protocolVersion =? 5)%N && (0 <? pkQos pk)%N then ErrQuotaExceeded else ErrRejectPacket))
      else
        let '(q, sent, shared) :=
          forwardToClusterSubscribers OwnedOfflineSessions QueueOfflineInflight (pcRegistry cfg) (pcOfflineStore cfg)
            (pcForwarder cfg) (pcNodeID cfg) tenantStr publishID (pkTopicName pk) (pkPayload pk) (pkQos pk) (pwQueue w) in
        let pk := mkPublishPacket (pkTopicName pk) (pkPayload pk) (pkQos pk) shared in
        let '(a, db, out) :=
          if (0 <? pcConnectors cfg)%nat then
            let '(a, db, within) := withinDataVolumeLimit now day redisUp tenantStr (Z.of_nat (String.length (pkPayload pk)))
                                      (pwAuth w) (pwBytes w) in
            (a, db, if within : bool then forwardToOutputConnector info pk else [])
          else (pwAuth w, pwBytes w, []) in
        (mkPublishWorld h lim a q db (pwSent w ++ sent) (pwOutput w ++ out) (pwLastSeen w ++ [ID info]), pk, None)
  end.
End OnPublish.

(** ** Specification *)

(** A day of publishes of one tenant under a fixed quota: the counters and
    which messages were within it. *)
Definition quota_run (tenantID day : string) (maxBytes : Z) (sizes : list Z) (db : gmap string Z) :
    gmap string Z * list bool :=
  fold_left (λ '(db, oks) size,
    let '(db, ok) := CheckAndRecordBytes true true tenantID day size maxBytes db in (db, oks ++ [ok])) sizes (db, []).

(** The bytes of the accepted messages. *)
Definition accepted (sizes : list Z) (oks : list bool) : Z :=
  foldr Z.add 0%Z ((λ '(size, ok), if ok : bool then size else 0%Z) <$> zip sizes oks).

(** ** Lemmas *)

Lemma CheckAndRecordBytes_step tenantID day size maxBytes db db' ok :
  (0 <= size)%Z → (0 <= default 0 (db !! DailyBytesKey tenantID day))%Z →
  CheckAndRecordBytes true true tenantID day size maxBytes db = (db', ok) →
  let key := DailyBytesKey tenantID day in
  let cur := default 0%Z (db !! key) in
  (ok = true ↔ (maxBytes <= 0 ∨ cur + size <= maxBytes)%Z) ∧
  default 0%Z (db' !! key) = (cur + if ok then size else 0)%Z ∧ ∀ k, k ≠ key → db' !! k = db !! k.
Proof.
  unfold CheckAndRecordBytes, luaCheckAndRecord. simpl. intros Hs Hc.
  set (key := DailyBytesKey tenantID day) in *. set (cur := default 0%Z (db !! key)) in *.
  destruct (Z.ltb_spec 0 maxBytes), (Z.ltb_spec maxBytes (cur + size)); simpl; intros [= <- <-].
  1: { split_and!; [split; [done|intros; exfalso; lia]|fold cur; lia|done]. }
  all: rewrite lookup_insert_eq; simpl; destruct (Z.eqb_spec (cur + size) (-1)); [lia|];
    (split_and!; [split; [intros _; lia|done]|simpl; lia|intros k Hk; by rewrite lookup_insert_ne]).
Qed.

Lemma accepted_snoc sizes oks size ok :
  length sizes = length oks → accepted (sizes ++ [size]) (oks ++ [ok]) = (accepted sizes oks + if ok then size else 0)%Z.
Proof.
  intros Hl. unfold accepted. rewrite zip_with_app by done. rewrite fmap_app, foldr_app. simpl.
  generalize ((λ '(size, ok), if ok : bool then size else 0%Z) <$> zip sizes oks). intros l.
  induction l as [|x l IH]; simpl; lia.
Qed.

Lemma quota_run_snoc tenantID day maxBytes sizes size db :
  quota_run tenantID day maxBytes (sizes ++ [size]) db =
  let '(db1, oks) := quota_run tenantID day maxBytes sizes db in
  let '(db2, ok) := CheckAndRecordBytes true true tenantID day size maxBytes db1 in (db2, oks ++ [ok]).
Proof. unfold quota_run. rewrite fold_left_app. simpl. by destruct (fold_left _ sizes _). Qed.

Lemma quota_run_spec tenantID day maxBytes sizes db db' oks :
  Forall (λ s, (0 <= s)%Z) sizes → db !! DailyBytesKey tenantID day = None →
  quota_run tenantID day maxBytes sizes db = (db', oks) →
  length sizes = length oks ∧ default 0%Z (db' !! DailyBytesKey tenantID day) = accepted sizes oks ∧
  (0 <= accepted sizes oks)%Z ∧ ((0 < maxBytes)%Z → (accepted sizes oks <= maxBytes)%Z) ∧
  ∀ k, k ≠ DailyBytesKey tenantID day → db' !! k = db !! k.
Proof.
  intros HF Hnew. revert db' oks. induction sizes as [|size sizes IH] using rev_ind; intros db' oks.
  - intros [= <- <-]. rewrite Hnew. split_and!; try done. unfold accepted. simpl. lia.
  - apply Forall_app in HF as [HF Hs]. rewrite Forall_singleton in Hs. rewrite quota_run_snoc.
    destruct (quota_run tenantID day maxBytes sizes db) as [db1 oks1].
    destruct (IH HF _ _ eq_refl) as (Hl & Hv & H0 & Hm & Hk).
    destruct (CheckAndRecordBytes true true tenantID day size maxBytes db1) as [db2 ok] eqn:E. intros [= <- <-].
    destruct (CheckAndRecordBytes_step tenantID day size maxBytes db1 db2 ok Hs ltac:(lia) E) as (Hok & Hv2 & Hk2).
    rewrite accepted_snoc, Hv2, Hv by done. split_and!.
    + rewrite !length_app. simpl. lia.
    + done.
    + destruct ok; lia.
    + intros Hpos. specialize (Hm Hpos). destruct ok; [|lia]. destruct (proj1 Hok eq_refl); lia.
    + intros k Hne. by rewrite Hk2, Hk.
Qed.

(** ** Claims *)

(** The daily quota is exact: over a day of publishes of one tenant under a
    positive limit, the recorded bytes are those of the accepted messages and
    never exceed the limit, a message is accepted exactly if it still fits, and
    no other counter changes. *)
Theorem daily_quota_exact tenantID day maxBytes before size db db1 oks db2 ok :
  (0 < maxBytes)%Z → Forall (λ s, (0 <= s)%Z) (before ++ [size]) → db !! DailyBytesKey tenantID day = None →
  quota_run tenantID day maxBytes before db = (db1, oks) →
  CheckAndRecordBytes true true tenantID day size maxBytes db1 = (db2, ok) →
  (ok = true ↔ (accepted before oks + size <= maxBytes)%Z) ∧
  default 0%Z (db2 !! DailyBytesKey tenantID day) = accepted (before ++ [size]) (oks ++ [ok]) ∧
  (accepted (before ++ [size]) (oks ++ [ok]) <= maxBytes)%Z ∧
  ∀ k, k ≠ DailyBytesKey tenantID day → db2 !! k = db !! k.
Proof.
  intros Hpos HF Hnew E1 E2. pose proof HF as HF'. apply Forall_app in HF' as [HF1 Hs]. rewrite Forall_singleton in Hs.
  destruct (quota_run_spec _ _ _ _ _ _ _ HF1 Hnew E1) as (_ & Hv & H0 & _).
  destruct (CheckAndRecordBytes_step tenantID day size maxBytes db1 db2 ok Hs ltac:(lia) E2) as (Hok & _ & _).
  assert (quota_run tenantID day maxBytes (before ++ [size]) db = (db2, oks ++ [ok])) as E by (by rewrite quota_run_snoc, E1, E2).
  destruct (quota_run_spec _ _ _ _ _ _ _ HF Hnew E) as (_ & Hv2 & _ & Hm & Hk).
  split_and!; [|done|by apply Hm|done]. rewrite Hok, Hv. lia.
Qed.

Lemma daily_quota_exact_witness :
  (CheckAndRecordBytes true true "acme" "20260101" 30 100 (quota_run "acme" "20260101" 100 [50%Z; 40%Z] ∅).1).2 = false.
Proof.
  assert (quota_run "acme" "20260101" 100 [50%Z; 40%Z] ∅ =
    ((quota_run "acme" "20260101" 100 [50%Z; 40%Z] ∅).1, [true; true])) as E1 by (vm_compute; reflexivity).
  destruct (CheckAndRecordBytes true true "acme" "20260101" 30 100 (quota_run "acme" "20260101" 100 [50%Z; 40%Z] ∅).1)
    as [db2 ok] eqn:E2.
  destruct (daily_quota_exact "acme" "20260101" 100 [50%Z; 40%Z] 30 ∅ _ _ db2 ok ltac:(lia)
    ltac:(repeat constructor; lia) ltac:(done) E1 E2) as [H _].
  destruct ok; [|reflexivity]. exfalso. pose proof (proj1 H eq_refl) as Hx. vm_compute in Hx. by apply Hx.
Defined.

(** Output never affects delivery: what a publish sends to other nodes,
    queues for offline sessions and leaves to local subscribers, and the answer
    to the publisher, do not depend on the output connectors, the byte quota,
    the counters or Redis. A rate-limited publish goes nowhere, and only an
    MQTT 5 publisher that waits for an acknowledgement is told why. *)
Theorem output_never_affects_delivery {P Cert} (sv : authServices Cert) {L} (NewLimiter : L) Allow {Q} owned
    (queue : string → string → InflightMessage → Q → Q * option (N * bool)) cfg now day publishID cl clientID version
    pk redisUp (w : publishWorld (P:=P)) connectors redis cache redisUp' (settings : authState P) bytes output seen :
  let cfg' := mkPublishConfig (pcRegistry cfg) (pcOfflineStore cfg) (pcForwarder cfg) (pcNodeID cfg) connectors redis cache in
  let w' := mkPublishWorld (pwHook w) (pwLimiter w) settings (pwQueue w) bytes (pwSent w) output seen in
  let '(w1, pk1, err1) := OnPublish sv NewLimiter Allow owned queue cfg now day redisUp publishID cl clientID version pk w in
  let '(w2, pk2, err2) := OnPublish sv NewLimiter Allow owned queue cfg' now day redisUp' publishID cl clientID version pk w' in
  pk1 = pk2 ∧ err1 = err2 ∧ pwHook w1 = pwHook w2 ∧ pwLimiter w1 = pwLimiter w2 ∧ pwQueue w1 = pwQueue w2 ∧
  pwSent w1 = pwSent w2 ∧
  (err1 ≠ None → pwSent w1 = pwSent w ∧ pwQueue w1 = pwQueue w ∧ pwOutput w1 = pwOutput w) ∧
  (err1 = Some ErrQuotaExceeded → version = 5%N ∧ (0 < pkQos pk)%N).
Proof.
  unfold OnPublish. simpl.
  destruct (clients (pwHook w) !! clientID) as [state|]; [|by split_and!].
  destruct (if negb (String.eqb (TenantID (csInfo state)) uuid_Nil) then _ else _) as [lim []]; simpl.
  2: { split_and!; [done..|]. destruct (N.eqb_spec version 5), (N.ltb_spec 0 (pkQos pk)); by intros [=]. }
  destruct (forwardToClusterSubscribers _ _ _ _ _ _ _ _ _ _ _ _) as [[q sent] shared].
  destruct (if (0 <? pcConnectors cfg)%nat then _ else _) as [[a db] out].
  destruct (if (0 <? connectors)%nat then _ else _) as [[a' db'] out'].
  by split_and!.
Qed.
