(* ===== verification/Retained.v ===== *)
(** Retained messages in Redis: internal/broker/retained.go. Redis is a class
    of the commands the store uses, with their documented effect as laws. *)

From S2P Require Import Prelude GoStrings Acl.

Definition retainedKeyPrefix : string := "keel:retained:".
Definition retainedIndexKey : string := "keel:retained:index".
Definition retainedKey (topic : string) : string := retainedKeyPrefix +:+ topic.

(** SET key and SADD index in one transaction, DEL and SREM in one (false: some
    command failed; a transaction is not rolled back), SMEMBERS and MGET
    ([None]: error; a missing or non-string value is nil). [redis_value] and
    [redis_member] are the contents. *)
Class RetainedRedis (S : Type) := {
  redis_SetSAdd : string → string → string → string → S → S * bool;
  redis_DelSRem : string → string → string → S → S * bool;
  redis_SMembers : string → S → option (list string);
  redis_MGet : list string → S → option (list (option string));
  redis_value : S → string → option string;
  redis_member : S → string → string → Prop;
}.

Definition containsWildcard (filter : string) : bool := contains_byte "+" filter || contains_byte "#" filter.

Record RetainedMessage := mkRetainedMessage { rmTopic : string; rmPayload : string }.

Section Store.
  Context {S : Type} `{!RetainedRedis S}.

Definition retained_Delete (topic : string) (s : S) : S * bool :=
  redis_DelSRem (retainedKey topic) retainedIndexKey topic s.

Definition retained_Set (topic payload : string) (s : S) : S * bool :=
  if String.eqb payload "" then retained_Delete topic s
  else redis_SetSAdd (retainedKey topic) payload retainedIndexKey topic s.

(** The fetch at the end of [Match]. *)
Definition fetch_retained (topics : list string) (s : S) : option (list RetainedMessage) :=
  match topics with
  | [] => Some []
  | _ :: _ =>
      match redis_MGet (retainedKey <$> topics) s with
      | None => None
      | Some vals =>
          Some (omap (λ '(t, v), (λ payload, mkRetainedMessage t payload) <$> v) (zip topics vals))
      end
  end.

Definition Match (filter : string) (exclude : gset string) (s : S) : option (list RetainedMessage) :=
  if negb (containsWildcard filter) then
    if decide (filter ∈ exclude) then Some [] else fetch_retained [filter] s
  else
    match redis_SMembers retainedIndexKey s with
    | None => None
    | Some members =>
        fetch_retained (List.filter (λ t, negb (bool_decide (t ∈ exclude)) && MatchTopic filter t) members) s
    end.
End Store.

(** ** Specification *)

(** The documented effect of the commands on keys other than the index. *)
Class RetainedRedisLaws (S : Type) `{!RetainedRedis S} := {
  law_SetSAdd k v idx t (s s' : S) : k ≠ idx → redis_SetSAdd k v idx t s = (s', true) →
    (∀ k', k' ≠ idx → redis_value s' k' = if decide (k' = k) then Some v else redis_value s k') ∧
    redis_value s' idx = None ∧ (∀ t', redis_member s' idx t' ↔ redis_member s idx t' ∨ t' = t);
  law_DelSRem k idx t (s s' : S) : k ≠ idx → redis_DelSRem k idx t s = (s', true) →
    (∀ k', k' ≠ idx → redis_value s' k' = if decide (k' = k) then None else redis_value s k') ∧
    redis_value s' idx = redis_value s idx ∧ (∀ t', redis_member s' idx t' ↔ redis_member s idx t' ∧ t' ≠ t);
  law_SMembers idx (s : S) l : redis_SMembers idx s = Some l → ∀ t, t ∈ l ↔ redis_member s idx t;
  law_MGet ks (s : S) vs : redis_MGet ks s = Some vs → vs = redis_value s <$> ks;
}.

(** Runs of the store, with the retained messages they leave. *)
Inductive retained_run {S : Type} `{!RetainedRedis S} : S → gmap string string → Prop :=
  | retained_start s : (∀ k, redis_value s k = None) → (∀ t, ¬ redis_member s retainedIndexKey t) → retained_run s ∅
  | retained_set t p s s' m : t ≠ "index" → retained_run s m → retained_Set t p s = (s', true) →
      retained_run s' (if String.eqb p "" then delete t m else <[t := p]> m)
  | retained_delete t s s' m : t ≠ "index" → retained_run s m → retained_Delete t s = (s', true) →
      retained_run s' (delete t m).

(** ** Lemmas *)

Lemma retainedKey_index t : retainedKey t = retainedIndexKey ↔ t = "index".
Proof.
  split; [|by intros ->]. unfold retainedKey. change retainedIndexKey with (retainedKeyPrefix +:+ "index").
  apply string_app_inj_l.
Qed.

Lemma retainedKey_inj t t' : retainedKey t = retainedKey t' → t = t'.
Proof. apply string_app_inj_l. Qed.

Lemma MatchTopic_loop_literal f t :
  Forall (λ l, l ≠ "#" ∧ l ≠ "+") f → MatchTopic_loop f t = true ↔ f = t.
Proof.
  intros HF. revert t. induction HF as [|l f [H1 H2] HF IH]; intros t; simpl.
  - destruct t; naive_solver.
  - apply String.eqb_neq in H1, H2. rewrite H1. destruct t as [|x t]; [done|]. rewrite H2.
    destruct (String.eqb_spec l x) as [->|]; simpl; [rewrite IH|]; naive_solver.
Qed.

Lemma split_part_bytes b c s p : c ≠ b → contains_byte c s = false → p ∈ split b s → contains_byte c p = false.
Proof.
  intros Hb. rewrite <-(join_split b s) at 1. generalize (split b s). intros l.
  induction l as [|x l IH]; [by intros _ ?%not_elem_of_nil|]. destruct l as [|y l].
  - intros Hx ->%list_elem_of_singleton. done.
  - rewrite join_cons, contains_byte_app. simpl. intros [Hx Hr]%orb_false_iff.
    apply orb_false_iff in Hr as [_ Hr]. intros [->|Hp]%elem_of_cons; [done|by apply IH].
Qed.

Lemma MatchTopic_literal f t : containsWildcard f = false → MatchTopic f t = true ↔ t = f.
Proof.
  intros [Hp Hh]%orb_false_iff. unfold MatchTopic. destruct (String.eqb_spec f t) as [->|Hne]; [done|].
  split; [|intros ->; done]. assert (Forall (λ l, l ≠ "#" ∧ l ≠ "+") (split "/" f)) as HF.
  { apply Forall_forall. intros l Hl.
    pose proof (split_part_bytes "/" "+" f l ltac:(done) Hp Hl). pose proof (split_part_bytes "/" "#" f l ltac:(done) Hh Hl).
    split; by intros ->. }
  destruct (dollar_blocked _ _); [done|]. rewrite MatchTopic_loop_literal by done. by intros ->%split_inj.
Qed.

(** The store holds exactly the retained messages, under their keys and in the
    index. *)
Definition retained_ok {S : Type} `{!RetainedRedis S} (s : S) (m : gmap string string) : Prop :=
  (∀ t, redis_value s (retainedKey t) = m !! t) ∧ (∀ t, redis_member s retainedIndexKey t ↔ is_Some (m !! t)).

Section RetainedLemmas.
  Context {S : Type} `{!RetainedRedis S} `{!RetainedRedisLaws S}.

Lemma retained_Delete_ok t (s s' : S) m :
  t ≠ "index" → retained_ok s m → retained_Delete t s = (s', true) → retained_ok s' (delete t m).
Proof.
  intros Ht [H1 H2] E. assert (retainedKey t ≠ retainedIndexKey) as Hk by (by rewrite retainedKey_index).
  destruct (law_DelSRem _ _ _ _ _ Hk E) as (Hv & Hi & Hm). split.
  - intros t'. destruct (decide (t' = "index")) as [->|Hn].
    + change (retainedKey "index") with retainedIndexKey. rewrite Hi, lookup_delete_ne by done.
      apply (H1 "index").
    + rewrite Hv by (by rewrite retainedKey_index). destruct (decide (t' = t)) as [->|Hd].
      * by rewrite decide_True, lookup_delete_eq.
      * rewrite decide_False, lookup_delete_ne, H1 by (try done; by intros ?%retainedKey_inj). done.
  - intros t'. rewrite Hm, H2. destruct (decide (t' = t)) as [->|Hd].
    + rewrite lookup_delete_eq. split; [by intros [_ ?]|by intros [? [=]]].
    + rewrite lookup_delete_ne by done. tauto.
Qed.

Lemma retained_Set_ok t p (s s' : S) m :
  t ≠ "index" → m !! "index" = None → retained_ok s m → retained_Set t p s = (s', true) →
  retained_ok s' (if String.eqb p "" then delete t m else <[t := p]> m).
Proof.
  intros Ht Hidx Hok. unfold retained_Set. destruct (String.eqb p ""); [by apply retained_Delete_ok|].
  destruct Hok as [H1 H2]. intros E.
  assert (retainedKey t ≠ retainedIndexKey) as Hk by (by rewrite retainedKey_index).
  destruct (law_SetSAdd _ _ _ _ _ _ Hk E) as (Hv & Hi & Hm). split.
  - intros t'. destruct (decide (t' = "index")) as [->|Hn].
    + change (retainedKey "index") with retainedIndexKey. by rewrite Hi, lookup_insert_ne, Hidx.
    + rewrite Hv, lookup_insert by (by rewrite retainedKey_index). destruct (decide (t' = t)) as [->|Hd].
      * by rewrite !decide_True.
      * rewrite !decide_False, H1; [done|done|by intros ?%retainedKey_inj].
  - intros t'. rewrite Hm, H2, lookup_insert. destruct (decide (t = t')) as [->|Hd]; naive_solver.
Qed.

Lemma retained_run_ok (s : S) m : retained_run s m → retained_ok s m ∧ m !! "index" = None.
Proof.
  induction 1 as [s Hv Hm|t p s s' m Ht Hr [IH Hidx] E|t s s' m Ht Hr [IH Hidx] E].
  - split; [split|done]; intros t; rewrite lookup_empty; [apply Hv|]. split; [by intros ?%Hm|by intros []].
  - split; [by apply (retained_Set_ok t p s)|]. destruct (String.eqb p "");
      [by rewrite lookup_delete_ne|by rewrite lookup_insert_ne].
  - split; [by apply (retained_Delete_ok t s)|by rewrite lookup_delete_ne].
Qed.

Lemma fetch_retained_spec (s : S) m topics out :
  retained_ok s m → fetch_retained topics s = Some out →
  ∀ t p, mkRetainedMessage t p ∈ out ↔ t ∈ topics ∧ m !! t = Some p.
Proof.
  intros [Hv _]. unfold fetch_retained. destruct topics as [|t0 ts] eqn:Et.
  { intros [= <-] t p. split; [by intros ?%not_elem_of_nil|by intros [?%not_elem_of_nil _]]. }
  rewrite <-Et. clear Et t0 ts. destruct (redis_MGet _ s) as [vals|] eqn:E; [|done]. intros [= <-] t p.
  apply law_MGet in E as ->. induction topics as [|t0 ts IH]; simpl; [rewrite !elem_of_nil; tauto|].
  rewrite elem_of_cons, Hv. destruct (m !! t0) as [p0|] eqn:Em; simpl.
  - rewrite elem_of_cons, IH. naive_solver.
  - rewrite IH. naive_solver.
Qed.
Lemma Match_spec (s : S) m f (exclude : gset string) out : retained_ok s m → Match f exclude s = Some out →
  ∀ t p, mkRetainedMessage t p ∈ out ↔ m !! t = Some p ∧ MatchTopic f t = true ∧ t ∉ exclude.
Proof.
  intros Hok. unfold Match. destruct (containsWildcard f) eqn:Ew; cbn [negb].
  - destruct (redis_SMembers retainedIndexKey s) as [members|] eqn:Em; [|done]. intros H t p.
    rewrite (fetch_retained_spec _ _ _ _ Hok H), list_elem_of_In, filter_In, <-list_elem_of_In.
    rewrite (law_SMembers _ _ _ Em). destruct Hok as [_ Hidx]. rewrite Hidx, andb_true_iff, negb_true_iff, bool_decide_eq_false.
    naive_solver.
  - destruct (decide (f ∈ exclude)) as [Hin|Hn].
    + intros [= <-] t p. rewrite MatchTopic_literal by done. rewrite elem_of_nil. naive_solver.
    + intros H t p. rewrite (fetch_retained_spec _ _ _ _ Hok H), list_elem_of_singleton, MatchTopic_literal by done.
      naive_solver.
Qed.
End RetainedLemmas.

(** ** Claims *)

(** Retained messages read back what was published: over any Redis that
    behaves as documented, after any run of retained publishes to topics other
    than "index" (an empty payload clears), a successful Match returns exactly
    the last payload of each topic that matches the filter and is not excluded,
    for literal and wildcard filters alike. *)
Theorem retained_match_spec {S} `{!RetainedRedis S} `{!RetainedRedisLaws S} (s : S) m f (exclude : gset string) out :
  retained_run s m → Match f exclude s = Some out →
  ∀ t p, mkRetainedMessage t p ∈ out ↔ m !! t = Some p ∧ MatchTopic f t = true ∧ t ∉ exclude.
Proof.
  intros [Hok _]%retained_run_ok H. by apply (Match_spec s).
Qed.

(** A Redis key space of strings and sets. *)
Inductive redisVal := RStr (v : string) | RSet (x : gset string).

Definition as_string (v : option redisVal) : option string := match v with Some (RStr p) => Some p | _ => None end.

(** SADD and SREM fail on a string and treat a missing key as the empty set. *)
#[export] Instance mem_RetainedRedis : RetainedRedis (gmap string redisVal) := {
  redis_SetSAdd k v idx t s :=
    let s := <[k := RStr v]> s in
    match s !! idx with
    | Some (RStr _) => (s, false)
    | Some (RSet x) => (<[idx := RSet ({[t]} ∪ x)]> s, true)
    | None => (<[idx := RSet {[t]}]> s, true)
    end;
  redis_DelSRem k idx t s :=
    let s := delete k s in
    match s !! idx with
    | Some (RStr _) => (s, false)
    | Some (RSet x) => (<[idx := RSet (x ∖ {[t]})]> s, true)
    | None => (s, true)
    end;
  redis_SMembers idx s :=
    match s !! idx with
    | Some (RStr _) => None
    | Some (RSet x) => Some (elements x)
    | None => Some []
    end;
  redis_MGet ks s := Some ((λ k, as_string (s !! k)) <$> ks);
  redis_value s k := as_string (s !! k);
  redis_member s idx t := match s !! idx with Some (RSet x) => t ∈ x | _ => False end;
}.

#[export] Instance mem_RetainedRedisLaws : RetainedRedisLaws (gmap string redisVal).
Proof.
  split.
  - intros k v idx t s s' Hk. simpl. rewrite lookup_insert_ne by done.
    destruct (s !! idx) as [[?|x]|] eqn:E; intros [= <-]; rewrite lookup_insert_eq; (split_and!; [|done|set_solver]);
      intros k' Hk'; rewrite lookup_insert_ne, lookup_insert by done; destruct (decide (k = k')) as [->|];
      [by rewrite decide_True|by rewrite decide_False|by rewrite decide_True|by rewrite decide_False].
  - intros k idx t s s' Hk. simpl. rewrite lookup_delete_ne by done.
    destruct (s !! idx) as [[?|x]|] eqn:E; intros [= <-].
    + rewrite lookup_insert_eq. split_and!; [|done|set_solver]. intros k' Hk'. rewrite lookup_insert_ne by done.
      destruct (decide (k' = k)) as [->|]; [by rewrite lookup_delete_eq|by rewrite lookup_delete_ne].
    + rewrite lookup_delete_ne, E by done. split_and!; [|done|set_solver]. intros k' Hk'.
      destruct (decide (k' = k)) as [->|]; [by rewrite lookup_delete_eq|by rewrite lookup_delete_ne].
  - intros idx s l. simpl. destruct (s !! idx) as [[?|x]|]; intros [= <-] t; [by rewrite elem_of_elements|set_solver].
  - intros ks s vs. simpl. by intros [= <-].
Qed.

Definition witness_retained : gmap string redisVal := (retained_Set "a/b" "21" (∅ : gmap string redisVal)).1.

Lemma retained_match_spec_witness : ∃ out, Match "a/+" ∅ witness_retained = Some out ∧ mkRetainedMessage "a/b" "21" ∈ out.
Proof.
  exists [mkRetainedMessage "a/b" "21"]. split; [vm_compute; reflexivity|].
  apply (retained_match_spec witness_retained {["a/b" := "21"]} "a/+" ∅).
  - refine (retained_set "a/b" "21" (∅ : gmap string redisVal) witness_retained ∅ _ (retained_start _ _ _) _).
    + discriminate.
    + intros k. reflexivity.
    + intros t. simpl. tauto.
    + vm_compute. reflexivity.
  - vm_compute. reflexivity.
  - split_and!; [reflexivity|vm_compute; reflexivity|apply not_elem_of_empty].
Defined.

(** The key of topic "index" is the index itself: a retained publish to it
    destroys the index, and every wildcard Match fails from then on. *)
Lemma retained_index_topic_destroys_index :
  let s := (retained_Set "index" "x" witness_retained).1 in
  Match "a/+" ∅ s = None ∧ (retained_Set "c" "1" s).2 = false.
Proof. vm_compute. done. Qed.
