(* ===== verification/Registry.v ===== *)
(** The registries of internal/cluster/raft: how a write reaches the replicated
    log and how a read is answered (registry.go, core_registry.go,
    remote_registry.go, rpc_server.go, edge_registry.go), with the JSON text of a
    log entry (command.go).

    A method is a program of requests to the Raft library, the local state
    machine, the list of core peers and other nodes. [execs] gives these requests
    their meaning over the committed log: Raft appends the entry it acknowledges,
    may also append one whose answer it loses, and never appends one it refuses
    with ErrNotLeader; a call to another node runs that node's server, whose
    answer may be lost; other nodes append entries at any time. The answers
    themselves are not constrained otherwise. *)
From stdpp Require Import gmap list strings.
From S2P Require Import Prelude GoStrings Effects Acl Fsm Codec Json Storage Topics Router.

Open Scope string_scope.

(** ** Log entries *)

(** A slice without elements is written as null; null and an empty array are
    both read as such a slice. *)
Definition rule_json (r : ACLRule) : json :=
  JObj (member "topic_filter" (JStr (TopicFilter r)) ++
        member "actions" (if nonnil (Actions r) then JArr (JStr <$> Actions r) else JNull) ++
        member "effect" (JStr (Effect r))).

Definition command_json (c : Command) : json :=
  JObj (member "op" (JStr (Op c)) ++
        member_opt (nonempty (NodeID c)) "node_id" (JStr (NodeID c)) ++
        member_opt (nonempty (ClientID c)) "client_id" (JStr (ClientID c)) ++
        member_opt (nonempty (RoleName c)) "role_name" (JStr (RoleName c)) ++
        member_opt (nonnil (CmdRules c)) "rules" (JArr (rule_json <$> CmdRules c)) ++
        member_opt (nonempty (Principal c)) "principal" (JStr (Principal c)) ++
        member_opt (nonempty (RulesetName c)) "ruleset_name" (JStr (RulesetName c)) ++
        member_opt (nonempty (Identity c)) "identity" (JStr (Identity c)) ++
        member_opt (nonempty (Serial c)) "serial" (JStr (Serial c))).

Definition rule_names : list string := ["topic_filter"; "actions"; "effect"].

Definition no_rule : ACLRule := mkACLRule "" [] "".

Definition set_rule (k : string) (v : json) (r : ACLRule) : option ACLRule :=
  let '(mkACLRule f a e) := r in
  if String.eqb k "topic_filter" then (λ x, mkACLRule x a e) <$> into_string v f
  else if String.eqb k "actions" then (λ x, mkACLRule f x e) <$> into_list "" into_string v a
  else (λ x, mkACLRule f a x) <$> into_string v e.

Definition into_rules : json → list ACLRule → option (list ACLRule) :=
  into_list no_rule (into_struct rule_names set_rule).

Definition command_names : list string :=
  ["op"; "node_id"; "client_id"; "role_name"; "rules"; "principal"; "ruleset_name"; "identity"; "serial"].

Definition no_command : Command := mkCommand "" "" "" "" [] "" "" "" "".

Definition set_command (k : string) (v : json) (c : Command) : option Command :=
  let '(mkCommand op node client role rules principal ruleset identity serial) := c in
  if String.eqb k "op" then (λ x, mkCommand x node client role rules principal ruleset identity serial) <$> into_string v op
  else if String.eqb k "node_id" then (λ x, mkCommand op x client role rules principal ruleset identity serial) <$> into_string v node
  else if String.eqb k "client_id" then (λ x, mkCommand op node x role rules principal ruleset identity serial) <$> into_string v client
  else if String.eqb k "role_name" then (λ x, mkCommand op node client x rules principal ruleset identity serial) <$> into_string v role
  else if String.eqb k "rules" then (λ x, mkCommand op node client role x principal ruleset identity serial) <$> into_rules v rules
  else if String.eqb k "principal" then (λ x, mkCommand op node client role rules x ruleset identity serial) <$> into_string v principal
  else if String.eqb k "ruleset_name" then (λ x, mkCommand op node client role rules principal x identity serial) <$> into_string v ruleset
  else if String.eqb k "identity" then (λ x, mkCommand op node client role rules principal ruleset x serial) <$> into_string v identity
  else (λ x, mkCommand op node client role rules principal ruleset identity x) <$> into_string v serial.

(** json.Marshal in [apply] and json.Unmarshal at the start of [Apply]. *)
Definition marshalCommand (c : Command) : string := print (command_json c).

Definition unmarshalCommand (b : string) : string + Command :=
  match v ← parse b; into_struct command_names set_command v no_command with
  | Some c => inr c
  | None => inl b
  end.

(** ** Requests *)

Inductive raftError :=
  | ErrNotLeader
  | ErrLeadershipLost
  | ErrRaft (e : string).

(** A gRPC status by its code; no code reads its text. *)
Inductive status := FailedPrecondition | Internal | OtherCode (c : N).

Inductive registryError :=
  | ApplyError (e : raftError)
  | UnexpectedResponse
  | FSMError (e : applyError)
  | NoCorePeers
  | DialError (addr : string)
  | RPCError (s : status).

(** The ACLAdmin mutations. *)
Inductive aclWrite :=
  | CreateRole (name : string) (rules : list ACLRule)
  | DeleteRole (name : string)
  | CreateBinding (principal roleName : string)
  | DeleteBinding (principal roleName : string)
  | EnableRuleset (name : string)
  | DisableRuleset (name : string).

(** The calls of the Registry service with the content of their replies. *)
Inductive rpc : Type → Type :=
  | RPCClaimSession (clientID nodeID identity : string) : rpc string
  | RPCReleaseSession (clientID nodeID : string) : rpc unit
  | RPCAclWrite (w : aclWrite) : rpc unit
  | RPCRevokeCertificate (identity serial : string) : rpc unit
  | RPCEvaluateACL (clientID username topic action : string) : rpc (bool * string)
  | RPCIsRevoked (identity : string) : rpc bool
  | RPCCurrentRedisPrimary : rpc (string * bool).

Inductive registryReq : Type → Type :=
  | RaftApply (b : string) : registryReq (raftError + option applyResult)
  | LocalState : registryReq state
  | CorePeers : registryReq (list string)
  | ClientFor (addr : string) : registryReq bool
  | Invoke {X} (addr : string) (c : rpc X) : registryReq (status + X).

Definition result (X : Type) : Type := registryError + X.

(** ** LocalRegistry: through Raft *)

Open Scope proc_scope.

Abbreviation method X := (proc registryReq (result X)).

Definition apply (cmd : Command) : method applyResult :=
  r <- request (RaftApply (marshalCommand cmd));;
  match r with
  | inl e => Done (inl (ApplyError e))
  | inr None => Done (inl UnexpectedResponse)
  | inr (Some res) => Done (match err res with Some e => inl (FSMError e) | None => inr res end)
  end.

(** [_, err := l.apply(cmd); return err] *)
Definition apply_unit (cmd : Command) : method unit :=
  r <- apply cmd;; Done (match r with inl e => inl e | inr _ => inr tt end).

Definition Local_ClaimSession (clientID nodeID identity : string) : method string :=
  r <- apply (mkCommand OpClaimSession nodeID clientID "" [] "" "" identity "");;
  Done (match r with inl e => inl e | inr res => inr (evictedNode res) end).

Definition Local_ReleaseSession (clientID nodeID : string) : method unit :=
  apply_unit (mkCommand OpReleaseSession nodeID clientID "" [] "" "" "" "").

Definition aclCommand (w : aclWrite) : Command :=
  match w with
  | CreateRole name rules => mkCommand OpCreateRole "" "" name rules "" "" "" ""
  | DeleteRole name => mkCommand OpDeleteRole "" "" name [] "" "" "" ""
  | CreateBinding principal roleName => mkCommand OpCreateBinding "" "" roleName [] principal "" "" ""
  | DeleteBinding principal roleName => mkCommand OpDeleteBinding "" "" roleName [] principal "" "" ""
  | EnableRuleset name => mkCommand OpEnableRuleset "" "" "" [] "" name "" ""
  | DisableRuleset name => mkCommand OpDisableRuleset "" "" "" [] "" name "" ""
  end.

Definition Local_aclWrite (w : aclWrite) : method unit := apply_unit (aclCommand w).

Definition Local_SetRedisPrimary (nodeID : string) : method unit :=
  apply_unit (mkCommand OpSetRedisPrimary nodeID "" "" [] "" "" "" "").

Definition Local_RevokeCertificate (identity serial : string) : method unit :=
  apply_unit (mkCommand OpRevokeCertificate "" "" "" [] "" "" identity serial).

Definition Local_EvaluateACL (clientID username topic action : string) : proc registryReq Decision :=
  st <- request LocalState;; Done (evaluateACL st clientID username topic action).

Definition Local_IsRevoked (identity : string) : proc registryReq bool :=
  st <- request LocalState;; Done (isRevoked st identity).

Definition Local_CurrentRedisPrimary : proc registryReq (string * bool) :=
  st <- request LocalState;; Done (currentRedisPrimary st).

(** errors.Is looks through the wrapping of [apply]; a gRPC status is another error. *)
Definition IsNotLeader (e : registryError) : bool :=
  match e with ApplyError ErrNotLeader | ApplyError ErrLeadershipLost => true | _ => false end.

(** ** RemoteRegistry: through a core node *)

(** One round of the loop: the connection, then the call. *)
Definition callPeer {X} (c : rpc X) (addr : string) : method X :=
  ok <- request (ClientFor addr);;
  if ok : bool then
    r <- request (Invoke addr c);;
    Done (match r with inl s => inl (RPCError s) | inr x => inr x end)
  else Done (inl (DialError addr)).

(** The loop from [addr] on; [lastErr] is the error of the latest round. *)
Fixpoint peerLoop {X} (c : rpc X) (addr : string) (rest : list string) : method X :=
  r <- callPeer c addr;;
  match r, rest with
  | inl _, next :: rest => peerLoop c next rest
  | _, _ => Done r
  end.

Definition forEachPeer {X} (c : rpc X) : method X :=
  peers <- request CorePeers;;
  match peers with
  | [] => Done (inl NoCorePeers)
  | addr :: rest => peerLoop c addr rest
  end.

Definition copy_rules (rules : list ACLRule) : list ACLRule :=
  fold_left (λ acc ru, (acc ++ [mkACLRule (TopicFilter ru) (Actions ru) (Effect ru)])%list) rules [].

Definition copy_write (w : aclWrite) : aclWrite :=
  match w with CreateRole name rules => CreateRole name (copy_rules rules) | _ => w end.

Definition Remote_ClaimSession (clientID nodeID identity : string) : method string :=
  forEachPeer (RPCClaimSession clientID nodeID identity).

Definition Remote_ReleaseSession (clientID nodeID : string) : method unit :=
  forEachPeer (RPCReleaseSession clientID nodeID).

Definition Remote_aclWrite (w : aclWrite) : method unit := forEachPeer (RPCAclWrite (copy_write w)).

Definition Remote_RevokeCertificate (identity serial : string) : method unit :=
  forEachPeer (RPCRevokeCertificate identity serial).

Definition Remote_EvaluateACL (clientID username topic action : string) : proc registryReq Decision :=
  r <- forEachPeer (RPCEvaluateACL clientID username topic action);;
  match r with
  | inl _ => Done (mkDecision EffectDeny None)
  | inr (allowed, matched) =>
      Done (mkDecision (if allowed : bool then EffectAllow else EffectDeny)
              (if String.eqb matched "" then None else Some (mkACLRule matched [] "")))
  end.

Definition Remote_CurrentRedisPrimary : proc registryReq (string * bool) :=
  r <- forEachPeer RPCCurrentRedisPrimary;;
  Done (match r with inl _ => ("", false) | inr x => x end).

Definition Remote_IsRevoked (identity : string) : proc registryReq bool :=
  r <- forEachPeer (RPCIsRevoked identity);;
  Done (match r with inl _ => true | inr b => b end).

(** ** CoreRegistry: Raft first, then the leader *)

(** [fallback] asks the leader's address only; [CorePeers] stands for
    leaderGRPCAddr there. *)
Definition or_leader {X} (local fallback : method X) : method X :=
  r <- local;;
  match r with
  | inl e => if IsNotLeader e then fallback else Done (inl e)
  | inr x => Done (inr x)
  end.

Definition Core_ClaimSession (clientID nodeID identity : string) : method string :=
  or_leader (Local_ClaimSession clientID nodeID identity) (Remote_ClaimSession clientID nodeID identity).

Definition Core_ReleaseSession (clientID nodeID : string) : method unit :=
  or_leader (Local_ReleaseSession clientID nodeID) (Remote_ReleaseSession clientID nodeID).

Definition Core_aclWrite (w : aclWrite) : method unit := or_leader (Local_aclWrite w) (Remote_aclWrite w).

Definition Core_RevokeCertificate (identity serial : string) : method unit :=
  or_leader (Local_RevokeCertificate identity serial) (Remote_RevokeCertificate identity serial).

(** ** RPCServer: a core node's registry for its peers *)

Definition notLeaderStatus (e : registryError) : status :=
  if IsNotLeader e then FailedPrecondition else Internal.

Definition reply {X} (m : method X) : proc registryReq (status + X) :=
  r <- m;; Done (match r with inl e => inl (notLeaderStatus e) | inr x => inr x end).

Definition RPCServer_aclWrite (w : aclWrite) : proc registryReq (status + unit) := reply (Core_aclWrite (copy_write w)).

Definition RPCServer_RevokeCertificate (identity serial : string) : proc registryReq (status + unit) :=
  reply (Core_RevokeCertificate identity serial).

Definition RPCServer {X} (c : rpc X) : proc registryReq (status + X) :=
  match c in rpc X return proc registryReq (status + X) with
  | RPCClaimSession clientID nodeID identity => reply (Core_ClaimSession clientID nodeID identity)
  | RPCReleaseSession clientID nodeID => reply (Core_ReleaseSession clientID nodeID)
  | RPCAclWrite w => RPCServer_aclWrite w
  | RPCRevokeCertificate identity serial => RPCServer_RevokeCertificate identity serial
  | RPCEvaluateACL clientID username topic action =>
      d <- Local_EvaluateACL clientID username topic action;;
      Done (inr (Allowed d, match DecisionRule d with Some ru => TopicFilter ru | None => "" end))
  | RPCIsRevoked identity => b <- Local_IsRevoked identity;; Done (inr b)
  | RPCCurrentRedisPrimary => x <- Local_CurrentRedisPrimary;; Done (inr x)
  end.

(** ** EdgeRegistry: a router of its own, caches, and the cores *)

Record EdgeRegistry := mkEdgeRegistry {
  edgeRouter : option Router;
  aclCache : ACLCache;
  revocationCache : RevocationCache;
}.

(** The reads served by a router, with what they return. *)
Inductive routeRead : Type → Type :=
  | ReadNodesFor (topic localNodeID : string) : routeRead (gset string)
  | ReadLiveDeliveryPlan (topic localNodeID : string) : routeRead LivePlan
  | ReadOfflineNodesFor (topic : string) : routeRead (list string)
  | ReadOfflineDeliveryCandidates (topic nodeID : string) : routeRead (list string * gmap string string)
  | ReadOwnedClientIDs (nodeID : string) : routeRead (list string)
  | ReadOfflineSharedClientsFor (topic nodeID : string) : routeRead (gmap string string).

Definition Core_read {X} (q : routeRead X) (r : Router) : X :=
  match q in routeRead X return X with
  | ReadNodesFor topic localNodeID => NodesFor topic localNodeID r
  | ReadLiveDeliveryPlan topic localNodeID => LiveDeliveryPlan topic localNodeID r
  | ReadOfflineNodesFor topic => OfflineNodesFor topic r
  | ReadOfflineDeliveryCandidates topic nodeID => OfflineDeliveryCandidates topic nodeID r
  | ReadOwnedClientIDs nodeID => OwnedClientIDs nodeID r
  | ReadOfflineSharedClientsFor topic nodeID => OfflineSharedClientsFor topic nodeID r
  end.

Definition Edge_read {X} (q : routeRead X) (e : EdgeRegistry) : X :=
  match edgeRouter e with
  | Some r => Core_read q r
  | None =>
      match q in routeRead X return X with
      | ReadNodesFor _ _ => ∅
      | ReadLiveDeliveryPlan _ _ => mkLivePlan ∅ ∅
      | ReadOfflineNodesFor _ => []
      | ReadOfflineDeliveryCandidates _ _ => ([], ∅)
      | ReadOwnedClientIDs _ => []
      | ReadOfflineSharedClientsFor _ _ => ∅
      end
  end.

Definition Edge_TopicsForNode (nodeID : string) (e : EdgeRegistry) : list string :=
  match edgeRouter e with Some r => TopicsForNode nodeID r | None => [] end.

Definition Edge_Subscribe {S} `{!ClusterStore S} (topic nodeID : string) (e : EdgeRegistry) (s : S) : S * bool :=
  match edgeRouter e with Some _ => Router_Subscribe topic nodeID s | None => (s, false) end.

Definition Edge_Unsubscribe {S} `{!ClusterStore S} (topic nodeID : string) (e : EdgeRegistry) (s : S) : S * bool :=
  match edgeRouter e with Some _ => Router_Unsubscribe topic nodeID s | None => (s, false) end.

Definition Edge_UnsubscribeBatch {S} `{!ClusterStore S} (topics : list string) (nodeID : string) (e : EdgeRegistry) (s : S) : S * bool :=
  match edgeRouter e with Some r => UnsubscribeBatch topics nodeID r s | None => (s, false) end.

Definition Edge_PurgeNode {S} `{!ClusterStore S} (nodeID : string) (e : EdgeRegistry) (s : S) : S * bool :=
  match edgeRouter e with Some r => PurgeNode nodeID r s | None => (s, false) end.

Definition Edge_ReplaceRouter (next : option Router) (e : EdgeRegistry) : option Router * EdgeRegistry :=
  (edgeRouter e, mkEdgeRegistry next (aclCache e) (revocationCache e)).

(** Close: the router to be closed, if there is one. *)
Definition Edge_Close (e : EdgeRegistry) : option Router * EdgeRegistry := Edge_ReplaceRouter None e.

Definition Edge_EvaluateACL (clientID username topic action : string) (e : EdgeRegistry) : Decision :=
  ACLCache_EvaluateACL (aclCache e) clientID username topic action.

Definition Edge_IsRevoked (identity : string) (e : EdgeRegistry) : bool :=
  RevocationCache_IsRevoked (revocationCache e) identity.

(** ** Executions over the committed log *)

(** The committed entries, as every replica reads them. *)
Abbreviation clog := (list (string + Command)).

(** [st] is what a replica that has applied [l] holds. *)
Definition replica (l : clog) (st : state) : Prop := ∃ es, es.*2 = l ∧ replay es newState = Some st.

(** A server at work on a call: the log before, its answer, the log after. *)
Definition serving : Type := ∀ X, rpc X → clog → status + X → clog → Prop.

(** One request, with the log just before and just after it. *)
Definition handles (srv : serving) {X} (e : registryReq X) (l : clog) (x : X) (l' : clog) : Prop :=
  match e in registryReq X return X → Prop with
  | RaftApply b => λ x,
      match x with
      | inl ErrNotLeader => l' = l
      | inl _ => l' = l ∨ l' = l ++ [unmarshalCommand b]
      | inr res => ∃ st st' now r, replica l st ∧ Apply now (unmarshalCommand b) st = Some (st', r) ∧
                   res = Some r ∧ l' = l ++ [unmarshalCommand b]
      end
  | LocalState => λ st, l' = l ∧ ∃ seen, seen `prefix_of` l ∧ replica seen st
  | CorePeers => λ _, l' = l
  | ClientFor _ => λ _, l' = l
  | Invoke _ c => λ x,
      srv _ c l x l' ∨ ∃ s, x = inl s ∧ (l' = l ∨ ∃ lost, srv _ c l lost l')
  end%list x.

Fixpoint execs (srv : serving) {A} (p : proc registryReq A) (l : clog) (a : A) (l' : clog) : Prop :=
  match p with
  | Done a' => a = a' ∧ l `prefix_of` l'
  | Call e k => ∃ x l1 l2, l `prefix_of` l1 ∧ handles srv e l1 x l2 ∧ execs srv (k x) l2 a l'
  end.

(** The servers, with calls between cores nested at most [n] deep. *)
Fixpoint cores (n : nat) : serving :=
  match n with
  | O => λ _ _ _ _ _, False
  | S n => λ X c l x l', execs (cores n) (RPCServer c) l x l'
  end.

(** ** Lemmas *)

Lemma execs_bind srv {A B} (p : proc registryReq A) (f : A → proc registryReq B) l b l' :
  execs srv (proc_bind p f) l b l' → ∃ a l1, execs srv p l a l1 ∧ execs srv (f a) l1 b l'.
Proof.
  revert l. induction p as [a|X e k IH]; intros l; cbn.
  - intros H. exists a, l. done.
  - intros (x & l1 & l2 & Hp & Hh & (a & l3 & H1 & H2)%IH). exists a, l3. split; [|done]. by exists x, l1, l2.
Qed.

(** *** JSON *)

Definition wf_rule (r : ACLRule) : Prop := Forall (λ s, utf8_Valid s = true) (TopicFilter r :: Effect r :: Actions r).

Record wf_command (c : Command) : Prop := {
  wf_command_strings : Forall (λ s, utf8_Valid s = true)
    [Op c; NodeID c; ClientID c; RoleName c; Principal c; RulesetName c; Identity c; Serial c];
  wf_command_rules : Forall wf_rule (CmdRules c);
}.

Lemma into_rule_json r : into_struct rule_names set_rule (rule_json r) no_rule = Some r.
Proof.
  destruct r as [f a e]. unfold rule_json, no_rule. cbn [TopicFilter Actions Effect].
  match goal with |- into_struct ?n ?f (JObj ?l) ?r = Some ?q => change (fills n f l r q) end.
  eapply fills_app; [apply (fills_member _ _ _ _ _ (mkACLRule f [] "")); reflexivity|].
  eapply fills_app; [apply (fills_member _ _ _ _ _ (mkACLRule f a "")); [reflexivity|]|by apply fills_member].
  cbn. destruct a as [|s a]; [done|]. cbn [nonnil]. rewrite into_list_map; [done|]. by apply Forall_true.
Qed.

Lemma into_rules_json l old : into_rules (JArr (rule_json <$> l)) old = Some l.
Proof. apply into_list_map, Forall_true, into_rule_json. Qed.

Lemma into_command_json c : into_struct command_names set_command (command_json c) no_command = Some c.
Proof.
  destruct c as [op node client role rules principal ruleset identity serial]. unfold command_json, no_command.
  cbn [Op NodeID ClientID RoleName CmdRules Principal RulesetName Identity Serial].
  match goal with |- into_struct ?n ?f (JObj ?l) ?r = Some ?q => change (fills n f l r q) end.
  do 4 (eapply fills_app; [fill_field|]).
  apply (fills_app _ _ _ _ _ (mkCommand op node client role rules "" "" "" "")); [|fill_fields].
  apply fills_member_opt; [reflexivity| |omitted]. intros _.
  change (set_command "rules" ?v _) with ((λ x, mkCommand op node client role x "" "" "" "") <$> into_rules v []).
  by rewrite into_rules_json.
Qed.

Lemma printable_rule r : wf_rule r → printable (rule_json r).
Proof.
  unfold wf_rule. intros H. split_foralls. unfold rule_json. apply printable_obj. repeat apply Forall_app_2; apply printable_member; try done.
  destruct (nonnil (Actions r)); [|done]. apply printable_arr. by rewrite Forall_fmap.
Qed.

Lemma command_roundtrip c : wf_command c → unmarshalCommand (marshalCommand c) = inr c.
Proof.
  intros [Hs Hr]. unfold unmarshalCommand, marshalCommand. rewrite parse_print_json; [cbn [mbind option_bind]; by rewrite into_command_json|].
  split_foralls. assert (printable (JArr (rule_json <$> CmdRules c))).
  { apply printable_arr. rewrite Forall_fmap. eapply Forall_impl; [exact Hr|]. apply printable_rule. }
  unfold command_json. print_fields.
Qed.

Lemma copy_rules_id rules : copy_rules rules = rules.
Proof.
  unfold copy_rules. transitivity ([] ++ rules)%list; [|done]. generalize (@nil ACLRule) at 2 3 as acc.
  induction rules as [|[f a e] rules IH]; intros acc; cbn; [by rewrite app_nil_r|]. by rewrite IH, <-app_assoc.
Qed.

Lemma copy_write_id w : copy_write w = w.
Proof. destruct w; cbn; by rewrite ?copy_rules_id. Qed.

(** *** What a successful call promises *)

(** The owner a claim of [clientID] by [nodeID] takes the session from. *)
Definition displaced (st : state) (clientID nodeID : string) : string :=
  match sessionOwner st clientID with
  | Some owner => if String.eqb owner nodeID then "" else owner
  | None => ""
  end.

Definition claimCommand (clientID nodeID identity : string) : Command :=
  mkCommand OpClaimSession nodeID clientID "" [] "" "" identity "".
Definition releaseCommand (clientID nodeID : string) : Command :=
  mkCommand OpReleaseSession nodeID clientID "" [] "" "" "" "".
Definition revokeCommand (identity serial : string) : Command :=
  mkCommand OpRevokeCertificate "" "" "" [] "" "" identity serial.

(** Between [l] and [l'], [cmd] was appended to a log that satisfies [P]. *)
Definition commits (cmd : Command) (P : clog → Prop) (l l' : clog) : Prop :=
  ∃ pre post, l' = (pre ++ inr cmd :: post)%list ∧ l `prefix_of` pre ∧ P pre.

(** A replica of a part of [l] is in a state that satisfies [P]. *)
Definition seen_in (l : clog) (P : state → Prop) : Prop :=
  ∃ seen st, seen `prefix_of` l ∧ replica seen st ∧ P st.

Definition effect {X} (c : rpc X) (l : clog) (x : X) (l' : clog) : Prop :=
  match c in rpc X return X → Prop with
  | RPCClaimSession c n id => λ evicted,
      commits (claimCommand c n id) (λ pre, ∃ st, replica pre st ∧ evicted = displaced st c n) l l'
  | RPCReleaseSession c n => λ _, commits (releaseCommand c n) (λ _, True) l l'
  | RPCAclWrite w => λ _, commits (aclCommand w) (λ _, True) l l'
  | RPCRevokeCertificate id serial => λ _, commits (revokeCommand id serial) (λ _, True) l l'
  | RPCEvaluateACL c u t a => λ x, seen_in l' (λ st, x.1 = Allowed (evaluateACL st c u t a) ∧
      x.2 = match DecisionRule (evaluateACL st c u t a) with Some ru => TopicFilter ru | None => "" end)
  | RPCIsRevoked id => λ b, seen_in l' (λ st, b = isRevoked st id)
  | RPCCurrentRedisPrimary => λ x, seen_in l' (λ st, x = currentRedisPrimary st)
  end x.

(** The strings of a call are UTF-8. *)
Definition wf_rpc {X} (c : rpc X) : Prop :=
  match c with
  | RPCClaimSession c n id => wf_command (claimCommand c n id)
  | RPCReleaseSession c n => wf_command (releaseCommand c n)
  | RPCAclWrite w => wf_command (aclCommand w)
  | RPCRevokeCertificate id serial => wf_command (revokeCommand id serial)
  | _ => True
  end.

Lemma commits_mono cmd P l1 l2 l3 l4 : l1 `prefix_of` l2 → l3 `prefix_of` l4 → commits cmd P l2 l3 → commits cmd P l1 l4.
Proof.
  intros H1 [k ->] (pre & post & -> & H2 & HP). exists pre, (post ++ k)%list.
  split_and!; [by rewrite <-app_assoc|by transitivity l2|done].
Qed.

Lemma seen_mono l l' P : l `prefix_of` l' → seen_in l P → seen_in l' P.
Proof. intros Hl (seen & st & Hs & ?). exists seen, st. split; [by transitivity l|done]. Qed.

Lemma effect_mono {X} (c : rpc X) x l1 l2 l3 l4 :
  l1 `prefix_of` l2 → l3 `prefix_of` l4 → effect c l2 x l3 → effect c l1 x l4.
Proof. intros H1 H2. destruct c; cbn; eauto using commits_mono, seen_mono. Qed.

(** A server's log only grows, and its successes have their effect. *)
Record sound (srv : serving) : Prop := {
  sound_grows X (c : rpc X) l x l' : srv X c l x l' → l `prefix_of` l';
  sound_effect X (c : rpc X) l x l' : wf_rpc c → srv X c l (inr x) l' → effect c l x l';
}.

Section Sound.
  Context (srv : serving) (Hsrv : sound srv).

Lemma handles_grows {X} (e : registryReq X) l x l' : handles srv e l x l' → l `prefix_of` l'.
Proof using Hsrv.
  destruct e; cbn.
  - destruct x as [[]|]; [intros ->; done|..]; try (intros [->| ->]; [done|by apply prefix_app_r]).
    intros (? & ? & ? & ? & ? & ? & ? & ->). by apply prefix_app_r.
  - by intros [-> _].
  - by intros ->.
  - by intros ->.
  - intros [?|(s & _ & [->|[lost ?]])]; eauto using sound_grows.
Qed.

Lemma execs_grows {A} (p : proc registryReq A) l a l' : execs srv p l a l' → l `prefix_of` l'.
Proof using Hsrv.
  revert l. induction p as [|X e k IH]; intros l; cbn; [by intros [_ ?]|].
  intros (x & l1 & l2 & H1 & Hh & Hr). transitivity l1; [done|]. transitivity l2; eauto using handles_grows.
Qed.

Lemma execs_Done {A} (a b : A) l l' : execs srv (Done a) l b l' → b = a ∧ l `prefix_of` l'.
Proof. done. Qed.

Lemma apply_ok cmd l res l' : wf_command cmd → execs srv (apply cmd) l (inr res) l' →
  commits cmd (λ pre, ∃ st st' now, replica pre st ∧ Apply now (inr cmd) st = Some (st', res)) l l'.
Proof.
  intros Hwf (r & l1 & H1 & H2)%execs_bind. destruct H1 as (r' & l2 & l3 & Hp & Hh & [-> Hq]).
  destruct r' as [e|[r|]]; cbn in H2; destruct H2 as [E H2]; try done.
  destruct (err r); [done|]. injection E as ->.
  destruct Hh as (st & st' & now & r1 & Hr & Ha & [= <-] & ->). rewrite command_roundtrip in * by done.
  destruct (transitivity Hq H2) as [k ->]. exists l2, k. split_and!; [by rewrite <-app_assoc|done|eauto].
Qed.

Lemma apply_unit_ok cmd l l' : wf_command cmd → execs srv (apply_unit cmd) l (inr tt) l' → commits cmd (λ _, True) l l'.
Proof.
  intros Hwf (r & l1 & H1 & H2)%execs_bind. destruct H2 as [E H2]. destruct r as [e|res]; [done|].
  apply apply_ok in H1 as (pre & post & -> & Hp & _); [|done].
  eapply (commits_mono _ _ l l _ l'); [done|exact H2|]. by exists pre, post.
Qed.

Lemma displaced_by_claim c n id st st' now res :
  Apply now (inr (claimCommand c n id)) st = Some (st', res) → evictedNode res = displaced st c n.
Proof.
  unfold Apply. cbn. unfold applyClaimSession, displaced, sessionOwner. cbn. destruct (sessions st); [|done]. by intros [= _ <-].
Qed.

Lemma claim_ok c n id l ev l' : wf_command (claimCommand c n id) →
  execs srv (Local_ClaimSession c n id) l (inr ev) l' → effect (RPCClaimSession c n id) l ev l'.
Proof.
  intros Hwf (r & l1 & H1 & H2)%execs_bind. destruct H2 as [E H2]. destruct r as [e|res]; [done|]. injection E as ->.
  apply apply_ok in H1 as (pre & post & -> & Hp & st & st' & now & Hr & Ha); [|done].
  eapply (commits_mono _ _ l l _ l'); [done|exact H2|]. exists pre, post. split_and!; [done|done|].
  exists st. eauto using displaced_by_claim.
Qed.

Lemma callPeer_ok {X} (c : rpc X) addr l x l' : wf_rpc c → execs srv (callPeer c addr) l (inr x) l' → effect c l x l'.
Proof using Hsrv.
  intros Hwf (ok & l1 & l2 & Hp & -> & H). destruct ok; cbn in H; [|by destruct H].
  destruct H as (r & l3 & l4 & Hp2 & Hh & E & Hq). destruct r as [s|y]; [done|]. injection E as ->.
  destruct Hh as [Hh|(s & ? & _)]; [|done].
  eapply effect_mono; [|exact Hq|by eapply sound_effect]. by transitivity l1.
Qed.

Lemma peerLoop_ok {X} (c : rpc X) addr rest l x l' : wf_rpc c → execs srv (peerLoop c addr rest) l (inr x) l' → effect c l x l'.
Proof using Hsrv.
  intros Hwf. revert addr l. induction rest as [|next rest IH]; intros addr l (r & l1 & H1 & H2)%execs_bind.
  - destruct r as [e|y]; destruct H2 as [E Hq]; [done|]. injection E as ->. eapply effect_mono; [|exact Hq|eapply callPeer_ok, H1]; done.
  - destruct r as [e|y].
    + eapply effect_mono; [by eapply execs_grows|done|]. by eapply IH.
    + destruct H2 as [E Hq]. injection E as ->. eapply effect_mono; [|exact Hq|eapply callPeer_ok, H1]; done.
Qed.

Lemma forEachPeer_ok {X} (c : rpc X) l x l' : wf_rpc c → execs srv (forEachPeer c) l (inr x) l' → effect c l x l'.
Proof using Hsrv.
  intros Hwf (peers & l1 & l2 & Hp & -> & H). destruct peers as [|addr rest]; cbn in H; [by destruct H|].
  eapply effect_mono; [exact Hp|done|]. by eapply peerLoop_ok.
Qed.

Lemma or_leader_ok {X} (c : rpc X) (local fallback : method X) l x l' :
  (∀ l l', execs srv local l (inr x) l' → effect c l x l') → (∀ l l', execs srv fallback l (inr x) l' → effect c l x l') →
  execs srv (or_leader local fallback) l (inr x) l' → effect c l x l'.
Proof using Hsrv.
  intros Hl Hf (r & l1 & H1 & H2)%execs_bind. destruct r as [e|y].
  - destruct (IsNotLeader e); [|by destruct H2]. eapply effect_mono; [by eapply execs_grows|done|]. by apply Hf.
  - destruct H2 as [E Hq]. injection E as ->. eapply effect_mono; [|exact Hq|by apply Hl]. done.
Qed.

Lemma reply_ok {X} (c : rpc X) (m : method X) l x l' :
  (∀ l l', execs srv m l (inr x) l' → effect c l x l') → execs srv (reply m) l (inr x) l' → effect c l x l'.
Proof.
  intros Hm (r & l1 & H1 & E & Hq)%execs_bind. destruct r as [e|y]; [done|]. injection E as ->.
  eapply effect_mono; [|exact Hq|by apply Hm]. done.
Qed.
End Sound.

Lemma local_read_ok srv {A X} (c : rpc X) (f : state → A) (g : A → X) l x l' :
  (∀ st seen, seen `prefix_of` l' → replica seen st → effect c l (g (f st)) l') →
  execs srv (y <- (st <- request LocalState;; Done (f st));; Done (inr (g y))) l (inr x : status + X) l' → effect c l x l'.
Proof.
  intros Hf (st & l1 & l2 & Hp & [-> (seen & Hs & Hr)] & E & Hq). injection E as ->.
  eapply Hf; [|exact Hr]. by transitivity l1.
Qed.

Lemma RPCServer_ok srv {X} (c : rpc X) l x l' : sound srv → wf_rpc c → execs srv (RPCServer c) l (inr x) l' → effect c l x l'.
Proof.
  intros Hsrv. destruct c as [c nd id|c nd|w|id serial|c u t a|id|]; intros Hwf; cbn [RPCServer].
  - apply reply_ok. intros. eapply or_leader_ok; [done| | |done]; intros; [by eapply claim_ok|by eapply forEachPeer_ok].
  - destruct x. apply reply_ok. intros. eapply or_leader_ok; [done| | |done]; intros; [by eapply apply_unit_ok|by eapply forEachPeer_ok].
  - destruct x. unfold RPCServer_aclWrite. rewrite copy_write_id. apply reply_ok. intros. eapply or_leader_ok; [done| | |done]; intros; [by eapply apply_unit_ok|].
    unfold Remote_aclWrite in *. rewrite copy_write_id in *. by eapply forEachPeer_ok.
  - destruct x. apply reply_ok. intros. eapply or_leader_ok; [done| | |done]; intros; [by eapply apply_unit_ok|by eapply forEachPeer_ok].
  - apply (local_read_ok srv (RPCEvaluateACL c u t a) (λ st, evaluateACL st c u t a)
      (λ d, (Allowed d, match DecisionRule d with Some ru => TopicFilter ru | None => "" end))).
    intros st seen Hs Hr. by exists seen, st.
  - apply (local_read_ok srv (RPCIsRevoked id) (λ st, isRevoked st id) (λ b, b)). intros st seen Hs Hr. by exists seen, st.
  - apply (local_read_ok srv RPCCurrentRedisPrimary currentRedisPrimary (λ x, x)). intros st seen Hs Hr. by exists seen, st.
Qed.

Lemma cores_sound n : sound (cores n).
Proof.
  induction n as [|n IH]; [by constructor|]. split; cbn.
  - intros X c l x l'. by apply execs_grows.
  - intros X c l x l' Hwf. by apply RPCServer_ok.
Qed.

(** *** The replicas afterwards *)

Lemma timed_split (es : list (Z * (string + Command))) pre e post : es.*2 = (pre ++ e :: post)%list →
  ∃ now es1 es2, es = (es1 ++ (now, e) :: es2)%list ∧ es1.*2 = pre ∧ length es1 = length pre.
Proof.
  intros (es1 & es2' & -> & E1 & E2)%fmap_app_inv. destruct es2' as [|[now e'] es2]; simplify_eq/=.
  exists now, es1, es2. split_and!; [done|done|by rewrite length_fmap].
Qed.

Lemma claim_owns c nd id pre post es st :
  es.*2 = (pre ++ inr (claimCommand c nd id) :: post)%list → replay es newState = Some st →
  undisturbed c nd (drop (S (length pre)) es) → session_view st c = Some (nd, id).
Proof.
  intros (now & es1 & es2 & -> & _ & <-)%timed_split Hr Hu. rewrite (session_trace _ _ c nd id Hr).
  exists es1, (now, inr (claimCommand c nd id)), es2. split_and!; [done|by exists now, (claimCommand c nd id)|].
  rewrite drop_app_ge in Hu by lia. by replace (S (length es1) - length es1)%nat with 1%nat in Hu by lia.
Qed.

Lemma revoked_stays id serial l l' l'' st :
  commits (revokeCommand id serial) (λ _, True) l l' → l' `prefix_of` l'' → replica l'' st → isRevoked st id = true.
Proof.
  intros (pre & post & -> & _) [k ->] (es & E & Hr). rewrite <-app_assoc in E. cbn in E.
  apply timed_split in E as (now & es1 & es2 & -> & _). rewrite (replay_revoked _ _ _ id Hr). right.
  exists (now, inr (revokeCommand id serial)). split; [set_solver|]. by exists now, (revokeCommand id serial).
Qed.

(** A core node's ClaimSession is what its server answers with. *)
Lemma core_claim_ok n c nd id l ev l' : wf_command (claimCommand c nd id) →
  execs (cores n) (Core_ClaimSession c nd id) l (inr ev) l' → effect (RPCClaimSession c nd id) l ev l'.
Proof.
  intros Hwf. pose proof (cores_sound n). apply or_leader_ok; [done| |]; intros; [by eapply claim_ok|by eapply forEachPeer_ok].
Qed.

Lemma core_revoke_ok n id serial l l' : wf_command (revokeCommand id serial) →
  execs (cores n) (Core_RevokeCertificate id serial) l (inr tt) l' → effect (RPCRevokeCertificate id serial) l tt l'.
Proof.
  intros Hwf. pose proof (cores_sound n). apply or_leader_ok; [done| |]; intros; [by eapply apply_unit_ok|by eapply forEachPeer_ok].
Qed.

(** ** Properties *)

(** C4: A session claim that reports success, made on a core node or through
    the cores from an edge, over any chain of forwarded and retried calls, is in
    the committed log after everything that was there before the call; the node
    it reports for eviction is the one that owned the session just before the
    entry; and every replica that has applied the log gives the session to the
    claiming node, with the claimed identity, unless a later entry claims or
    releases it. *)
Theorem session_claim_takes_effect n (edge : bool) c nd id l ev l' :
  wf_command (claimCommand c nd id) →
  execs (cores n) (if edge then Remote_ClaimSession c nd id else Core_ClaimSession c nd id) l (inr ev) l' →
  ∃ pre post, l' = (pre ++ inr (claimCommand c nd id) :: post)%list ∧ l `prefix_of` pre ∧
    (∃ st, replica pre st ∧ ev = displaced st c nd) ∧
    ∀ es st, es.*2 = l' → replay es newState = Some st → undisturbed c nd (drop (S (length pre)) es) →
      session_view st c = Some (nd, id).
Proof.
  intros Hwf Hx. assert (effect (RPCClaimSession c nd id) l ev l') as (pre & post & -> & Hp & Hst).
  { destruct edge; [|by eapply core_claim_ok]. eapply forEachPeer_ok; [apply cores_sound|done|exact Hx]. }
  exists pre, post. split_and!; [done|done|done|]. intros es st. apply claim_owns.
Qed.

(** A claim made by an edge, with the core that answers it leading. *)
Definition sample_claim : Command := claimCommand "dev-1" "edge-1" "".

Lemma sample_claim_wf : wf_command sample_claim.
Proof. split; repeat constructor. Qed.

Lemma leader_applies cmd l st st' res : wf_command cmd → replica l st → Apply 0 (inr cmd) st = Some (st', res) →
  handles (cores 0) (RaftApply (marshalCommand cmd)) l (inr (Some res)) (l ++ [inr cmd])%list.
Proof. intros Hwf Hr Ha. exists st, st', 0%Z, res. rewrite command_roundtrip by done. done. Qed.

Lemma session_claim_takes_effect_witness :
  ∃ pre post, [inr sample_claim : string + Command] = (pre ++ inr (claimCommand "dev-1" "edge-1" "") :: post)%list ∧ [] `prefix_of` pre ∧
    (∃ st, replica pre st ∧ "" = displaced st "dev-1" "edge-1") ∧
    ∀ es st, es.*2 = [inr sample_claim] → replay es newState = Some st → undisturbed "dev-1" "edge-1" (drop (S (length pre)) es) →
      session_view st "dev-1" = Some ("edge-1", "").
Proof.
  apply (session_claim_takes_effect 1 true); [apply sample_claim_wf|].
  exists ["core-1:7000"], [], []. split; [done|]. split; [done|]. cbn.
  exists true, [], []. split; [done|]. split; [done|]. cbn.
  exists (inr ""), [], [inr sample_claim]. split; [done|]. split; [left|by split]. cbn -[marshalCommand].
  exists (inr (Some res_ok)), [], [inr sample_claim]. split; [done|]. split; [|by split].
  apply (leader_applies sample_claim [] newState (set_sessions {["dev-1" := "edge-1"]} ∅ newState) res_ok sample_claim_wf); [|done].
  by exists [].
Defined.

(** A revocation that reports success is final: whatever is committed
    afterwards, every replica that has applied the log of the call refuses the
    identity, and so does an edge whose cache was fetched from such a replica. *)
Theorem revocation_is_final n id serial l l' l'' st cache :
  wf_command (revokeCommand id serial) → execs (cores n) (Core_RevokeCertificate id serial) l (inr tt) l' →
  l' `prefix_of` l'' → replica l'' st →
  isRevoked st id = true ∧
  RevocationCache_IsRevoked (RevocationCache_refresh (Some (revokedSnapshot st)) cache) id = true.
Proof.
  intros Hwf Hx Hl Hr. assert (isRevoked st id = true) as Hi.
  { eapply revoked_stays; [|exact Hl|exact Hr]. by eapply (core_revoke_ok n). }
  split; [done|]. unfold RevocationCache_IsRevoked, RevocationCache_refresh, revokedSnapshot, isRevoked in *. cbn.
  rewrite copy_map_id. by destruct (revoked st !! id).
Qed.

Definition sample_revoke : Command := revokeCommand "dev-1@acme" "01".

Lemma revocation_is_final_witness :
  isRevoked (set_revoked {["dev-1@acme" := 0%Z]} newState) "dev-1@acme" = true ∧
  RevocationCache_IsRevoked (RevocationCache_refresh (Some (revokedSnapshot (set_revoked {["dev-1@acme" := 0%Z]} newState))) newRevocationCache) "dev-1@acme" = true.
Proof.
  assert (wf_command sample_revoke) as Hwf by (split; repeat constructor).
  apply (revocation_is_final 0 _ "01" [] [inr sample_revoke] [inr sample_revoke]); [exact Hwf| |done|by exists [(0%Z, inr sample_revoke)]].
  exists (inr (Some res_ok)), [], [inr sample_revoke]. split; [done|]. split; [|by split].
  apply (leader_applies sample_revoke [] newState (set_revoked {["dev-1@acme" := 0%Z]} newState) res_ok Hwf); [|done]. by exists [].
Defined.

Lemma remote_read_ok n {X} (c : rpc X) l r l' : wf_rpc c → execs (cores n) (forEachPeer c) l r l' →
  match r with inl _ => True | inr x => effect c l x l' end.
Proof. destruct r; [done|]. intros. by eapply forEachPeer_ok; [apply cores_sound|..]. Qed.

(** What a node learns by asking the cores is what the state machine of
    some core said on a part of the committed log; when no core answers, access
    is denied, identities count as revoked and no primary is reported. So an
    access granted, an identity accepted or a primary reported from afar was
    granted, not revoked or designated there. *)
Theorem remote_reads_fail_closed n l l' :
  (∀ c u t a d, execs (cores n) (Remote_EvaluateACL c u t a) l d l' → Allowed d = true →
     seen_in l' (λ st, Allowed (evaluateACL st c u t a) = true)) ∧
  (∀ id, execs (cores n) (Remote_IsRevoked id) l false l' → seen_in l' (λ st, isRevoked st id = false)) ∧
  (∀ node, execs (cores n) Remote_CurrentRedisPrimary l (node, true) l' → seen_in l' (λ st, redisPrimary st = node ∧ node ≠ "")).
Proof.
  split_and!.
  - intros c u t a d (r & l1 & H1 & H2)%execs_bind Ha. apply remote_read_ok in H1; [|done].
    destruct r as [e|[al m]]; destruct H2 as [-> Hq]; [done|]. apply (seen_mono _ _ _ Hq).
    destruct H1 as (seen & st & Hs & Hr & E & _). exists seen, st. cbn in *. subst al. by destruct (Allowed (evaluateACL st c u t a)).
  - intros id (r & l1 & H1 & E & Hq)%execs_bind. apply remote_read_ok in H1; [|done].
    destruct r as [e|b]; [done|]. subst b. apply (seen_mono _ _ _ Hq). destruct H1 as (seen & st & ? & ? & ->). by exists seen, st.
  - intros node (r & l1 & H1 & E & Hq)%execs_bind. apply remote_read_ok in H1; [|done].
    destruct r as [e|b]; [done|]. subst b. apply (seen_mono _ _ _ Hq). destruct H1 as (seen & st & Hs & Hr & E).
    exists seen, st. unfold currentRedisPrimary in E. injection E as -> Ep. split_and!; [done|done|done|].
    intros E0. by rewrite E0 in Ep.
Qed.

Lemma or_leader_error {X} (local fallback : method X) e tr :
  (∀ e tr, runs fallback (inl e) tr → IsNotLeader e = false) → runs (or_leader local fallback) (inl e) tr → IsNotLeader e = false.
Proof.
  intros Hf (r & tr1 & tr2 & H1 & H2 & _)%runs_bind. destruct r as [e'|x]; [|by destruct H2].
  destruct (IsNotLeader e') eqn:E; [by eapply Hf|]. destruct H2 as [[= ->] _]. done.
Qed.

Lemma forEachPeer_error {X} (c : rpc X) e tr : runs (forEachPeer c) (inl e) tr → IsNotLeader e = false.
Proof.
  intros (peers & tr1 & _ & H). cbn in H. destruct peers as [|addr rest]; [by destruct H as [[= ->] _]|]. revert addr tr1 H.
  induction rest as [|next rest IH]; intros addr tr1 (r & t1 & t2 & H1 & H2 & _)%runs_bind;
    (destruct r as [e'|x]; [|by destruct H2]).
  2: by eapply IH.
  destruct H2 as [[= ->] _]. destruct H1 as (ok & t3 & _ & H1). cbn in H1.
  destruct ok; cbn in H1; [|by destruct H1 as [[= ->] _]].
  destruct H1 as (y & t4 & _ & E & _). destruct y; by simplify_eq.
Qed.

Lemma reply_error {X} (m : method X) s tr :
  (∀ e tr, runs m (inl e) tr → IsNotLeader e = false) → runs (reply m) (inl s) tr → s = Internal.
Proof.
  intros Hm (r & t1 & t2 & H1 & [E _] & _)%runs_bind. destruct r as [e|x]; simplify_eq. unfold notLeaderStatus. by erewrite Hm.
Qed.

(** A core node never answers another node with the not-leader status,
    whatever Raft, its peers and the network do: it forwards the call itself, and
    every failure comes back as Internal. *)
Theorem not_leader_is_never_reported {X} (c : rpc X) s tr : runs (RPCServer c) (inl s) tr → s = Internal.
Proof.
  destruct c; cbn [RPCServer]; try (apply reply_error; intros; eapply or_leader_error; [|done]; by apply forEachPeer_error);
    by intros (r & t1 & t2 & _ & [? _] & _)%runs_bind.
Qed.

Lemma not_leader_is_never_reported_witness : Internal = Internal.
Proof.
  apply (not_leader_is_never_reported (RPCReleaseSession "dev-1" "edge-1") Internal
    [Event (RaftApply (marshalCommand (releaseCommand "dev-1" "edge-1"))) (inl ErrNotLeader); Event CorePeers []]).
  exists (inl ErrNotLeader), [Event CorePeers []]. split; [done|]. by exists [], [].
Defined.
