(* ===== verification/Membership.v ===== *)
(** * The directory of cluster members

    internal/cluster/membership: membership.go and meta.go. What a node knows of
    the others through gossip, as a map from node IDs to their metadata, with the
    callbacks of the gossip library, the address lookups, and the rule by which
    the leader makes every core node a voter. The gossip library itself and the
    Raft library are outside; their answers are those of a run. *)
From S2P Require Import Prelude GoStrings Codec Decimal Json Storage Effects.

(** ** Metadata *)

Record NodeMeta := mkNodeMeta {
  NodeID : string;
  Role : string;
  RaftAddr : string;
  GRPCAddr : string;
  OlricAddr : string;
  OlricClientAddr : string;
  RedisAddr : string;
  HTTPAddr : string;
}.

#[export] Instance NodeMeta_eq_dec : EqDecision NodeMeta.
Proof. solve_decision. Defined.

Definition RoleCore : string := "core".
Definition RoleEdge : string := "edge".

Definition no_meta : NodeMeta := mkNodeMeta "" "" "" "" "" "" "" "".

Definition meta_json (m : NodeMeta) : json :=
  JObj (member "node_id" (JStr (NodeID m)) ++ member "role" (JStr (Role m)) ++
        member_opt (nonempty (RaftAddr m)) "raft_addr" (JStr (RaftAddr m)) ++ member "grpc_addr" (JStr (GRPCAddr m)) ++
        member_opt (nonempty (OlricAddr m)) "olric_addr" (JStr (OlricAddr m)) ++
        member_opt (nonempty (OlricClientAddr m)) "olric_client_addr" (JStr (OlricClientAddr m)) ++
        member_opt (nonempty (RedisAddr m)) "redis_addr" (JStr (RedisAddr m)) ++
        member_opt (nonempty (HTTPAddr m)) "http_addr" (JStr (HTTPAddr m))).

Definition encode (m : NodeMeta) : string := print (meta_json m).

Definition meta_names : list string :=
  ["node_id"; "role"; "raft_addr"; "grpc_addr"; "olric_addr"; "olric_client_addr"; "redis_addr"; "http_addr"].

Definition set_meta (k : string) (v : json) (m : NodeMeta) : option NodeMeta :=
  let '(mkNodeMeta id role raft grpc olric olricc redis http) := m in
  if String.eqb k "node_id" then (λ x, mkNodeMeta x role raft grpc olric olricc redis http) <$> into_string v id
  else if String.eqb k "role" then (λ x, mkNodeMeta id x raft grpc olric olricc redis http) <$> into_string v role
  else if String.eqb k "raft_addr" then (λ x, mkNodeMeta id role x grpc olric olricc redis http) <$> into_string v raft
  else if String.eqb k "grpc_addr" then (λ x, mkNodeMeta id role raft x olric olricc redis http) <$> into_string v grpc
  else if String.eqb k "olric_addr" then (λ x, mkNodeMeta id role raft grpc x olricc redis http) <$> into_string v olric
  else if String.eqb k "olric_client_addr" then (λ x, mkNodeMeta id role raft grpc olric x redis http) <$> into_string v olricc
  else if String.eqb k "redis_addr" then (λ x, mkNodeMeta id role raft grpc olric olricc x http) <$> into_string v redis
  else (λ x, mkNodeMeta id role raft grpc olric olricc redis x) <$> into_string v http.

Definition decodeMeta (b : string) : option NodeMeta :=
  v ← parse b; into_struct meta_names set_meta v no_meta.

(** delegate.NodeMeta: what the gossip library asks for, cut at its limit. *)
Definition delegate_NodeMeta (self : NodeMeta) (limit : nat) : string :=
  let b := encode self in
  if limit <? String.length b then take_bytes limit b else b.

(** ** The directory *)

(** Membership.members *)
Abbreviation directory := (gmap string NodeMeta).

(** New: the directory before any event. *)
Definition new_directory (self : NodeMeta) : directory := {[ NodeID self := self ]}.

(** Membership.Members; the order of the entries is that of [rows]. *)
Definition Members (rows : list (string * NodeMeta)) : list NodeMeta := rows.*2.

Definition is_core (m : NodeMeta) : bool := String.eqb (Role m) RoleCore.

Definition CoreGRPCAddrs (rows : list (string * NodeMeta)) : list string :=
  omap (λ '(_, m), if is_core m then Some (GRPCAddr m) else None) rows.

Definition CoreOlricAddrs (self : NodeMeta) (rows : list (string * NodeMeta)) : list string :=
  omap (λ '(_, m), if is_core m && nonempty (OlricAddr m) && negb (String.eqb (NodeID m) (NodeID self)) then Some (OlricAddr m)
                   else None) rows.

Definition CoreOlricClientAddrs (rows : list (string * NodeMeta)) : list string :=
  omap (λ '(_, m), if is_core m && nonempty (OlricClientAddr m) then Some (OlricClientAddr m) else None) rows.

Definition NodeGRPCAddr (members : directory) (nodeID : string) : option string := GRPCAddr <$> members !! nodeID.

Definition RedisAddrForNode (members : directory) (nodeID : string) : option string :=
  match members !! nodeID with
  | Some m => if nonempty (RedisAddr m) then Some (RedisAddr m) else None
  | None => None
  end.

Definition EdgeHTTPAddrs (rows : list (string * NodeMeta)) : gmap string string :=
  fold_left (λ out '(_, m), if nonempty (HTTPAddr m) then <[NodeID m := HTTPAddr m]> out else out) rows ∅.

(** isIsolated *)
Definition isIsolated (self : NodeMeta) (rows : list (string * NodeMeta)) : bool :=
  negb (existsb (λ '(_, m), is_core m && negb (String.eqb (NodeID m) (NodeID self))) rows).

(** ** Events of the gossip library *)

(** What a node asks of Raft and of the gossip library. [GetConfiguration] is the
    list of the voters' IDs, [None] on an error; [Join] the number of peers
    contacted; [LeaveHandler] runs the installed leave handler. *)
Inductive memberReq : Type → Type :=
  | IsLeader : memberReq bool
  | GetConfiguration : memberReq (option (list string))
  | AddVoter (nodeID raftAddr : string) : memberReq bool
  | Join (peers : list string) : memberReq (option nat)
  | LeaveHandler (m : NodeMeta) : memberReq unit.

Local Open Scope proc_scope.

(** [raft] says that the node runs Raft, that is, is a core node. *)
Definition maybeAddVoter (raft : bool) (self meta : NodeMeta) : proc memberReq unit :=
  if negb raft || negb (is_core meta) || String.eqb (NodeID meta) (NodeID self) then Done tt
  else
    leader <- request IsLeader;;
    if negb leader then Done tt
    else request (AddVoter (NodeID meta) (RaftAddr meta));; Done tt.

Definition NotifyJoin (raft : bool) (self : NodeMeta) (raw : string) (members : directory) : proc memberReq directory :=
  match decodeMeta raw with
  | None => Done members
  | Some meta => maybeAddVoter raft self meta;; Done (<[NodeID meta := meta]> members)
  end.

(** [handler]: a leave handler is installed. *)
Definition NotifyLeave (handler : bool) (name raw : string) (members : directory) : proc memberReq directory :=
  match decodeMeta raw with
  | None => Done (delete name members)
  | Some meta => (if handler then request (LeaveHandler meta) else Done tt);; Done (delete (NodeID meta) members)
  end.

Definition NotifyUpdate (raw : string) (members : directory) : directory :=
  match decodeMeta raw with
  | None => members
  | Some meta => <[NodeID meta := meta]> members
  end.

Fixpoint add_voters (current : list string) (metas : list NodeMeta) : proc memberReq unit :=
  match metas with
  | [] => Done tt
  | m :: metas =>
      (if negb (is_core m) || existsb (String.eqb (NodeID m)) current then Done true
       else request (AddVoter (NodeID m) (RaftAddr m)));;
      add_voters current metas
  end.

Definition reconcileVoters (rows : list (string * NodeMeta)) : proc memberReq unit :=
  leader <- request IsLeader;;
  if negb leader then Done tt
  else
    current <- request GetConfiguration;;
    match current with
    | None => Done tt
    | Some current => add_voters current (Members rows)
    end.

Definition rejoinIfIsolated (self : NodeMeta) (peers : list string) (rows : list (string * NodeMeta)) : proc memberReq unit :=
  if negb (isIsolated self rows) then Done tt
  else request (Join peers);; Done tt.

(** ** Lemmas *)

Definition wf_meta (m : NodeMeta) : Prop :=
  Forall (λ s, utf8_Valid s = true) [NodeID m; Role m; RaftAddr m; GRPCAddr m; OlricAddr m; OlricClientAddr m; RedisAddr m; HTTPAddr m].

Lemma meta_roundtrip m : wf_meta m → decodeMeta (encode m) = Some m.
Proof.
  intros Hwf. unfold decodeMeta, encode. rewrite parse_print_json.
  - destruct m. cbn in * |-. unfold meta_json, no_meta. cbn [NodeID Role RaftAddr GRPCAddr OlricAddr OlricClientAddr RedisAddr HTTPAddr].
    cbn [mbind option_bind]. match goal with |- into_struct ?n ?f (JObj ?l) ?r = Some ?q => change (fills n f l r q) end. fill_fields.
  - unfold wf_meta in Hwf. split_foralls. unfold meta_json. print_fields.
Qed.

(** Entries are filed under their own ID. *)
Definition wf_directory (members : directory) : Prop := ∀ k m, members !! k = Some m → NodeID m = k.

(** What the gossip library reports of a node that gossips [meta] untruncated. *)
Inductive gossip := Joined (meta : NodeMeta) | Left_ (meta : NodeMeta) | Updated (meta : NodeMeta).

Definition deliver (raft : bool) (self : NodeMeta) (handler : bool) (g : gossip) (members : directory) : proc memberReq directory :=
  match g with
  | Joined meta => NotifyJoin raft self (encode meta) members
  | Left_ meta => NotifyLeave handler (NodeID meta) (encode meta) members
  | Updated meta => Done (NotifyUpdate (encode meta) members)
  end.

Definition apply_gossip (g : gossip) (members : directory) : directory :=
  match g with Joined meta | Updated meta => <[NodeID meta := meta]> members | Left_ meta => delete (NodeID meta) members end.
Definition gossiped (g : gossip) : NodeMeta := match g with Joined meta | Left_ meta | Updated meta => meta end.

(** The voters a trace asked for. *)
Definition added (ev : event memberReq) : list (string * string) :=
  match ev with Event e _ => match e with AddVoter n a => [(n, a)] | _ => [] end end.
Definition leading (ev : event memberReq) : option bool :=
  match ev with Event e x => match e in memberReq X return X → option bool with IsLeader => Some | _ => λ _, None end x end.

Lemma add_voters_spec current metas tr : runs (add_voters current metas) tt tr →
  concat (map added tr) = (λ m, (NodeID m, RaftAddr m)) <$> List.filter (λ m, is_core m && negb (existsb (String.eqb (NodeID m)) current)) metas.
Proof.
  revert tr. induction metas as [|m metas IH]; intros tr Hr; [by destruct Hr as [_ ->]|].
  cbn [add_voters List.filter] in *. destruct (is_core m), (existsb (String.eqb (NodeID m)) current); cbn in Hr |- *; try by apply IH.
  destruct Hr as (ok & tr' & -> & Hr). cbn. by rewrite (IH tr' Hr).
Qed.

#[local] Opaque decodeMeta encode.

Lemma deliver_spec raft self handler g members members' tr : wf_meta (gossiped g) → runs (deliver raft self handler g members) members' tr →
  members' = apply_gossip g members ∧
  (∀ n a, (n, a) ∈ concat (map added tr) → n = NodeID (gossiped g) ∧ is_core (gossiped g) = true ∧ leading <$> head tr = Some (Some true)).
Proof.
  intros Hm Hr. destruct g as [m|m|m]; unfold deliver, NotifyJoin, NotifyLeave, NotifyUpdate in Hr; cbn [gossiped] in Hm; rewrite meta_roundtrip in Hr by done.
  - apply runs_bind in Hr as (u & tr1 & tr2 & Hr & [-> ->] & ->). rewrite app_nil_r. split; [done|]. intros n a Hin. unfold maybeAddVoter in Hr.
    destruct (negb raft); [destruct Hr as [_ ->]; set_solver|]. destruct (is_core m) eqn:Ec; cbn [negb orb] in Hr; [|destruct Hr as [_ ->]; set_solver].
    destruct (String.eqb (NodeID m) (NodeID self)); [destruct Hr as [_ ->]; set_solver|]. destruct Hr as (l & tr3 & -> & Hr).
    destruct l; cbn in Hr; [|destruct Hr as [_ ->]; set_solver]. destruct Hr as (ok & tr4 & -> & [_ ->]). cbn in *. set_solver.
  - apply runs_bind in Hr as (u & tr1 & tr2 & Hr & [-> ->] & ->). rewrite app_nil_r. split; [done|]. intros n a Hin.
    destruct handler; [apply runs_request in Hr as ->|destruct Hr as [_ ->]]; set_solver.
  - destruct Hr as [-> ->]. split; [done|]. set_solver.
Qed.

(** The directory follows gossip and only the leader grows the quorum. A node
    delivers the events of its peers, whose metadata it decodes as it was sent: the
    directory holds exactly the peers that joined or changed and did not leave,
    each under its own ID. Voters are asked for only by a node that just saw itself
    leading, and only core nodes become voters; a pass of the leader asks for
    every core node of the directory that the configuration lacks, once. *)
Theorem directory_follows_gossip raft self handler g members members' tr rows tr2 :
  wf_directory members → wf_meta (gossiped g) → runs (deliver raft self handler g members) members' tr →
  runs (reconcileVoters rows) tt tr2 →
  members' = apply_gossip g members ∧ wf_directory members' ∧
  (∀ n a, (n, a) ∈ concat (map added tr) → n = NodeID (gossiped g) ∧ is_core (gossiped g) = true ∧ leading <$> head tr = Some (Some true)) ∧
  (concat (map added tr2) = [] ∨
   ∃ current tr', leading <$> head tr2 = Some (Some true) ∧ tail tr2 = Event GetConfiguration (Some current) :: tr' ∧
     concat (map added tr2) = (λ m, (NodeID m, RaftAddr m)) <$>
       List.filter (λ m, is_core m && negb (existsb (String.eqb (NodeID m)) current)) (Members rows)).
Proof.
  intros Hd Hm Hr Hv. destruct (deliver_spec _ _ _ _ _ _ _ Hm Hr) as [-> Hadd]. split_and!; [done| |done|].
  - destruct g; cbn; intros k m'; [intros [[<- <-]|[_ ?]]%lookup_insert_Some|intros [_ ?]%lookup_delete_Some|intros [[<- <-]|[_ ?]]%lookup_insert_Some]; auto.
  - destruct Hv as (l & tr3 & -> & Hv). destruct l; cbn in Hv; [|destruct Hv as [_ ->]; by left].
    destruct Hv as (current & tr4 & -> & Hv). destruct current as [current|]; [|destruct Hv as [_ ->]; by left].
    right. exists current, tr4. split_and!; [done|done|]. cbn. by apply add_voters_spec.
Qed.

#[local] Transparent decodeMeta encode.

Definition example_meta : NodeMeta := mkNodeMeta "core-2" RoleCore "core-2:7000" "core-2:9000" "" "" "" "".
Definition example_answer (X : Type) (e : memberReq X) : X :=
  match e with IsLeader => true | GetConfiguration => Some ["core-1"] | AddVoter _ _ => true | Join _ => Some 1 | LeaveHandler _ => tt end.

Lemma directory_follows_gossip_witness :
  let tr := answer example_answer (deliver true (mkNodeMeta "core-1" RoleCore "" "" "" "" "" "") true (Joined example_meta) ∅) in
  let tr2 := answer example_answer (reconcileVoters [("core-2", example_meta)]) in
  tr.1 = {[ "core-2" := example_meta ]} ∧ concat (map added tr2.2) = [("core-2", "core-2:7000")].
Proof.
  assert (wf_directory ∅) as Hd by (intros k m; by rewrite lookup_empty). assert (wf_meta (gossiped (Joined example_meta))) as Hm by (by repeat constructor).
  destruct (directory_follows_gossip true (mkNodeMeta "core-1" RoleCore "" "" "" "" "" "") true (Joined example_meta) ∅ _ _
    [("core-2", example_meta)] _ Hd Hm (answer_runs example_answer _) (answer_runs example_answer _)) as [H _].
  split; [rewrite H; reflexivity|reflexivity].
Defined.
