(* ===== verification/RedisFailover.v ===== *)
(** * Failover of the Redis primary

    internal/cluster/membership/redis_failover.go and internal/cluster/redisrouter:
    the pass of the Raft leader over the Redis instances that run next to the core
    nodes, as a handler that asks Raft, gossip, the clock and the instances, and
    the client of every node that follows the designated primary. Nothing is
    assumed about the answers: leadership can be lost between two requests, and a
    command that reports a failure may have taken effect. *)
From S2P Require Import Prelude GoStrings Codec Decimal Json Storage Effects Membership.

(** ** net.SplitHostPort *)

Fixpoint index_byte (b : ascii) (s : string) : option nat :=
  match s with
  | "" => None
  | String c s => if Ascii.eqb c b then Some 0 else S <$> index_byte b s
  end.

Definition SplitHostPort (hostport : string) : option (string * string) :=
  match cut_last ":" hostport with
  | None => None
  | Some (before, port) =>
      if has_prefix "[" hostport then
        match index_byte "]" hostport with
        | None => None
        | Some end_ =>
            if S end_ =? String.length hostport then None
            else if S end_ =? String.length before then
              if contains_byte "[" (drop_bytes 1 hostport) then None
              else if contains_byte "]" (drop_bytes (S end_) hostport) then None
              else Some (take_bytes (end_ - 1) (drop_bytes 1 hostport), port)
            else None
        end
      else if contains_byte ":" before then None
      else if contains_byte "[" hostport then None
      else if contains_byte "]" hostport then None
      else Some (before, port)
  end.

(** ** The leader's pass *)

(** [VoterCount] and [CurrentPrimary] are [None] on an error and when no primary is
    designated; the commands answer whether they were acknowledged. *)
Inductive failoverReq : Type → Type :=
  | Leading : failoverReq bool
  | VoterCount : failoverReq (option nat)
  | KnownMembers : failoverReq (list NodeMeta)
  | CurrentPrimary : failoverReq (option string)
  | SetRedisPrimary (nodeID : string) : failoverReq bool
  | Ping (addr : string) : failoverReq bool
  | ReplicaOf (addr primaryHost primaryPort : string) : failoverReq bool
  | ReplicaOfNoOne (addr : string) : failoverReq bool
  | Now : failoverReq Z.

Abbreviation pass A := (proc failoverReq A).
Abbreviation trace := (list (event failoverReq)).

Local Open Scope proc_scope.

Definition coreMembersWithRedis (all : list NodeMeta) : list NodeMeta :=
  List.filter (λ m, is_core m && nonempty (RedisAddr m)) all.

Definition find_node (nodeID : string) (metas : list NodeMeta) : option NodeMeta :=
  List.find (λ m, String.eqb (NodeID m) nodeID) metas.

Fixpoint configure_replicas (primaryNodeID host port : string) (metas : list NodeMeta) : pass unit :=
  match metas with
  | [] => Done tt
  | m :: metas =>
      if String.eqb (NodeID m) primaryNodeID then configure_replicas primaryNodeID host port metas
      else
        leader <- request Leading;;
        if negb leader then Done tt
        else request (ReplicaOf (RedisAddr m) host port);; configure_replicas primaryNodeID host port metas
  end.

Definition ensureReplicasConfigured (coreMembers : list NodeMeta) (primaryNodeID : string) : pass unit :=
  let primaryAddr := match find_node primaryNodeID coreMembers with Some m => RedisAddr m | None => "" end in
  if String.eqb primaryAddr "" then Done tt
  else match SplitHostPort primaryAddr with
       | None => Done tt
       | Some (host, port) => configure_replicas primaryNodeID host port coreMembers
       end.

Definition bootstrapRedisPrimary (self : NodeMeta) (coreMembers : list NodeMeta) (voterCount : nat) : pass unit :=
  match coreMembers with
  | [] => Done tt
  | first :: _ =>
      let candidate := default first (find_node (NodeID self) coreMembers) in
      ok <- request (SetRedisPrimary (NodeID candidate));;
      if negb ok then Done tt
      else if 1 <? voterCount then ensureReplicasConfigured coreMembers (NodeID candidate)
      else request (ReplicaOfNoOne (RedisAddr candidate));; Done tt
  end.

(** sort.Slice by NodeID; the IDs of members are distinct. *)
Fixpoint insert_by_id (x : NodeMeta) (l : list NodeMeta) : list NodeMeta :=
  match l with
  | [] => [x]
  | y :: l' => if ltb (NodeID y) (NodeID x) then y :: insert_by_id x l' else x :: l
  end.
Definition sort_by_id (l : list NodeMeta) : list NodeMeta := foldr insert_by_id [] l.

(** The search for a replica to promote: [Some] the promoted one, [None] when the
    pass stops or no candidate is left. *)
Fixpoint promote (deadPrimary : string) (metas : list NodeMeta) : pass (option NodeMeta) :=
  match metas with
  | [] => Done None
  | m :: metas =>
      if String.eqb (NodeID m) deadPrimary then promote deadPrimary metas
      else
        up <- request (Ping (RedisAddr m));;
        if negb up then promote deadPrimary metas
        else
          leader <- request Leading;;
          if negb leader then Done None
          else
            ok <- request (ReplicaOfNoOne (RedisAddr m));;
            Done (if ok : bool then Some m else None)
  end.

(** Whether the failure window of the dead primary ends, after a completed
    failover. *)
Definition failoverRedisPrimary (coreMembers : list NodeMeta) (deadPrimary : string) : pass bool :=
  let coreMembers := sort_by_id coreMembers in
  candidate <- promote deadPrimary coreMembers;;
  match candidate with
  | None => Done false
  | Some candidate =>
      ok <- request (SetRedisPrimary (NodeID candidate));;
      if negb ok then Done false
      else ensureReplicasConfigured coreMembers (NodeID candidate);; Done true
  end.

(** redisMissingSince *)
Abbreviation windows := (gmap string Z).

Definition probe_primary (coreMembers : list NodeMeta) (primary : string) : pass bool :=
  match find_node primary coreMembers with
  | None => Done false
  | Some m => request (Ping (RedisAddr m))
  end.

Definition reconcileRedisPrimary (self : NodeMeta) (threshold : Z) (missing : windows) : pass windows :=
  leader <- request Leading;;
  if negb leader then Done ∅
  else
    voters <- request VoterCount;;
    match voters with
    | None => Done missing
    | Some voterCount =>
        all <- request KnownMembers;;
        let coreMembers := coreMembersWithRedis all in
        primary <- request CurrentPrimary;;
        match primary with
        | None => bootstrapRedisPrimary self coreMembers voterCount;; Done missing
        | Some primary =>
            if voterCount <=? 1 then Done missing
            else
              healthy <- probe_primary coreMembers primary;;
              leader <- request Leading;;
              if negb leader then Done missing
              else
                now <- request Now;;
                if healthy : bool then ensureReplicasConfigured coreMembers primary;; Done (delete primary missing)
                else match missing !! primary with
                     | None => Done (<[primary := now]> missing)
                     | Some since =>
                         if (now - since <=? threshold)%Z then Done missing
                         else
                           finished <- failoverRedisPrimary coreMembers primary;;
                           Done (if finished : bool then delete primary missing else missing)
                     end
        end
    end.

(** ** The client that follows the primary *)

(** redisrouter.Router: the address its client is connected to. *)
Record Router := mkRouter {
  rtAddr : string;
  rtClient : string;
}.

(** [ping] is the answer of the new target. *)
Definition Redirect (addr : string) (ping : bool) (r : Router) : Router * bool :=
  if String.eqb addr (rtAddr r) then (r, true)
  else if negb ping then (r, false)
  else (mkRouter addr addr, true).

(** New *)
Definition new_Router (addr : string) (ping : bool) : option Router := if ping then Some (mkRouter addr addr) else None.

(** One tick of WatchPrimary. *)
Definition watch_tick (currentPrimary : option string) (resolveAddr : string → option string) (ping : string → bool) (r : Router) : Router :=
  match currentPrimary with
  | None => r
  | Some nodeID =>
      match resolveAddr nodeID with
      | None => r
      | Some addr => if String.eqb addr (rtAddr r) then r else (Redirect addr (ping addr) r).1
      end
  end.

(** ** Guards *)

Definition promotes (ev : event failoverReq) : bool :=
  match ev with Event e _ => match e with ReplicaOfNoOne _ => true | _ => false end end.

(** The node that a cluster without a designation starts with: the node itself if
    it has a Redis, and the first known one otherwise. *)
Definition initial_primary (self : NodeMeta) (core : list NodeMeta) : option NodeMeta :=
  match core with [] => None | first :: _ => Some (default first (find_node (NodeID self) core)) end.

(** The requests before a promotion show that it is due: the designated primary [p]
    of a cluster with several voters has no Redis that answers, and its failure
    window is over. *)
Definition failing_over (threshold : Z) (missing : windows) (core : list NodeMeta) (p : string) (pre : trace) : Prop :=
  ∃ v since now, Event VoterCount (Some v) ∈ pre ∧ 1 < v ∧ Event CurrentPrimary (Some p) ∈ pre ∧
    match find_node p core with Some m => Event (Ping (RedisAddr m)) false ∈ pre | None => True end ∧
    missing !! p = Some since ∧ Event Now now ∈ pre ∧ (threshold < now - since)%Z.

(** The member [m] is the primary: designated at the start of the cluster, or
    designated and answering, or just promoted in place of another and designated. *)
Definition established (self : NodeMeta) (core : list NodeMeta) (m : NodeMeta) (pre : trace) : Prop :=
  (Event CurrentPrimary None ∈ pre ∧ initial_primary self core = Some m ∧ Event (SetRedisPrimary (NodeID m)) true ∈ pre) ∨
  (Event CurrentPrimary (Some (NodeID m)) ∈ pre ∧ Event (Ping (RedisAddr m)) true ∈ pre) ∨
  (∃ p, Event CurrentPrimary (Some p) ∈ pre ∧ NodeID m ≠ p ∧ Event (ReplicaOfNoOne (RedisAddr m)) true ∈ pre ∧
     Event (SetRedisPrimary (NodeID m)) true ∈ pre).

(** The promotion of the member [m]: in a failover, or of the sole voter's choice. *)
Definition may_promote (self : NodeMeta) (threshold : Z) (missing : windows) (core : list NodeMeta) (m : NodeMeta) (pre : trace) : Prop :=
  (last pre = Some (Event Leading true) ∧ Event (Ping (RedisAddr m)) true ∈ pre ∧
     ∃ p, NodeID m ≠ p ∧ failing_over threshold missing core p pre) ∨
  (last pre = Some (Event (SetRedisPrimary (NodeID m)) true) ∧ Event CurrentPrimary None ∈ pre ∧
     initial_primary self core = Some m ∧ ∃ v, Event VoterCount (Some v) ∈ pre ∧ v <= 1).

(** The designation of the member [m]: right after its promotion in a failover, or
    of the first primary. *)
Definition may_designate (self : NodeMeta) (threshold : Z) (missing : windows) (core : list NodeMeta) (m : NodeMeta) (pre : trace) : Prop :=
  (last pre = Some (Event (ReplicaOfNoOne (RedisAddr m)) true) ∧ ∃ p, NodeID m ≠ p ∧ failing_over threshold missing core p pre) ∨
  (last pre = Some (Event CurrentPrimary None) ∧ initial_primary self core = Some m).

(** What must have come before a command that changes the Redis topology; all nodes
    are core members with a Redis that gossip reported in this pass. *)
Definition guard (self : NodeMeta) (threshold : Z) (missing : windows) (pre : trace) (ev : event failoverReq) : Prop :=
  match ev with
  | Event e _ =>
      match e with
      | ReplicaOfNoOne addr =>
          Forall (λ ev, promotes ev = false) pre ∧
          ∃ all m, Event KnownMembers all ∈ pre ∧ m ∈ coreMembersWithRedis all ∧ RedisAddr m = addr ∧
            may_promote self threshold missing (coreMembersWithRedis all) m pre
      | SetRedisPrimary n =>
          ∃ all m, Event KnownMembers all ∈ pre ∧ m ∈ coreMembersWithRedis all ∧ NodeID m = n ∧
            may_designate self threshold missing (coreMembersWithRedis all) m pre
      | ReplicaOf addr host port =>
          last pre = Some (Event Leading true) ∧
          ∃ all m r, Event KnownMembers all ∈ pre ∧ m ∈ coreMembersWithRedis all ∧ r ∈ coreMembersWithRedis all ∧ NodeID r ≠ NodeID m ∧
            addr = RedisAddr r ∧ SplitHostPort (RedisAddr m) = Some (host, port) ∧ established self (coreMembersWithRedis all) m pre
      | _ => True
      end
  end.

Ltac here := set_solver.

Lemma find_node_Some n l m : find_node n l = Some m → m ∈ l ∧ NodeID m = n.
Proof. intros [Hin E]%List.find_some. apply String.eqb_eq in E. by rewrite list_elem_of_In. Qed.

Lemma established_app self core m pre tr : established self core m pre → established self core m (pre ++ tr).
Proof.
  unfold established. intros [(? & ? & ?)|[(? & ?)|(p & ? & ? & ? & ?)]]; rewrite ?elem_of_app; [left|right; left|right; right]; [by auto..|].
  exists p. rewrite !elem_of_app. auto.
Qed.

Lemma failing_over_app threshold missing core p pre tr : failing_over threshold missing core p pre → failing_over threshold missing core p (pre ++ tr).
Proof.
  intros (v & since & now & H1 & H2 & H3 & H4 & H5 & H6 & H7). exists v, since, now. rewrite !elem_of_app. split_and!; auto.
  destruct (find_node p core); [|done]. rewrite elem_of_app. auto.
Qed.

Section Guards.
Context (self : NodeMeta) (threshold : Z) (missing : windows) (all : list NodeMeta).
Abbreviation core := (coreMembersWithRedis all).

Lemma guard_prefix P0 evs tr : always (λ pre, guard self threshold missing ((P0 ++ evs) ++ pre)) tr →
  always (λ pre, guard self threshold missing (P0 ++ evs ++ pre)) tr.
Proof. intros H. eapply always_impl; [exact H|]. intros pre ev Hg. cbv beta in Hg. by rewrite <-app_assoc in Hg. Qed.

(** The loop over the replicas. *)
Lemma configure_guard P0 host port metas tr m : runs (configure_replicas (NodeID m) host port metas) tt tr →
  (∀ r, r ∈ metas → r ∈ core) → Event KnownMembers all ∈ P0 → m ∈ core →
  SplitHostPort (RedisAddr m) = Some (host, port) → established self core m P0 → always (λ pre, guard self threshold missing (P0 ++ pre)) tr.
Proof.
  intros Hr Hm Ha Hin Hs. revert P0 tr Ha Hr. induction metas as [|m0 metas IH]; intros P0 tr Ha Hr Ht; cbn in Hr; [destruct Hr as [_ ->]; apply always_nil|].
  assert (∀ r, r ∈ metas → r ∈ core) as Hm' by (intros; apply Hm; by right).
  destruct (String.eqb_spec (NodeID m0) (NodeID m)) as [|Hne]; [by apply IH|]. destruct Hr as (leader & tr1 & -> & Hr). rewrite always_cons. split; [done|].
  destruct leader; cbn in Hr; [|destruct Hr as [_ ->]; apply always_nil]. destruct Hr as (ok & tr2 & -> & Hr). rewrite always_cons. split.
  - cbn. split; [by rewrite last_snoc|]. exists all, m, m0. split_and!; try done; [set_solver|apply Hm; by left|by apply established_app].
  - eapply always_impl; [apply (IH Hm' (P0 ++ [Event Leading true; Event (ReplicaOf (RedisAddr m0) host port) ok]) tr2)|].
    + set_solver.
    + exact Hr.
    + by apply established_app.
    + intros pre ev Hg. cbv beta in Hg. by rewrite <-app_assoc in Hg.
Qed.

Lemma ensure_guard P0 metas n tr : runs (ensureReplicasConfigured metas n) tt tr → (∀ r, r ∈ metas → r ∈ core) → Event KnownMembers all ∈ P0 →
  (∀ m, find_node n metas = Some m → established self core m P0) → always (λ pre, guard self threshold missing (P0 ++ pre)) tr.
Proof.
  unfold ensureReplicasConfigured. intros Hr Hm Ha He. destruct (find_node n metas) as [m|] eqn:Ef; [|destruct Hr as [_ ->]; apply always_nil].
  destruct (String.eqb (RedisAddr m) ""); [destruct Hr as [_ ->]; apply always_nil|].
  destruct (SplitHostPort (RedisAddr m)) as [[host port]|] eqn:Es; [|destruct Hr as [_ ->]; apply always_nil].
  destruct (find_node_Some _ _ _ Ef) as [Hin <-]. eapply configure_guard; eauto.
Qed.

(** The search promotes at most one replica, when the failover is due. *)
Lemma promote_guard p P0 metas r tr : runs (promote p metas) r tr → (∀ r, r ∈ metas → r ∈ core) → Event KnownMembers all ∈ P0 →
  failing_over threshold missing core p P0 → Forall (λ ev, promotes ev = false) P0 →
  always (λ pre, guard self threshold missing (P0 ++ pre)) tr ∧
  match r with Some m => m ∈ metas ∧ NodeID m ≠ p ∧ last tr = Some (Event (ReplicaOfNoOne (RedisAddr m)) true) | None => True end.
Proof.
  revert P0 tr. induction metas as [|m metas IH]; intros P0 tr Hr Hm Ha Hf Hp; cbn in Hr; [destruct Hr as [-> ->]; split; [apply always_nil|done]|].
  assert (∀ r, r ∈ metas → r ∈ core) as Hm' by (intros; apply Hm; by right).
  destruct (String.eqb_spec (NodeID m) p) as [E|E].
  { destruct (IH P0 tr Hr Hm' Ha Hf Hp) as [H1 H2]. split; [done|]. destruct r; [|done]. set_solver. }
  destruct Hr as (up & tr1 & -> & Hr). rewrite always_cons. destruct up; cbn in Hr.
  - destruct Hr as (leader & tr2 & -> & Hr). rewrite always_cons. destruct leader; cbn in Hr; [|destruct Hr as [-> ->]; split; [split_and!; [done|done|apply always_nil]|done]].
    destruct Hr as (ok & tr3 & -> & Hr). destruct Hr as [-> ->]. split; [|destruct ok; [|done]; split_and!; [left|done|done]].
    rewrite always_cons. split_and!; [done|done| |apply always_nil]. cbn. split.
    + apply Forall_app. split; [done|]. by repeat constructor.
    + exists all, m. split_and!; [set_solver|apply Hm; left|done|]. left. split_and!; [by rewrite last_app|set_solver|]. exists p.
      split; [done|by apply failing_over_app].
  - destruct (IH (P0 ++ [Event (Ping (RedisAddr m)) false]) tr1 Hr Hm') as [H1 H2].
    + set_solver.
    + by apply failing_over_app.
    + apply Forall_app; split; [done|by repeat constructor].
    + split; [split; [done|]; by apply (guard_prefix P0 [_])|]. destruct r as [m'|]; [|done]. destruct H2 as (? & ? & Hl).
      split_and!; [by right|done|]. by rewrite last_cons, Hl.
Qed.
End Guards.

(** ** Observations *)

(** An event without its type. *)
Inductive observation :=
  | OLeading (b : bool)
  | OVoters (n : option nat)
  | OMembers (l : list NodeMeta)
  | OPrimary (p : option string)
  | OSet (n : string) (ok : bool)
  | OPing (addr : string) (ok : bool)
  | OReplica (addr host port : string) (ok : bool)
  | OPromote (addr : string) (ok : bool)
  | ONow (t : Z).

Definition obs (ev : event failoverReq) : observation :=
  match ev with
  | Event e x =>
      match e in failoverReq X return X → observation with
      | Leading => OLeading
      | VoterCount => OVoters
      | KnownMembers => OMembers
      | CurrentPrimary => OPrimary
      | SetRedisPrimary n => OSet n
      | Ping addr => OPing addr
      | ReplicaOf addr host port => OReplica addr host port
      | ReplicaOfNoOne addr => OPromote addr
      | Now => ONow
      end x
  end.

(** Passes that end a failure window of [p]: the primary answered, or the node was
    not the leader. *)
Definition saw_healthy (p : string) (tr : trace) : Prop :=
  ∃ v all m now tl, find_node p (coreMembersWithRedis all) = Some m ∧ 1 < v ∧
    map obs tr = [OLeading true; OVoters (Some v); OMembers all; OPrimary (Some p); OPing (RedisAddr m) true; OLeading true; ONow now] ++ tl.
Definition not_leading (tr : trace) : Prop := ∃ tl, map obs tr = OLeading false :: tl.

(** Passes that can start one: [p] is designated and does not answer. *)
Definition saw_failing (p : string) (since : Z) (tr : trace) : Prop :=
  ∃ v all m_ping tl, 1 < v ∧
    match find_node p (coreMembersWithRedis all) with Some m => m_ping = [OPing (RedisAddr m) false] | None => m_ping = [] end ∧
    map obs tr = [OLeading true; OVoters (Some v); OMembers all; OPrimary (Some p)] ++ m_ping ++ [OLeading true; ONow since] ++ tl.

Lemma probe_obs metas p healthy tr : runs (probe_primary metas p) healthy tr →
  map obs tr = match find_node p metas with Some m => [OPing (RedisAddr m) healthy] | None => [] end ∧ (find_node p metas = None → healthy = false).
Proof.
  unfold probe_primary. destruct (find_node p metas); [intros ->%runs_request; done|]. by intros [-> ->].
Qed.

(** What a pass does to the failure windows. *)
Lemma pass_windows self threshold w w' tr : runs (reconcileRedisPrimary self threshold w) w' tr →
  (not_leading tr → w' = ∅) ∧ (∀ p, saw_healthy p tr → w' !! p = None) ∧
  ∀ p since, w' !! p = Some since → w !! p = Some since ∨ saw_failing p since tr.
Proof.
  intros (leader & tr1 & -> & Hr). destruct leader; cbn in Hr.
  2:{ destruct Hr as [-> ->]. split_and!; [done|by intros p (? & ? & ? & ? & ? & _ & _ & [=])|done]. }
  destruct Hr as (voters & tr2 & -> & Hr). split_and!; [by intros [tl [=]]| |].
  - intros p (v & all & m & now & tl & Hm & Hv & E). injection E as -> E. destruct Hr as (all' & tr3 & -> & Hr). injection E as -> E.
    destruct Hr as (pr & tr4 & -> & Hr). injection E as -> E. destruct (Nat.leb_spec v 1); [lia|].
    apply runs_bind in Hr as (healthy & tr5 & tr6 & Hp & Hr & ->). destruct (probe_obs _ _ _ _ Hp) as [Ep _]. rewrite Hm in Ep.
    rewrite map_app, Ep in E. injection E as -> E. destruct Hr as (l & tr7 & -> & Hr). injection E as -> E.
    destruct Hr as (now' & tr8 & -> & Hr). cbn in Hr. apply runs_bind in Hr as (u & tr9 & tr10 & _ & [-> _] & _). by rewrite lookup_delete_eq.
  - intros p since. destruct voters as [v|]; [|destruct Hr as [-> _]; by left].
    destruct Hr as (all & tr3 & -> & (pr & tr4 & -> & Hr)). destruct pr as [pr|]; cbn in Hr.
    2:{ apply runs_bind in Hr as (u & tr5 & tr6 & _ & [-> _] & _). by left. }
    destruct (Nat.leb_spec v 1); [destruct Hr as [-> _]; by left|].
    apply runs_bind in Hr as (healthy & tr5 & tr6 & Hp & Hr & ->). destruct (probe_obs _ _ _ _ Hp) as [Ep Hn].
    destruct Hr as (l & tr7 & -> & Hr). destruct l; cbn in Hr; [|destruct Hr as [-> _]; by left].
    destruct Hr as (now & tr8 & -> & Hr). destruct healthy; cbn in Hr.
    { apply runs_bind in Hr as (u & tr9 & tr10 & _ & [-> _] & _). intros [_ ?]%lookup_delete_Some. by left. }
    destruct (w !! pr) as [t|] eqn:Ew; cbn in Hr.
    + destruct (now - t <=? threshold)%Z; [destruct Hr as [-> _]; by left|].
      apply runs_bind in Hr as (fin & tr9 & tr10 & _ & [-> _] & _). destruct fin; [|by left]. intros [_ ?]%lookup_delete_Some. by left.
    + destruct Hr as [-> ->]. intros [[-> ->]|[_ ?]]%lookup_insert_Some; [right|by left].
      exists v, all, (map obs tr5), []. split_and!; [done| |cbn; rewrite map_app; done]. rewrite Ep. by destruct (find_node p _).
Qed.

(** ** Histories *)

(** The passes of one process, from its start. *)
Inductive passes (self : NodeMeta) (threshold : Z) : list trace → windows → Prop :=
  | passes_start : passes self threshold [] ∅
  | passes_next trs w tr w' : passes self threshold trs w → runs (reconcileRedisPrimary self threshold w) w' tr →
      passes self threshold (trs ++ [tr]) w'.

(** Since a pass that found [p] failing at [since], no pass found it healthy and none
    found the node without leadership. *)
Definition failing_since (p : string) (since : Z) (trs : list trace) : Prop :=
  ∃ before tr after, trs = before ++ tr :: after ∧ saw_failing p since tr ∧ Forall (λ t, ¬ saw_healthy p t ∧ ¬ not_leading t) after.

Lemma windows_are_continuous self threshold trs w p since : passes self threshold trs w →
  w !! p = Some since → failing_since p since trs.
Proof.
  intros Hp. revert p since. induction Hp as [|trs w tr w' _ IH Hr]; intros p since Hw; [done|].
  destruct (pass_windows _ _ _ _ _ Hr) as (Hlost & Hhealthy & Hkeep). destruct (Hkeep p since Hw) as [Hold|Hnew].
  - destruct (IH p since Hold) as (before & t & after & -> & Hf & Ha). exists before, t, (after ++ [tr]).
    rewrite <-app_assoc. split_and!; [done|done|]. apply Forall_app. split; [done|]. constructor; [|done]. split.
    + intros Hh. by rewrite (Hhealthy p Hh) in Hw.
    + intros Hl. by rewrite (Hlost Hl) in Hw.
  - exists trs, tr, []. by split_and!.
Qed.

(** *** Members have distinct IDs *)

Lemma insert_by_id_perm x l : insert_by_id x l ≡ₚ x :: l.
Proof. induction l as [|y l IH]; cbn; [done|]. destruct (ltb (NodeID y) (NodeID x)); [|done]. rewrite IH. by constructor. Qed.
Lemma sort_by_id_perm l : sort_by_id l ≡ₚ l.
Proof. induction l as [|x l IH]; [done|]. cbn. rewrite insert_by_id_perm. by constructor. Qed.

Lemma find_node_unique l m : NoDup (NodeID <$> l) → m ∈ l → find_node (NodeID m) l = Some m.
Proof.
  intros Hnd Hin. induction l as [|x l IH]; [by apply not_elem_of_nil in Hin|]. cbn in *. apply NoDup_cons in Hnd as [Hx Hnd].
  apply elem_of_cons in Hin as [<-|Hin]; [by rewrite String.eqb_refl|]. destruct (String.eqb_spec (NodeID x) (NodeID m)) as [E|E]; [|by apply IH].
  destruct Hx. rewrite E. by apply list_elem_of_fmap_2.
Qed.

Lemma core_members_distinct all : NoDup (NodeID <$> all) → NoDup (NodeID <$> coreMembersWithRedis all).
Proof.
  unfold coreMembersWithRedis. induction all as [|m all IH]; [done|]. cbn. intros [Hm Hnd]%NoDup_cons.
  destruct (is_core m && nonempty (RedisAddr m)); [|by apply IH]. cbn. apply NoDup_cons. split; [|by apply IH].
  intros (m' & E & Hin)%list_elem_of_fmap. apply Hm. rewrite E. apply list_elem_of_fmap_2.
  apply list_elem_of_In, List.filter_In in Hin as [? _]. by apply list_elem_of_In.
Qed.

Lemma failover_guard self threshold missing all P0 p r tr : runs (failoverRedisPrimary (coreMembersWithRedis all) p) r tr →
  NoDup (NodeID <$> coreMembersWithRedis all) → Event KnownMembers all ∈ P0 →
  failing_over threshold missing (coreMembersWithRedis all) p P0 → Forall (λ ev, promotes ev = false) P0 →
  always (λ pre, guard self threshold missing (P0 ++ pre)) tr.
Proof.
  unfold failoverRedisPrimary. intros (c & tr1 & tr2 & Hp & Hr & ->)%runs_bind Hnd Ha Hf Hn.
  assert (∀ r, r ∈ sort_by_id (coreMembersWithRedis all) → r ∈ coreMembersWithRedis all) as Hsort by (intros x; by rewrite sort_by_id_perm).
  destruct (promote_guard self threshold missing all p P0 _ _ _ Hp Hsort Ha Hf Hn) as [H1 H2]. apply always_app. split; [done|].
  destruct c as [m|]; [|destruct Hr as [_ ->]; apply always_nil]. destruct H2 as (Hin & Hne & Hack).
  assert (Event (ReplicaOfNoOne (RedisAddr m)) true ∈ tr1) as Hpr by (by apply last_Some_elem_of).
  destruct Hr as (ok & tr3 & -> & Hr). rewrite always_cons. split.
  { cbn. exists all, m. split_and!; [set_solver|by apply Hsort|done|]. left. rewrite app_nil_r, last_app, Hack. split; [done|].
    exists p. split; [done|by apply failing_over_app]. }
  destruct ok; cbn in Hr; [|destruct Hr as [_ ->]; apply always_nil].
  apply runs_bind in Hr as (u & tr4 & tr5 & He & [-> ->] & ->). destruct u. rewrite app_nil_r.
  eapply always_impl; [eapply (ensure_guard self _ _ all (P0 ++ tr1 ++ [Event (SetRedisPrimary (NodeID m)) true])); [exact He|done|set_solver|]|].
  - intros m' Hm'. rewrite find_node_unique in Hm'; [|by rewrite sort_by_id_perm|done]. injection Hm' as <-. right. right. exists p.
    destruct Hf as (? & ? & ? & _ & _ & Hcp & _). rewrite !elem_of_app. split_and!; auto. right. right. left.
  - intros pre ev Hg. cbv beta in Hg. by rewrite <-!app_assoc in Hg.
Qed.

Lemma initial_primary_in self core m : initial_primary self core = Some m → m ∈ core.
Proof.
  destruct core as [|first l]; [done|]. unfold initial_primary. destruct (find_node (NodeID self) (first :: l)) as [x|] eqn:Ef; intros E; injection E as <-.
  - by apply find_node_Some in Ef as [? _].
  - left.
Qed.

Lemma bootstrap_guard self threshold missing all P0 v tr : runs (bootstrapRedisPrimary self (coreMembersWithRedis all) v) tt tr →
  NoDup (NodeID <$> coreMembersWithRedis all) → Event KnownMembers all ∈ P0 →
  last P0 = Some (Event CurrentPrimary None) → Event VoterCount (Some v) ∈ P0 → Forall (λ ev, promotes ev = false) P0 →
  always (λ pre, guard self threshold missing (P0 ++ pre)) tr.
Proof.
  unfold bootstrapRedisPrimary. intros Hr Hnd Ha Hn Hv Hp. pose proof (last_Some_elem_of _ _ Hn) as Hn'.
  pose proof (initial_primary_in self (coreMembersWithRedis all)) as Hi.
  destruct (coreMembersWithRedis all) as [|first metas] eqn:Ec; [destruct Hr as [_ ->]; apply always_nil|].
  destruct Hr as (ok & tr1 & -> & Hr). set (c := default first _) in *. rewrite <-Ec in *.
  assert (initial_primary self (coreMembersWithRedis all) = Some c) as Hc by (unfold initial_primary, c; by rewrite Ec).
  rewrite always_cons. split.
  { cbn. exists all, c. rewrite app_nil_r. split_and!; auto. by right. }
  destruct ok; cbn -[Nat.ltb] in Hr; [|destruct Hr as [_ ->]; apply always_nil]. destruct (Nat.ltb_spec 1 v).
  - apply (guard_prefix self threshold missing P0 [_]). eapply (ensure_guard self _ _ all); [exact Hr|done|set_solver|].
    intros m Hm. rewrite find_node_unique in Hm by auto. injection Hm as <-. left. rewrite !elem_of_app. split_and!; auto. right. left.
  - destruct Hr as (ok & tr2 & -> & [_ ->]). rewrite always_cons. split; [|apply always_nil]. cbn. split.
    + apply Forall_app. split; [done|]. by repeat constructor.
    + exists all, c. split_and!; [set_solver|auto|done|]. right. split_and!; [by rewrite last_snoc|set_solver|done|]. exists v. split; [set_solver|done].
Qed.

(** ** Claims *)

(** C7: The leader changes the Redis topology only when it may. In every pass of
    every history of a process, whatever Raft, gossip, the clock and the instances
    answer, as long as gossip reports members with distinct IDs: all commands go to
    core members with a Redis that gossip reported in the pass, and at most one of
    them is promoted. In a failover that is one other than the designated primary,
    right after the node saw itself leading and after the member answered, and only
    when the designated primary of a cluster with several voters does not answer and
    its failure window is over; such a window exists only if an earlier pass found
    that primary failing at its start and no pass since found it healthy or the node
    without leadership. The promoted member, and no other one, is then designated,
    right after its promotion was acknowledged. While nothing is designated the
    pass designates the node itself, or the first member if it has no Redis, with
    no other check than the leadership at its start, and a sole voter then promotes
    that member. A replica is pointed, right after the node saw itself leading, at
    the address of a different member, which is designated and answers, or was
    designated in this pass. *)
Theorem failover_is_guarded self threshold trs missing missing' tr : passes self threshold trs missing →
  runs (reconcileRedisPrimary self threshold missing) missing' tr →
  (∀ all : list NodeMeta, Event KnownMembers all ∈ tr → NoDup (NodeID <$> all)) →
  always (guard self threshold missing) tr ∧ ∀ p since, missing !! p = Some since → failing_since p since trs.
Proof.
  intros Hh Hr Hnd. split; [|intros p since; by eapply windows_are_continuous]. clear Hh trs.
  destruct Hr as (leader & tr1 & -> & Hr). rewrite always_cons. split; [done|].
  destruct leader; cbn in Hr; [|destruct Hr as [_ ->]; apply always_nil]. destruct Hr as (voters & tr2 & -> & Hr). rewrite always_cons. split; [done|].
  destruct voters as [v|]; [|destruct Hr as [_ ->]; apply always_nil]. destruct Hr as (all & tr3 & -> & Hr). rewrite always_cons. split; [done|].
  assert (NoDup (NodeID <$> coreMembersWithRedis all)) as Hd by (apply core_members_distinct, Hnd; set_solver). clear Hnd.
  destruct Hr as (pr & tr4 & -> & Hr). rewrite always_cons. split; [done|]. destruct pr as [p|]; cbn in Hr.
  2:{ apply runs_bind in Hr as (u & tr5 & tr6 & Hb & [_ ->] & ->). destruct u. rewrite app_nil_r.
      eapply (bootstrap_guard self _ _ all [Event Leading true; Event VoterCount (Some v); Event KnownMembers all; Event CurrentPrimary None]);
        [exact Hb|done|set_solver|done|set_solver|by repeat constructor]. }
  destruct (Nat.leb_spec v 1); [destruct Hr as [_ ->]; apply always_nil|].
  apply runs_bind in Hr as (healthy & tr5 & tr6 & Hp & Hr & ->). apply always_app.
  assert (tr5 = match find_node p (coreMembersWithRedis all) with Some m => [Event (Ping (RedisAddr m)) healthy] | None => [] end ∧
          (find_node p (coreMembersWithRedis all) = None → healthy = false)) as [E5 Hnone].
  { unfold probe_primary in Hp. destruct (find_node p _); [by apply runs_request in Hp|by destruct Hp as [-> ->]]. }
  assert (Forall (λ ev, promotes ev = false) tr5) as Hp5 by (rewrite E5; destruct (find_node p _); by repeat constructor).
  split; [rewrite E5; destruct (find_node p _); [rewrite always_cons; split; [done|]|]; apply always_nil|].
  destruct Hr as (l & tr7 & -> & Hr). rewrite always_cons. split; [done|]. destruct l; cbn in Hr; [|destruct Hr as [_ ->]; apply always_nil].
  destruct Hr as (now & tr8 & -> & Hr). rewrite always_cons. split; [done|].
  set (P0 := [Event Leading true; Event VoterCount (Some v); Event KnownMembers all; Event CurrentPrimary (Some p)] ++ tr5 ++ [Event Leading true; Event Now now] : trace).
  assert (Event KnownMembers all ∈ P0) as Ha by (unfold P0; set_solver).
  apply (always_impl (λ pre, guard self threshold missing (P0 ++ pre))); [|intros pre ev Hg; cbv beta in Hg; unfold P0 in Hg; by rewrite <-!app_assoc in Hg].
  destruct healthy; cbn in Hr.
  - apply runs_bind in Hr as (u & tr9 & tr10 & He & [_ ->] & ->). destruct u. rewrite app_nil_r. eapply (ensure_guard self _ _ all); [exact He|done|done|].
    intros m Hm. right. left. rewrite Hm in E5. destruct (find_node_Some _ _ _ Hm) as [_ <-]. unfold P0. rewrite E5. split; set_solver.
  - destruct (missing !! p) as [t|] eqn:Ew; [|destruct Hr as [_ ->]; apply always_nil].
    destruct (Z.leb_spec (now - t) threshold); [destruct Hr as [_ ->]; apply always_nil|].
    apply runs_bind in Hr as (fin & tr9 & tr10 & Hfo & [_ ->] & ->). rewrite app_nil_r. eapply failover_guard; [exact Hfo|done|done| |].
    + exists v, t, now. unfold P0. split_and!; try done; try set_solver. rewrite E5. destruct (find_node p _); set_solver.
    + unfold P0. rewrite !Forall_app. by repeat constructor.
Qed.

(** A cluster of two cores whose primary does not answer. *)
Definition example_core (id addr : string) : NodeMeta := mkNodeMeta id RoleCore "" "" "" "" addr "".
Definition example_answers (now : Z) (X : Type) (e : failoverReq X) : X :=
  match e with
  | Leading => true
  | VoterCount => Some 3
  | KnownMembers => [example_core "c1" "c1:6379"; example_core "c2" "c2:6379"]
  | CurrentPrimary => Some "c1"
  | SetRedisPrimary _ => true
  | Ping addr => String.eqb addr "c2:6379"
  | ReplicaOf _ _ _ => true
  | ReplicaOfNoOne _ => true
  | Now => now
  end.
Definition example_self : NodeMeta := example_core "c2" "c2:6379".
Definition example_pass (now : Z) (w : windows) : windows * trace := answer (example_answers now) (reconcileRedisPrimary example_self 30 w).

Lemma failover_is_guarded_witness :
  let first := example_pass 0 ∅ in
  let second := example_pass 31 first.1 in
  existsb promotes second.2 = true ∧ always (guard example_self 30 first.1) second.2 ∧ failing_since "c1" 0 [first.2].
Proof.
  assert (passes example_self 30 [(example_pass 0 ∅).2] (example_pass 0 ∅).1) as Hp.
  { apply (passes_next _ _ [] ∅); [constructor|apply answer_runs]. }
  destruct (failover_is_guarded example_self 30 [(example_pass 0 ∅).2] (example_pass 0 ∅).1 (example_pass 31 (example_pass 0 ∅).1).1
    (example_pass 31 (example_pass 0 ∅).1).2 Hp (answer_runs _ _)) as [Hg Hw].
  - intros all Hall. assert (obs (Event KnownMembers all) = OMembers [example_core "c1" "c1:6379"; example_core "c2" "c2:6379"]) as [= ->].
    { apply (list_elem_of_fmap_2 obs) in Hall. vm_compute in Hall. repeat (apply elem_of_cons in Hall as [Hall|Hall]; [by simplify_eq|]). by apply not_elem_of_nil in Hall. }
    vm_compute. repeat constructor; set_solver.
  - split; [vm_compute; reflexivity|]. split; [exact Hg|]. apply Hw. vm_compute. reflexivity.
Defined.

(** The client of a node is connected to the address it reports, and a tick moves it
    exactly when the designated primary has a known address that answers. *)
Lemma router_follows_primary currentPrimary resolveAddr ping r : rtClient r = rtAddr r →
  let r' := watch_tick currentPrimary resolveAddr ping r in
  rtClient r' = rtAddr r' ∧
  match currentPrimary ≫= resolveAddr with
  | Some addr => rtAddr r' = if ping addr then addr else rtAddr r
  | None => r' = r
  end.
Proof.
  intros Hr. unfold watch_tick. destruct currentPrimary as [n|]; [|done]. cbn. destruct (resolveAddr n) as [addr|]; [|done]. cbn.
  unfold Redirect. destruct (String.eqb_spec addr (rtAddr r)) as [->|]; [by destruct (ping _)|]. by destruct (ping addr).
Qed.
