(* ===== verification/Lifecycle.v ===== *)
(** * Node lifecycle

    internal/cluster/lifecycle: the monitor of core nodes, the sweep of the routing
    table and voluntary exit. A tick is a function of the clock, of what gossip and
    the routing table report and of the order in which maps are walked. *)
From S2P Require Import Prelude GoStrings Float64 Effects Membership.

(** ** The monitor of core nodes (monitor.go) *)

Record Monitor := mkMonitor {
  lastSeen : gmap string Z;
  warned : gset string;
}.

Definition new_monitor : Monitor := mkMonitor ∅ ∅.

Definition five_seconds : Z := 5000000000.
Definition thirty_seconds : Z := 30000000000.

(** NewMonitor's and NewRoutingSweep's interval; durations divide towards zero. *)
Definition poll_interval (threshold minimum : Z) : Z := let interval := (Z.quot threshold 4) in if (interval <? minimum)%Z then minimum else interval.

(** The first loop: every core node of the snapshot is seen now. *)
Definition see (now : Z) (members : list NodeMeta) (m : Monitor) : Monitor :=
  fold_left (λ m meta,
    if negb (is_core meta) then m
    else mkMonitor (<[NodeID meta := now]> (lastSeen m)) (warned m ∖ {[NodeID meta]})) members m.

Definition core_present (members : list NodeMeta) : gset string :=
  list_to_set (NodeID <$> List.filter is_core members).

(** The second loop over the entries of lastSeen, with the calls of PurgeNode. *)
Fixpoint expire (now threshold : Z) (live : gset string) (rows : list (string * Z)) (warned : gset string) : gset string * list string :=
  match rows with
  | [] => (warned, [])
  | (id, seenAt) :: rows =>
      if bool_decide (id ∈ live) then expire now threshold live rows warned
      else if (threshold <? now - seenAt)%Z && negb (bool_decide (id ∈ warned)) then
        let '(warned, calls) := expire now threshold live rows ({[id]} ∪ warned) in (warned, id :: calls)
      else expire now threshold live rows warned
  end.

(** Monitor.tick; [rows] are the entries of lastSeen after the first loop. *)
Definition monitor_tick (now threshold : Z) (members : list NodeMeta) (rows : list (string * Z)) (m : Monitor) : Monitor * list string :=
  let m := see now members m in
  let '(w, calls) := expire now threshold (core_present members) rows (warned m) in
  (mkMonitor (lastSeen m) w, calls).

(** ** The sweep of the routing table (routing_sweep.go) *)

Record RoutingSweep := mkSweep {
  absentSince : gmap string Z;
  flagged : gset string;
}.

Definition new_sweep : RoutingSweep := mkSweep ∅ ∅.

Definition clear (nodeID : string) (s : RoutingSweep) : RoutingSweep :=
  match absentSince s !! nodeID with
  | None => s
  | Some _ => mkSweep (delete nodeID (absentSince s)) (flagged s ∖ {[nodeID]})
  end.

(** One entry of [holding]; [purge] is the outcome of PurgeNode. *)
Definition sweep_node (now threshold : Z) (live : gset string) (purge : string → bool) (nodeID : string) (s : RoutingSweep) :
    RoutingSweep * list string :=
  if bool_decide (nodeID ∈ live) then (clear nodeID s, [])
  else match absentSince s !! nodeID with
       | None => (mkSweep (<[nodeID := now]> (absentSince s)) (flagged s), [])
       | Some since =>
           if (threshold <? now - since)%Z && negb (bool_decide (nodeID ∈ flagged s)) then
             (if purge nodeID then mkSweep (absentSince s) ({[nodeID]} ∪ flagged s) else s, [nodeID])
           else (s, [])
       end.

Fixpoint sweep_loop (now threshold : Z) (live : gset string) (purge : string → bool) (holding : list string) (s : RoutingSweep) :
    RoutingSweep * list string :=
  match holding with
  | [] => (s, [])
  | n :: holding =>
      let '(s, calls) := sweep_node now threshold live purge n s in
      let '(s, calls') := sweep_loop now threshold live purge holding s in
      (s, calls ++ calls')
  end.

(** RoutingSweep.tick; [holding] lists the nodes with routes once each, [rows] the
    entries of absentSince after the first loop. *)
Definition sweep_tick (now threshold : Z) (members : list NodeMeta) (purge : string → bool) (holding : list string)
    (rows : list string) (s : RoutingSweep) : RoutingSweep * list string :=
  let live : gset string := list_to_set (NodeID <$> members) in
  let '(s, calls) := sweep_loop now threshold live purge holding s in
  (fold_left (λ s n, if bool_decide (n ∈ holding) then s else clear n s) rows s, calls).

(** ** Voluntary exit (drain.go) *)

Inductive drainReq : Type → Type :=
  | RaftIsLeader : drainReq bool
  | LeadershipTransfer : drainReq bool
  | GossipLeave : drainReq bool.

Local Open Scope proc_scope.

(** [raft] and [gossip]: the node runs Raft, and takes part in gossip. The result says
    whether the exit succeeded. *)
Definition Drain (raft gossip : bool) : proc drainReq bool :=
  (if raft then
     wasLeader <- request RaftIsLeader;;
     if wasLeader : bool then request LeadershipTransfer;; Done tt else Done tt
   else Done tt);;
  if gossip then request GossipLeave else Done true.

(** ** Lemmas: the monitor *)

Lemma core_present_cons meta ms : core_present (meta :: ms) = (if is_core meta then {[NodeID meta]} else ∅) ∪ core_present ms.
Proof. unfold core_present. cbn. destruct (is_core meta); cbn; set_solver. Qed.

Lemma see_spec now ms m :
  (∀ n, lastSeen (see now ms m) !! n = if decide (n ∈ core_present ms) then Some now else lastSeen m !! n) ∧
  warned (see now ms m) = warned m ∖ core_present ms.
Proof.
  unfold see. revert m. induction ms as [|meta ms IH]; intros m; cbn [fold_left].
  { split; [intros n; by rewrite decide_False|]. unfold core_present. set_solver. }
  rewrite core_present_cons. destruct (is_core meta); cbn [negb].
  - destruct (IH (mkMonitor (<[NodeID meta := now]> (lastSeen m)) (warned m ∖ {[NodeID meta]}))) as [H1 H2]. split; [|rewrite H2; cbn; set_solver].
    intros n. rewrite H1. cbn. destruct (decide (n ∈ core_present ms)), (decide (n ∈ {[NodeID meta]} ∪ core_present ms)) as [Hn|Hn]; try done; [set_solver| |].
    + assert (n = NodeID meta) as -> by set_solver. by rewrite lookup_insert_eq.
    + rewrite lookup_insert_ne; [done|set_solver].
  - destruct (IH m) as [H1 H2]. split; [|rewrite H2; set_solver]. intros n. rewrite H1.
    by destruct (decide (n ∈ core_present ms)), (decide (n ∈ ∅ ∪ core_present ms)); set_solver.
Qed.

#[local] Opaque core_present.

Lemma expire_spec now threshold live rows w w' calls : NoDup rows.*1 → expire now threshold live rows w = (w', calls) →
  NoDup calls ∧ w' = w ∪ list_to_set calls ∧
  ∀ n, n ∈ calls ↔ ∃ t, (n, t) ∈ rows ∧ (n ∉ live) ∧ (threshold < now - t)%Z ∧ n ∉ w.
Proof.
  revert w w' calls. induction rows as [|[id t] rows IH]; intros w w' calls Hnd He; cbn in He; simplify_eq.
  { split; [constructor|]. split; [set_solver|]. set_solver. }
  cbn in Hnd. apply NoDup_cons in Hnd as [Hid Hnd]. assert (∀ t', (id, t') ∉ rows) as Hid'.
  { intros t' Hin. apply Hid. apply list_elem_of_fmap. by exists (id, t'). }
  destruct (bool_decide_reflect (id ∈ live)) as [Hl|Hl].
  - destruct (IH _ _ _ Hnd He) as (H1 & H2 & H3). split_and!; [done|done|]. intros n. rewrite H3. setoid_rewrite elem_of_cons. split; [naive_solver|].
    intros (t' & [[= -> ->]|?] & ?); naive_solver.
  - destruct ((threshold <? now - t)%Z && negb (bool_decide (id ∈ w))) eqn:Eb.
    + destruct (expire now threshold live rows ({[id]} ∪ w)) as [w1 calls1] eqn:E1. simplify_eq. apply andb_true_iff in Eb as [Ht Hw].
      apply Z.ltb_lt in Ht. apply negb_true_iff, bool_decide_eq_false in Hw. destruct (IH _ _ _ Hnd E1) as (H1 & H2 & H3). split_and!.
      * constructor; [|done]. rewrite H3. intros (t' & Hin & _). by destruct (Hid' t').
      * rewrite H2. set_solver.
      * intros n. rewrite !elem_of_cons, H3. split.
        -- intros [->|(t' & Hin & Hn & Hlt & Hn')]; [exists t; split_and!; [by left|done|done|done]|]. exists t'. rewrite elem_of_cons. split_and!; [by right|done|done|set_solver].
        -- intros (t' & [[= -> ->]|Hin]%elem_of_cons & Hn & Hlt & Hn'); [by left|]. right. exists t'. split_and!; [done|done|done|].
           destruct (decide (n = id)) as [->|]; [by destruct (Hid' t')|set_solver].
    + destruct (IH _ _ _ Hnd He) as (H1 & H2 & H3). split_and!; [done|done|]. intros n. rewrite H3. setoid_rewrite elem_of_cons. split; [naive_solver|].
      intros (t' & [[= -> ->]|?] & Hn & Hlt & Hn'); [|naive_solver]. exfalso. apply andb_false_iff in Eb as [Eb|Eb]; [apply Z.ltb_ge in Eb; lia|].
      apply negb_false_iff, bool_decide_eq_true in Eb. done.
Qed.

Lemma rows_lookup {A} (rows : list (string * A)) (m : gmap string A) : rows ≡ₚ map_to_list m → ∀ n x, (n, x) ∈ rows ↔ m !! n = Some x.
Proof. intros Hr n x. by rewrite Hr, elem_of_map_to_list. Qed.

(** *** Histories of ticks *)

Record monitorTick := mkMonitorTick {
  mtNow : Z;
  mtMembers : list NodeMeta;
  mtPurged : list string;
}.

Inductive monitored (threshold : Z) : list monitorTick → Monitor → Prop :=
  | monitored_start : monitored threshold [] new_monitor
  | monitored_next h m now members rows m' calls : monitored threshold h m →
      rows ≡ₚ map_to_list (lastSeen (see now members m)) → monitor_tick now threshold members rows m = (m', calls) →
      monitored threshold (h ++ [mkMonitorTick now members calls]) m'.

(** When a core node was last seen, and whether it was purged since. *)
Definition core_status (h : list monitorTick) (n : string) : option (Z * bool) :=
  fold_left (λ st k,
    if decide (n ∈ core_present (mtMembers k)) then Some (mtNow k, false)
    else if decide (n ∈ mtPurged k) then (λ '(t, _), (t, true)) <$> st else st) h None.

Lemma monitored_status threshold h m : monitored threshold h m →
  ∀ n, lastSeen m !! n = fst <$> core_status h n ∧ (n ∈ warned m ↔ snd <$> core_status h n = Some true).
Proof.
  induction 1 as [|h m now members rows m' calls _ IH Hrows Ht]; intros n; [cbn; set_solver|].
  unfold core_status. rewrite fold_left_app. cbn [fold_left mtNow mtMembers mtPurged]. fold (core_status h n). destruct (IH n) as [IH1 IH2].
  unfold monitor_tick in Ht. destruct (expire _ _ _ _ _) as [w calls'] eqn:Ee. simplify_eq. destruct (see_spec now members m) as [Hs1 Hs2].
  apply expire_spec in Ee as (_ & -> & Hcalls); [|rewrite Hrows; apply NoDup_fst_map_to_list]. cbn. rewrite Hs1, Hs2.
  specialize (Hcalls n). setoid_rewrite (rows_lookup _ _ Hrows) in Hcalls. rewrite Hs1 in Hcalls.
  rewrite elem_of_union, elem_of_difference. destruct (decide (n ∈ core_present members)) as [Hp|Hp].
  { split; [done|]. split; [|done]. intros [[_ ?]|Hc%elem_of_list_to_set]; [done|]. apply Hcalls in Hc as (? & _ & ? & _). done. }
  destruct (decide (n ∈ calls)) as [Hc|Hc]; rewrite elem_of_list_to_set.
  - pose proof (proj1 Hcalls Hc) as (t & Ht & _). rewrite IH1 in Ht. destruct (core_status h n) as [[t' b]|]; [|done]. cbn in *. split; [congruence|naive_solver].
  - split; [done|]. rewrite <-IH2. split; [by intros [[? _]|?]|by left].
Qed.

(** A core node is purged from the routing table once per absence, and never
    while it is alive. In every history of ticks, whatever gossip reports and in
    whichever order maps are walked, a tick purges exactly the nodes that were
    seen as a core before, are not seen by this tick, were last seen more than the
    threshold ago, and were not purged since. *)
Theorem monitor_purges_once threshold h m now members rows m' calls : monitored threshold h m →
  rows ≡ₚ map_to_list (lastSeen (see now members m)) → monitor_tick now threshold members rows m = (m', calls) →
  NoDup calls ∧ ∀ n, n ∈ calls ↔ (n ∉ core_present members) ∧ ∃ t, core_status h n = Some (t, false) ∧ (threshold < now - t)%Z.
Proof.
  intros Hh Hrows Ht. unfold monitor_tick in Ht. destruct (expire _ _ _ _ _) as [w calls'] eqn:Ee. simplify_eq.
  destruct (see_spec now members m) as [Hs1 Hs2]. apply expire_spec in Ee as (Hnd & _ & Hcalls); [|rewrite Hrows; apply NoDup_fst_map_to_list].
  split; [done|]. intros n. specialize (Hcalls n). setoid_rewrite (rows_lookup _ _ Hrows) in Hcalls. rewrite Hs1, Hs2 in Hcalls. rewrite Hcalls.
  destruct (monitored_status _ _ _ Hh n) as [H1 H2]. destruct (decide (n ∈ core_present members)) as [Hp|Hp]; [naive_solver|].
  rewrite H1. setoid_rewrite elem_of_difference. setoid_rewrite H2. destruct (core_status h n) as [[t []]|]; cbn; naive_solver.
Qed.

Definition example_member (role id : string) : NodeMeta := mkNodeMeta id role "" "" "" "" "" "".

Lemma monitor_purges_once_witness :
  let seen := monitor_tick 0 30 [example_member RoleCore "c1"] [("c1", 0%Z)] new_monitor in
  (monitor_tick 31 30 [] [("c1", 0%Z)] seen.1).2 = ["c1"] ∧ "c1" ∈ (monitor_tick 31 30 [] [("c1", 0%Z)] seen.1).2.
Proof.
  split; [reflexivity|].
  assert (monitored 30 [mkMonitorTick 0 [example_member RoleCore "c1"] []] (monitor_tick 0 30 [example_member RoleCore "c1"] [("c1", 0%Z)] new_monitor).1) as Hh.
  { eapply (monitored_next _ [] new_monitor _ _ [("c1", 0%Z)]); [constructor|vm_compute; reflexivity|reflexivity]. }
  refine (proj2 (proj2 (monitor_purges_once 30 _ _ 31 [] [("c1", 0%Z)] _ _ Hh ltac:(vm_compute; reflexivity) eq_refl) "c1") _).
  split; [done|]. exists 0%Z. by split.
Defined.

(** ** Lemmas: the sweep *)

(** What the sweep knows of one node: since when it is absent, and whether it was
    purged. *)
Definition node_state (s : RoutingSweep) (n : string) : option (Z * bool) :=
  (λ t, (t, bool_decide (n ∈ flagged s))) <$> absentSince s !! n.

Definition next_state (now threshold : Z) (holding live purged : bool) (st : option (Z * bool)) : option (Z * bool) :=
  if negb holding || live then None
  else match st with
       | None => Some (now, false)
       | Some (t, b) => Some (t, b || ((threshold <? now - t)%Z && purged))
       end.

(** Whether the sweep calls PurgeNode. *)
Definition due (now threshold : Z) (holding live : bool) (st : option (Z * bool)) : bool :=
  holding && negb live && match st with Some (t, false) => (threshold <? now - t)%Z | _ => false end.

Definition wf_sweep (s : RoutingSweep) : Prop := flagged s ⊆ dom (absentSince s).

Lemma node_state_clear s n n' : wf_sweep s → wf_sweep (clear n s) ∧ node_state (clear n s) n' = if decide (n' = n) then None else node_state s n'.
Proof.
  unfold wf_sweep, clear, node_state. intros Hwf. destruct (absentSince s !! n) as [t|] eqn:E; cbn.
  - split; [rewrite dom_delete_L; set_solver|]. destruct (decide (n' = n)) as [->|Hne]; [by rewrite lookup_delete_eq|].
    rewrite lookup_delete_ne by done. destruct (absentSince s !! n'); [|done]. cbn. do 2 f_equal. apply bool_decide_ext. set_solver.
  - split; [done|]. destruct (decide (n' = n)) as [->|]; [by rewrite E|done].
Qed.

Lemma sweep_node_spec now threshold live purge n s s' calls : wf_sweep s → sweep_node now threshold live purge n s = (s', calls) →
  wf_sweep s' ∧ (∀ n', n' ≠ n → node_state s' n' = node_state s n') ∧
  node_state s' n = next_state now threshold true (bool_decide (n ∈ live)) (purge n) (node_state s n) ∧
  calls = if due now threshold true (bool_decide (n ∈ live)) (node_state s n) then [n] else [].
Proof.
  intros Hwf Hs. unfold sweep_node in Hs. unfold next_state, due. destruct (bool_decide (n ∈ live)); cbn [negb orb andb].
  { simplify_eq. destruct (node_state_clear s n n Hwf) as [H1 H2]. split_and!; [done| |by rewrite H2, decide_True|done].
    intros n' Hn. destruct (node_state_clear s n n' Hwf) as [_ H3]. by rewrite H3, decide_False. }
  unfold wf_sweep, node_state in *. destruct (absentSince s !! n) as [t|] eqn:E; cbn [fmap option_fmap option_map].
  - assert (n ∈ dom (absentSince s)) as Hdom by (apply elem_of_dom; by eexists).
    destruct (bool_decide_reflect (n ∈ flagged s)) as [Hf|Hf]; [rewrite andb_false_r in Hs; simplify_eq; split_and!; [done|done| |done]; rewrite E; cbn; by rewrite bool_decide_eq_true_2|].
    destruct (threshold <? now - t)%Z; cbn [andb negb] in Hs; simplify_eq; [|split_and!; [done|done| |done]; rewrite E; cbn; by rewrite bool_decide_eq_false_2].
    destruct (purge n); cbn [absentSince flagged]; (split_and!; [set_solver| | |done]);
      [|rewrite E; cbn; by rewrite bool_decide_eq_true_2 by set_solver|done|rewrite E; cbn; by rewrite bool_decide_eq_false_2].
    intros n' Hn. destruct (absentSince s !! n'); [|done]. cbn. do 2 f_equal. apply bool_decide_ext. set_solver.
  - simplify_eq. cbn [absentSince flagged]. split_and!; [rewrite dom_insert_L; set_solver| | |done].
    + intros n' Hn. by rewrite lookup_insert_ne.
    + rewrite lookup_insert_eq. cbn. rewrite bool_decide_eq_false_2; [done|]. intros Hf%Hwf%elem_of_dom. rewrite E in Hf. by destruct Hf.
Qed.

Lemma sweep_loop_spec now threshold live purge holding s s' calls : NoDup holding → wf_sweep s →
  sweep_loop now threshold live purge holding s = (s', calls) →
  wf_sweep s' ∧ NoDup calls ∧ ∀ n,
    node_state s' n = (if bool_decide (n ∈ holding) then next_state now threshold true (bool_decide (n ∈ live)) (purge n) (node_state s n) else node_state s n) ∧
    (n ∈ calls ↔ due now threshold (bool_decide (n ∈ holding)) (bool_decide (n ∈ live)) (node_state s n) = true).
Proof.
  revert s s' calls. induction holding as [|x holding IH]; intros s s' calls Hnd Hwf Hs; cbn in Hs.
  { simplify_eq. split_and!; [done|constructor|]. intros n. split; [done|]. cbn. split; [intros ?%not_elem_of_nil; done|done]. }
  apply NoDup_cons in Hnd as [Hx Hnd]. destruct (sweep_node _ _ _ _ x s) as [s1 c1] eqn:E1. destruct (sweep_loop _ _ _ _ holding s1) as [s2 c2] eqn:E2. simplify_eq.
  destruct (sweep_node_spec _ _ _ _ _ _ _ _ Hwf E1) as (Hwf1 & Hother & Hself & ->). destruct (IH _ _ _ Hnd Hwf1 E2) as (Hwf2 & Hnd2 & Hn2). split_and!; [done| |].
  - destruct (due _ _ _ _ _); [|done]. constructor; [|done]. rewrite (proj2 (Hn2 x)), bool_decide_eq_false_2 by done. done.
  - intros n. destruct (Hn2 n) as [Hs2 Hc2]. rewrite elem_of_app, Hc2, Hs2. destruct (decide (n = x)) as [->|Hne].
    + rewrite !(bool_decide_eq_false_2 (x ∈ holding)), !(bool_decide_eq_true_2 (x ∈ x :: holding)) by (done || by left). split; [done|].
      cbn. destruct (due _ _ _ _ (node_state s x)); set_solver.
    + rewrite (Hother n Hne). assert (bool_decide (n ∈ x :: holding) = bool_decide (n ∈ holding)) as -> by (apply bool_decide_ext; set_solver). split; [done|].
      destruct (due now threshold true (bool_decide (x ∈ live)) (node_state s x)); set_solver.
Qed.

Lemma clear_all_spec (holding rows : list string) s : wf_sweep s →
  let s' := fold_left (λ s n, if bool_decide (n ∈ holding) then s else clear n s) rows s in
  wf_sweep s' ∧ ∀ n, node_state s' n = if bool_decide (n ∈ rows) && negb (bool_decide (n ∈ holding)) then None else node_state s n.
Proof.
  revert s. induction rows as [|x rows IH]; intros s Hwf; [done|]. cbn [fold_left].
  destruct (bool_decide_reflect (x ∈ holding)) as [Hx|Hx].
  - destruct (IH s Hwf) as [H1 H2]. split; [done|]. intros n. rewrite H2. destruct (decide (n = x)) as [->|].
    + rewrite (bool_decide_eq_true_2 (x ∈ holding)) by done. by rewrite !andb_false_r.
    + assert (bool_decide (n ∈ x :: rows) = bool_decide (n ∈ rows)) as ->; [apply bool_decide_ext; set_solver|done].
  - destruct (node_state_clear s x x Hwf) as [Hwf' _]. destruct (IH _ Hwf') as [H1 H2]. split; [done|]. intros n. rewrite H2.
    destruct (node_state_clear s x n Hwf) as [_ H3]. rewrite H3. destruct (decide (n = x)) as [->|].
    + rewrite (bool_decide_eq_true_2 (x ∈ x :: rows)), (bool_decide_eq_false_2 (x ∈ holding)) by (done || by left). by destruct (_ && _).
    + assert (bool_decide (n ∈ x :: rows) = bool_decide (n ∈ rows)) as ->; [apply bool_decide_ext; set_solver|done].
Qed.

Record sweepTick := mkSweepTick {
  skNow : Z;
  skMembers : list NodeMeta;
  skPurge : string → bool;
  skHolding : list string;
  skCalls : list string;
}.

Definition gossip_live (members : list NodeMeta) : gset string := list_to_set (NodeID <$> members).

Inductive swept (threshold : Z) : list sweepTick → RoutingSweep → Prop :=
  | swept_start : swept threshold [] new_sweep
  | swept_next h s now members purge holding rows s1 s' calls : swept threshold h s → NoDup holding →
      s1 = (sweep_loop now threshold (gossip_live members) purge holding s).1 → rows ≡ₚ (map_to_list (absentSince s1)).*1 →
      sweep_tick now threshold members purge holding rows s = (s', calls) →
      swept threshold (h ++ [mkSweepTick now members purge holding calls]) s'.

(** Since when a node with routes is absent, and whether it was purged since: after
    the last tick at which it held no routes or gossip knew it. *)
Definition absence (threshold : Z) (h : list sweepTick) (n : string) : option (Z * bool) :=
  fold_left (λ st k, next_state (skNow k) threshold (bool_decide (n ∈ skHolding k)) (bool_decide (n ∈ gossip_live (skMembers k))) (skPurge k n) st)
    h None.

Lemma sweep_tick_spec now threshold members purge holding rows s s' calls : NoDup holding → wf_sweep s →
  rows ≡ₚ (map_to_list (absentSince (sweep_loop now threshold (gossip_live members) purge holding s).1)).*1 →
  sweep_tick now threshold members purge holding rows s = (s', calls) →
  wf_sweep s' ∧ NoDup calls ∧ ∀ n,
    node_state s' n = next_state now threshold (bool_decide (n ∈ holding)) (bool_decide (n ∈ gossip_live members)) (purge n) (node_state s n) ∧
    (n ∈ calls ↔ due now threshold (bool_decide (n ∈ holding)) (bool_decide (n ∈ gossip_live members)) (node_state s n) = true).
Proof.
  intros Hnd Hwf Hrows Ht. unfold sweep_tick in Ht. fold (gossip_live members) in Ht.
  destruct (sweep_loop now threshold (gossip_live members) purge holding s) as [s1 c1] eqn:E1. injection Ht as <- <-. cbn [fst] in Hrows.
  destruct (sweep_loop_spec _ _ _ _ _ _ _ _ Hnd Hwf E1) as (Hwf1 & Hndc & Hn1). destruct (clear_all_spec holding rows s1 Hwf1) as [Hwf2 Hn2].
  split_and!; [done|done|]. intros n. destruct (Hn1 n) as [Hs1 Hc1]. split; [|done]. rewrite Hn2, Hs1.
  destruct (bool_decide_reflect (n ∈ holding)) as [Hh|Hh]; [by rewrite andb_false_r|]. rewrite andb_true_r. cbn.
  destruct (bool_decide_reflect (n ∈ rows)) as [Hr|Hr]; [done|]. assert (absentSince s1 !! n = None) as Ha.
  { destruct (absentSince s1 !! n) as [t|] eqn:Et; [|done]. destruct Hr. rewrite Hrows. apply list_elem_of_fmap. exists (n, t). by rewrite elem_of_map_to_list. }
  rewrite <-Hs1. unfold node_state. by rewrite Ha.
Qed.

Lemma swept_absence threshold h s : swept threshold h s → wf_sweep s ∧ ∀ n, node_state s n = absence threshold h n.
Proof.
  induction 1 as [|h s now members purge holding rows s1 s' calls _ [IH1 IH2] Hnd -> Hrows Ht]; [done|].
  destruct (sweep_tick_spec _ _ _ _ _ _ _ _ _ Hnd IH1 Hrows Ht) as (H1 & _ & H2). split; [done|]. intros n.
  unfold absence. rewrite fold_left_app. cbn. fold (absence threshold h n). rewrite <-IH2. by destruct (H2 n).
Qed.

(** C36: The sweep purges the routes of lost nodes, and only those, until it succeeds.
    In every history of sweeps, whatever gossip and the routing table report and
    whichever purges fail, a sweep purges exactly the nodes that hold routes, that
    gossip does not know, whose absence began more than the threshold ago and
    which no sweep purged successfully since it began; a node that gossip knows
    or that holds no routes starts afresh. *)
Theorem sweep_purges_lost_nodes threshold h s now members purge holding rows s' calls : swept threshold h s → NoDup holding →
  rows ≡ₚ (map_to_list (absentSince (sweep_loop now threshold (gossip_live members) purge holding s).1)).*1 →
  sweep_tick now threshold members purge holding rows s = (s', calls) →
  NoDup calls ∧ ∀ n,
    (n ∈ calls ↔ n ∈ holding ∧ (n ∉ gossip_live members) ∧ ∃ t, absence threshold h n = Some (t, false) ∧ (threshold < now - t)%Z) ∧
    node_state s' n = (if bool_decide (n ∈ holding) && negb (bool_decide (n ∈ gossip_live members)) then
                         match absence threshold h n with
                         | None => Some (now, false)
                         | Some (t, purged) => Some (t, purged || (bool_decide (n ∈ calls) && purge n))
                         end
                       else None).
Proof.
  intros Hh Hnd Hrows Ht. destruct (swept_absence _ _ _ Hh) as [Hwf Habs]. destruct (sweep_tick_spec _ _ _ _ _ _ _ _ _ Hnd Hwf Hrows Ht) as (_ & Hndc & Hn).
  split; [done|]. intros n. destruct (Hn n) as [Hs Hc]. rewrite Habs in Hs, Hc. rewrite Hs. unfold next_state, due in *.
  split.
  - rewrite Hc, !andb_true_iff, negb_true_iff, bool_decide_eq_true, bool_decide_eq_false.
    destruct (absence threshold h n) as [[t []]|]; [naive_solver| |naive_solver]. rewrite Z.ltb_lt. naive_solver.
  - destruct (bool_decide (n ∈ holding)), (bool_decide (n ∈ gossip_live members)); cbn in *; try done.
    destruct (absence threshold h n) as [[t []]|]; [done| |done]. cbn. do 2 f_equal. destruct (purge n); [|by rewrite !andb_false_r].
    rewrite !andb_true_r. symmetry. destruct (threshold <? now - t)%Z; [apply bool_decide_eq_true_2; by apply Hc|apply bool_decide_eq_false_2; by intros ?%Hc].
Qed.

Lemma sweep_purges_lost_nodes_witness :
  let first := sweep_tick 0 30 [] (λ _, false) ["e1"] ["e1"] new_sweep in
  (sweep_tick 31 30 [] (λ _, false) ["e1"] ["e1"] first.1).2 = ["e1"] ∧ "e1" ∈ (sweep_tick 31 30 [] (λ _, false) ["e1"] ["e1"] first.1).2.
Proof.
  split; [reflexivity|].
  assert (swept 30 [mkSweepTick 0 [] (λ _, false) ["e1"] []] (sweep_tick 0 30 [] (λ _, false) ["e1"] ["e1"] new_sweep).1) as Hh.
  { eapply (swept_next _ [] new_sweep _ _ _ _ ["e1"]); [constructor|by apply NoDup_singleton|reflexivity|vm_compute; reflexivity|reflexivity]. }
  refine (proj2 (proj1 (proj2 (sweep_purges_lost_nodes 30 _ _ 31 [] (λ _, false) ["e1"] ["e1"] _ _ Hh (NoDup_singleton _) ltac:(vm_compute; reflexivity) eq_refl) "e1")) _).
  split; [left|]. split; [done|]. exists 0%Z. by split.
Defined.
