(* ===== verification/Rebalance.v ===== *)
(** * Rebalancing of connections

    internal/cluster/lifecycle/rebalance.go: the pass that disconnects clients of
    overloaded edge nodes. The order of maps, the shuffle, the outcome of every
    eviction and the cancellation of the context are answers of a run. *)
From S2P Require Import Prelude GoStrings Float64 Effects Membership.

Definition LiveEdgeNodes (members : list NodeMeta) : gmap string bool :=
  fold_left (λ live meta, if String.eqb (Role meta) RoleEdge then <[NodeID meta := true]> live else live) members ∅.

(** In the order of the map. *)
Definition LiveEdgeNodeIDs (members : list NodeMeta) : list string := (map_to_list (LiveEdgeNodes members)).*1.

(** RebalanceConfig; [Stagger] says that EvictStagger is positive. *)
Record RebalanceConfig := mkRebalanceConfig {
  ImbalanceThreshold : float64;
  MaxEvictionsPerNode : Z;
  Stagger : bool;
  ExcludeClientIDs : gset string;
}.

Definition DefaultRebalanceConfig : RebalanceConfig :=
  mkRebalanceConfig (fdiv (of_int 20) (of_int 100)) 50 true ∅.

(** [nrEvictErrs] keeps the client of each message. *)
Record RebalanceNodeResult := mkNodeResult {
  nrNodeID : string;
  nrBefore : nat;
  nrTarget : Z;
  nrEvicted : list string;
  nrEvictErrs : list string;
}.

Record RebalanceResult := mkRebalanceResult {
  rrDryRun : bool;
  rrLiveEdgeNodes : nat;
  rrTotalSessions : nat;
  rrAverage : float64;
  rrNodes : list RebalanceNodeResult;
}.

(** [Walk] is the order in which a map is ranged over, [Shuffle] that of rand.Shuffle;
    [Cancelled] is the select between two evictions. *)
Inductive rebalanceReq : Type → Type :=
  | WalkSessions (l : list (string * string)) : rebalanceReq (list (string * string))
  | WalkNodes (l : list (string * list string)) : rebalanceReq (list (string * list string))
  | Shuffle (l : list string) : rebalanceReq (list string)
  | Evict (nodeID clientID : string) : rebalanceReq bool
  | Cancelled : rebalanceReq bool.

Local Open Scope proc_scope.

(** The clients of each live edge node, in the order of the sessions. *)
Definition group_sessions (nodeIsLiveEdge : gmap string bool) (sessions : list (string * string)) : gmap string (list string) :=
  fold_left (λ byNode '(clientID, nodeID),
    match byNode !! nodeID with
    | None => byNode
    | Some clients => <[nodeID := clients ++ [clientID]]> byNode
    end) sessions (omap (λ live : bool, if live then Some [] else None) nodeIsLiveEdge).

(** The counter of grouped sessions. *)
Definition session_total (byNode : gmap string (list string)) : nat := foldr (λ '(_, cs) n, length cs + n) 0 (map_to_list byNode).

(** The evictions of one node: the clients evicted, those that failed, and whether the
    context was cancelled. *)
Fixpoint evict_all (dryRun stagger : bool) (nodeID : string) (toEvict : list string) :
    proc rebalanceReq (list string * list string * bool) :=
  match toEvict with
  | [] => Done ([], [], false)
  | clientID :: rest =>
      if dryRun then
        r <- evict_all dryRun stagger nodeID rest;;
        let '(ev, errs, c) := r in Done (clientID :: ev, errs, c)
      else
        ok <- request (Evict nodeID clientID);;
        if negb ok then
          r <- evict_all dryRun stagger nodeID rest;;
          let '(ev, errs, c) := r in Done (ev, clientID :: errs, c)
        else
          cancelled <- (if stagger && match rest with [] => false | _ => true end then request Cancelled else Done false);;
          if cancelled : bool then Done ([clientID], [], true)
          else
            r <- evict_all dryRun stagger nodeID rest;;
            let '(ev, errs, c) := r in Done (clientID :: ev, errs, c)
  end.

(** How many clients a node with [count] sessions may lose. *)
Definition excess_of (cfg : RebalanceConfig) (threshold : float64) (target : Z) (clients : list string) : nat * list string :=
  let count := length clients in
  if fleb (of_int (Z.of_nat count)) threshold then (0, [])
  else
    let excess := (Z.of_nat count - target)%Z in
    let excess := if (MaxEvictionsPerNode cfg <? excess)%Z then MaxEvictionsPerNode cfg else excess in
    if (excess <=? 0)%Z then (0, [])
    else
      let evictable := if decide (ExcludeClientIDs cfg = ∅) then clients
                       else List.filter (λ c, negb (bool_decide (c ∈ ExcludeClientIDs cfg))) clients in
      (Nat.min (Z.to_nat excess) (length evictable), evictable).

Fixpoint rebalance_nodes (cfg : RebalanceConfig) (dryRun : bool) (threshold : float64) (target : Z) (rows : list (string * list string)) :
    proc rebalanceReq (list RebalanceNodeResult * bool) :=
  match rows with
  | [] => Done ([], false)
  | (nodeID, clients) :: rows =>
      let '(excess, evictable) := excess_of cfg threshold target clients in
      if excess =? 0 then rebalance_nodes cfg dryRun threshold target rows
      else
        shuffled <- request (Shuffle evictable);;
        r <- evict_all dryRun (Stagger cfg) nodeID (take excess shuffled);;
        let '(ev, errs, cancelled) := r in
        let nodeResult := mkNodeResult nodeID (length clients) target ev errs in
        if cancelled : bool then Done ([nodeResult], true)
        else
          rest <- rebalance_nodes cfg dryRun threshold target rows;;
          Done (nodeResult :: rest.1, rest.2)
  end.

(** [None]: no evictor is configured. The second component says that the context was
    cancelled. *)
Definition Rebalance (sessions : gmap string string) (nodeIsLiveEdge : gmap string bool) (cfg : RebalanceConfig) (evictor dryRun : bool) :
    proc rebalanceReq (option (RebalanceResult * bool)) :=
  if negb evictor && negb dryRun then Done None
  else
    rows <- request (WalkSessions (map_to_list sessions));;
    let byNode := group_sessions nodeIsLiveEdge rows in
    let total := session_total byNode in
    let live := size byNode in
    if live =? 0 then Done (Some (mkRebalanceResult dryRun 0 total (of_int 0) [], false))
    else
      let average := fdiv (of_int (Z.of_nat total)) (of_int (Z.of_nat live)) in
      let threshold := fmul average (fadd (of_int 1) (ImbalanceThreshold cfg)) in
      let target := default 0%Z (round_int average) in
      nodes <- request (WalkNodes (map_to_list byNode));;
      r <- rebalance_nodes cfg dryRun threshold target nodes;;
      Done (Some (mkRebalanceResult dryRun live total average r.1, r.2)).

(** ** Lemmas *)

(** Maps are walked and lists shuffled without loss. *)
Definition fair (ev : event rebalanceReq) : Prop :=
  match ev with
  | Event e x =>
      match e in rebalanceReq X return X → Prop with
      | WalkSessions l => λ l', l' ≡ₚ l
      | WalkNodes l => λ l', l' ≡ₚ l
      | Shuffle l => λ l', l' ≡ₚ l
      | _ => λ _, True
      end x
  end.

(** The evictions a trace asked for. *)
Definition evicts (ev : event rebalanceReq) : list (string * string) :=
  match ev with Event e _ => match e with Evict n c => [(n, c)] | _ => [] end end.

Definition clients_of (rows : list (string * string)) (n : string) : list string :=
  omap (λ '(c, n'), if decide (n' = n) then Some c else None) rows.

Lemma group_sessions_lookup live rows n : group_sessions live rows !! n = if decide (live !! n = Some true) then Some (clients_of rows n) else None.
Proof.
  unfold group_sessions. set (init := omap _ live).
  assert (∀ acc, fold_left (λ (byNode : gmap string (list string)) '(clientID, nodeID),
      match byNode !! nodeID with None => byNode | Some clients => <[nodeID := clients ++ [clientID]]> byNode end) rows acc !! n =
    (λ cs, cs ++ clients_of rows n) <$> acc !! n) as H.
  { induction rows as [|[c n'] rows IH]; intros acc; cbn [fold_left].
    - destruct (acc !! n); cbn; [by rewrite app_nil_r|done].
    - rewrite IH. unfold clients_of. cbn. destruct (decide (n' = n)) as [->|Hne].
      + destruct (acc !! n) as [cs|] eqn:E; [|by rewrite E]. rewrite lookup_insert_eq. cbn. by rewrite <-app_assoc.
      + destruct (acc !! n') as [cs|]; [|done]. by rewrite lookup_insert_ne. }
  rewrite H. unfold init. rewrite lookup_omap. destruct (live !! n) as [[]|]; cbn; [by rewrite decide_True|by rewrite decide_False|by rewrite decide_False].
Qed.

Lemma clients_of_perm rows rows' n : rows ≡ₚ rows' → clients_of rows n ≡ₚ clients_of rows' n.
Proof.
  unfold clients_of. induction 1 as [|[c n1] l l' _ IH|[c1 n1] [c2 n2] l|l1 l2 l3 _ IH1 _ IH2]; cbn; [done| | |by etrans].
  - destruct (decide (n1 = n)); [by constructor|done].
  - destruct (decide (n1 = n)), (decide (n2 = n)); try done. constructor.
Qed.

Lemma elem_of_clients rows n c : c ∈ clients_of rows n ↔ (c, n) ∈ rows.
Proof.
  unfold clients_of. rewrite list_elem_of_omap. split.
  - intros ([c' n'] & Hin & E). destruct (decide (n' = n)); by simplify_eq.
  - intros Hin. exists (c, n). by rewrite decide_True.
Qed.

Lemma clients_of_NoDup rows n : NoDup rows.*1 → NoDup (clients_of rows n).
Proof.
  unfold clients_of. induction rows as [|[c n'] rows IH]; [constructor|]. cbn. intros [Hc Hnd]%NoDup_cons. destruct (decide (n' = n)) as [->|]; [|by apply IH].
  constructor; [|by apply IH]. fold (clients_of rows n). rewrite elem_of_clients. intros Hin. apply Hc, list_elem_of_fmap. by exists (c, n).
Qed.

(** The attempts are a prefix of the selection, and a dry run asks for none. *)
Lemma evict_all_spec dryRun stagger n l ev errs c tr : runs (evict_all dryRun stagger n l) (ev, errs, c) tr →
  (∃ k, ev ++ errs ≡ₚ take k l) ∧ ∀ n' c', (n', c') ∈ concat (map evicts tr) → dryRun = false ∧ n' = n ∧ c' ∈ l.
Proof.
  revert ev errs c tr. induction l as [|x l IH]; intros ev errs c tr Hr.
  { destruct Hr as [E ->]. simplify_eq. split; [by exists 0|]. set_solver. }
  cbn [evict_all] in Hr. destruct dryRun.
  - apply runs_bind in Hr as ([[ev' errs'] c'] & tr1 & tr2 & Hr & [E ->] & ->). simplify_eq. rewrite app_nil_r. apply IH in Hr as [[k Hk] Ht].
    split; [exists (S k); cbn; by rewrite Hk|]. intros n' c0 Hin. destruct (Ht n' c0 Hin). done.
  - destruct Hr as (ok & tr1 & -> & Hr). destruct ok; cbn [negb proc_bind] in Hr.
    + apply runs_bind in Hr as (cc & tr2 & tr3 & Hc & Hr & ->).
      assert (concat (map evicts tr2) = []) as Htr2.
      { destruct (stagger && _); [apply runs_request in Hc as ->|destruct Hc as [_ ->]]; done. }
      cbn. setoid_rewrite map_app. setoid_rewrite concat_app. rewrite Htr2. cbn. destruct cc.
      * destruct Hr as [E ->]. simplify_eq. split; [by exists 1|]. cbn. set_solver.
      * apply runs_bind in Hr as ([[ev' errs'] c'] & tr4 & tr5 & Hr & [E ->] & ->). simplify_eq. rewrite app_nil_r. apply IH in Hr as [[k Hk] Ht].
        split; [exists (S k); cbn; by rewrite Hk|]. intros n' c0 [[= -> ->]|Hin]%elem_of_cons; [set_solver|]. destruct (Ht n' c0 Hin). set_solver.
    + apply runs_bind in Hr as ([[ev' errs'] c'] & tr4 & tr5 & Hr & [E ->] & ->). simplify_eq. rewrite app_nil_r. apply IH in Hr as [[k Hk] Ht].
      split; [exists (S k); cbn; rewrite <-Permutation_middle; by rewrite Hk|]. cbn. intros n' c0 [[= -> ->]|Hin]%elem_of_cons; [set_solver|]. destruct (Ht n' c0 Hin). set_solver.
Qed.

(** The bound on the selection of one node. *)
Lemma excess_of_spec cfg threshold target clients excess evictable : excess_of cfg threshold target clients = (excess, evictable) → excess ≠ 0 →
  fleb (of_int (Z.of_nat (length clients))) threshold = false ∧ (Z.of_nat excess <= MaxEvictionsPerNode cfg)%Z ∧
  (target <= Z.of_nat (length clients) - Z.of_nat excess)%Z ∧ evictable ⊆ clients ∧ (NoDup clients → NoDup evictable) ∧
  ∀ c, c ∈ evictable → c ∉ ExcludeClientIDs cfg.
Proof.
  unfold excess_of. intros E Hne. destruct (fleb _ threshold) eqn:Ef; simplify_eq.
  set (ex := if (MaxEvictionsPerNode cfg <? _)%Z then _ else _) in *. destruct (Z.leb_spec ex 0); simplify_eq.
  assert ((ex <= MaxEvictionsPerNode cfg)%Z ∧ (ex <= Z.of_nat (length clients) - target)%Z) as [H1 H2].
  { unfold ex. destruct (Z.ltb_spec (MaxEvictionsPerNode cfg) (Z.of_nat (length clients) - target)); lia. }
  split; [done|]. split; [lia|]. split; [lia|]. destruct (decide (ExcludeClientIDs cfg = ∅)) as [Ee|Ee].
  - split_and!; [done|done|]. rewrite Ee. set_solver.
  - assert (∀ c, c ∈ List.filter (λ c, negb (bool_decide (c ∈ ExcludeClientIDs cfg))) clients ↔ c ∈ clients ∧ c ∉ ExcludeClientIDs cfg) as Hf.
    { intros c. by rewrite list_elem_of_In, List.filter_In, <-list_elem_of_In, negb_true_iff, bool_decide_eq_false. }
    split_and!; [intros c [? _]%Hf; done| |intros c [_ ?]%Hf; done]. intros Hnd. apply NoDup_ListNoDup, List.NoDup_filter. by apply NoDup_ListNoDup.
Qed.

Lemma elem_of_take_all {A} (x : A) k l : x ∈ take k l → x ∈ l.
Proof. intros Hx. rewrite <-(take_drop k l). apply elem_of_app. by left. Qed.
Lemma NoDup_take_sub {A} k (l : list A) : NoDup l → NoDup (take k l).
Proof. intros Hl. rewrite <-(take_drop k l) in Hl. by apply NoDup_app in Hl as (? & _). Qed.

(** What is done to one overloaded node with the sessions [clients]. *)
Definition bounded (cfg : RebalanceConfig) (threshold : float64) (target : Z) (clients : list string) (r : RebalanceNodeResult) : Prop :=
  let attempted := nrEvicted r ++ nrEvictErrs r in
  nrBefore r = length clients ∧ nrTarget r = target ∧ fleb (of_int (Z.of_nat (length clients))) threshold = false ∧
  NoDup attempted ∧ attempted ⊆ clients ∧ (∀ c, c ∈ attempted → c ∉ ExcludeClientIDs cfg) ∧
  (Z.of_nat (length attempted) <= MaxEvictionsPerNode cfg)%Z ∧ (target <= Z.of_nat (length clients) - Z.of_nat (length attempted))%Z.

Lemma rebalance_nodes_spec cfg dryRun threshold target rows res c tr :
  runs (rebalance_nodes cfg dryRun threshold target rows) (res, c) tr → Forall fair tr → Forall (λ row, NoDup row.2) rows → NoDup rows.*1 →
  NoDup (nrNodeID <$> res) ∧ (∀ r, r ∈ res → ∃ clients, (nrNodeID r, clients) ∈ rows ∧ bounded cfg threshold target clients r) ∧
  ∀ n x, (n, x) ∈ concat (map evicts tr) → dryRun = false ∧ ∃ clients, (n, clients) ∈ rows ∧ x ∈ clients ∧ x ∉ ExcludeClientIDs cfg.
Proof.
  revert res c tr. induction rows as [|[n clients] rows IH]; intros res c tr Hr Hfair Hcl Hnd.
  { destruct Hr as [E ->]. simplify_eq. split_and!; [constructor|set_solver|set_solver]. }
  apply Forall_cons in Hcl as [Hc Hcl]. cbn in Hnd, Hc. apply NoDup_cons in Hnd as [Hn Hnd]. cbn [rebalance_nodes] in Hr.
  destruct (excess_of cfg threshold target clients) as [excess evictable] eqn:Ee. destruct (Nat.eqb_spec excess 0) as [->|Hne].
  { destruct (IH _ _ _ Hr Hfair Hcl Hnd) as (H1 & H2 & H3). split_and!; [done| |].
    - intros r Hin. destruct (H2 r Hin) as (cs & ? & ?). exists cs. rewrite elem_of_cons. auto.
    - intros n' x Hin. destruct (H3 n' x Hin) as (? & cs & ? & ?). split; [done|]. exists cs. rewrite elem_of_cons. auto. }
  destruct (excess_of_spec _ _ _ _ _ _ Ee Hne) as (Hover & Hmax & Htarget & Hsub & Hndev & Hexcl).
  destruct Hr as (shuffled & tr1 & -> & Hr). apply Forall_cons in Hfair as [Hsh Hfair]. cbn in Hsh. cbn [proc_bind] in Hr.
  apply runs_bind in Hr as ([[ev errs] cancelled] & tr2 & tr3 & Hev & Hr & ->). apply Forall_app in Hfair as [_ Hfair].
  destruct (evict_all_spec _ _ _ _ _ _ _ _ Hev) as [[k Hk] Hcalls].
  assert (∀ x, x ∈ take excess shuffled → x ∈ evictable) as Hin by (intros x Hx%elem_of_take_all; by rewrite <-Hsh).
  assert (bounded cfg threshold target clients (mkNodeResult n (length clients) target ev errs)) as Hb.
  { unfold bounded. cbn [nrEvicted nrEvictErrs nrBefore nrTarget]. assert (∀ x, x ∈ ev ++ errs → x ∈ evictable) as Hatt
      by (intros x; rewrite Hk; intros Hx%elem_of_take_all; auto).
    assert (length (ev ++ errs) <= excess) as Hlen by (rewrite Hk, length_take, length_take; lia).
    split_and!; [done|done|done| |intros x Hx; apply Hsub; auto|intros x Hx; apply Hexcl; auto|lia|lia].
    rewrite Hk. apply NoDup_take_sub, NoDup_take_sub. rewrite Hsh. auto. }
  assert (∀ n' x, (n', x) ∈ concat (map evicts tr2) → dryRun = false ∧ ∃ cs, (n', cs) ∈ (n, clients) :: rows ∧ x ∈ cs ∧ x ∉ ExcludeClientIDs cfg) as Hc2.
  { intros n' x Hx. destruct (Hcalls n' x Hx) as (? & -> & Hx'). split; [done|]. exists clients. split; [left|]. split; [apply Hsub|apply Hexcl]; auto. }
  cbn [map concat evicts app]. setoid_rewrite map_app. setoid_rewrite concat_app. setoid_rewrite elem_of_app. destruct cancelled.
  - destruct Hr as [E ->]. simplify_eq. split_and!; [by apply NoDup_singleton| |].
    + intros r ->%list_elem_of_singleton. exists clients. split; [left|done].
    + intros n' x [Hx|Hx]; [auto|]. by apply not_elem_of_nil in Hx.
  - apply runs_bind in Hr as ([res' c'] & tr4 & tr5 & Hr & [E ->] & ->). simplify_eq. cbn [fst snd]. rewrite app_nil_r in *.
    destruct (IH _ _ _ Hr Hfair Hcl Hnd) as (H1 & H2 & H3). split_and!.
    + cbn. constructor; [|done]. intros (r & E & Hin')%list_elem_of_fmap. destruct (H2 r Hin') as (cs & Hin'' & _). apply Hn. rewrite E. apply list_elem_of_fmap. by exists (nrNodeID r, cs).
    + intros r [->|Hin']%elem_of_cons; [exists clients; split; [left|done]|]. destruct (H2 r Hin') as (cs & ? & ?). exists cs. rewrite elem_of_cons. auto.
    + intros n' x [Hx|Hx]; [auto|]. destruct (H3 n' x Hx) as (? & cs & ? & ?). split; [done|]. exists cs. rewrite elem_of_cons. auto.
Qed.

Lemma session_total_insert m n cs : m !! n = None → session_total (<[n := cs]> m) = length cs + session_total m.
Proof.
  intros Hn. unfold session_total. assert (∀ l l' : list (string * list string), l ≡ₚ l' →
    foldr (λ '(_, cs) k, length cs + k) 0 l = foldr (λ '(_, cs) k, length cs + k) 0 l') as Hp.
  { induction 1 as [|[] ? ? _ IH|[] [] ?|]; cbn; lia. }
  rewrite (Hp _ _ (map_to_list_insert m n cs Hn)). done.
Qed.

Lemma session_total_snoc m n cs c : m !! n = Some cs → session_total (<[n := cs ++ [c]]> m) = S (session_total m).
Proof.
  intros Hn. rewrite <-(insert_delete_id m n cs Hn) at 2. rewrite <-insert_delete_eq.
  rewrite !session_total_insert by apply lookup_delete_eq. rewrite length_app. cbn. lia.
Qed.

(** The sessions counted are those of the live edge nodes. *)
Lemma session_total_grouped live rows : session_total (group_sessions live rows) = length (filter (λ row : string * string, live !! row.2 = Some true) rows).
Proof.
  unfold group_sessions. set (init := omap _ live).
  assert (∀ n, is_Some (init !! n) ↔ live !! n = Some true) as Hinit.
  { intros n. unfold init. rewrite lookup_omap. destruct (live !! n) as [[]|]; cbn; split; try done; by intros [? ?]. }
  assert (session_total init = 0) as Hz.
  { assert (map_Forall (λ _ cs, cs = []) init) as Hnil.
    { intros n cs. unfold init. rewrite lookup_omap. destruct (live !! n) as [[]|]; cbn; congruence. }
    clear Hinit. clearbody init. induction init as [|n cs m Hm IH] using map_ind; [done|].
    rewrite session_total_insert by done. apply map_Forall_insert in Hnil as [-> ?]; [|done]. cbn. auto. }
  assert (∀ acc : gmap string (list string), (∀ n, is_Some (acc !! n) ↔ live !! n = Some true) →
    session_total (fold_left (λ (byNode : gmap string (list string)) '(clientID, nodeID),
      match byNode !! nodeID with None => byNode | Some clients => <[nodeID := clients ++ [clientID]]> byNode end) rows acc) =
    session_total acc + length (filter (λ row : string * string, live !! row.2 = Some true) rows)) as H.
  { induction rows as [|[c n] rows IH]; intros acc Hacc; cbn [fold_left]; [cbn; lia|]. rewrite filter_cons. cbn [snd].
    destruct (acc !! n) as [cs|] eqn:En.
    - rewrite IH, decide_True, (session_total_snoc _ _ _ _ En); [cbn; lia|by apply Hacc; rewrite En|].
      intros n'. rewrite <-Hacc. destruct (decide (n' = n)) as [->|]; [rewrite lookup_insert_eq, En; split; eauto|by rewrite lookup_insert_ne].
    - rewrite IH, decide_False; [done| |done]. intros Hl. apply Hacc in Hl as [? ?]. congruence. }
  rewrite H by done. lia.
Qed.

Lemma walked_sessions (sessions : gmap string string) rows n c : rows ≡ₚ map_to_list sessions →
  NoDup (clients_of rows n) ∧ (c ∈ clients_of rows n ↔ sessions !! c = Some n).
Proof.
  intros Hp. split; [apply clients_of_NoDup; rewrite Hp; apply NoDup_fst_map_to_list|].
  by rewrite elem_of_clients, Hp, elem_of_map_to_list.
Qed.

(** A rebalancing pass refuses to run only when it has no evictor and is not a dry
    run. Otherwise it averages the sessions of the live edge nodes and touches at most one
    time each live edge node whose sessions exceed the threshold: it attempts to evict
    distinct sessions that this node owns, none of them excluded, at most
    MaxEvictionsPerNode of them, and never so many that the node would fall below the
    average. A dry run asks for no eviction. *)
Theorem rebalance_is_bounded sessions live cfg evictor dryRun out tr :
  runs (Rebalance sessions live cfg evictor dryRun) out tr → Forall fair tr →
  match out with
  | None => evictor = false ∧ dryRun = false ∧ tr = []
  | Some (res, _) =>
      (evictor || dryRun) = true ∧
      rrTotalSessions res = size (filter (λ row, live !! row.2 = Some true) sessions) ∧
      NoDup (nrNodeID <$> rrNodes res) ∧
      (∀ r, r ∈ rrNodes res → live !! nrNodeID r = Some true ∧
        rrAverage res = fdiv (of_int (Z.of_nat (rrTotalSessions res))) (of_int (Z.of_nat (rrLiveEdgeNodes res))) ∧
        ∃ clients, NoDup clients ∧ (∀ c, c ∈ clients ↔ sessions !! c = Some (nrNodeID r)) ∧
          bounded cfg (fmul (rrAverage res) (fadd (of_int 1) (ImbalanceThreshold cfg))) (default 0%Z (round_int (rrAverage res))) clients r) ∧
      ∀ n c, (n, c) ∈ concat (map evicts tr) → dryRun = false ∧ live !! n = Some true ∧ sessions !! c = Some n ∧ c ∉ ExcludeClientIDs cfg
  end.
Proof.
  intros Hr Hfair. unfold Rebalance in Hr. destruct (negb evictor && negb dryRun) eqn:Ee.
  { destruct Hr as [-> ->]. by destruct evictor, dryRun. }
  assert ((evictor || dryRun) = true) as Hen by (by destruct evictor, dryRun).
  destruct Hr as (rows & tr1 & -> & Hr). cbn [proc_bind] in Hr. apply Forall_cons in Hfair as [Hrows Hfair]. cbn in Hrows. cbn [map concat evicts app].
  assert (session_total (group_sessions live rows) = size (filter (λ row, live !! row.2 = Some true) sessions)) as Htotal.
  { rewrite session_total_grouped, Hrows, <-length_map_to_list, map_filter_alt, map_to_list_to_map; [done|].
    eapply sublist_NoDup; [apply (NoDup_fst_map_to_list sessions)|apply fmap_sublist, sublist_filter]. }
  destruct (size (group_sessions live rows) =? 0).
  { destruct Hr as [-> ->]. split_and!; [done|done|constructor|set_solver|set_solver]. }
  destruct Hr as (nodes & tr2 & -> & Hr). cbn [proc_bind] in Hr. apply Forall_cons in Hfair as [Hnodes Hfair]. cbn in Hnodes. cbn [map concat evicts app].
  apply runs_bind in Hr as ([res c] & tr3 & tr4 & Hr & [-> ->] & ->). rewrite app_nil_r in *.
  assert (∀ n cs, (n, cs) ∈ nodes → live !! n = Some true ∧ cs = clients_of rows n) as Hn.
  { intros n cs. rewrite Hnodes, elem_of_map_to_list, group_sessions_lookup. by destruct (decide _); intros [= <-]. }
  destruct (rebalance_nodes_spec _ _ _ _ _ _ _ _ Hr Hfair) as (H1 & H2 & H3).
  { apply Forall_forall. intros [n cs] Hin. destruct (Hn n cs Hin) as [_ ->]. by apply (walked_sessions sessions rows n ""). }
  { rewrite Hnodes. apply NoDup_fst_map_to_list. }
  split_and!; [done|done|done| |].
  - intros r Hin. destruct (H2 r Hin) as (cs & Hcs & Hb). destruct (Hn _ _ Hcs) as [Hl ->]. split_and!; [done|done|].
    exists (clients_of rows (nrNodeID r)). split_and!; [by apply (walked_sessions sessions rows _ "")|intros x; by apply walked_sessions|done].
  - intros n x Hx. destruct (H3 n x Hx) as (? & cs & Hcs & Hxc & ?). destruct (Hn _ _ Hcs) as [Hl ->]. split_and!; [done|done|by apply (walked_sessions sessions rows n x)|done].
Qed.

(** Five clients on one of two live nodes: one of them is evicted. *)
Definition crowded : gmap string string := <["a" := "n1"]> (<["b" := "n1"]> (<["c" := "n1"]> (<["d" := "n1"]> {["e" := "n2"]}))).
Definition two_nodes : gmap string bool := <["n1" := true]> {["n2" := true]}.
Definition one_each : RebalanceConfig := mkRebalanceConfig (fdiv (of_int 20) (of_int 100)) 1 true {["a"]}.

Definition in_order X (e : rebalanceReq X) : X :=
  match e in rebalanceReq X return X with WalkSessions l => l | WalkNodes l => l | Shuffle l => l | Evict _ _ => true | Cancelled => false end.

Lemma in_order_fair {A} (p : proc rebalanceReq A) : Forall fair (answer in_order p).2.
Proof.
  induction p as [a|X e k IH]; cbn; [constructor|]. specialize (IH (in_order X e)). destruct (answer in_order (k (in_order X e))) as [a tr].
  constructor; [clear; destruct e; cbn; reflexivity || exact I|done].
Qed.

Lemma rebalance_is_bounded_witness :
  let r := answer in_order (Rebalance crowded two_nodes one_each true false) in
  concat (map evicts r.2) ≠ [] ∧ ∀ n c, (n, c) ∈ concat (map evicts r.2) → crowded !! c = Some n.
Proof.
  intros r. split; [vm_compute; done|]. subst r. intros n c Hin.
  pose proof (rebalance_is_bounded crowded two_nodes one_each true false _ _ (answer_runs in_order _) (in_order_fair _)) as H.
  destruct (answer in_order (Rebalance crowded two_nodes one_each true false)) as [[[res b]|] tr]; cbn [fst snd] in *.
  - destruct H as (_ & _ & _ & _ & H). by destruct (H n c Hin) as (_ & _ & ? & _).
  - by destruct H as (? & _).
Defined.
