(* ===== verification/Connector.v ===== *)
(** * The output buffer and its drain goroutine

    internal/connector: buffer.go and buffered.go. Publishing goroutines push into
    a bounded buffer, one goroutine drains it into the connector with a few
    retries, and Shutdown stops it. The system is a labelled transition relation
    whose steps are the critical sections and the channel operations of the code;
    the inner connector, the timers and the cancellation of the context may act at
    any moment. *)
From S2P Require Import Prelude.

(** ** MemoryOutputBuffer *)

(** [signal]: the one-place channel holds a token. *)
Record MemoryOutputBuffer (A : Type) := mkBuffer {
  items : list A;
  capacity : nat;
  closed : bool;
  signal : bool;
}.
Arguments mkBuffer {A}.
Arguments items {A}.
Arguments capacity {A}.
Arguments closed {A}.
Arguments signal {A}.

Definition NewMemoryOutputBuffer {A} (cap : Z) : MemoryOutputBuffer A :=
  mkBuffer [] (Z.to_nat (if (cap <=? 0)%Z then 1%Z else cap)) false false.

(** The critical section of Push: [None] when the buffer is closed, otherwise the
    buffer and the request it dropped. *)
Definition push_locked {A} (req : A) (b : MemoryOutputBuffer A) : option (MemoryOutputBuffer A * option A) :=
  if closed b then None
  else
    let '(dropped, rest) :=
      if capacity b <=? length (items b) then (head (items b), tail (items b)) else (None, items b) in
    Some (mkBuffer (rest ++ [req]) (capacity b) false (signal b), dropped).

(** The send on the signal channel, which does nothing when a token is there. *)
Definition notify {A} (b : MemoryOutputBuffer A) : MemoryOutputBuffer A :=
  mkBuffer (items b) (capacity b) (closed b) true.

Definition Push {A} (req : A) (b : MemoryOutputBuffer A) : MemoryOutputBuffer A * option A :=
  match push_locked req b with
  | None => (b, None)
  | Some (b', dropped) => (notify b', dropped)
  end.

(** What Next finds under the lock. *)
Inductive found (A : Type) :=
  | Took (req : A) (b : MemoryOutputBuffer A)
  | ClosedAndEmpty
  | MustWait.
Arguments Took {A}.
Arguments ClosedAndEmpty {A}.
Arguments MustWait {A}.

Definition next_locked {A} (b : MemoryOutputBuffer A) : found A :=
  match items b with
  | req :: rest => Took req (mkBuffer rest (capacity b) (closed b) (signal b))
  | [] => if closed b then ClosedAndEmpty else MustWait
  end.

Definition receive {A} (b : MemoryOutputBuffer A) : MemoryOutputBuffer A :=
  mkBuffer (items b) (capacity b) (closed b) false.

Definition Len {A} (b : MemoryOutputBuffer A) : nat := length (items b).

(** The critical section of Close: [None] when it was closed before. *)
Definition close_locked {A} (b : MemoryOutputBuffer A) : option (MemoryOutputBuffer A) :=
  if closed b then None else Some (mkBuffer (items b) (capacity b) true (signal b)).

(** ** BufferedConnector *)

(** len(forwardRetryBackoff) *)
Definition attempts : nat := 3.

(** Where drainLoop is: before the lock in Next, in its select, in a call of the
    inner connector, between two calls, or returned. *)
Inductive drainer (A : Type) :=
  | AtNext
  | InSelect
  | Forwarding (req : A) (i : nat)
  | BackingOff (req : A) (i : nat)
  | Stopped.
Arguments AtNext {A}.
Arguments InSelect {A}.
Arguments Forwarding {A}.
Arguments BackingOff {A}.
Arguments Stopped {A}.

(** Where Shutdown is: not called, after the critical section of Close, after
    Close, in wg.Wait, after the inner Shutdown. *)
Inductive shutdown := NotCalled | Closing | Closed_ | AwaitingDrain | InnerDown.

(** [sNotifying] counts the goroutines in Push between the lock and the send. *)
Record system (A : Type) := mkSystem {
  sBuf : MemoryOutputBuffer A;
  sNotifying : nat;
  sDrain : drainer A;
  sCancelled : bool;
  sShutdown : shutdown;
}.
Arguments mkSystem {A}.
Arguments sBuf {A}.
Arguments sNotifying {A}.
Arguments sDrain {A}.
Arguments sCancelled {A}.
Arguments sShutdown {A}.

(** NewBuffered and Start *)
Definition started {A} (cap : Z) : system A := mkSystem (NewMemoryOutputBuffer cap) 0 AtNext false NotCalled.

(** What can be observed: [Full] and [GaveUp] are the two counted kinds of drop. *)
Inductive observation (A : Type) :=
  | Accepted (req : A)
  | Refused (req : A)
  | Full (req : A)
  | Taken (req : A)
  | Attempt (req : A) (ok : bool)
  | GaveUp (req : A)
  | Abandoned (req : A)
  | InnerShutdown.
Arguments Accepted {A}.
Arguments Refused {A}.
Arguments Full {A}.
Arguments Taken {A}.
Arguments Attempt {A}.
Arguments GaveUp {A}.
Arguments Abandoned {A}.
Arguments InnerShutdown {A}.

(** forwardWithRetry after the call number [i] failed. *)
Definition after_failure {A} (req : A) (i : nat) : drainer A * list (observation A) :=
  if S i <? attempts then (BackingOff req (S i), [Attempt req false]) else (AtNext, [Attempt req false; GaveUp req]).

(** The steps that the goroutines of the connector take by themselves. *)
Inductive internal {A} : system A → list (observation A) → system A → Prop :=
  | int_notify b n d c sh : internal (mkSystem b (S n) d c sh) [] (mkSystem (notify b) n d c sh)
  | int_take b n c sh req b' : next_locked b = Took req b' →
      internal (mkSystem b n AtNext c sh) [Taken req] (mkSystem b' n (Forwarding req 0) c sh)
  | int_drained b n c sh : next_locked b = ClosedAndEmpty → internal (mkSystem b n AtNext c sh) [] (mkSystem b n Stopped c sh)
  | int_wait b n c sh : next_locked b = MustWait → internal (mkSystem b n AtNext c sh) [] (mkSystem b n InSelect c sh)
  | int_receive b n c sh : signal b = true → internal (mkSystem b n InSelect c sh) [] (mkSystem (receive b) n AtNext c sh)
  | int_cancelled b n sh : internal (mkSystem b n InSelect true sh) [] (mkSystem b n Stopped true sh)
  | int_delivered b n c sh req i : internal (mkSystem b n (Forwarding req i) c sh) [Attempt req true] (mkSystem b n AtNext c sh)
  | int_failed b n c sh req i d evs : after_failure req i = (d, evs) →
      internal (mkSystem b n (Forwarding req i) c sh) evs (mkSystem b n d c sh)
  | int_timer b n c sh req i : internal (mkSystem b n (BackingOff req i) c sh) [] (mkSystem b n (Forwarding req i) c sh)
  | int_abandon b n sh req i : internal (mkSystem b n (BackingOff req i) true sh) [Abandoned req] (mkSystem b n AtNext true sh)
  | int_close_notify b n d c : internal (mkSystem b n d c Closing) [] (mkSystem (notify b) n d c Closed_)
  | int_cancel b n d c : internal (mkSystem b n d c Closed_) [] (mkSystem b n d true AwaitingDrain)
  | int_inner_down b n c : internal (mkSystem b n Stopped c AwaitingDrain) [InnerShutdown] (mkSystem b n Stopped c InnerDown).

(** Together with the steps of the surroundings: a Forward of a publishing
    goroutine, a call of Shutdown, the end of the parent context. *)
Inductive step {A} : system A → list (observation A) → system A → Prop :=
  | step_internal s evs s' : internal s evs s' → step s evs s'
  | step_push b n d c sh req b' dropped : push_locked req b = Some (b', dropped) →
      step (mkSystem b n d c sh) ((Full <$> option_list dropped) ++ [Accepted req]) (mkSystem b' (S n) d c sh)
  | step_refuse b n d c sh req : push_locked req b = None → step (mkSystem b n d c sh) [Refused req] (mkSystem b n d c sh)
  | step_close b n d c b' : close_locked b = Some b' → step (mkSystem b n d c NotCalled) [] (mkSystem b' n d c Closing)
  | step_parent b n d c sh : step (mkSystem b n d c sh) [] (mkSystem b n d true sh).

Inductive runs_to {A} (s0 : system A) : list (observation A) → system A → Prop :=
  | runs_here : runs_to s0 [] s0
  | runs_step tr s evs s' : runs_to s0 tr s → step s evs s' → runs_to s0 (tr ++ evs) s'.

(** ** Every message is accounted for *)

Section Accounting.
  Context {A : Type}.
  Implicit Types (tr evs : list (observation A)) (s : system A) (b : MemoryOutputBuffer A).

(** The requests that entered the buffer, and those that left it at the front. *)
Definition accepted : list (observation A) → list A := omap (λ o, match o with Accepted r => Some r | _ => None end).
Definition left_front : list (observation A) → list A := omap (λ o, match o with Full r | Taken r => Some r | _ => None end).

(** What the drain goroutine did. *)
Definition drained : list (observation A) → list (observation A) :=
  omap (λ o, match o with Taken _ | Attempt _ _ | GaveUp _ | Abandoned _ => Some o | _ => None end).

Definition tried (req : A) (i : nat) : list (observation A) := Taken req :: repeat (Attempt req false) i.

(** A request that was handled to its end: delivered by one of the attempts, given up
    after all of them failed, or abandoned between two of them. *)
Inductive handled : list (observation A) → Prop :=
  | handled_ok req i : i < attempts → handled (tried req i ++ [Attempt req true])
  | handled_gave_up req : handled (tried req attempts ++ [GaveUp req])
  | handled_abandoned req i : 0 < i < attempts → handled (tried req i ++ [Abandoned req]).

Definition pending (d : drainer A) : list (observation A) :=
  match d with Forwarding req i | BackingOff req i => tried req i | _ => [] end.

Definition drainer_ok (d : drainer A) : Prop :=
  match d with Forwarding _ i => i < attempts | BackingOff _ i => 0 < i < attempts | _ => True end.

Lemma accepted_app tr evs : accepted (tr ++ evs) = accepted tr ++ accepted evs.
Proof. apply omap_app. Qed.
Lemma left_front_app tr evs : left_front (tr ++ evs) = left_front tr ++ left_front evs.
Proof. apply omap_app. Qed.
Lemma drained_app tr evs : drained (tr ++ evs) = drained tr ++ drained evs.
Proof. apply omap_app. Qed.

Lemma tried_S req i : tried req i ++ [Attempt req false] = tried req (S i).
Proof. unfold tried. cbn. f_equal. induction i as [|i IH]; [done|]. cbn. by rewrite IH. Qed.

(** What one step adds to the buffer and takes from it. *)
Lemma step_queue s evs s' : step s evs s' → length (items (sBuf s)) <= capacity (sBuf s) → 0 < capacity (sBuf s) →
  items (sBuf s) ++ accepted evs = left_front evs ++ items (sBuf s') ∧
  length (items (sBuf s')) <= capacity (sBuf s') ∧ capacity (sBuf s') = capacity (sBuf s).
Proof.
  intros Hs Hlen Hcap. destruct Hs as [s evs s' Hi|b n d c sh req b' dropped Hp|b n d c sh req Hp|b n d c b' Hp|b n d c sh]; cbn in *.
  - destruct Hi; cbn in *; rewrite ?app_nil_r; try done.
    + unfold next_locked in H. destruct (items b) as [|r rest]; [by destruct (closed b)|]. simplify_eq/=. rewrite ?app_nil_r. split_and!; [done|lia|done].
    + unfold after_failure in H. destruct (S i <? attempts); simplify_eq; by rewrite app_nil_r.
  - unfold push_locked in Hp. destruct (closed b); [done|]. destruct (Nat.leb_spec (capacity b) (length (items b))) as [Hfull|Hfull]; simplify_eq; cbn.
    + destruct (items b) as [|r rest]; cbn in *; [lia|]. rewrite length_app. cbn. split_and!; [done|lia|done].
    + rewrite length_app. cbn. split_and!; [done|lia|done].
  - by rewrite app_nil_r.
  - unfold close_locked in Hp. destruct (closed b); [done|]. simplify_eq/=. by rewrite app_nil_r.
  - by rewrite app_nil_r.
Qed.

(** What one step adds to the record of the drain goroutine. *)
Lemma step_drained s evs s' : step s evs s' → drainer_ok (sDrain s) →
  drainer_ok (sDrain s') ∧
  ((pending (sDrain s) ++ drained evs = pending (sDrain s')) ∨ (handled (pending (sDrain s) ++ drained evs) ∧ pending (sDrain s') = [])) ∧
  (sCancelled s = true → sCancelled s' = true) ∧ (∀ r, Abandoned r ∈ evs → sCancelled s' = true) ∧
  (sDrain s = Stopped → sDrain s' = Stopped ∧ drained evs = []) ∧
  (sShutdown s = InnerDown → sShutdown s' = InnerDown ∧ InnerShutdown ∉ evs) ∧
  (sShutdown s' = InnerDown → sShutdown s = InnerDown ∨ (sDrain s = Stopped ∧ evs = [InnerShutdown])) ∧
  (InnerShutdown ∈ evs → sShutdown s' = InnerDown).
Proof.
  intros Hs Hok. destruct Hs as [s evs s' Hi|b n d c sh req b' dropped Hp|b n d c sh req Hp|b n d c b' Hp|b n d c sh]; cbn in *.
  - destruct Hi; cbn in *; rewrite ?app_nil_r.
    all: try by (split_and!; [done|by left|set_solver..]).
    + split_and!; [unfold attempts; lia|by left|set_solver..].
    + split_and!; [done|right; split; [by constructor|done]|set_solver..].
    + unfold after_failure in H. destruct (Nat.ltb_spec (S i) attempts) as [Hlt|Hge]; simplify_eq; cbn [drained omap list_omap].
      * split_and!; [cbn; lia|left; apply tried_S|set_solver..].
      * assert (S i = attempts) as Ei by (unfold attempts in *; lia). split_and!; [done| |set_solver..].
        right. split; [|done]. change (handled (tried req i ++ [Attempt req false] ++ [GaveUp req])). rewrite app_assoc, tried_S, Ei. constructor.
    + split_and!; [lia|by left|set_solver..].
    + split_and!; [done|right; split; [by constructor|done]|set_solver..].
  - assert (drained ((Full <$> option_list dropped) ++ [Accepted req]) = []) as -> by (by destruct dropped). rewrite app_nil_r.
    assert (∀ o, o ∈ (Full <$> option_list dropped) ++ [Accepted req] → (∃ r, o = Full r) ∨ o = Accepted req) as Ho by (destruct dropped; set_solver).
    split_and!; [done|by left|done|intros r Hr|done|intros ->; split; [done|intros Hr]|auto|intros Hr]; by destruct (Ho _ Hr) as [[? ?]|?].
  - rewrite app_nil_r. split_and!; [done|by left|set_solver..].
  - rewrite app_nil_r. split_and!; [done|by left|set_solver..].
  - rewrite app_nil_r. split_and!; [done|by left|set_solver..].
Qed.

Definition accounted (cap : Z) tr s : Prop :=
  accepted tr = left_front tr ++ items (sBuf s) ∧
  length (items (sBuf s)) <= capacity (sBuf s) ∧ capacity (sBuf s) = capacity (@NewMemoryOutputBuffer A cap) ∧
  (∃ blocks, Forall handled blocks ∧ drained tr = concat blocks ++ pending (sDrain s)) ∧
  (∀ r, Abandoned r ∈ tr → sCancelled s = true) ∧
  (InnerShutdown ∈ tr → sShutdown s = InnerDown ∧ sDrain s = Stopped) ∧
  ∀ pre post, tr = pre ++ InnerShutdown :: post → drained post = [] ∧ InnerShutdown ∉ post.

Lemma runs_accounted cap tr s : runs_to (started cap) tr s →
  accounted cap tr s ∧ drainer_ok (sDrain s) ∧ (sShutdown s = InnerDown → InnerShutdown ∈ tr).
Proof.
  assert (0 < capacity (@NewMemoryOutputBuffer A cap)) as Hcap by (cbn; destruct (Z.leb_spec cap 0); lia).
  induction 1 as [|tr s evs s' _ [(Hq & Hlen & Hc & (blocks & Hb & Hd) & Hab & Hin & Hpost) [Hok Hdown]] Hs].
  { split; [|done]. split_and!; [done|cbn; lia|done|by exists []|set_solver|set_solver|]. intros [|? ?] ? ?; done. }
  destruct (step_queue _ _ _ Hs) as (Hq' & Hlen' & Hc'); [done|lia|].
  destruct (step_drained _ _ _ Hs Hok) as (Hok' & Hblk & Hcan & Hab' & Hst & Hdn1 & Hdn2 & Hdn3).
  assert (InnerShutdown ∈ tr ++ evs → sShutdown s' = InnerDown ∧ sDrain s' = Stopped) as Hdown'.
  { intros [Hi|Hi]%elem_of_app; [destruct (Hin Hi) as [H1 H2]; split; [by apply Hdn1|by apply Hst]|]. pose proof (Hdn3 Hi) as H3. split; [done|].
    destruct (Hdn2 H3) as [H4|[H4 _]]; [by destruct (Hdn1 H4)|]. by apply Hst. }
  split; [split_and!|split].
  - rewrite accepted_app, left_front_app, Hq, <-!app_assoc. f_equal. done.
  - done.
  - by rewrite Hc'.
  - rewrite drained_app, Hd, <-app_assoc. destruct Hblk as [->|[Hh ->]]; [by exists blocks|].
    exists (blocks ++ [pending (sDrain s) ++ drained evs]). rewrite Forall_app, concat_app. cbn. rewrite !app_nil_r. split; [|done]. split; [done|]. by constructor.
  - intros r [Hr|Hr]%elem_of_app; eauto.
  - done.
  - intros pre post E. apply app_eq_app in E as (m & [[-> E]|[-> E]]).
    + destruct m as [|o m]; simplify_eq/=.
      * destruct (Hdn2 (Hdn3 ltac:(left))) as [H4|[_ E']]; [by destruct (Hdn1 H4) as [_ []]; left|]. simplify_eq. set_solver.
      * destruct (Hpost pre m eq_refl) as [H1 H2]. destruct (Hin ltac:(set_solver)) as [H3 H4]. destruct (Hdn1 H3) as [_ H5]. destruct (Hst H4) as [_ H6].
        rewrite drained_app, H1, H6. set_solver.
    + destruct (Hdn2 (Hdn3 ltac:(set_solver))) as [H4|[_ E']]; [destruct (Hdn1 H4) as [_ []]; set_solver|]. subst evs. destruct m as [|o m]; simplify_eq/=; [set_solver|]. by destruct m.
  - done.
  - intros Hd'. rewrite elem_of_app. destruct (Hdn2 Hd') as [?|[_ ->]]; [left; auto|right; by left].
Qed.

(** C16: Every message is accounted for. Whatever the publishers, the connector behind
    the buffer, the timers and the contexts do: the accepted requests leave the buffer
    at the front in the order in which they entered it, so a full buffer drops the
    oldest one; never more than the capacity are queued; the drain goroutine handles
    one request at a time in that order, each delivered by one of at most three calls,
    or given up and counted after exactly three failed calls, or abandoned between two
    calls after the context ended; and after the connector was shut down it is not
    called again. *)
Theorem buffered_messages_accounted cap tr s : runs_to (started cap) tr s → accounted cap tr s.
Proof. apply runs_accounted. Qed.

(** ** No lost wake-up *)

Definition awake s : Prop :=
  sDrain s = InSelect → items (sBuf s) ≠ [] ∨ closed (sBuf s) = true → signal (sBuf s) = true ∨ 0 < sNotifying s ∨ sShutdown s = Closing.

(** How many steps the goroutines can take before they wait for the surroundings. *)
Definition effort s : nat :=
  10 * length (items (sBuf s)) + 5 * sNotifying s + (if signal (sBuf s) then 4 else 0) +
  match sDrain s with
  | AtNext => 2
  | InSelect => 1
  | Forwarding _ i => 2 * (attempts - i) + 3
  | BackingOff _ i => 2 * (attempts - i) + 4
  | Stopped => 0
  end +
  match sShutdown s with NotCalled => 0 | Closing => 7 | Closed_ => 2 | AwaitingDrain => 1 | InnerDown => 0 end.

Lemma step_awake s evs s' : step s evs s' → awake s → awake s'.
Proof.
  unfold awake. intros Hs Ha. destruct Hs as [s evs s' Hi|b n d c sh req b' dropped Hp|b n d c sh req Hp|b n d c b' Hp|b n d c sh]; cbn in *; auto.
  - destruct Hi; cbn in *; try done; auto.
    + unfold next_locked in H. destruct (items b); [|done]. destruct (closed b); [done|]. by intros _ [|].
    + unfold after_failure in H. by destruct (S i <? attempts); simplify_eq.
    + intros H1 H2. destruct (Ha H1 H2) as [?|[?|?]]; auto. done.
  - intros. right. left. lia.
Qed.

Lemma internal_effort s evs s' : internal s evs s' → drainer_ok (sDrain s) → effort s' < effort s.
Proof.
  unfold effort. intros Hi Hok. destruct Hi; cbn -[Nat.mul] in *.
  - destruct (signal b); lia.
  - unfold next_locked in H. destruct (items b) as [|r rest]; [by destruct (closed b)|]. simplify_eq. cbn -[Nat.mul]. unfold attempts. lia.
  - lia.
  - lia.
  - rewrite H. lia.
  - lia.
  - lia.
  - unfold after_failure in H. destruct (Nat.ltb_spec (S i) attempts); simplify_eq; unfold attempts in *; lia.
  - lia.
  - lia.
  - destruct (signal b); lia.
  - lia.
  - lia.
Qed.

(** [n] steps of the connector's own goroutines. *)
Inductive internally s : nat → system A → Prop :=
  | internally_here : internally s 0 s
  | internally_step n s1 evs s2 : internally s n s1 → internal s1 evs s2 → internally s (S n) s2.

Lemma internally_bound s n s' : internally s n s' → drainer_ok (sDrain s) → awake s → n + effort s' <= effort s ∧ drainer_ok (sDrain s') ∧ awake s'.
Proof.
  induction 1 as [|n s1 evs s2 _ IH Hi]; intros Hok Ha; [done|]. destruct (IH Hok Ha) as (H1 & H2 & H3). pose proof (internal_effort _ _ _ Hi H2).
  split_and!; [lia|by apply (step_drained _ _ _ (step_internal _ _ _ Hi) H2)|by apply (step_awake _ _ _ (step_internal _ _ _ Hi))].
Qed.

(** Where nothing moves, there is nothing to do. *)
Lemma stuck_is_idle s : awake s → (∀ evs s', ¬ internal s evs s') →
  (sDrain s = Stopped ∧ sShutdown s ≠ AwaitingDrain) ∨
  (sDrain s = InSelect ∧ items (sBuf s) = [] ∧ closed (sBuf s) = false ∧ sCancelled s = false).
Proof.
  destruct s as [b n d c sh]. unfold awake. cbn. intros Ha Hno. destruct n as [|n]; [|by destruct (Hno _ _ (int_notify b n d c sh))].
  assert (sh ≠ Closing) as H1 by (intros ->; by apply (Hno _ _ (int_close_notify b 0 d c))).
  assert (sh ≠ Closed_) as H2 by (intros ->; by apply (Hno _ _ (int_cancel b 0 d c))).
  destruct d as [| |r i|r i|].
  - destruct (next_locked b) as [r b'| |] eqn:En; exfalso; [by eapply Hno, int_take|by eapply Hno, int_drained|by eapply Hno, int_wait].
  - right. destruct (signal b) eqn:Es; [by destruct (Hno _ _ (int_receive b 0 c sh Es))|]. destruct c; [by destruct (Hno _ _ (int_cancelled b 0 sh))|].
    specialize (Ha eq_refl). destruct (items b); [|exfalso; destruct Ha as [?|[?|?]]; [by left|done|lia|done]].
    destruct (closed b); [exfalso; destruct Ha as [?|[?|?]]; [by right|done|lia|done]|]. done.
  - by destruct (Hno _ _ (int_delivered b 0 c sh r i)).
  - by destruct (Hno _ _ (int_timer b 0 c sh r i)).
  - left. split; [done|]. intros ->. by apply (Hno _ _ (int_inner_down b 0 c)).
Qed.

(** C30: The drain goroutine never misses a wake-up. From every state that the connector
    can reach, its goroutines take at most [effort] steps before they wait for the
    surroundings, and they wait only when the buffer is empty, open and no context has
    ended, or when the drain goroutine has returned: as long as it has not, whatever was
    queued has been handed to the connector, and a Shutdown never waits for ever. *)
Theorem drain_never_stalls cap tr s n s' : runs_to (started cap) tr s → internally s n s' →
  n <= effort s ∧
  ((∀ evs s2, ¬ internal s' evs s2) →
   (sDrain s' = Stopped ∧ sShutdown s' ≠ AwaitingDrain) ∨
   (sDrain s' = InSelect ∧ items (sBuf s') = [] ∧ closed (sBuf s') = false ∧ sCancelled s' = false)).
Proof.
  intros Hr Hi. assert (awake s) as Ha by (clear Hi; induction Hr; [by unfold awake|by eapply step_awake]).
  destruct (internally_bound _ _ _ Hi) as (Hb & _ & Ha'); [by apply (runs_accounted cap tr s)|done|]. split; [lia|]. by apply stuck_is_idle.
Qed.

End Accounting.

(** A buffer of one place: the second request drops the first. *)
Definition one_place (queued : list string) (n : nat) (d : drainer string) : system string := mkSystem (mkBuffer queued 1 false false) n d false NotCalled.

Lemma one_place_push x : runs_to (started 1) [Accepted x] (one_place [x] 1 AtNext).
Proof. apply (runs_step _ [] (started 1) [Accepted x]); [constructor|]. by apply (step_push _ _ _ _ _ x _ None). Qed.

Lemma buffered_messages_accounted_witness :
  let tr := [Accepted "a"; Full "a"; Accepted "b"; Taken "b"] in
  runs_to (started 1) tr (one_place [] 2 (Forwarding "b" 0)) ∧ accounted 1 tr (one_place [] 2 (Forwarding "b" 0)).
Proof.
  assert (runs_to (started 1) [Accepted "a"; Full "a"; Accepted "b"; Taken "b"] (one_place [] 2 (Forwarding "b" 0))) as Hs.
  { apply (runs_step _ [Accepted "a"; Full "a"; Accepted "b"] (one_place ["b"] 2 AtNext) [Taken "b"]); [|by apply step_internal, int_take].
    apply (runs_step _ [Accepted "a"] (one_place ["a"] 1 AtNext) [Full "a"; Accepted "b"]); [apply one_place_push|].
    by apply (step_push _ _ _ _ _ "b" _ (Some "a")). }
  split; [exact Hs|]. exact (buffered_messages_accounted 1 _ _ Hs).
Defined.

Lemma drain_never_stalls_witness : internally (one_place ["a"] 1 AtNext) 2 (one_place [] 1 AtNext) ∧ 2 <= effort (one_place ["a"] 1 AtNext).
Proof.
  assert (internally (one_place ["a"] 1 AtNext) 2 (one_place [] 1 AtNext)) as Hi.
  { apply (internally_step _ 1 (one_place [] 1 (Forwarding "a" 0)) [Attempt "a" true]); [|apply int_delivered].
    apply (internally_step _ 0 (one_place ["a"] 1 AtNext) [Taken "a"]); [constructor|by apply int_take]. }
  split; [exact Hi|]. exact (proj1 (drain_never_stalls 1 _ _ 2 _ (one_place_push "a") Hi)).
Defined.
