(* ===== verification/KafkaHono.v ===== *)
(** * The Kafka connector for Eclipse Hono

    internal/connector/kafka_hono.go: its configuration, the record it publishes for a
    request, and the category it derives from the topic. The Kafka client is outside:
    creating a producer and publishing a record may fail. uuid.Parse is an argument. *)
From S2P Require Import Prelude GoStrings Acl Topics Router Session Auth HookAcl HookAuth Fanout RateLimit Hooks Publish.

Record KafkaHonoConfig := mkKafkaHonoConfig {
  Brokers : list string;
  SASLUsername : string;
  SASLPassword : string;
  TopicPrefix : string;
  ClientID : string;
  Enabled : bool;
}.

(** [khProducer]: a producer exists. *)
Record KafkaHonoConnector := mkKafkaHono {
  khProducer : bool;
  khConfig : KafkaHonoConfig;
}.

(** connector.ForwardRequest as far as this connector reads it. *)
Record honoRequest := mkHonoRequest {
  hrTopic : string;
  hrPayload : string;
  hrDeviceId : string;
  hrTenantId : string;
  hrHeaders : gmap string string;
}.

(** The arguments of PublishRawWithHeaders. *)
Record kafkaRecord := mkKafkaRecord {
  krTopic : string;
  krKey : string;
  krValue : string;
  krHeaders : gmap string string;
}.

Inductive honoError := MissingBrokers | CreateProducer | ProducerNotInitialized.

(** Init; [newProducer] answers redpanda.NewProducer. *)
Definition Init (config : gmap string string) (newProducer : KafkaHonoConfig → bool) (c : KafkaHonoConnector) :
    KafkaHonoConnector * option honoError :=
  let get k := default "" (config !! k) in
  let prefix := if String.eqb (get "topic_prefix") "" then "hono" else get "topic_prefix" in
  let client := if String.eqb (get "client_id") "" then "keel-mqtt-gateway-kafka-hono" else get "client_id" in
  let cfg brokers := mkKafkaHonoConfig brokers (get "sasl_username") (get "sasl_password") prefix client (String.eqb (get "enabled") "true") in
  if negb (String.eqb (get "enabled") "true") then (mkKafkaHono (khProducer c) (cfg []), None)
  else if String.eqb (get "brokers") "" then (mkKafkaHono (khProducer c) (cfg []), Some MissingBrokers)
  else
    let brokers := List.filter (λ b, negb (String.eqb b "")) (map TrimSpace (split "," (get "brokers"))) in
    if newProducer (cfg brokers) then (mkKafkaHono true (cfg brokers), None)
    else (mkKafkaHono (khProducer c) (cfg brokers), Some CreateProducer).

Section Topic.
  Context (uuidParse : string → option string).

Definition stripViaPrefix (topic : string) : string :=
  if negb (has_prefix "via/" topic) then topic
  else
    match cut "/" (drop_bytes 4 topic) with
    | None => topic
    | Some (id, inner) => match uuidParse id with None => topic | Some _ => inner end
    end.

Definition categoryFromTopic (topic : string) : string :=
  match splitN "/" (stripViaPrefix topic) 2 with
  | first :: _ =>
      if String.eqb first "telemetry" || String.eqb first "t" then "telemetry"
      else if String.eqb first "event" || String.eqb first "e" then "event"
      else ""
  | [] => ""
  end.

(** Forward: the response (Success) and the record it published, if any; [publish] is
    the outcome of the producer. *)
Definition Forward (publish : kafkaRecord → bool) (req : honoRequest) (c : KafkaHonoConnector) : bool * option kafkaRecord :=
  if negb (Enabled (khConfig c)) || negb (khProducer c) then (true, None)
  else
    let category := categoryFromTopic (hrTopic req) in
    if String.eqb category "" then (false, None)
    else
      let headers : gmap string string := <["device_id" := hrDeviceId req]> {["tenant_id" := hrTenantId req]} in
      let headers := match hrHeaders req !! "content-type" with Some ct => <["content-type" := ct]> headers | None => headers end in
      let r := mkKafkaRecord (TopicPrefix (khConfig c) +:+ "." +:+ category +:+ "." +:+ hrTenantId req) (hrDeviceId req) (hrPayload req) headers in
      (publish r, Some r).
End Topic.

Definition HealthCheck (c : KafkaHonoConnector) : option honoError :=
  if negb (Enabled (khConfig c)) then None else if negb (khProducer c) then Some ProducerNotInitialized else None.

Definition Shutdown (c : KafkaHonoConnector) : KafkaHonoConnector := mkKafkaHono false (khConfig c).

(** The request that the publish path hands to a connector. *)
Definition hono_request (out : outputRequest) : honoRequest :=
  mkHonoRequest (orTopic out) (orPayload out) (orDeviceId out) (orTenantId out) {["content-type" := "application/json"]}.

(** ** Specification *)

(** The device-side taxonomy: a topic below one of the words of a category. *)
Definition kind (t cat : string) : Prop :=
  ∃ w, (t = w ∨ ∃ rest, t = w +:+ "/" +:+ rest) ∧ ((cat = "telemetry" ∧ w ∈ ["telemetry"; "t"]) ∨ (cat = "event" ∧ w ∈ ["event"; "e"])).

(** [topic] is [t], or [t] on behalf of a sub-device. *)
Definition wraps (uuidParse : string → option string) (topic t : string) : Prop :=
  topic = t ∨ ∃ u, contains_byte "/" u = false ∧ is_Some (uuidParse u) ∧ topic = "via/" +:+ u +:+ "/" +:+ t.

Lemma first_part t : ∃ w, splitN "/" t 2 = w :: tail (splitN "/" t 2) ∧ contains_byte "/" w = false ∧ (t = w ∨ ∃ rest, t = w +:+ "/" +:+ rest).
Proof.
  cbn. destruct (cut "/" t) as [[l r]|] eqn:E.
  - apply cut_Some in E as [-> Hl]. exists l. split_and!; [done|done|]. right. by exists r.
  - exists t. split_and!; [done|by apply cut_None|by left].
Qed.

Lemma first_part_of w t : contains_byte "/" w = false → (t = w ∨ ∃ rest, t = w +:+ "/" +:+ rest) → head (splitN "/" t 2) = Some w.
Proof.
  intros Hw [->|[rest ->]]; cbn.
  - by rewrite (proj2 (cut_None "/" w) Hw).
  - change ("/" +:+ rest) with (String "/" rest). by rewrite cut_app.
Qed.

Lemma strip_cases uuidParse topic : wraps uuidParse topic (stripViaPrefix uuidParse topic).
Proof.
  unfold stripViaPrefix, wraps. destruct (has_prefix "via/" topic) eqn:E; [|by left]. cbn [negb].
  apply has_prefix_true in E as [rest ->]. change 4 with (String.length "via/"). rewrite drop_bytes_app.
  destruct (cut "/" rest) as [[id inner]|] eqn:Ec; [|by left]. apply cut_Some in Ec as [-> Hid].
  destruct (uuidParse id) eqn:Eu; [|by left]. right. exists id. split_and!; [done|by rewrite Eu|done].
Qed.

Lemma category_kind uuidParse topic : (categoryFromTopic uuidParse topic = "" ∧ ∀ cat, ¬ kind (stripViaPrefix uuidParse topic) cat) ∨
  (categoryFromTopic uuidParse topic ≠ "" ∧ kind (stripViaPrefix uuidParse topic) (categoryFromTopic uuidParse topic)).
Proof.
  unfold categoryFromTopic. destruct (first_part (stripViaPrefix uuidParse topic)) as (w & E & Hw & Ht). rewrite E.
  assert (∀ w', contains_byte "/" w' = false → (stripViaPrefix uuidParse topic = w' ∨ ∃ rest, stripViaPrefix uuidParse topic = w' +:+ "/" +:+ rest) → w' = w) as Hu.
  { intros w' Hw' Ht'. pose proof (first_part_of _ _ Hw Ht) as H1. rewrite (first_part_of _ _ Hw' Ht') in H1. by injection H1. }
  destruct (String.eqb_spec w "telemetry"), (String.eqb_spec w "t"), (String.eqb_spec w "event"), (String.eqb_spec w "e"); cbn [orb]; try congruence.
  1-4: right; split; [done|]; exists w; split; [done|]; set_solver.
  left. split; [done|]. intros cat (w' & Ht' & Hc). assert (contains_byte "/" w' = false) as Hw' by (destruct Hc as [[_ H]|[_ H]]; set_solver).
  rewrite (Hu w' Hw' Ht') in Hc. set_solver.
Qed.

Definition status_topics : list string := ["status/heartbeat"; "status/ota"; "status/ca"].

Lemma publishable_kind uuidParse info t : publishable uuidParse info t →
  (∃ cat, kind t cat ∧ stripViaPrefix uuidParse t = t) ∨ (t ∈ status_topics ∧ stripViaPrefix uuidParse t = t) ∨
  ∃ u r, t = "via/" +:+ u +:+ "/" +:+ r ∧ stripViaPrefix uuidParse t = r ∧ publishable uuidParse info r.
Proof.
  assert (∀ w r, has_prefix "via/" (w +:+ r) = false → stripViaPrefix uuidParse (w +:+ r) = w +:+ r) as Hs by (intros w r E; unfold stripViaPrefix; by rewrite E).
  intros [t' Ht|p r Hp _|p r Hp _ _|u r Hu Hsl Hp Hr].
  - rewrite !elem_of_cons, elem_of_nil in Ht. destruct Ht as [->|[->|[->|[->|Ht]]]].
    1-2: left; exists "telemetry"; split; [eexists; split; [by left|]; left; set_solver|done].
    1-2: left; exists "event"; split; [eexists; split; [by left|]; right; set_solver|done].
    right; left. split; [unfold status_topics; set_solver|]. by destruct Ht as [->|[->|[->|[]]]].
  - left. rewrite !elem_of_cons, elem_of_nil in Hp. destruct Hp as [->|[->|[]]].
    + exists "telemetry". split; [|by apply Hs]. exists "t". split; [right; by exists r|]. left. set_solver.
    + exists "event". split; [|by apply Hs]. exists "e". split; [right; by exists r|]. right. set_solver.
  - left. rewrite !elem_of_cons, elem_of_nil in Hp. destruct Hp as [->|[->|[]]].
    + exists "telemetry". split; [|by apply Hs]. exists "telemetry". split; [right; by exists r|]. left. set_solver.
    + exists "event". split; [|by apply Hs]. exists "event". split; [right; by exists r|]. right. set_solver.
  - right; right. exists u, r. split_and!; [done| |done]. unfold stripViaPrefix. rewrite has_prefix_app. cbn [negb].
    change 4 with (String.length "via/"). rewrite drop_bytes_app. change ("/" +:+ r) with (String "/" r). rewrite cut_app by done. by destruct Hp as [? ->].
Qed.

(** What a device may publish reaches Kafka under its own tenant and identity. For a
    publish that access control admits on a topic of the taxonomy, directly or on behalf
    of one sub-device, an initialised connector publishes exactly one record: on the
    category's topic of the publishing device's tenant, keyed by that device and carrying
    its IDs in the headers. The admitted topics that produce no record, and for which the
    connector reports a failure, are the status topics and those with a further
    delegation inside the first. *)
Theorem hono_forwarding_spec uuidParse publish c cfg info pk out : Enabled (khConfig c) = true → khProducer c = true →
  isAllowedPublish uuidParse (pkTopicName pk) info = true → out ∈ forwardToOutputConnector cfg info pk →
  (∃ t cat, wraps uuidParse (pkTopicName pk) t ∧ kind t cat ∧
    let r := mkKafkaRecord (TopicPrefix (khConfig c) +:+ "." +:+ cat +:+ "." +:+ TenantID info) (ID info) (pkPayload pk)
               (<["content-type" := "application/json"]> (<["device_id" := ID info]> {["tenant_id" := TenantID info]})) in
    Forward uuidParse publish (hono_request out) c = (publish r, Some r)) ∨
  (Forward uuidParse publish (hono_request out) c = (false, None) ∧
   ∃ t, wraps uuidParse (pkTopicName pk) t ∧ (t ∈ status_topics ∨ ∃ u r, t = "via/" +:+ u +:+ "/" +:+ r)).
Proof.
  intros He Hp Ha Hout. apply elem_of_replicate in Hout as [-> _]. unfold Forward. rewrite He, Hp. cbn [negb orb hono_request hrTopic orTopic].
  apply allowed_publish_spec in Ha; [|lia]. pose proof (strip_cases uuidParse (pkTopicName pk)) as Hw.
  destruct (category_kind uuidParse (pkTopicName pk)) as [[E Hno]|[E Hk]].
  - right. rewrite E. split; [done|]. exists (stripViaPrefix uuidParse (pkTopicName pk)). split; [done|].
    destruct (publishable_kind _ _ _ Ha) as [(cat & Hk & Es)|[[Hs Es]|(u & r & Et & Es & Hr)]]; rewrite Es in Hno |- *; [by destruct (Hno cat)|by left|].
    destruct (publishable_kind _ _ _ Hr) as [(cat & Hk & _)|[[Hs _]|(u' & r' & -> & _)]]; [by destruct (Hno cat)|by left|right; by exists u', r'].
  - left. apply String.eqb_neq in E. exists (stripViaPrefix uuidParse (pkTopicName pk)), (categoryFromTopic uuidParse (pkTopicName pk)).
    split_and!; [done|done|]. by rewrite E.
Qed.

Definition example_device : DeviceInfo := mkDeviceInfo "d1" "t1" "slug" None "nofleet" "d1".
Definition example_connector : KafkaHonoConnector := mkKafkaHono true (mkKafkaHonoConfig ["k:9092"] "" "" "hono" "gw" true).
Definition example_publish : publishPacket := mkPublishPacket "telemetry/temp" "21" 1 None.
Definition example_wiring : publishConfig := mkPublishConfig None false false "n1" 1 false false.

Lemma hono_forwarding_spec_witness :
  let out := mkOutputRequest "telemetry/temp" "21" "d1" "t1" "slug" "nofleet" in
  Forward (λ _, None) (λ _, true) (hono_request out) example_connector ≠ (false, None).
Proof.
  intros out. assert (out ∈ forwardToOutputConnector example_wiring example_device example_publish) as Hout by (apply elem_of_replicate; by split).
  destruct (hono_forwarding_spec (λ _, None) (λ _, true) example_connector example_wiring example_device example_publish out eq_refl eq_refl
    ltac:(vm_compute; reflexivity) Hout) as [(t & cat & _ & _ & ->)|[E _]]; [done|]. by vm_compute in E.
Defined.
