(* ===== verification/Keepalive.v ===== *)
(** * The keep-alive of a connection

    From the variable MAX_KEEPALIVE to the read deadline of a socket: the hook that
    internal/broker/broker.go registers for a configuration, its effect on a connecting
    client, and the deadline that the broker sets from the negotiated interval
    (ParseConnect and refreshDeadline of thirdparty/mochi-mqtt-server/clients.go). *)
From Stdlib Require Import SpecFloat.
From S2P Require Import Prelude GoStrings Decimal Float64 GoNumbers FloatRound Config RateLimit.

(** uint16(x) for a float64 that fits *)
Definition to_uint16 (x : float64) : N := match to_int x with Some z => Z.to_N (z mod 65536) | None => 0%N end.

(** New: the ceiling in seconds of the hook, [None] when it is not registered. *)
Definition keepalive_hook (c : Config) : option N :=
  if (0 <? MaxKeepAlive c)%Z then
    let maxSeconds := Seconds (MaxKeepAlive c) in
    let maxSeconds := if fltb (of_int 65535) maxSeconds then of_int 65535 else maxSeconds in
    Some (to_uint16 maxSeconds)
  else None.

(** ParseConnect, then the hooks. *)
Definition negotiate (c : Config) (protocolVersion requested : N) : keepaliveState :=
  let s := mkKeepaliveState requested false in
  match keepalive_hook c with
  | None => s
  | Some maxSeconds => OnConnect maxSeconds protocolVersion requested s
  end.

(** refreshDeadline: the seconds until the deadline, [None] when there is none. The sum
    is computed in sixteen bits. *)
Definition refreshDeadline (keepalive : N) : option N :=
  if (0 <? keepalive)%N then Some ((keepalive + keepalive / 2) mod 65536)%N else None.

Lemma hook_seconds c : wf_config c → keepalive_hook c = if (0 <? MaxKeepAlive c)%Z then Some (Z.to_N (MaxKeepAlive c / Second)) else None.
Proof.
  intros (_ & (_ & Hk & _) & _). unfold keepalive_hook. destruct (Z.ltb_spec 0 (MaxKeepAlive c)); [|done].
  destruct (seconds_spec (MaxKeepAlive c)) as [E1 E2]; [unfold Second in *; lia|]. rewrite E1. destruct (Z.ltb_spec (65535 * Second) (MaxKeepAlive c)); [lia|].
  unfold to_uint16. rewrite E2 by done. rewrite Z.mod_small; [done|].
  split; [apply Z.div_pos; unfold Second; lia|apply Z.div_lt_upper_bound; unfold Second in *; lia].
Qed.

Lemma deadline_small k : (0 < k <= 43690)%N → refreshDeadline k = Some (k + k / 2)%N.
Proof. intros Hk. unfold refreshDeadline. destruct (N.ltb_spec 0 k); [|lia]. rewrite N.mod_small; [done|]. pose proof (N.div_mod k 2 ltac:(done)) as E.
  revert E. generalize (k / 2)%N (k mod 2)%N. lia. Qed.

(** C20: The ceiling is enforced as configured. With a configuration that Load accepts and
    a ceiling of at least one second, every MQTT 5 client ends up with an interval between
    one second and the ceiling rounded down to seconds: its own one if that is within
    the bounds, otherwise the ceiling, which the server announces. Clients of other
    versions, and all clients without a ceiling, keep what they asked for. The socket is
    closed after one and a half times the interval as long as that fits in sixteen bits,
    that is, for intervals up to 43690 seconds; longer ones wrap around and end before the
    interval itself. A positive ceiling below one second is rounded to zero and turns
    the keep-alive of every MQTT 5 client off. *)
Theorem keepalive_ceiling_enforced env c version requested : Load env = inr c → (requested < 65536)%N →
  let s := negotiate c version requested in
  let ceiling := Z.to_N (MaxKeepAlive c / Second) in
  (MaxKeepAlive c = 0%Z ∨ version ≠ 5%N → s = mkKeepaliveState requested false) ∧
  ((Second <= MaxKeepAlive c)%Z → version = 5%N →
     (1 <= Keepalive s <= ceiling)%N ∧ (ceiling <= 65535)%N ∧
     if decide (1 <= requested <= ceiling)%N then s = mkKeepaliveState requested false else s = mkKeepaliveState ceiling true) ∧
  ((0 < MaxKeepAlive c < Second)%Z → version = 5%N → s = mkKeepaliveState 0 true ∧ refreshDeadline (Keepalive s) = None) ∧
  ((0 < Keepalive s <= 43690)%N → refreshDeadline (Keepalive s) = Some (Keepalive s + Keepalive s / 2)%N) ∧
  ((43690 < Keepalive s)%N → ∃ d, refreshDeadline (Keepalive s) = Some d ∧ (d < Keepalive s)%N).
Proof.
  intros HL Hreq s ceiling. pose proof (loaded_config_wf env c HL) as Hwf. pose proof (hook_seconds c Hwf) as Hh. destruct Hwf as (_ & (_ & Hk & _) & _).
  assert (ceiling <= 65535)%N as Hc. { unfold ceiling. assert (MaxKeepAlive c / Second <= 65535)%Z by (apply Z.div_le_upper_bound; unfold Second in *; lia). lia. }
  assert (Keepalive s < 65536)%N as Hks.
  { unfold s, negotiate. rewrite Hh. destruct (0 <? MaxKeepAlive c)%Z; [|done]. fold ceiling. unfold OnConnect. destruct (negb _); [done|]. destruct (_ && _); cbn; lia. }
  split_and!.
  - unfold s, negotiate. rewrite Hh. intros [->|Hv]; [done|]. destruct (0 <? MaxKeepAlive c)%Z; [|done]. unfold OnConnect. by rewrite (proj2 (N.eqb_neq version 5) Hv).
  - intros Hs ->. assert (1 <= ceiling)%N as H1. { unfold ceiling. assert (1 <= MaxKeepAlive c / Second)%Z by (apply Z.div_le_lower_bound; unfold Second in *; lia). lia. }
    unfold s, negotiate. rewrite Hh. destruct (Z.ltb_spec 0 (MaxKeepAlive c)); [|unfold Second in *; lia]. fold ceiling. unfold OnConnect. cbn [N.eqb negb].
    change (5 =? 5)%N with true. cbn [negb]. destruct (N.eqb_spec requested 0), (N.leb_spec requested ceiling); cbn [negb andb Keepalive]; destruct (decide _); cbn; split_and!; try done; lia.
  - intros Hs ->. assert (ceiling = 0%N) as H0 by (unfold ceiling; rewrite Z.div_small by lia; done).
    unfold s, negotiate. rewrite Hh. destruct (Z.ltb_spec 0 (MaxKeepAlive c)); [|lia]. fold ceiling. rewrite H0. unfold OnConnect.
    destruct (N.eqb_spec requested 0), (N.leb_spec requested 0); cbn; try done; lia.
  - apply deadline_small.
  - intros Hbig. unfold refreshDeadline. destruct (N.ltb_spec 0 (Keepalive s)); [|lia]. eexists. split; [done|].
    pose proof (N.div_mod (Keepalive s) 2 ltac:(done)) as E1. pose proof (N.mod_lt (Keepalive s) 2 ltac:(done)) as E2.
    revert E1 E2. generalize (Keepalive s / 2)%N (Keepalive s mod 2)%N. intros h r E1 E2.
    assert (65536 <= Keepalive s + h < 2 * 65536)%N as Hr by lia.
    rewrite <-(N.mod_unique (Keepalive s + h) 65536 1 (Keepalive s + h - 65536)); lia.
Qed.

Lemma keepalive_ceiling_enforced_witness : ∃ c, Load sample_env = inr c ∧ negotiate c 5 0 = mkKeepaliveState 5400 true ∧ refreshDeadline 5400 = Some 8100%N.
Proof.
  destruct (Load sample_env) as [e|c] eqn:E; [vm_compute in E; discriminate E|]. exists c. split; [reflexivity|].
  assert (MaxKeepAlive c = (5400 * Second)%Z) as Hm by (vm_compute in E; injection E as <-; reflexivity).
  destruct (keepalive_ceiling_enforced sample_env c 5 0 E eq_refl) as (_ & H & _ & Hd & _). rewrite Hm in H.
  destruct (H ltac:(unfold Second; lia) eq_refl) as (_ & _ & Hs). change (Z.to_N (5400 * Second / Second)) with 5400%N in Hs.
  destruct (decide (1 <= 0 <= 5400)%N) as [Hdec|_]; [exfalso; lia|]. rewrite Hs in *. split; [reflexivity|]. apply Hd. cbn. lia.
Defined.
