(* ===== verification/Dashboard.v ===== *)
(** The monitoring views: an edge's list of connected clients
    (internal/livestatsapi/handlers.go), its aggregation over the cluster
    (internal/cluster/management/live_metrics.go) and the session inventory
    (internal/cluster/management/session_inventory.go).

    A request is its decoded query, a map from parameter to value. What an edge
    answers to a GET, decoded, is an argument ([None] when the call or the decoding
    fails). A Go map is a list of its entries with distinct keys, in the order in
    which the run iterates over it. strings.ToLower is an argument: its Unicode
    tables do not matter here. *)
From stdpp Require Import gmap list strings sorting.
From S2P Require Import Prelude GoStrings GoSort Decimal GoNumbers Float64 Topics Storage Router Session.

Open Scope Z_scope.

(** strings.Contains *)
Fixpoint Contains (s needle : string) : bool :=
  has_prefix needle s || match s with "" => false | String _ s' => Contains s' needle end.

Abbreviation query := (gmap string string).
Definition Get (q : query) (k : string) : string := default "" (q !! k).
Definition Has (q : query) (k : string) : bool := match q !! k with Some _ => true | None => false end.

(** ** An edge's own views *)

Record ClientView := mkClientView {
  cvClientID : string;
  cvUsername : string;
  cvRemoteAddr : string;
  cvCleanSession : bool;
  cvSubscriptions : list string;
}.

Record ClientPage := mkClientPage { cpItems : list ClientView; cpPage : Z; cpPageSize : Z; cpTotal : Z }.

Inductive clientsReply :=
  | AllClients (l : list ClientView)
  | OnePage (p : ClientPage)
  | BadQuery.

Definition hasClientQuery (q : query) : bool := Has q "page" || Has q "page_size" || Has q "search" || Has q "sort".

(** A number between 1 and [max], with its default when the parameter is empty. *)
Definition page_number (raw : string) (default max : Z) : option Z :=
  if String.eqb raw "" then Some default
  else match Atoi raw with
       | Some n => if (n <? 1) || (n >? max) then None else Some n
       | None => None
       end.

Definition sort_field (sortBy : string) : bool := existsb (String.eqb sortBy) [""; "client_id"; "username"; "remote_addr"]%string.

Definition parseClientQuery (q : query) : option (Z * Z * string * string) :=
  page ← page_number (Get q "page") 1 100;
  pageSize ← page_number (Get q "page_size") 50 1000;
  let search := TrimSpace (Get q "search") in
  if 128 <? Z.of_nat (String.length search) then None
  else if sort_field (Get q "sort") then Some (page, pageSize, search, Get q "sort") else None.

Definition clientSortValue (sortBy : string) (c : ClientView) : string :=
  if String.eqb sortBy "username" then cvUsername c
  else if String.eqb sortBy "remote_addr" then cvRemoteAddr c
  else cvClientID c.

Definition client_less (sortBy : string) : ClientView → ClientView → bool :=
  then_by (clientSortValue sortBy) (by_key cvClientID).

Definition sortClientViews (clients : list ClientView) (sortBy : string) : list ClientView :=
  SliceStable (client_less sortBy) clients.

Section Views.
  Context (ToLower : string → string).

Definition filterClients (clients : list ClientView) (search : string) : list ClientView :=
  if String.eqb search "" then clients
  else List.filter (λ c, Contains (ToLower (cvClientID c)) (ToLower search) ||
                         Contains (ToLower (cvUsername c)) (ToLower search) ||
                         Contains (ToLower (cvRemoteAddr c)) (ToLower search)) clients.

Definition handleClients (clients : list ClientView) (q : query) : clientsReply :=
  if negb (hasClientQuery q) then AllClients clients
  else match parseClientQuery q with
       | None => BadQuery
       | Some (page, pageSize, search, sortBy) =>
           let filtered := sortClientViews (filterClients clients search) sortBy in
           OnePage (mkClientPage (slice_page page pageSize filtered) page pageSize (Z.of_nat (length filtered)))
       end.

(** ** The cluster's views *)

(** What each edge answered, and the edges that did not. *)
Definition fetchAll {X} (get : string → string → option X) (edges : list (string * string)) : list (string * X) * list string :=
  (omap (λ '(nodeID, addr), (nodeID,.) <$> get nodeID addr) edges,
   fst <$> List.filter (λ '(nodeID, addr), match get nodeID addr with None => true | Some _ => false end) edges).

Record clusterClientView := mkClusterClientView { ccClient : ClientView; ccNodeID : string }.

(** Without paging: every client of every edge that answered. *)
Definition handleLiveClients (get : string → string → option (list ClientView)) (edges : list (string * string)) :
    list clusterClientView :=
  fold_left (λ out '(nodeID, clients), out ++ ((λ c, mkClusterClientView c nodeID) <$> clients)) (fetchAll get edges).1 [].

Record pagedClusterClients := mkPaged {
  pgItems : list clusterClientView;
  pgPage : Z;
  pgPageSize : Z;
  pgTotal : Z;
  pgUnreachable : list string;
}.

Definition hasClientPageQuery (q : query) : bool := hasClientQuery q || Has q "node_id".

Definition cluster_less (sortBy : string) : clusterClientView → clusterClientView → bool :=
  then_by (λ c, clientSortValue sortBy (ccClient c)) (then_by ccNodeID (by_key (λ c, cvClientID (ccClient c)))).

(** The query sent to each edge. *)
Definition upstream (count : Z) (search sortBy : string) : query :=
  let q := <["page" := "1"]> (<["page_size" := Itoa count]> ∅) in
  let q := if String.eqb search "" then q else <["search" := search]> q in
  if String.eqb sortBy "" then q else <["sort" := sortBy]> q.

(** From the query to the edges to the merged page. *)
Definition mergedPage (get : query → string → string → option ClientPage) (requestedEdges : list (string * string))
    (page pageSize : Z) (search sortBy : string) : pagedClusterClients :=
  let '(results, unreachable) := fetchAll (get (upstream (page * pageSize) search sortBy)) requestedEdges in
  let '(items, total) := fold_left (λ '(items, total) '(nodeID, p),
      (items ++ ((λ c, mkClusterClientView c nodeID) <$> cpItems p), total + cpTotal p)) results ([], 0) in
  mkPaged (slice_page page pageSize (SliceStable (cluster_less sortBy) items)) page pageSize total unreachable.

(** [None] is a refusal with status 400. *)
Definition handlePagedLiveClients (get : query → string → string → option ClientPage)
    (edges : list (string * string)) (q : query) : option pagedClusterClients :=
  page ← page_number (Get q "page") 1 100;
  pageSize ← page_number (Get q "page_size") 50 100;
  let search := Get q "search" in
  let sortBy := Get q "sort" in
  if page * pageSize >? 1000 then None
  else if 128 <? Z.of_nat (String.length search) then None
  else if negb (sort_field sortBy) then None
  else
    let nodeID := Get q "node_id" in
    let requested :=
      if String.eqb nodeID "" then Some edges
      else (λ addr, [(nodeID, addr)]) <$> (list_to_map edges : gmap string string) !! nodeID in
    match requested with
    | None => Some (mkPaged [] page pageSize 0 [])
    | Some requestedEdges => Some (mergedPage get requestedEdges page pageSize search sortBy)
    end.

(** ** Session inventory *)

Record sessionInventoryItem := mkItem {
  itClientID : string;
  itStatus : string;
  itNodeID : string;
  itUsername : string;
  itRemoteAddr : string;
  itCleanSession : bool;
  itSubscriptions : list string;
  itLastSeenAt : option Z;
  itOfflineForSeconds : option Z;
}.

Definition parseInventoryPage (rawPage rawPageSize : string) : option (Z * Z) :=
  page ← page_number rawPage 1 1000;
  pageSize ← page_number rawPageSize 50 100;
  if page * pageSize >? 10000 then None else Some (page, pageSize).

Definition inventoryMatches (item : sessionInventoryItem) (search : string) : bool :=
  if String.eqb search "" then true
  else
    let needle := ToLower search in
    Contains (ToLower (itClientID item)) needle || Contains (ToLower (itUsername item)) needle ||
    Contains (ToLower (itRemoteAddr item)) needle || existsb (λ sub, Contains (ToLower sub) needle) (itSubscriptions item).

Definition online_item (nodeID : string) (c : ClientView) : sessionInventoryItem :=
  mkItem (cvClientID c) "online" nodeID (cvUsername c) (cvRemoteAddr c) (cvCleanSession c) (cvSubscriptions c) None None.

(** liveByID: the first edge that reports a client has it. *)
Definition live_by_id (results : list (string * list ClientView)) : gmap string sessionInventoryItem :=
  fold_left (λ live '(nodeID, clients),
    fold_left (λ live c, match live !! cvClientID c with
                         | Some _ => live
                         | None => <[cvClientID c := online_item nodeID c]> live
                         end) clients live) results ∅.

(** int64(time.Since(lastSeenAt).Seconds()), not below 0; a difference of times
    stops at the ends of a Duration. *)
Definition offline_for (now lastSeenAt : Z) : Z :=
  let d := Z.max (- 2 ^ 63) (Z.min (2 ^ 63 - 1) (now - lastSeenAt)) in
  Z.max 0 (default 0 (to_int (Seconds d))).

Definition offline_item (now : Z) (p : OfflineSession) : sessionInventoryItem :=
  mkItem (sessClientID p) "offline" "" "" "" false (subFilter <$> sessSubscriptions p)
    (sessLastSeenAt p) (offline_for now <$> sessLastSeenAt p).

(** [offline] is [None] without the callback, [Some None] before the first
    refresh of its cache; [claims] is empty without a Raft node. *)
Definition collectSessionInventory (now : Z) (results : list (string * list ClientView)) (status search : string)
    (offline : option (option (list OfflineSession))) (claims : gmap string string) : list sessionInventoryItem :=
  let live := if String.eqb status "all" || String.eqb status "online" then live_by_id results else ∅ in
  let items := List.filter (λ it, inventoryMatches it search) (snd <$> map_to_list live) in
  if String.eqb status "online" then items
  else match offline with
       | None | Some None => items
       | Some (Some persisted) =>
           fold_left (λ items p,
             match claims !! sessClientID p, live !! sessClientID p with
             | None, None =>
                 let item := offline_item now p in
                 if inventoryMatches item search then items ++ [item] else items
             | _, _ => items
             end) persisted items
       end.

Record sessionInventoryResponse := mkInventory {
  invItems : list sessionInventoryItem;
  invPage : Z;
  invPageSize : Z;
  invTotal : Z;
  invStatus : string;
  invOfflineAvailable : bool;
  invUnreachable : list string;
}.

(** [None] is a refusal with status 400. *)
Definition handleSessionInventory (now : Z) (get : string → string → option (list ClientView)) (edges : list (string * string))
    (offline : option (option (list OfflineSession))) (claims : gmap string string) (q : query) : option sessionInventoryResponse :=
  let status := if String.eqb (Get q "status") "" then "all"%string else Get q "status" in
  if negb (String.eqb status "all") && negb (String.eqb status "online") && negb (String.eqb status "offline") then None
  else
    '(page, pageSize) ← parseInventoryPage (Get q "page") (Get q "page_size");
    let search := TrimSpace (Get q "search") in
    if 128 <? Z.of_nat (String.length search) then None
    else
      let asked := String.eqb status "all" || String.eqb status "online" in
      let '(results, missing) := if asked then fetchAll get edges else ([], []) in
      let items := SliceStable (by_key itClientID) (collectSessionInventory now results status search offline claims) in
      Some (mkInventory (slice_page page pageSize items) page pageSize (Z.of_nat (length items)) status
              (match offline with Some _ => true | None => false end) missing).
End Views.

(** ** Lemmas *)

Lemma page_number_range raw d max n : 1 <= d <= max → page_number raw d max = Some n → 1 <= n <= max.
Proof.
  intros Hd. unfold page_number. destruct (String.eqb raw ""); [intros [= <-]; lia|].
  destruct (Atoi raw) as [z|]; [|done]. destruct (Z.ltb_spec z 1), (Z.gtb_spec z max); simpl; try done. intros [= <-]. lia.
Qed.

Lemma page_number_Itoa n d max : 1 <= n <= max → max <= 1000 → page_number (Itoa n) d max = Some n.
Proof.
  intros Hn Hm. unfold page_number. assert (Atoi (Itoa n) = Some n) as E by (apply Atoi_Itoa; unfold int64_max; lia).
  destruct (String.eqb_spec (Itoa n) ""%string) as [E0|_]; [by rewrite E0 in E|]. rewrite E.
  destruct (Z.ltb_spec n 1), (Z.gtb_spec n max); simpl; try done; lia.
Qed.

Lemma drop_bytes_shorter n s : (String.length (drop_bytes n s) <= String.length s)%nat.
Proof. revert s. induction n as [|n IH]; intros [|c s]; cbn; try lia. specialize (IH s). lia. Qed.

Lemma trim_left_length cutset fuel s : (String.length (trim_left cutset fuel s) <= String.length s)%nat.
Proof.
  revert s. induction fuel as [|fuel IH]; intros s; cbn; [lia|]. destruct (find _ _) as [p|]; [|lia].
  specialize (IH (drop_bytes (String.length p) s)). pose proof (drop_bytes_shorter (String.length p) s). lia.
Qed.

Lemma reverse_length s acc : String.length (reverse s acc) = (String.length s + String.length acc)%nat.
Proof. revert acc. induction s as [|c s IH]; intros acc; cbn; [done|]. rewrite IH. cbn. lia. Qed.

Lemma TrimSpace_length s : (String.length (TrimSpace s) <= String.length s)%nat.
Proof.
  unfold TrimSpace. cbv zeta. set (cut := map _ spaces). rewrite reverse_length. cbn [String.length].
  pose proof (trim_left_length spaces (String.length s) s). set (t := trim_left spaces _ s) in *.
  pose proof (trim_left_length cut (String.length t) (reverse t "")). rewrite reverse_length in *. cbn [String.length] in *. lia.
Qed.

Lemma NoDup_key {A B} (f : A → B) l x y : NoDup (f <$> l) → x ∈ l → y ∈ l → f x = f y → x = y.
Proof.
  induction l as [|z l IH]; cbn; [by intros _ ?%not_elem_of_nil|]. intros [Hz Hl]%NoDup_cons Hx Hy E.
  apply elem_of_cons in Hx as [->|Hx]; apply elem_of_cons in Hy as [->|Hy]; [done| | |by apply IH].
  - destruct Hz. rewrite E. by apply list_elem_of_fmap_2.
  - destruct Hz. rewrite <-E. by apply list_elem_of_fmap_2.
Qed.

Lemma slice_first {A} k (l : list A) : 1 <= k → slice_page 1 k l = take (Z.to_nat k) l.
Proof. intros Hk. rewrite slice_page_take by lia. by replace ((1 - 1) * k) with 0 by lia; replace (1 * k) with k by lia. Qed.

Section Lemmas.
  Context (ToLower : string → string).

(** What an edge answers to the cluster's query. *)
Lemma edge_answer clients count search sortBy :
  1 <= count <= 1000 → Z.of_nat (String.length search) <= 128 → sort_field sortBy = true →
  let filtered := filterClients ToLower clients (TrimSpace search) in
  handleClients ToLower clients (upstream count search sortBy) =
  OnePage (mkClientPage (take (Z.to_nat count) (sortClientViews filtered sortBy)) 1 count (Z.of_nat (length filtered))).
Proof.
  intros Hc Hl Hs. cbv zeta. unfold handleClients, hasClientQuery, Has.
  assert (upstream count search sortBy !! "page" = Some "1"%string) as E1 by (unfold upstream; repeat case_match; by simplify_map_eq).
  assert (Get (upstream count search sortBy) "page_size" = Itoa count) as E2.
  { unfold Get, upstream; repeat case_match; by simplify_map_eq. }
  assert (Get (upstream count search sortBy) "search" = search) as E3.
  { unfold Get, upstream. destruct (String.eqb_spec search "") as [->|]; repeat case_match; by simplify_map_eq. }
  assert (Get (upstream count search sortBy) "sort" = sortBy) as E4.
  { unfold Get, upstream. destruct (String.eqb_spec sortBy "") as [->|]; repeat case_match; by simplify_map_eq. }
  rewrite E1. cbn [orb negb]. unfold parseClientQuery. rewrite E2, E3, E4.
  replace (Get (upstream count search sortBy) "page") with "1"%string by (unfold Get; by rewrite E1).
  change (page_number "1" 1 100) with (Some 1). rewrite (page_number_Itoa count 50 1000) by lia. cbn [mbind option_bind].
  pose proof (TrimSpace_length search). destruct (Z.ltb_spec 128 (Z.of_nat (String.length (TrimSpace search)))) as [?|_]; [lia|].
  rewrite Hs. rewrite slice_first by lia. unfold sortClientViews. by rewrite (Permutation_length (SliceStable_perm _ _)).
Qed.

Definition tagged (nodeID : string) (l : list ClientView) : list clusterClientView := (λ c, mkClusterClientView c nodeID) <$> l.

Lemma merge_fold (results : list (string * ClientPage)) items total :
  fold_left (λ '(items, total) '(nodeID, p), (items ++ ((λ c, mkClusterClientView c nodeID) <$> cpItems p), total + cpTotal p))
    results (items, total) =
  (items ++ concat ((λ '(n, p), tagged n (cpItems p)) <$> results), total + foldr (λ '(_, p) s, cpTotal p + s) 0 results).
Proof.
  revert items total. induction results as [|[n p] results IH]; intros items total; cbn; [by rewrite app_nil_r, Z.add_0_r|].
  rewrite IH. by rewrite <-app_assoc, Z.add_assoc.
Qed.

Lemma cluster_less_keyed sortBy : keyed (cluster_less sortBy).
Proof. apply then_by_keyed, then_by_keyed, by_key_keyed. Qed.

Lemma tagged_sort n l sortBy : SliceStable (cluster_less sortBy) (tagged n l) = tagged n (sortClientViews l sortBy).
Proof.
  apply SliceStable_fmap. intros x y. unfold cluster_less, client_less, then_by. cbn [ccClient ccNodeID]. by rewrite String.eqb_refl.
Qed.

Lemma distinct_clients (clients : string → list ClientView) search nodes sortBy x y :
  (∀ n, NoDup (cvClientID <$> clients n)) →
  x ∈ concat ((λ n, tagged n (filterClients ToLower (clients n) search)) <$> nodes) →
  y ∈ concat ((λ n, tagged n (filterClients ToLower (clients n) search)) <$> nodes) →
  cluster_less sortBy x y = false → cluster_less sortBy y x = false → x = y.
Proof.
  intros Hnd. assert (∀ z, z ∈ concat ((λ n, tagged n (filterClients ToLower (clients n) search)) <$> nodes) → ccClient z ∈ clients (ccNodeID z)) as Hin.
  { intros z (l & Hl & Hz)%list_elem_of_In%in_concat. apply list_elem_of_In in Hl. apply list_elem_of_In in Hz. apply list_elem_of_fmap in Hl as (n & -> & _). apply list_elem_of_fmap in Hz as (c & -> & Hc). cbn.
    unfold filterClients in Hc. destruct (String.eqb search ""); [done|]. apply list_elem_of_In, filter_In in Hc as [Hc _]. by apply list_elem_of_In. }
  intros Hx%Hin Hy%Hin H1 H2. apply then_by_decides in H1 as (_ & H1 & H1'); [|done]. apply then_by_decides in H1 as (En & H1 & H2'); [|done].
  apply by_key_decides in H1; [|done]. destruct x as [cx nx], y as [cy ny]; cbn in *. subst ny. f_equal.
  by apply (NoDup_key _ _ _ _ (Hnd nx)).
Qed.
End Lemmas.

(** ** Paging over the cluster *)

(** The clients that a request asks for: those of the requested edges that
    answer, matching the search, each with its node. *)
Definition requested_clients (ToLower : string → string) (clients : string → list ClientView) (up : string → bool)
    (edges : list (string * string)) (q : query) : list clusterClientView :=
  concat ((λ n, tagged n (filterClients ToLower (clients n) (TrimSpace (Get q "search")))) <$>
    List.filter (λ n, up n && (String.eqb (Get q "node_id") "" || String.eqb n (Get q "node_id"))) (fst <$> edges)).

(** An edge that is up answers with its handler, one that is down not at all. *)
Definition edge_get (ToLower : string → string) (clients : string → list ClientView) (up : string → bool)
    (q : query) (nodeID addr : string) : option ClientPage :=
  if up nodeID then match handleClients ToLower (clients nodeID) q with OnePage p => Some p | _ => None end else None.

Section Paging.
  Context (ToLower : string → string) (clients : string → list ClientView) (up : string → bool).

Lemma fetched_pages count search sortBy edges :
  1 <= count <= 1000 → Z.of_nat (String.length search) <= 128 → sort_field sortBy = true →
  (fetchAll (edge_get ToLower clients up (upstream count search sortBy)) edges).1 =
  (λ n, (n, let filtered := filterClients ToLower (clients n) (TrimSpace search) in
            mkClientPage (take (Z.to_nat count) (sortClientViews filtered sortBy)) 1 count (Z.of_nat (length filtered)))) <$>
    List.filter up (fst <$> edges).
Proof.
  intros Hc Hl Hs. unfold fetchAll, edge_get. cbn [fst]. induction edges as [|[n a] edges IH]; [done|]. cbn [omap list_omap fmap list_fmap List.filter fst].
  destruct (up n); cbn; [|exact IH]. rewrite edge_answer by done. cbn. f_equal. exact IH.
Qed.

Lemma merged_pages k sortBy search nodes : (∀ n, NoDup (cvClientID <$> clients n)) →
  take k (SliceStable (cluster_less sortBy) (concat ((λ n, tagged n (take k (sortClientViews (filterClients ToLower (clients n) search) sortBy))) <$> nodes))) =
  take k (SliceStable (cluster_less sortBy) (concat ((λ n, tagged n (filterClients ToLower (clients n) search)) <$> nodes))).
Proof.
  intros Hnd.
  rewrite <-(take_sort_concat _ (cluster_less_keyed sortBy) k ((λ n, tagged n (filterClients ToLower (clients n) search)) <$> nodes));
    [|intros x y; by apply distinct_clients].
  rewrite <-list_fmap_compose. do 3 f_equal. apply list_fmap_ext. intros i n _. unfold compose.
  rewrite tagged_sort. unfold tagged. by rewrite <-fmap_take.
Qed.

Lemma merged_total search sortBy count nodes :
  foldr (λ '(_, p) s, cpTotal p + s) 0 ((λ n, (n, let filtered := filterClients ToLower (clients n) search in
    mkClientPage (take count (sortClientViews filtered sortBy)) 1 (Z.of_nat count) (Z.of_nat (length filtered)))) <$> nodes) =
  Z.of_nat (length (concat ((λ n, tagged n (filterClients ToLower (clients n) search)) <$> nodes))).
Proof.
  induction nodes as [|n nodes IH]; cbn in *; [done|]. rewrite length_app, Nat2Z.inj_add. unfold tagged. rewrite length_fmap. unfold tagged in IH. by rewrite IH.
Qed.

Lemma filter_one (nodeID : string) (edges : list (string * string)) :
  NoDup (fst <$> edges) → List.filter (λ n, up n && String.eqb n nodeID) (fst <$> edges) =
  match (list_to_map edges : gmap string string) !! nodeID with Some _ => if up nodeID then [nodeID] else [] | None => [] end.
Proof.
  induction edges as [|[n a] edges IH]; cbn; [done|]. intros [Hn Hd]%NoDup_cons. rewrite IH by done.
  destruct (String.eqb_spec n nodeID) as [->|Hne].
  - rewrite lookup_insert_eq, andb_true_r. rewrite (not_elem_of_list_to_map_1 edges nodeID) by done. by destruct (up nodeID).
  - by rewrite lookup_insert_ne, andb_false_r by done.
Qed.
Lemma mergedPage_ok es page pageSize search sortBy : (∀ n, NoDup (cvClientID <$> clients n)) →
  1 <= page → 1 <= pageSize → page * pageSize <= 1000 → Z.of_nat (String.length search) <= 128 → sort_field sortBy = true →
  let all := concat ((λ n, tagged n (filterClients ToLower (clients n) (TrimSpace search))) <$> List.filter up (fst <$> es)) in
  let p := mergedPage (edge_get ToLower clients up) es page pageSize search sortBy in
  pgPage p = page ∧ pgPageSize p = pageSize ∧
  pgItems p = slice_page page pageSize (SliceStable (cluster_less sortBy) all) ∧ pgTotal p = Z.of_nat (length all).
Proof.
  intros Hnd Hp Hs Hps Hl Hf. cbv zeta. unfold mergedPage.
  pose proof (fetched_pages (page * pageSize) search sortBy es ltac:(nia) Hl Hf) as Hr.
  destruct (fetchAll _ es) as [results unreachable]. cbn [fst] in Hr. subst results. rewrite merge_fold. cbn [pgPage pgPageSize pgItems pgTotal].
  split_and!; [done..| |].
  - rewrite !slice_page_take by lia. f_equal. rewrite app_nil_l, <-list_fmap_compose. apply merged_pages, Hnd.
  - rewrite Z.add_0_l, <-(merged_total _ sortBy (Z.to_nat (page * pageSize))). by rewrite Z2Nat.id by nia.
Qed.
End Paging.

(** C22: A page of the cluster's client list is that page of the list of all
    matching clients of the requested edges that answered, sorted by the requested
    field, then node, then client: although each edge sends only its own first
    clients, no client is left out, repeated or out of place, and the total is the
    length of the whole list. A valid query is never refused by an edge. *)
Theorem paged_clients_are_exact ToLower clients up edges q :
  (∀ n, NoDup (cvClientID <$> clients n)) → NoDup (fst <$> edges) →
  match handlePagedLiveClients (edge_get ToLower clients up) edges q with
  | Some p =>
      1 <= pgPage p ∧ 1 <= pgPageSize p <= 100 ∧
      let all := requested_clients ToLower clients up edges q in
      pgItems p = slice_page (pgPage p) (pgPageSize p) (SliceStable (cluster_less (Get q "sort")) all) ∧
      pgTotal p = Z.of_nat (length all)
  | None =>
      page_number (Get q "page") 1 100 = None ∨ page_number (Get q "page_size") 50 100 = None ∨
      (∃ page pageSize, page_number (Get q "page") 1 100 = Some page ∧ page_number (Get q "page_size") 50 100 = Some pageSize ∧
         1000 < page * pageSize) ∨ 128 < Z.of_nat (String.length (Get q "search")) ∨ sort_field (Get q "sort") = false
  end.
Proof.
  intros Hnd Hed. unfold handlePagedLiveClients. destruct (page_number (Get q "page") 1 100) as [page|] eqn:Ep; [|by left].
  destruct (page_number (Get q "page_size") 50 100) as [pageSize|] eqn:Es; [|by right; left]. cbn [mbind option_bind].
  pose proof (page_number_range _ 1 100 _ ltac:(lia) Ep). pose proof (page_number_range _ 50 100 _ ltac:(lia) Es).
  destruct (Z.gtb_spec (page * pageSize) 1000); [right; right; left; eauto|].
  destruct (Z.ltb_spec 128 (Z.of_nat (String.length (Get q "search")))); [by do 3 right; left|].
  destruct (sort_field (Get q "sort")) eqn:Ef; [|by do 4 right]. cbn [negb]. unfold requested_clients.
  destruct (String.eqb_spec (Get q "node_id") "") as [En|En]; cbn [orb].
  - destruct (mergedPage_ok ToLower clients up edges page pageSize (Get q "search") (Get q "sort")) as (-> & -> & -> & ->); try done; try lia.
    rewrite (filter_ext (λ n, up n && true) up) by (intros n; by rewrite andb_true_r). split_and!; (lia || done).
  - rewrite filter_one by done. destruct ((list_to_map edges : gmap string string) !! Get q "node_id") as [addr|]; cbn [fmap option_fmap option_map].
    + destruct (mergedPage_ok ToLower clients up [(Get q "node_id", addr)] page pageSize (Get q "search") (Get q "sort")) as (-> & -> & -> & ->); try done; try lia.
      cbn. destruct (up (Get q "node_id")); split_and!; (lia || done).
    + cbn [pgPage pgPageSize pgItems pgTotal]. split_and!; [lia..| |done]. cbn. unfold slice_page. cbn. by rewrite drop_nil, take_nil.
Qed.

Definition sample_client (id user : string) : ClientView := mkClientView id user "10.0.0.1:4000" true ["a/#"%string].
Definition sample_clients (n : string) : list ClientView :=
  if String.eqb n "edge-1" then [sample_client "c" "u1"; sample_client "a" "u2"]
  else if String.eqb n "edge-2" then [sample_client "b" "u3"] else [].
Definition sample_edges : list (string * string) := [("edge-1", "10.0.0.1:9090"); ("edge-2", "10.0.0.2:9090")]%string.
Definition sample_query : query := <["page" := "2"]> (<["page_size" := "2"]> ∅).

Lemma paged_clients_are_exact_witness :
  handlePagedLiveClients (edge_get id sample_clients (λ _, true)) sample_edges sample_query =
    Some (mkPaged [mkClusterClientView (sample_client "c" "u1") "edge-1"] 2 2 3 []) ∧
  match handlePagedLiveClients (edge_get id sample_clients (λ _, true)) sample_edges sample_query with
  | Some p => 1 <= pgPage p ∧ 1 <= pgPageSize p <= 100 ∧
      let all := requested_clients id sample_clients (λ _, true) sample_edges sample_query in
      pgItems p = slice_page (pgPage p) (pgPageSize p) (SliceStable (cluster_less (Get sample_query "sort")) all) ∧
      pgTotal p = Z.of_nat (length all)
  | None => page_number (Get sample_query "page") 1 100 = None ∨ page_number (Get sample_query "page_size") 50 100 = None ∨
      (∃ page pageSize, page_number (Get sample_query "page") 1 100 = Some page ∧ page_number (Get sample_query "page_size") 50 100 = Some pageSize ∧
         1000 < page * pageSize) ∨ 128 < Z.of_nat (String.length (Get sample_query "search")) ∨ sort_field (Get sample_query "sort") = false
  end.
Proof.
  split; [vm_compute; reflexivity|]. apply paged_clients_are_exact.
  - intros n. unfold sample_clients. repeat case_match; cbn; apply (bool_decide_unpack _); vm_compute; exact I.
  - apply (bool_decide_unpack _). vm_compute. exact I.
Defined.

(** ** The inventory *)

Definition reports (results : list (string * list ClientView)) (it : sessionInventoryItem) : Prop :=
  ∃ n cs c, (n, cs) ∈ results ∧ c ∈ cs ∧ it = online_item n c.

(** [live] holds, under each client's ID, one of the reports in [R] about it. *)
Definition live_of (R : sessionInventoryItem → Prop) (live : gmap string sessionInventoryItem) : Prop :=
  (∀ k it, live !! k = Some it → itClientID it = k ∧ R it) ∧ (∀ it, R it → is_Some (live !! itClientID it)).

Lemma live_step R live n c : live_of R live →
  live_of (λ it, R it ∨ it = online_item n c)
    (match live !! cvClientID c with Some _ => live | None => <[cvClientID c := online_item n c]> live end).
Proof.
  intros [H1 H2]. destruct (live !! cvClientID c) as [it0|] eqn:E; split.
  - intros k it Hk. destruct (H1 _ _ Hk). auto.
  - intros it [Hit| ->]; [by apply H2|]. cbn. by rewrite E.
  - intros k it [[<- <-]|[Hne Hk]]%lookup_insert_Some; [cbn; auto|]. destruct (H1 _ _ Hk). auto.
  - intros it [Hit| ->]; [|cbn; by rewrite lookup_insert_eq]. destruct (H2 it Hit) as [x Hx].
    destruct (decide (cvClientID c = itClientID it)) as [E'|?]; [rewrite E' in E; congruence|]. rewrite lookup_insert_ne by done. eauto.
Qed.

Lemma live_fold R n cs live : live_of R live →
  live_of (λ it, R it ∨ ∃ c, c ∈ cs ∧ it = online_item n c)
    (fold_left (λ live c, match live !! cvClientID c with Some _ => live | None => <[cvClientID c := online_item n c]> live end) cs live).
Proof.
  revert R live. induction cs as [|c cs IH]; intros R live H; cbn.
  - destruct H as [H1 H2]. split; [intros k it Hk; destruct (H1 _ _ Hk); auto|]. intros it [?|(c & ?%not_elem_of_nil & _)]; [auto|done].
  - apply (live_step R live n c) in H. apply IH in H as [H1 H2]. split.
    + intros k it Hk. destruct (H1 _ _ Hk) as [? Hr]. split; [done|]. set_solver.
    + intros it Hit. apply H2. set_solver.
Qed.

Lemma live_by_id_spec results : live_of (reports results) (live_by_id results).
Proof.
  unfold live_by_id. assert (∀ R live, live_of R live → live_of (λ it, R it ∨ reports results it)
    (fold_left (λ live '(nodeID, clients), fold_left (λ live c, match live !! cvClientID c with
       | Some _ => live | None => <[cvClientID c := online_item nodeID c]> live end) clients live) results live)) as H.
  { induction results as [|[n cs] results IH]; intros R live H; cbn.
    - destruct H as [H1 H2]. split; [intros k it Hk; destruct (H1 _ _ Hk); auto|].
      intros it [?|(? & ? & ? & ?%not_elem_of_nil & _)]; [auto|done].
    - apply (live_fold R n cs) in H. apply IH in H as [H1 H2]. unfold reports. split.
      + intros k it Hk. destruct (H1 _ _ Hk) as [? Hr]. split; [done|]. unfold reports in Hr. set_solver.
      + intros it Hit. apply H2. unfold reports. set_solver. }
  destruct (H (λ _, False) ∅) as [H1 H2]; [split; [intros k it; by rewrite lookup_empty|done]|]. split.
  - intros k it Hk. destruct (H1 _ _ Hk) as [? [?|?]]; done.
  - intros it Hit. apply H2. by right.
Qed.

Section Inventory.
  Context (ToLower : string → string).

(** Listed as offline: persisted, neither claimed nor connected. *)
Definition offline_listed (now : Z) (search : string) (claims : gmap string string) (live : gmap string sessionInventoryItem)
    (persisted : list OfflineSession) (it : sessionInventoryItem) : Prop :=
  ∃ p, p ∈ persisted ∧ claims !! sessClientID p = None ∧ live !! sessClientID p = None ∧
    it = offline_item now p ∧ inventoryMatches ToLower it search = true.

Lemma offline_fold now search claims live persisted items :
  NoDup (sessClientID <$> persisted) → NoDup (itClientID <$> items) →
  (∀ it p, it ∈ items → p ∈ persisted → live !! sessClientID p = None → itClientID it ≠ sessClientID p) →
  let out := fold_left (λ items p,
    match claims !! sessClientID p, live !! sessClientID p with
    | None, None => let item := offline_item now p in if inventoryMatches ToLower item search then items ++ [item] else items
    | _, _ => items
    end) persisted items in
  NoDup (itClientID <$> out) ∧ ∀ it, it ∈ out ↔ it ∈ items ∨ offline_listed now search claims live persisted it.
Proof.
  revert items. induction persisted as [|p persisted IH]; intros items Hd Hi Hf; cbv zeta in *; cbn [fold_left].
  - split; [done|]. intros it. split; [auto|]. intros [?|(p & ?%not_elem_of_nil & _)]; done.
  - apply NoDup_cons in Hd as [Hp Hd].
    assert (∀ it, offline_listed now search claims live (p :: persisted) it ↔
      offline_listed now search claims live [p] it ∨ offline_listed now search claims live persisted it) as Hsplit.
    { intros it. split.
      - intros (p' & Hin & Hr). apply elem_of_cons in Hin as [->|Hin]; [left|right]; eexists; (split; [|exact Hr]); [by left|done].
      - intros [(p' & Hin & Hr)|(p' & Hin & Hr)].
        + apply list_elem_of_singleton in Hin as ->. eexists. split; [by left|exact Hr].
        + eexists. split; [by right|exact Hr]. }
    set (items' := match claims !! sessClientID p with Some _ => _ | None => _ end).
    assert (items' = items ∧ (∀ it, ¬ offline_listed now search claims live [p] it) ∨
      items' = items ++ [offline_item now p] ∧ live !! sessClientID p = None ∧
      ∀ it, offline_listed now search claims live [p] it ↔ it = offline_item now p) as Hstep.
    { unfold items'. destruct (claims !! sessClientID p) eqn:Ec.
      { left. split; [done|]. intros it (p' & ?%list_elem_of_singleton & ? & _). congruence. }
      destruct (live !! sessClientID p) eqn:El.
      { left. split; [done|]. intros it (p' & ?%list_elem_of_singleton & _ & ? & _). congruence. }
      cbv zeta. destruct (inventoryMatches ToLower (offline_item now p) search) eqn:Em; [right|left].
      - split_and!; [done|done|]. intros it. split; [intros (p' & ?%list_elem_of_singleton & _ & _ & -> & _); congruence|].
        intros ->. exists p. split_and!; [by left|done..].
      - split; [done|]. intros it (p' & ?%list_elem_of_singleton & _ & _ & -> & ?). congruence. }
    destruct Hstep as [[-> Hno]|(-> & El & Hyes)].
    + destruct (IH items) as [H1 H2]; [done|done| |]; [intros it p' ? ?; apply Hf; [done|by right]|].
      split; [done|]. intros it. rewrite H2, Hsplit. pose proof (Hno it). tauto.
    + destruct (IH (items ++ [offline_item now p])) as [H1 H2]; [done| | |].
      * rewrite fmap_app. apply NoDup_app. split; [done|]. split; [|apply NoDup_singleton]. intros k Hk Hk'.
        apply list_elem_of_fmap in Hk as (it & -> & Hit). cbn in Hk'. apply list_elem_of_singleton in Hk'. by eapply (Hf it p); [|left|..].
      * intros it p' Hit Hp' El'. apply elem_of_app in Hit as [Hit|Hit]; [|apply list_elem_of_singleton in Hit as ->]; [apply (Hf it p'); [done|by right|done]|].
        cbn. intros E. apply Hp. rewrite E. by apply list_elem_of_fmap_2.
      * split; [done|]. intros it. rewrite H2, Hsplit, Hyes, elem_of_app, list_elem_of_singleton. tauto.
Qed.

Lemma live_items search (live : gmap string sessionInventoryItem) : (∀ k it, live !! k = Some it → itClientID it = k) →
  let items := List.filter (λ it, inventoryMatches ToLower it search) (snd <$> map_to_list live) in
  NoDup (itClientID <$> items) ∧ ∀ it, it ∈ items ↔ live !! itClientID it = Some it ∧ inventoryMatches ToLower it search = true.
Proof.
  intros Hk. cbv zeta. split.
  - eapply sublist_NoDup; [apply (NoDup_fst_map_to_list live)|].
    assert (fst <$> map_to_list live = itClientID <$> (snd <$> map_to_list live)) as ->.
    { rewrite <-list_fmap_compose. apply list_fmap_ext. intros i [k it] Hi. cbn. symmetry. apply Hk, elem_of_map_to_list. by eapply list_elem_of_lookup_2. }
    apply fmap_sublist. generalize (snd <$> map_to_list live) as l. induction l as [|x l IH]; cbn; [constructor|].
    destruct (inventoryMatches ToLower x search); by constructor.
  - intros it. rewrite list_elem_of_In, filter_In, <-list_elem_of_In, list_elem_of_fmap. split.
    + intros [([k it'] & -> & H%elem_of_map_to_list) Hm]. cbn in *. split; [|done]. by rewrite (Hk _ _ H).
    + intros [H Hm]. split; [|done]. exists (itClientID it, it). split; [done|]. by apply elem_of_map_to_list.
Qed.
End Inventory.

(** The offline sessions at hand. *)
Definition persisted_of (offline : option (option (list OfflineSession))) : list OfflineSession := default [] (default None offline).

Lemma collect_spec ToLower now results status search offline claims :
  NoDup (sessClientID <$> persisted_of offline) →
  let live := if String.eqb status "all" || String.eqb status "online" then live_by_id results else ∅ in
  let items := collectSessionInventory ToLower now results status search offline claims in
  NoDup (itClientID <$> items) ∧
  ∀ it, it ∈ items ↔ (live !! itClientID it = Some it ∧ inventoryMatches ToLower it search = true) ∨
    (status ≠ "online"%string ∧ offline_listed ToLower now search claims live (persisted_of offline) it).
Proof.
  intros Hd. cbv zeta. unfold collectSessionInventory. set (live := if String.eqb status "all" || String.eqb status "online" then live_by_id results else ∅).
  assert (∀ k it, live !! k = Some it → itClientID it = k) as Hk.
  { unfold live. case_match; [|intros k it; by rewrite lookup_empty]. intros k it Hl%(proj1 (live_by_id_spec results)). by destruct Hl. }
  destruct (live_items ToLower search live Hk) as [H1 H2]. set (items := List.filter _ _) in *.
  destruct (String.eqb_spec status "online") as [E|E]; [split; [done|]; intros it; rewrite H2; tauto|].
  assert (∀ it, ¬ offline_listed ToLower now search claims live [] it) as Hnil by (intros it (p & ?%not_elem_of_nil & _); done).
  destruct offline as [[persisted|]|]; cbn [persisted_of default] in *.
  - destruct (offline_fold ToLower now search claims live persisted items) as [H3 H4]; [done|done| |].
    { intros it p [Hit _]%H2 _ El Ei. rewrite Ei in Hit. congruence. }
    split; [done|]. intros it. rewrite H4, H2. tauto.
  - split; [done|]. intros it. rewrite H2. pose proof (Hnil it). cbn. tauto.
  - split; [done|]. intros it. rewrite H2. pose proof (Hnil it). cbn. tauto.
Qed.

(** The session inventory lists every session once, in the order of client
    IDs, and cuts the requested page out of that list, with its length as the
    total. An entry is online exactly when some edge that answered reports the
    client (one report per client), offline exactly when it is persisted, no node
    has claimed it and no edge reports it; both subject to the status and search
    asked for, and a page never has more than 100 entries. *)
Theorem inventory_is_exact ToLower now get edges offline claims q r :
  NoDup (sessClientID <$> persisted_of offline) →
  handleSessionInventory ToLower now get edges offline claims q = Some r →
  let status := invStatus r in
  let asked := String.eqb status "all" || String.eqb status "online" in
  let results := if asked then (fetchAll get edges).1 else [] in
  let live := if asked then live_by_id results else ∅ in
  let search := TrimSpace (Get q "search") in
  live_of (reports results) live ∧
  ∃ items, NoDup (itClientID <$> items) ∧ StronglySorted (ordered (by_key itClientID)) items ∧
    invItems r = slice_page (invPage r) (invPageSize r) items ∧ invTotal r = Z.of_nat (length items) ∧
    1 <= invPage r ∧ 1 <= invPageSize r <= 100 ∧
    ∀ it, it ∈ items ↔ (live !! itClientID it = Some it ∧ inventoryMatches ToLower it search = true) ∨
      (status ≠ "online"%string ∧ offline_listed ToLower now search claims live (persisted_of offline) it).
Proof.
  intros Hd. unfold handleSessionInventory. set (status := if String.eqb (Get q "status") "" then _ else _). case_match; [done|].
  unfold parseInventoryPage. destruct (page_number (Get q "page") 1 1000) as [page|] eqn:Ep; [|done].
  destruct (page_number (Get q "page_size") 50 100) as [pageSize|] eqn:Es; [|done]. cbn [mbind option_bind].
  destruct (page * pageSize >? 10000); [done|]. cbn [mbind option_bind]. case_match; [done|].
  set (asked := String.eqb status "all" || String.eqb status "online").
  destruct (if asked then fetchAll get edges else ([], [])) as [results missing] eqn:Er.
  intros [= <-]. cbn [invStatus invItems invPage invPageSize invTotal]. fold asked.
  assert ((if asked then (fetchAll get edges).1 else []) = results) as -> by (destruct asked; by rewrite ?Er; simplify_eq/=).
  split.
  { destruct asked; [apply live_by_id_spec|]. injection Er as <- _. split; [intros k it; by rewrite lookup_empty|].
    intros it (n & cs & c & ?%not_elem_of_nil & _). done. }
  destruct (collect_spec ToLower now results status (TrimSpace (Get q "search")) offline claims Hd) as [H1 H2].
  eexists. split_and!; [| |reflexivity|reflexivity|..].
  - by rewrite SliceStable_perm.
  - apply SliceStable_sorted, by_key_keyed.
  - apply (page_number_range _ 1 1000 _ ltac:(lia)) in Ep. lia.
  - apply (page_number_range _ 50 100 _ ltac:(lia)) in Es. lia.
  - apply (page_number_range _ 50 100 _ ltac:(lia)) in Es. lia.
  - intros it. rewrite SliceStable_perm. apply H2.
Qed.

Lemma inventory_is_exact_witness :
  ∃ r, handleSessionInventory id 0 (λ n _, Some (sample_clients n)) sample_edges
         (Some (Some [mkOfflineSession "d" [] None; mkOfflineSession "a" [] None])) ∅ ∅ = Some r ∧
       itClientID <$> invItems r = ["a"; "b"; "c"; "d"]%string ∧
       live_of (reports (fetchAll (λ n _, Some (sample_clients n)) sample_edges).1) (live_by_id (fetchAll (λ n _, Some (sample_clients n)) sample_edges).1).
Proof.
  eexists. split; [vm_compute; reflexivity|]. split; [vm_compute; reflexivity|].
  refine (proj1 (inventory_is_exact id 0 (λ n _, Some (sample_clients n)) sample_edges
    (Some (Some [mkOfflineSession "d" [] None; mkOfflineSession "a" [] None])) ∅ ∅ _ _ eq_refl)).
  apply (bool_decide_unpack _). vm_compute. exact I.
Defined.
