(* ===== verification/GoNet.v ===== *)
(** The parts of Go's [flag], [net/url] and [net/http] packages that the
    command-line clients and the management API use: the parsing of string flags,
    the path of a URL with its percent-encoding, and the patterns of
    [http.ServeMux]. *)
From S2P Require Import Prelude GoStrings Codec Json.

Open Scope string_scope.

(** ** flag.FlagSet with string flags *)

(** How a program ends ([Exit]) or what it goes on with ([Run]). *)
Inductive outcome (A : Type) :=
  | Exit (code : Z)
  | Run (x : A).
Arguments Exit {A} code.
Arguments Run {A} x.

Abbreviation flags := (list (string * string)).

Definition flag_set (name value : string) (fs : flags) : flags :=
  (λ '(n, v), if String.eqb n name then (n, value) else (n, v)) <$> fs.

Definition flag_get (name : string) (fs : flags) : string :=
  default "" (snd <$> find (λ nv, String.eqb (fst nv) name) fs).

(** The name of an argument that is a flag, with the value after "=". [None]
    when the arguments of the flag set end here. *)
Definition flag_name (arg : string) : option string :=
  match arg with
  | String "-" (String "-" rest) => if String.eqb rest "" then None else Some rest
  | String "-" (String c rest) => Some (String c rest)
  | _ => None
  end.

(** The search for "=" starts at the second byte of the name. *)
Definition flag_value (name : string) : string * option string :=
  match name with
  | "" => ("", None)
  | String c rest =>
      match cut "=" rest with
      | Some (l, r) => (String c l, Some r)
      | None => (name, None)
      end
  end.

(** FlagSet.Parse with ExitOnError: a malformed or unknown flag ends the
    program with status 2, a request for help with status 0. *)
Fixpoint flag_parse (fs : flags) (args : list string) : outcome flags :=
  match args with
  | [] => Run fs
  | arg :: args =>
      match flag_name arg with
      | None => Run fs
      | Some body =>
          if has_prefix "-" body || has_prefix "=" body then Exit 2
          else let '(name, value) := flag_value body in
               if existsb (λ nv, String.eqb (fst nv) name) fs then
                 match value, args with
                 | Some v, _ => flag_parse (flag_set name v fs) args
                 | None, v :: args => flag_parse (flag_set name v fs) args
                 | None, [] => Exit 2
                 end
               else if String.eqb name "help" || String.eqb name "h" then Exit 0 else Exit 2
      end
  end.

(** ** net/url *)

Definition is_alnum (c : ascii) : bool := in_range 48 57 c || in_range 65 90 c || in_range 97 122 c.

Definition one_of (cs : string) (c : ascii) : bool := contains_byte c cs.

(** shouldEscape in the mode of a path. *)
Definition shouldEscape (c : ascii) : bool := negb (is_alnum c || one_of "-_.~$&+,/:;=@" c).

Definition upper_hex (n : N) : ascii := if (n <? 10)%N then ascii_of_N (48 + n) else ascii_of_N (55 + n).

Fixpoint url_escape (s : string) : string :=
  match s with
  | "" => ""
  | String c t =>
      if shouldEscape c
      then String "%" (String (upper_hex (N.shiftr (N_of_ascii c) 4)) (String (upper_hex (N.land (N_of_ascii c) 15)) (url_escape t)))
      else String c (url_escape t)
  end.

Fixpoint url_unescape (s : string) : option string :=
  match s with
  | "" => Some ""
  | String "%" t =>
      match t with
      | String a (String b rest) =>
          a ← hex_value a; b ← hex_value b; String (ascii_of_N (a * 16 + b)) <$> url_unescape rest
      | _ => None
      end
  | String c t => String c <$> url_unescape t
  end.

Fixpoint validEncoded (s : string) : bool :=
  match s with
  | "" => true
  | String c t => (one_of "!$&'()*+,;=:@[]%" c || negb (shouldEscape c)) && validEncoded t
  end.

Record URL := mkURL { uScheme : string; uHost : string; uPath : string; uRawPath : string; uRawQuery : string }.

(** URL.setPath: the decoded path, and the text when it is not the default encoding. *)
Definition setPath (p : string) : option (string * string) :=
  path ← url_unescape p; Some (path, if String.eqb p (url_escape path) then "" else p).

Definition EscapedPath (u : URL) : string :=
  if negb (String.eqb (uRawPath u) "") && validEncoded (uRawPath u) &&
     match url_unescape (uRawPath u) with Some p => String.eqb p (uPath u) | None => false end
  then uRawPath u
  else url_escape (uPath u).

Fixpoint has_ctl (s : string) : bool :=
  match s with "" => false | String c t => in_range 0 31 c || in_range 127 127 c || has_ctl t end.

(** getScheme: a scheme before the first ":"; [None] is an error. *)
Fixpoint scheme_chars (s : string) : bool :=
  match s with "" => true | String c t => (is_alnum c || one_of "+-." c) && scheme_chars t end.

Definition getScheme (s : string) : option (string * string) :=
  match cut ":" s with
  | Some (sch, rest) =>
      match sch with
      | "" => None
      | String c _ =>
          if scheme_chars sch && (in_range 65 90 c || in_range 97 122 c) then Some (sch, rest) else Some ("", s)
      end
  | None => Some ("", s)
  end.

Definition cut_or_all (b : ascii) (s : string) : string * string := default (s, "") (cut b s).

(** url.Parse for an address with a host; the check of the host's own syntax is [host_ok]. *)
Section Parse.
Variable host_ok : string → bool.

Definition url_Parse (raw : string) : option URL :=
  let '(u, fragment) := cut_or_all "#" raw in
  if has_ctl u then None
  else
    _ ← url_unescape fragment;
    '(scheme, rest) ← getScheme u;
    let '(rest, query) := cut_or_all "?" rest in
    if String.eqb scheme "" || negb (has_prefix "//" rest) then None
    else
      let rest := drop_bytes 2 rest in
      let '(host, path) := match cut "/" rest with Some (h, p) => (h, String "/" p) | None => (rest, "") end in
      if negb (host_ok host) then None
      else '(path, raw_path) ← setPath path; Some (mkURL scheme host path raw_path query).
End Parse.

(** The target on the request line, URL.RequestURI. *)
Definition RequestURI (u : URL) : string :=
  (if String.eqb (EscapedPath u) "" then "/" else EscapedPath u)
  +:+ (if String.eqb (uRawQuery u) "" then "" else String "?" (uRawQuery u)).

(** url.ParseRequestURI on the server, for a target that begins with "/". *)
Definition ParseRequestURI (target : string) : option URL :=
  let '(rest, query) := cut_or_all "?" target in
  if has_ctl target || negb (has_prefix "/" rest) then None
  else '(path, raw_path) ← setPath rest; Some (mkURL "" "" path raw_path query).

(** ** http.ServeMux *)

(** path.Clean of a rooted path, from its elements; [acc] holds the elements
    kept, the last one first. *)
Fixpoint clean_elements (acc : list string) (parts : list string) : list string :=
  match parts with
  | [] => rev acc
  | p :: parts =>
      if String.eqb p "" || String.eqb p "." then clean_elements acc parts
      else if String.eqb p ".." then clean_elements (tail acc) parts
      else clean_elements (p :: acc) parts
  end.

Definition rooted (elements : list string) : string := String "/" (join "/" elements).

Definition ends_with_slash (s : string) : bool := match cut_last "/" s with Some (_, "") => true | _ => false end.

Definition cleanPath (p : string) : string :=
  let np := rooted (clean_elements [] (split "/" p)) in
  if ends_with_slash p && negb (String.eqb np "/") then np +:+ "/" else np.

(** The segments of a path, decoded; the empty segment after a final "/" is "/". *)
Definition path_segments (p : string) : list string :=
  (λ s, if String.eqb s "" then "/" else default s (url_unescape s)) <$> split "/" (drop_bytes 1 p).

(** A pattern: its method and the segments, [None] for a wildcard. *)
Abbreviation pattern := (string * list (option string))%type.

Fixpoint match_segments (pat : list (option string)) (segs : list string) : option (list string) :=
  match pat, segs with
  | [], [] => Some []
  | Some l :: pat, s :: segs => if String.eqb l s then match_segments pat segs else None
  | None :: pat, s :: segs => if String.eqb s "/" then None else cons s <$> match_segments pat segs
  | _, _ => None
  end.

Definition method_matches (pattern_method method : string) : bool :=
  String.eqb pattern_method method || (String.eqb pattern_method "GET" && String.eqb method "HEAD").

Inductive routed (E : Type) :=
  | Handle (endpoint : E) (params : list string)
  | MovedPermanently
  | NotFound
  | MethodNotAllowed.
Arguments Handle {E} endpoint params.
Arguments MovedPermanently {E}.
Arguments NotFound {E}.
Arguments MethodNotAllowed {E}.

Fixpoint first_match {E} (routes : list (pattern * E)) (method : string) (segs : list string) : option (E * list string) :=
  match routes with
  | [] => None
  | ((m, pat), e) :: routes =>
      match (if method_matches m method then match_segments pat segs else None) with
      | Some params => Some (e, params)
      | None => first_match routes method segs
      end
  end.

Definition route {E} (routes : list (pattern * E)) (method : string) (segs : list string) : routed E :=
  match first_match routes method segs with
  | Some (e, params) => Handle e params
  | None =>
      if existsb (λ r, match match_segments (snd (fst r)) segs with Some _ => true | None => false end) routes
      then MethodNotAllowed else NotFound
  end.

(** ServeMux.findHandler, for patterns of which at most one matches a request
    and none of which ends in a slash. *)
Definition serve {E} (routes : list (pattern * E)) (method : string) (u : URL) : routed E :=
  let escaped := EscapedPath u in
  if negb (String.eqb (cleanPath escaped) escaped) then MovedPermanently
  else route routes method (path_segments escaped).

(** A request as the server sees it: the URL is parsed by the client, its target
    is sent and parsed again. *)
Definition deliver {E} (host_ok : string → bool) (routes : list (pattern * E)) (method raw : string) : option (routed E) :=
  u ← url_Parse host_ok raw; u ← ParseRequestURI (RequestURI u); Some (serve routes method u).

(** ** Percent-encoding *)

Fixpoint forall_bytes (f : ascii → bool) (s : string) : bool :=
  match s with "" => true | String c t => f c && forall_bytes f t end.

(** Bytes that a path can carry as they are: no delimiter of a URL, no control byte. *)
Definition plain_byte (c : ascii) : bool :=
  negb (in_range 0 31 c || in_range 127 127 c || Ascii.eqb c "?" || Ascii.eqb c "#" || Ascii.eqb c "%").

(** What ServeMux leaves alone: elements without a slash that path.Clean keeps. *)
Definition kept (s : string) : bool :=
  negb (contains_byte "/" s) && negb (String.eqb s "" || String.eqb s "." || String.eqb s "..").

Definition plain_segment (s : string) : bool := forall_bytes plain_byte s && kept s.

Lemma forall_bytes_app f a b : forall_bytes f (a +:+ b) = forall_bytes f a && forall_bytes f b.
Proof. induction a as [|c a IH]; [done|]. rewrite string_app_cons. cbn. by rewrite IH, andb_assoc. Qed.

Lemma forall_bytes_join f b l : f b = true → forallb (forall_bytes f) l = true → forall_bytes f (join b l) = true.
Proof.
  intros Hb. induction l as [|x [|y l] IH]; intros Hl; [done| |].
  - cbn in *. by destruct (forall_bytes f x).
  - rewrite join_cons, forall_bytes_app. apply andb_true_iff in Hl as [-> Hl]. cbn [forall_bytes]. by rewrite Hb, IH.
Qed.

Lemma plain_no_byte b s : plain_byte b = false → forall_bytes plain_byte s = true → contains_byte b s = false.
Proof.
  intros Hb. induction s as [|c s IH]; [done|]. intros [Hc Hs]%andb_true_iff. cbn. rewrite (IH Hs), orb_false_r.
  destruct (Ascii.eqb_spec c b) as [->|]; [congruence|done].
Qed.

Lemma plain_no_ctl s : forall_bytes plain_byte s = true → has_ctl s = false.
Proof.
  induction s as [|c s IH]; [done|]. intros [Hc Hs]%andb_true_iff. cbn. rewrite (IH Hs).
  unfold plain_byte in Hc. by destruct (in_range 0 31 c), (in_range 127 127 c).
Qed.

Lemma url_unescape_plain s : contains_byte "%" s = false → url_unescape s = Some s.
Proof.
  induction s as [|c s IH]; [done|]. intros [Hc Hs]%orb_false_iff. specialize (IH Hs).
  destruct c as [[] [] [] [] [] [] [] []]; cbn -[url_unescape] in Hc; try discriminate; cbn; by rewrite IH.
Qed.

Lemma hex_byte_round c :
  hex_value (upper_hex (N.shiftr (N_of_ascii c) 4)) = Some (N.shiftr (N_of_ascii c) 4) ∧
  hex_value (upper_hex (N.land (N_of_ascii c) 15)) = Some (N.land (N_of_ascii c) 15) ∧
  ascii_of_N (N.shiftr (N_of_ascii c) 4 * 16 + N.land (N_of_ascii c) 15) = c.
Proof. by destruct c as [[] [] [] [] [] [] [] []]. Qed.

Lemma url_unescape_escape s : url_unescape (url_escape s) = Some s.
Proof.
  induction s as [|c s IH]; [done|]. cbn [url_escape]. destruct (shouldEscape c) eqn:He.
  - destruct (hex_byte_round c) as (H1 & H2 & H3).
    cbn [url_unescape]. rewrite H1. cbn [mbind option_bind]. rewrite H2. cbn [mbind option_bind]. by rewrite IH, H3.
  - assert (url_unescape (String c (url_escape s)) = String c <$> url_unescape (url_escape s)) as ->; [|by rewrite IH].
    by destruct c as [[] [] [] [] [] [] [] []].
Qed.

Lemma url_escape_plain s : forall_bytes (λ c, negb (in_range 0 31 c || in_range 127 127 c || Ascii.eqb c "?" || Ascii.eqb c "#")) (url_escape s) = true.
Proof.
  induction s as [|c s IH]; [done|]. cbn [url_escape]. destruct (shouldEscape c) eqn:He; cbn [forall_bytes]; rewrite IH; clear IH;
    destruct c as [[] [] [] [] [] [] [] []]; done.
Qed.

Lemma url_escape_app a b : url_escape (a +:+ b) = url_escape a +:+ url_escape b.
Proof. induction a as [|c a IH]; [done|]. rewrite string_app_cons. cbn. rewrite IH. by destruct (shouldEscape c). Qed.

Lemma url_escape_join l : url_escape (join "/" l) = join "/" (url_escape <$> l).
Proof.
  induction l as [|x [|y l] IH]; [done|done|].
  rewrite join_cons, url_escape_app. cbn [url_escape]. change (shouldEscape "/") with false. cbn iota. rewrite IH.
  by rewrite !fmap_cons, join_cons.
Qed.

Lemma url_escape_no_slash s : contains_byte "/" s = false → contains_byte "/" (url_escape s) = false.
Proof.
  induction s as [|c s IH]; [done|]. intros [Hc Hs]%orb_false_iff. specialize (IH Hs). cbn [url_escape].
  destruct (shouldEscape c); cbn [contains_byte]; rewrite IH, ?Hc; [|done]. by destruct c as [[] [] [] [] [] [] [] []].
Qed.

(** ** Paths of plain segments *)

Lemma clean_kept acc segs : forallb kept segs = true → clean_elements acc segs = (rev acc ++ segs)%list.
Proof.
  revert acc. induction segs as [|s segs IH]; intros acc H; [by rewrite app_nil_r|].
  apply andb_true_iff in H as [Hs H]. apply andb_true_iff in Hs as [_ Hs]. cbn [clean_elements].
  destruct (String.eqb s ""), (String.eqb s "."), (String.eqb s ".."); try discriminate. cbn [orb].
  rewrite (IH (s :: acc) H). cbn [rev]. by rewrite <-app_assoc.
Qed.

Lemma kept_no_slash segs : forallb kept segs = true → Forall (λ s, contains_byte "/" s = false) segs.
Proof.
  rewrite forallb_forall. intros H. apply Forall_forall. intros s Hs%list_elem_of_In. apply H in Hs.
  unfold kept in Hs. by destruct (contains_byte "/" s).
Qed.

Lemma split_rooted segs : segs ≠ [] → forallb kept segs = true → split "/" (rooted segs) = "" :: segs.
Proof. intros Hn H. cbn. by rewrite split_join by auto using kept_no_slash. Qed.

Lemma split_trailing l : split "/" (l +:+ "/") = (split "/" l ++ [""])%list.
Proof.
  induction l as [|c l IH]; [done|]. rewrite string_app_cons. cbn [split]. rewrite IH.
  destruct (Ascii.eqb c "/"); [done|]. by destruct (split_cons_inv "/" l) as (x & xs & ->).
Qed.

Lemma rooted_no_trailing segs : segs ≠ [] → forallb kept segs = true → ends_with_slash (rooted segs) = false.
Proof.
  intros Hn H. unfold ends_with_slash. destruct (cut_last "/" (rooted segs)) as [[l [|c r]]|] eqn:E; try done.
  apply cut_last_Some in E as [E _]. pose proof (split_rooted segs Hn H) as Hs. rewrite E, split_trailing in Hs.
  destruct segs as [|s segs _] using rev_ind; [done|]. rewrite app_comm_cons in Hs.
  apply app_inj_tail in Hs as [_ <-]. rewrite forallb_app in H. by apply andb_true_iff in H as [_ ?].
Qed.

Lemma cleanPath_kept segs : segs ≠ [] → forallb kept segs = true → cleanPath (rooted segs) = rooted segs.
Proof.
  intros Hn H. unfold cleanPath. rewrite (rooted_no_trailing segs Hn H), (split_rooted segs Hn H). cbn [andb].
  change (clean_elements [] ("" :: segs)) with (clean_elements [] segs). by rewrite (clean_kept [] segs H).
Qed.

Lemma path_segments_kept segs : segs ≠ [] → forallb kept segs = true →
  path_segments (rooted segs) = (λ s, default s (url_unescape s)) <$> segs.
Proof.
  intros Hn H. unfold path_segments. change (drop_bytes 1 (rooted segs)) with (join "/" segs).
  rewrite split_join by auto using kept_no_slash. clear Hn. induction segs as [|s segs IH]; [done|].
  apply andb_true_iff in H as [Hs H]. rewrite !fmap_cons, (IH H). f_equal.
  unfold kept in Hs. apply andb_true_iff in Hs as [_ Hs]. by destruct (String.eqb s "").
Qed.

(** The two texts that stand for a path without "%". *)
Definition encodes (p e : string) : Prop := (e = p ∧ validEncoded p = true) ∨ e = url_escape p.

Lemma EscapedPath_setPath p e path raw s h q :
  contains_byte "%" p = false → encodes p e → setPath e = Some (path, raw) → EscapedPath (mkURL s h path raw q) = e.
Proof.
  intros Hp He. assert (url_unescape e = Some p) as Hu.
  { destruct He as [[-> _]| ->]; auto using url_unescape_plain, url_unescape_escape. }
  unfold setPath. rewrite Hu. cbn. intros [= <- <-]. unfold EscapedPath. cbn.
  destruct (String.eqb_spec e (url_escape p)) as [->|Hne]; [done|].
  destruct He as [[-> Hv]|]; [|done]. rewrite Hv, Hu, String.eqb_refl.
  destruct (String.eqb_spec p "") as [->|]; done.
Qed.

Lemma EscapedPath_encodes p path raw s h q :
  contains_byte "%" p = false → setPath p = Some (path, raw) → encodes p (EscapedPath (mkURL s h path raw q)).
Proof.
  intros Hp. unfold setPath. rewrite (url_unescape_plain p Hp). cbn. intros [= <- <-]. unfold EscapedPath, encodes. cbn.
  destruct (String.eqb_spec p (url_escape p)) as [|Hne]; [by right|].
  destruct (validEncoded p); rewrite ?andb_false_r; [|by right].
  destruct (String.eqb_spec p "") as [->|]; [done|]. rewrite (url_unescape_plain p Hp), String.eqb_refl. by left.
Qed.

Lemma kept_escape segs : forallb kept segs = true → forallb kept (url_escape <$> segs) = true.
Proof.
  rewrite !forallb_forall. intros H e (s & -> & Hs%list_elem_of_In)%list_elem_of_In%list_elem_of_fmap. apply H in Hs.
  unfold kept in *. apply andb_true_iff in Hs as [Hs1 Hs2]. apply andb_true_iff. split.
  - apply negb_true_iff, url_escape_no_slash. by apply negb_true_iff.
  - assert (∀ t, url_unescape t = Some t → String.eqb s t = false → String.eqb (url_escape s) t = false) as Hne.
    { intros t Ht Hst. apply String.eqb_neq in Hst. apply String.eqb_neq. intros Heq. apply Hst.
      pose proof (url_unescape_escape s) as Hu. rewrite Heq, Ht in Hu. by injection Hu. }
    destruct (String.eqb s "") eqn:E0, (String.eqb s ".") eqn:E1, (String.eqb s "..") eqn:E2; try done.
    by rewrite !Hne.
Qed.

(** However the path was encoded, the segments that are matched are those of the path. *)
Lemma segments_of_encoding segs e : segs ≠ [] → forallb plain_segment segs = true → encodes (rooted segs) e →
  cleanPath e = e ∧ path_segments e = segs.
Proof.
  intros Hn Hp He.
  assert (forallb kept segs = true) as Hk.
  { revert Hp. rewrite !forallb_forall. intros H s Hs. by apply H, andb_true_iff in Hs as [_ ?]. }
  destruct He as [[-> _]| ->].
  - rewrite cleanPath_kept, path_segments_kept by done. split; [done|]. clear Hn Hk.
    induction segs as [|s segs IH]; [done|]. apply andb_true_iff in Hp as [Hs Hp]. rewrite fmap_cons, (IH Hp).
    unfold plain_segment in Hs. apply andb_true_iff in Hs as [Hs _].
    by rewrite (url_unescape_plain s) by by apply plain_no_byte.
  - assert (url_escape (rooted segs) = rooted (url_escape <$> segs)) as ->.
    { unfold rooted. cbn [url_escape]. change (shouldEscape "/") with false. cbn iota. by rewrite url_escape_join. }
    assert (url_escape <$> segs ≠ []) by by destruct segs.
    rewrite cleanPath_kept, path_segments_kept by auto using kept_escape. split; [done|].
    rewrite <-list_fmap_compose. rewrite <-(list_fmap_id segs) at 2. apply list_fmap_ext. intros i s _.
    cbn. by rewrite url_unescape_escape.
Qed.

Lemma plain_rooted segs : forallb plain_segment segs = true → forall_bytes plain_byte (rooted segs) = true.
Proof.
  intros H. change (forall_bytes plain_byte (join "/" segs) = true). apply forall_bytes_join; [done|].
  revert H. rewrite !forallb_forall. intros H s Hs. by apply H, andb_true_iff in Hs as [? _].
Qed.

Lemma encoding_is_plain p e : forall_bytes plain_byte p = true → encodes p e →
  contains_byte "?" e = false ∧ has_ctl e = false.
Proof.
  intros Hp [[-> _]| ->]; [by split; [apply plain_no_byte|apply plain_no_ctl]|].
  pose proof (url_escape_plain p) as H. induction (url_escape p) as [|c s IH]; [done|].
  cbn [forall_bytes] in H. apply andb_true_iff in H as [Hc H]. destruct (IH H) as [IH1 IH2]. cbn. rewrite IH1, IH2.
  by destruct (Ascii.eqb c "?"), (in_range 0 31 c), (in_range 127 127 c), (Ascii.eqb c "#").
Qed.

Definition plain_host (h : string) : bool := forall_bytes plain_byte h && negb (contains_byte "/" h).

(** What may follow the path: nothing, or a query. *)
Definition query_tail (q : option string) : string := match q with Some q => String "?" q | None => "" end.

Definition plain_query (q : option string) : bool :=
  match q with Some q => negb (has_ctl q || contains_byte "#" q) | None => true end.

Lemma has_ctl_app a b : has_ctl (a +:+ b) = has_ctl a || has_ctl b.
Proof. induction a as [|c a IH]; [done|]. rewrite string_app_cons. cbn. by rewrite IH, orb_assoc. Qed.

Lemma cut_or_all_tail p q : contains_byte "?" p = false →
  cut_or_all "?" (p +:+ query_tail q) = (p, default "" q).
Proof.
  intros Hp. unfold cut_or_all. destruct q as [q|]; cbn [query_tail default].
  - by rewrite cut_app.
  - rewrite string_app_nil_r. by rewrite (proj2 (cut_None "?" p) Hp).
Qed.

Lemma url_Parse_plain host_ok host p q :
  plain_host host = true → host_ok host = true → forall_bytes plain_byte p = true → has_prefix "/" p = true →
  plain_query q = true →
  ∃ raw, setPath p = Some (p, raw) ∧
    url_Parse host_ok ("http://" +:+ host +:+ p +:+ query_tail q) = Some (mkURL "http" host p raw (default "" q)).
Proof.
  intros Hh Hok Hp [p' ->]%has_prefix_true Hq. change ("/" +:+ p') with (String "/" p') in *. set (p := String "/" p') in *.
  unfold plain_host in Hh. apply andb_true_iff in Hh as [Hh Hsl%negb_true_iff].
  assert (setPath p = Some (p, if String.eqb p (url_escape p) then "" else p)) as Hset.
  { unfold setPath. by rewrite (url_unescape_plain p) by by apply plain_no_byte. }
  eexists. split; [exact Hset|]. unfold url_Parse.
  assert (contains_byte "#" (query_tail q) = false ∧ has_ctl (query_tail q) = false) as [Hq1 Hq2].
  { destruct q as [q|]; [|done]. cbn in Hq |- *. by destruct (has_ctl q), (contains_byte "#" q). }
  assert (cut_or_all "#" ("http://" +:+ host +:+ p +:+ query_tail q) = ("http://" +:+ host +:+ p +:+ query_tail q, "")) as ->.
  { unfold cut_or_all. rewrite (proj2 (cut_None "#" _)); [done|]. rewrite !contains_byte_app, Hq1.
    by rewrite (plain_no_byte "#" host), (plain_no_byte "#" p). }
  assert (has_ctl ("http://" +:+ host +:+ p +:+ query_tail q) = false) as ->.
  { by rewrite !has_ctl_app, Hq2, (plain_no_ctl host), (plain_no_ctl p). }
  cbn [url_unescape mbind option_bind].
  change (getScheme ("http://" +:+ host +:+ p +:+ query_tail q)) with (Some ("http", "//" +:+ host +:+ p +:+ query_tail q)).
  cbn [mbind option_bind].
  replace ("//" +:+ host +:+ p +:+ query_tail q) with (("//" +:+ host +:+ p) +:+ query_tail q) by by rewrite !string_app_assoc.
  rewrite cut_or_all_tail
    by by rewrite !contains_byte_app, (plain_no_byte "?" host), (plain_no_byte "?" p).
  change (String.eqb "http" "" || negb (has_prefix "//" ("//" +:+ host +:+ p))) with false. cbn iota.
  change (drop_bytes 2 ("//" +:+ host +:+ p)) with (host +:+ String "/" p').
  rewrite cut_app by done. rewrite Hok. cbn [negb]. fold p. by rewrite Hset.
Qed.

(** A request for a path of plain segments is routed by those segments. *)
Lemma deliver_plain {E} host_ok (routes : list (pattern * E)) m host segs q :
  plain_host host = true → host_ok host = true → segs ≠ [] → forallb plain_segment segs = true → plain_query q = true →
  deliver host_ok routes m ("http://" +:+ host +:+ rooted segs +:+ query_tail q) = Some (route routes m segs).
Proof.
  intros Hh Hok Hn Hs Hq. pose proof (plain_rooted segs Hs) as Hp.
  destruct (url_Parse_plain host_ok host (rooted segs) q Hh Hok Hp eq_refl Hq) as (raw & Hset & Hparse).
  unfold deliver. rewrite Hparse. cbn [mbind option_bind]. set (u := mkURL _ _ _ _ _).
  assert (contains_byte "%" (rooted segs) = false) as Hpc by by apply plain_no_byte.
  assert (encodes (rooted segs) (EscapedPath u)) as He by exact (EscapedPath_encodes _ _ _ _ _ _ Hpc Hset).
  destruct (encoding_is_plain _ _ Hp He) as [He1 He2]. destruct (segments_of_encoding segs _ Hn Hs He) as [Hc Hseg].
  set (e := EscapedPath u) in *. unfold RequestURI. fold e. change (uRawQuery u) with (default "" q).
  assert (∃ t, e = String "/" t) as [t Ht].
  { destruct He as [[-> _]| ->]; cbn [url_escape rooted]; [eauto|]. change (shouldEscape "/") with false. eauto. }
  assert (String.eqb e "" = false) as -> by by rewrite Ht.
  assert (∃ q', (if String.eqb (default "" q) "" then "" else String "?" (default "" q)) = query_tail q' ∧ has_ctl (query_tail q') = false)
    as (q' & -> & Hctl).
  { destruct q as [[|c q]|]; [by exists None| |by exists None]. exists (Some (String c q)). split; [done|].
    cbn in Hq |- *. by destruct (in_range 0 31 c || in_range 127 127 c || has_ctl q). }
  unfold ParseRequestURI. rewrite cut_or_all_tail by done.
  rewrite has_ctl_app, He2, Hctl. cbn [orb]. assert (has_prefix "/" e = true) as -> by by rewrite Ht. cbn [negb].
  destruct (setPath e) as [[path' raw']|] eqn:Hse.
  - cbn [mbind option_bind]. unfold serve. rewrite (EscapedPath_setPath (rooted segs) e path' raw') by done.
    by rewrite Hc, String.eqb_refl, Hseg.
  - exfalso. unfold setPath in Hse. destruct He as [[He _]|He]; rewrite He in Hse;
      [by rewrite (url_unescape_plain _ Hpc) in Hse|by rewrite url_unescape_escape in Hse].
Qed.
