(* ===== verification/Management.v ===== *)
(** The management API of a core node (internal/cluster/management/api.go): the
    role, binding and ruleset endpoints, the revocation webhook, and the cluster
    views. A handler is a program of requests to the registry and the evictor that
    ends in an HTTP status; what it reads of the HTTP request is its argument.
    [core] says whether the registry supports administration. The hash of the
    webhook's signature is an argument: crypto/hmac with SHA-256. *)
From stdpp Require Import gmap list strings.
From S2P Require Import Prelude GoStrings GoSort Effects Acl Fsm Codec Json Storage Registry.

Open Scope string_scope.

Inductive managementReq : Type → Type :=
  | AclWrite (w : aclWrite) : managementReq bool
  | RevokeCertificate (identity serial : string) : managementReq bool
  | ClientIDsForIdentity (identity : string) : managementReq (list string)
  | SessionOwner (clientID : string) : managementReq (option string)
  | Evict (nodeID clientID : string) : managementReq bool.

Abbreviation handler := (proc managementReq Z).

Definition StatusOK : Z := 200.
Definition StatusBadRequest : Z := 400.
Definition StatusUnauthorized : Z := 401.
Definition StatusNotFound : Z := 404.
Definition StatusInternalServerError : Z := 500.
Definition StatusServiceUnavailable : Z := 503.

Open Scope proc_scope.

(** ** Roles, bindings and rulesets *)

(** json.Decoder.Decode: the first value of the body; the rest is not read. *)
Definition decode_first (body : string) : option json := fst <$> parse_value (S (S (2 * String.length body))) body.

Definition admin_write (w : aclWrite) : handler :=
  ok <- request (AclWrite w);;
  Done (if ok : bool then StatusOK else StatusInternalServerError).

Record createRoleRequest := mkCreateRole { crName : string; crRules : list ACLRule }.

Definition set_create_role (k : string) (v : json) (r : createRoleRequest) : option createRoleRequest :=
  if String.eqb k "name" then (λ x, mkCreateRole x (crRules r)) <$> into_string v (crName r)
  else (λ x, mkCreateRole (crName r) x) <$> into_rules v (crRules r).

Definition handleCreateRole (core : bool) (body : string) : handler :=
  if negb core then Done StatusServiceUnavailable
  else match v ← decode_first body; into_struct ["name"; "rules"] set_create_role v (mkCreateRole "" []) with
       | None => Done StatusBadRequest
       | Some req =>
           if String.eqb (crName req) "" then Done StatusBadRequest
           else admin_write (CreateRole (crName req) (crRules req))
       end.

Definition handleDeleteRole (core : bool) (name : string) : handler :=
  if negb core then Done StatusServiceUnavailable
  else if String.eqb name "" then Done StatusBadRequest
  else admin_write (DeleteRole name).

Record createBindingRequest := mkCreateBinding { cbPrincipal : string; cbRoleName : string }.

Definition set_create_binding (k : string) (v : json) (r : createBindingRequest) : option createBindingRequest :=
  if String.eqb k "principal" then (λ x, mkCreateBinding x (cbRoleName r)) <$> into_string v (cbPrincipal r)
  else (λ x, mkCreateBinding (cbPrincipal r) x) <$> into_string v (cbRoleName r).

Definition handleCreateBinding (core : bool) (body : string) : handler :=
  if negb core then Done StatusServiceUnavailable
  else match v ← decode_first body; into_struct ["principal"; "role_name"] set_create_binding v (mkCreateBinding "" "") with
       | None => Done StatusBadRequest
       | Some req =>
           if String.eqb (cbPrincipal req) "" || String.eqb (cbRoleName req) "" then Done StatusBadRequest
           else admin_write (CreateBinding (cbPrincipal req) (cbRoleName req))
       end.

Definition handleDeleteBinding (core : bool) (principal roleName : string) : handler :=
  if negb core then Done StatusServiceUnavailable
  else if String.eqb principal "" || String.eqb roleName "" then Done StatusBadRequest
  else admin_write (DeleteBinding principal roleName).

Definition handleEnableRuleset (core : bool) (name : string) : handler :=
  if negb core then Done StatusServiceUnavailable
  else match StandardRulesets !! name with
       | None => Done StatusNotFound
       | Some _ => admin_write (EnableRuleset name)
       end.

Definition handleDisableRuleset (core : bool) (name : string) : handler :=
  if negb core then Done StatusServiceUnavailable else admin_write (DisableRuleset name).

(** The lists, sorted by their key; [rows] is the snapshot in the order of the iteration. *)
Definition handleListRoles (rows : list (string * Role)) : list (string * list ACLRule) :=
  SliceStable (by_key fst) ((λ '(name, role), (name, Rules role)) <$> rows).

Definition handleListBindings (rows : list (string * list string)) : list (string * list string) :=
  SliceStable (by_key fst) rows.

Definition handleListRulesets (enabled : list string) : list (string * bool) :=
  (λ name, (name, existsb (String.eqb name) enabled)) <$> SliceStable (by_key id) (fst <$> map_to_list StandardRulesets).

(** The routes with their parameters. *)
Inductive aclRequest :=
  | PostRole (body : string)
  | DeleteRoleNamed (name : string)
  | PostBinding (body : string)
  | DeleteBindingOf (principal role : string)
  | PostEnable (name : string)
  | PostDisable (name : string).

Definition acl_route (core : bool) (r : aclRequest) : handler :=
  match r with
  | PostRole body => handleCreateRole core body
  | DeleteRoleNamed name => handleDeleteRole core name
  | PostBinding body => handleCreateBinding core body
  | DeleteBindingOf principal role => handleDeleteBinding core principal role
  | PostEnable name => handleEnableRuleset core name
  | PostDisable name => handleDisableRuleset core name
  end.

(** ** The revocation webhook *)

Record clavexEventPayload := mkPayload { plEvent : string; plOrgID : string; plData : option json }.

Definition set_payload (k : string) (v : json) (p : clavexEventPayload) : option clavexEventPayload :=
  if String.eqb k "event" then (λ x, mkPayload x (plOrgID p) (plData p)) <$> into_string v (plEvent p)
  else if String.eqb k "org_id" then (λ x, mkPayload (plEvent p) x (plData p)) <$> into_string v (plOrgID p)
  else Some (mkPayload (plEvent p) (plOrgID p) (Some v)).

Record clavexDeviceCertRevokedData := mkRevokedData { rdDeviceID : string; rdSerial : string }.

Definition set_revoked_data (k : string) (v : json) (d : clavexDeviceCertRevokedData) : option clavexDeviceCertRevokedData :=
  if String.eqb k "device_id" then (λ x, mkRevokedData x (rdSerial d)) <$> into_string v (rdDeviceID d)
  else (λ x, mkRevokedData (rdDeviceID d) x) <$> into_string v (rdSerial d).

(** hex.EncodeToString *)
Fixpoint hex_encode (s : string) : string :=
  match s with
  | "" => ""
  | String c s => String (hex_digit (N.div (N_of_ascii c) 16)) (String (hex_digit (N.modulo (N_of_ascii c) 16)) (hex_encode s))
  end.

(** io.LimitReader(r.Body, 1<<20) *)
Definition body_limit : nat := N.to_nat 1048576.

Fixpoint evict_clients (clients : list string) : proc managementReq unit :=
  match clients with
  | [] => Done tt
  | clientID :: clients =>
      owner <- request (SessionOwner clientID);;
      match owner with
      | None => evict_clients clients
      | Some nodeID => request (Evict nodeID clientID);; evict_clients clients
      end
  end.

(** The eviction of each client runs in a goroutine of its own whose result is
    only logged: no later step depends on it. *)
Definition evictRevokedSessions (evictor : bool) (identity : string) : proc managementReq unit :=
  if negb evictor then Done tt
  else clients <- request (ClientIDsForIdentity identity);; evict_clients clients.

Section Webhook.
  Context (hmac_sha256 : string → string → string).

(** [body] is [None] when reading it failed. *)
Definition handleRevocationWebhook (core evictor : bool) (secret signature : string) (body : option string) : handler :=
  if negb core then Done StatusServiceUnavailable
  else match take_bytes body_limit <$> body with
  | None => Done StatusBadRequest
  | Some body =>
      if String.eqb secret "" then Done StatusServiceUnavailable
      else
        let sig := trim_prefix "sha256=" signature in
        let want := hex_encode (hmac_sha256 secret body) in
        if String.eqb sig "" || negb (String.eqb sig want) then Done StatusUnauthorized
        else match v ← parse body; into_struct ["event"; "org_id"; "data"] set_payload v (mkPayload "" "" None) with
        | None => Done StatusBadRequest
        | Some payload =>
            if negb (String.eqb (plEvent payload) "device.cert.revoked") then Done StatusOK
            else match v ← plData payload; into_struct ["device_id"; "serial"] set_revoked_data v (mkRevokedData "" "") with
            | None => Done StatusBadRequest
            | Some data =>
                if String.eqb (rdDeviceID data) "" || String.eqb (plOrgID payload) "" then Done StatusBadRequest
                else
                  let identity := rdDeviceID data +:+ "@" +:+ plOrgID payload in
                  ok <- request (RevokeCertificate identity (rdSerial data));;
                  if negb ok then Done StatusInternalServerError
                  else evictRevokedSessions evictor identity;; Done StatusOK
            end
        end
  end.
End Webhook.

(** ** Properties *)

(** What may be written: named things only, and only rulesets that exist are enabled. *)
Definition valid_write (w : aclWrite) : Prop :=
  match w with
  | CreateRole name _ | DeleteRole name => name ≠ ""
  | CreateBinding principal role | DeleteBinding principal role => principal ≠ "" ∧ role ≠ ""
  | EnableRuleset name => is_Some (StandardRulesets !! name)
  | DisableRuleset _ => True
  end.

(** A handler that ends at once. *)
Ltac refused Hdone := let H := fresh "H" in intros H; left; eapply Hdone, H; rewrite !elem_of_cons; clear; tauto.

Lemma admin_write_runs w code tr : runs (admin_write w) code tr →
  ∃ ok, tr = [Event (AclWrite w) ok] ∧ code = if ok : bool then StatusOK else StatusInternalServerError.
Proof. intros (ok & tr' & -> & -> & ->). by exists ok. Qed.

(** A request to the role, binding and ruleset endpoints either is refused
    with status 400, 404 or 503 and changes nothing, or makes exactly one write, with
    every name given and only for a ruleset that exists when one is enabled, and
    reports 200 or 500 as the registry accepted it or not. *)
Theorem acl_admin_is_validated core r code tr : runs (acl_route core r) code tr →
  (tr = [] ∧ code ∈ [StatusBadRequest; StatusNotFound; StatusServiceUnavailable]) ∨
  ∃ w ok, core = true ∧ valid_write w ∧ tr = [Event (AclWrite w) ok] ∧
    code = if ok : bool then StatusOK else StatusInternalServerError.
Proof.
  assert (∀ c : Z, c ∈ [StatusBadRequest; StatusNotFound; StatusServiceUnavailable] → runs (Done c : handler) code tr →
    (tr = [] ∧ code ∈ [StatusBadRequest; StatusNotFound; StatusServiceUnavailable])) as Hdone by (intros c Hc [-> ->]; done).
  assert (∀ w, valid_write w → core = true → runs (admin_write w) code tr → ∃ w ok, core = true ∧ valid_write w ∧ tr = [Event (AclWrite w) ok] ∧
    code = if ok : bool then StatusOK else StatusInternalServerError) as Hwrite.
  { intros w Hw Hc (ok & -> & ->)%admin_write_runs. by exists w, ok. }
  destruct core; [|intros H; left; apply (Hdone StatusServiceUnavailable); [set_solver|]; by destruct r].
  destruct r as [body|name|body|principal role|name|name]; cbn [acl_route];
    unfold handleCreateRole, handleDeleteRole, handleCreateBinding, handleDeleteBinding, handleEnableRuleset, handleDisableRuleset; cbn [negb].
  - destruct (mbind _ (decode_first body)) as [c|]; [|refused Hdone]. destruct (String.eqb_spec (crName c) ""); [refused Hdone|].
    intros H'. right. by apply Hwrite in H'.
  - destruct (String.eqb_spec name ""); [refused Hdone|]. intros H. right. by apply Hwrite in H.
  - destruct (mbind _ (decode_first body)) as [c|]; [|refused Hdone].
    destruct (String.eqb_spec (cbPrincipal c) ""), (String.eqb_spec (cbRoleName c) ""); cbn [orb];
      try (refused Hdone). intros H'. right. by apply Hwrite in H'.
  - destruct (String.eqb_spec principal ""), (String.eqb_spec role ""); cbn [orb];
      try (refused Hdone). intros H'. right. by apply Hwrite in H'.
  - destruct (StandardRulesets !! name) eqn:E; [|refused Hdone].
    intros H. right. apply Hwrite in H; [done| |done]. by exists r.
  - intros H. right. by apply Hwrite in H.
Qed.

Lemma acl_admin_is_validated_witness :
  ([Event (AclWrite (DeleteRole "operator")) true] = [] ∧ 200%Z ∈ [StatusBadRequest; StatusNotFound; StatusServiceUnavailable]) ∨
  ∃ w ok, true = true ∧ valid_write w ∧ [Event (AclWrite (DeleteRole "operator")) true] = [Event (AclWrite w) ok] ∧
    200%Z = if ok : bool then StatusOK else StatusInternalServerError.
Proof. apply (acl_admin_is_validated true (DeleteRoleNamed "operator")). by exists true, []. Defined.

(** The requests of an eviction: for each client its owner, and the order to that
    owner if there is one. *)
Definition eviction (x : string * option (string * bool)) : list (event managementReq) :=
  match x with
  | (c, None) => [Event (SessionOwner c) None]
  | (c, Some (n, b)) => [Event (SessionOwner c) (Some n); Event (Evict n c) b]
  end.

Lemma evict_clients_runs clients tr : runs (evict_clients clients) tt tr →
  ∃ answers, answers.*1 = clients ∧ tr = concat (eviction <$> answers).
Proof.
  revert tr. induction clients as [|c clients IH]; intros tr; cbn [evict_clients].
  - intros [_ ->]. by exists [].
  - intros ([n|] & tr' & -> & H); cbn in H.
    + destruct H as (b & tr'' & -> & (answers & <- & ->)%IH). by exists ((c, Some (n, b)) :: answers).
    + apply IH in H as (answers & <- & ->). by exists ((c, None) :: answers).
Qed.

(** The body is an authentic revocation of [identity]. *)
Definition authentic (hmac : string → string → string) (secret signature : string) (body : option string) (identity serial : string) : Prop :=
  ∃ text payload data v w, body = Some text ∧ secret ≠ "" ∧
    trim_prefix "sha256=" signature = hex_encode (hmac secret (take_bytes body_limit text)) ∧
    parse (take_bytes body_limit text) = Some v ∧ into_struct ["event"; "org_id"; "data"] set_payload v (mkPayload "" "" None) = Some payload ∧
    plEvent payload = "device.cert.revoked" ∧ plData payload = Some w ∧
    into_struct ["device_id"; "serial"] set_revoked_data w (mkRevokedData "" "") = Some data ∧
    rdDeviceID data ≠ "" ∧ plOrgID payload ≠ "" ∧ identity = rdDeviceID data +:+ "@" +:+ plOrgID payload ∧ serial = rdSerial data.

(** C39: The webhook touches the deny-list only for an authentic event: a secret
    is configured, the signature is the HMAC of the body that was read, and the
    event is a revocation that names a device and an organisation. It then revokes
    exactly that identity, reports 500 and stops when the registry refuses, and
    otherwise reports 200 after ordering every client of the identity with a known
    owner off that owner's node. *)
Theorem webhook_acts_on_authentic_events hmac core evictor secret signature body code tr :
  runs (handleRevocationWebhook hmac core evictor secret signature body) code tr →
  (tr = [] ∧ code ∈ [StatusOK; StatusBadRequest; StatusUnauthorized; StatusServiceUnavailable]) ∨
  ∃ identity serial ok rest, core = true ∧ authentic hmac secret signature body identity serial ∧
    tr = Event (RevokeCertificate identity serial) ok :: rest ∧
    (ok = false → code = StatusInternalServerError ∧ rest = []) ∧
    (ok = true → code = StatusOK ∧
       if evictor then ∃ clients answers, answers.*1 = clients ∧
         rest = Event (ClientIDsForIdentity identity) clients :: concat (eviction <$> answers)
       else rest = []).
Proof.
  assert (∀ c : Z, c ∈ [StatusOK; StatusBadRequest; StatusUnauthorized; StatusServiceUnavailable] → runs (Done c : handler) code tr →
    (tr = [] ∧ code ∈ [StatusOK; StatusBadRequest; StatusUnauthorized; StatusServiceUnavailable])) as Hdone by (intros c Hc [-> ->]; done).
  unfold handleRevocationWebhook. destruct core; cbn [negb]; [|refused Hdone].
  destruct body as [text|]; cbn [fmap option_fmap option_map]; [|refused Hdone].
  destruct (String.eqb_spec secret "") as [|Hs]; [refused Hdone|]. cbv zeta.
  destruct (String.eqb_spec (trim_prefix "sha256=" signature) "") as [|Hne]; [refused Hdone|]. cbn [orb].
  destruct (String.eqb_spec (trim_prefix "sha256=" signature) (hex_encode (hmac secret (take_bytes body_limit text)))) as [Hsig|];
    [|refused Hdone]. cbn [negb].
  destruct (parse (take_bytes body_limit text)) as [v|] eqn:Ev; cbn [mbind option_bind]; [|refused Hdone].
  destruct (into_struct _ set_payload v _) as [payload|] eqn:Ep; [|refused Hdone].
  destruct (String.eqb_spec (plEvent payload) "device.cert.revoked") as [Ee|]; [|refused Hdone]. cbn [negb].
  destruct (plData payload) as [w|] eqn:Ew; cbn [mbind option_bind]; [|refused Hdone].
  destruct (into_struct _ set_revoked_data w _) as [data|] eqn:Ed; [|refused Hdone].
  destruct (String.eqb_spec (rdDeviceID data) "") as [|Hd]; [refused Hdone|].
  destruct (String.eqb_spec (plOrgID payload) "") as [|Ho]; [refused Hdone|]. cbn [orb].
  intros (ok & rest & -> & H). right. exists (rdDeviceID data +:+ "@" +:+ plOrgID payload), (rdSerial data), ok, rest.
  split_and!; [done|by exists text, payload, data, v, w|done|..]; intros ->; cbn [negb proc_bind] in H.
  - by destruct H as [-> ->].
  - apply runs_bind in H as ([] & t1 & t2 & H & [-> ->] & ->). rewrite app_nil_r. split; [done|].
    unfold evictRevokedSessions in H. destruct evictor; cbn [negb] in H; [|by destruct H].
    destruct H as (clients & t3 & -> & (answers & <- & ->)%evict_clients_runs). by exists answers.*1, answers.
Qed.

Definition sample_event : string :=
  print (JObj [("event", JStr "device.cert.revoked"); ("org_id", JStr "acme"); ("data", JObj [("device_id", JStr "dev-1"); ("serial", JStr "01")])]).

Definition sample_answers X (e : managementReq X) : X :=
  match e with
  | ClientIDsForIdentity _ => ["c1"]
  | SessionOwner _ => Some "edge-1"
  | _ => true
  end.

Lemma webhook_acts_on_authentic_events_witness :
  let tr := [Event (RevokeCertificate "dev-1@acme" "01") true; Event (ClientIDsForIdentity "dev-1@acme") ["c1"];
             Event (SessionOwner "c1") (Some "edge-1"); Event (Evict "edge-1" "c1") true] in
  (tr = [] ∧ StatusOK ∈ [StatusOK; StatusBadRequest; StatusUnauthorized; StatusServiceUnavailable]) ∨
  ∃ identity serial ok rest, true = true ∧ authentic (λ _ _, "k") "secret" "sha256=6b" (Some sample_event) identity serial ∧
    tr = Event (RevokeCertificate identity serial) ok :: rest ∧
    (ok = false → StatusOK = StatusInternalServerError ∧ rest = []) ∧
    (ok = true → StatusOK = StatusOK ∧ ∃ clients answers, answers.*1 = clients ∧
       rest = Event (ClientIDsForIdentity identity) clients :: concat (eviction <$> answers)).
Proof.
  intros tr. apply (webhook_acts_on_authentic_events (λ _ _, "k") true true "secret" "sha256=6b" (Some sample_event) StatusOK tr).
  assert (answer sample_answers (handleRevocationWebhook (λ _ _, "k") true true "secret" "sha256=6b" (Some sample_event)) = (StatusOK, tr)) as E
    by (vm_compute; reflexivity).
  pose proof (answer_runs sample_answers (handleRevocationWebhook (λ _ _, "k") true true "secret" "sha256=6b" (Some sample_event))) as H.
  rewrite E in H. exact H.
Defined.
