(* ===== verification/ClusterApi.v ===== *)
(** The cluster endpoints of the management API and its route table
    (internal/cluster/management/api.go), with the time a rebalancing request
    takes against the deadline of the server it runs under (cmd/server/main.go).
    The role and ruleset endpoints and the webhook are in Management; the
    snapshot endpoint is in Backup. *)
From S2P Require Import Prelude GoStrings Float64 Effects Membership Lifecycle Rebalance Decimal Codec Json GoNet Management.

Open Scope string_scope.
Local Open Scope proc_scope.

(** ** The route table *)

Inductive endpoint :=
  | ENodes | ERoutes | ESessions | ESessionInventory | ELiveMetrics | ELiveClients | EUI
  | EDrain | ERebalance | ERevocations | ESnapshot
  | EListRoles | ECreateRole | EDeleteRole | EListBindings | ECreateBinding | EDeleteBinding
  | EListRulesets | EEnableRuleset | EDisableRuleset.

Definition Router : list (pattern * endpoint) :=
  [ (("GET", [Some "api"; Some "cluster"; Some "nodes"]), ENodes);
    (("GET", [Some "api"; Some "cluster"; Some "routes"]), ERoutes);
    (("GET", [Some "api"; Some "cluster"; Some "sessions"]), ESessions);
    (("GET", [Some "api"; Some "cluster"; Some "session-inventory"]), ESessionInventory);
    (("GET", [Some "api"; Some "metrics"]), ELiveMetrics);
    (("GET", [Some "api"; Some "live"; Some "clients"]), ELiveClients);
    (("GET", [Some "ui"]), EUI);
    (("POST", [Some "api"; Some "cluster"; Some "drain"]), EDrain);
    (("POST", [Some "api"; Some "cluster"; Some "rebalance"]), ERebalance);
    (("POST", [Some "api"; Some "cluster"; Some "revocations"]), ERevocations);
    (("POST", [Some "api"; Some "cluster"; Some "snapshot"]), ESnapshot);
    (("GET", [Some "api"; Some "acl"; Some "roles"]), EListRoles);
    (("POST", [Some "api"; Some "acl"; Some "roles"]), ECreateRole);
    (("DELETE", [Some "api"; Some "acl"; Some "roles"; None]), EDeleteRole);
    (("GET", [Some "api"; Some "acl"; Some "bindings"]), EListBindings);
    (("POST", [Some "api"; Some "acl"; Some "bindings"]), ECreateBinding);
    (("DELETE", [Some "api"; Some "acl"; Some "bindings"; None; None]), EDeleteBinding);
    (("GET", [Some "api"; Some "acl"; Some "rulesets"]), EListRulesets);
    (("POST", [Some "api"; Some "acl"; Some "rulesets"; None; Some "enable"]), EEnableRuleset);
    (("POST", [Some "api"; Some "acl"; Some "rulesets"; None; Some "disable"]), EDisableRuleset) ].

(** The request that an endpoint of the role API hands to its handler. *)
Definition acl_request (e : endpoint) (params : list string) (body : string) : option aclRequest :=
  match e, params with
  | ECreateRole, [] => Some (PostRole body)
  | EDeleteRole, [name] => Some (DeleteRoleNamed name)
  | ECreateBinding, [] => Some (PostBinding body)
  | EDeleteBinding, [principal; role] => Some (DeleteBindingOf principal role)
  | EEnableRuleset, [name] => Some (PostEnable name)
  | EDisableRuleset, [name] => Some (PostDisable name)
  | _, _ => None
  end.

(** ** Views *)

Record nodeView := mkNodeView {
  nvNodeID : string;
  nvRole : string;
  nvGRPCAddr : string;
  nvRaftAddr : string;
  nvIsSelf : bool;
  nvIsLeader : bool;
  nvRaftVoter : bool;
}.

(** [raft] is [None] on a node without Raft; otherwise the servers of the
    configuration, [None] when it could not be read, and the leader. *)
Definition handleNodes (self : string) (raft : option (option (list string) * string)) (members : list NodeMeta) : list nodeView :=
  let voters := match raft with Some (Some servers, _) => servers | _ => [] end in
  let leaderID := match raft with Some (_, leader) => leader | None => "" end in
  (λ meta, mkNodeView (NodeID meta) (Role meta) (GRPCAddr meta) (RaftAddr meta)
             (String.eqb (NodeID meta) self) (String.eqb (NodeID meta) leaderID)
             (existsb (String.eqb (NodeID meta)) voters)) <$> members.

(** The answer of an endpoint: its status and, on success, what is written as JSON. *)
Abbreviation answerOf A := (Z * option A)%type.

(** The registry of a core node has a snapshot of its routes. *)
Definition handleRoutes {A} (snapshot : option A) : answerOf A :=
  match snapshot with Some routes => (StatusOK, Some routes) | None => (StatusServiceUnavailable, None) end.

Definition handleSessions (raft : option (gmap string string)) : answerOf (gmap string string) :=
  match raft with Some sessions => (StatusOK, Some sessions) | None => (StatusServiceUnavailable, None) end.

(** ** Drain and rebalance *)

Definition handleDrain (raft gossip : bool) : proc drainReq Z :=
  ok <- Drain raft gossip;;
  Done (if ok : bool then StatusOK else StatusInternalServerError).

(** [sessions] is [None] on a node without Raft, [members] on one without gossip. *)
Definition handleRebalance (sessions : option (gmap string string)) (members : option (list NodeMeta)) (cfg : RebalanceConfig)
    (evictor : bool) (dryRun : string) : proc rebalanceReq (answerOf RebalanceResult) :=
  match sessions with
  | None => Done (StatusServiceUnavailable, None)
  | Some sessions =>
      let liveEdge := match members with Some ms => LiveEdgeNodes ms | None => ∅ end in
      r <- Rebalance sessions liveEdge cfg evictor (String.eqb dryRun "true");;
      Done (match r with
            | Some (result, false) => (StatusOK, Some result)
            | _ => (StatusInternalServerError, None)
            end)
  end.

(** The flags' default for EvictStagger, the WriteTimeout of the management
    server and the limit of the handler's own context, in milliseconds. *)
Definition rebalanceEvictStagger : Z := 200.
Definition managementWriteTimeout : Z := 5000.
Definition rebalanceTimeout : Z := 30000.

(** The waits between evictions. *)
Definition waits (tr : list (event rebalanceReq)) : nat :=
  length (List.filter (λ ev, match ev with Event Cancelled _ => true | _ => false end) tr).

(** ** The route table is unambiguous *)

Fixpoint overlap (p q : list (option string)) : bool :=
  match p, q with
  | [], [] => true
  | Some a :: p, Some b :: q => String.eqb a b && overlap p q
  | _ :: p, _ :: q => overlap p q
  | _, _ => false
  end.

Lemma overlap_spec p q segs ps qs : match_segments p segs = Some ps → match_segments q segs = Some qs → overlap p q = true.
Proof.
  revert q segs ps qs. induction p as [|[a|] p IH]; intros [|[b|] q] [|s segs] ps qs; cbn; try done.
  - destruct (String.eqb_spec a s) as [->|]; [|done]. destruct (String.eqb_spec b s) as [->|]; [|done].
    rewrite String.eqb_refl. cbn. eauto.
  - destruct (String.eqb a s); [|done]. destruct (String.eqb s "/"); [done|].
    intros H1. destruct (match_segments q segs) eqn:E; [|done]. eauto.
  - destruct (String.eqb s "/"); [done|]. destruct (String.eqb b s); [|done].
    destruct (match_segments p segs) eqn:E; [|done]. eauto.
  - destruct (String.eqb s "/"); [done|]. destruct (match_segments p segs) eqn:E1; [|done].
    destruct (match_segments q segs) eqn:E2; [|done]. eauto.
Qed.

Definition separate (routes : list (pattern * endpoint)) : bool :=
  forallb (λ i, forallb (λ j, match routes !! i, routes !! j with
    | Some ((m, p), _), Some ((n, q), _) => (i =? j)%nat || negb (String.eqb m n) || negb (overlap p q)
    | _, _ => true
    end) (seq 0 (length routes))) (seq 0 (length routes)).

(** At most one pattern of a method matches a path, so the order of the table is irrelevant. *)
Lemma Router_separate i j m p q e f segs ps qs :
  Router !! i = Some ((m, p), e) → Router !! j = Some ((m, q), f) →
  match_segments p segs = Some ps → match_segments q segs = Some qs → i = j.
Proof.
  intros Hi Hj Hp Hq. pose proof (overlap_spec _ _ _ _ _ Hp Hq) as Ho.
  assert (separate Router = true) as Hs by by vm_compute.
  unfold separate in Hs. rewrite forallb_forall in Hs.
  assert (∀ k x, Router !! k = Some x → In k (seq 0 (length Router))) as Hin.
  { intros k x Hk%lookup_lt_Some. apply in_seq. lia. }
  specialize (Hs i (Hin _ _ Hi)). rewrite forallb_forall in Hs. specialize (Hs j (Hin _ _ Hj)).
  rewrite Hi, Hj, String.eqb_refl, Ho in Hs. cbn in Hs. rewrite !orb_false_r in Hs. by apply Nat.eqb_eq.
Qed.

(** ** How long a rebalancing request takes *)

Lemma waits_app tr1 tr2 : waits (tr1 ++ tr2) = (waits tr1 + waits tr2)%nat.
Proof. unfold waits. by rewrite List.filter_app, length_app. Qed.

(** Each eviction but the last of a node is followed by a wait. *)
Lemma evict_all_waits n l ev errs tr : runs (evict_all false true n l) (ev, errs, false) tr →
  (length ev - 1 <= waits tr <= length ev)%nat.
Proof.
  revert ev errs tr. induction l as [|x l IH]; intros ev errs tr Hr.
  { destruct Hr as [E ->]. simplify_eq. cbn. lia. }
  cbn [evict_all] in Hr. destruct Hr as (ok & tr1 & -> & Hr). change (Event (Rebalance.Evict n x) ok :: tr1) with ([Event (Rebalance.Evict n x) ok] ++ tr1)%list.
  rewrite waits_app. change (waits [Event (Rebalance.Evict n x) ok]) with 0%nat. destruct ok; cbn [negb proc_bind] in Hr.
  - destruct l as [|y l].
    + destruct Hr as [E ->]. simplify_eq. cbn. lia.
    + destruct Hr as (cc & tr2 & -> & Hr). change (Event Cancelled cc :: tr2) with ([Event Cancelled cc] ++ tr2)%list.
      rewrite waits_app. change (waits [Event Cancelled cc]) with 1%nat. cbn [proc_bind] in Hr.
      destruct cc; [by destruct Hr as [[=] _]|].
      apply runs_bind in Hr as ([[ev' errs'] c'] & tr4 & tr5 & Hr & [E ->] & ->). simplify_eq. rewrite app_nil_r.
      apply IH in Hr. cbn [length]. lia.
  - apply runs_bind in Hr as ([[ev' errs'] c'] & tr4 & tr5 & Hr & [E ->] & ->). simplify_eq. rewrite app_nil_r.
    by apply IH in Hr.
Qed.

Definition pauses (nodes : list RebalanceNodeResult) : nat := foldr (λ r k, (length (nrEvicted r) - 1 + k)%nat) 0%nat nodes.
Definition evictions (nodes : list RebalanceNodeResult) : nat := foldr (λ r k, (length (nrEvicted r) + k)%nat) 0%nat nodes.

Lemma rebalance_nodes_waits cfg threshold target rows res tr : Stagger cfg = true →
  runs (rebalance_nodes cfg false threshold target rows) (res, false) tr → (pauses res <= waits tr <= evictions res)%nat.
Proof.
  intros Hst. revert res tr. induction rows as [|[n clients] rows IH]; intros res tr Hr.
  { destruct Hr as [E ->]. simplify_eq. cbn. lia. }
  cbn [rebalance_nodes] in Hr. destruct (excess_of cfg threshold target clients) as [excess evictable].
  destruct (excess =? 0)%nat; [by apply IH|].
  destruct Hr as (shuffled & tr1 & -> & Hr). change (Event (Shuffle evictable) shuffled :: tr1) with ([Event (Shuffle evictable) shuffled] ++ tr1)%list.
  rewrite waits_app. change (waits [Event (Shuffle evictable) shuffled]) with 0%nat. cbn [proc_bind] in Hr. rewrite Hst in Hr.
  apply runs_bind in Hr as ([[ev errs] cancelled] & tr2 & tr3 & Hev & Hr & ->). rewrite waits_app.
  destruct cancelled; [by destruct Hr as [[=] _]|]. apply evict_all_waits in Hev.
  apply runs_bind in Hr as ([res' c'] & tr4 & tr5 & Hr & [[= -> <-] ->] & ->). rewrite app_nil_r.
  apply IH in Hr. unfold pauses, evictions in *. cbn [foldr nrEvicted]. lia.
Qed.

(** A rebalancing request that succeeds has waited 200 ms, the default stagger, at
    least between every two evictions of a node and at most once per eviction. A
    report of 26 evictions on one node is therefore written after the five seconds
    that the management server allows for an answer, although the handler gives
    itself thirty: the clients are disconnected and the caller sees a broken
    connection. *)
Theorem rebalance_report_is_late sessions members cfg evictor dryRun result tr :
  runs (handleRebalance (Some sessions) members cfg evictor dryRun) (StatusOK, Some result) tr →
  dryRun ≠ "true" → Stagger cfg = true →
  (Z.of_nat (pauses (rrNodes result)) * rebalanceEvictStagger <= Z.of_nat (waits tr) * rebalanceEvictStagger
     <= Z.of_nat (evictions (rrNodes result)) * rebalanceEvictStagger)%Z ∧
  ((∃ r, r ∈ rrNodes result ∧ (26 <= length (nrEvicted r))%nat) →
   (managementWriteTimeout <= Z.of_nat (waits tr) * rebalanceEvictStagger)%Z).
Proof.
  intros Hr Hdry%String.eqb_neq Hst. unfold handleRebalance in Hr. rewrite Hdry in Hr.
  set (live := match members with Some ms => LiveEdgeNodes ms | None => ∅ end) in Hr.
  apply runs_bind in Hr as (out & tr1 & tr2 & Hr & [E ->] & ->). rewrite app_nil_r.
  destruct out as [[res []]|]; simplify_eq.
  assert (pauses (rrNodes res) <= waits tr1 <= evictions (rrNodes res))%nat as Hw.
  { unfold Rebalance in Hr. destruct (negb evictor && negb false); [by destruct Hr as [[=] _]|].
    destruct Hr as (rows & tr2 & -> & Hr). change (Event ?e ?x :: tr2) with ([Event e x] ++ tr2)%list. rewrite waits_app. cbn [proc_bind] in Hr.
    destruct (size (group_sessions live rows) =? 0)%nat.
    - destruct Hr as [[= ->] ->]. cbn. lia.
    - destruct Hr as (nodes & tr3 & -> & Hr). change (Event ?e ?x :: tr3) with ([Event e x] ++ tr3)%list. rewrite waits_app. cbn [proc_bind] in Hr.
      apply runs_bind in Hr as ([res' c'] & tr4 & tr5 & Hr & [[= -> <-] ->] & ->). rewrite app_nil_r.
      apply rebalance_nodes_waits in Hr; [|done]. cbn [rrNodes fst] in *. change (waits [_]) with 0%nat. lia. }
  unfold rebalanceEvictStagger, managementWriteTimeout. split; [lia|]. intros (r & Hin & Hlen).
  assert (25 <= pauses (rrNodes res))%nat; [|lia]. clear Hw. induction (rrNodes res) as [|r' l IH]; [set_solver|].
  cbn. apply elem_of_cons in Hin as [->|Hin]; [lia|]. specialize (IH Hin). fold (pauses l). lia.
Qed.

(** Sixty clients on one of two live edge nodes: thirty of them are evicted. *)
Definition sixty : gmap string string := list_to_map ((λ n, (FormatUint (N.of_nat n), "n1")) <$> seq 0 60).

Definition two_edges : list NodeMeta := [example_member "edge" "n1"; example_member "edge" "n2"].

Definition crowded_run := answer in_order (handleRebalance (Some sixty) (Some two_edges) DefaultRebalanceConfig true "").

Lemma rebalance_report_is_late_witness : ∃ result,
  crowded_run.1 = (StatusOK, Some result) ∧ (managementWriteTimeout <= Z.of_nat (waits crowded_run.2) * rebalanceEvictStagger)%Z.
Proof.
  destruct (crowded_run.1) as [code [result|]] eqn:E; [|by vm_compute in E].
  assert (code = StatusOK) as -> by by (vm_compute in E; injection E as <- _).
  exists result. split; [done|].
  pose proof (answer_runs in_order (handleRebalance (Some sixty) (Some two_edges) DefaultRebalanceConfig true "")) as Hr.
  fold crowded_run in Hr. rewrite E in Hr.
  apply (rebalance_report_is_late _ _ _ _ _ _ _ Hr); [done|done|].
  vm_compute in E. injection E as <-. eexists. split; [left|]. cbn. lia.
Defined.
