(* ===== verification/Cli.v ===== *)
(** The command-line clients of the management API (cmd/server/main.go): the
    [drain] and [acl] subcommands. A subcommand parses its flags, builds one HTTP
    request and ends with a status that tells whether the API answered 200. The
    request goes through the URL, the server's route table and the handler, so
    that a theorem relates the words of the operator to the write that reaches
    the registry. The syntax of host names is an argument. *)
From S2P Require Import Prelude GoStrings Effects Acl Fsm Decimal Codec Json Storage Registry GoNet Management ClusterApi.

Open Scope string_scope.
Local Open Scope proc_scope.

(** ** Bodies *)

(** The line separators that encoding/json escapes, and the rest of the text. *)
Definition line_separator (s : string) : option (N * string) :=
  match s with
  | String a (String b (String c t)) =>
      if Ascii.eqb a (ascii_of_N 226) && Ascii.eqb b (ascii_of_N 128) then
        if Ascii.eqb c (ascii_of_N 168) then Some (8232%N, t)
        else if Ascii.eqb c (ascii_of_N 169) then Some (8233%N, t) else None
      else None
  | _ => None
  end.

Definition json_space (c : ascii) : bool := Ascii.eqb c " " || Ascii.eqb c "009" || Ascii.eqb c "010" || Ascii.eqb c "013".

(** Inside a string, and after a backslash in it. *)
Definition scan_state (st : bool * bool) (c : ascii) : bool * bool :=
  match st with
  | (true, true) => (true, false)
  | (true, false) => if Ascii.eqb c bs then (true, true) else if Ascii.eqb c dq then (false, false) else (true, false)
  | (false, _) => (Ascii.eqb c dq, false)
  end.

(** appendCompact with HTML escaping, of a valid text: white space between the
    tokens is dropped. *)
Fixpoint compact (st : bool * bool) (s : string) : string :=
  match s with
  | "" => ""
  | String c t =>
      if Ascii.eqb c "<" || Ascii.eqb c ">" || Ascii.eqb c "&" then escape_u (N_of_ascii c) +:+ compact st t
      else match t, line_separator s with
           | String _ (String _ t'), Some (u, _) => escape_u u +:+ compact st t'
           | _, _ => if negb (fst st) && json_space c then compact st t else String c (compact (scan_state st c) t)
           end
  end.

(** json.Marshal of a json.RawMessage. *)
Definition marshal_raw (raw : string) : option string :=
  match parse raw with Some _ => Some (compact (false, false) raw) | None => None end.

(** json.Marshal of a map whose values are given as text; its keys are sorted. *)
Definition marshal_map (members : list (string * string)) : string :=
  String "{" (join "," (map (λ '(k, v), quote k +:+ String ":" v) members) +:+ "}").

(** ** Subcommands *)

Inductive cliCall :=
  | CallGet (path : string)
  | CallPost (path : string) (body : string)
  | CallDelete (path : string).

Definition default_management : string := "http://localhost:8090".

(** Parses the flags of a subcommand after the common one, and goes on unless one
    of the [required] flags is empty. *)
Definition with_flags (own : flags) (required : list string) (rest : list string) (k : flags → outcome (string * cliCall)) :
    outcome (string * cliCall) :=
  match flag_parse (("management-addr", default_management) :: own) rest with
  | Exit code => Exit code
  | Run fs => if existsb (λ name, String.eqb (flag_get name fs) "") required then Exit 1 else k fs
  end.

Definition send (call : flags → cliCall) (fs : flags) : outcome (string * cliCall) := Run (flag_get "management-addr" fs, call fs).

Definition runACLCLI (args : list string) : outcome (string * cliCall) :=
  match args with
  | [] => Exit 1
  | sub :: rest =>
      if String.eqb sub "roles-list" then with_flags [] [] rest (send (λ _, CallGet "/api/acl/roles"))
      else if String.eqb sub "role-create" then
        with_flags [("name", ""); ("rules", "[]")] ["name"] rest (λ fs,
          match marshal_raw (flag_get "rules" fs) with
          | None => Exit 1
          | Some rules => send (λ fs, CallPost "/api/acl/roles" (marshal_map [("name", quote (flag_get "name" fs)); ("rules", rules)])) fs
          end)
      else if String.eqb sub "role-delete" then
        with_flags [("name", "")] ["name"] rest (send (λ fs, CallDelete ("/api/acl/roles/" +:+ flag_get "name" fs)))
      else if String.eqb sub "bindings-list" then with_flags [] [] rest (send (λ _, CallGet "/api/acl/bindings"))
      else if String.eqb sub "binding-create" then
        with_flags [("principal", ""); ("role", "")] ["principal"; "role"] rest (send (λ fs,
          CallPost "/api/acl/bindings"
            (marshal_map [("principal", quote (flag_get "principal" fs)); ("role_name", quote (flag_get "role" fs))])))
      else if String.eqb sub "binding-delete" then
        with_flags [("principal", ""); ("role", "")] ["principal"; "role"] rest (send (λ fs,
          CallDelete ("/api/acl/bindings/" +:+ flag_get "principal" fs +:+ "/" +:+ flag_get "role" fs)))
      else if String.eqb sub "rulesets-list" then with_flags [] [] rest (send (λ _, CallGet "/api/acl/rulesets"))
      else if String.eqb sub "ruleset-enable" then
        with_flags [("name", "")] ["name"] rest (send (λ fs, CallPost ("/api/acl/rulesets/" +:+ flag_get "name" fs +:+ "/enable") ""))
      else if String.eqb sub "ruleset-disable" then
        with_flags [("name", "")] ["name"] rest (send (λ fs, CallPost ("/api/acl/rulesets/" +:+ flag_get "name" fs +:+ "/disable") ""))
      else Exit 1
  end.

Definition runDrainCLI (args : list string) : outcome (string * cliCall) :=
  with_flags [] [] args (send (λ _, CallPost "/api/cluster/drain" "")).

(** ** The exchange with the server *)

(** aclGet, aclPost and aclDelete: any answer but 200 is a failure. *)
Definition exit_code (status : Z) : Z := if (status =? StatusOK)%Z then 0%Z else 1%Z.

Definition call_line (c : cliCall) : string * string * string :=
  match c with
  | CallGet path => ("GET", path, "")
  | CallPost path body => ("POST", path, body)
  | CallDelete path => ("DELETE", path, "")
  end.

(** The status of an exchange with a node. A redirection is followed with a GET,
    which changes nothing; [followed] is its status. [other] is the status of the
    endpoints that do not write the role state. *)
Section Exchange.
Variable host_ok : string → bool.
Variable core : bool.
Variable followed other : Z.

Definition exchange (addr : string) (c : cliCall) : proc managementReq Z :=
  let '(method, path, body) := call_line c in
  match deliver host_ok Router method (addr +:+ path) with
  | None => Done 1%Z
  | Some (Handle e params) =>
      match acl_request e params body with
      | Some r => status <- acl_route core r;; Done (exit_code status)
      | None => Done (exit_code other)
      end
  | Some MovedPermanently => Done (exit_code followed)
  | Some NotFound => Done (exit_code StatusNotFound)
  | Some MethodNotAllowed => Done (exit_code 405)
  end.

(** The [acl] subcommand as a process. *)
Definition acl_process (args : list string) : proc managementReq Z :=
  match runACLCLI args with
  | Exit code => Done code
  | Run (addr, c) => exchange addr c
  end.
End Exchange.

(** ** Compacting what is compact *)

(** A byte that is copied in the state [st] whatever follows it. *)
Lemma compact_byte st c t : Ascii.eqb c "<" || Ascii.eqb c ">" || Ascii.eqb c "&" = false →
  line_separator (String c t) = None → fst st || negb (json_space c) = true →
  compact st (String c t) = String c (compact (scan_state st c) t).
Proof.
  intros H1 H2 H3. cbn [compact]. rewrite H1, H2.
  assert (negb (fst st) && json_space c = false) as -> by by destruct (fst st), (json_space c).
  by destruct t as [|? [|? ?]].
Qed.

Definition ascii_copied (c : ascii) : bool :=
  in_range 0 127 c && negb (Ascii.eqb c "<" || Ascii.eqb c ">" || Ascii.eqb c "&").

Lemma compact_ascii st c t : ascii_copied c = true → fst st || negb (json_space c) = true →
  compact st (String c t) = String c (compact (scan_state st c) t).
Proof.
  unfold ascii_copied. intros [H1 H2]%andb_true_iff H3. apply compact_byte; [by apply negb_true_iff| |done].
  destruct t as [|b [|d t]]; [done|done|]. unfold line_separator.
  destruct (Ascii.eqb_spec c (ascii_of_N 226)) as [->|]; [discriminate|done].
Qed.

(** The texts that are copied as a whole from one state to another. *)
Definition copied (st : bool * bool) (s : string) (st' : bool * bool) : Prop :=
  ∀ rest, compact st (s +:+ rest) = s +:+ compact st' rest.

Lemma copied_app st s st' t st'' : copied st s st' → copied st' t st'' → copied st (s +:+ t) st''.
Proof. intros H1 H2 rest. by rewrite <-string_app_assoc, H1, H2, string_app_assoc. Qed.

Lemma copied_nil st : copied st "" st.
Proof. intros rest. done. Qed.

Lemma copied_cons st c s st' : ascii_copied c = true → fst st || negb (json_space c) = true → copied (scan_state st c) s st' →
  copied st (String c s) st'.
Proof. intros H1 H2 H3 rest. by rewrite !string_app_cons, compact_ascii, H3. Qed.

Abbreviation in_string := (true, false).
Abbreviation outside := (false, false).

Ltac copy_text := repeat (apply copied_cons; [reflexivity|reflexivity|cbn]); try apply copied_nil.

Lemma copied_high c t : in_range 128 255 c = true → line_separator (String c t) = None →
  compact in_string (String c t) = String c (compact in_string t).
Proof.
  intros H1 H2. rewrite compact_byte; [|by destruct c as [[] [] [] [] [] [] [] []]|done|done].
  assert (scan_state in_string c = in_string) as ->; [|done]. by destruct c as [[] [] [] [] [] [] [] []].
Qed.

Lemma continuation_copied b t : continuation b = true → compact in_string (String b t) = String b (compact in_string t).
Proof.
  intros H. apply copied_high; [by destruct b as [[] [] [] [] [] [] [] []]|]. destruct t as [|? [|? ?]]; try done.
  cbn. by destruct b as [[] [] [] [] [] [] [] []].
Qed.

Lemma copied_ascii_rune c : in_range 0 127 c = true → copied in_string (escape_rune (String c "")) in_string.
Proof. intros H. destruct c as [[] [] [] [] [] [] [] []]; try discriminate H; copy_text. Qed.

Lemma copied_escape_u u : (u <? 65536)%N = true → copied in_string (escape_u u) in_string.
Proof.
  intros Hu%N.ltb_lt. assert (∀ n, (n < 16)%N → ∃ c, hex_digit n = c ∧ is_alnum c = true) as Hd.
  { intros n Hn. eexists. split; [reflexivity|]. assert (n ∈ (N.of_nat <$> seq 0 16)) as Hin.
    { apply list_elem_of_fmap. exists (N.to_nat n). split; [lia|]. apply elem_of_seq. lia. }
    cbn in Hin. repeat (apply elem_of_cons in Hin as [->|Hin]; [done|]). by apply not_elem_of_nil in Hin. }
  unfold escape_u. apply copied_cons; [reflexivity|reflexivity|]. cbn. apply copied_cons; [reflexivity|reflexivity|]. cbn.
  assert (∀ n s, (n < 16)%N → copied in_string s in_string → copied in_string (String (hex_digit n) s) in_string) as Hc.
  { intros n s Hn Hs. destruct (Hd n Hn) as (c & -> & Hal).
    assert (ascii_copied c = true ∧ scan_state in_string c = in_string) as [H1 H2].
    { clear -Hal. destruct c as [[] [] [] [] [] [] [] []]; try discriminate Hal; done. }
    apply copied_cons; [done|done|by rewrite H2]. }
  assert (∀ x, (N.land x 15 < 16)%N) as Hl.
  { intros x. change 15%N with (N.ones 4). rewrite N.land_ones. apply N.mod_lt. done. }
  apply Hc; [|do 3 (apply Hc; [apply Hl|]); apply copied_nil].
  rewrite N.shiftr_div_pow2. apply N.Div0.div_lt_upper_bound. lia.
Qed.

(** The bytes of a rune that is not ASCII: a first byte and continuations, of
    which there are two after 226. *)
Lemma rune_bytes s r t : decode_rune s = Some (r, t) → (∃ c, r = String c "" ∧ in_range 0 127 c = true) ∨
  ∃ a r', r = String a r' ∧ in_range 128 255 a = true ∧ r' ≠ "" ∧ forall_bytes continuation r' = true ∧
    (Ascii.eqb a (ascii_of_N 226) = true → ∃ b c, r' = String b (String c "")).
Proof.
  destruct s as [|a s1]; [done|]. cbn [decode_rune]. intros H.
  assert (∀ lo hi (c : ascii), in_range lo hi c = true → (128 <=? lo)%N = true → (hi <=? 191)%N = true → continuation c = true) as Hw.
  { unfold continuation, in_range. intros lo hi c [H1%N.leb_le H2%N.leb_le]%andb_true_iff H3%N.leb_le H4%N.leb_le.
    apply andb_true_iff. split; apply N.leb_le; lia. }
  destruct (in_range 0 127 a) eqn:Ea; [left; simplify_eq; eauto|]. right.
  assert (in_range 128 255 a = true) as Ha by (clear -Ea; by destruct a as [[] [] [] [] [] [] [] []]).
  assert (∀ lo hi, in_range lo hi a = true → (hi <? 226)%N || (226 <? lo)%N = true → Ascii.eqb a (ascii_of_N 226) = true → False) as Hne.
  { unfold in_range. intros lo hi [H1%N.leb_le H2%N.leb_le]%andb_true_iff H3 ->%Ascii.eqb_eq.
    change (N_of_ascii (ascii_of_N 226)) with 226%N in *. apply orb_true_iff in H3 as [H3%N.ltb_lt|H3%N.ltb_lt]; lia. }
  repeat case_hyp H; simplify_eq; breflect; (do 2 eexists); (split; [reflexivity|]); (split; [done|]); (split; [done|]);
    (split; [cbn [forall_bytes]; rewrite ?andb_true_iff; split_and?; eauto|]); intros E226; try (by do 2 eexists); exfalso; eauto.
Qed.

Lemma copied_rune s r t : decode_rune s = Some (r, t) → copied in_string (escape_rune r) in_string.
Proof.
  intros H. destruct (rune_bytes _ _ _ H) as [(c & -> & Hc)|(a & r' & -> & Ha & Hne & Hcont & H226)]; [by apply copied_ascii_rune|].
  destruct r' as [|b r']; [done|]. unfold escape_rune.
  destruct (String.eqb_spec (String a (String b r')) (encode_rune 8232)) as [_|N1]; [by apply copied_escape_u|].
  destruct (String.eqb_spec (String a (String b r')) (encode_rune 8233)) as [_|N2]; [by apply copied_escape_u|].
  assert (∀ u rest, forall_bytes continuation u = true → compact in_string (u +:+ rest) = u +:+ compact in_string rest) as Hcopy.
  { induction u as [|x u IH]; intros rest; [done|]. intros [Hx Hu]%andb_true_iff.
    by rewrite !string_app_cons, continuation_copied, IH. }
  intros rest. rewrite !(string_app_cons a). rewrite copied_high, Hcopy; [done|done|done|].
  destruct (Ascii.eqb a (ascii_of_N 226)) eqn:Ea.
  - destruct (H226 eq_refl) as (b' & c & [= -> ->]). apply Ascii.eqb_eq in Ea as ->. rewrite !string_app_cons. unfold line_separator.
    rewrite Ascii.eqb_refl. cbn [andb]. destruct (Ascii.eqb_spec b' (ascii_of_N 128)) as [->|]; [|done].
    destruct (Ascii.eqb_spec c (ascii_of_N 168)) as [->|]; [done|]. by destruct (Ascii.eqb_spec c (ascii_of_N 169)) as [->|].
  - rewrite string_app_cons. destruct (r' +:+ rest); [done|]. unfold line_separator. by rewrite Ea.
Qed.

Lemma copied_quote s : copied outside (quote s) outside.
Proof.
  unfold quote. apply copied_cons; [reflexivity|reflexivity|]. cbn. generalize (String.length s) as n. intros n. revert s.
  induction n as [|n IH]; intros s; [by copy_text|]. destruct s as [|a s]; [by copy_text|]. cbn [escape_loop].
  destruct (decode_rune (String a s)) as [[r t]|] eqn:E; rewrite <-string_app_assoc; (eapply copied_app; [|apply IH]).
  - by eapply copied_rune.
  - by apply copied_escape_u.
Qed.

Lemma copied_join l : Forall (λ s, copied outside s outside) l → copied outside (join "," l) outside.
Proof.
  induction l as [|x [|y l] IH]; intros H; [apply copied_nil| |].
  - by apply Forall_cons in H as [? _].
  - apply Forall_cons in H as [Hx H]. rewrite join_cons. eapply copied_app; [done|]. apply copied_cons; [reflexivity|reflexivity|]. by apply IH.
Qed.

Lemma copied_digits s : all_digits s = true → copied outside s outside.
Proof.
  induction s as [|c s IH]; [intros; apply copied_nil|]. cbn. intros H.
  assert (ascii_copied c = true ∧ json_space c = false ∧ scan_state outside c = outside ∧ all_digits s = true) as (H1 & H2 & H3 & H4).
  { destruct c as [[] [] [] [] [] [] [] []]; try discriminate H; done. }
  apply copied_cons; [done|by rewrite H2|]. rewrite H3. by apply IH.
Qed.

Lemma copied_print v : printable v → copied outside (print v) outside.
Proof.
  induction v as [|[]|lit|s|l IH|l IH] using json_rect_list; intros Hp; cbn [print].
  - by copy_text.
  - by copy_text.
  - by copy_text.
  - destruct Hp as [z ->]. unfold Itoa. destruct (z <? 0)%Z; [apply copied_cons; [reflexivity|reflexivity|]|];
      apply copied_digits, FormatUint_digits.
  - apply copied_quote.
  - apply copied_cons; [reflexivity|reflexivity|]. cbn. eapply copied_app; [apply copied_join|by copy_text].
    cbn in Hp. induction IH as [|v l Hv _ IHl]; [constructor|]. destruct Hp as [Hp1 Hp2]. constructor; auto.
  - apply copied_cons; [reflexivity|reflexivity|]. cbn. eapply copied_app; [apply copied_join|by copy_text].
    cbn in Hp. induction IH as [|[k v] l Hv _ IHl]; [constructor|]. destruct Hp as [[_ Hp1] Hp2]. constructor; [|auto].
    eapply copied_app; [apply copied_quote|]. apply copied_cons; [reflexivity|reflexivity|]. by apply Hv.
Qed.

Lemma marshal_raw_print v : printable v → marshal_raw (print v) = Some (print v).
Proof.
  intros Hp. unfold marshal_raw. rewrite (parse_print_json v Hp). f_equal.
  pose proof (copied_print v Hp "") as H. by rewrite !string_app_nil_r in H.
Qed.

(** ** What an operator types *)

Definition command_line (addr : string) (w : aclWrite) : list string :=
  let at_addr rest := "--management-addr" :: addr :: rest in
  match w with
  | CreateRole name rules => "role-create" :: at_addr ["--name"; name; "--rules"; print (JArr (rule_json <$> rules))]
  | DeleteRole name => "role-delete" :: at_addr ["--name"; name]
  | CreateBinding principal role => "binding-create" :: at_addr ["--principal"; principal; "--role"; role]
  | DeleteBinding principal role => "binding-delete" :: at_addr ["--principal"; principal; "--role"; role]
  | EnableRuleset name => "ruleset-enable" :: at_addr ["--name"; name]
  | DisableRuleset name => "ruleset-disable" :: at_addr ["--name"; name]
  end.

(** A name in a body is any text; one in a path has no delimiter of a URL. *)
Definition spelled (w : aclWrite) : Prop :=
  match w with
  | CreateRole name rules => name ≠ "" ∧ utf8_Valid name = true ∧ Forall wf_rule rules
  | DeleteRole name => plain_segment name = true
  | CreateBinding principal role => principal ≠ "" ∧ role ≠ "" ∧ utf8_Valid principal = true ∧ utf8_Valid role = true
  | DeleteBinding principal role => plain_segment principal = true ∧ plain_segment role = true
  | EnableRuleset name => plain_segment name = true ∧ is_Some (StandardRulesets !! name)
  | DisableRuleset name => plain_segment name = true
  end.

(** The request that carries a write. *)
Definition write_request (w : aclWrite) : cliCall :=
  match w with
  | CreateRole name rules => CallPost (rooted ["api"; "acl"; "roles"]) (print (JObj [("name", JStr name); ("rules", JArr (rule_json <$> rules))]))
  | DeleteRole name => CallDelete (rooted ["api"; "acl"; "roles"; name])
  | CreateBinding principal role => CallPost (rooted ["api"; "acl"; "bindings"]) (print (JObj [("principal", JStr principal); ("role_name", JStr role)]))
  | DeleteBinding principal role => CallDelete (rooted ["api"; "acl"; "bindings"; principal; role])
  | EnableRuleset name => CallPost (rooted ["api"; "acl"; "rulesets"; name; "enable"]) ""
  | DisableRuleset name => CallPost (rooted ["api"; "acl"; "rulesets"; name; "disable"]) ""
  end.

Lemma plain_nonempty s : plain_segment s = true → String.eqb s "" = false.
Proof. unfold plain_segment, kept. intros H. destruct (String.eqb s ""); [|done]. by rewrite !andb_false_r in H. Qed.

Lemma printable_rules rules : Forall wf_rule rules → printable (JArr (rule_json <$> rules)).
Proof. intros H. apply printable_arr, Forall_fmap. by eapply Forall_impl; [done|]; intros; apply printable_rule. Qed.

Lemma command_line_request addr w : spelled w → runACLCLI (command_line addr w) = Run (addr, write_request w).
Proof.
  destruct w as [name rules|name|p r|p r|name|name]; intros Hw; unfold command_line, runACLCLI; cbn [String.eqb Ascii.eqb Bool.eqb];
    unfold with_flags; cbn -[marshal_raw marshal_map print rooted quote String.append].
  - destruct Hw as (Hn%String.eqb_neq & _ & Hr). rewrite Hn, marshal_raw_print by by apply printable_rules. done.
  - by rewrite (plain_nonempty _ Hw).
  - destruct Hw as (Hp%String.eqb_neq & Hr%String.eqb_neq & _). by rewrite Hp, Hr.
  - destruct Hw as [Hp Hr]. by rewrite (plain_nonempty _ Hp), (plain_nonempty _ Hr).
  - destruct Hw as [Hw _]. by rewrite (plain_nonempty _ Hw).
  - by rewrite (plain_nonempty _ Hw).
Qed.

Lemma decode_first_print v : printable v → decode_first (print v) = Some v.
Proof.
  intros Hp. unfold decode_first. pose proof (parse_print v (S (S (2 * String.length (print v)))) "" Hp eq_refl) as H.
  rewrite string_app_nil_r in H. rewrite H by lia. done.
Qed.

Lemma plain_not_slash s : plain_segment s = true → String.eqb s "/" = false.
Proof. unfold plain_segment, kept. intros H. destruct (String.eqb_spec s "/") as [->|]; [by rewrite andb_false_r in H|done]. Qed.

Lemma create_role_body name rules : name ≠ "" → utf8_Valid name = true → Forall wf_rule rules →
  handleCreateRole true (print (JObj [("name", JStr name); ("rules", JArr (rule_json <$> rules))])) = admin_write (CreateRole name rules).
Proof.
  intros Hn%String.eqb_neq Hv Hr. unfold handleCreateRole. cbn [negb]. rewrite decode_first_print.
  - cbn [mbind option_bind].
    assert (into_struct ["name"; "rules"] set_create_role (JObj [("name", JStr name); ("rules", JArr (rule_json <$> rules))])
      (mkCreateRole "" []) = Some (mkCreateRole name rules)) as ->; [|by cbn; rewrite Hn].
    cbn -[into_rules]. by rewrite into_rules_json.
  - apply printable_obj. repeat constructor; try done. by apply printable_rules.
Qed.

Lemma create_binding_body p r : p ≠ "" → r ≠ "" → utf8_Valid p = true → utf8_Valid r = true →
  handleCreateBinding true (print (JObj [("principal", JStr p); ("role_name", JStr r)])) = admin_write (CreateBinding p r).
Proof.
  intros Hp%String.eqb_neq Hr%String.eqb_neq Hvp Hvr. unfold handleCreateBinding. cbn [negb]. rewrite decode_first_print.
  - cbn [mbind option_bind].
    assert (into_struct ["principal"; "role_name"] set_create_binding (JObj [("principal", JStr p); ("role_name", JStr r)])
      (mkCreateBinding "" "") = Some (mkCreateBinding p r)) as ->; [|by cbn; rewrite Hp, Hr]. done.
  - apply printable_obj. by repeat constructor.
Qed.

(** A write that was spelled right is what the handler asks the registry for. *)
Lemma write_request_served host_ok core followed other host w :
  plain_host host = true → host_ok host = true → spelled w →
  exchange host_ok core followed other ("http://" +:+ host) (write_request w) =
  (status <- (if core then admin_write w else Done StatusServiceUnavailable);; Done (exit_code status)).
Proof.
  intros Hh Hok Hw. assert (∀ m segs, segs ≠ [] → forallb plain_segment segs = true →
    deliver host_ok Router m (("http://" +:+ host) +:+ rooted segs) = Some (route Router m segs)) as Hd.
  { intros m segs Hn Hs. rewrite <-(deliver_plain host_ok Router m host segs None) by done.
    cbn [query_tail]. by rewrite string_app_nil_r, !string_app_assoc. }
  unfold exchange.
  destruct w as [name rules|name|p r|p r|name|name]; cbn [write_request call_line]; cbn in Hw; destruct_and?; rewrite Hd;
    try done; try (cbn [forallb]; repeat match goal with H : plain_segment _ = true |- _ => rewrite H; clear H end; reflexivity).
  - change (route Router "POST" ["api"; "acl"; "roles"]) with (Handle ECreateRole []). cbn [acl_request acl_route].
    destruct core; [|done]. by rewrite create_role_body.
  - unfold route. cbn -[print]. rewrite (plain_not_slash name) by done. cbn -[print].
    unfold handleDeleteRole. destruct core; [|done]. by rewrite (plain_nonempty name).
  - change (route Router "POST" ["api"; "acl"; "bindings"]) with (Handle ECreateBinding []). cbn [acl_request acl_route].
    destruct core; [|done]. by rewrite create_binding_body.
  - unfold route. cbn -[print]. rewrite (plain_not_slash p), (plain_not_slash r) by done. cbn -[print].
    unfold handleDeleteBinding. destruct core; [|done]. by rewrite (plain_nonempty p), (plain_nonempty r).
  - unfold route. cbn -[print]. rewrite (plain_not_slash name) by done. cbn -[print].
    unfold handleEnableRuleset. destruct core; [|done]. by destruct (StandardRulesets !! name) as [?|]; [|destruct_or?; simplify_eq].
  - unfold route. cbn -[print]. rewrite (plain_not_slash name) by done. by destruct core.
Qed.


Definition any_host (h : string) : bool := true.


Lemma flags_role_delete addr name : name ≠ "" →
  runACLCLI (command_line addr (DeleteRole name)) = Run (addr, CallDelete ("/api/acl/roles/" +:+ name)).
Proof. intros Hn%String.eqb_neq. unfold command_line, runACLCLI, with_flags. cbn -[String.append]. by rewrite Hn. Qed.

Lemma flags_binding_delete addr p r : p ≠ "" → r ≠ "" →
  runACLCLI (command_line addr (DeleteBinding p r)) = Run (addr, CallDelete ("/api/acl/bindings/" +:+ p +:+ "/" +:+ r)).
Proof.
  intros Hp%String.eqb_neq Hr%String.eqb_neq. unfold command_line, runACLCLI, with_flags. cbn -[String.append]. by rewrite Hp, Hr.
Qed.

Lemma rooted_app l1 l2 : l1 ≠ [] → l2 ≠ [] → rooted (l1 ++ l2) = rooted l1 +:+ String "/" (join "/" l2).
Proof.
  unfold rooted. intros H1 H2. rewrite string_app_cons. f_equal. induction l1 as [|x [|y l1] IH]; [done| |].
  - by destruct l2.
  - cbn [app] in *. rewrite join_cons, IH by done. by rewrite join_cons, <-string_app_assoc, string_app_cons.
Qed.

Lemma route_long_binding p1 p2 ps : plain_segment p1 = true → plain_segment p2 = true → ps ≠ [] →
  route Router "DELETE" ("api" :: "acl" :: "bindings" :: p1 :: p2 :: ps) = NotFound.
Proof.
  intros H1 H2 Hps. destruct ps as [|p3 ps]; [done|]. unfold route. cbn.
  by rewrite (plain_not_slash p1), (plain_not_slash p2).
Qed.

(** The clients put names into the path of the URL without escaping them. A role
    whose name has a question mark cannot be deleted: the command deletes the
    role named by the part before the mark and reports success. A binding whose
    principal has slashes, as in the client identifiers of devices that log in
    with a token, cannot be deleted either: no route matches. *)
Theorem names_in_paths_are_not_escaped host_ok followed other host name query parts role :
  plain_host host = true → host_ok host = true →
  plain_segment name = true → plain_query (Some query) = true →
  (2 <= length parts)%nat → forallb plain_segment (parts ++ [role]) = true →
  acl_process host_ok true followed other (command_line ("http://" +:+ host) (DeleteRole (name +:+ String "?" query))) =
    (status <- admin_write (DeleteRole name);; Done (exit_code status)) ∧
  acl_process host_ok true followed other (command_line ("http://" +:+ host) (DeleteBinding (join "/" parts) role)) = Done 1%Z.
Proof.
  intros Hh Hok Hn Hq Hlen Hs. assert (∀ segs q, segs ≠ [] → forallb plain_segment segs = true → plain_query q = true →
    deliver host_ok Router "DELETE" (("http://" +:+ host) +:+ rooted segs +:+ query_tail q) = Some (route Router "DELETE" segs)) as Hd.
  { intros segs q Hne Hp Hpq. rewrite <-(deliver_plain host_ok Router "DELETE" host segs q) by done. by rewrite !string_app_assoc. }
  split.
  - unfold acl_process. rewrite flags_role_delete by by destruct name.
    change ("/api/acl/roles/" +:+ name +:+ String "?" query) with (rooted ["api"; "acl"; "roles"; name] +:+ query_tail (Some query)).
    unfold exchange. cbn [call_line]. rewrite Hd; [|done|by cbn; rewrite Hn|done].
    unfold route. cbn -[String.append]. rewrite (plain_not_slash name) by done. cbn. unfold handleDeleteRole.
    by rewrite (plain_nonempty name).
  - rewrite forallb_app in Hs. apply andb_true_iff in Hs as [Hp Hr]. cbn in Hr. rewrite andb_true_r in Hr.
    destruct parts as [|p1 [|p2 ps]]; cbn in Hlen; [lia|lia|]. unfold acl_process.
    rewrite flags_binding_delete; [|by destruct p1|by destruct role].
    cbn [forallb] in Hp. apply andb_true_iff in Hp as [H1 Hp]. apply andb_true_iff in Hp as [H2 Hp].
    set (segs := (["api"; "acl"; "bindings"] ++ (p1 :: p2 :: ps) ++ [role])%list).
    assert ("/api/acl/bindings/" +:+ join "/" (p1 :: p2 :: ps) +:+ "/" +:+ role = rooted segs +:+ query_tail None) as ->.
    { cbn [query_tail]. rewrite string_app_nil_r. unfold segs. rewrite app_assoc, !rooted_app by done. by rewrite <-string_app_assoc. }
    unfold exchange. cbn [call_line]. rewrite Hd; [|done| |done].
    + unfold segs. cbn [app]. rewrite route_long_binding; [done|done|done|by destruct ps].
    + unfold segs. rewrite !forallb_app. cbn [forallb]. by rewrite H1, H2, Hp, Hr.
Qed.

Lemma names_in_paths_are_not_escaped_witness :
  acl_process any_host true 200 200 (command_line "http://localhost:8090" (DeleteRole "guests?v2")) =
    (status <- admin_write (DeleteRole "guests");; Done (exit_code status)) ∧
  acl_process any_host true 200 200 (command_line "http://localhost:8090" (DeleteBinding "line/7" "operators")) = Done 1%Z.
Proof.
  exact (names_in_paths_are_not_escaped any_host 200 200 "localhost:8090" "guests" "v2" ["line"; "7"] "operators"
    eq_refl eq_refl eq_refl eq_refl (le_n 2) eq_refl).
Defined.
