(* ===== verification/Backup.v ===== *)
(** Backup and recovery of the Raft state: the snapshot endpoint of the management
    API (internal/cluster/management/api.go), Node.Snapshot, RecoverCluster and
    stageSnapshot (internal/cluster/raft/node.go) and the [backup raft] and
    [restore raft] subcommands (cmd/server/main.go).

    A disk is a set of directories, named by their clean paths, with flat files.
    [fails] says which operations the system refuses (permissions, a full disk).
    The consensus library is an argument: the snapshot it took, the identifier it
    reads from meta.json, its stores and its own recovery. *)
From S2P Require Import Prelude GoStrings GoSort Effects Codec Json Storage GoNet Management ClusterApi Cli.

Open Scope string_scope.

(** ** Files *)

Record disk := mkDisk { dDirs : gset string; dFiles : gmap (string * string) string }.

Inductive fsOp :=
  | OpMkdirAll (dir : string)
  | OpReadDir (dir : string)
  | OpReadFile (dir name : string)
  | OpWriteFile (dir name : string).

Definition in_dir (dir name : string) : string := dir +:+ String "/" name.

(** Where the library's file store keeps a snapshot. *)
Definition snapshot_dir (dataDir id : string) : string := in_dir (in_dir dataDir "snapshots") id.

(** The directories above a path. *)
Fixpoint parents (prefix path : string) : list string :=
  match path with
  | "" => []
  | String c rest => (if Ascii.eqb c "/" then [prefix] else []) ++ parents (prefix +:+ String c "") rest
  end.

Section Disk.
Variable fails : fsOp → bool.

Definition MkdirAll (dir : string) (d : disk) : option disk :=
  if fails (OpMkdirAll dir) then None else Some (mkDisk (list_to_set (dir :: parents "" dir) ∪ dDirs d) (dFiles d)).

(** The names of the files, sorted; directories among the entries are skipped by the callers. *)
Definition names_in (dir : string) (d : disk) : list string :=
  SliceStable (by_key id) (omap (λ '((dir', name), _), if String.eqb dir' dir then Some name else None) (map_to_list (dFiles d))).

Definition ReadDir (dir : string) (d : disk) : option (list string) :=
  if fails (OpReadDir dir) || negb (bool_decide (dir ∈ dDirs d)) then None else Some (names_in dir d).

Definition ReadFile (dir name : string) (d : disk) : option string :=
  if fails (OpReadFile dir name) then None else dFiles d !! (dir, name).

Definition WriteFile (dir name data : string) (d : disk) : option disk :=
  if fails (OpWriteFile dir name) || negb (bool_decide (dir ∈ dDirs d)) then None
  else Some (mkDisk (dDirs d) (<[(dir, name) := data]> (dFiles d))).

(** The loop over the entries; [false] is an error, after which the disk keeps what was written. *)
Fixpoint copy_entries (src dst : string) (names : list string) (d : disk) : disk * bool :=
  match names with
  | [] => (d, true)
  | name :: names =>
      match ReadFile src name d with
      | None => (d, false)
      | Some data =>
          match WriteFile dst name data d with
          | None => (d, false)
          | Some d => copy_entries src dst names d
          end
      end
  end.

Definition copyFlatDir (src dst : string) (d : disk) : disk * bool :=
  match ReadDir src d with None => (d, false) | Some names => copy_entries src dst names d end.

(** ** The node *)

(** [raft]: the data directory, and the identifier of the snapshot that the
    library took, [None] when it failed. *)
Definition Snapshot (raft : string * option string) : option (string * string) :=
  (λ id, (id, snapshot_dir (fst raft) id)) <$> snd raft.

Definition snapshot_json (id dir : string) : json := JObj [("id", JStr id); ("dir", JStr dir)].

(** The status and the body; the encoder ends it with a newline. The text of an
    error is left out. *)
Definition handleSnapshot (raft : option (string * option string)) : Z * string :=
  match raft with
  | None => (StatusServiceUnavailable, "")
  | Some raft =>
      match Snapshot raft with
      | None => (StatusInternalServerError, "")
      | Some (id, dir) => (StatusOK, print (snapshot_json id dir) +:+ String "010" "")
      end
  end.

(** ** Recovery *)

Section Recover.
(** json.Unmarshal of meta.json into the library's record, and its ID. *)
Variable meta_id : string → option string.

Definition stageSnapshot (srcDir dataDir : string) (d : disk) : disk * bool :=
  match ReadFile srcDir "meta.json" d with
  | None => (d, false)
  | Some raw =>
      match meta_id raw with
      | None => (d, false)
      | Some id =>
          if String.eqb id "" then (d, false)
          else
            let destDir := snapshot_dir dataDir id in
            match MkdirAll destDir d with
            | None => (d, false)
            | Some d => copyFlatDir srcDir destDir d
            end
      end
  end.

Record RecoverConfig := mkRecover {
  rcNodeID : string;
  rcRaftBindAddr : string;
  rcDataDir : string;
  rcVoters : gmap string string;
}.

(** What RecoverCluster calls besides the file system, each call with its effect
    on the disk and whether it succeeds: net.ResolveTCPAddr and NewTCPTransport,
    NewFileSnapshotStore on the data directory, NewBoltStore on a file, and the
    library's RecoverCluster, which is given the stores of the data directory and
    the servers. *)
Record raftLibrary := mkRaftLibrary {
  ResolveTCPAddr : string → bool;
  NewTCPTransport : string → bool;
  NewFileSnapshotStore : string → disk → disk * bool;
  NewBoltStore : string → string → disk → disk * bool;
  hraft_RecoverCluster : RecoverConfig → disk → disk * bool;
}.

Definition bolt_file : string := "raft-log.bolt".

Definition RecoverCluster (lib : raftLibrary) (cfg : RecoverConfig) (snapshotSrcDir : string) (d : disk) : disk * bool :=
  if decide (rcVoters cfg = ∅) then (d, false)
  else match MkdirAll (rcDataDir cfg) d with
       | None => (d, false)
       | Some d =>
           match stageSnapshot snapshotSrcDir (rcDataDir cfg) d with
           | (d, false) => (d, false)
           | (d, true) =>
               if negb (ResolveTCPAddr lib (rcRaftBindAddr cfg)) then (d, false)
               else if negb (NewTCPTransport lib (rcRaftBindAddr cfg)) then (d, false)
               else match NewFileSnapshotStore lib (rcDataDir cfg) d with
                    | (d, false) => (d, false)
                    | (d, true) =>
                        match NewBoltStore lib (rcDataDir cfg) bolt_file d with
                        | (d, false) => (d, false)
                        | (d, true) => hraft_RecoverCluster lib cfg d
                        end
                    end
           end
       end.

(** ** The subcommands *)

Definition set_snapshot (k : string) (v : json) (s : string * string) : option (string * string) :=
  if String.eqb k "id" then (λ x, (x, snd s)) <$> into_string v (fst s) else (λ x, (fst s, x)) <$> into_string v (snd s).

Definition decode_snapshot (body : string) : option (string * string) :=
  v ← decode_first body; into_struct ["id"; "dir"] set_snapshot v ("", "").

(** The answer of the server at an address to POST of a path: [None] when the request failed. *)
Variable post : string → option (Z * string).

Definition runBackupCLI (args : list string) (d : disk) : Z * disk :=
  match args with
  | "raft" :: rest =>
      match flag_parse [("management-addr", default_management); ("output", "")] rest with
      | Exit code => (code, d)
      | Run fs =>
          if String.eqb (flag_get "output" fs) "" then (1%Z, d)
          else match post (flag_get "management-addr" fs +:+ "/api/cluster/snapshot") with
               | Some (200%Z, body) =>
                   match decode_snapshot body with
                   | None => (1%Z, d)
                   | Some (_, dir) =>
                       match MkdirAll (flag_get "output" fs) d with
                       | None => (1%Z, d)
                       | Some d => let '(d, ok) := copyFlatDir dir (flag_get "output" fs) d in (if ok : bool then 0%Z else 1%Z, d)
                       end
                   end
               | _ => (1%Z, d)
               end
      end
  | _ => (1%Z, d)
  end.

Definition add_voter (voters : gmap string string) (entry : string) : gmap string string :=
  let entry := TrimSpace entry in
  if String.eqb entry "" then voters
  else match cut "@" entry with
       | Some (id, addr) => <[id := addr]> voters
       | None => <[entry := entry +:+ ":7000"]> voters
       end.

Definition parse_voters (csv : string) : gmap string string := fold_left add_voter (split "," csv) ∅.

Definition runRestoreCLI (lib : raftLibrary) (hostname : string) (args : list string) (d : disk) : Z * disk :=
  match args with
  | "raft" :: rest =>
      match flag_parse [("snapshot", ""); ("voters", ""); ("node-id", ""); ("raft-bind", ":7000"); ("raft-data-dir", "/data/raft")] rest with
      | Exit code => (code, d)
      | Run fs =>
          let nodeID := if String.eqb (flag_get "node-id" fs) "" then hostname else flag_get "node-id" fs in
          if String.eqb (flag_get "snapshot" fs) "" then (1%Z, d)
          else if String.eqb (flag_get "voters" fs) "" then (1%Z, d)
          else
            let '(d, ok) := RecoverCluster lib (mkRecover nodeID (flag_get "raft-bind" fs) (flag_get "raft-data-dir" fs)
                              (parse_voters (flag_get "voters" fs))) (flag_get "snapshot" fs) d in
            (if ok : bool then 0%Z else 1%Z, d)
      end
  | _ => (1%Z, d)
  end.
End Recover.
End Disk.

(** The management server of the node; [other] is what anything but the snapshot
    endpoint answers. *)
Definition management_server (host_ok : string → bool) (raft : option (string * option string)) (other : Z * string) (url : string) :
    option (Z * string) :=
  match deliver host_ok Router "POST" url with
  | Some (Handle ESnapshot _) => Some (handleSnapshot raft)
  | Some _ => Some other
  | None => None
  end.

(** ** Copies *)

Section Copies.
Variable fails : fsOp → bool.

Lemma names_in_spec dir d n : n ∈ names_in dir d ↔ is_Some (dFiles d !! (dir, n)).
Proof.
  unfold names_in. rewrite SliceStable_perm, list_elem_of_omap. split.
  - intros ([[dir' n'] c] & Hin%elem_of_map_to_list & E). destruct (String.eqb_spec dir' dir); simplify_eq. eauto.
  - intros [c Hc]. exists ((dir, n), c). rewrite String.eqb_refl. split; [by apply elem_of_map_to_list|done].
Qed.

(** What a copy that succeeded left: the files of the source over those of the target. *)
Definition copied_over (src dst : string) (d d' : disk) : Prop :=
  (∀ n, dFiles d' !! (dst, n) = match dFiles d !! (src, n) with Some c => Some c | None => dFiles d !! (dst, n) end) ∧
  ∀ dir n, dir ≠ dst → dFiles d' !! (dir, n) = dFiles d !! (dir, n).

Lemma copy_entries_spec src dst names d d' : copy_entries fails src dst names d = (d', true) →
  (∀ n, n ∈ names → dFiles d' !! (dst, n) = dFiles d !! (src, n) ∧ is_Some (dFiles d !! (src, n))) ∧
  ∀ dir n, dir ≠ dst ∨ n ∉ names → dFiles d' !! (dir, n) = dFiles d !! (dir, n).
Proof.
  revert d. induction names as [|name names IH]; intros d; cbn [copy_entries].
  { intros [= ->]. split; [|done]. intros n Hn. by apply not_elem_of_nil in Hn. }
  unfold ReadFile, WriteFile. destruct (fails (OpReadFile src name)); [done|].
  destruct (dFiles d !! (src, name)) as [data|] eqn:E; [|done].
  destruct (fails (OpWriteFile dst name) || _); [done|]. intros [IH1 IH2]%IH. cbn [dFiles] in *.
  assert (∀ n, <[(dst, name):=data]> (dFiles d) !! (src, n) = dFiles d !! (src, n)) as Hsrc.
  { intros n. destruct (decide ((dst, name) = (src, n))) as [[= -> ->]|Hne]; [by rewrite lookup_insert_eq|by rewrite lookup_insert_ne]. }
  split.
  - intros n Hn. destruct (decide (n ∈ names)) as [Hin|Hin].
    + rewrite <-Hsrc. auto.
    + apply elem_of_cons in Hn as [->|]; [|done]. rewrite IH2 by auto. rewrite lookup_insert_eq, E. eauto.
  - intros dir n Hn. rewrite IH2; [rewrite lookup_insert_ne; [done|]|]; set_solver.
Qed.

Lemma copyFlatDir_spec src dst d d' : copyFlatDir fails src dst d = (d', true) → copied_over src dst d d'.
Proof.
  unfold copyFlatDir, ReadDir. destruct (fails (OpReadDir src) || _); [done|]. intros [H1 H2]%copy_entries_spec. split.
  - intros n. destruct (dFiles d !! (src, n)) as [c|] eqn:E.
    + destruct (H1 n) as [-> _]; [|done]. apply names_in_spec. by rewrite E.
    + rewrite H2; [done|]. right. rewrite names_in_spec, E. by intros [].
  - intros dir n Hne. apply H2. by left.
Qed.

Lemma MkdirAll_files dir d d' : MkdirAll fails dir d = Some d' → dFiles d' = dFiles d.
Proof. unfold MkdirAll. destruct (fails _); [done|]. by intros [= <-]. Qed.

Lemma stageSnapshot_spec meta_id src dataDir d d' : stageSnapshot fails meta_id src dataDir d = (d', true) →
  ∃ raw id, dFiles d !! (src, "meta.json") = Some raw ∧ meta_id raw = Some id ∧ id ≠ "" ∧
    copied_over src (snapshot_dir dataDir id) d d'.
Proof.
  unfold stageSnapshot, ReadFile. destruct (fails _); [done|]. destruct (dFiles d !! (src, "meta.json")) as [raw|]; [|done].
  destruct (meta_id raw) as [id|] eqn:Em; [|done]. destruct (String.eqb_spec id "") as [|Hid]; [done|].
  destruct (MkdirAll _ _ d) as [d1|] eqn:Ed; [|done]. intros H%copyFlatDir_spec. exists raw, id. unfold copied_over in *.
  by rewrite (MkdirAll_files _ _ _ Ed) in H.
Qed.
End Copies.

(** ** The list of voters *)

Definition voter_text (v : string * option string) : string :=
  match snd v with Some addr => fst v +:+ String "@" addr | None => fst v end.

Definition voter_addr (v : string * option string) : string := default (fst v +:+ ":7000") (snd v).

Definition wf_voter (v : string * option string) : Prop :=
  fst v ≠ "" ∧ contains_byte "@" (fst v) = false ∧ contains_byte "," (voter_text v) = false ∧ TrimSpace (voter_text v) = voter_text v.

Lemma parse_voters_spec vs : vs ≠ [] → Forall wf_voter vs → NoDup vs.*1 →
  parse_voters (join "," (voter_text <$> vs)) = list_to_map ((λ v, (fst v, voter_addr v)) <$> vs).
Proof.
  intros Hne Hwf Hnd. unfold parse_voters. rewrite split_join; [|by destruct vs|].
  2: { apply Forall_fmap. eapply Forall_impl; [exact Hwf|]. by intros v (_ & _ & ? & _). }
  clear Hne. rewrite <-(map_union_empty (list_to_map _)). generalize (∅ : gmap string string) as acc.
  induction Hwf as [|[id addr] vs (Hid & Hat & _ & Htrim) Hwf IH]; intros acc; [exact (eq_sym (map_empty_union acc))|].
  cbn [fst] in Hid, Hat. apply NoDup_cons in Hnd as [Hn Hnd]. rewrite !fmap_cons. cbn [fold_left list_to_map].
  assert (add_voter acc (voter_text (id, addr)) = <[id := voter_addr (id, addr)]> acc) as ->.
  { unfold add_voter. rewrite Htrim. unfold voter_text, voter_addr. cbn [fst snd]. destruct addr as [addr|]; cbn [default].
    - rewrite cut_app by done. by destruct id.
    - rewrite (proj2 (cut_None "@" id) Hat). destruct (String.eqb_spec id "") as [->|]; done. }
  rewrite IH by done. rewrite <-insert_union_r; [apply insert_union_l|].
  apply not_elem_of_list_to_map_1. rewrite <-list_fmap_compose. intros (v & Hv & Hin)%list_elem_of_fmap. apply Hn.
  apply list_elem_of_fmap. exists v. split; [exact Hv|exact Hin].
Qed.

(** ** Backup, then recovery *)

Lemma decode_snapshot_body id dir : utf8_Valid id = true → utf8_Valid dir = true →
  decode_snapshot (print (snapshot_json id dir) +:+ String "010" "") = Some (id, dir).
Proof.
  intros Hi Hd. unfold decode_snapshot, decode_first.
  rewrite (parse_print (snapshot_json id dir) _ (String "010" "")); [done| |done|lia].
  apply printable_obj. by repeat constructor.
Qed.

Lemma snapshot_request host_ok raft other host : plain_host host = true → host_ok host = true →
  management_server host_ok raft other (("http://" +:+ host) +:+ "/api/cluster/snapshot") = Some (handleSnapshot raft).
Proof.
  intros Hh Hok. unfold management_server.
  pose proof (deliver_plain host_ok Router "POST" host ["api"; "cluster"; "snapshot"] None Hh Hok ltac:(done) eq_refl eq_refl) as H.
  change (rooted ["api"; "cluster"; "snapshot"] +:+ query_tail None) with "/api/cluster/snapshot" in H.
  rewrite <-string_app_assoc, H. done.
Qed.

(** A backup that ends with status 0 holds the files of the snapshot. *)
Lemma backup_copies fails host_ok raft other host out d d' :
  plain_host host = true → host_ok host = true → out ≠ "" →
  (∀ id, snd raft = Some id → utf8_Valid id = true ∧ utf8_Valid (snapshot_dir (fst raft) id) = true) →
  runBackupCLI fails (management_server host_ok (Some raft) other) ["raft"; "--management-addr"; "http://" +:+ host; "--output"; out] d = (0%Z, d') →
  ∃ id, snd raft = Some id ∧ copied_over (snapshot_dir (fst raft) id) out d d'.
Proof.
  intros Hh Hok Hout%String.eqb_neq Hid. unfold runBackupCLI. cbn -[management_server String.append decode_snapshot copyFlatDir MkdirAll].
  rewrite Hout, snapshot_request by done. unfold handleSnapshot, Snapshot. destruct raft as [data [id|]]; cbn [fst snd fmap option_fmap option_map]; [|done].
  destruct (Hid id eq_refl) as [Hv Hvd]. rewrite decode_snapshot_body by done.
  destruct (MkdirAll fails out d) as [d1|] eqn:Em; [|done].
  destruct (copyFlatDir fails _ out d1) as [d2 []] eqn:Ec; [|done]. intros [= ->]. exists id. split; [done|].
  apply copyFlatDir_spec in Ec. unfold copied_over in *. by rewrite (MkdirAll_files _ _ _ _ Em) in Ec.
Qed.

Definition restore_args (snap dataDir nodeID bind : string) (vs : list (string * option string)) : list string :=
  ["raft"; "--snapshot"; snap; "--voters"; join "," (voter_text <$> vs); "--node-id"; nodeID; "--raft-bind"; bind; "--raft-data-dir"; dataDir].

(** The documented reach of the library's calls: opening the snapshot store leaves
    the files as they are, opening the log store touches its own file only, and the
    recovery touches the log and the snapshots of the data directory. *)
Record library_reach (lib : raftLibrary) : Prop := {
  reach_store dir d : dFiles (NewFileSnapshotStore lib dir d).1 = dFiles d;
  reach_bolt dir name d f : f ≠ (dir, name) → dFiles (NewBoltStore lib dir name d).1 !! f = dFiles d !! f;
  reach_recover cfg d dir n : (dir, n) ≠ (rcDataDir cfg, bolt_file) → has_prefix (snapshot_dir (rcDataDir cfg) "") dir = false →
    dFiles (hraft_RecoverCluster lib cfg d).1 !! (dir, n) = dFiles d !! (dir, n);
}.

Lemma snapshot_dir_prefix dataDir id : has_prefix (snapshot_dir dataDir "") (snapshot_dir dataDir id) = true.
Proof.
  unfold snapshot_dir, in_dir at 1 3. generalize (in_dir dataDir "snapshots"). intros a.
  change (String "/" id) with (String "/" "" +:+ id). rewrite string_app_assoc. apply has_prefix_app.
Qed.

Lemma snapshot_dir_not_data dataDir id : snapshot_dir dataDir id ≠ dataDir.
Proof. unfold snapshot_dir, in_dir. intros E%(f_equal String.length). rewrite !string_length_app in E. cbn in E. lia. Qed.

Lemma restore_stages fails meta_id lib hostname snap dataDir nodeID bind vs e e' :
  library_reach lib → snap ≠ "" → vs ≠ [] → Forall wf_voter vs → NoDup vs.*1 →
  runRestoreCLI fails meta_id lib hostname (restore_args snap dataDir nodeID bind vs) e = (0%Z, e') →
  ∃ raw id e1 e2, dFiles e !! (snap, "meta.json") = Some raw ∧ meta_id raw = Some id ∧
    copied_over snap (snapshot_dir dataDir id) e e1 ∧ (∀ f, f ≠ (dataDir, bolt_file) → dFiles e2 !! f = dFiles e1 !! f) ∧
    hraft_RecoverCluster lib (mkRecover (if String.eqb nodeID "" then hostname else nodeID) bind dataDir
      (list_to_map ((λ v, (fst v, voter_addr v)) <$> vs))) e2 = (e', true).
Proof.
  intros Hlib Hs%String.eqb_neq Hvs Hwf Hnd. unfold runRestoreCLI, restore_args. cbn -[RecoverCluster parse_voters join voter_text].
  rewrite Hs. destruct (String.eqb_spec (join "," (voter_text <$> vs)) "") as [|_]; [done|].
  rewrite parse_voters_spec by done. unfold RecoverCluster. cbn [rcVoters rcDataDir rcRaftBindAddr]. destruct (decide _); [done|].
  destruct (MkdirAll fails dataDir e) as [e0|] eqn:Em; [|done].
  destruct (stageSnapshot fails meta_id snap dataDir e0) as [e1 []] eqn:Est; [|done].
  destruct (ResolveTCPAddr lib bind); [|done]. destruct (NewTCPTransport lib bind); [|done]. cbn [negb].
  pose proof (reach_store _ Hlib dataDir e1) as H1. destruct (NewFileSnapshotStore lib dataDir e1) as [e2 []]; [|done].
  pose proof (reach_bolt _ Hlib dataDir bolt_file e2) as H2. destruct (NewBoltStore lib dataDir bolt_file e2) as [e3 []]; [|done].
  destruct (hraft_RecoverCluster lib _ e3) as [e4 []] eqn:E4; [|done]. intros [= <-].
  apply stageSnapshot_spec in Est as (raw & id & Hraw & Hmeta & _ & Hc). unfold copied_over in *.
  rewrite (MkdirAll_files _ _ _ _ Em) in *. exists raw, id, e1, e3. split_and!; [done|done|apply Hc|apply Hc| |done].
  intros f Hf. cbn in H1, H2. by rewrite H2, H1.
Qed.

(** C14: A backup that was taken to the machine of a new node and restored there is
    what the library recovers from. When both commands report success: when the
    library's recovery was called, every file of the snapshot was, byte for byte,
    in the directory where the library looks for the snapshot of that identifier,
    whatever the directory of the copy is called, and when the two target
    directories were empty there was no other file in it; apart from that directory
    and the log file no file had changed. The recovery was called for exactly the
    voters that were named, with port 7000 for those without an address, and
    succeeded. It writes to the log file and among the snapshots of the data
    directory, and so no other file of that disk changed in the end. Which snapshot
    the library takes when the data directory has others is its own choice. *)
Theorem backup_restores_snapshot fails fails' host_ok meta_id raft other host out lib hostname snap dataDir nodeID bind vs d d' e e' :
  plain_host host = true → host_ok host = true → out ≠ "" → snap ≠ "" →
  vs ≠ [] → Forall wf_voter vs → NoDup vs.*1 → library_reach lib →
  (∀ id, snd raft = Some id → utf8_Valid id = true ∧ utf8_Valid (snapshot_dir (fst raft) id) = true ∧
    ∃ raw, dFiles d !! (snapshot_dir (fst raft) id, "meta.json") = Some raw ∧ meta_id raw = Some id) →
  runBackupCLI fails (management_server host_ok (Some raft) other) ["raft"; "--management-addr"; "http://" +:+ host; "--output"; out] d = (0%Z, d') →
  (∀ n, dFiles e !! (snap, n) = dFiles d' !! (out, n)) →
  runRestoreCLI fails' meta_id lib hostname (restore_args snap dataDir nodeID bind vs) e = (0%Z, e') →
  ∃ id e1, snd raft = Some id ∧ let source := snapshot_dir (fst raft) id in let target := snapshot_dir dataDir id in
    (∀ n c, dFiles d !! (source, n) = Some c → dFiles e1 !! (target, n) = Some c) ∧
    ((∀ n, dFiles d !! (out, n) = None) → (∀ n, dFiles e !! (target, n) = None) → ∀ n, dFiles e1 !! (target, n) = dFiles d !! (source, n)) ∧
    (∀ dir n, dir ≠ target → (dir, n) ≠ (dataDir, bolt_file) → dFiles e1 !! (dir, n) = dFiles e !! (dir, n)) ∧
    hraft_RecoverCluster lib (mkRecover (if String.eqb nodeID "" then hostname else nodeID) bind dataDir
      (list_to_map ((λ v, (fst v, voter_addr v)) <$> vs))) e1 = (e', true) ∧
    (∀ dir n, (dir, n) ≠ (dataDir, bolt_file) → has_prefix (snapshot_dir dataDir "") dir = false →
       dFiles e' !! (dir, n) = dFiles e !! (dir, n)).
Proof.
  intros Hh Hok Hout Hsnap Hvs Hwf Hnd Hlib Hraft Hb Hcarry Hr.
  apply backup_copies in Hb as (id & Hid & [Hb _]); [|done|done|done|intros i Hi; destruct (Hraft i Hi) as (? & ? & _); by split].
  destruct (Hraft id Hid) as (_ & _ & raw & Hraw & Hmeta).
  apply restore_stages in Hr as (raw' & id' & e1 & e2 & Hraw' & Hmeta' & [Hc1 Hc2] & Hbolt & Hrec); [|done..].
  rewrite Hcarry, Hb, Hraw in Hraw'. injection Hraw' as <-. rewrite Hmeta in Hmeta'. injection Hmeta' as <-.
  assert (∀ n, (snapshot_dir dataDir id, n) ≠ (dataDir, bolt_file)) as Hne by (intros n [= E _]; by apply snapshot_dir_not_data in E).
  assert (∀ dir n, dir ≠ snapshot_dir dataDir id → (dir, n) ≠ (dataDir, bolt_file) → dFiles e2 !! (dir, n) = dFiles e !! (dir, n)) as Hrest
    by (intros dir n ? ?; by rewrite Hbolt, Hc2).
  exists id, e2. split; [done|]. cbn zeta. split_and!; [| |exact Hrest|exact Hrec|].
  - intros n c Hn. by rewrite Hbolt, Hc1, Hcarry, Hb, Hn.
  - intros Ho Ht n. rewrite Hbolt, Hc1, Hcarry, Hb, Ho, Ht by done. by destruct (dFiles d !! (snapshot_dir raft.1 id, n)).
  - intros dir n Hf Hp. match type of Hrec with hraft_RecoverCluster _ ?cfg _ = _ => pose proof (reach_recover _ Hlib cfg e2 dir n Hf Hp) as H end.
    rewrite Hrec in H. cbn in H. rewrite H. apply Hrest; [|done]. intros ->. by rewrite snapshot_dir_prefix in Hp.
Qed.

(** A node with one snapshot, its backup, and a fresh machine. *)
Definition source_disk : disk :=
  mkDisk {["/data/raft/snapshots/2-9-17"]}
    (<[("/data/raft/snapshots/2-9-17", "meta.json") := "2-9-17"]> {[("/data/raft/snapshots/2-9-17", "state.bin") := "state"]}).

Definition backed_up : Z * disk :=
  runBackupCLI (λ _, false) (management_server any_host (Some ("/data/raft", Some "2-9-17")) (404%Z, ""))
    ["raft"; "--management-addr"; "http://" +:+ "localhost:8090"; "--output"; "/tmp/backup"] source_disk.

Definition fresh_disk : disk := mkDisk {["/mnt"]} (<[("/mnt", "meta.json") := "2-9-17"]> {[("/mnt", "state.bin") := "state"]}).

Definition example_voters : list (string * option string) := [("core-1", Some "10.0.0.1:7000"); ("core-2", None)].

(** A library that recovers: it writes its log file and one more snapshot. *)
Definition sample_library : raftLibrary :=
  mkRaftLibrary (λ _, true) (λ _, true) (λ _ d, (d, true)) (λ dir name d, (mkDisk (dDirs d) (<[(dir, name) := ""]> (dFiles d)), true))
    (λ cfg d, (mkDisk (dDirs d) (<[(snapshot_dir (rcDataDir cfg) "new", "state.bin") := ""]> (<[(rcDataDir cfg, bolt_file) := ""]> (dFiles d))), true)).

Lemma sample_library_reach : library_reach sample_library.
Proof.
  split; cbn; [done|intros dir name d f Hf; by rewrite lookup_insert_ne|].
  intros cfg d dir n Hf Hp. rewrite !lookup_insert_ne; [done|congruence|]. intros [= <- _]. by rewrite snapshot_dir_prefix in Hp.
Qed.

Definition restored := runRestoreCLI (λ _, false) Some sample_library "core-1" (restore_args "/mnt" "/data/raft" "" ":7000" example_voters) fresh_disk.

Lemma backup_restores_snapshot_witness :
  fst backed_up = 0%Z ∧ fst restored = 0%Z ∧
  ∃ e1, dFiles e1 !! ("/data/raft/snapshots/2-9-17", "state.bin") = Some "state" ∧
    hraft_RecoverCluster sample_library (mkRecover "core-1" ":7000" "/data/raft"
      (<["core-1" := "10.0.0.1:7000"]> {["core-2" := "core-2:7000"]})) e1 = (snd restored, true).
Proof.
  split; [vm_compute; reflexivity|]. split; [vm_compute; reflexivity|].
  assert (Forall wf_voter example_voters) as Hwf by by (repeat constructor).
  assert (NoDup example_voters.*1) as Hnd by by apply (bool_decide_unpack (NoDup _)); vm_compute.
  destruct backed_up as [code d'] eqn:Eb. assert (code = 0%Z) as -> by (change code with (fst (code, d')); rewrite <-Eb; vm_compute; reflexivity).
  destruct restored as [code e'] eqn:Er. assert (code = 0%Z) as -> by (change code with (fst (code, e')); rewrite <-Er; vm_compute; reflexivity).
  destruct (backup_restores_snapshot (λ _, false) (λ _, false) any_host Some ("/data/raft", Some "2-9-17") (404%Z, "") "localhost:8090"
    "/tmp/backup" sample_library "core-1" "/mnt" "/data/raft" "" ":7000" example_voters source_disk d' fresh_disk e') as (id & e1 & [= <-] & H1 & _ & _ & H2 & _);
    [done|done|done|done|done|exact Hwf|exact Hnd|exact sample_library_reach| |exact Eb| |exact Er|].
  - intros id [= <-]. split; [done|]. split; [done|]. exists "2-9-17". split; [vm_compute; reflexivity|done].
  - intros n. assert (dFiles d' = <[("/tmp/backup", "meta.json") := "2-9-17"]> (<[("/tmp/backup", "state.bin") := "state"]> (dFiles source_disk))) as ->.
    { change d' with (snd (0%Z, d')). rewrite <-Eb. apply (bool_decide_unpack _). vm_compute. exact I. }
    destruct (decide (n = "meta.json")) as [->|H1]; [vm_compute; reflexivity|]. destruct (decide (n = "state.bin")) as [->|H2]; [vm_compute; reflexivity|].
    unfold fresh_disk, source_disk. cbn [dFiles]. by rewrite !lookup_insert_ne, !lookup_singleton_ne by congruence.
  - exists e1. split; [apply H1; vm_compute; reflexivity|]. cbn [snd]. rewrite <-H2. reflexivity.
Defined.
