(* ===== verification/LoadScore.v ===== *)
(** The load score of an edge (internal/telemetry/loadscore.go), in float64
    arithmetic: the CPU sampler, the pressure of the connections, and the score
    that autoscaling reads. CPU time and the clock are arguments, in nanoseconds;
    the zero time is [None]. Each operation rounds once: no multiplication is fused
    with an addition. *)
From Stdlib Require Import ZArith SpecFloat.
From S2P Require Import Prelude Float64 GoNumbers FloatRound.

Open Scope Z_scope.

Definition Zero : float64 := S754_zero false.
Definition One : float64 := of_int 1.

Record cpuSampler := mkSampler { lastCPU : Z; lastWall : option Z }.

Definition clamp01 (v : float64) : float64 :=
  if fltb v Zero then Zero else if fltb One v then One else v.

(** [usage] is the CPU time, [None] when getrusage fails. *)
Definition sample (usage : option Z) (now : Z) (cpuLimit : float64) (s : cpuSampler) : float64 * cpuSampler :=
  match usage with
  | None => (Zero, s)
  | Some cpuTime =>
      let frac :=
        match lastWall s with
        | Some last =>
            if fltb Zero cpuLimit then
              let wallDelta := Seconds (now - last) in
              let cpuDelta := Seconds (cpuTime - lastCPU s) in
              if fltb Zero wallDelta then fdiv (fdiv cpuDelta wallDelta) cpuLimit else Zero
            else Zero
        | None => Zero
        end in
      (clamp01 frac, mkSampler cpuTime (Some now))
  end.

Definition connectionPressure (connections softLimit hardLimit : Z) : float64 * float64 :=
  if softLimit <=? 0 then (Zero, Zero)
  else
    let base := clamp01 (fdiv (of_int connections) (of_int softLimit)) in
    if (hardLimit <=? softLimit) || (connections <=? softLimit) then (base, Zero)
    else
      let ramp := clamp01 (fdiv (of_int (connections - softLimit)) (of_int (hardLimit - softLimit))) in
      (base, fmul ramp ramp).

Definition weight (tenths : Z) : float64 := round_decimal false tenths (-1).

(** One tick of the sampler: the three parts, the score and the sampler's state. *)
Definition tick (connections softLimit hardLimit : Z) (usage : option Z) (now : Z) (cpuLimit : float64) (s : cpuSampler) :
    float64 * float64 * float64 * float64 * cpuSampler :=
  let '(connFrac, overloadFrac) := connectionPressure connections softLimit hardLimit in
  let '(cpuFrac, s) := sample usage now cpuLimit s in
  let score := clamp01 (fadd (fadd (fmul connFrac (weight 6)) (fmul cpuFrac (weight 4))) (fmul overloadFrac (weight 2))) in
  (connFrac, overloadFrac, cpuFrac, score, s).

(** ** Lemmas *)

(** A number, and a number that is not negative. *)
Definition num (x : float64) : Prop := match x with S754_nan => False | _ => True end.
Definition nonneg (x : float64) : Prop :=
  match x with S754_zero _ | S754_infinity false | S754_finite false _ _ => True | _ => False end.
Definition fin (x : float64) : Prop := match x with S754_zero _ | S754_finite false _ _ => True | _ => False end.
Definition within (x : float64) : Prop := fleb Zero x = true ∧ fleb x One = true.

Lemma nonneg_num x : nonneg x → num x.
Proof. by destruct x as [|[]| |[]]. Qed.

(** Rounding keeps the sign and never makes a NaN. *)
Lemma round_aux_sign sx m e l : 0 <= m →
  match binary_round_aux prec emax sx m e l with S754_nan => False | S754_zero s | S754_infinity s | S754_finite s _ _ => s = sx end.
Proof.
  intros Hm. unfold binary_round_aux, shr_fexp.
  destruct (shr_spec m e l (fexp prec emax (Zdigits2 m + e) - e) Hm) as (H1 & _).
  destruct (shr (shr_record_of_loc m l) e _) as [mrs e1]. cbn [fst] in H1.
  set (R := round_nearest_even (shr_m mrs) (loc_of_shr_record mrs)).
  assert (0 <= m / 2 ^ Z.max 0 (fexp prec emax (Zdigits2 m + e) - e)) as H0 by (apply Z.div_pos; [lia|apply Z.pow_pos_nonneg; lia]).
  rewrite <-H1 in H0. assert (0 <= R) as HR by (unfold R; destruct (loc_of_shr_record mrs) as [|[]]; cbn; [lia|destruct (Z.even _); lia|lia|lia]).
  destruct (shr_spec R e1 loc_Exact (fexp prec emax (Zdigits2 R + e1) - e1) HR) as (G1 & _).
  destruct (shr (shr_record_of_loc R loc_Exact) e1 _) as [mrs2 e2]. cbn [fst] in G1.
  assert (0 <= shr_m mrs2) as H2 by (rewrite G1; apply Z.div_pos; [lia|apply Z.pow_pos_nonneg; lia]).
  destruct (shr_m mrs2); [done| |lia]. by destruct (Z.leb e2 _).
Qed.

Lemma normalize_num m e : num (binary_normalize prec emax m e false).
Proof.
  destruct m as [|p|p]; [done|..]; unfold binary_normalize, binary_round; destruct (shl_align _ _ _) as [mz ez].
  - pose proof (round_aux_sign false (Z.pos mz) ez loc_Exact ltac:(lia)). by destruct (binary_round_aux _ _ _ _ _ _).
  - pose proof (round_aux_sign true (Z.pos mz) ez loc_Exact ltac:(lia)). by destruct (binary_round_aux _ _ _ _ _ _).
Qed.

Lemma normalize_nonneg p e : nonneg (binary_normalize prec emax (Z.pos p) e false).
Proof.
  unfold binary_normalize, binary_round. destruct (shl_align _ _ _) as [mz ez].
  pose proof (round_aux_sign false (Z.pos mz) ez loc_Exact ltac:(lia)). by destruct (binary_round_aux _ _ _ _ _ _) as [| | |]; subst.
Qed.

Lemma fadd_nonneg x y : nonneg x → nonneg y → nonneg (fadd x y).
Proof.
  destruct x as [sx|[]| |[] mx ex], y as [sy|[]| |[] my ey]; try done; try (by destruct sx, sy). intros _ _. unfold fadd, SFadd. cbn [cond_Zopp]. apply normalize_nonneg.
Qed.

Lemma fmul_nonneg x m e : nonneg x → nonneg (fmul x (S754_finite false m e)).
Proof.
  destruct x as [sx|[]| |[] mx ex]; try done. intros _. unfold fmul, SFmul.
  pose proof (round_aux_sign (xorb false false) (Z.pos (mx * m)) (ex + e) loc_Exact ltac:(lia)). by destruct (binary_round_aux _ _ _ _ _ _); cbn in *; subst.
Qed.

Lemma div_core_nonneg m1 e1 m2 e2 : 0 <= (SFdiv_core_binary prec emax (Z.pos m1) e1 (Z.pos m2) e2).1.1.
Proof.
  unfold SFdiv_core_binary. set (e' := Z.min _ _). set (m' := match e1 - e2 - e' with Z0 => _ | Zpos _ => _ | Zneg _ => _ end).
  assert (0 <= m') as Hm by (unfold m'; destruct (e1 - e2 - e'); [lia|apply Z.shiftl_nonneg; lia|lia]).
  pose proof (Z.div_pos m' (Z.pos m2) Hm ltac:(lia)) as Hq. unfold Z.div in Hq. by destruct (Z.div_eucl m' (Z.pos m2)) as [q r].
Qed.

Lemma fdiv_num x s m e : num x → num (fdiv x (S754_finite s m e)).
Proof.
  destruct x as [sx|sx| |sx mx ex]; try done. intros _. unfold fdiv, SFdiv. pose proof (div_core_nonneg mx ex m e) as H.
  destruct (SFdiv_core_binary _ _ _ _ _ _) as [[q e'] l]. pose proof (round_aux_sign (xorb sx s) q e' l H). by destruct (binary_round_aux _ _ _ _ _ _).
Qed.

Lemma fltb_total x y : num x → num y → fltb x y = false → fleb y x = true.
Proof.
  unfold fltb, fleb, SFltb, SFleb. destruct x as [[]|[]| |[] mx ex], y as [[]|[]| |[] my ey]; try done; intros _ _; cbn;
    rewrite (Z.compare_antisym ex ey); destruct (ex ?= ey); try done; cbn;
    change (Pos.compare_cont Eq ?a ?b) with (Pos.compare a b); rewrite (Pos.compare_antisym mx my); by destruct (Pos.compare mx my).
Qed.

Lemma clamp01_within x : num x → within (clamp01 x).
Proof.
  intros Hx. unfold clamp01, within. destruct (fltb x Zero) eqn:E0; [done|]. destruct (fltb One x) eqn:E1; [done|].
  split; by apply fltb_total.
Qed.

Lemma within_fin x : within x → fin x.
Proof. intros [H1 H2]. by destruct x as [|[]| |[]]. Qed.

Lemma digits_le m n : 0 < m < 2 ^ n → 0 <= n → Zdigits2 m <= n.
Proof.
  intros Hm Hn. destruct (digits_bounds m ltac:(lia)) as (Hd & Hlo & _). destruct (Z.le_gt_cases (Zdigits2 m) n); [done|].
  exfalso. assert (2 ^ n <= 2 ^ (Zdigits2 m - 1)) by (apply Z.pow_le_mono_r; lia). lia.
Qed.

Lemma of_int_pos z : 0 < z < 2 ^ 64 → ∃ p q, of_int z = S754_finite false p q.
Proof.
  intros Hz. pose proof (digits_le z 64 ltac:(lia) ltac:(lia)) as Hd. destruct z as [|z|z]; try lia. cbn [Zdigits2] in Hd.
  unfold of_int, binary_normalize, binary_round. set (e := fexp prec emax (Z.pos (digits2_pos z) + 0)).
  assert (e = Z.pos (digits2_pos z) - 53) as He by (unfold e, fexp, SpecFloat.emin, prec, emax; lia).
  destruct (Z.le_gt_cases e 0).
  - destruct (shl_align_spec z 0 e ltac:(lia)) as [E1 E2]. destruct (shl_align z 0 e) as [mz ez]. cbn [fst snd] in *. subst ez.
    assert (Z.pos mz < 2 ^ 117) as Hmz.
    { rewrite E1. assert (2 ^ (0 - e) <= 2 ^ 53) by (apply Z.pow_le_mono_r; lia). change (2 ^ 117) with (2 ^ 64 * 2 ^ 53). nia. }
    pose proof (digits_le (Z.pos mz) 117 ltac:(lia) ltac:(lia)).
    destruct (round_aux_spec false (Z.pos mz) e loc_Exact) as (p & q & R & E & _); [lia|lia|lia|]. eauto.
  - rewrite shl_align_id by lia. destruct (round_aux_spec false (Z.pos z) 0 loc_Exact) as (p & q & R & E & _); [lia|lia|cbn [Zdigits2]; lia|]. eauto.
Qed.

Lemma seconds_fin d : 0 <= d < 2 ^ 63 → fin (Seconds d).
Proof.
  intros Hd. unfold Seconds. rewrite Z.quot_div_nonneg, Z.rem_mod_nonneg by (unfold Second; lia).
  pose proof (Z.div_mod d Second ltac:(done)) as E. pose proof (Z.mod_pos_bound d Second ltac:(done)) as Hn.
  set (s := d / Second) in *. set (n := d mod Second) in *. assert (0 <= s < 2 ^ 34) as Hs by (unfold Second in *; lia).
  destruct (Z.eq_dec n 0) as [En|Nn].
  - rewrite En. change (fdiv (of_int 0) (of_int Second)) with (S754_zero false). destruct (Z.eq_dec s 0) as [->|Ns]; [done|].
    by destruct (of_int_pos s ltac:(lia)) as (p & q & ->).
  - destruct (fraction_bounds n ltac:(lia)) as (p & q & -> & Hq & _ & Hlo & Hhi & Hq51). destruct (Z.eq_dec s 0) as [->|Ns]; [done|].
    by destruct (add_fraction s p q) as (p' & q' & -> & _); [lia|lia|done|done|].
Qed.

(** ** The ratio of two counts *)

Lemma one_repr : One = S754_finite false 4503599627370496 (-52).
Proof. reflexivity. Qed.

Lemma clamp01_large p q : 2 ^ 52 <= Z.pos p → -52 <= q → clamp01 (S754_finite false p q) = One.
Proof.
  intros Hp Hq. unfold clamp01. rewrite one_repr. cbn [fltb SFltb SFcompare Zero]. unfold fltb, SFltb, SFcompare.
  destruct (Z.compare_spec (-52) q); [subst q| done |lia]. change (Pos.compare_cont Eq ?a ?b) with (Pos.compare a b).
  destruct (Pos.compare_spec 4503599627370496 p) as [<-|_|Hc]; [reflexivity|reflexivity|exfalso].
  apply Pos2Z.pos_lt_pos in Hc. change (2 ^ 52) with 4503599627370496 in Hp. revert Hp Hc. generalize (Z.pos p). clear. lia.
Qed.

(** A count that reaches its limit gives a full ratio. *)
Lemma ratio_full x y : 0 < y <= x → x < 2 ^ 53 → clamp01 (fdiv (of_int x) (of_int y)) = One.
Proof.
  intros Hxy Hx. destruct (of_int_exact x) as (p1 & -> & E1 & D1 & Hd1); [lia|]. destruct (of_int_exact y) as (p2 & -> & E2 & D2 & Hd2); [lia|].
  destruct (digits_bounds x ltac:(lia)) as (_ & Lx & Ux). destruct (digits_bounds y ltac:(lia)) as (_ & Ly & Uy).
  set (dx := Zdigits2 x) in *. set (dy := Zdigits2 y) in *.
  assert (dy <= dx) as Hdd.
  { destruct (Z.le_gt_cases dy dx); [done|]. exfalso. assert (2 ^ dx <= 2 ^ (dy - 1)) by (apply Z.pow_le_mono_r; lia). lia. }
  unfold fdiv, SFdiv, SFdiv_core_binary. rewrite D1, D2.
  replace (Z.min (fexp prec emax (53 + (dx - 53) - (53 + (dy - 53)))) (dx - 53 - (dy - 53))) with (dx - dy - 53) by (unfold fexp, SpecFloat.emin, prec, emax; lia).
  replace (dx - 53 - (dy - 53) - (dx - dy - 53)) with 53 by lia. rewrite Z.shiftl_mul_pow2 by lia.
  destruct (digits_bounds (Z.pos p1) ltac:(lia)) as (_ & L1 & U1). destruct (digits_bounds (Z.pos p2) ltac:(lia)) as (_ & L2 & U2). rewrite D1 in L1, U1. rewrite D2 in L2, U2.
  pose proof (Z.div_eucl_eq (Z.pos p1 * 2 ^ 53) (Z.pos p2) ltac:(lia)) as Hq. pose proof (Z.mod_pos_bound (Z.pos p1 * 2 ^ 53) (Z.pos p2) ltac:(lia)) as Hr. unfold Z.modulo in Hr.
  destruct (Z.div_eucl (Z.pos p1 * 2 ^ 53) (Z.pos p2)) as [m r]. set (l := new_location (Z.pos p2) r).
  change (2 ^ (53 - 1)) with (2 ^ 52) in *. change (2 ^ 53) with (2 * 2 ^ 52) in *. set (t := 2 ^ 52) in *. assert (0 < t) by (unfold t; lia).
  assert (t <= m < 4 * t) as Hm by (split; apply Z.nlt_ge || apply Z.nle_gt; intros Hc; nia).
  assert (dx = dy → 2 * t <= m) as Hm2.
  { intros Ed. assert (Z.pos p2 <= Z.pos p1) by (rewrite E1, E2, Ed; apply Z.mul_le_mono_nonneg_r; [apply Z.pow_nonneg; lia|lia]). apply Z.nlt_ge. intros Hc. nia. }
  assert (Zdigits2 m <= 54) as Hdm by (apply digits_le; [change (2 ^ 54) with (4 * t); lia|lia]).
  assert (53 <= Zdigits2 m) as Hdm'.
  { destruct (digits_bounds m ltac:(lia)) as (Hdpos & _ & Hu). destruct (Z.le_gt_cases 53 (Zdigits2 m)); [done|]. exfalso.
    assert (2 ^ Zdigits2 m <= t) by (apply Z.pow_le_mono_r; lia). lia. }
  assert (dx = dy → Zdigits2 m = 54) as Hd54.
  { intros Ed. destruct (Z.eq_dec (Zdigits2 m) 53) as [E|]; [|lia]. exfalso. destruct (digits_bounds m ltac:(lia)) as (_ & _ & Hu). rewrite E in Hu.
    change (2 ^ 53) with (2 * t) in Hu. specialize (Hm2 Ed). lia. }
  destruct (round_aux_spec (xorb false false) m (dx - dy - 53) l) as (p & q & R & -> & Hp & ER & He & HR & _); [lia|lia|lia|].
  set (k := lost m (dx - dy - 53)) in *. assert (k = Zdigits2 m - 53) as Hk by (unfold k, lost; lia).
  assert (t <= R) as HtR.
  { destruct (digits_bounds m ltac:(lia)) as (_ & Hlo & _). etransitivity; [|apply HR]. apply Z.div_le_lower_bound; [apply Z.pow_pos_nonneg; lia|].
    replace (2 ^ k * t) with (2 ^ (Zdigits2 m - 1)); [done|]. unfold t. rewrite <-Z.pow_add_r by lia. f_equal. lia. }
  assert (-52 <= dx - dy - 53 + k) as Hexp by (destruct (Z.eq_dec dx dy) as [Ed|]; [rewrite (Hd54 Ed) in Hk; lia|lia]).
  cbn [xorb]. destruct He as [Eq|[Eq Ep]]; apply clamp01_large; try lia.
  replace (q - (dx - dy - 53 + k)) with 0 in ER by lia. change (2 ^ 52) with t. lia.
Qed.

(** ** Properties *)

Lemma pressure_within connections softLimit hardLimit : softLimit < 2 ^ 63 → hardLimit < 2 ^ 63 →
  within (connectionPressure connections softLimit hardLimit).1 ∧
  (∃ ramp, within ramp ∧ (connectionPressure connections softLimit hardLimit).2 = fmul ramp ramp).
Proof.
  intros Hs Hh. unfold connectionPressure. destruct (Z.leb_spec softLimit 0).
  { split; [done|]. by exists Zero. }
  assert (∀ c d, 0 < d < 2 ^ 63 → within (clamp01 (fdiv (of_int c) (of_int d)))) as Hratio.
  { intros c d Hd. destruct (of_int_pos d ltac:(lia)) as (p & q & ->). apply clamp01_within, fdiv_num. apply normalize_num. }
  destruct (Z.leb_spec hardLimit softLimit), (Z.leb_spec connections softLimit); cbn [orb fst snd];
    try (split; [apply Hratio; lia|by exists Zero]).
  split; [apply Hratio; lia|]. refine (ex_intro _ _ (conj _ eq_refl)). apply Hratio. lia.
Qed.

Lemma sample_within usage now cpuLimit s :
  cpuLimit ≠ S754_infinity false →
  (∀ last, lastWall s = Some last → 0 <= now - last < 2 ^ 63) → (∀ cpu, usage = Some cpu → 0 <= cpu - lastCPU s < 2 ^ 63) →
  within (sample usage now cpuLimit s).1.
Proof.
  intros Hinf Hw Hc. unfold sample. destruct usage as [cpu|]; [|done]. cbn [fst]. apply clamp01_within.
  destruct (lastWall s) as [last|]; [|done]. destruct (fltb Zero cpuLimit) eqn:El; [|done]. cbv zeta.
  destruct (fltb Zero (Seconds (now - last))) eqn:Ew; [|done].
  pose proof (seconds_fin _ (Hw last eq_refl)) as Hfw. pose proof (seconds_fin _ (Hc cpu eq_refl)) as Hfc.
  assert (∃ m e, Seconds (now - last) = S754_finite false m e) as (m & e & ->) by (destruct (Seconds (now - last)) as [| | |[]]; try done; eauto).
  assert (∃ m e, cpuLimit = S754_finite false m e) as (m' & e' & ->) by (destruct cpuLimit as [|[]| |[]]; try done; eauto).
  apply fdiv_num, fdiv_num. by destruct (Seconds (cpu - lastCPU s)).
Qed.

Lemma square_nonneg x : within x → nonneg (fmul x x).
Proof.
  intros H%within_fin. destruct x as [sx|sx| |[] mx ex]; try done. by apply fmul_nonneg.
Qed.

(** The connection and CPU parts of the load score and the score itself lie
    between 0 and 1 and the overload is not negative, whatever the number of
    connections, the limits and the CPU readings are (the CPU limit not infinite,
    clocks that do not run backwards): the score is never NaN. There is no
    overload up to the soft limit, and the base and the overload are exactly 1 from
    the hard limit on. *)
Theorem load_score_is_a_fraction connections softLimit hardLimit usage now cpuLimit s :
  softLimit < 2 ^ 63 → hardLimit < 2 ^ 63 → cpuLimit ≠ S754_infinity false →
  (∀ last, lastWall s = Some last → 0 <= now - last < 2 ^ 63) → (∀ cpu, usage = Some cpu → 0 <= cpu - lastCPU s < 2 ^ 63) →
  let '(connFrac, overloadFrac, cpuFrac, score, _) := tick connections softLimit hardLimit usage now cpuLimit s in
  within connFrac ∧ nonneg overloadFrac ∧ within cpuFrac ∧ within score ∧
  (connections <= softLimit → overloadFrac = Zero) ∧
  (0 < softLimit < hardLimit → hardLimit <= connections < 2 ^ 53 → connFrac = One ∧ overloadFrac = One).
Proof.
  intros Hs Hh Hinf Hw Hc. unfold tick. pose proof (sample_within usage now cpuLimit s Hinf Hw Hc) as Hcpu.
  destruct (pressure_within connections softLimit hardLimit Hs Hh) as [Hbase (ramp & Hramp & Eramp)].
  destruct (connectionPressure connections softLimit hardLimit) as [connFrac overloadFrac] eqn:Ep. cbn [fst snd] in *. subst overloadFrac.
  destruct (sample usage now cpuLimit s) as [cpuFrac s']. cbn [fst] in Hcpu.
  assert (∀ n x, n = 2 ∨ n = 4 ∨ n = 6 → nonneg x → nonneg (fmul x (weight n))) as Hmul.
  { intros n x Hn Hx. assert (∃ m e, weight n = S754_finite false m e) as (m & e & ->).
    { destruct Hn as [->|[->| ->]]; do 2 eexists; vm_compute; reflexivity. }
    by apply fmul_nonneg. }
  assert (∀ x, within x → nonneg x) as Hwn by (intros x H%within_fin; by destruct x as [| | |[]]).
  pose proof (square_nonneg ramp Hramp). split_and!; [done|done|done| |..].
  - apply clamp01_within, nonneg_num, fadd_nonneg; [apply fadd_nonneg|]; apply Hmul; auto.
  - intros Hle. unfold connectionPressure in Ep. destruct (softLimit <=? 0); [by simplify_eq|].
    destruct (Z.leb_spec connections softLimit); [|lia]. rewrite orb_true_r in Ep. by simplify_eq.
  - intros Hsh Hcon. unfold connectionPressure in Ep. destruct (Z.leb_spec softLimit 0); [lia|].
    destruct (Z.leb_spec hardLimit softLimit), (Z.leb_spec connections softLimit); try lia. cbn [orb] in Ep.
    rewrite !ratio_full in Ep by lia. injection Ep as <- <-. by vm_compute.
Qed.

Lemma load_score_is_a_fraction_witness :
  let '(connFrac, overloadFrac, cpuFrac, score, _) := tick 150 100 200 (Some (2 * Second)) (4 * Second) (of_int 1) (mkSampler Second (Some (2 * Second))) in
  within connFrac ∧ nonneg overloadFrac ∧ within cpuFrac ∧ within score ∧
  (150 <= 100 → overloadFrac = Zero) ∧ (0 < 100 < 200 → 200 <= 150 < 2 ^ 53 → connFrac = One ∧ overloadFrac = One).
Proof.
  apply (load_score_is_a_fraction 150 100 200 (Some (2 * Second)) (4 * Second) (of_int 1) (mkSampler Second (Some (2 * Second)))); try done.
  - intros last [= <-]. unfold Second. lia.
  - intros cpu [= <-]. cbn. unfold Second. lia.
Defined.
