(* ===== verification/LiveStats.v ===== *)
(** The live counters of an edge (internal/telemetry/livestats.go). The counters
    are atomics that are bumped outside the mutex, so a counter and the event that
    goes with it are separate steps, and the sampler's readings are taken before it
    holds the mutex; a step of [step] is one atomic operation or one critical
    section. Times are readings of the monotonic clock in nanoseconds. *)
From stdpp Require Import list strings sorting.
From S2P Require Import Prelude Float64 GoNumbers.

Open Scope Z_scope.

Record rateSample := mkRateSample { sampleAt : Z; sampleMessages : Z; sampleBytes : Z }.
Record liveEvent := mkLiveEvent { eventAt : Z; kind : string }.

Record LiveStats := mkLiveStats {
  totalMessages : Z;
  totalBytes : Z;
  disconnects : Z;
  dropped : Z;
  prevMessages : Z;
  prevBytes : Z;
  prevAt : Z;
  msgRate : float64;
  byteRate : float64;
  samples : list rateSample;
  events : list liveEvent;
}.

Definition NewLiveStats (now : Z) : LiveStats := mkLiveStats 0 0 0 0 0 0 now (of_int 0) (of_int 0) [] [].

Definition RecordPublish (payloadBytes : Z) (ls : LiveStats) : LiveStats :=
  mkLiveStats (wrap_uint64 (totalMessages ls + 1)) (wrap_uint64 (totalBytes ls + payloadBytes)) (disconnects ls) (dropped ls)
    (prevMessages ls) (prevBytes ls) (prevAt ls) (msgRate ls) (byteRate ls) (samples ls) (events ls).

(** ls.disconnects.Add(1) and ls.dropped.Add(1) *)
Definition count_disconnect (ls : LiveStats) : LiveStats :=
  mkLiveStats (totalMessages ls) (totalBytes ls) (wrap_uint64 (disconnects ls + 1)) (dropped ls)
    (prevMessages ls) (prevBytes ls) (prevAt ls) (msgRate ls) (byteRate ls) (samples ls) (events ls).
Definition count_drop (ls : LiveStats) : LiveStats :=
  mkLiveStats (totalMessages ls) (totalBytes ls) (disconnects ls) (wrap_uint64 (dropped ls + 1))
    (prevMessages ls) (prevBytes ls) (prevAt ls) (msgRate ls) (byteRate ls) (samples ls) (events ls).

(** The loop that skips what is older than [cutoff]. *)
Fixpoint skip_before {A} (at_ : A → Z) (cutoff : Z) (l : list A) : list A :=
  match l with
  | [] => []
  | x :: l' => if at_ x <? cutoff then skip_before at_ cutoff l' else l
  end.

Definition retention : Z := 5 * Minute.

Definition pruneLocked (now : Z) (ls : LiveStats) : LiveStats :=
  let cutoff := now - retention in
  mkLiveStats (totalMessages ls) (totalBytes ls) (disconnects ls) (dropped ls)
    (prevMessages ls) (prevBytes ls) (prevAt ls) (msgRate ls) (byteRate ls)
    (skip_before sampleAt cutoff (samples ls)) (skip_before eventAt cutoff (events ls)).

(** time.Now() is read twice. *)
Definition recordEvent (k : string) (now1 now2 : Z) (ls : LiveStats) : LiveStats :=
  pruneLocked now2 (mkLiveStats (totalMessages ls) (totalBytes ls) (disconnects ls) (dropped ls)
    (prevMessages ls) (prevBytes ls) (prevAt ls) (msgRate ls) (byteRate ls) (samples ls) (events ls ++ [mkLiveEvent now1 k])).

(** [sample] from the lock on, with what was read before it. *)
Definition sample_locked (now msgs bytes : Z) (ls : LiveStats) : LiveStats :=
  let elapsed := Seconds (now - prevAt ls) in
  let positive := fltb (of_int 0) elapsed in
  pruneLocked now (mkLiveStats (totalMessages ls) (totalBytes ls) (disconnects ls) (dropped ls) msgs bytes now
    (if positive then fdiv (of_int (wrap_uint64 (msgs - prevMessages ls))) elapsed else msgRate ls)
    (if positive then fdiv (of_int (wrap_uint64 (bytes - prevBytes ls))) elapsed else byteRate ls)
    (samples ls ++ [mkRateSample now msgs bytes]) (events ls)).

(** The last sample that is not after [cutoff], or the first one. *)
Fixpoint base_sample (cutoff : Z) (base : rateSample) (l : list rateSample) : rateSample :=
  match l with
  | [] => base
  | x :: l' => if cutoff <? sampleAt x then base else base_sample cutoff x l'
  end.

Definition rateSince (l : list rateSample) (messages now window : Z) : float64 :=
  match l with
  | [] => of_int 0
  | first :: _ =>
      let base := base_sample (now - window) first l in
      let elapsed := Seconds (now - sampleAt base) in
      if fleb elapsed (of_int 0) || (messages <? sampleMessages base) then of_int 0
      else fdiv (of_int (messages - sampleMessages base)) elapsed
  end.

Record LiveStatsSnapshot := mkSnapshot {
  snapTotalMessages : Z;
  snapTotalBytes : Z;
  MessagesPerSecond : float64;
  MessagesPerSecondAverage1m : float64;
  MessagesPerSecondAverage5m : float64;
  BytesPerSecond : float64;
  DisconnectsTotal : Z;
  DisconnectsLast5m : Z;
  DroppedMessagesTotal : Z;
  DroppedMessagesLast5m : Z;
}.

(** The counting loop. *)
Definition count_events (l : list liveEvent) : Z * Z :=
  fold_left (λ '(disconnects, drops) e,
    if String.eqb (kind e) "disconnect" then (disconnects + 1, drops)
    else if String.eqb (kind e) "drop" then (disconnects, drops + 1)
    else (disconnects, drops)) l (0, 0).

Definition Snapshot (now : Z) (ls : LiveStats) : LiveStatsSnapshot * LiveStats :=
  let ls := pruneLocked now ls in
  let '(disconnectsLast5m, droppedLast5m) := count_events (events ls) in
  let messages := totalMessages ls in
  (mkSnapshot messages (totalBytes ls) (msgRate ls) (rateSince (samples ls) messages now Minute)
     (rateSince (samples ls) messages now (5 * Minute)) (byteRate ls) (disconnects ls) disconnectsLast5m (dropped ls) droppedLast5m, ls).

(** ** Histories *)

(** The tracker, the clock, what the sampler has read and not yet stored, and
    everything that was ever recorded. *)
Record history := mkHistory {
  stats : LiveStats;
  clock : Z;
  reading : option (Z * Z * Z);
  recorded : list liveEvent;
  sampled : list rateSample;
}.

Inductive step : history → history → Prop :=
  | step_clock h t : clock h <= t → step h (mkHistory (stats h) t (reading h) (recorded h) (sampled h))
  | step_publish h n : 0 <= n → step h (mkHistory (RecordPublish n (stats h)) (clock h) (reading h) (recorded h) (sampled h))
  | step_count_disconnect h : step h (mkHistory (count_disconnect (stats h)) (clock h) (reading h) (recorded h) (sampled h))
  | step_count_drop h : step h (mkHistory (count_drop (stats h)) (clock h) (reading h) (recorded h) (sampled h))
  | step_event h k t2 : clock h <= t2 →
      step h (mkHistory (recordEvent k (clock h) t2 (stats h)) t2 (reading h) (recorded h ++ [mkLiveEvent (clock h) k]) (sampled h))
  | step_read h : reading h = None →
      step h (mkHistory (stats h) (clock h) (Some (clock h, totalMessages (stats h), totalBytes (stats h))) (recorded h) (sampled h))
  | step_sample h now m b : reading h = Some (now, m, b) →
      step h (mkHistory (sample_locked now m b (stats h)) (clock h) None (recorded h) (sampled h ++ [mkRateSample now m b]))
  | step_snapshot h : step h (mkHistory (Snapshot (clock h) (stats h)).2 (clock h) (reading h) (recorded h) (sampled h)).

Inductive reaches : history → Prop :=
  | reaches_new now : reaches (mkHistory (NewLiveStats now) now None [] [])
  | reaches_step h h' : reaches h → step h h' → reaches h'.

(** ** Lemmas *)

Definition by_time {A} (at_ : A → Z) : A → A → Prop := λ x y, at_ x <= at_ y.

(** What is left of [all] after everything older than [cutoff], or less, was dropped. *)
Definition kept {A} (at_ : A → Z) (cutoff : Z) (all l : list A) : Prop :=
  ∃ old, all = old ++ l ∧ Forall (λ x, at_ x < cutoff) old.

Definition since {A} (at_ : A → Z) (cutoff : Z) (l : list A) : list A := List.filter (λ x, cutoff <=? at_ x) l.

Lemma kept_skip {A} (at_ : A → Z) cutoff cutoff' c all l : cutoff <= c → cutoff' <= c →
  kept at_ cutoff all l → kept at_ c all (skip_before at_ cutoff' l).
Proof.
  intros Hc Hc' (old & -> & Hold). assert (kept at_ cutoff' l (skip_before at_ cutoff' l)) as (more & E & Hm).
  { clear. induction l as [|x l (old & E & Ho)]; cbn; [by exists []|]. destruct (Z.ltb_spec (at_ x) cutoff'); [|by exists []].
    exists (x :: old). cbn. split; [by f_equal|by constructor]. }
  exists (old ++ more). split; [by rewrite E at 1; rewrite app_assoc|]. apply Forall_app.
  split; (eapply Forall_impl; [eassumption|]); cbn; lia.
Qed.

Lemma kept_mono {A} (at_ : A → Z) cutoff cutoff' all l : cutoff <= cutoff' → kept at_ cutoff all l → kept at_ cutoff' all l.
Proof. intros Hc (old & -> & Ho). exists old. split; [done|]. eapply Forall_impl; [exact Ho|]. cbn. lia. Qed.

Lemma kept_snoc {A} (at_ : A → Z) cutoff all l x : kept at_ cutoff all l → kept at_ cutoff (all ++ [x]) (l ++ [x]).
Proof. intros (old & -> & Ho). exists old. by rewrite app_assoc. Qed.

(** On what is in order of time, dropping old entries from the front keeps the recent ones. *)
Lemma kept_since {A} (at_ : A → Z) cutoff all l : StronglySorted (by_time at_) all → kept at_ cutoff all l →
  skip_before at_ cutoff l = since at_ cutoff all.
Proof.
  intros Hs (old & -> & Ho). unfold since. rewrite List.filter_app. assert (List.filter (λ x, cutoff <=? at_ x) old = []) as ->.
  { clear -Ho. induction Ho as [|x old Hx Ho IH]; cbn; [done|]. destruct (Z.leb_spec cutoff (at_ x)); [lia|done]. }
  apply StronglySorted_app_1_r in Hs. cbn. induction Hs as [|x l Hs IH Hx]; cbn; [done|].
  destruct (Z.ltb_spec (at_ x) cutoff), (Z.leb_spec cutoff (at_ x)); try lia; [done|]. f_equal. clear IH Hs. induction Hx as [|y l Hy Hx IH]; cbn; [done|].
  unfold by_time in Hy. destruct (Z.leb_spec cutoff (at_ y)); [by f_equal|lia].
Qed.

Lemma sorted_snoc {A} (at_ : A → Z) l x : StronglySorted (by_time at_) l → Forall (λ y, at_ y <= at_ x) l → StronglySorted (by_time at_) (l ++ [x]).
Proof.
  induction 1 as [|y l Hs IH Hy]; cbn; intros Hx; [by repeat constructor|]. apply Forall_cons in Hx as [Hyx Hx].
  constructor; [by apply IH|]. apply Forall_app. split; [done|]. by repeat constructor.
Qed.

Lemma count_events_spec l : count_events l =
  (Z.of_nat (length (List.filter (λ e, String.eqb (kind e) "disconnect") l)), Z.of_nat (length (List.filter (λ e, String.eqb (kind e) "drop") l))).
Proof.
  unfold count_events. assert (∀ a b, fold_left (λ '(disconnects, drops) e,
    if String.eqb (kind e) "disconnect" then (disconnects + 1, drops) else if String.eqb (kind e) "drop" then (disconnects, drops + 1) else (disconnects, drops)) l (a, b) =
    (a + Z.of_nat (length (List.filter (λ e, String.eqb (kind e) "disconnect") l)), b + Z.of_nat (length (List.filter (λ e, String.eqb (kind e) "drop") l)))) as H.
  { induction l as [|e l IH]; intros a b; cbn; [f_equal; lia|]. destruct (String.eqb_spec (kind e) "disconnect") as [->|_]; cbn.
    - rewrite IH. f_equal; lia.
    - destruct (String.eqb (kind e) "drop"); cbn; rewrite IH; f_equal; lia. }
  by rewrite H.
Qed.

Record inv (h : history) : Prop := {
  inv_events : kept eventAt (clock h - retention) (recorded h) (events (stats h));
  inv_samples : kept sampleAt (clock h - retention) (sampled h) (samples (stats h));
  inv_recorded : StronglySorted (by_time eventAt) (recorded h) ∧ Forall (λ e, eventAt e <= clock h) (recorded h);
  inv_sampled : StronglySorted (by_time sampleAt) (sampled h) ∧
    Forall (λ s, sampleAt s <= match reading h with Some (now, _, _) => now | None => clock h end) (sampled h);
  inv_reading : match reading h with Some (now, _, _) => now <= clock h | None => True end;
}.

Lemma inv_step h h' : inv h → step h h' → inv h'.
Proof.
  intros [He Hs [Hr Hrc] [Hm Hmc] Hd] Hst. destruct Hst as [h t Ht|h n Hn|h|h|h k t2 Ht|h Ed|h now m b Ed|h];
    cbn [stats clock reading recorded sampled] in *.
  - split; cbn; [eapply kept_mono; [|exact He]; lia|eapply kept_mono; [|exact Hs]; lia| | |].
    + split; [done|]. eapply Forall_impl; [exact Hrc|]. cbn. lia.
    + split; [done|]. destruct (reading h) as [[[now ?] ?]|]; [done|]. eapply Forall_impl; [exact Hmc|]. cbn. lia.
    + destruct (reading h) as [[[now ?] ?]|]; [lia|done].
  - by split.
  - by split.
  - by split.
  - split; cbn.
    + apply (kept_skip _ (clock h - retention)); [lia|lia|]. by apply kept_snoc.
    + apply (kept_skip _ (clock h - retention)); [lia|lia|done].
    + split; [by apply sorted_snoc|]. apply Forall_app. split; [eapply Forall_impl; [exact Hrc|]; cbn; lia|by repeat constructor].
    + split; [done|]. destruct (reading h) as [[[now ?] ?]|]; [done|]. eapply Forall_impl; [exact Hmc|]. cbn. lia.
    + destruct (reading h) as [[[now ?] ?]|]; [lia|done].
  - rewrite Ed in *. split; cbn; [done|done|done|done|lia].
  - rewrite Ed in *. split; cbn.
    + apply (kept_skip _ (clock h - retention)); [lia|lia|done].
    + apply (kept_skip _ (clock h - retention)); [lia|lia|]. by apply kept_snoc.
    + done.
    + split; [by apply sorted_snoc|]. apply Forall_app. split; [eapply Forall_impl; [exact Hmc|]; cbn; lia|by repeat constructor].
    + done.
  - unfold Snapshot. cbv zeta. destruct (count_events _) as [x y]. split; cbn.
    + apply (kept_skip _ (clock h - retention)); [lia|lia|done].
    + apply (kept_skip _ (clock h - retention)); [lia|lia|done].
    + done.
    + done.
    + done.
Qed.

Lemma reaches_inv h : reaches h → inv h.
Proof.
  induction 1 as [now|h h' _ IH Hst]; [|by eapply inv_step]. split; cbn; [by exists []|by exists []|split; constructor|split; constructor|done].
Qed.

(** ** Properties *)

(** In every history of publishes, disconnects, drops, samples and
    snapshots, a snapshot reports as disconnects and drops of the last five minutes
    exactly the events recorded since then, and its averages are taken over exactly
    the samples of that time: pruning never loses a recent entry and never counts
    an old one, even when the sampler prunes with an older reading of the clock. *)
Theorem recent_activity_is_exact h : reaches h →
  let s := (Snapshot (clock h) (stats h)).1 in
  let recent := since eventAt (clock h - retention) (recorded h) in
  let window := since sampleAt (clock h - retention) (sampled h) in
  DisconnectsLast5m s = Z.of_nat (length (List.filter (λ e, String.eqb (kind e) "disconnect") recent)) ∧
  DroppedMessagesLast5m s = Z.of_nat (length (List.filter (λ e, String.eqb (kind e) "drop") recent)) ∧
  MessagesPerSecondAverage1m s = rateSince window (totalMessages (stats h)) (clock h) Minute ∧
  MessagesPerSecondAverage5m s = rateSince window (totalMessages (stats h)) (clock h) (5 * Minute).
Proof.
  intros [He Hs [Hr _] [Hm _] _]%reaches_inv. cbv zeta. unfold Snapshot. cbv zeta. rewrite count_events_spec. cbn.
  by rewrite (kept_since _ _ _ _ Hr He), (kept_since _ _ _ _ Hm Hs).
Qed.

(** A disconnect now, a drop six minutes later. *)
Definition sample_history : history :=
  mkHistory (recordEvent "drop" (6 * Minute) (6 * Minute) (recordEvent "disconnect" 0 0 (NewLiveStats 0))) (6 * Minute) None
    [mkLiveEvent 0 "disconnect"; mkLiveEvent (6 * Minute) "drop"] [].

Lemma recent_activity_is_exact_witness :
  let s := (Snapshot (clock sample_history) (stats sample_history)).1 in
  let recent := since eventAt (clock sample_history - retention) (recorded sample_history) in
  let window := since sampleAt (clock sample_history - retention) (sampled sample_history) in
  DisconnectsLast5m s = Z.of_nat (length (List.filter (λ e, String.eqb (kind e) "disconnect") recent)) ∧
  DroppedMessagesLast5m s = Z.of_nat (length (List.filter (λ e, String.eqb (kind e) "drop") recent)) ∧
  MessagesPerSecondAverage1m s = rateSince window (totalMessages (stats sample_history)) (clock sample_history) Minute ∧
  MessagesPerSecondAverage5m s = rateSince window (totalMessages (stats sample_history)) (clock sample_history) (5 * Minute).
Proof.
  apply (recent_activity_is_exact sample_history).
  pose proof (reaches_new 0) as H. eapply reaches_step in H; [|apply (step_event _ "disconnect" 0); cbn; lia]. cbn in H.
  eapply reaches_step in H; [|apply (step_clock _ (6 * Minute)); cbn; unfold Minute, Second; lia]. cbn [stats clock reading recorded sampled] in H.
  eapply reaches_step in H; [|apply (step_event _ "drop" (6 * Minute)); cbn; lia]. exact H.
Defined.
