(* ===== verification/Resume.v ===== *)
(** Resuming a persistent session, on the node that has it or on another one:
    the hook's OnSessionEstablish (internal/broker/hooks.go) and what the server
    does with the session afterwards (server.go inheritClientSession, clients.go
    ResendInflightMessages, inflight.go).

    The node's clients and the persisted inflight messages of the reconnecting
    client are state; the persisted messages are kept under the fields of the
    current layout. What the session store answers to the hook is an argument
    ([None] is an error), and so is how far the new connection takes what is
    written to it. The inflight quotas and the index of topics are left out: the
    resumed session keeps its entries there under the same client ID. *)
From stdpp Require Import gmap list strings sorting.
From S2P Require Import Prelude GoStrings GoSort Topics Codec Properties Packets Decimal Storage Redis RedisSession.

(** ** Inflight messages *)

(** [internal] and [receive] *)
Record inflights := mkInflights { outbound : gmap N Packet; inbound : gmap N Packet }.

Definition NewInflights : inflights := mkInflights ∅ ∅.

Definition isInboundPacket (pk : Packet) : bool := pk_in [Puback; Pubrec; Pubcomp] pk.

Definition Inflight_Set (m : Packet) (i : inflights) : inflights :=
  if isInboundPacket m then mkInflights (outbound i) (<[pkPacketID m := m]> (inbound i))
  else mkInflights (<[pkPacketID m := m]> (outbound i)) (inbound i).

(** Also whether the message existed. *)
Definition DeletePacket (m : Packet) (i : inflights) : bool * inflights :=
  if isInboundPacket m then
    (bool_decide (is_Some (inbound i !! pkPacketID m)), mkInflights (outbound i) (delete (pkPacketID m) (inbound i)))
  else (bool_decide (is_Some (outbound i !! pkPacketID m)), mkInflights (delete (pkPacketID m) (outbound i)) (inbound i)).

Definition Inflight_Len (i : inflights) : nat := size (outbound i) + size (inbound i).

Definition created_before (p q : Packet) : bool :=
  if (pkCreated p =? pkCreated q)%Z then (pkPacketID p <? pkPacketID q)%N else (pkCreated p <? pkCreated q)%Z.

(** Messages of the two directions with the same time and number come in either order. *)
Definition GetAll (i : inflights) : list Packet :=
  SliceStable created_before ((map_to_list (outbound i)).*2 ++ (map_to_list (inbound i)).*2).

(** ** Clients *)

Record client := mkClient {
  clConnected : bool;
  clClean : bool;
  clVersion : N;
  clSubscriptions : gmap string Subscription;
  clInflight : inflights;
}.

Definition set_inflight (i : inflights) (cl : client) : client :=
  mkClient (clConnected cl) (clClean cl) (clVersion cl) (clSubscriptions cl) i.

(** The client of a new connection, before it has a session. *)
Definition new_client (clean : bool) (version : N) : client := mkClient true clean version ∅ NewInflights.

Definition packet_subscription (s : storageSubscription) : Subscription :=
  mkSubscription (stFilter s) (stIdentifier s) None (stRetainHandling s) (stQos s) (stRetainAsPublished s) (stNoLocal s).

Definition stored_subscriptions (subs : list storageSubscription) : gmap string Subscription :=
  fold_left (λ acc s, <[stFilter s := packet_subscription s]> acc) subs ∅.

(** The messages of the store set over those there already. *)
Definition stored_inflight (ms : list storageMessage) (i : inflights) : inflights :=
  fold_left (λ i m, Inflight_Set (ToPacket m) i) ms i.

(** ** The hook *)

Record establish := mkEstablish {
  esClients : gmap string client;
  (** the filters for which the node is registered again *)
  esRegistered : list string;
}.

(** [stored] is absent without a session store; it holds the answers about
    subscriptions and inflight messages. *)
Definition OnSessionEstablish (stored : option (option (list storageSubscription) * option (list storageMessage)))
    (clientID : string) (clean : bool) (version : N) (clients : gmap string client) : establish :=
  match stored with
  | None => mkEstablish clients []
  | Some (subs, inflight) =>
      if clean then mkEstablish clients []
      else match clients !! clientID with
      | Some existing =>
          let existing' :=
            if clConnected existing then existing
            else match inflight with
                 | None => existing
                 | Some ms => set_inflight (stored_inflight ms (clInflight existing)) existing
                 end in
          mkEstablish (<[clientID := existing']> clients) ((map_to_list (clSubscriptions existing')).*1)
      | None =>
          match subs, inflight with
          | Some subs, Some inflight =>
              match subs, inflight with
              | [], [] => mkEstablish clients []
              | _, _ =>
                  let ghost := mkClient false false version
                    (stored_subscriptions subs) (stored_inflight inflight NewInflights) in
                  mkEstablish (<[clientID := ghost]> clients) (stFilter <$> subs)
              end
          | _, _ => mkEstablish clients []
          end
      end
  end.

(** ** The server *)

(** The persisted inflight messages of the client, by field. *)
Abbreviation messages := (gmap string storageMessage).

(** The callbacks of the session store that succeed; a deletion takes the field of the old layout as well. *)
Definition inbound_puback (pk : Packet) : bool := pkInboundFlow pk && (pkType pk =? Puback)%N.
Definition OnQosDropped (tk : Packet) (db : messages) : messages := delete (inflightDroppedFieldKey tk) (delete (FormatID tk) db).
Definition OnQosComplete (tk : Packet) (db : messages) : messages :=
  if inbound_puback tk then db else delete (inflightCompletionFieldKey tk) (delete (FormatID tk) db).
Definition OnQosPublish (clientID : string) (tk : Packet) (db : messages) : messages :=
  if inbound_puback tk then db
  else <[inflightFieldKey tk := inflight_message clientID (inflightFieldKey tk) tk (pkCreated tk)]> db.

Fixpoint clear_loop (l : list Packet) (i : inflights) (db : messages) : inflights * messages :=
  match l with
  | [] => (i, db)
  | tk :: l =>
      let '(existed, i) := DeletePacket tk i in
      clear_loop l i (if existed : bool then OnQosDropped tk db else db)
  end.

Definition ClearInflights (i : inflights) (db : messages) : inflights * messages := clear_loop (GetAll i) i db.

(** Whether a session is there, the new client with what it takes over, the
    clients with the old one emptied, and the store. *)
Definition inheritClientSession (clientID : string) (clean : bool) (cl : client) (clients : gmap string client) (db : messages) :
    bool * client * gmap string client * messages :=
  match clients !! clientID with
  | None => (false, cl, clients, db)
  | Some existing =>
      let '(cleared, db) := ClearInflights (clInflight existing) db in
      let clients := <[clientID := mkClient false (clClean existing) (clVersion existing) ∅ cleared]> clients in
      if clean || (clClean existing && (clVersion existing <? 5)%N) then (false, cl, clients, db)
      else
        let inflight := if (0 <? Inflight_Len (clInflight existing))%nat then clInflight existing else clInflight cl in
        (true, mkClient (clConnected cl) (clClean cl) (clVersion cl) (clSubscriptions existing ∪ clSubscriptions cl) inflight, clients, db)
  end.

Definition mark_dup (tk : Packet) : Packet :=
  if (pkType tk =? Publish)%N then tk <| pkFixedHeader := (pkFixedHeader tk) <| fhDup := true |> |> else tk.

(** The loop of ResendInflightMessages; the connection takes [writes] packets
    before it fails. *)
Fixpoint resend_loop (clientID : string) (writes : nat) (l : list Packet) (i : inflights) (db : messages) {struct l} :
    inflights * messages * list Packet :=
  match l with
  | [] => (i, db, [])
  | tk :: l =>
      let tk := mark_dup tk in
      let db := OnQosPublish clientID tk db in
      match writes with
      | O => (i, db, [])
      | S writes =>
          let '(i, db) :=
            if pk_in [Puback; Pubcomp] tk then
              let '(existed, i) := DeletePacket tk i in (i, if existed : bool then OnQosComplete tk db else db)
            else (i, db) in
          let '(i, db, sent) := resend_loop clientID writes l i db in
          (i, db, tk :: sent)
      end
  end.

Definition ResendInflightMessages (clientID : string) (writes : nat) (cl : client) (db : messages) :
    client * messages * list Packet :=
  if (Inflight_Len (clInflight cl) =? 0)%nat then (cl, db, [])
  else let '(i, db, sent) := resend_loop clientID writes (GetAll (clInflight cl)) (clInflight cl) db in (set_inflight i cl, db, sent).

(** attachClient from OnSessionEstablish to the end of the resending, when the
    CONNACK is taken as well ([connack]) and when it is not. *)
Record attached := mkAttached {
  atPresent : bool;
  atClients : gmap string client;
  atStore : messages;
  atRegistered : list string;
  atSent : list Packet;
}.

Definition attach (stored : option (option (list storageSubscription) * option (list storageMessage)))
    (clientID : string) (clean : bool) (version : N) (connack : bool) (writes : nat) (clients : gmap string client) (db : messages) :
    attached :=
  let es := OnSessionEstablish stored clientID clean version clients in
  let '(present, cl, clients, db) := inheritClientSession clientID clean (new_client clean version) (esClients es) db in
  let '(cl, db, sent) := if connack && present then ResendInflightMessages clientID writes cl db else (cl, db, []) in
  mkAttached present (<[clientID := cl]> clients) db (esRegistered es) sent.

(** ** Lemmas *)

#[local] Opaque ToPacket inflight_message.

(** Every message is kept under its own number, in the map of its direction. *)
Record wf_inflights (i : inflights) : Prop := {
  wi_out n p : outbound i !! n = Some p → pkPacketID p = n ∧ isInboundPacket p = false;
  wi_in n p : inbound i !! n = Some p → pkPacketID p = n ∧ isInboundPacket p = true;
}.

Lemma wf_Inflight_Set m i : wf_inflights i → wf_inflights (Inflight_Set m i).
Proof.
  intros [Ho Hi]. unfold Inflight_Set. destruct (isInboundPacket m) eqn:E; split; cbn; intros n p; auto;
    (destruct (decide (n = pkPacketID m)) as [->|?]; [rewrite lookup_insert_eq; intros [= <-]; by split|rewrite lookup_insert_ne by done; auto]).
Qed.

Lemma fold_left_inv {A B} (P : A → Prop) (f : A → B → A) l a : (∀ a b, P a → P (f a b)) → P a → P (fold_left f l a).
Proof. intros Hf. revert a. induction l as [|b l IH]; cbn; auto. Qed.

Lemma wf_stored_inflight ms i : wf_inflights i → wf_inflights (stored_inflight ms i).
Proof. intros H. apply (fold_left_inv wf_inflights); [|done]. intros j m. apply wf_Inflight_Set. Qed.

Lemma wf_NewInflights : wf_inflights NewInflights.
Proof. split; intros n p; cbn; by rewrite lookup_empty. Qed.

Lemma elem_of_GetAll i p : wf_inflights i →
  p ∈ GetAll i ↔ (if isInboundPacket p then inbound i else outbound i) !! pkPacketID p = Some p.
Proof.
  intros [Ho Hi]. unfold GetAll. rewrite SliceStable_perm, elem_of_app, !list_elem_of_fmap. split.
  - intros [((n & q) & -> & Hq)|((n & q) & -> & Hq)]; apply elem_of_map_to_list in Hq; cbn [snd].
    + destruct (Ho _ _ Hq) as [-> ->]. done.
    + destruct (Hi _ _ Hq) as [-> ->]. done.
  - destruct (isInboundPacket p); intros H; [right|left]; exists (pkPacketID p, p); by rewrite elem_of_map_to_list.
Qed.

Lemma inflightFieldKey_inj p q : inflightFieldKey p = inflightFieldKey q →
  isInboundPacket p = isInboundPacket q ∧ pkPacketID p = pkPacketID q.
Proof.
  unfold inflightFieldKey, isInboundPacket, FormatID.
  destruct (pk_in _ p), (pk_in _ q); cbn; intros [= E]; (split; [done|]); by apply FormatUint_inj.
Qed.

Lemma NoDup_GetAll_keys i : wf_inflights i → NoDup (inflightFieldKey <$> GetAll i).
Proof.
  intros Hwf. unfold GetAll. rewrite SliceStable_perm, fmap_app. destruct Hwf as [Ho Hi].
  assert (∀ m : gmap N Packet, (∀ n p, m !! n = Some p → pkPacketID p = n) → NoDup (inflightFieldKey <$> (map_to_list m).*2)) as Hnd.
  { intros m Hm. rewrite <-list_fmap_compose. apply NoDup_fmap_2_strong; [|apply NoDup_map_to_list].
    intros (n & p) (k & q) H1%elem_of_map_to_list H2%elem_of_map_to_list [_ E]%inflightFieldKey_inj. cbn [snd] in E.
    rewrite (Hm _ _ H1), (Hm _ _ H2) in E. congruence. }
  apply NoDup_app. split_and!; [apply Hnd; naive_solver| |apply Hnd; naive_solver].
  intros k (p & -> & Hp)%list_elem_of_fmap (q & E & Hq)%list_elem_of_fmap.
  apply list_elem_of_fmap in Hp as ((n & p') & -> & Hp%elem_of_map_to_list). apply list_elem_of_fmap in Hq as ((k & q') & -> & Hq%elem_of_map_to_list).
  apply inflightFieldKey_inj in E as [E _]. cbn [snd] in E. rewrite (proj2 (Ho _ _ Hp)), (proj2 (Hi _ _ Hq)) in E. done.
Qed.

(** The place of a message among the inflight messages. *)
Definition slot (i : inflights) (b : bool) (n : N) : option Packet := (if b then inbound i else outbound i) !! n.

Lemma slot_set p i b n :
  slot (Inflight_Set p i) b n = if bool_decide (isInboundPacket p = b ∧ pkPacketID p = n) then Some p else slot i b n.
Proof.
  unfold Inflight_Set, slot. case_bool_decide as E.
  - destruct E as [<- <-]. by destruct (isInboundPacket p); cbn; rewrite lookup_insert_eq.
  - destruct (isInboundPacket p), b; cbn; try done; rewrite lookup_insert_ne; naive_solver.
Qed.

Lemma slot_ext i1 i2 : (∀ b n, slot i1 b n = slot i2 b n) → i1 = i2.
Proof.
  intros H. destruct i1 as [o1 n1], i2 as [o2 n2]. f_equal; apply map_eq; intros n; [apply (H false n)|apply (H true n)].
Qed.

Lemma fold_left_cons {A B} (f : A → B → A) b l a : fold_left f (b :: l) a = fold_left f l (f a b).
Proof. done. Qed.

Lemma stored_inflight_cons m ms i : stored_inflight (m :: ms) i = stored_inflight ms (Inflight_Set (ToPacket m) i).
Proof. unfold stored_inflight. rewrite fold_left_cons. reflexivity. Qed.

(** Reading over two states gives the same where every difference is overwritten. *)
Lemma stored_inflight_agree ms i1 i2 :
  (∀ b n, slot i1 b n = slot i2 b n ∨ ∃ m, m ∈ ms ∧ isInboundPacket (ToPacket m) = b ∧ pkPacketID (ToPacket m) = n) →
  stored_inflight ms i1 = stored_inflight ms i2.
Proof.
  revert i1 i2. induction ms as [|m ms IH]; intros i1 i2 H.
  - apply slot_ext. intros b n. destruct (H b n) as [E|(m & Hm & _)]; [done|]. by apply not_elem_of_nil in Hm.
  - rewrite !stored_inflight_cons. apply IH. intros b n. rewrite !slot_set. case_bool_decide as E; [by left|].
    destruct (H b n) as [E'|(m' & Hm & E1 & E2)]; [by left|]. apply elem_of_cons in Hm as [->|Hm]; [by destruct E|]. right. eauto.
Qed.

Lemma slot_stored ms i b n p : slot (stored_inflight ms i) b n = Some p → slot i b n = Some p ∨ p ∈ (ToPacket <$> ms).
Proof.
  revert i. induction ms as [|m ms IH]; intros i; [by left|]. rewrite stored_inflight_cons. intros [H|H]%IH.
  - rewrite slot_set in H. case_bool_decide; [|by left]. injection H as <-. right. by left.
  - right. by right.
Qed.

Lemma slot_stored_some ms i b n : is_Some (slot i b n) → is_Some (slot (stored_inflight ms i) b n).
Proof.
  revert i. induction ms as [|m ms IH]; intros i H; [done|]. rewrite stored_inflight_cons. apply IH. rewrite slot_set. by case_bool_decide.
Qed.

Lemma slot_stored_message ms i m : m ∈ ms →
  is_Some (slot (stored_inflight ms i) (isInboundPacket (ToPacket m)) (pkPacketID (ToPacket m))).
Proof.
  revert i. induction ms as [|m' ms IH]; intros i; [by intros ?%not_elem_of_nil|]. intros [->|H]%elem_of_cons; rewrite stored_inflight_cons.
  - apply slot_stored_some. rewrite slot_set, bool_decide_eq_true_2 by done. done.
  - by apply IH.
Qed.

Lemma slot_key i p : wf_inflights i → p ∈ GetAll i ↔ slot i (isInboundPacket p) (pkPacketID p) = Some p.
Proof. apply elem_of_GetAll. Qed.

Lemma wf_slot i b n p : wf_inflights i → slot i b n = Some p → isInboundPacket p = b ∧ pkPacketID p = n.
Proof. intros [Ho Hi]. unfold slot. destruct b; intros H; [destruct (Hi _ _ H)|destruct (Ho _ _ H)]; done. Qed.

Lemma Inflight_Len_zero i : Inflight_Len i = 0%nat → i = NewInflights.
Proof.
  destruct i as [o n]. unfold Inflight_Len. cbn. intros H. assert (size o = 0 ∧ size n = 0)%nat as [H1%map_size_empty_inv H2%map_size_empty_inv] by lia. by subst.
Qed.

(** Messages of which the two ends still have to hear: a publication, or the
    acknowledgement that the client answers with PUBREL. *)
Definition resendable (p : Packet) : Prop := pkType p = Publish ∨ pkType p = Pubrec.

Lemma resendable_facts p : resendable p →
  inflightDroppedFieldKey p = inflightFieldKey p ∧ pk_in [Puback; Pubcomp] p = false ∧ inbound_puback p = false.
Proof.
  unfold resendable, inflightDroppedFieldKey, inflightFieldKey, isInboundInflightPacket, pk_in, inbound_puback.
  intros [-> | ->]; by rewrite andb_false_r.
Qed.

Lemma mark_dup_keeps p : pkType (mark_dup p) = pkType p ∧ inflightFieldKey (mark_dup p) = inflightFieldKey p.
Proof.
  unfold mark_dup. destruct (pkType p =? Publish)%N; [|done]. by destruct p as [? ? ? ? ? ? ? [] ].
Qed.

Lemma resendable_dup p : resendable p → resendable (mark_dup p).
Proof. unfold resendable. by rewrite (proj1 (mark_dup_keeps p)). Qed.

Lemma clear_loop_store l i db : NoDup (inflightFieldKey <$> l) → (∀ p, p ∈ l → is_Some (slot i (isInboundPacket p) (pkPacketID p))) →
  (clear_loop l i db).2 = fold_left (λ db tk, OnQosDropped tk db) l db.
Proof.
  revert i db. induction l as [|p l IH]; intros i db Hnd Hs; [done|]. rewrite fmap_cons, NoDup_cons in Hnd. destruct Hnd as [Hp Hnd].
  cbn [clear_loop]. rewrite fold_left_cons. specialize (Hs p ltac:(by left)) as Hps.
  assert (∀ q, q ∈ l → isInboundPacket q = isInboundPacket p → pkPacketID q ≠ pkPacketID p) as Hne.
  { intros q Hq E1 E2. apply Hp, list_elem_of_fmap. exists q. split; [|done]. unfold inflightFieldKey, FormatID, isInboundPacket in *. by rewrite E1, E2. }
  unfold slot in Hps. unfold DeletePacket. destruct (isInboundPacket p) eqn:Ep; rewrite bool_decide_eq_true_2 by done;
    apply IH; auto; intros q Hq; specialize (Hs q ltac:(by right)); specialize (Hne q Hq); unfold slot in *;
    destruct (isInboundPacket q); cbn [inbound outbound]; try done; rewrite lookup_delete_ne by (by apply not_eq_sym, Hne); done.
Qed.

Lemma dropped_lookup l (db : messages) f m : fold_left (λ db tk, OnQosDropped tk db) l db !! f = Some m →
  db !! f = Some m ∧ ∀ p, p ∈ l → f ≠ inflightDroppedFieldKey p.
Proof.
  revert db. induction l as [|p l IH]; intros db; [split; [done|by intros ? ?%not_elem_of_nil]|]. rewrite fold_left_cons.
  intros [H Hl]%IH. unfold OnQosDropped in H. apply lookup_delete_Some in H as [H1 H]. apply lookup_delete_Some in H as [H2 H].
  split; [done|]. intros q [->|Hq]%elem_of_cons; [done|by apply Hl].
Qed.

(** The records of a list of packets. *)
Definition record_of (clientID : string) (p : Packet) : string * storageMessage :=
  (inflightFieldKey p, inflight_message clientID (inflightFieldKey p) p (pkCreated p)).
Definition persisted (clientID : string) (l : list Packet) : messages := list_to_map (record_of clientID <$> l).

Lemma persisted_keys clientID l : (record_of clientID <$> l).*1 = inflightFieldKey <$> l.
Proof. rewrite <-list_fmap_compose. done. Qed.

Lemma persisted_cons clientID p l : persisted clientID (p :: l) =
  <[inflightFieldKey p := inflight_message clientID (inflightFieldKey p) p (pkCreated p)]> (persisted clientID l).
Proof. done. Qed.

Lemma resend_loop_spec clientID writes l i db : NoDup (inflightFieldKey <$> l) → Forall resendable l →
  resend_loop clientID writes l i db =
    (i, persisted clientID (take (S writes) (mark_dup <$> l)) ∪ db, take writes (mark_dup <$> l)).
Proof.
  revert writes db. induction l as [|p l IH]; intros writes db Hnd Hl.
  { cbn [resend_loop fmap list_fmap]. rewrite !take_nil. change (persisted clientID []) with (∅ : messages). by rewrite map_empty_union. }
  rewrite fmap_cons, NoDup_cons in Hnd. destruct Hnd as [Hp Hnd]. apply Forall_cons in Hl as [Hr Hl].
  destruct (resendable_facts _ (resendable_dup _ Hr)) as (_ & F1 & F2). cbn [resend_loop]. unfold OnQosPublish. rewrite F2.
  destruct writes as [|w]; cbn [take fmap list_fmap].
  - rewrite persisted_cons, <-insert_union_l, take_0. change (persisted clientID []) with (∅ : messages). by rewrite map_empty_union.
  - rewrite F1. rewrite IH by done. f_equal. f_equal. rewrite persisted_cons.
    rewrite <-insert_union_l, insert_union_r; [done|]. apply not_elem_of_list_to_map_1. rewrite persisted_keys. intros Hin.
    apply Hp. rewrite <-(proj2 (mark_dup_keeps p)). 
    apply list_elem_of_fmap in Hin as (q & -> & Hq). assert (q ∈ (mark_dup <$> l)) as (q' & -> & Hq')%list_elem_of_fmap.
    { rewrite <-(take_drop (S w) (mark_dup <$> l)). apply elem_of_app. by left. }
    rewrite (proj2 (mark_dup_keeps q')). by apply list_elem_of_fmap_2.
Qed.

(** What a session with these subscriptions and messages becomes when it is taken over. *)
Definition resumed (clientID : string) (version : N) (connack : bool) (writes : nat) (subs : gmap string Subscription)
    (i : inflights) (db : messages) : client * messages * list Packet :=
  let cl := mkClient true false version subs i in
  let db := (ClearInflights i db).2 in
  if connack then ResendInflightMessages clientID writes cl db else (cl, db, []).

Lemma attach_resumes stored clientID version connack writes clients db existing :
  let es := OnSessionEstablish stored clientID false version clients in
  let a := attach stored clientID false version connack writes clients db in
  let r := resumed clientID version connack writes (clSubscriptions existing) (clInflight existing) db in
  esClients es !! clientID = Some existing → clClean existing && (clVersion existing <? 5)%N = false →
  atPresent a = true ∧ atClients a !! clientID = Some r.1.1 ∧ atStore a = r.1.2 ∧ atSent a = r.2 ∧ atRegistered a = esRegistered es.
Proof.
  intros es a r Hex Hcl. subst a r. unfold attach, inheritClientSession. fold es. rewrite Hex.
  unfold resumed. destruct (ClearInflights (clInflight existing) db) as [cleared db1]. rewrite Hcl. cbn [orb snd].
  unfold new_client. cbn [clConnected clClean clVersion clSubscriptions clInflight]. rewrite (map_union_empty (clSubscriptions existing)).
  replace (if (0 <? Inflight_Len (clInflight existing))%nat then clInflight existing else NewInflights) with (clInflight existing).
  2:{ destruct (Nat.ltb_spec 0 (Inflight_Len (clInflight existing))); [done|]. apply Inflight_Len_zero. lia. }
  rewrite andb_true_r. destruct connack; [destruct (ResendInflightMessages _ _ _ _) as [[cl1 db2] sent]|]; cbn [atPresent atClients atStore atSent atRegistered fst snd]; (split_and!; [done|by rewrite lookup_insert_eq|done..]).
Qed.

(** A node without the session is given it by the store. *)
Lemma establish_elsewhere clientID version subs ms clients : clients !! clientID = None → (subs ≠ [] ∨ ms ≠ []) →
  let es := OnSessionEstablish (Some (Some subs, Some ms)) clientID false version clients in
  esClients es !! clientID = Some (mkClient false false version (stored_subscriptions subs) (stored_inflight ms NewInflights)) ∧
  esRegistered es = stFilter <$> subs.
Proof.
  intros Hc Hne. unfold OnSessionEstablish. rewrite Hc.
  destruct subs as [|s subs], ms as [|m ms]; [naive_solver|..]; cbn [esClients esRegistered]; by rewrite lookup_insert_eq.
Qed.

(** The node of the session adds what was stored for it while it was away. *)
Lemma establish_here clientID version subs ms clients local : clients !! clientID = Some local → clConnected local = false →
  let es := OnSessionEstablish (Some (Some subs, Some ms)) clientID false version clients in
  esClients es !! clientID = Some (set_inflight (stored_inflight ms (clInflight local)) local) ∧
  esRegistered es = (map_to_list (clSubscriptions local)).*1.
Proof.
  intros Hc Hd. unfold OnSessionEstablish. rewrite Hc, Hd. cbn [esClients esRegistered]. by rewrite lookup_insert_eq.
Qed.

Lemma stored_subscriptions_keys subs f : f ∈ (map_to_list (stored_subscriptions subs)).*1 ↔ f ∈ (stFilter <$> subs).
Proof.
  assert (∀ acc : gmap string Subscription,
    f ∈ (map_to_list (fold_left (λ acc s, <[stFilter s := packet_subscription s]> acc) subs acc)).*1 ↔ is_Some (acc !! f) ∨ f ∈ (stFilter <$> subs)) as H.
  { induction subs as [|s subs IH]; intros acc.
    - cbn. rewrite list_elem_of_fmap. split.
      + intros ((k & v) & -> & Hv%elem_of_map_to_list). left. cbn. eauto.
      + intros [[v Hv]|H]; [|by apply not_elem_of_nil in H]. exists (f, v). by rewrite elem_of_map_to_list.
    - rewrite fold_left_cons, IH, fmap_cons, elem_of_cons. destruct (decide (f = stFilter s)) as [->|Hn].
      + rewrite lookup_insert_eq. split; [by right; left|]. left. by eexists.
      + rewrite lookup_insert_ne by done. naive_solver. }
  unfold stored_subscriptions. rewrite H, lookup_empty. split; [by intros [[? ?]|?]|by right].
Qed.

(** ** Claims *)

Lemma resumed_subscriptions clientID version connack writes subs i db :
  clSubscriptions (resumed clientID version connack writes subs i db).1.1 = subs.
Proof.
  unfold resumed, ResendInflightMessages. destruct connack; [|done]. destruct (_ =? 0)%nat; [done|].
  by destruct (resend_loop _ _ _ _ _) as [[? ?] ?].
Qed.

(** Where the store has nothing of the client, another node starts afresh. *)
Lemma attach_unknown clientID version connack writes clients db : clients !! clientID = None →
  attach (Some (Some [], Some [])) clientID false version connack writes clients db =
  mkAttached false (<[clientID := new_client false version]> clients) db [] [].
Proof. intros Hc. unfold attach, OnSessionEstablish, inheritClientSession. rewrite Hc. cbn. rewrite Hc. by rewrite andb_false_r. Qed.

(** C6: A persistent session resumes on any node as it would on the node that has it.
    Take a node on which the disconnected session is and a node that has never seen it,
    with a store that answers both. The first reports the session as present with the
    subscriptions it has. The second does so with the stored subscriptions, if the store
    has a subscription or a message of the client; if it has neither, the second node
    starts afresh and reports no session. If the first node has the stored subscriptions
    and no message that is not stored, and the store is not empty, the two reconnections
    are alike: the same client with the same inflight messages, the same packets sent in
    the same order up to the point where the connection fails, the same messages left in
    the store and the same filters registered. *)
Theorem session_resumes_anywhere clientID version subs ms connack writes db local here elsewhere :
  here !! clientID = Some local → clConnected local = false → clClean local && (clVersion local <? 5)%N = false →
  elsewhere !! clientID = None →
  let a := attach (Some (Some subs, Some ms)) clientID false version connack writes here db in
  let b := attach (Some (Some subs, Some ms)) clientID false version connack writes elsewhere db in
  (atPresent a = true ∧ (clSubscriptions <$> atClients a !! clientID) = Some (clSubscriptions local)) ∧
  (subs ≠ [] ∨ ms ≠ [] →
     atPresent b = true ∧ (clSubscriptions <$> atClients b !! clientID) = Some (stored_subscriptions subs)) ∧
  (subs = [] ∧ ms = [] →
     atPresent b = false ∧ atClients b !! clientID = Some (new_client false version) ∧ atSent b = [] ∧ atRegistered b = []) ∧
  (clSubscriptions local = stored_subscriptions subs → wf_inflights (clInflight local) →
   (∀ p, p ∈ GetAll (clInflight local) → ∃ m, m ∈ ms ∧ inflightFieldKey (ToPacket m) = inflightFieldKey p) →
   subs ≠ [] ∨ ms ≠ [] →
     atClients a !! clientID = atClients b !! clientID ∧ atSent a = atSent b ∧ atStore a = atStore b ∧
     (∀ f, f ∈ atRegistered a ↔ f ∈ atRegistered b)).
Proof.
  intros Hl Hd Hc He a b.
  destruct (establish_here clientID version subs ms _ _ Hl Hd) as [Ea Ra].
  destruct (attach_resumes _ clientID version connack writes here db _ Ea Hc) as (Pa & Ca & Sa & Ta & RRa).
  fold a in Pa, Ca, Sa, Ta, RRa. unfold set_inflight in Ca, Sa, Ta. cbn [clSubscriptions clInflight] in *.
  split; [|split; [|split]].
  - split; [done|]. rewrite Ca. cbn. by rewrite resumed_subscriptions.
  - intros Hne. destruct (establish_elsewhere clientID version subs ms _ He Hne) as [Eb Rb].
    destruct (attach_resumes _ clientID version connack writes elsewhere db _ Eb eq_refl) as (Pb & Cb & _).
    split; [done|]. subst b. rewrite Cb. cbn. by rewrite resumed_subscriptions.
  - intros [-> ->]. subst b. rewrite attach_unknown by done. cbn. by rewrite lookup_insert_eq.
  - intros Hs Hwf Hin Hne. destruct (establish_elsewhere clientID version subs ms _ He Hne) as [Eb Rb].
    destruct (attach_resumes _ clientID version connack writes elsewhere db _ Eb eq_refl) as (Pb & Cb & Sb & Tb & RRb).
    fold b in Pb, Cb, Sb, Tb, RRb. cbn [clSubscriptions clInflight] in *.
    rewrite (stored_inflight_agree ms (clInflight local) NewInflights), Hs in Ca, Sa, Ta.
    2-4: intros ft n; destruct (slot (clInflight local) ft n) as [p|] eqn:E; [right|left; by destruct ft].
    2-4: destruct (wf_slot _ _ _ _ Hwf E) as [E1 E2]; destruct (Hin p) as (m & Hm & Em); [by rewrite slot_key, E1, E2|].
    2-4: apply inflightFieldKey_inj in Em as [Em1 Em2]; exists m; by rewrite Em1, Em2.
    split_and!; [congruence..|]. intros f. rewrite RRa, RRb, Ra, Rb, Hs. apply stored_subscriptions_keys.
Qed.

(** The messages of a resumed session that the connection is given, and the store. *)
Lemma resumed_persists clientID version writes subs ms db :
  Forall resendable (ToPacket <$> ms) → (∀ f m, db !! f = Some m → m ∈ ms ∧ f = inflightFieldKey (ToPacket m)) →
  let i := stored_inflight ms NewInflights in
  resumed clientID version true writes subs i db =
    (mkClient true false version subs i, persisted clientID (take (S writes) (mark_dup <$> GetAll i)), take writes (mark_dup <$> GetAll i)).
Proof.
  intros Hr Hdb i. assert (wf_inflights i) as Hwf by apply wf_stored_inflight, wf_NewInflights.
  assert (Forall resendable (GetAll i)) as Hi.
  { apply Forall_forall. intros p Hp%(slot_key _ _ Hwf). apply slot_stored in Hp as [Hp|Hp].
    - by destruct (isInboundPacket p).
    - rewrite Forall_forall in Hr. by apply Hr. }
  assert ((ClearInflights i db).2 = ∅) as Hclear.
  { unfold ClearInflights. rewrite clear_loop_store.
    - apply map_eq. intros f. rewrite lookup_empty. destruct (_ !! f) as [m|] eqn:E; [|done].
      apply dropped_lookup in E as [E Hf]. apply Hdb in E as [Hm ->].
      destruct (slot_stored_message ms NewInflights m Hm) as [p Hp]. destruct (wf_slot _ _ _ _ Hwf Hp) as [E1 E2].
      assert (p ∈ GetAll i) as Hpi by (by rewrite slot_key, E1, E2). destruct (Hf p Hpi). rewrite Forall_forall in Hi.
      rewrite (proj1 (resendable_facts _ (Hi p Hpi))). unfold inflightFieldKey, isInboundPacket, FormatID in *. by rewrite E1, E2.
    - by apply NoDup_GetAll_keys.
    - intros p Hp%(slot_key _ _ Hwf). by rewrite Hp. }
  unfold resumed. rewrite Hclear. unfold ResendInflightMessages. cbn [clInflight]. destruct (Nat.eqb_spec (Inflight_Len i) 0) as [E|_].
  - rewrite (Inflight_Len_zero _ E). replace (GetAll NewInflights) with (@nil Packet) by reflexivity. cbn [fmap list_fmap]. by rewrite !take_nil.
  - rewrite resend_loop_spec by (by try apply NoDup_GetAll_keys). unfold set_inflight. cbn. by rewrite map_union_empty.
Qed.

Lemma created_before_keyed : keyed created_before.
Proof.
  split; unfold created_before.
  - intros x y z. destruct (Z.eqb_spec (pkCreated y) (pkCreated x)), (Z.eqb_spec (pkCreated z) (pkCreated y)), (Z.eqb_spec (pkCreated z) (pkCreated x));
      rewrite ?N.ltb_ge, ?Z.ltb_ge; lia.
  - intros x y. rewrite (Z.eqb_sym (pkCreated y)). destruct (Z.eqb_spec (pkCreated x) (pkCreated y)).
    + intros ?%N.ltb_lt. apply N.ltb_ge. lia.
    + intros ?%Z.ltb_lt. apply Z.ltb_ge. lia.
Qed.

(** The messages read from a store are those of the store. *)
Lemma stored_messages (db : messages) ms p :
  (∀ f m, db !! f = Some m ↔ m ∈ ms ∧ f = inflightFieldKey (ToPacket m)) →
  p ∈ GetAll (stored_inflight ms NewInflights) ↔ ∃ f m, db !! f = Some m ∧ p = ToPacket m.
Proof.
  intros Hdb. assert (wf_inflights (stored_inflight ms NewInflights)) as Hwf by apply wf_stored_inflight, wf_NewInflights.
  rewrite (slot_key _ _ Hwf). split.
  - intros [Hp|Hp]%slot_stored; [by destruct (isInboundPacket p)|]. apply list_elem_of_fmap in Hp as (m & -> & Hm).
    exists (inflightFieldKey (ToPacket m)), m. split; [|done]. by apply Hdb.
  - intros (f & m & Hf & ->). pose proof (proj1 (Hdb _ _) Hf) as [Hm ->].
    destruct (slot_stored_message ms NewInflights m Hm) as [q Hq]. rewrite Hq. f_equal.
    destruct (wf_slot _ _ _ _ Hwf Hq) as [E1 E2]. apply slot_stored in Hq as [Hq|Hq]; [by destruct (isInboundPacket (ToPacket m))|].
    apply list_elem_of_fmap in Hq as (m' & -> & Hm'). assert (inflightFieldKey (ToPacket m') = inflightFieldKey (ToPacket m)) as E.
    { unfold inflightFieldKey, isInboundPacket, FormatID in *. by rewrite E1, E2. }
    assert (db !! inflightFieldKey (ToPacket m) = Some m') as H' by (apply Hdb; by rewrite E). congruence.
Qed.

(** Resuming a session elsewhere delivers its stored messages once each, oldest
    first, and keeps in the store what it has handed over. A node that has never seen the
    session sends, as repeated deliveries, the messages of the store in the order of
    their creation, none twice. When the connection fails after some of them, those and
    the one being written are in the store with what was sent, and no other message is: the
    takeover has removed the rest. *)
Theorem resume_persists_what_it_sends clientID version subs ms writes db clients :
  clients !! clientID = None → ms ≠ [] → Forall resendable (ToPacket <$> ms) →
  (∀ f m, db !! f = Some m ↔ m ∈ ms ∧ f = inflightFieldKey (ToPacket m)) →
  let a := attach (Some (Some subs, Some ms)) clientID false version true writes clients db in
  ∃ l, (∀ p, p ∈ l ↔ ∃ f m, db !! f = Some m ∧ p = ToPacket m) ∧ NoDup (inflightFieldKey <$> l) ∧
    StronglySorted (ordered created_before) l ∧
    atSent a = take writes (mark_dup <$> l) ∧ atStore a = persisted clientID (take (S writes) (mark_dup <$> l)).
Proof.
  intros Hc Hne Hr Hdb a. exists (GetAll (stored_inflight ms NewInflights)).
  assert (wf_inflights (stored_inflight ms NewInflights)) as Hwf by apply wf_stored_inflight, wf_NewInflights.
  destruct (establish_elsewhere clientID version subs ms _ Hc (or_intror Hne)) as [Eb _].
  destruct (attach_resumes _ clientID version true writes clients db _ Eb eq_refl) as (_ & _ & Sb & Tb & _). fold a in Sb, Tb.
  cbn [clSubscriptions clInflight] in Sb, Tb. rewrite (resumed_persists clientID version writes _ ms db Hr) in Sb, Tb by (intros; by apply Hdb).
  split_and!; [|by apply NoDup_GetAll_keys|apply SliceStable_sorted, created_before_keyed|done|done].
  intros p. by apply stored_messages.
Qed.

(** ** Witnesses *)

Module Samples.

Definition message (field payload : string) (id : N) (created : Z) : storageMessage :=
  inflight_message "dev" field
    (no_packet <| pkFixedHeader := mkFixedHeader 0 Publish 1 false false |> <| pkPacketID := id |> <| pkTopicName := "a/b" |>
       <| pkPayload := payload |> <| pkCreated := created |>) created.

Definition subs : list storageSubscription := [mkStorageSubscription "sub" "a" "dev" "a/#" 0 0 1 false false].
Definition ms : list storageMessage := [message "out:1" "first" 1 10; message "out:2" "second" 2 20].
Definition db : messages := {["out:1" := message "out:1" "first" 1 10; "out:2" := message "out:2" "second" 2 20]}.

(** The session as its own node has it: the second message came while it was away. *)
Definition local : client :=
  mkClient false false 5 (stored_subscriptions subs) (Inflight_Set (ToPacket (message "out:1" "first" 1 10)) NewInflights).
End Samples.

Lemma session_resumes_anywhere_witness :
  let a := attach (Some (Some Samples.subs, Some Samples.ms)) "dev" false 5 true 5 {["dev" := Samples.local]} Samples.db in
  let b := attach (Some (Some Samples.subs, Some Samples.ms)) "dev" false 5 true 5 ∅ Samples.db in
  (pkPayload <$> atSent a) = ["first"; "second"] ∧ atSent a = atSent b ∧ atStore a = atStore b.
Proof.
  cbv zeta. split; [vm_compute; reflexivity|].
  destruct (session_resumes_anywhere "dev" 5 Samples.subs Samples.ms true 5 Samples.db Samples.local {["dev" := Samples.local]} ∅)
    as (_ & _ & _ & H); [reflexivity|reflexivity|reflexivity|reflexivity|].
  destruct H as (_ & H1 & H2 & _); [reflexivity| | |by left|].
  - apply wf_Inflight_Set, wf_NewInflights.
  - intros p Hp. exists (Samples.message "out:1" "first" 1 10). split; [by left|].
    unfold Samples.local in Hp. cbn [clInflight] in Hp. rewrite slot_key, slot_set in Hp by apply wf_Inflight_Set, wf_NewInflights.
    case_bool_decide; [by injection Hp as <-|]. by destruct (isInboundPacket p).
  - split; [exact H1|exact H2].
Defined.

Lemma resume_persists_what_it_sends_witness :
  let a := attach (Some (Some Samples.subs, Some Samples.ms)) "dev" false 5 true 1 ∅ Samples.db in
  (pkPayload <$> atSent a) = ["first"] ∧ size (atStore a) = 2 ∧ NoDup (inflightFieldKey <$> atSent a).
Proof.
  cbv zeta. split; [vm_compute; reflexivity|]. split; [vm_compute; reflexivity|].
  destruct (resume_persists_what_it_sends "dev" 5 Samples.subs Samples.ms 1 Samples.db ∅) as (l & _ & _ & _ & H & _).
  - reflexivity.
  - done.
  - repeat constructor.
  - intros f m. unfold Samples.db, Samples.ms. rewrite lookup_insert_Some, lookup_singleton_Some, !elem_of_cons. split.
    + intros [[<- <-]|(_ & <- & <-)]; (split; [tauto|by vm_compute]).
    + intros [[->|[->|?%not_elem_of_nil]] ->]; [by left|by right|done].
  - rewrite H. destruct l as [|p l]; [constructor|]. apply NoDup_singleton.
Defined.
