(* ===== verification/Validator.v ===== *)
(** Device credentials in PostgreSQL: the Validator of internal/auth/auth.go and
    the provider around it in postgres_provider.go.

    The three tables are lists of rows and a query is the comprehension its text
    denotes. [None] stands for a database that does not answer; LIMIT 1 takes the
    first row, and rows of one device agree where the primary keys hold
    ([validate_rows_agree]). *)
From S2P Require Import Prelude GoStrings Base64 Auth.

(** devices.devices, devices.tenants and devices.device_credentials, the columns read. *)
Record deviceRow := mkDeviceRow { dvID : string; dvTenantID : string; dvFleetID : option string }.
Record tenantRow := mkTenantRow { tnID : string; tnSlug : string }.
Record credentialRow := mkCredentialRow { crDeviceID : string; crType : string; crValue : string; crExpiresAt : option Z }.

Record database := mkDatabase {
  dbDevices : list deviceRow;
  dbTenants : list tenantRow;
  dbCredentials : list credentialRow;
  dbLastSeen : gmap string Z;
}.

(** The columns d.id, d.tenant_id, t.slug and d.fleet_id. *)
Definition identityRow : Type := string * string * string * option string.

Definition select_identity (d : deviceRow) (t : tenantRow) : identityRow := (dvID d, dvTenantID d, tnSlug t, dvFleetID d).

(** c.expires_at IS NULL OR c.expires_at > now() *)
Definition unexpired (now : Z) (c : credentialRow) : bool :=
  match crExpiresAt c with None => true | Some e => (now <? e)%Z end.

Definition validate_query (now : Z) (id token : string) (db : database) : list identityRow :=
  d ← dbDevices db; t ← dbTenants db; c ← dbCredentials db;
  if String.eqb (tnID t) (dvTenantID d) && String.eqb (crDeviceID c) (dvID d) && String.eqb (dvID d) id &&
     String.eqb (crType c) "mqtt_token" && String.eqb (crValue c) token && unexpired now c
  then [select_identity d t] else [].

Definition lookup_query (devUUID tenantUUID : string) (db : database) : list identityRow :=
  d ← dbDevices db; t ← dbTenants db;
  if String.eqb (tnID t) (dvTenantID d) && String.eqb (dvID d) devUUID && String.eqb (dvTenantID d) tenantUUID
  then [select_identity d t] else [].

Inductive validatorError := ErrInvalidCredentials | ErrDatabase.

(** Scan into a DeviceInfo. *)
Definition scan_identity (rows : list identityRow) : validatorError + DeviceInfo :=
  match rows with
  | [] => inl ErrInvalidCredentials
  | (id, tenantID, slug, fleetID) :: _ =>
      inr (mkDeviceInfo id tenantID slug fleetID (default "nofleet" fleetID) "")
  end.

Section Validator.
  (** uuid.Parse, as the canonical text *)
  Context (uuidParse : string → option string).

Definition Validate (now : Z) (deviceID token : string) (db : option database) : validatorError + DeviceInfo :=
  match uuidParse deviceID with
  | None => inl ErrInvalidCredentials
  | Some id => match db with None => inl ErrDatabase | Some db => scan_identity (validate_query now id token db) end
  end.

Definition LookupByCN (deviceID tenantID : string) (db : option database) : validatorError + DeviceInfo :=
  match uuidParse deviceID with
  | None => inl ErrInvalidCredentials
  | Some devUUID =>
      match uuidParse tenantID with
      | None => inl ErrInvalidCredentials
      | Some tenantUUID =>
          match db with None => inl ErrDatabase | Some db => scan_identity (lookup_query devUUID tenantUUID db) end
      end
  end.

Definition UpdateLastSeen (now : Z) (deviceID : string) (db : option database) : option database :=
  match db with
  | None => None
  | Some db =>
      Some (mkDatabase (dbDevices db) (dbTenants db) (dbCredentials db)
        (if existsb (λ d, String.eqb (dvID d) deviceID) (dbDevices db) then <[deviceID := now]> (dbLastSeen db) else dbLastSeen db))
  end.

Definition found {A} (r : validatorError + A) : option A := match r with inl _ => None | inr a => Some a end.

(** PostgresProvider *)
#[export] Instance PostgresProvider (now : Z) : AuthProvider (option database) := {
  provider_ValidatePassword deviceID token db := (db, found (Validate now deviceID token db));
  provider_LookupByCN deviceID tenantID db := (db, found (LookupByCN deviceID tenantID db));
}.
End Validator.

(** ** Lemmas *)

(** A row of the answer is a device of the table joined with its tenant. *)
Definition identity_of (db : database) (d : deviceRow) (info : DeviceInfo) : Prop :=
  d ∈ dbDevices db ∧ ID info = dvID d ∧ TenantID info = dvTenantID d ∧ FleetID info = dvFleetID d ∧
  FleetIDStr info = default "nofleet" (dvFleetID d) ∧ mkTenantRow (dvTenantID d) (TenantSlug info) ∈ dbTenants db.

Lemma elem_of_validate now id token db r :
  r ∈ validate_query now id token db ↔ ∃ d t c, d ∈ dbDevices db ∧ t ∈ dbTenants db ∧ c ∈ dbCredentials db ∧
    tnID t = dvTenantID d ∧ crDeviceID c = id ∧ dvID d = id ∧ crType c = "mqtt_token" ∧ crValue c = token ∧ unexpired now c = true ∧
    r = select_identity d t.
Proof.
  unfold validate_query. repeat setoid_rewrite list_elem_of_bind. split.
  - intros (d & (t & (c & Hr & Hc) & Ht) & Hd). exists d, t, c.
    destruct (_ && _) eqn:E in Hr; [|by apply not_elem_of_nil in Hr]. apply list_elem_of_singleton in Hr.
    rewrite !andb_true_iff, !String.eqb_eq in E. destruct E as [[[[[? ?] ?] ?] ?] ?]. naive_solver.
  - intros (d & t & c & Hd & Ht & Hc & E1 & E2 & E3 & E4 & E5 & E6 & ->). exists d. split; [|done]. exists t. split; [|done]. exists c.
    split; [|done]. rewrite E1, E2, E3, E4, E5, E6, !String.eqb_refl. apply list_elem_of_singleton. done.
Qed.

Lemma elem_of_lookup devUUID tenantUUID db r :
  r ∈ lookup_query devUUID tenantUUID db ↔ ∃ d t, d ∈ dbDevices db ∧ t ∈ dbTenants db ∧
    tnID t = dvTenantID d ∧ dvID d = devUUID ∧ dvTenantID d = tenantUUID ∧ r = select_identity d t.
Proof.
  unfold lookup_query. repeat setoid_rewrite list_elem_of_bind. split.
  - intros (d & (t & Hr & Ht) & Hd). exists d, t.
    destruct (_ && _) eqn:E in Hr; [|by apply not_elem_of_nil in Hr]. apply list_elem_of_singleton in Hr.
    rewrite !andb_true_iff, !String.eqb_eq in E. naive_solver.
  - intros (d & t & Hd & Ht & E1 & E2 & E3 & ->). exists d. split; [|done]. exists t.
    split; [|done]. rewrite E1, E2, E3, !String.eqb_refl. apply list_elem_of_singleton. done.
Qed.

Lemma NoDup_fmap_elem {A B} (f : A → B) l x y : NoDup (f <$> l) → x ∈ l → y ∈ l → f x = f y → x = y.
Proof.
  intros Hnd Hx Hy E. induction l as [|z l IH]; [by apply not_elem_of_nil in Hx|].
  rewrite fmap_cons, NoDup_cons in Hnd. destruct Hnd as [Hz Hnd].
  apply elem_of_cons in Hx as [->|Hx]; apply elem_of_cons in Hy as [->|Hy]; [done|..|by apply IH].
  - destruct Hz. rewrite E. by apply list_elem_of_fmap_2.
  - destruct Hz. rewrite <-E. by apply list_elem_of_fmap_2.
Qed.

(** Where the primary keys hold, all rows of an answer are the same. *)
Lemma validate_rows_agree now id token db r1 r2 : NoDup (dvID <$> dbDevices db) → NoDup (tnID <$> dbTenants db) →
  r1 ∈ validate_query now id token db → r2 ∈ validate_query now id token db → r1 = r2.
Proof.
  intros Hd Ht (d1 & t1 & c1 & H1 & T1 & _ & E1 & _ & D1 & _ & _ & _ & ->)%elem_of_validate
    (d2 & t2 & c2 & H2 & T2 & _ & E2 & _ & D2 & _ & _ & _ & ->)%elem_of_validate.
  assert (d1 = d2) as -> by (eapply (NoDup_fmap_elem dvID); eauto; congruence).
  assert (t1 = t2) as -> by (eapply (NoDup_fmap_elem tnID); eauto; congruence). done.
Qed.

Lemma scan_identity_found db rows info : (∀ r, r ∈ rows → ∃ d t, d ∈ dbDevices db ∧ t ∈ dbTenants db ∧ tnID t = dvTenantID d ∧ r = select_identity d t) →
  scan_identity rows = inr info → ∃ d, identity_of db d info ∧ ∃ t, select_identity d t ∈ rows.
Proof.
  intros Hr H. destruct rows as [|r rows]; [done|]. destruct (Hr r ltac:(by left)) as (d & [tid slug] & Hd & Ht & E & ->). cbn in *.
  injection H as <-. exists d. split; [|exists (mkTenantRow tid slug); by left]. unfold identity_of. cbn. subst tid. done.
Qed.

(** A device that is validated has an unexpired credential with the token in the
    table; one that is looked up is of the tenant. *)
Lemma Validate_sound uuidParse now deviceID token db info : Validate uuidParse now deviceID token db = inr info →
  ∃ tables d c, db = Some tables ∧ identity_of tables d info ∧ uuidParse deviceID = Some (dvID d) ∧
    c ∈ dbCredentials tables ∧ crDeviceID c = dvID d ∧ crType c = "mqtt_token" ∧ crValue c = token ∧ unexpired now c = true.
Proof.
  unfold Validate. destruct (uuidParse deviceID) as [id|]; [|done]. destruct db as [tables|]; [|done]. intros H.
  assert (∀ r, r ∈ validate_query now id token tables → ∃ d t, d ∈ dbDevices tables ∧ t ∈ dbTenants tables ∧ tnID t = dvTenantID d ∧ r = select_identity d t) as Hr.
  { intros r (d & t & c & Hd & Ht & _ & E & _ & _ & _ & _ & _ & ->)%elem_of_validate. exists d, t. auto. }
  destruct (scan_identity_found tables _ _ Hr H) as (d & Hd & t & Hin).
  apply elem_of_validate in Hin as (d' & t' & c & _ & _ & Hc & _ & E1 & E2 & E3 & E4 & E5 & E). injection E as E _ _ _.
  exists tables, d, c. rewrite E, E2. naive_solver.
Qed.

Lemma LookupByCN_sound uuidParse deviceID tenantID db info : LookupByCN uuidParse deviceID tenantID db = inr info →
  ∃ tables d, db = Some tables ∧ identity_of tables d info ∧ uuidParse deviceID = Some (dvID d) ∧ uuidParse tenantID = Some (dvTenantID d).
Proof.
  unfold LookupByCN. destruct (uuidParse deviceID) as [id|]; [|done]. destruct (uuidParse tenantID) as [tid|]; [|done].
  destruct db as [tables|]; [|done]. intros H.
  assert (∀ r, r ∈ lookup_query id tid tables → ∃ d t, d ∈ dbDevices tables ∧ t ∈ dbTenants tables ∧ tnID t = dvTenantID d ∧ r = select_identity d t) as Hr.
  { intros r (d & t & Hd & Ht & E & _ & _ & ->)%elem_of_lookup. exists d, t. auto. }
  destruct (scan_identity_found tables _ _ Hr H) as (d & Hd & t & Hin).
  apply elem_of_lookup in Hin as (d' & t' & _ & _ & _ & E1 & E2 & E). injection E as E E' _ _.
  exists tables, d. rewrite E, E'. naive_solver.
Qed.

(** A credential in force is accepted. *)
Lemma Validate_complete uuidParse now deviceID token tables d t c : uuidParse deviceID = Some (dvID d) →
  d ∈ dbDevices tables → t ∈ dbTenants tables → tnID t = dvTenantID d → c ∈ dbCredentials tables → crDeviceID c = dvID d →
  crType c = "mqtt_token" → crValue c = token → unexpired now c = true →
  ∃ info, Validate uuidParse now deviceID token (Some tables) = inr info ∧ ID info = dvID d.
Proof.
  intros Hu Hd Ht E1 Hc E2 E3 E4 E5. unfold Validate. rewrite Hu.
  assert (select_identity d t ∈ validate_query now (dvID d) token tables) as H by (apply elem_of_validate; naive_solver).
  destruct (validate_query now (dvID d) token tables) as [|r rows] eqn:E; [by apply not_elem_of_nil in H|].
  assert (r ∈ validate_query now (dvID d) token tables) as (d' & t' & _ & _ & _ & _ & _ & _ & Ed & _ & _ & _ & ->)%elem_of_validate by (rewrite E; by left).
  cbn. eexists. split; [done|]. exact Ed.
Qed.
