(* ===== verification/HttpApi.v ===== *)
(** The HTTP adapter for devices without MQTT: internal/httpapi/handler.go.

    A request is what the handlers read of it, the router's choice of handler
    included ([endpoint]); a body that cannot be read is [None]. The state is that of
    the two caches. A handler that writes nothing has its response sent by net/http
    with status 200. FanOut (internal/connector/fanout.go) hands the request to every
    connector; what a connector does with it is KafkaHono and Connector. *)
From S2P Require Import Prelude GoStrings Base64 Auth HookAuth Publish Validator.

Record httpRequest := mkHttpRequest {
  rqAuthorization : string;
  rqDeviceID : string;
  rqQueryDeviceID : string;
  rqBody : option string;
}.

Inductive endpoint := Telemetry | TelemetrySub (sub : string) | Event | EventSub (subject : string).

Definition StatusOK : N := 200.
Definition StatusCreated : N := 201.
Definition StatusAccepted : N := 202.
Definition StatusBadRequest : N := 400.
Definition StatusUnauthorized : N := 401.

(** LastIndex of "@", used only when it is not the first byte. *)
Definition split_identity (username : string) : string * string :=
  match cut_last "@" username with
  | Some (deviceID, tenantID) => if String.eqb deviceID "" then (username, "") else (deviceID, tenantID)
  | None => (username, "")
  end.

(** The device, tenant and token of a request; the tenant may be empty. *)
Definition ExtractCredentials (r : httpRequest) : option (string * string * string) :=
  let hdr := rqAuthorization r in
  if String.eqb hdr "" then None
  else if has_prefix "Basic " hdr then
    decoded ← StdDecode (trim_prefix "Basic " hdr);
    match splitN ":" decoded 2 with
    | [username; token] =>
        let '(deviceID, tenantID) := split_identity username in
        if negb (String.eqb deviceID "") && negb (String.eqb token "") then Some (deviceID, tenantID, token) else None
    | _ => None
    end
  else if has_prefix "Bearer " hdr then
    let token := trim_prefix "Bearer " hdr in
    let raw := if String.eqb (rqDeviceID r) "" then rqQueryDeviceID r else rqDeviceID r in
    let '(deviceID, tenantID) := split_identity raw in
    if negb (String.eqb deviceID "") && negb (String.eqb token "") then Some (deviceID, tenantID, token) else None
  else None.

(** The tenant settings and key sets that are cached. *)
Record httpState := mkHttpState { hsTenants : TenantConfigCache; hsJwks : JWKSCache }.

(** io.LimitReader *)
Definition max_body : nat := Pos.to_nat (2 ^ 20).

Section Handler.
  Context (uuidParse : string → option string) (parsePKIX : string → option PublicKey)
    (ParseWithClaims : Z → string → Keyfunc → JWKSCache → JWKSCache * option (bool * Claims))
    (keyEndpoint : string → option (list jwk)) (jwksTTL : Z) (tenantRows : string → dbAnswer) (tenantTTL : Z).
  (** Which caches the handler was given, and the number of connectors. *)
  Context (hasTenantCache hasJwksCache : bool) (connectors : nat).

(** The end of authenticate, after the device was looked up. An error is the status
    written before returning, if any. *)
Definition read_body (r : httpRequest) (device : validatorError + DeviceInfo) (s : httpState) :
    httpState * (option N + DeviceInfo * string) :=
  match device with
  | inl _ => (s, inl None)
  | inr device =>
      match rqBody r with
      | None => (s, inl (Some StatusBadRequest))
      | Some body =>
          let body := take_bytes max_body body in
          if String.eqb body "" then (s, inl (Some StatusBadRequest)) else (s, inr (device, body))
      end
  end.

Definition authenticate (now : Z) (db : option database) (r : httpRequest) (s : httpState) :
    httpState * (option N + DeviceInfo * string) :=
  match ExtractCredentials r with
  | None => (s, inl (Some StatusUnauthorized))
  | Some (deviceID, tenantID, token) =>
      match DetectAuthMethod token, hasTenantCache && negb (String.eqb tenantID "") with
      | AuthMethodJWT, true =>
          let '(tenants, cfg) := tenant_Get tenantRows tenantTTL now tenantID (hsTenants s) in
          let s := mkHttpState tenants (hsJwks s) in
          match cfg with
          | None => (s, inl (Some StatusUnauthorized))
          | Some cfg =>
              if negb (JWTAuthEnabled cfg) then (s, inl (Some StatusUnauthorized))
              else
                let '(jwks, err) := ValidateJWT parsePKIX ParseWithClaims keyEndpoint jwksTTL now tenantID deviceID token cfg hasJwksCache (hsJwks s) in
                let s := mkHttpState (hsTenants s) jwks in
                match err with
                | Some _ => (s, inl (Some StatusUnauthorized))
                | None => read_body r (LookupByCN uuidParse deviceID tenantID db) s
                end
          end
      | _, _ => read_body r (Validate uuidParse now deviceID token db) s
      end
  end.

(** The requests FanOut starts; the content-type header is the same in all. *)
Definition forward (device : DeviceInfo) (topic payload : string) : list outputRequest :=
  replicate connectors (mkOutputRequest topic payload (ID device) (TenantID device) (TenantSlug device) (FleetIDStr device)).

Definition endpoint_topic (e : endpoint) : string :=
  match e with
  | Telemetry => "telemetry/metrics"
  | TelemetrySub sub => "telemetry/" +:+ sub
  | Event => "event/" +:+ "event"
  | EventSub subject => "event/" +:+ subject
  end.

Definition endpoint_status (e : endpoint) : N :=
  match e with Telemetry | TelemetrySub _ => StatusAccepted | Event | EventSub _ => StatusCreated end.

(** The four handlers: the new state, the status of the response and what was forwarded. *)
Definition handle (e : endpoint) (now : Z) (db : option database) (r : httpRequest) (s : httpState) :
    httpState * N * list outputRequest :=
  match authenticate now db r s with
  | (s, inl written) => (s, default StatusOK written, [])
  | (s, inr (device, payload)) => (s, endpoint_status e, forward device (endpoint_topic e) payload)
  end.
End Handler.

(** ** Lemmas *)

#[local] Opaque max_body.

Lemma read_body_ok r v s s' device payload : read_body r v s = (s', inr (device, payload)) →
  v = inr device ∧ payload ≠ "" ∧ ∃ body, rqBody r = Some body ∧ payload = take_bytes max_body body.
Proof.
  unfold read_body. destruct v as [err|v]; [done|]. destruct (rqBody r) as [body|]; [|done].
  cbv zeta. generalize max_body. intros n. destruct (String.eqb_spec (take_bytes n body) ""); [done|]. intros [= _ <- <-]. eauto.
Qed.

Section HandlerSpec.
  Context (uuidParse : string → option string) (parsePKIX : string → option PublicKey)
    (ParseWithClaims : Z → string → Keyfunc → JWKSCache → JWKSCache * option (bool * Claims))
    (keyEndpoint : string → option (list jwk)) (jwksTTL : Z) (tenantRows : string → dbAnswer) (tenantTTL : Z)
    (hasTenantCache hasJwksCache : bool) (connectors : nat).

(** A token of the tenant that names the device. *)
Definition jwt_of (SignedBy : PublicKey → string → Token → Claims → Prop) (now : Z) (tenantID deviceID token : string)
    (s : httpState) : Prop :=
  ∃ cfg t key claims, (tenant_Get tenantRows tenantTTL now tenantID (hsTenants s)).2 = Some cfg ∧ JWTAuthEnabled cfg = true ∧
    tenant_key parsePKIX keyEndpoint jwksTTL now tenantID cfg (hsJwks s) t key ∧ method_fits t key ∧ SignedBy key token t claims ∧
    claimSub claims = deviceID ∧ (claimTid claims = "" ∨ claimTid claims = tenantID).

Lemma ValidateJWT_sound (SignedBy : PublicKey → string → Token → Claims → Prop) now tenantID deviceID token cfg c c' :
  (∀ now tok kf (c c' : JWKSCache) v claims, ParseWithClaims now tok kf c = (c', Some (v, claims)) →
     ∃ t key, kf t c = (c', inr key) ∧ SignedBy key tok t claims) →
  ValidateJWT parsePKIX ParseWithClaims keyEndpoint jwksTTL now tenantID deviceID token cfg hasJwksCache c = (c', None) →
  ∃ t key claims, tenant_key parsePKIX keyEndpoint jwksTTL now tenantID cfg c t key ∧ method_fits t key ∧ SignedBy key token t claims ∧
    claimSub claims = deviceID ∧ (claimTid claims = "" ∨ claimTid claims = tenantID).
Proof.
  intros Hlib H. unfold ValidateJWT in H.
  destruct (jwtKeyFunc parsePKIX keyEndpoint jwksTTL now tenantID cfg hasJwksCache) as [err|kf] eqn:Ek; [done|].
  apply validateJWTClaims_ok in H as (claims & Hp & [Hsub|[? _]] & Htid); [|done].
  destruct (Hlib _ _ _ _ _ _ _ Hp) as (t & key & Hkf & Hsig).
  destruct (jwtKeyFunc_key _ _ _ _ _ _ _ _ _ _ _ _ Ek Hkf). exists t, key, claims. auto.
Qed.

(** What stands behind a request that is let through. *)
Lemma authenticate_sound (SignedBy : PublicKey → string → Token → Claims → Prop) now db r s s' device payload :
  (∀ now tok kf (c c' : JWKSCache) v claims, ParseWithClaims now tok kf c = (c', Some (v, claims)) →
     ∃ t key, kf t c = (c', inr key) ∧ SignedBy key tok t claims) →
  authenticate uuidParse parsePKIX ParseWithClaims keyEndpoint jwksTTL tenantRows tenantTTL hasTenantCache hasJwksCache now db r s
    = (s', inr (device, payload)) →
  ∃ deviceID tenantID token, ExtractCredentials r = Some (deviceID, tenantID, token) ∧
    (Validate uuidParse now deviceID token db = inr device ∨
     (LookupByCN uuidParse deviceID tenantID db = inr device ∧ jwt_of SignedBy now tenantID deviceID token s)) ∧
    payload ≠ "" ∧ ∃ body, rqBody r = Some body ∧ payload = take_bytes max_body body.
Proof.
  intros Hlib. unfold authenticate. destruct (ExtractCredentials r) as [[[deviceID tenantID] token]|]; [|done].
  intros H. exists deviceID, tenantID, token. split; [done|].
  assert (read_body r (Validate uuidParse now deviceID token db) s = (s', inr (device, payload)) →
    (Validate uuidParse now deviceID token db = inr device ∨ (LookupByCN uuidParse deviceID tenantID db = inr device ∧ jwt_of SignedBy now tenantID deviceID token s)) ∧
    payload ≠ "" ∧ ∃ body, rqBody r = Some body ∧ payload = take_bytes max_body body) as Hpw by (intros (? & ? & ?)%read_body_ok; auto).
  destruct (DetectAuthMethod token); try by apply Hpw. destruct (hasTenantCache && _); [|by apply Hpw]. clear Hpw.
  destruct (tenant_Get tenantRows tenantTTL now tenantID (hsTenants s)) as [tenants [cfg|]] eqn:Et; [|done]. cbn in H.
  destruct (JWTAuthEnabled cfg) eqn:Ej; [|done]. cbn in H.
  destruct (ValidateJWT _ _ _ _ _ _ _ _ _ _ _) as [jwks [err|]] eqn:Ev; [done|]. apply read_body_ok in H as (Hd & Hp & Hb).
  split_and!; [right; split; [done|]|done|done].
  destruct (ValidateJWT_sound SignedBy _ _ _ _ _ _ _ Hlib Ev) as (t & key & claims & ? & ? & ? & ? & ?).
  exists cfg, t, key, claims. rewrite Et. auto 10.
Qed.
End HandlerSpec.

(** ** Claims *)

(** C11: The HTTP adapter forwards only what a device that proved itself sent, under
    that device's identity. If the JWT library reports success only for tokens signed
    by the key it was given, then whatever a request makes the adapter forward, the
    device it names is in the database; it presented one of its MQTT tokens that has
    not expired, or a JWT of its tenant that names it, with JWT authentication enabled
    there; the connectors each get one request with the identity, tenant and fleet of
    that row, the topic of the endpoint and the first mebibyte of the body, which is not
    empty; and the answer is 201 for an event and 202 for telemetry. *)
Theorem http_forwards_for_proved_devices uuidParse parsePKIX ParseWithClaims keyEndpoint jwksTTL tenantRows tenantTTL
    hasTenantCache hasJwksCache connectors (SignedBy : PublicKey → string → Token → Claims → Prop) e now db r s s' status out :
  (∀ now tok kf (c c' : JWKSCache) v claims, ParseWithClaims now tok kf c = (c', Some (v, claims)) →
     ∃ t key, kf t c = (c', inr key) ∧ SignedBy key tok t claims) →
  handle uuidParse parsePKIX ParseWithClaims keyEndpoint jwksTTL tenantRows tenantTTL hasTenantCache hasJwksCache connectors e now db r s
    = (s', status, out) → out ≠ [] →
  ∃ deviceID tenantID token tables d info body,
    ExtractCredentials r = Some (deviceID, tenantID, token) ∧ db = Some tables ∧ identity_of tables d info ∧
    uuidParse deviceID = Some (dvID d) ∧
    ((∃ c, c ∈ dbCredentials tables ∧ crDeviceID c = dvID d ∧ crType c = "mqtt_token" ∧ crValue c = token ∧ unexpired now c = true) ∨
     (uuidParse tenantID = Some (dvTenantID d) ∧
      jwt_of parsePKIX keyEndpoint jwksTTL tenantRows tenantTTL SignedBy now tenantID deviceID token s)) ∧
    rqBody r = Some body ∧ take_bytes max_body body ≠ "" ∧ status = endpoint_status e ∧
    out = replicate connectors (mkOutputRequest (endpoint_topic e) (take_bytes max_body body)
            (ID info) (TenantID info) (TenantSlug info) (FleetIDStr info)).
Proof.
  intros Hlib H Hne. unfold handle in H. destruct (authenticate _ _ _ _ _ _ _ _ _ _ _ _ _) as [s1 [written|[device payload]]] eqn:Ha.
  { by injection H as _ _ <-. }
  injection H as _ <- <-. destruct (authenticate_sound _ _ _ _ _ _ _ _ _ SignedBy _ _ _ _ _ _ _ Hlib Ha)
    as (deviceID & tenantID & token & He & Hv & Hp & body & Hb & ->).
  destruct Hv as [Hv|[Hv Hj]].
  - apply Validate_sound in Hv as (tables & d & c & -> & Hid & Hu & ? & ? & ? & ? & ?).
    exists deviceID, tenantID, token, tables, d, device, body. split_and!; try done. left. by exists c.
  - apply LookupByCN_sound in Hv as (tables & d & -> & Hid & Hu & Ht).
    exists deviceID, tenantID, token, tables, d, device, body. split_and!; try done. by right.
Qed.

(** A device whose credentials the database refuses is told that all went well. The
    adapter forwards nothing of it, but writes no status either, so the response is 200
    with an empty body; the only other answers are 401 and 400, and the endpoint's own
    status when the message was forwarded. *)
Theorem http_refused_device_is_answered_ok uuidParse parsePKIX ParseWithClaims keyEndpoint jwksTTL tenantRows tenantTTL
    hasTenantCache hasJwksCache connectors e now db r s :
  let '(s', status, out) := handle uuidParse parsePKIX ParseWithClaims keyEndpoint jwksTTL tenantRows tenantTTL hasTenantCache
    hasJwksCache connectors e now db r s in
  (status ≠ endpoint_status e → out = [] ∧ (status = StatusOK ∨ status = StatusUnauthorized ∨ status = StatusBadRequest)) ∧
  ∀ deviceID tenantID token err, ExtractCredentials r = Some (deviceID, tenantID, token) →
    (DetectAuthMethod token = AuthMethodPassword ∨ tenantID = "") → Validate uuidParse now deviceID token db = inl err →
    status = StatusOK ∧ out = [] ∧ s' = s.
Proof.
  destruct (handle _ _ _ _ _ _ _ _ _ _ _ _ _ _ _) as [[s' status] out] eqn:H. unfold handle in H. split.
  - intros Hs. destruct (authenticate _ _ _ _ _ _ _ _ _ _ _ _ _) as [s1 [written|[device payload]]] eqn:Ha; [|by injection H as _ <- _].
    injection H as _ <- <-. split; [done|]. unfold authenticate in Ha.
    destruct (ExtractCredentials r) as [[[deviceID tenantID] token]|]; [|injection Ha as _ <-; auto].
    assert (∀ v s2, read_body r v s2 = (s1, inl written) → default StatusOK written = StatusOK ∨
      default StatusOK written = StatusUnauthorized ∨ default StatusOK written = StatusBadRequest) as Hb.
    { unfold read_body. intros v s2. destruct v; [intros [= _ <-]; auto|]. destruct (rqBody r) as [body|]; [|intros [= _ <-]; auto].
      generalize max_body. intros n. cbv zeta. destruct (take_bytes n body =? "")%string; intros E; [injection E as _ <-; auto|discriminate E]. }
    destruct (DetectAuthMethod token); try by eapply Hb. destruct (hasTenantCache && _); [|by eapply Hb].
    destruct (tenant_Get _ _ _ _ _) as [tenants [cfg|]]; [|injection Ha as _ <-; auto].
    destruct (JWTAuthEnabled cfg); cbn in Ha; [|injection Ha as _ <-; auto].
    destruct (ValidateJWT _ _ _ _ _ _ _ _ _ _ _) as [jwks [err|]]; [injection Ha as _ <-; auto|by eapply Hb].
  - intros deviceID tenantID token err He Hm Hv. unfold authenticate in H. rewrite He, Hv in H.
    assert ((s, default StatusOK (@None N), @nil outputRequest) = (s', status, out)) as E; [|by injection E as <- <- <-].
    rewrite <-H. destruct Hm as [->| ->]; [done|]. rewrite andb_false_r. by destruct (DetectAuthMethod token).
Qed.

(** ** Witnesses *)

Module Samples.
Definition tables : database :=
  mkDatabase [mkDeviceRow "dev" "ten" None] [mkTenantRow "ten" "acme"] [mkCredentialRow "dev" "mqtt_token" "secret" None] ∅.
Definition request (authorization : string) : httpRequest := mkHttpRequest authorization "dev@ten" "" (Some "21.5").
Definition refuse (now : Z) (tok : string) (kf : Keyfunc) (c : JWKSCache) : JWKSCache * option (bool * Claims) := (c, None).
End Samples.

Lemma http_forwards_for_proved_devices_witness :
  ∃ out, handle Some (λ _, None) Samples.refuse (λ _, None) 0 (λ _, dbNoRows) 0 true true 1 (EventSub "door") 0 (Some Samples.tables)
    (Samples.request "Bearer secret") (mkHttpState ∅ ∅) = (mkHttpState ∅ ∅, StatusCreated, out) ∧
    ∃ body, out = replicate 1 (mkOutputRequest "event/door" body "dev" "ten" "acme" "nofleet").
Proof.
  eexists. split; [vm_compute; reflexivity|].
  destruct (http_forwards_for_proved_devices Some (λ _, None) Samples.refuse (λ _, None) 0 (λ _, dbNoRows) 0 true true 1 (λ _ _ _ _, True)
    (EventSub "door") 0 (Some Samples.tables) (Samples.request "Bearer secret") (mkHttpState ∅ ∅) (mkHttpState ∅ ∅) StatusCreated
    [mkOutputRequest "event/door" "21.5" "dev" "ten" "acme" "nofleet"])
    as (deviceID & tenantID & token & tables & d & info & body & _ & _ & _ & _ & _ & _ & _ & _ & E).
  - intros now tok kf c c' v claims H. discriminate H.
  - vm_compute. reflexivity.
  - discriminate.
  - exists "21.5". vm_compute. reflexivity.
Defined.

Lemma http_refused_device_is_answered_ok_witness :
  ∃ out, handle Some (λ _, None) Samples.refuse (λ _, None) 0 (λ _, dbNoRows) 0 true true 1 (EventSub "door") 0 (Some Samples.tables)
    (Samples.request "Bearer guess") (mkHttpState ∅ ∅) = (mkHttpState ∅ ∅, StatusOK, out) ∧ out = [].
Proof.
  eexists. split; [vm_compute; reflexivity|].
  destruct (http_refused_device_is_answered_ok Some (λ _, None) Samples.refuse (λ _, None) 0 (λ _, dbNoRows) 0 true true 1 (EventSub "door") 0
    (Some Samples.tables) (Samples.request "Bearer guess") (mkHttpState ∅ ∅)) as [_ H].
  destruct (H "dev" "ten" "guess" ErrInvalidCredentials) as (_ & E & _); [reflexivity|left; reflexivity|reflexivity|]. reflexivity.
Defined.
