(* ===== verification/OlricStore.v ===== *)
(** The cluster store over Olric: internal/cluster/store/olric.go.

    A member's map is a set of keys; Put, Get and Scan pass through. Delete of several
    keys, which the Router needs to be all or an error, is a transition system: the
    loop that starts single-key deletes under a semaphore, the deletes that end in any
    order, the errgroup that keeps the first error and cancels its context, and the
    caller's context, which may end at any moment. *)
From stdpp Require Import gmap list strings.
From S2P Require Import Prelude.

(** ** Start-up (NewEmbeddedOlricStore), durations in nanoseconds *)

Definition millisecond : Z := 1000000.
Definition second : Z := 1000000000.

Record OlricConfig := mkOlricConfig {
  JoinRetryInterval : Z;
  MaxJoinAttempts : Z;
  StartTimeout : Z;
  AdvertiseIP : string;
  BindAddr : string;
  DMapName : string;
}.

Definition joinRetryInterval (cfg : OlricConfig) : Z :=
  if (JoinRetryInterval cfg <=? 0)%Z then (300 * millisecond)%Z else JoinRetryInterval cfg.
Definition maxJoinAttempts (cfg : OlricConfig) : Z := if (MaxJoinAttempts cfg <=? 0)%Z then 5%Z else MaxJoinAttempts cfg.

(** int64 multiplication and addition of the source *)
Definition wrap64 (z : Z) : Z := ((z + 2 ^ 63) mod 2 ^ 64 - 2 ^ 63)%Z.

Definition joinBudget (cfg : OlricConfig) : Z := wrap64 (joinRetryInterval cfg * maxJoinAttempts cfg).

Definition startTimeout (cfg : OlricConfig) : Z :=
  let timeout := if (StartTimeout cfg <=? 0)%Z then (20 * second)%Z else StartTimeout cfg in
  if (timeout <? wrap64 (joinBudget cfg + 5 * second))%Z then wrap64 (joinBudget cfg + 5 * second) else timeout.

Definition dmapName (cfg : OlricConfig) : string := if String.eqb (DMapName cfg) "" then "keel.routes" else DMapName cfg.
Definition selfConnectAddr (cfg : OlricConfig) : string :=
  if String.eqb (AdvertiseIP cfg) "" then BindAddr cfg else AdvertiseIP cfg.

(** ** Delete *)

Definition deleteConcurrency : nat := 32.

Inductive storeError := ErrDelete (key : string).

(** [dsTodo] has the keys whose delete was not started, [dsRunning] those in flight;
    [dsErr] is the first error of the group; [dsCancelled] tells that the caller's
    context has ended, [dsAborted] that the loop was left early, and [dsReturned] what
    Delete has returned ([Some None] is nil). *)
Record deleting := mkDeleting {
  dsStore : gset string;
  dsTodo : list string;
  dsRunning : list string;
  dsErr : option storeError;
  dsCancelled : bool;
  dsAborted : bool;
  dsReturned : option (option storeError);
}.

Definition Delete_start (store : gset string) (keys : list string) : deleting := mkDeleting store keys [] None false false None.

(** gctx.Done() *)
Definition group_done (s : deleting) : bool := dsCancelled s || match dsErr s with Some _ => true | None => false end.

Definition keep_first (e : storeError) (err : option storeError) : option storeError :=
  match err with Some e' => Some e' | None => Some e end.

Inductive delete_step : deleting → deleting → Prop :=
  (** a slot of the semaphore is free *)
  | start_key store k todo running err cancelled : length running < deleteConcurrency →
      delete_step (mkDeleting store (k :: todo) running err cancelled false None)
        (mkDeleting store todo (k :: running) err cancelled false None)
  (** the loop sees the end of the group's context instead *)
  | leave_loop store k todo running err cancelled :
      cancelled = true ∨ err ≠ None →
      delete_step (mkDeleting store (k :: todo) running err cancelled false None)
        (mkDeleting store (k :: todo) running err cancelled true None)
  (** a single-key delete ends *)
  | key_deleted store todo l1 k l2 err cancelled aborted :
      delete_step (mkDeleting store todo (l1 ++ k :: l2) err cancelled aborted None)
        (mkDeleting (store ∖ {[k]}) todo (l1 ++ l2) err cancelled aborted None)
  (** it may have been carried out or not *)
  | key_failed store store' todo l1 k l2 err cancelled aborted : store' = store ∨ store' = store ∖ {[k]} →
      delete_step (mkDeleting store todo (l1 ++ k :: l2) err cancelled aborted None)
        (mkDeleting store' todo (l1 ++ l2) (keep_first (ErrDelete k) err) cancelled aborted None)
  | caller_cancels store todo running err aborted :
      delete_step (mkDeleting store todo running err false aborted None)
        (mkDeleting store todo running err true aborted None)
  (** g.Wait returns when no delete is left *)
  | group_waited store todo err cancelled aborted : todo = [] ∨ aborted = true →
      delete_step (mkDeleting store todo [] err cancelled aborted None)
        (mkDeleting store todo [] err cancelled aborted (Some err)).

(** The whole of Delete: what it returns and the keys that are left, in a run in which
    the caller's context ends or not. *)
Inductive Delete (store : gset string) (keys : list string) : bool → gset string → option storeError → Prop :=
  | delete_none cancelled : keys = [] → Delete store keys cancelled store None
  | delete_one cancelled k : keys = [k] → Delete store keys cancelled (store ∖ {[k]}) None
  | delete_one_failed cancelled k store' : keys = [k] → store' = store ∨ store' = store ∖ {[k]} →
      Delete store keys cancelled store' (Some (ErrDelete k))
  | delete_many s r : 2 <= length keys → rtc delete_step (Delete_start store keys) s → dsReturned s = Some r →
      Delete store keys (dsCancelled s) (dsStore s) r.

(** ** Lemmas *)

Abbreviation keys_of l := (list_to_set l : gset string).

(** Every key is waiting, in flight, deleted or failed; only the deleted keys are
    sure to be gone, and no other key of the store is touched. *)
Record delete_inv (store : gset string) (keys : list string) (s : deleting) : Prop := {
  di_keys : ∃ ok failed, keys ≡ₚ dsTodo s ++ dsRunning s ++ ok ++ failed ∧
    dsStore s ⊆ store ∖ keys_of ok ∧ (dsErr s = None → failed = []);
  di_others : store ∖ keys_of keys ⊆ dsStore s;
  di_running : length (dsRunning s) <= deleteConcurrency;
  di_aborted : dsAborted s = true → dsCancelled s = true ∨ dsErr s ≠ None;
  di_returned r : dsReturned s = Some r → dsRunning s = [] ∧ r = dsErr s ∧ (dsTodo s = [] ∨ dsAborted s = true);
}.

Lemma delete_inv_start store keys : delete_inv store keys (Delete_start store keys).
Proof.
  split; cbn; try done; [|set_solver|lia]. exists [], []. rewrite !app_nil_r. split_and!; [done|set_solver|done].
Qed.

Lemma keep_first_some e err : keep_first e err ≠ None.
Proof. by destruct err. Qed.

(** A key in flight moves to the deleted or to the failed ones. *)
Lemma moved_ok (todo l1 l2 ok failed : list string) k : todo ++ (l1 ++ k :: l2) ++ ok ++ failed ≡ₚ todo ++ (l1 ++ l2) ++ (k :: ok) ++ failed.
Proof. rewrite <-!app_assoc. f_equiv. f_equiv. cbn. apply Permutation_middle. Qed.
Lemma moved_failed (todo l1 l2 ok failed : list string) k : todo ++ (l1 ++ k :: l2) ++ ok ++ failed ≡ₚ todo ++ (l1 ++ l2) ++ ok ++ (k :: failed).
Proof. rewrite moved_ok. f_equiv. f_equiv. cbn. apply Permutation_middle. Qed.

Lemma gone_one (store st : gset string) ok k : st ⊆ store ∖ keys_of ok → st ∖ {[k]} ⊆ store ∖ keys_of (k :: ok).
Proof. cbn. set_solver. Qed.
Lemma gone_keeps (store st : gset string) ok k : st ⊆ store ∖ keys_of ok → st ∖ {[k]} ⊆ store ∖ keys_of ok.
Proof. set_solver. Qed.
Lemma others_stay (store st : gset string) keys k : store ∖ keys_of keys ⊆ st → k ∈ keys → store ∖ keys_of keys ⊆ st ∖ {[k]}.
Proof. intros H Hk x Hx. apply elem_of_difference. split; [by apply H|]. intros ->%elem_of_singleton. apply elem_of_difference in Hx as [_ []]. by apply elem_of_list_to_set. Qed.
Lemma in_flight (keys todo l1 l2 rest : list string) k : keys ≡ₚ todo ++ (l1 ++ k :: l2) ++ rest → k ∈ keys.
Proof. intros ->. rewrite !elem_of_app, elem_of_cons. tauto. Qed.

Lemma delete_inv_step store keys s s' : delete_inv store keys s → delete_step s s' → delete_inv store keys s'.
Proof.
  intros [(ok & failed & Hk & Hs & Hf) Ho Hr Ha Ht] Hstep.
  destruct Hstep as [st k todo running err c Hlen|st k todo running err c Hd|st todo l1 k l2 err c ab|st st' todo l1 k l2 err c ab Hst
    |st todo running err ab|st todo err c ab Hd]; cbn in *.
  - split; cbn; try done; try lia. exists ok, failed. split_and!; try done. rewrite Hk. cbn. by rewrite <-Permutation_middle.
  - split; cbn; try done; try lia. exists ok, failed. done.
  - split; cbn; try done; [|by apply others_stay; [|eapply in_flight]|rewrite !length_app in *; cbn in *; lia].
    exists (k :: ok), failed. split_and!; [by rewrite Hk, moved_ok|by apply gone_one|done].
  - split; cbn; try done; [| |rewrite !length_app in *; cbn in *; lia|intros _; right; apply keep_first_some].
    + exists ok, (k :: failed). split_and!; [by rewrite Hk, moved_failed|destruct Hst as [-> | ->]; [done|by apply gone_keeps]|by intros ?%keep_first_some].
    + destruct Hst as [-> | ->]; [done|]. apply others_stay; [done|]. by eapply in_flight.
  - split; cbn; try done; [by exists ok, failed|by left].
  - split; cbn; try done; [by exists ok, failed|]. intros r [= <-]. done.
Qed.

Lemma delete_inv_run store keys s : rtc delete_step (Delete_start store keys) s → delete_inv store keys s.
Proof.
  intros H. eapply (rtc_ind_r (delete_inv store keys) (Delete_start store keys)); [apply delete_inv_start| |exact H]. intros x y _ Hxy Hx. by eapply delete_inv_step.
Qed.

(** What is left for a run to do. *)
Definition work (s : deleting) : nat :=
  2 * length (dsTodo s) + length (dsRunning s) + (if dsCancelled s then 0 else 1) + (if dsAborted s then 0 else 1) +
  match dsReturned s with Some _ => 0 | None => 1 end.

Lemma delete_step_work s s' : delete_step s s' → work s' < work s.
Proof.
  destruct 1; unfold work; cbn; rewrite ?length_app; cbn; try lia; destruct cancelled, aborted; lia.
Qed.

Lemma delete_progress store keys s : delete_inv store keys s → dsReturned s = None → ∃ s', delete_step s s'.
Proof.
  intros _ Hn. destruct s as [st todo running err c ab ret]. cbn in *. subst ret.
  destruct running as [|k running].
  - destruct todo as [|k todo].
    + eexists. apply group_waited. by left.
    + destruct ab; [eexists; apply group_waited; by right|]. eexists. apply start_key. unfold deleteConcurrency. cbn. lia.
  - eexists. apply (key_deleted st todo [] k running).
Qed.

Lemma returned_nil store keys s : delete_inv store keys s → dsReturned s = Some None → dsCancelled s = false →
  dsStore s = store ∖ keys_of keys.
Proof.
  intros [(ok & failed & Hk & Hs & Hf) Ho _ Ha Ht] Hr Hc. destruct (Ht _ Hr) as (Hrun & Herr & Hd).
  rewrite Hrun, (Hf (eq_sym Herr)) in Hk. destruct Hd as [Hd|Hd]; [|by destruct (Ha Hd); congruence].
  rewrite Hd, app_nil_r in Hk. cbn in Hk. apply set_eq. intros x. split; [|apply Ho].
  intros [H1 H2]%Hs%elem_of_difference. apply elem_of_difference. split; [done|]. rewrite elem_of_list_to_set in *. by rewrite Hk.
Qed.

Lemma store_shrinks store keys s : delete_inv store keys s → store ∖ keys_of keys ⊆ dsStore s ∧ dsStore s ⊆ store.
Proof. intros [(ok & failed & _ & Hs & _) Ho _ _ _]. split; [done|]. intros x [? _]%Hs%elem_of_difference. done. Qed.

Lemma bounded_run n s s' : relations.nsteps delete_step n s s' → n + work s' <= work s.
Proof. induction 1 as [x|n x y z Hxy _ IH]; [lia|]. apply delete_step_work in Hxy. lia. Qed.

(** Starting is given at least five seconds more than joining may take. *)
Lemma start_outlasts_join cfg : (joinRetryInterval cfg * maxJoinAttempts cfg + 5 * second < 2 ^ 63)%Z →
  (joinBudget cfg = joinRetryInterval cfg * maxJoinAttempts cfg ∧ joinBudget cfg + 5 * second <= startTimeout cfg)%Z.
Proof.
  intros H. assert (0 < joinRetryInterval cfg)%Z by (unfold joinRetryInterval, millisecond; destruct (Z.leb_spec (JoinRetryInterval cfg) 0); lia).
  assert (0 < maxJoinAttempts cfg)%Z by (unfold maxJoinAttempts; destruct (Z.leb_spec (MaxJoinAttempts cfg) 0); lia).
  assert (0 < joinRetryInterval cfg * maxJoinAttempts cfg)%Z as Hp by (apply Z.mul_pos_pos; lia).
  unfold startTimeout, joinBudget. revert Hp H. generalize (joinRetryInterval cfg * maxJoinAttempts cfg)%Z. unfold second, wrap64. intros b Hp H.
  rewrite !(Z.mod_small (b + 2 ^ 63)) by lia. replace (b + 2 ^ 63 - 2 ^ 63)%Z with b by lia.
  rewrite !Z.mod_small by lia. split; [done|]. destruct (Z.ltb_spec (if (StartTimeout cfg <=? 0)%Z then 20 * 1000000000 else StartTimeout cfg)%Z (b + 5 * 1000000000 + 2 ^ 63 - 2 ^ 63)%Z); lia.
Qed.

(** ** Claims *)

(** C23: Deleting a batch of keys is what the Router relies on: if Delete returns no
    error and the caller's context has not ended, exactly these keys are gone from the
    store. In every case no other key is touched. The condition on the context is
    needed: when it ends while keys are waiting and the deletes in flight succeed,
    Delete returns no error with keys left behind. *)
Theorem batch_delete_is_complete :
  (∀ store keys cancelled store' r, Delete store keys cancelled store' r →
    store ∖ keys_of keys ⊆ store' ∧ store' ⊆ store ∧
    (r = None → cancelled = false → store' = store ∖ keys_of keys)) ∧
  Delete {["a"; "b"]} ["a"; "b"] true {["b"]} None.
Proof.
  split.
  - intros store keys cancelled store' r [c ->|c k ->|c k st -> Hst|s r' _ Hrun Hret].
    + cbn. split_and!; [set_solver|done|set_solver].
    + cbn. rewrite union_empty_r_L. split_and!; [done|set_solver|done].
    + cbn. rewrite union_empty_r_L. split_and!; [destruct Hst as [-> | ->]; set_solver|destruct Hst as [-> | ->]; set_solver|done].
    + apply delete_inv_run in Hrun. destruct (store_shrinks _ _ _ Hrun) as [H1 H2]. split_and!; [done|done|].
      intros ->. by apply returned_nil.
  - assert (({["a"; "b"]} : gset string) ∖ {["a"]} = {["b"]}) as E by (vm_compute; reflexivity).
    enough (Delete {["a"; "b"]} ["a"; "b"] true ({["a"; "b"]} ∖ {["a"]}) None) as H by (by rewrite E in H). clear E.
    refine (delete_many _ _ (mkDeleting ({["a"; "b"]} ∖ {["a"]}) ["b"] [] None true true (Some None)) None _ _ _); [cbn; lia| |done].
    eapply rtc_l; [apply start_key; cbn; unfold deleteConcurrency; lia|]. eapply rtc_l; [apply caller_cancels|].
    eapply rtc_l; [apply leave_loop; by left|]. eapply rtc_l; [apply (key_deleted _ _ [] "a" [])|].
    eapply rtc_l; [apply group_waited; by right|]. apply rtc_refl.
Qed.

(** Deleting a batch always ends, with at most 32 requests at a time. No run has
    more than two steps for each key and three more, no state before the return is
    stuck, and Delete returns only when none of its requests is in flight. *)
Theorem batch_delete_ends store keys n s : relations.nsteps delete_step n (Delete_start store keys) s →
  n <= 2 * length keys + 3 ∧ length (dsRunning s) <= 32 ∧
  (dsReturned s = None → ∃ s', delete_step s s') ∧ (dsReturned s ≠ None → dsRunning s = []).
Proof.
  intros Hn. pose proof (delete_inv_run store keys s) as Hi. rewrite rtc_nsteps in Hi. specialize (Hi ltac:(eauto)).
  split_and!; [|apply Hi|by eapply delete_progress|].
  - apply bounded_run in Hn. unfold work, Delete_start in Hn. cbn in Hn. lia.
  - destruct (dsReturned s) as [r|] eqn:E; [|done]. intros _. by apply (di_returned _ _ _ Hi r).
Qed.

Lemma batch_delete_ends_witness : 3 <= 2 * length ["a"; "b"] + 3.
Proof.
  apply (batch_delete_ends {["a"; "b"]} ["a"; "b"] 3 (mkDeleting ({["a"; "b"]} ∖ {["a"]}) [] ["b"] None false false None)).
  eapply nsteps_l; [apply start_key; cbn; unfold deleteConcurrency; lia|]. eapply nsteps_l; [apply (key_deleted _ _ [] "a" [])|].
  eapply nsteps_l; [apply start_key; cbn; unfold deleteConcurrency; lia|]. constructor.
Defined.
