(* ===== verification/Dataplane.v ===== *)
(** The forwarding of messages between nodes: GRPCForwarder in
    internal/cluster/dataplane/grpc_forwarder.go.

    The sending side is a tree of requests to the clock, the membership and gRPC; the
    answers are free. The loop that waits for the membership is unrolled for a number
    of rounds, with [None] for a call that is still waiting after them. What the
    standard library promises of contexts and tickers is a condition on the times at
    which the requests are answered; from it follows how many rounds there can be. The
    receiving side is the choice of the handler. Message conversion is in Fanout. *)
From S2P Require Import Prelude GoStrings Effects Fanout.

(** In milliseconds *)
Definition forwardTimeout : nat := 3000.
Definition membershipResolveInterval : nat := 25.

Inductive ctxError := DeadlineExceeded | Canceled.
(** The codes of gRPC that are told apart. *)
Inductive grpcCode := CodeDeadlineExceeded | CodeUnavailable | CodeOther.

(** WithTimeout makes the context of the call, NewTicker the ticker. Tick is the
    select of the loop: true for a tick, false for the end of the context. *)
Inductive ask : Type → Type :=
  | WithTimeout (d : nat) : ask unit
  | CtxErr : ask (option ctxError)
  | Resolve (nodeID : string) : ask (option string)
  | NewTicker (d : nat) : ask unit
  | Tick : ask bool
  | NewClient (addr : string) : ask bool
  | RpcForward (addr : string) (req : ForwardRequest) : ask (option grpcCode)
  | RpcEvict (addr clientID : string) : ask (option grpcCode).

Inductive forwardError :=
  | ErrContext (e : ctxError)
  | ErrUnknownNode (nodeID : string) (e : option ctxError)
  | ErrDial (addr : string)
  | ErrRpc (nodeID addr : string) (code : grpcCode).

Open Scope proc_scope.

(** [ok && addr != ""] *)
Definition usable (answer : option string) : option string :=
  match answer with Some addr => if String.eqb addr "" then None else Some addr | None => None end.

(** The loop, for [rounds] rounds. *)
Fixpoint wait_loop (rounds : nat) (nodeID : string) : proc ask (option (forwardError + string)) :=
  match rounds with
  | O => Done None
  | S rounds =>
      ticked <- request Tick;;
      if ticked : bool then
        err <- request CtxErr;;
        match err with
        | Some e => Done (Some (inl (ErrUnknownNode nodeID (Some e))))
        | None =>
            answer <- request (Resolve nodeID);;
            match usable answer with Some addr => Done (Some (inr addr)) | None => wait_loop rounds nodeID end
        end
      else
        err <- request CtxErr;;
        Done (Some (inl (ErrUnknownNode nodeID err)))
  end.

Definition resolveForwardTarget (rounds : nat) (nodeID : string) : proc ask (option (forwardError + string)) :=
  err <- request CtxErr;;
  match err with
  | Some e => Done (Some (inl (ErrContext e)))
  | None =>
      answer <- request (Resolve nodeID);;
      match usable answer with
      | Some addr => Done (Some (inr addr))
      | None => request (NewTicker membershipResolveInterval);; wait_loop rounds nodeID
      end
  end.

(** The connections that exist; a new one is made at the first use of an address. *)
Definition clientFor (addr : string) (conns : gset string) : proc ask (gset string * option forwardError) :=
  if bool_decide (addr ∈ conns) then Done (conns, None)
  else
    ok <- request (NewClient addr);;
    if ok : bool then Done ({[addr]} ∪ conns, None) else Done (conns, Some (ErrDial addr)).

Definition rpc_error (nodeID addr : string) (code : option grpcCode) : option forwardError :=
  match code with Some code => Some (ErrRpc nodeID addr code) | None => None end.

(** [None]: still waiting for the membership after [rounds] rounds. *)
Definition Forward (rounds : nat) (nodeID : string) (msg : Message) (conns : gset string) :
    proc ask (option (gset string * option forwardError)) :=
  request (WithTimeout forwardTimeout);;
  target <- resolveForwardTarget rounds nodeID;;
  match target with
  | None => Done None
  | Some (inl err) => Done (Some (conns, Some err))
  | Some (inr addr) =>
      c <- clientFor addr conns;;
      match c with
      | (conns, Some err) => Done (Some (conns, Some err))
      | (conns, None) =>
          code <- request (RpcForward addr (requestFromMessage msg));;
          Done (Some (conns, rpc_error nodeID addr code))
      end
  end.

Definition Evict (nodeID clientID : string) (conns : gset string) : proc ask (gset string * option forwardError) :=
  answer <- request (Resolve nodeID);;
  match answer with
  | None => Done (conns, Some (ErrUnknownNode nodeID None))
  | Some addr =>
      c <- clientFor addr conns;;
      match c with
      | (conns, Some err) => Done (conns, Some err)
      | (conns, None) =>
          code <- request (RpcEvict addr clientID);;
          Done (conns, rpc_error nodeID addr code)
      end
  end.

(** status.Code of an error that is not of gRPC is Unknown. *)
Definition forwardFailureReason (err : forwardError) : string :=
  match err with
  | ErrUnknownNode _ _ => "unknown_node"
  | ErrRpc _ _ CodeDeadlineExceeded => "deadline"
  | ErrRpc _ _ CodeUnavailable => "unavailable"
  | _ => "other"
  end.

(** ** The receiving side *)

(** The handlers that are registered, [H] their type. *)
Record handlers (H : Type) := mkHandlers { handler : option H; contextHandler : option H; evictHandler : option H }.
Arguments mkHandlers {H}.
Arguments handler {H}.
Arguments contextHandler {H}.
Arguments evictHandler {H}.

Definition Subscribe {H} (h : H) (f : handlers H) : handlers H := mkHandlers (Some h) None (evictHandler f).
Definition SubscribeContext {H} (h : H) (f : handlers H) : handlers H := mkHandlers None (Some h) (evictHandler f).
Definition SubscribeEvict {H} (h : H) (f : handlers H) : handlers H := mkHandlers (handler f) (contextHandler f) (Some h).

(** The inbound call: the handler that runs with the message, or the context's error. *)
Definition server_Forward {H} (uuidParse : string → option string) (zeroUUID : string) (ctxErr : option ctxError) (req : ForwardRequest)
    (f : handlers H) : ctxError + option (H * Message) :=
  match contextHandler f with
  | Some h => match ctxErr with Some e => inl e | None => inr (Some (h, messageFromRequest uuidParse zeroUUID req)) end
  | None => match handler f with Some h => inr (Some (h, messageFromRequest uuidParse zeroUUID req)) | None => inr None end
  end.

Definition server_Evict {H} (clientID : string) (f : handlers H) : option (H * string) := (λ h, (h, clientID)) <$> evictHandler f.

(** ** Lemmas *)

(** An event that sends nothing to another node. *)
Definition quiet (ev : event ask) : Prop :=
  match ev with @Event _ _ e _ => match e with RpcForward _ _ | RpcEvict _ _ => False | _ => True end end.

(** The times at which the requests of a run are answered, as package time and
    context promise: they do not go back; a context whose time has run out has an
    error (it can have one before, by the caller's hand); the k-th tick of a ticker
    comes k periods after it was made, or later. *)
Record clocks := mkClocks { clNow : nat; clDeadline : option nat; clTicker : option (nat * nat * nat) }.

Definition answered_at {X} (e : ask X) (x : X) (t : nat) (c : clocks) : option clocks :=
  match e in ask X return X → option clocks with
  | WithTimeout d => λ _, Some (mkClocks t (Some (match clDeadline c with Some D => min D (t + d) | None => t + d end)) (clTicker c))
  | NewTicker d => λ _, Some (mkClocks t (clDeadline c) (Some (t, d, 0)))
  | Tick => λ ticked : bool,
      if ticked then
        match clTicker c with
        | Some (t0, d, k) => if t0 + d * S k <=? t then Some (mkClocks t (clDeadline c) (Some (t0, d, S k))) else None
        | None => None
        end
      else Some (mkClocks t (clDeadline c) (clTicker c))
  | CtxErr => λ err,
      match err, clDeadline c with
      | None, Some D => if t <? D then Some (mkClocks t (clDeadline c) (clTicker c)) else None
      | _, _ => Some (mkClocks t (clDeadline c) (clTicker c))
      end
  | _ => λ _, Some (mkClocks t (clDeadline c) (clTicker c))
  end x.

Fixpoint clocked (c : clocks) (tr : list (event ask)) (ts : list nat) : Prop :=
  match tr, ts with
  | [], [] => True
  | @Event _ _ e x :: tr, t :: ts => clNow c <= t ∧ ∃ c', answered_at e x t c = Some c' ∧ clocked c' tr ts
  | _, _ => False
  end.

(** ** Lemmas: the run *)

(** An address that was found is the answer of the membership. *)
Definition resolved_by (nodeID : string) (r : option (forwardError + string)) (tr : list (event ask)) : Prop :=
  match r with Some (inr addr) => addr ≠ "" ∧ Event (Resolve nodeID) (Some addr) ∈ tr | _ => True end.

Lemma usable_some answer addr : usable answer = Some addr → answer = Some addr ∧ addr ≠ "".
Proof. unfold usable. destruct answer as [a|]; [|done]. destruct (String.eqb_spec a ""); [done|]. by intros [= ->]. Qed.

Lemma resolved_by_cons nodeID r ev tr : resolved_by nodeID r tr → resolved_by nodeID r (ev :: tr).
Proof. destruct r as [[]|]; cbn; [done| |done]. intros [? ?]. split; [done|by right]. Qed.

Lemma wait_loop_runs n nodeID r tr : runs (wait_loop n nodeID) r tr → Forall quiet tr ∧ resolved_by nodeID r tr.
Proof.
  revert r tr. induction n as [|n IH]; intros r tr; cbn; [intros [-> ->]; by repeat constructor|].
  intros (ticked & tr1 & -> & H). destruct ticked; cbn in H; destruct H as (err & tr2 & -> & H).
  - destruct err as [e|]; cbn in H; [destruct H as [-> ->]; split; [by repeat constructor|done]|].
    destruct H as (answer & tr3 & -> & H). destruct (usable answer) as [addr|] eqn:E; cbn in H.
    + destruct H as [-> ->]. apply usable_some in E as [-> Ha]. split; [by repeat constructor|]. split; [done|]. do 2 right. left.
    + apply IH in H as [H1 H2]. split; [by repeat constructor|]. by do 3 apply resolved_by_cons.
  - destruct H as [-> ->]. split; [by repeat constructor|done].
Qed.

Lemma resolve_runs n nodeID r tr : runs (resolveForwardTarget n nodeID) r tr → Forall quiet tr ∧ resolved_by nodeID r tr.
Proof.
  unfold resolveForwardTarget. cbn. intros (err & tr1 & -> & H).
  destruct err as [e|]; cbn in H; [destruct H as [-> ->]; split; [by repeat constructor|done]|].
  destruct H as (answer & tr2 & -> & H). destruct (usable answer) as [addr|] eqn:E; cbn in H.
  - destruct H as [-> ->]. apply usable_some in E as [-> Ha]. split; [by repeat constructor|]. split; [done|]. right. left.
  - destruct H as ([] & tr3 & -> & H). apply wait_loop_runs in H as [H1 H2]. split; [by repeat constructor|]. by do 3 apply resolved_by_cons.
Qed.

Lemma clientFor_runs addr conns conns' err tr : runs (clientFor addr conns) (conns', err) tr →
  Forall quiet tr ∧ conns ⊆ conns' ∧ (err = None → addr ∈ conns').
Proof.
  unfold clientFor. case_bool_decide as Hc; cbn.
  - intros [[= -> ->] ->]. split_and!; [constructor|done|done].
  - intros (ok & tr1 & -> & H). destruct ok; cbn in H; destruct H as [[= -> ->] ->];
      (split_and!; [by repeat constructor|set_solver|set_solver]).
Qed.

(** ** Lemmas: the clock *)

(** A loop that goes on has read its ticks before the deadline. *)
Lemma wait_loop_time n nodeID tr c ts t0 d k D : runs (wait_loop n nodeID) None tr → clocked c tr ts →
  clTicker c = Some (t0, d, k) → clDeadline c = Some D → n = 0 ∨ t0 + d * (k + n) < D.
Proof.
  revert tr c ts k. induction n as [|n IH]; intros tr c ts k; [by left|]. cbn [wait_loop].
  intros (ticked & tr1 & -> & H) Hc Ht HD. destruct ts as [|t1 ts]; [done|]. destruct Hc as (_ & c1 & H1 & Hc).
  destruct ticked; cbn in H; [|by destruct H as (? & ? & -> & ? & ?)]. destruct H as (err & tr2 & -> & H).
  destruct err as [e|]; [by destruct H|]. destruct H as (answer & tr3 & -> & H).
  cbn in H. destruct (usable answer); [by destruct H|]. cbn [answered_at] in H1. rewrite Ht in H1.
  destruct (Nat.leb_spec (t0 + d * S k) t1) as [Hle|]; [|done]. injection H1 as <-.
  destruct ts as [|t2 ts]; [done|]. destruct Hc as (Hle2 & c2 & H2 & Hc). cbn [answered_at clDeadline clNow] in Hle2, H2. rewrite HD in H2.
  destruct (Nat.ltb_spec t2 D) as [Hlt|]; [|done]. injection H2 as <-.
  destruct ts as [|t3 ts]; [done|]. destruct Hc as (_ & c3 & [= <-] & Hc). right.
  destruct (IH _ _ _ (S k) H Hc eq_refl eq_refl) as [->|Hr]; [|by replace (k + S n) with (S k + n) by lia].
  replace (k + 1) with (S k) by lia. lia.
Qed.

Lemma forward_runs n nodeID msg conns r tr : runs (Forward n nodeID msg conns) r tr →
  ∃ target tr1 tr2, tr = Event (WithTimeout forwardTimeout) () :: tr1 ++ tr2 ∧ runs (resolveForwardTarget n nodeID) target tr1 ∧
    runs (match target with
      | None => Done None
      | Some (inl err) => Done (Some (conns, Some err))
      | Some (inr addr) =>
          c <- clientFor addr conns;;
          match c with
          | (conns, Some err) => Done (Some (conns, Some err))
          | (conns, None) =>
              code <- request (RpcForward addr (requestFromMessage msg));;
              Done (Some (conns, rpc_error nodeID addr code))
          end
      end) r tr2.
Proof.
  intros ([] & tr1 & -> & H). change (proc_bind (Done ()) ?f) with (f ()) in H. cbv beta in H.
  apply runs_bind in H as (target & tr2 & tr3 & H1 & H2 & ->). by exists target, tr2, tr3.
Qed.

(** A call that is still waiting. *)
Lemma forward_waits n nodeID msg conns tr ts : runs (Forward n nodeID msg conns) None tr →
  clocked (mkClocks 0 None None) tr ts → n < 120.
Proof.
  intros (r & tr2 & tr3 & -> & H1 & H2)%forward_runs Hc. destruct ts as [|t0 ts]; [done|]. destruct Hc as (_ & c1 & [= <-] & Hc).
  assert (r = None) as ->.
  { destruct r as [[err|addr]|]; [by destruct H2| |done]. apply runs_bind in H2 as ([conns' [e|]] & ? & ? & _ & H2 & _); [by destruct H2|].
    by destruct H2 as (? & ? & _ & [? _]). }
  destruct H2 as [_ ->]. rewrite app_nil_r in Hc. unfold resolveForwardTarget in H1. destruct H1 as (err & tr4 & -> & H1).
  destruct err as [e|]; [by destruct H1|]. destruct H1 as (answer & tr5 & -> & H1). cbn in H1. destruct (usable answer); [by destruct H1|].
  destruct H1 as ([] & tr6 & -> & H1).
  destruct ts as [|t1 ts]; [done|]. destruct Hc as (Hle1 & c1 & E1 & Hc). cbn [answered_at clDeadline] in E1. destruct (t1 <? _); [|done]. injection E1 as <-.
  destruct ts as [|t2 ts]; [done|]. destruct Hc as (Hle2 & c2 & [= <-] & Hc).
  destruct ts as [|t3 ts]; [done|]. destruct Hc as (Hle3 & c3 & [= <-] & Hc). cbn in *.
  destruct (wait_loop_time _ _ _ _ _ _ _ _ _ H1 Hc eq_refl eq_refl) as [->|Hlt]; [lia|].
  unfold membershipResolveInterval, forwardTimeout in Hlt. lia.
Qed.

(** ** Claims *)

(** C25: A message is sent to another node at most once. A call of Forward makes one
    RPC or none; nothing follows it, so no answer leads to a second attempt. It goes
    to an address that the membership gave for the node during the call, and it carries the
    message, which the other side reads back unchanged. The call succeeds exactly when
    the RPC was made and succeeded; when it fails without it nothing was sent, and
    connections are kept. The wait for the membership ends: whatever the membership
    answers, with the timeout of three seconds and a ticker of 25 milliseconds that keep
    their documented times, no call is still waiting after 120 rounds. *)
Theorem forward_sends_once :
  (∀ rounds nodeID msg conns tr ts, 120 <= rounds → clocked (mkClocks 0 None None) tr ts →
     ¬ runs (Forward rounds nodeID msg conns) None tr) ∧
  (∀ msg uuidParse zeroUUID, uuidParse (PublishID msg) = Some (PublishID msg) → (mQoS msg < 256)%N →
     messageFromRequest uuidParse zeroUUID (requestFromMessage msg) = msg) ∧
  (∀ rounds nodeID msg conns conns' err tr, runs (Forward rounds nodeID msg conns) (Some (conns', err)) tr →
     conns ⊆ conns' ∧
     ((Forall quiet tr ∧ err ≠ None) ∨
      ∃ pre addr code, tr = pre ++ [Event (RpcForward addr (requestFromMessage msg)) code] ∧ Forall quiet pre ∧
        addr ≠ "" ∧ Event (Resolve nodeID) (Some addr) ∈ pre ∧ addr ∈ conns' ∧ err = rpc_error nodeID addr code)).
Proof.
  split_and!.
  - intros rounds nodeID msg conns tr ts Hn Hc Hr. pose proof (forward_waits _ _ _ _ _ _ Hr Hc). lia.
  - intros msg uuidParse zeroUUID Hu Hq. destruct msg as [? ? ? ? ? ? sf]. unfold messageFromRequest, requestFromMessage. cbn in *.
    rewrite Hu, N.mod_small by done. by destruct sf.
  - intros rounds nodeID msg conns conns' err tr (r & tr1 & tr2 & -> & H1 & H2)%forward_runs. apply resolve_runs in H1 as (Q1 & R1).
    destruct r as [[e|addr]|]; cbn in H2; [|  |by destruct H2].
    { destruct H2 as [[= -> ->] ->]. rewrite app_nil_r. split; [done|]. left. split; [by constructor|done]. }
    apply runs_bind in H2 as ([conns1 e1] & tr3 & tr4 & H3 & H4 & ->). apply clientFor_runs in H3 as (Q3 & S3 & A3).
    destruct e1 as [e1|]; cbn in H4.
    { destruct H4 as [[= -> ->] ->]. split; [done|]. left. rewrite app_nil_r. split; [constructor; [done|by apply Forall_app]|done]. }
    destruct H4 as (code & tr5 & -> & [[= -> ->] ->]). split; [done|]. right. destruct R1 as [Ha Hin].
    exists (Event (WithTimeout forwardTimeout) () :: tr1 ++ tr3), addr, code. rewrite app_assoc.
    split_and!; [done|by constructor; [|apply Forall_app]|done| |by apply A3|done]. right. apply elem_of_app. by left.
Qed.

(** A membership that learns the address at the third try. *)
Module Samples.
Definition msg : Message := mkMessage "n1" "ten" "a/b" "21.5" 1 "p1" (Some ["$share/g/a/#"]).
Definition trace : list (event ask) :=
  [Event (WithTimeout forwardTimeout) tt; Event CtxErr None; Event (Resolve "n2") None; Event (NewTicker membershipResolveInterval) tt;
   Event Tick true; Event CtxErr None; Event (Resolve "n2") (Some "");
   Event Tick true; Event CtxErr None; Event (Resolve "n2") (Some "10.0.0.2:7400"); Event (NewClient "10.0.0.2:7400") true;
   Event (RpcForward "10.0.0.2:7400" (requestFromMessage msg)) (Some CodeDeadlineExceeded)].
Definition times : list nat := [5; 5; 5; 5; 30; 30; 30; 55; 55; 55; 56; 300].
End Samples.

Lemma sample_run : runs (Forward 120 "n2" Samples.msg ∅)
  (Some ({["10.0.0.2:7400"]}, Some (ErrRpc "n2" "10.0.0.2:7400" CodeDeadlineExceeded))) Samples.trace.
Proof.
  exists tt, (drop 1 Samples.trace). split; [reflexivity|]. change (proc_bind (Done ()) ?f) with (f ()). cbv beta. apply runs_bind. exists (Some (inr "10.0.0.2:7400")), (take 9 (drop 1 Samples.trace)), (drop 10 Samples.trace).
  split; [|split; [|reflexivity]].
  { unfold resolveForwardTarget. change 120 with (S (S 118)). cbn. repeat (eexists; eexists; split; [reflexivity|cbn]). split; reflexivity. }
  apply runs_bind. eexists ({["10.0.0.2:7400"]}, None), [Event (NewClient "10.0.0.2:7400") true], _. split.
  { unfold clientFor. rewrite bool_decide_eq_false_2 by (intros H; apply elem_of_empty in H; exact H).
    exists true, []. split; [reflexivity|]. split; [vm_compute; reflexivity|reflexivity]. }
  split; [|reflexivity]. eexists _, []. split; [reflexivity|]. split; reflexivity.
Qed.

Lemma forward_sends_once_witness :
  ¬ runs (Forward 120 "n2" Samples.msg ∅) None Samples.trace ∧
  ∃ pre addr code, Samples.trace = pre ++ [Event (RpcForward addr (requestFromMessage Samples.msg)) code] ∧ Event (Resolve "n2") (Some addr) ∈ pre.
Proof.
  destruct forward_sends_once as (H1 & _ & H2). split.
  - apply (H1 120 "n2" Samples.msg ∅ Samples.trace Samples.times); [lia|]. repeat (split; [cbn [clNow]; lia|]; eexists; split; [reflexivity|]). exact I.
  - destruct (H2 _ _ _ _ _ _ _ sample_run) as [_ [[Hq _]|(pre & addr & code & E & _ & _ & Hin & _)]].
    + exfalso. rewrite Forall_forall in Hq. apply (Hq (Event (RpcForward "10.0.0.2:7400" (requestFromMessage Samples.msg)) (Some CodeDeadlineExceeded))).
      do 11 right. left.
    + exists pre, addr, code. split; [exact E|exact Hin].
Defined.
