(* ===== verification/Delivery.v ===== *)
(** The delivery of one message to one client of the vendored broker:
    publishToClient in thirdparty/mochi-mqtt-server/server.go with NextPacketID
    (clients.go), the outbound topic aliases (topics.go), the send quota
    (inflight.go) and the queue of the connection (packet_queue.go).

    The state of the client is passed along, as if no other message reached it
    meanwhile; the decision of OnACLCheck and whether the hooks could persist a
    message are arguments. The ring buffer of the queue is the list of its packets. *)
From stdpp Require Import gmap list strings fin_maps.
From S2P Require Import Prelude GoStrings GoSort Topics Codec Properties Packets.

(** ** Data *)

(** The capabilities that are read. *)
Record limits := mkLimits { MaximumQosCap : N; MaximumInflight : nat; maximumPacketID : N }.

(** [rcOpen]: there is a connection and it is not closed. [rcPending] is the limit of
    the queue; without a buffer, a packet is taken only if [rcReady]. *)
Record recipient := mkRecipient {
  rcID : string;
  rcVersion : N;
  rcOpen : bool;
  rcAliasMaximum : N;
  rcPending : nat;
  rcReady : bool;
}.

Record outState := mkOutState {
  osInflight : gmap N Packet;
  osPacketID : N;
  osSendQuota : Z;
  osMaximumSendQuota : Z;
  osAliases : gmap string N;
  osCursor : N;
  osQueue : list Packet;
  osClosed : bool;
}.

#[export] Instance outState_remake : Remake outState := {| remake := λ s,
  mkOutState (osInflight s) (osPacketID s) (osSendQuota s) (osMaximumSendQuota s) (osAliases s) (osCursor s) (osQueue s) (osClosed s) |}.

Inductive deliveryError :=
  | ErrNotAuthorized | ErrQuotaExceeded | ErrPersistence | ErrDisconnect | ErrCleanup | ErrPendingClientWritesExceeded.

(** ** Operations *)

(** The rounds of the loop: at most one per number, and one to start over. *)
Fixpoint next_id_loop (fuel : nat) (max started i : N) (overflowed : bool) (used : gmap N Packet) : option N :=
  match fuel with
  | O => None
  | S fuel =>
      if overflowed && (i =? started)%N then None
      else if (max <=? i)%N then next_id_loop fuel max started 0 true used
      else
        let i := (i + 1)%N in
        match used !! (i mod 65536)%N with
        | None => Some i
        | Some _ => next_id_loop fuel max started i overflowed used
        end
  end.

(** [None] when every number is taken. *)
Definition NextPacketID (lim : limits) (s : outState) : option (N * outState) :=
  let max := maximumPacketID lim in
  match next_id_loop (2 * N.to_nat max + 3) max (osPacketID s) (osPacketID s) false (osInflight s) with
  | Some i => Some (i, s <| osPacketID := i |>)
  | None => None
  end.

(** Also whether the number was free. *)
Definition SetOutbound (m : Packet) (s : outState) : bool * outState :=
  (bool_decide (osInflight s !! pkPacketID m = None), s <| osInflight := <[pkPacketID m := m]> (osInflight s) |>).

Definition DeleteOutbound (id : N) (s : outState) : bool * outState :=
  (bool_decide (is_Some (osInflight s !! id)), s <| osInflight := delete id (osInflight s) |>).

Definition DecreaseSendQuota (s : outState) : outState :=
  if (0 <? osSendQuota s)%Z then s <| osSendQuota := (osSendQuota s - 1)%Z |> else s.

Definition IncreaseSendQuota (s : outState) : outState :=
  if (osSendQuota s <? osMaximumSendQuota s)%Z then s <| osSendQuota := (osSendQuota s + 1)%Z |> else s.

(** The alias of a topic, 0 for none, and whether it existed. *)
Definition Aliases_Set (maximum : N) (topic : string) (s : outState) : N * bool * outState :=
  if (maximum =? 0)%N then (0%N, false, s)
  else match osAliases s !! topic with
  | Some a => (a, true, s)
  | None =>
      if (maximum <? osCursor s + 1)%N then (0%N, false, s)
      else let a := (osCursor s + 1)%N in (a, false, s <| osAliases := <[topic := a]> (osAliases s) |> <| osCursor := a |>)
  end.

Definition Aliases_Delete (topic : string) (id : N) (s : outState) : outState :=
  if bool_decide (osAliases s !! topic = Some id) then s <| osAliases := delete topic (osAliases s) |> else s.

Definition tryPush (cl : recipient) (pk : Packet) (s : outState) : bool * outState :=
  if osClosed s then (false, s)
  else if if rcPending cl =? 0 then rcReady cl else negb (length (osQueue s) =? rcPending cl)
  then (true, s <| osQueue := osQueue s ++ [pk] |>)
  else (false, s).

(** A tentative delivery is taken back; an error of the hook is that of the cleanup. *)
Definition drop_outbound (dropped : bool) (out : Packet) (err : deliveryError) (s : outState) : option deliveryError * outState :=
  let '(existed, s) := DeleteOutbound (pkPacketID out) s in
  if existed : bool then (Some (if dropped then err else ErrCleanup), IncreaseSendQuota s) else (Some err, s).

Section Delivery.
  Context (lim : limits) (cl : recipient) (readable : string → bool).
  (** OnQosPublishResult and OnQosDroppedResult succeed *)
  Context (persisted dropped : Packet → bool).

(** The packet for the client: flags, subscription identifiers and QoS. *)
Definition outgoing (fwdRetainedFlag : bool) (sub : Subscription) (pk : Packet) : Packet :=
  let out := Packet_Copy false pk in
  let out :=
    if negb fwdRetainedFlag && (((rcVersion cl =? 5)%N && negb (RetainAsPublished sub)) || (rcVersion cl <? 5)%N)
    then out <| pkFixedHeader := (pkFixedHeader out) <| fhRetain := false |> |> else out in
  let out :=
    match Identifiers sub with
    | Some ids =>
        if bool_decide (ids = ∅) then out
        else out <| pkProperties := (pkProperties out) <| SubscriptionIdentifier := SliceStable Z.ltb (map_to_list ids).*2 |> |>
    | None => out
    end in
  let qos := N.min (N.min (pkQoS out) (Qos sub)) (MaximumQosCap lim) in
  out <| pkFixedHeader := (pkFixedHeader out) <| fhQos := qos |> |>.

Definition reserve_alias (pk out : Packet) (s : outState) : Packet * outState :=
  if (0 <? rcAliasMaximum cl)%N then
    let '(alias, aliasExists, s) := Aliases_Set (rcAliasMaximum cl) (pkTopicName pk) s in
    let out := out <| pkProperties := (pkProperties out) <| TopicAlias := alias |> |> in
    if (0 <? alias)%N then
      let out := out <| pkProperties := (pkProperties out) <| TopicAliasFlag := true |> |> in
      ((if aliasExists : bool then out <| pkTopicName := "" |> else out), s)
    else (out, s)
  else (out, s).

(** Under the lock of the client: reserve the alias and push. *)
Definition enqueue (sharedAttempt : bool) (pk out : Packet) (s : outState) : Packet * option deliveryError * outState :=
  if negb (rcOpen cl) then
    if sharedAttempt && (0 <? pkQoS out)%N then
      let '(err, s) := drop_outbound (dropped out) out ErrDisconnect s in (out, err, s)
    else (out, Some ErrDisconnect, s)
  else
    let '(out, s) := reserve_alias pk out s in
    let '(pushed, s) := tryPush cl out s in
    if pushed : bool then (out, None, s)
    else
      let s := if (0 <? TopicAlias (pkProperties out))%N then Aliases_Delete (pkTopicName pk) (TopicAlias (pkProperties out)) s else s in
      if (0 <? pkQoS out)%N then
        let '(err, s) := drop_outbound (dropped out) out ErrPendingClientWritesExceeded s in (out, err, s)
      else (out, Some ErrPendingClientWritesExceeded, s).

(** A message of QoS 1 or 2 that has its number. *)
Definition publish_numbered (sharedAttempt : bool) (pk out : Packet) (s : outState) : Packet * option deliveryError * outState :=
  let sentQuota := osSendQuota s in
  let '(fresh, s) := SetOutbound out s in
  if fresh && negb (persisted out) then
    let '(existed, s) := DeleteOutbound (pkPacketID out) s in
    (out, Some ErrPersistence, if existed : bool then IncreaseSendQuota s else s)
  else
    let s := if fresh : bool then DecreaseSendQuota s else s in
    if (sentQuota =? 0)%Z && (0 <? osMaximumSendQuota s)%Z then
      let out := out <| pkExpiry := (-1)%Z |> in (out, None, (SetOutbound out s).2)
    else enqueue sharedAttempt pk out s.

Definition publishToClientMode (sharedAttempt fwdRetainedFlag : bool) (sub : Subscription) (pk : Packet) (s : outState) :
    Packet * option deliveryError * outState :=
  if NoLocal sub && String.eqb (pkOrigin pk) (rcID cl) then (pk, None, s)
  else if negb (readable (pkTopicName pk)) then (Packet_Copy false pk, Some ErrNotAuthorized, s)
  else
    let out := outgoing fwdRetainedFlag sub pk in
    if (0 <? pkQoS out)%N then
      if MaximumInflight lim <=? size (osInflight s) then (out, Some ErrQuotaExceeded, s)
      else match NextPacketID lim s with
      | None => (out, Some ErrQuotaExceeded, s)
      | Some (i, s) => publish_numbered sharedAttempt pk (out <| pkPacketID := (i mod 65536)%N |>) s
      end
    else enqueue sharedAttempt pk out s.

Definition publishToClient := publishToClientMode false.
End Delivery.

(** ** Specification *)

(** How a client of MQTT 5 reads topics, with its table of aliases: a topic beside an
    alias defines it, an empty topic stands for the one defined before. *)
Definition read_topic (pk : Packet) (table : gmap N string) : option string * gmap N string :=
  if TopicAliasFlag (pkProperties pk) then
    if String.eqb (pkTopicName pk) "" then (table !! TopicAlias (pkProperties pk), table)
    else (Some (pkTopicName pk), <[TopicAlias (pkProperties pk) := pkTopicName pk]> table)
  else (Some (pkTopicName pk), table).

Fixpoint read_messages (pks : list Packet) (table : gmap N string) : list (option string * string) :=
  match pks with
  | [] => []
  | pk :: pks => let '(topic, table) := read_topic pk table in (topic, pkPayload pk) :: read_messages pks table
  end.

(** The client knows every alias of the broker for it. *)
Record in_step (s : outState) (table : gmap N string) : Prop := {
  is_known : ∀ t a, osAliases s !! t = Some a → table !! a = Some t ∧ (a <= osCursor s)%N;
}.

(** A message that the client is to get. *)
Definition wanted (cl : recipient) (readable : string → bool) (sub : Subscription) (pk : Packet) : bool :=
  negb (NoLocal sub && String.eqb (pkOrigin pk) (rcID cl)) && readable (pkTopicName pk).

(** Room for [n] more messages: the connection is open, its queue and the inflight
    messages have room, and the client's own quota of unacknowledged messages allows
    them. *)
Record room (lim : limits) (cl : recipient) (n : nat) (s : outState) : Prop := {
  rm_open : rcOpen cl = true;
  rm_queue : osClosed s = false ∧ 0 < rcPending cl ∧ length (osQueue s) + n <= rcPending cl;
  rm_inflight : size (osInflight s) + n <= MaximumInflight lim;
  rm_ids : size (osInflight s) + n <= N.to_nat (maximumPacketID lim) ∧ (osPacketID s <= maximumPacketID lim < 65536)%N;
  rm_quota : (osMaximumSendQuota s <= 0)%Z ∨ (Z.of_nat n <= osSendQuota s)%Z;
}.

(** ** Lemmas: packet numbers *)

Lemma next_id_second fuel max started i used : (i <= started <= max)%N → (max < 65536)%N → (N.to_nat (started - i) < fuel) →
  match next_id_loop fuel max started i true used with
  | Some j => (0 < j <= max)%N ∧ used !! j = None
  | None => ∀ j, (i < j <= started)%N → is_Some (used !! j)
  end.
Proof.
  revert i. induction fuel as [|fuel IH]; intros i Hi Hm Hf; [lia|]. cbn [next_id_loop andb].
  destruct (N.eqb_spec i started) as [->|Hne]; [intros j Hj; lia|]. destruct (N.leb_spec max i) as [|_]; [lia|]. cbv zeta.
  rewrite N.mod_small by lia. destruct (used !! (i + 1)%N) as [p|] eqn:E; [|split; [lia|done]].
  pose proof (IH (i + 1)%N ltac:(lia) Hm ltac:(lia)) as H. destruct (next_id_loop _ _ _ _ _ _); [done|].
  intros j Hj. destruct (decide (j = (i + 1)%N)) as [->|]; [by rewrite E|]. apply H. lia.
Qed.

Lemma next_id_first fuel max started i used : (started <= i <= max)%N → (max < 65536)%N →
  (N.to_nat (max - i) + N.to_nat started + 1 < fuel) →
  match next_id_loop fuel max started i false used with
  | Some j => (0 < j <= max)%N ∧ used !! j = None
  | None => ∀ j, (i < j <= max ∨ 0 < j <= started)%N → is_Some (used !! j)
  end.
Proof.
  revert i. induction fuel as [|fuel IH]; intros i Hi Hm Hf; [lia|]. cbn [next_id_loop andb].
  destruct (N.leb_spec max i) as [Hle|Hlt].
  - pose proof (next_id_second fuel max started 0 used ltac:(lia) Hm ltac:(lia)) as H.
    destruct (next_id_loop _ _ _ _ _ _); [done|]. intros j [Hj|Hj]; [lia|]. by apply H.
  - cbv zeta. rewrite N.mod_small by lia. destruct (used !! (i + 1)%N) as [p|] eqn:E; [|split; [lia|done]].
    pose proof (IH (i + 1)%N ltac:(lia) Hm ltac:(lia)) as H. destruct (next_id_loop _ _ _ _ _ _); [done|].
    intros j Hj. destruct (decide (j = (i + 1)%N)) as [->|]; [by rewrite E|]. apply H. lia.
Qed.

(** As many numbers as messages at least: if all are taken, there are as many messages. *)
Lemma all_taken (used : gmap N Packet) n : (∀ j, (0 < j <= N.of_nat n)%N → is_Some (used !! j)) → n <= size used.
Proof.
  intros H. rewrite <-size_dom. transitivity (size (list_to_set (N.of_nat <$> seq 1 n) : gset N)).
  - rewrite size_list_to_set; [by rewrite length_fmap, length_seq|]. apply NoDup_fmap; [intros x y ?; lia|apply NoDup_seq].
  - apply subseteq_size. intros j. rewrite elem_of_list_to_set, list_elem_of_fmap. intros (k & -> & Hk%elem_of_seq).
    apply elem_of_dom, H. lia.
Qed.

(** A number is found exactly when one is free; it is one that is free. *)
Lemma NextPacketID_free lim s : (osPacketID s <= maximumPacketID lim < 65536)%N → size (osInflight s) < N.to_nat (maximumPacketID lim) →
  ∃ i, NextPacketID lim s = Some (i, s <| osPacketID := i |>) ∧ (0 < i <= maximumPacketID lim)%N ∧ osInflight s !! i = None.
Proof.
  intros Hp Hs. unfold NextPacketID. set (max := maximumPacketID lim) in *. cbv zeta.
  pose proof (next_id_first (2 * N.to_nat max + 3) max (osPacketID s) (osPacketID s) (osInflight s) ltac:(lia) ltac:(lia) ltac:(lia)) as H.
  destruct (next_id_loop _ _ _ _ _ _) as [i|]; [by exists i|]. exfalso.
  assert (N.to_nat max <= size (osInflight s)); [|lia]. apply all_taken. intros j Hj. apply H. lia.
Qed.

(** ** Lemmas: one delivery *)

Section DeliveryLemmas.
  Context (lim : limits) (cl : recipient) (readable : string → bool) (persisted dropped : Packet → bool).

(** The state after a delivery from [s]: what is pushed is read as [pk] by a client in
    step, and it stays in step; a packet less in the queue is a packet not sent. *)
Definition delivers (pk : Packet) (sent : bool) (s s' : outState) : Prop :=
  ∀ table, in_step s table →
    if sent then
      ∃ out table', osQueue s' = osQueue s ++ [out] ∧ pkPayload out = pkPayload pk ∧ read_topic out table = (Some (pkTopicName pk), table') ∧
        in_step s' table'
    else osQueue s' = osQueue s ∧ in_step s' table.

Lemma in_step_same s s' table : osAliases s' = osAliases s → osCursor s' = osCursor s → in_step s table → in_step s' table.
Proof. intros E1 E2 [H]. constructor. intros t a. rewrite E1, E2. apply H. Qed.

(** The fields that aliases do not touch. *)
Definition besides_aliases (s : outState) := (osInflight s, osPacketID s, osSendQuota s, osMaximumSendQuota s, osQueue s, osClosed s).

Lemma Aliases_Delete_frame topic id s : besides_aliases (Aliases_Delete topic id s) = besides_aliases s.
Proof. unfold Aliases_Delete. by case_bool_decide. Qed.

Lemma in_step_delete topic id s table : in_step s table → in_step (Aliases_Delete topic id s) table.
Proof.
  intros [H]. unfold Aliases_Delete. case_bool_decide; [|done]. constructor. cbn. intros t a [_ Ha]%lookup_delete_Some. by apply H.
Qed.

Lemma in_step_new topic s table : osAliases s !! topic = None → in_step s table → let a := (osCursor s + 1)%N in
  let s' := s <| osAliases := <[topic := a]> (osAliases s) |> <| osCursor := a |> in
  in_step s' (<[a := topic]> table) ∧ in_step (Aliases_Delete topic a s') table.
Proof.
  intros Hn [H] a s'. split.
  - constructor. cbn. intros t b [[<- <-]|[Hne Hb]]%lookup_insert_Some; [by rewrite lookup_insert_eq|].
    destruct (H _ _ Hb). rewrite lookup_insert_ne by (subst a; lia). split; [done|subst a; lia].
  - unfold Aliases_Delete. rewrite bool_decide_eq_true_2 by (cbn; by rewrite lookup_insert_eq). constructor. cbn.
    rewrite delete_insert_id by done. intros t b Hb. destruct (H _ _ Hb). split; [done|subst a; lia].
Qed.

Lemma reserve_alias_frame pk out s : let '(out', s') := reserve_alias cl pk out s in
  besides_aliases s' = besides_aliases s ∧ pkPayload out' = pkPayload out ∧ pkFixedHeader out' = pkFixedHeader out.
Proof.
  unfold reserve_alias, Aliases_Set. destruct (0 <? rcAliasMaximum cl)%N; [|done]. destruct (rcAliasMaximum cl =? 0)%N; [done|].
  destruct (osAliases s !! pkTopicName pk) as [a|]; [by destruct (0 <? a)%N|]. destruct (_ <? _)%N; [done|]. cbv zeta.
  by destruct (0 <? _)%N.
Qed.

Lemma reserve_alias_spec pk out s table : pkTopicName pk ≠ "" → pkTopicName out = pkTopicName pk →
  TopicAliasFlag (pkProperties out) = false → in_step s table →
  let '(out', s') := reserve_alias cl pk out s in
  (∃ table', read_topic out' table = (Some (pkTopicName pk), table') ∧ in_step s' table') ∧
  in_step (if (0 <? TopicAlias (pkProperties out'))%N then Aliases_Delete (pkTopicName pk) (TopicAlias (pkProperties out')) s' else s') table.
Proof.
  intros Hne Ht Hf Hin. assert (∀ s', in_step s' table → ∀ (b : bool) id, in_step (if b then Aliases_Delete (pkTopicName pk) id s' else s') table) as Hd.
  { intros s' H [] id; [by apply in_step_delete|done]. }
  assert (∀ out', pkTopicName out' = pkTopicName pk → TopicAliasFlag (pkProperties out') = false →
    ∃ table', read_topic out' table = (Some (pkTopicName pk), table') ∧ in_step s table') as Hr.
  { intros out' E1 E2. exists table. unfold read_topic. by rewrite E2, E1. }
  unfold reserve_alias, Aliases_Set. destruct (0 <? rcAliasMaximum cl)%N eqn:Em; [|split_and!; auto].
  destruct (N.eqb_spec (rcAliasMaximum cl) 0) as [E0|_]; [by rewrite E0 in Em|].
  destruct (osAliases s !! pkTopicName pk) as [a|] eqn:Ea.
  - destruct (0 <? a)%N eqn:E; [|split_and!; auto]. split; [|by apply Hd]. exists table. unfold read_topic. cbn.
    destruct Hin as [H]. by destruct (H _ _ Ea) as [-> _].
  - destruct (rcAliasMaximum cl <? osCursor s + 1)%N; [split_and!; auto|]. cbv zeta.
    destruct (N.ltb_spec 0 (osCursor s + 1)) as [_|]; [|lia]. destruct (in_step_new _ _ _ Ea Hin) as [H1 H2].
    split.
    + eexists. split; [|exact H1]. unfold read_topic. cbn. rewrite Ht. by apply String.eqb_neq in Hne as ->.
    + cbn [TopicAlias pkProperties]. cbn -[N.ltb N.add Aliases_Delete]. destruct (N.ltb_spec 0 (osCursor s + 1)) as [_|]; [done|lia].
Qed.

Lemma drop_outbound_frame d out err s : let '(err', s') := drop_outbound d out err s in
  err' ≠ None ∧ osQueue s' = osQueue s ∧ osAliases s' = osAliases s ∧ osCursor s' = osCursor s.
Proof.
  unfold drop_outbound, DeleteOutbound, IncreaseSendQuota. destruct (bool_decide _); [|done]. by destruct (_ <? _)%Z.
Qed.

Lemma tryPush_spec out s : let '(pushed, s') := tryPush cl out s in
  s' = (if pushed : bool then s <| osQueue := osQueue s ++ [out] |> else s) ∧
  (osClosed s = false → length (osQueue s) < rcPending cl → pushed = true).
Proof.
  unfold tryPush. destruct (osClosed s); [done|]. destruct (Nat.eqb_spec (rcPending cl) 0).
  - destruct (rcReady cl); [done|]. split; [done|lia].
  - destruct (Nat.eqb_spec (length (osQueue s)) (rcPending cl)); [split; [done|lia]|done].
Qed.

Lemma enqueue_delivers shared pk out s : pkTopicName pk ≠ "" → pkTopicName out = pkTopicName pk → pkPayload out = pkPayload pk →
  TopicAliasFlag (pkProperties out) = false →
  let '(_, err, s') := enqueue cl dropped shared pk out s in
  delivers pk (bool_decide (err = None)) s s' ∧
  (rcOpen cl = true → osClosed s = false → length (osQueue s) < rcPending cl → err = None ∧ osInflight s' = osInflight s ∧
     osPacketID s' = osPacketID s ∧ osSendQuota s' = osSendQuota s ∧ osMaximumSendQuota s' = osMaximumSendQuota s ∧ osClosed s' = false ∧
     length (osQueue s') = S (length (osQueue s))).
Proof.
  intros Hne Ht Hp Hf. unfold enqueue. destruct (rcOpen cl); cbn [negb].
  2:{ destruct (shared && _); [|by split; [intros table Hin|]]. pose proof (drop_outbound_frame (dropped out) out ErrDisconnect s) as H.
    destruct (drop_outbound _ _ _ _) as [err s']. destruct H as (He & Hq & Ha & Hc). split; [|done]. intros table Hin.
    rewrite bool_decide_eq_false_2 by done. split; [done|]. by apply (in_step_same s). }
  pose proof (λ table, reserve_alias_spec pk out s table Hne Ht Hf) as Hr. pose proof (reserve_alias_frame pk out s) as Hfr.
  destruct (reserve_alias cl pk out s) as [out' s1]. destruct Hfr as ([= F1 F2 F3 F4 F5 F6] & Hp' & Hh).
  pose proof (tryPush_spec out' s1) as Hpush. destruct (tryPush cl out' s1) as [[] s2]; destruct Hpush as [-> Hfull].
  - split; [|cbn; rewrite F1, F2, F3, F4, F5, F6, length_app; cbn; intros; split_and!; done || lia]. intros table Hin. destruct (Hr table Hin) as [(table' & Hread & Hin') _]. cbn.
    exists out', table'. rewrite F5. split_and!; [done|congruence|done|by apply (in_step_same s1)].
  - set (s2 := if (0 <? TopicAlias (pkProperties out'))%N then Aliases_Delete (pkTopicName pk) (TopicAlias (pkProperties out')) s1 else s1) in *.
    assert (besides_aliases s2 = besides_aliases s1) as [= G1 G2 G3 G4 G5 G6] by (unfold s2; destruct (0 <? _)%N; [apply Aliases_Delete_frame|done]).
    assert (∀ table, in_step s table → in_step s2 table) as Hin2 by (intros table Hin; by destruct (Hr table Hin)).
    rewrite F6, F5 in Hfull. assert (∀ X : Prop, osClosed s = false → length (osQueue s) < rcPending cl → X) as Hx.
    { intros X H1 H2. by specialize (Hfull H1 H2). }
    destruct (0 <? pkQoS out')%N; [|split; [intros table Hin; split; [congruence|auto]|intros _ H1 H2; by apply Hx]].
    pose proof (drop_outbound_frame (dropped out') out' ErrPendingClientWritesExceeded s2) as H.
    destruct (drop_outbound _ _ _ _) as [err s']. destruct H as (He & Hq & Ha & Hc). split; [|intros _ H1 H2; by apply Hx].
    intros table Hin. rewrite bool_decide_eq_false_2 by done. split; [congruence|]. apply (in_step_same s2); auto.
Qed.

Lemma delivers_from pk sent s s1 s' : osQueue s1 = osQueue s → osAliases s1 = osAliases s → osCursor s1 = osCursor s →
  delivers pk sent s1 s' → delivers pk sent s s'.
Proof. intros E1 E2 E3 H table Hin. specialize (H table). rewrite E1 in H. apply H. by apply (in_step_same s). Qed.

Lemma delivers_nothing pk s s' : osQueue s' = osQueue s → osAliases s' = osAliases s → osCursor s' = osCursor s → delivers pk false s s'.
Proof. intros E1 E2 E3 table Hin. split; [done|]. by apply (in_step_same s). Qed.

Lemma outgoing_fields fwd sub pk : let out := outgoing lim cl fwd sub pk in
  pkTopicName out = pkTopicName pk ∧ pkPayload out = pkPayload pk ∧ TopicAliasFlag (pkProperties out) = false.
Proof. unfold outgoing. cbv zeta. destruct (negb fwd && _); (destruct (Identifiers sub); [case_bool_decide|]; done). Qed.

Lemma room_step n s s' : room lim cl (S n) s → osClosed s' = false → length (osQueue s') = S (length (osQueue s)) →
  size (osInflight s') <= S (size (osInflight s)) → (osPacketID s' <= maximumPacketID lim)%N → osMaximumSendQuota s' = osMaximumSendQuota s →
  (osSendQuota s - 1 <= osSendQuota s')%Z → room lim cl n s'.
Proof. intros [Ho (Hc & Hq0 & Hq) Hi [Hid1 Hid2] Hs] H1 H2 H3 H4 H5 H6. constructor; [done|split_and!; [done|done|lia]|lia|lia|]. rewrite H5. lia. Qed.

Lemma DecreaseSendQuota_spec s : let s' := DecreaseSendQuota s in osInflight s' = osInflight s ∧ osPacketID s' = osPacketID s ∧
  osQueue s' = osQueue s ∧ osAliases s' = osAliases s ∧ osCursor s' = osCursor s ∧ osClosed s' = osClosed s ∧
  osMaximumSendQuota s' = osMaximumSendQuota s ∧ (osSendQuota s - 1 <= osSendQuota s')%Z.
Proof. unfold DecreaseSendQuota. destruct (_ <? _)%Z; cbn; split_and!; done || lia. Qed.

Lemma publish_numbered_delivers pk out s : pkTopicName pk ≠ "" → pkTopicName out = pkTopicName pk → pkPayload out = pkPayload pk →
  TopicAliasFlag (pkProperties out) = false →
  let '(_, err, s') := publish_numbered cl persisted dropped false pk out s in
  ∃ sent, delivers pk sent s s' ∧
    (∀ n, (∀ p, persisted p = true) → room lim cl (S n) s → osInflight s !! pkPacketID out = None → sent = true ∧ room lim cl n s').
Proof.
  intros Hne Ht Hp Hf. unfold publish_numbered, SetOutbound. cbv zeta. set (fresh := bool_decide _).
  set (s1 := s <| osInflight := _ |>).
  destruct (fresh && negb (persisted out)) eqn:Ep.
  { exists false. split; [|intros n H; rewrite H, andb_false_r in Ep; done]. unfold DeleteOutbound, IncreaseSendQuota.
    destruct (bool_decide (is_Some _)); [destruct (_ <? _)%Z|]; apply delivers_nothing; reflexivity. }
  set (s2 := if fresh then DecreaseSendQuota s1 else s1).
  assert (osInflight s2 = <[pkPacketID out := out]> (osInflight s) ∧ osPacketID s2 = osPacketID s ∧
    osQueue s2 = osQueue s ∧ osAliases s2 = osAliases s ∧ osCursor s2 = osCursor s ∧ osClosed s2 = osClosed s ∧
    osMaximumSendQuota s2 = osMaximumSendQuota s ∧ (osSendQuota s - 1 <= osSendQuota s2)%Z) as (E1 & E2 & E3 & E4 & E5 & E6 & E7 & E8).
  { unfold s2. destruct fresh; [apply (DecreaseSendQuota_spec s1)|cbn; split_and!; done || lia]. }
  destruct ((osSendQuota s =? 0)%Z && _) eqn:Eh.
  { exists false. split; [by apply delivers_nothing|]. intros n _ [_ _ _ _ Hq] _. apply andb_true_iff in Eh as [H1%Z.eqb_eq H2%Z.ltb_lt]. rewrite E7 in H2. lia. }
  pose proof (enqueue_delivers false pk out s2 Hne Ht Hp Hf) as H. destruct (enqueue _ _ _ _ _ _) as [[o err] s']. destruct H as [Hd Hr].
  exists (bool_decide (err = None)). split; [by apply (delivers_from _ _ _ s2)|]. intros n _ Hroom Hfree.
  pose proof Hroom as [Ho (Hc & Hq0 & Hq) Hi [Hid1 Hid2] Hs].
  destruct (Hr Ho ltac:(congruence) ltac:(rewrite E3; lia)) as (-> & F1 & F2 & F3 & F4 & F5 & F6). split; [done|].
  apply (room_step _ s); rewrite ?F1, ?F2, ?F3, ?F4, ?F6, ?E1, ?E2, ?E3, ?E7; try done; [|lia]. by rewrite map_size_insert_None.
Qed.

Lemma publish_delivers fwd sub pk s : pkTopicName pk ≠ "" →
  let '(_, err, s') := publishToClientMode lim cl readable persisted dropped false fwd sub pk s in
  ∃ sent, delivers pk sent s s' ∧ (wanted cl readable sub pk = false → sent = false ∧ s' = s) ∧
    (∀ n, wanted cl readable sub pk = true → (∀ p, persisted p = true) → room lim cl (S n) s → sent = true ∧ room lim cl n s').
Proof.
  intros Hne. unfold publishToClientMode, wanted. destruct (NoLocal sub && _); [by exists false; split; [apply delivers_nothing|]|].
  destruct (readable (pkTopicName pk)); cbn [negb andb]; [|by exists false; split; [apply delivers_nothing|]].
  destruct (outgoing_fields fwd sub pk) as (Ht & Hp & Hf). set (out := outgoing lim cl fwd sub pk) in *. cbv zeta.
  destruct (0 <? pkQoS out)%N.
  2:{ pose proof (enqueue_delivers false pk out s Hne Ht Hp Hf) as H. destruct (enqueue _ _ _ _ _ _) as [[o err] s']. destruct H as [Hd Hr].
    exists (bool_decide (err = None)). split_and!; [done|done|]. intros n _ _ Hroom. pose proof Hroom as [Ho (Hc & Hq0 & Hq) Hi [Hid1 Hid2] Hs].
    destruct (Hr Ho Hc ltac:(lia)) as (-> & E1 & E2 & E3 & E4 & E5 & E6). split; [done|]. apply (room_step _ s); rewrite ?E1; done || lia. }
  destruct (Nat.leb_spec (MaximumInflight lim) (size (osInflight s))) as [Hfull|_].
  { exists false. split_and!; [by apply delivers_nothing|done|]. intros n _ _ [? _ ? _ _]. lia. }
  destruct (NextPacketID lim s) as [[i s1]|] eqn:Eid.
  2:{ exists false. split_and!; [by apply delivers_nothing|done|]. intros n _ _ [_ _ _ [? ?] _].
    by destruct (NextPacketID_free lim s) as (? & E & _); [lia..|rewrite Eid in E]. }
  assert (s1 = s <| osPacketID := i |>) as -> by (unfold NextPacketID in Eid; cbv zeta in Eid; destruct (next_id_loop _ _ _ _ _ _); by simplify_eq).
  pose proof (publish_numbered_delivers pk (out <| pkPacketID := (i mod 65536)%N |>) (s <| osPacketID := i |>) Hne Ht Hp Hf) as H.
  destruct (publish_numbered _ _ _ _ _ _ _) as [[o err] s']. destruct H as (sent & Hd & Hr). exists sent.
  split_and!; [by apply (delivers_from _ _ s (s <| osPacketID := i |>))|done|]. intros n _ Hpers Hroom. pose proof Hroom as [Ho Hq Hi [Hid1 Hid2] Hs].
  destruct (NextPacketID_free lim s) as (j & E & Hj & Hfree); [lia..|]. rewrite Eid in E. injection E as <- _.
  apply (Hr n Hpers); [constructor; [done|done|done|cbn; lia|done]|]. cbn. by rewrite N.mod_small by lia.
Qed.
End DeliveryLemmas.
