(* ===== verification/Backfill.v ===== *)
(** Retained messages that other nodes hold, and devices that register themselves:
    deliverRetainedBackfill, OnRetainMessage and autoProvision in
    internal/broker/hooks.go, with the server's own delivery of retained messages
    (publishRetainedToClient in server.go, over Delivery).

    The retained packets of the local index for a filter and the decision of
    OnACLCheck are arguments; the index is the same for the server and for the
    backfill that runs beside it. A write of the backfill that fails is logged and the
    next one follows, so its packets are those that are written, in order. *)
From stdpp Require Import gmap list strings.
From S2P Require Import Prelude GoStrings Effects Decimal Json Acl Topics Codec Properties Packets Retained Delivery.

(** ** Retained messages *)

Section Backfill.
  Context {S : Type} `{!RetainedRedis S}.
  (** Topics.Messages of the node, absent without a server; OnACLCheck for reading. *)
  Context (messages : option (string → list Packet)) (readable : string → bool).

Definition exclude (f : string) : gset string :=
  match messages with None => ∅ | Some local => list_to_set (pkTopicName <$> local f) end.

Definition backfill_filter (f : Subscription) (s : S) : list RetainedMessage :=
  if IsSharedFilter (Filter f) then []
  else match Match (Filter f) (exclude (Filter f)) s with
       | None => []
       | Some msgs => List.filter (λ m, readable (rmTopic m)) msgs
       end.

Definition deliverRetainedBackfill (filters : list Subscription) (s : S) : list RetainedMessage :=
  concat ((λ f, backfill_filter f s) <$> filters).

(** Without a store, or with a Redis that fails, nothing is kept. *)
Definition OnRetainMessage (hasStore : bool) (topic payload : string) (s : S) : S :=
  if hasStore then (retained_Set topic payload s).1 else s.
End Backfill.

(** The server's part, over the retained packets of the filter. *)
Section RetainedToClient.
  Context (lim : limits) (cl : recipient) (readable : string → bool) (persisted dropped : Packet → bool).

(** A delivery that fails is logged, and the next one follows. *)
Fixpoint publish_retained_loop (sub : Subscription) (pks : list Packet) (s : outState) : outState :=
  match pks with
  | [] => s
  | pkv :: pks => publish_retained_loop sub pks (publishToClient lim cl readable persisted dropped true sub pkv s).2
  end.

(** [existed]: the client had the subscription. *)
Definition publishRetainedToClient (local : string → list Packet) (sub : Subscription) (existed : bool) (s : outState) : outState :=
  if IsSharedFilter (Filter sub) then s
  else if ((RetainHandling sub =? 1)%N && existed) || (RetainHandling sub =? 2)%N then s
  else publish_retained_loop sub (local (Filter sub)) s.
End RetainedToClient.

(** ** Auto-provisioning *)

Inductive provisionAsk : Type → Type :=
  | NewRequest (endpoint : string) : provisionAsk bool
  | Post (endpoint body : string) : provisionAsk (option N)
  | Sleep (seconds : Z) : provisionAsk unit.

Inductive provisionOutcome := ProvisionCreated | ProvisionExists | ProvisionError.

Open Scope proc_scope.

(** json.Marshal of the body, map keys in order *)
Definition autoProvBody (deviceID : string) : string :=
  print (JObj [("name", JStr deviceID); ("tags", JObj [("cert_auth", JBool true); ("source", JStr "auto-provisioned")])]).

Definition maxAttempts : nat := 3.

(** [attempts] remain, this one included. *)
Fixpoint provision_loop (attempts : nat) (backoff : Z) (endpoint body : string) : proc provisionAsk provisionOutcome :=
  match attempts with
  | O => Done ProvisionError
  | S attempts =>
      ok <- request (NewRequest endpoint);;
      if negb ok then Done ProvisionError
      else
        status <- request (Post endpoint body);;
        let retry :=
          match attempts with
          | O => provision_loop attempts backoff endpoint body
          | S _ => (request (Sleep backoff);; provision_loop attempts (backoff * 2) endpoint body)
          end in
        match status with
        | None => retry
        | Some code =>
            if (code =? 201)%N || (code =? 200)%N then Done ProvisionCreated
            else if (code =? 409)%N then Done ProvisionExists
            else retry
        end
  end.

Definition autoProvision (autoProvURL tenantID deviceID : string) : proc provisionAsk provisionOutcome :=
  if String.eqb autoProvURL "" then Done ProvisionError
  else provision_loop maxAttempts 1 (autoProvURL +:+ "/api/v1/tenants/" +:+ tenantID +:+ "/devices") (autoProvBody deviceID).

(** ** Lemmas *)

(** The retain handling of the subscription asks for retained messages. *)
Definition asks_retained (sub : Subscription) (existed : bool) : bool :=
  negb (((RetainHandling sub =? 1)%N && existed) || (RetainHandling sub =? 2)%N).

Definition message_of (pk : Packet) : option string * string := (Some (pkTopicName pk), pkPayload pk).

Section BackfillLemmas.
  Context {S : Type} `{!RetainedRedis S} `{!RetainedRedisLaws S}.
  Context (local : string → list Packet) (readable : string → bool).

Lemma elem_of_exclude f t : t ∈ exclude (Some local) f ↔ ∃ pk, pk ∈ local f ∧ pkTopicName pk = t.
Proof. unfold exclude. rewrite elem_of_list_to_set, list_elem_of_fmap. naive_solver. Qed.

Lemma elem_of_backfill (s : S) m f t p : retained_ok s m → Match (Filter f) (exclude (Some local) (Filter f)) s ≠ None →
  IsSharedFilter (Filter f) = false →
  mkRetainedMessage t p ∈ backfill_filter (Some local) readable f s ↔
    m !! t = Some p ∧ MatchTopic (Filter f) t = true ∧ readable t = true ∧ ¬ ∃ pk, pk ∈ local (Filter f) ∧ pkTopicName pk = t.
Proof.
  intros Hok Hm Hs. unfold backfill_filter. rewrite Hs. destruct (Match _ _ s) as [msgs|] eqn:E; [|done].
  rewrite list_elem_of_In, filter_In, <-list_elem_of_In, (Match_spec _ _ _ _ _ Hok E), elem_of_exclude. cbn. tauto.
Qed.
End BackfillLemmas.

Section LocalLemmas.
  Context (lim : limits) (cl : recipient) (readable : string → bool) (persisted dropped : Packet → bool) (sub : Subscription).

Abbreviation is_wanted := (wanted cl readable sub).

Lemma publish_retained_reads pks s table : Forall (λ pk, pkTopicName pk ≠ "") pks → in_step s table →
  let s' := publish_retained_loop lim cl readable persisted dropped sub pks s in
  ∃ sent, osQueue s' = osQueue s ++ sent ∧ sublist (read_messages sent table) (message_of <$> List.filter is_wanted pks) ∧
    ((∀ p, persisted p = true) → room lim cl (length (List.filter is_wanted pks)) s →
     read_messages sent table = message_of <$> List.filter is_wanted pks).
Proof.
  revert s table. induction pks as [|pk pks IH]; intros s table Ht Hin; cbn [publish_retained_loop List.filter].
  { exists []. by rewrite app_nil_r. }
  apply Forall_cons in Ht as [Hne Ht]. pose proof (publish_delivers lim cl readable persisted dropped true sub pk s Hne) as H.
  unfold publishToClient. destruct (publishToClientMode _ _ _ _ _ _ _ _ _ _) as [[out err] s1]. destruct H as (sent & Hd & Hno & Hroom).
  specialize (Hd table Hin). cbn [snd]. destruct sent.
  - destruct Hd as (o & table' & Hq & Hp & Hr & Hin'). destruct (wanted cl readable sub pk) eqn:Ew; [|by destruct (Hno eq_refl)].
    destruct (IH s1 table' Ht Hin') as (sent & Eq & Hs & He). exists (o :: sent). rewrite Eq, Hq. split; [by rewrite <-app_assoc|].
    cbn [read_messages]. rewrite Hr, Hp. cbn [fmap list_fmap]. split; [by apply sublist_skip|].
    intros Hper Hrm. destruct (Hroom _ eq_refl Hper Hrm) as [_ Hrm']. by rewrite He.
  - destruct Hd as [Hq Hin']. destruct (IH s1 table Ht Hin') as (sent & Eq & Hs & He). exists sent. rewrite Eq, Hq. split; [done|].
    destruct (wanted cl readable sub pk) eqn:Ew.
    + split; [cbn; by apply sublist_cons|]. intros Hper Hrm. by destruct (Hroom _ eq_refl Hper Hrm).
    + split; [done|]. intros Hper Hrm. apply He; [done|]. by destruct (Hno eq_refl) as [_ ->].
Qed.
End LocalLemmas.

(** ** Claims *)


(** A node whose copy is older than the message in Redis, a client with topic aliases. *)
Module BackfillSamples.
Definition copy : Packet := no_packet <| pkFixedHeader := mkFixedHeader 0 Publish 1 false true |> <| pkTopicName := "a/b" |> <| pkPayload := "20" |>.
Definition sub : Subscription := mkSubscription "a/+" 0 None 0 1 false true.
Definition cl : recipient := mkRecipient "c1" 5 true 8 64 false.
Definition lim : limits := mkLimits 2 16 65535.
Definition st : outState := mkOutState ∅ 3 16 16 {["x" := 1%N]} 1 [] false.
End BackfillSamples.


(** The POST requests with their answers, and the pauses, of a run. *)
Definition posts (tr : list (event provisionAsk)) : list (option N) :=
  omap (λ ev, match ev with @Event _ _ e x => match e in provisionAsk X return X → option (option N) with
    | Post _ _ => λ status, Some status | _ => λ _, None end x end) tr.
Definition pauses (tr : list (event provisionAsk)) : list Z :=
  omap (λ ev, match ev with @Event _ _ e x => match e with Sleep d => Some d | _ => None end end) tr.

(** An answer that ends the attempts. *)
Definition final_status (status : option N) : option provisionOutcome :=
  match status with
  | None => None
  | Some code => if (code =? 201)%N || (code =? 200)%N then Some ProvisionCreated else if (code =? 409)%N then Some ProvisionExists else None
  end.

(** What a run of the loop has done: all answers but the last ask for another attempt,
    and the pauses double. *)
Definition provisioned (attempts : nat) (backoff : Z) (o : provisionOutcome) (tr : list (event provisionAsk)) : Prop :=
  length (posts tr) <= attempts ∧ pauses tr = (λ i, (backoff * 2 ^ Z.of_nat i)%Z) <$> seq 0 (length (pauses tr)) ∧
  length (pauses tr) <= attempts - 1 ∧
  match o with
  | ProvisionError => Forall (λ status, final_status status = None) (posts tr)
  | _ => ∃ l status, posts tr = l ++ [status] ∧ Forall (λ status, final_status status = None) l ∧ final_status status = Some o
  end.

Lemma doubled b n : (λ i, (b * 2 * 2 ^ Z.of_nat i)%Z) <$> seq 0 n = (λ i, (b * 2 ^ Z.of_nat i)%Z) <$> seq 1 n.
Proof.
  rewrite <-(fmap_S_seq 0). rewrite <-list_fmap_compose. apply list_fmap_ext. intros _ i _. cbn -[Z.of_nat Z.pow].
  rewrite Nat2Z.inj_succ, Z.pow_succ_r by lia. ring.
Qed.

(** A run after an answer that asks for another attempt and a pause. *)
Lemma provisioned_retry attempts b o tr endpoint body status :
  final_status status = None → provisioned (S attempts) (b * 2) o tr →
  provisioned (S (S attempts)) b o (Event (NewRequest endpoint) true :: Event (Post endpoint body) status :: Event (Sleep b) tt :: tr).
Proof.
  intros Hf (H1 & H2 & H3 & H4). unfold provisioned, posts, pauses in *. cbn [omap list_omap length] in *. split_and!; [lia| |lia|].
  - cbn [seq fmap list_fmap]. f_equal; [cbn; lia|]. rewrite H2 at 1. apply doubled.
  - destruct o; [destruct H4 as (l & st & E & Hl & Hst); exists (status :: l), st; rewrite E; by split_and!; [|constructor|]..|by constructor].
Qed.

Lemma provision_loop_runs attempts b endpoint body o tr :
  runs (provision_loop attempts b endpoint body) o tr → provisioned attempts b o tr.
Proof.
  revert b o tr. induction attempts as [|n IH]; intros b o tr; cbn [provision_loop].
  { intros [-> ->]. unfold provisioned. cbn. split_and!; [lia|done|lia|constructor]. }
  intros (ok & tr1 & -> & H). destruct ok; cbn [negb] in H.
  2:{ destruct H as [-> ->]. unfold provisioned. cbn. split_and!; [lia|done|lia|constructor]. }
  destruct H as (status & tr2 & -> & H). cbv zeta in H.
  assert (final_status status = None → runs (match n with 0 => provision_loop n b endpoint body
      | S _ => (request (Sleep b);; provision_loop n (b * 2) endpoint body) end) o tr2 →
    provisioned (S n) b o (Event (NewRequest endpoint) true :: Event (Post endpoint body) status :: tr2)) as Hretry.
  { intros Hf Hr. destruct n as [|n].
    - cbn in Hr. destruct Hr as [-> ->]. unfold provisioned. cbn. split_and!; [lia|done|lia|by repeat constructor].
    - apply runs_bind in Hr as ([] & tr3 & tr4 & E3 & H4 & ->). apply runs_request in E3 as ->. cbn [app]. apply provisioned_retry; [done|by apply IH]. }
  unfold final_status in Hretry. cbn [proc_bind] in H. destruct status as [code|]; [|by apply Hretry].
  destruct (_ || _) eqn:E1; [|destruct (code =? 409)%N eqn:E2; [|by apply Hretry]];
    destruct H as [-> ->]; unfold provisioned; cbn; (split_and!; [lia|done|lia|]); exists [], (Some code);
    (split_and!; [done|constructor|]); unfold final_status; by rewrite E1, ?E2.
Qed.

(** Registering a device ends after at most three requests: each is made only if
    the answers before it asked for another attempt, with pauses of one and two
    seconds in between; the device counts as created or existing exactly when the last
    answer says so, and without a URL nothing is sent. *)
Theorem provisioning_is_bounded autoProvURL tenantID deviceID o tr : runs (autoProvision autoProvURL tenantID deviceID) o tr →
  length (posts tr) <= 3 ∧ pauses tr = take (length (pauses tr)) [1; 2]%Z ∧
  match o with
  | ProvisionError => Forall (λ status, final_status status = None) (posts tr)
  | _ => ∃ l status, posts tr = l ++ [status] ∧ Forall (λ status, final_status status = None) l ∧ final_status status = Some o
  end ∧ (autoProvURL = "" → tr = []).
Proof.
  unfold autoProvision. destruct (String.eqb_spec autoProvURL "") as [E|E].
  - intros [-> ->]. split_and!; [cbn; lia|done|constructor|done].
  - intros (H1 & H2 & H3 & H4)%provision_loop_runs. split_and!; [done| |done|done]. rewrite H2 at 1. unfold maxAttempts in H3.
    destruct (length (pauses tr)) as [|[|[|n]]]; [done|done|done|lia].
Qed.

Lemma provisioning_is_bounded_witness :
  let p := autoProvision "http://dm" "ten" "dev" in
  let tr := [Event (NewRequest "http://dm/api/v1/tenants/ten/devices") true; Event (Post "http://dm/api/v1/tenants/ten/devices" (autoProvBody "dev")) (Some 503%N);
    Event (Sleep 1) tt; Event (NewRequest "http://dm/api/v1/tenants/ten/devices") true;
    Event (Post "http://dm/api/v1/tenants/ten/devices" (autoProvBody "dev")) (Some 409%N)] in
  runs p ProvisionExists tr ∧ length (posts tr) <= 3.
Proof.
  cbv zeta. match goal with |- ?A ∧ _ => assert A as H end.
  - repeat (eexists; eexists; split; [reflexivity|cbn]). split; reflexivity.
  - split; [exact H|]. apply (provisioning_is_bounded "http://dm" "ten" "dev" ProvisionExists). exact H.
Defined.
