(* ===== verification/Commander.v ===== *)
(** Commands from the platform to devices: internal/commander/commander.go and the
    consumer loop of vendor-pkg/redpanda/consumer.go.

    A json.RawMessage is the text of its value; the reader keeps it beside the values
    of the object ([raw_members]). The answer of server.Publish and the request ID
    are arguments. The consumer is a fold over the polls of the Kafka client: what is
    polled moves the position, and CommitUncommittedOffsets commits the position. *)
From stdpp Require Import gmap list strings.
From S2P Require Import Prelude GoStrings Base64 Decimal Codec Json.

(** ** Raw values *)

(** The members of an object with the text of each value. *)
Fixpoint raw_members (fuel : nat) (s : string) : option (list (string * (json * string)) * string) :=
  match fuel with
  | O => None
  | S fuel =>
      match skip_ws s with
      | String c s1 =>
          if negb (Ascii.eqb c dq) then None
          else
            '(k, rest) ← unquote (S (String.length s1)) s1;
            match skip_ws rest with
            | String ":" rest =>
                let text := skip_ws rest in
                '(v, rest) ← parse_value fuel text;
                let raw := take_bytes (String.length text - String.length rest) text in
                match skip_ws rest with
                | String "," rest => '(l, rest) ← raw_members fuel rest; Some ((k, (v, raw)) :: l, rest)
                | String "}" rest => Some ([(k, (v, raw))], rest)
                | _ => None
                end
            | _ => None
            end
      | "" => None
      end
  end.

(** A document that is an object; [None] for an error, an empty list for {} and null. *)
Definition raw_object (data : string) : option (list (string * (json * string))) :=
  match skip_ws data with
  | String "{" s =>
      match skip_ws s with
      | String "}" rest => if String.eqb (skip_ws rest) "" then Some [] else None
      | _ =>
          '(l, rest) ← raw_members (S (S (2 * String.length data))) s;
          if String.eqb (skip_ws rest) "" then Some l else None
      end
  | s => if has_prefix "null" s && String.eqb (skip_ws (drop_bytes 4 s)) "" then Some [] else None
  end.

(** The line and paragraph separators U+2028 and U+2029 as escapes. *)
Fixpoint escape_separators (s : string) : string :=
  match s with
  | "" => ""
  | String c s' =>
      match s' with
      | String b (String d s3) =>
          if Ascii.eqb c byte_E2 && (N_of_ascii b =? 128)%N && ((N_of_ascii d =? 168)%N || (N_of_ascii d =? 169)%N)
          then escape_u (8232 + (N_of_ascii d - 168)) +:+ escape_separators s3 else String c (escape_separators s')
      | _ => String c (escape_separators s')
      end
  end.

(** compact of encoding/json with HTML escaping, as RawMessage is marshalled. *)
Fixpoint compact (inString escaped : bool) (s : string) : string :=
  match s with
  | "" => ""
  | String c s' =>
      if Ascii.eqb c "<" || Ascii.eqb c ">" || Ascii.eqb c "&" then escape_u (N_of_ascii c) +:+ compact inString false s'
      else if inString then String c (compact (escaped || negb (Ascii.eqb c dq)) (negb escaped && Ascii.eqb c bs) s')
      else if Ascii.eqb c " " || Ascii.eqb c "009" || Ascii.eqb c "010" || Ascii.eqb c "013" then compact false false s'
      else String c (compact (Ascii.eqb c dq) false s')
  end.

(** ** Commands *)

Record Command := mkCommand { cmDeviceID : string; cmTenantID : string; cmType : string; cmPayload : option string }.

Definition command_names : list string := ["device_id"; "tenant_id"; "type"; "payload"].

Definition set_command (name : string) (v : json) (raw : string) (c : Command) : option Command :=
  if String.eqb name "device_id" then (λ s, mkCommand s (cmTenantID c) (cmType c) (cmPayload c)) <$> into_string v (cmDeviceID c)
  else if String.eqb name "tenant_id" then (λ s, mkCommand (cmDeviceID c) s (cmType c) (cmPayload c)) <$> into_string v (cmTenantID c)
  else if String.eqb name "type" then (λ s, mkCommand (cmDeviceID c) (cmTenantID c) s (cmPayload c)) <$> into_string v (cmType c)
  else Some (mkCommand (cmDeviceID c) (cmTenantID c) (cmType c) (Some raw)).

Definition Command_Unmarshal (data : string) : option Command :=
  l ← raw_object data;
  fold_left (λ acc kv,
    c ← acc;
    match field_named command_names kv.1 with Some n => set_command n kv.2.1 kv.2.2 c | None => Some c end)
    l (Some (mkCommand "" "" "" None)).

(** The topic and payload that are published with QoS 1. *)
Definition command_message (reqID : string) (c : Command) : string * string :=
  let subject := if String.eqb (cmType c) "" then "req" else cmType c in
  if negb (String.eqb (cmTenantID c) "") then
    ("command/" +:+ cmTenantID c +:+ "//" +:+ cmDeviceID c +:+ "/req/" +:+ reqID +:+ "/" +:+ subject, default "" (cmPayload c))
  else
    let raw := match cmPayload c with Some raw => compact false false (escape_separators raw) | None => "null" end in
    ("command/" +:+ cmDeviceID c,
     "{" +:+ quote "payload" +:+ ":" +:+ raw +:+ "," +:+ quote "type" +:+ ":" +:+ quote (cmType c) +:+ "}").

(** handle: what is published, if anything. *)
Definition handle (reqID value : string) : option (string * string) :=
  match Command_Unmarshal value with
  | None => None
  | Some c => if String.eqb (cmDeviceID c) "" then None else Some (command_message reqID c)
  end.

(** ** The consumer *)

(** A poll: the records it returns, whether it reports fetch errors, and whether the
    commit that would follow succeeds. *)
Record poll := mkPoll { plRecords : list string; plErrors : bool; plCommit : bool }.

(** [cnPolled] and [cnCommitted] are positions in the log; [cnHandled] are the records
    given to the handler, in order; [cnFailed] tells that Run has returned an error. *)
Record consumer := mkConsumer { cnPolled : nat; cnCommitted : nat; cnHandled : list string; cnFailed : bool }.

Definition NewConsumer : consumer := mkConsumer 0 0 [] false.

(** One round of the loop; an error of the handler is only printed. *)
Definition Run_round (p : poll) (c : consumer) : consumer :=
  if cnFailed c then c
  else
    let polled := cnPolled c + length (plRecords p) in
    if plErrors p then mkConsumer polled (cnCommitted c) (cnHandled c) false
    else
      let handled := (cnHandled c ++ plRecords p)%list in
      if plCommit p then mkConsumer polled polled handled false else mkConsumer polled (cnCommitted c) handled true.

Definition Run (polls : list poll) (c : consumer) : consumer := fold_left (λ c p, Run_round p c) polls c.

(** ** Lemmas *)

Lemma take_bytes_all p s : take_bytes (String.length (p +:+ s) - String.length s) (p +:+ s) = p.
Proof. rewrite string_length_app. replace (String.length p + String.length s - String.length s)%nat with (String.length p) by lia. apply take_bytes_app. Qed.

(** The members of a printed object, with their texts. *)
Lemma raw_members_print l fuel rest : l ≠ [] →
  Forall (λ kv, utf8_Valid kv.1 = true ∧ printable kv.2) l →
  (2 * String.length (join "," (map (λ '(k, v), quote k +:+ String ":" (print v)) l) +:+ String "}" rest) < fuel)%nat →
  raw_members fuel (join "," (map (λ '(k, v), quote k +:+ String ":" (print v)) l) +:+ String "}" rest) =
    Some (map (λ '(k, v), (k, (v, print v))) l, rest).
Proof.
  intros Hne. revert fuel Hne. induction l as [|[k v] l IH]; intros fuel Hne Hp Hf; [done|].
  apply Forall_cons in Hp as [[Hk Hpv] Hp]. destruct fuel as [|fuel]; [lia|]. simpl in Hk, Hpv.
  assert (∀ tail, (String.length tail < String.length (quote k +:+ tail))%nat) as Hlen.
  { intros tail. rewrite string_length_app. unfold quote. simpl. lia. }
  assert (∀ tail, skip_ws (print v +:+ tail) = print v +:+ tail) as Hws.
  { intros tail. destruct (printable_first v tail Hpv) as (c & s & -> & Hs & _). exact Hs. }
  cbn [raw_members map] in *. destruct l as [|w l].
  - cbn [map join] in *. rewrite <-!string_app_assoc, !string_app_cons in *.
    destruct (quote_parse k (String ":" (print v +:+ String "}" rest)) Hk) as (t & Et & Hu).
    specialize (Hlen (String ":" (print v +:+ String "}" rest))). rewrite Et in *.
    cbn [skip_ws Ascii.eqb Bool.eqb orb negb dq]. rewrite Hu. cbn [mbind option_bind skip_ws Ascii.eqb Bool.eqb orb].
    cbn [String.length] in *. change ("}" +:+ rest) with (String "}" rest) in *. rewrite Hws, (parse_print v) by (done || lia).
    cbn [mbind option_bind]. rewrite take_bytes_all. done.
  - cbn [map] in *. rewrite join_cons, <-!string_app_assoc, !string_app_cons in *.
    set (more := join "," (_ :: map _ l) +:+ String "}" rest) in *.
    destruct (quote_parse k (String ":" (print v +:+ String "," more)) Hk) as (t & Et & Hu).
    specialize (Hlen (String ":" (print v +:+ String "," more))). rewrite Et in *.
    cbn [skip_ws Ascii.eqb Bool.eqb orb negb dq]. rewrite Hu. cbn [mbind option_bind skip_ws Ascii.eqb Bool.eqb orb].
    cbn [String.length] in *. rewrite Hws, (parse_print v) by (done || lia). cbn [mbind option_bind]. rewrite take_bytes_all.
    cbn [skip_ws Ascii.eqb Bool.eqb orb].
    rewrite string_length_app in Hlen. cbn [String.length] in Hlen. unfold more in *. rewrite IH by (done || lia). done.
Qed.

Lemma raw_object_print kv l : Forall (λ kv, utf8_Valid kv.1 = true ∧ printable kv.2) (kv :: l) →
  raw_object (print (JObj (kv :: l))) = Some (map (λ '(k, v), (k, (v, print v))) (kv :: l)).
Proof.
  intros Hp. unfold raw_object. cbn [print]. set (text := join _ _). cbn [skip_ws Ascii.eqb Bool.eqb orb].
  assert (∃ s, text +:+ "}" = String dq s) as [s E].
  { unfold text. destruct kv as [k v]. cbn [map]. destruct (map _ l); [by eexists|]. rewrite join_cons. by eexists. }
  pose proof (raw_members_print (kv :: l) (S (S (2 * String.length (String "{" (text +:+ "}"))))) "" ltac:(done) Hp) as H.
  fold text in H. change (String "}" "") with "}" in H. rewrite E in *. cbn [skip_ws Ascii.eqb Bool.eqb orb dq]. rewrite H; [done|]. cbn [String.length]. lia.
Qed.

Lemma Command_Unmarshal_print d t ty v : utf8_Valid d = true → utf8_Valid t = true → utf8_Valid ty = true → printable v →
  Command_Unmarshal (print (JObj [("device_id", JStr d); ("tenant_id", JStr t); ("type", JStr ty); ("payload", v)])) =
    Some (mkCommand d t ty (Some (print v))).
Proof.
  intros Hd Ht Hty Hv. unfold Command_Unmarshal. rewrite raw_object_print by (repeat constructor; done). cbn [map].
  generalize (print v), (print (JStr d)), (print (JStr t)), (print (JStr ty)). reflexivity.
Qed.

(** ** Claims *)

(** A command reaches the topic of its device with its payload unchanged. The
    message the platform writes for a device of a tenant is published on the Hono topic
    command/<tenant>//<device>/req/<request>/<subject>, "req" standing for a missing type,
    with the JSON text of the payload as it was written; one without tenant on
    command/<device>. Text that is not a JSON object with string fields, or has no device,
    publishes nothing. *)
Theorem command_is_published_unchanged reqID d t ty v :
  utf8_Valid d = true → utf8_Valid t = true → utf8_Valid ty = true → printable v → d ≠ "" →
  handle reqID (print (JObj [("device_id", JStr d); ("tenant_id", JStr t); ("type", JStr ty); ("payload", v)])) =
    Some (if String.eqb t "" then
            ("command/" +:+ d,
             "{" +:+ quote "payload" +:+ ":" +:+ compact false false (escape_separators (print v)) +:+ "," +:+ quote "type" +:+ ":" +:+ quote ty +:+ "}")
          else
            ("command/" +:+ t +:+ "//" +:+ d +:+ "/req/" +:+ reqID +:+ "/" +:+ (if String.eqb ty "" then "req" else ty), print v)) ∧
  ∀ value, (Command_Unmarshal value = None ∨ (cmDeviceID <$> Command_Unmarshal value) = Some "") → handle reqID value = None.
Proof.
  intros Hd Ht Hty Hv Hne. split.
  - unfold handle. rewrite Command_Unmarshal_print by done. cbn [cmDeviceID]. destruct (String.eqb_spec d ""); [done|]. unfold command_message.
    cbn [cmDeviceID cmTenantID cmType cmPayload]. by destruct (String.eqb_spec t "").
  - intros value [H|H]; unfold handle; [by rewrite H|]. destruct (Command_Unmarshal value) as [c|]; [|done]. injection H as ->. done.
Qed.

Lemma command_is_published_unchanged_witness :
  handle "r1" (print (JObj [("device_id", JStr "dev"); ("tenant_id", JStr "ten"); ("type", JStr "modify"); ("payload", JObj [("on", JBool true)])])) =
    Some ("command/ten//dev/req/r1/modify", print (JObj [("on", JBool true)])).
Proof. apply (command_is_published_unchanged "r1" "dev" "ten" "modify" (JObj [("on", JBool true)])); try reflexivity; [split; [split; reflexivity|exact I]|discriminate]. Defined.

(** The records of the polls without errors, and the position after the last of them. *)
Definition good_records (polls : list poll) : list string := concat (plRecords <$> List.filter (λ p, negb (plErrors p)) polls).

(** The consumer handles a record at most once and commits what it did not handle. As
    long as commits succeed, the handler is given exactly the records of the polls
    without fetch errors, each once and in order. Records that a poll returns beside a
    fetch error are never handled, and the commit after the next poll covers
    them, as it covers those whose handler failed. *)
Theorem consumer_commits_unhandled_records polls :
  Forall (λ p, plCommit p = true) polls →
  cnHandled (Run polls NewConsumer) = good_records polls ∧
  (∀ p, plErrors p = false → plCommit p = true →
     cnCommitted (Run (polls ++ [p]) NewConsumer) = length (concat (plRecords <$> (polls ++ [p])))).
Proof.
  assert (∀ polls c, cnFailed c = false → Forall (λ p, plCommit p = true) polls →
    cnHandled (Run polls c) = (cnHandled c ++ good_records polls)%list ∧ cnPolled (Run polls c) = cnPolled c + length (concat (plRecords <$> polls)) ∧
    cnFailed (Run polls c) = false) as H.
  { clear polls. induction polls as [|p polls IH]; intros c Hf Hc; [cbn; rewrite app_nil_r; split_and!; [done|lia|done]|].
    apply Forall_cons in Hc as [Hp Hc]. unfold Run. cbn [fold_left]. fold (Run polls (Run_round p c)).
    assert (cnFailed (Run_round p c) = false ∧ cnHandled (Run_round p c) = (cnHandled c ++ (if plErrors p then [] else plRecords p))%list ∧
      cnPolled (Run_round p c) = cnPolled c + length (plRecords p)) as (F1 & F2 & F3).
    { unfold Run_round. rewrite Hf, Hp. destruct (plErrors p); cbn; rewrite ?app_nil_r; done. }
    destruct (IH _ F1 Hc) as (E1 & E2 & E3). rewrite E1, E2, E3, F2, F3. unfold good_records. cbn [fmap list_fmap List.filter concat].
    rewrite length_app. split_and!; [|lia|done]. destruct (plErrors p); cbn; by rewrite <-app_assoc. }
  intros Hc. destruct (H polls NewConsumer eq_refl Hc) as (E1 & E2 & E3). split; [exact E1|]. intros p He Hp.
  unfold Run. rewrite fold_left_app. fold (Run polls NewConsumer). cbn [fold_left]. unfold Run_round. rewrite E3, He, Hp. cbn [cnCommitted].
  rewrite E2, fmap_app, concat_app, length_app. cbn. rewrite app_nil_r. done.
Qed.

(** A poll with an error on another partition, then one without. *)
Lemma consumer_commits_unhandled_records_witness :
  let polls := [mkPoll ["a"] true true] in
  cnHandled (Run (polls ++ [mkPoll ["b"] false true]) NewConsumer) = ["b"] ∧
  cnCommitted (Run (polls ++ [mkPoll ["b"] false true]) NewConsumer) = 2.
Proof.
  cbv zeta. split; [reflexivity|].
  apply (consumer_commits_unhandled_records [mkPoll ["a"] true true]); [repeat constructor|reflexivity|reflexivity].
Defined.
