(* ===== verification/Readiness.v ===== *)
(** Whether a node may be sent traffic: the certificate reloader
    (internal/broker/cert_reloader.go) and the readiness probe (cmd/server/readyz.go).

    What the certificate files hold at a moment is a function of the time. The watcher
    is a transition system: file events, which restart a timer, and the timer, which
    reloads. Times are in milliseconds. *)
From S2P Require Import Prelude.

(** ** CertReloader *)

Record certificate := mkCertificate { certName : string; NotAfter : Z }.

(** What the key pair and its leaf come to. *)
Inductive keyPair := LoadFailed | EmptyChain | LeafUnparsable | Leaf (c : certificate).

Inductive reloadError := ErrLoad | ErrEmptyChain | ErrParseLeaf | ErrExpired (notAfter : Z).

Record CertReloader := mkCertReloader { rlCert : option certificate; rlErr : option reloadError }.

Definition setError (e : reloadError) (r : CertReloader) : CertReloader := mkCertReloader (rlCert r) (Some e).

Definition reload (now : Z) (files : keyPair) (r : CertReloader) : CertReloader :=
  match files with
  | LoadFailed => setError ErrLoad r
  | EmptyChain => setError ErrEmptyChain r
  | LeafUnparsable => setError ErrParseLeaf r
  | Leaf c => if (NotAfter c <? now)%Z then setError (ErrExpired (NotAfter c)) r else mkCertReloader (Some c) None
  end.

Definition GetCertificate (r : CertReloader) : reloadError + option certificate :=
  match rlErr r with Some e => inl e | None => inr (rlCert r) end.

Definition Ready (r : CertReloader) : bool :=
  match rlCert r, rlErr r with Some _, None => true | _, _ => false end.

Definition reloadDebounce : Z := 200.

(** The reloader with its timer, the times of the last event and the last reload. *)
Record watching := mkWatching {
  wtReloader : CertReloader;
  wtTimer : option Z;
  wtNow : Z;
  wtLastEvent : Z;
  wtLastReload : Z;
}.

(** NewCertReloader *)
Definition watch_start (files : Z → keyPair) (now : Z) : watching :=
  mkWatching (reload now (files now) (mkCertReloader None None)) None now now now.

Inductive watch_step (files : Z → keyPair) : watching → watching → Prop :=
  (** an event stops the timer that is running and starts another *)
  | watch_event r timer now event last now' : (now <= now')%Z →
      watch_step files (mkWatching r timer now event last) (mkWatching r (Some (now' + reloadDebounce)%Z) now' now' last)
  (** the timer fires, at its time or later *)
  | timer_fires r deadline now event last now' : (now <= now')%Z → (deadline <= now')%Z →
      watch_step files (mkWatching r (Some deadline) now event last) (mkWatching (reload now' (files now') r) None now' event now').

(** ** The probe *)

(** The checks that are configured, with their answers. *)
Record probes := mkProbes {
  (** TLS: the reloader, once there is one *)
  pbTLS : option (option CertReloader);
  (** Redis: whether a primary is designated, if the registry is asked, and whether it answers *)
  pbRedis : option (option bool * bool);
  pbRaftLeader : option bool;
  pbOlric : option bool;
}.

Inductive readyz := ReadyzOK | ReadyzUnavailable (reason : string).

Definition newReadyzHandler (p : probes) : readyz :=
  let tls := match pbTLS p with
             | None => true
             | Some None => false
             | Some (Some r) => Ready r
             end in
  if negb tls then ReadyzUnavailable "tls: certificate not ready"
  else match pbRedis p with
  | Some (Some false, _) => ReadyzUnavailable "redis: primary not yet designated"
  | Some (_, false) => ReadyzUnavailable "redis: primary unreachable"
  | _ =>
      match pbRaftLeader p with
      | Some false => ReadyzUnavailable "raft: no leader known"
      | _ => match pbOlric p with Some false => ReadyzUnavailable "olric: not reachable" | _ => ReadyzOK end
      end
  end.

(** ** Lemmas *)

(** A reload shows what the files held and forgets every earlier success. *)
Definition shows (at_ : Z) (files : keyPair) (r : CertReloader) : Prop :=
  match GetCertificate r with
  | inr c => ∃ c', files = Leaf c' ∧ c = Some c' ∧ (at_ <= NotAfter c')%Z
  | inl _ => ∀ c', files = Leaf c' → (NotAfter c' < at_)%Z
  end.

Lemma reload_shows now files r : shows now files (reload now files r).
Proof.
  unfold shows, reload. destruct files as [| | |c]; cbn; try done. destruct (Z.ltb_spec (NotAfter c) now); cbn.
  - by intros c' [= <-].
  - by exists c.
Qed.

Record watch_inv (files : Z → keyPair) (w : watching) : Prop := {
  wv_shows : shows (wtLastReload w) (files (wtLastReload w)) (wtReloader w);
  wv_time : (wtLastEvent w <= wtNow w ∧ wtLastReload w <= wtNow w)%Z;
  wv_timer : match wtTimer w with
             | Some d => d = (wtLastEvent w + reloadDebounce)%Z
             | None => wtLastEvent w = wtLastReload w ∨ (wtLastEvent w + reloadDebounce <= wtLastReload w)%Z
             end;
}.

Lemma watch_inv_run files t w : rtc (watch_step files) (watch_start files t) w → watch_inv files w.
Proof.
  intros H. eapply (rtc_ind_r (watch_inv files) (watch_start files t)); [| |exact H].
  - split; cbn; [apply reload_shows|lia|by left].
  - intros x y _ Hs [H1 H2 H3]. destruct Hs as [r timer now event last now' Hn|r d now event last now' Hn Hd]; cbn in *.
    + split; cbn; [done|lia|done].
    + split; cbn; [apply reload_shows|lia|right; lia].
Qed.

(** ** Claims *)

(** The reloader serves the certificate that the files held last, and no change is
    missed. In every run, a certificate is served only if the last reload found it and it
    had not expired then; when that reload failed, none is. If the timer is not running,
    that reload came at least the debounce interval after the last file event, so a
    burst of events is followed by one reload that sees its end; if it is running it is
    set for that interval after the last event. The node is ready exactly when a
    certificate is served, also after it has expired: only a reload looks at the date. *)
Theorem cert_reloader_follows_files files t w : rtc (watch_step files) (watch_start files t) w →
  (∀ c, GetCertificate (wtReloader w) = inr (Some c) ↔ files (wtLastReload w) = Leaf c ∧ (wtLastReload w <= NotAfter c)%Z) ∧
  (Ready (wtReloader w) = true ↔ ∃ c, GetCertificate (wtReloader w) = inr (Some c)) ∧
  match wtTimer w with
  | Some d => d = (wtLastEvent w + reloadDebounce)%Z
  | None => wtLastEvent w = wtLastReload w ∨ (wtLastEvent w + reloadDebounce <= wtLastReload w)%Z
  end ∧
  (∀ now c, GetCertificate (wtReloader w) = inr (Some c) → (NotAfter c < now)%Z → Ready (wtReloader w) = true).
Proof.
  intros [Hs _ Ht]%watch_inv_run. unfold shows in Hs. unfold Ready, GetCertificate in *.
  destruct (wtReloader w) as [cert err]. cbn in *. destruct err as [e|].
  - split_and!; [|destruct cert; split; [done|by intros []|done|by intros []]|done|done]. intros c. split; [done|].
    intros [H1 H2]. specialize (Hs c H1). lia.
  - destruct Hs as (c' & E1 & -> & E2). split_and!; [|split; eauto|done|done]. intros c. rewrite E1. split.
    + intros [= <-]. done.
    + by intros [[= <-] _].
Qed.

Lemma cert_reloader_follows_files_witness :
  let files := λ now, if (now <? 50)%Z then LoadFailed else Leaf (mkCertificate "a" 1000) in
  let w := mkWatching (mkCertReloader (Some (mkCertificate "a" 1000)) None) None 270 60 270 in
  GetCertificate (wtReloader w) = inr (Some (mkCertificate "a" 1000)) ∧ files (wtLastReload w) = Leaf (mkCertificate "a" 1000).
Proof.
  cbv zeta. split; [reflexivity|].
  destruct (cert_reloader_follows_files (λ now, if (now <? 50)%Z then LoadFailed else Leaf (mkCertificate "a" 1000)) 0
    (mkWatching (mkCertReloader (Some (mkCertificate "a" 1000)) None) None 270 60 270)) as (H & _).
  - eapply rtc_l; [apply (watch_event _ _ _ _ _ _ 40); lia|]. eapply rtc_l; [apply (watch_event _ _ _ _ _ _ 60); lia|].
    eapply rtc_l; [apply (timer_fires _ _ _ _ _ _ 270); unfold reloadDebounce; lia|]. apply rtc_refl.
  - apply (H (mkCertificate "a" 1000)). reflexivity.
Defined.

(** The probe passes exactly when every check that is configured holds. *)
Lemma readyz_ok p : newReadyzHandler p = ReadyzOK ↔
  (∀ r, pbTLS p = Some r → ∃ r', r = Some r' ∧ Ready r' = true) ∧
  (∀ designated up, pbRedis p = Some (designated, up) → designated ≠ Some false ∧ up = true) ∧
  pbRaftLeader p ≠ Some false ∧ pbOlric p ≠ Some false.
Proof.
  unfold newReadyzHandler. destruct p as [tls redis raft olric]. cbn.
  destruct tls as [[r|]|]; [destruct (Ready r) eqn:Er; [|split; [done|]; intros [H _]; destruct (H _ eq_refl) as (r' & [= <-] & H'); congruence]| |];
    destruct redis as [[[[]|] []]|], raft as [[]|], olric as [[]|]; cbn; naive_solver.
Qed.
