(* ===== verification/InventoryCache.v ===== *)
(** The cache of the offline-session inventory: internal/session/inventory_cache.go.

    Slices are shared by reference, so the arrays behind them are cells of a heap:
    one for the sessions, whose entries point to the arrays of their subscriptions.
    Callers may keep what they passed to Set and what Snapshot gave them and write
    to it at any time; [held] are the addresses they can reach. *)
From S2P Require Import Prelude Session.

(** ** The heap *)

(** A slice: nil or the address of its array. *)
Abbreviation slice := (option nat).

(** OfflineSession as it lies in an array. *)
Record entry := mkEntry { enClientID : string; enSubscriptions : slice; enLastSeenAt : option Z }.

Record heap := mkHeap { hpSessions : gmap nat (list entry); hpSubs : gmap nat (list OfflineSubscription); hpNext : nat }.

Definition read_subs (h : heap) (s : slice) : list OfflineSubscription := default [] (a ← s; hpSubs h !! a).
Definition entries (h : heap) (s : slice) : list entry := default [] (a ← s; hpSessions h !! a).

(** What a reader of the slice sees. *)
Definition value (h : heap) (s : slice) : list OfflineSession :=
  (λ e, mkOfflineSession (enClientID e) (read_subs h (enSubscriptions e)) (enLastSeenAt e)) <$> entries h s.

Definition alloc_subs (l : list OfflineSubscription) (h : heap) : nat * heap :=
  (hpNext h, mkHeap (hpSessions h) (<[hpNext h := l]> (hpSubs h)) (S (hpNext h))).
Definition alloc_sessions (l : list entry) (h : heap) : nat * heap :=
  (hpNext h, mkHeap (<[hpNext h := l]> (hpSessions h)) (hpSubs h) (S (hpNext h))).

(** append([]OfflineSubscription(nil), l...) *)
Definition append_nil (l : list OfflineSubscription) (h : heap) : slice * heap :=
  match l with [] => (None, h) | _ => let '(a, h) := alloc_subs l h in (Some a, h) end.

(** ** The cache *)

Fixpoint clone_entries (items : list entry) (h : heap) : list entry * heap :=
  match items with
  | [] => ([], h)
  | item :: items =>
      let '(subs, h) := append_nil (read_subs h (enSubscriptions item)) h in
      let '(out, h) := clone_entries items h in
      (mkEntry (enClientID item) subs (enLastSeenAt item) :: out, h)
  end.

Definition cloneOfflineSessions (s : slice) (h : heap) : slice * heap :=
  let '(out, h) := clone_entries (entries h s) h in let '(a, h) := alloc_sessions out h in (Some a, h).

Record InventoryCache := mkCache { icSessions : slice; icUpdatedAt : option Z; icReady : bool }.

Definition NewInventoryCache : InventoryCache := mkCache None None false.

Definition Set_ (sessions : slice) (now : Z) (c : InventoryCache) (h : heap) : InventoryCache * heap :=
  let '(out, h) := cloneOfflineSessions sessions h in (mkCache out (Some now) true, h).

Definition Snapshot (c : InventoryCache) (h : heap) : slice * option Z * bool * heap :=
  let '(out, h) := cloneOfflineSessions (icSessions c) h in (out, icUpdatedAt c, icReady c, h).

(** ** Callers *)

Record world := mkWorld { wHeap : heap; wCache : InventoryCache; wHeld : gset nat }.

Definition can_reach (held : gset nat) (s : slice) : Prop := match s with None => True | Some a => a ∈ held end.

(** The addresses that a slice of sessions leads to. *)
Definition reachable (h : heap) (s : slice) : gset nat :=
  match s with None => ∅ | Some a => {[a]} end ∪ list_to_set (omap enSubscriptions (entries h s)).

Inductive call :=
  | SetCall (v : list OfflineSession) (now : Z)
  | SnapshotCall (v : list OfflineSession) (at_ : option Z) (ready : bool).

(** What callers do to their own arrays, and the calls with the values passed. *)
Inductive wstep : world → option call → world → Prop :=
  | step_new_subs l h c held a h' : alloc_subs l h = (a, h') → wstep (mkWorld h c held) None (mkWorld h' c ({[a]} ∪ held))
  | step_new_sessions l h c held a h' : Forall (λ e, can_reach held (enSubscriptions e)) l → alloc_sessions l h = (a, h') →
      wstep (mkWorld h c held) None (mkWorld h' c ({[a]} ∪ held))
  | step_write_subs a l h c held : a ∈ held →
      wstep (mkWorld h c held) None (mkWorld (mkHeap (hpSessions h) (<[a := l]> (hpSubs h)) (hpNext h)) c held)
  | step_write_sessions a l h c held : a ∈ held → Forall (λ e, can_reach held (enSubscriptions e)) l →
      wstep (mkWorld h c held) None (mkWorld (mkHeap (<[a := l]> (hpSessions h)) (hpSubs h) (hpNext h)) c held)
  | step_Set s now h c held c' h' : can_reach held s → Set_ s now c h = (c', h') →
      wstep (mkWorld h c held) (Some (SetCall (value h s) now)) (mkWorld h' c' held)
  | step_Snapshot h c held s t r h' : Snapshot c h = (s, t, r, h') →
      wstep (mkWorld h c held) (Some (SnapshotCall (value h' s) t r)) (mkWorld h' c (reachable h' s ∪ held)).

Inductive wruns : list call → world → Prop :=
  | runs_start : wruns [] (mkWorld (mkHeap ∅ ∅ 0) NewInventoryCache ∅)
  | runs_step tr w l w' : wruns tr w → wstep w l w' → wruns (tr ++ option_list l) w'.

(** ** Lemmas *)

(** Addresses are below the next one, and callers reach only what they hold. *)
Definition below (h : heap) (A : gset nat) : Prop := ∀ a, a ∈ A → a < hpNext h.

(** There are no arrays of sessions at addresses to come. *)
Definition fresh (h : heap) : Prop := ∀ a, hpNext h <= a → hpSessions h !! a = None.

(** What was allocated is kept. *)
Definition keeps (h h' : heap) : Prop := hpNext h <= hpNext h' ∧
  ∀ a, a < hpNext h → hpSubs h' !! a = hpSubs h !! a ∧ hpSessions h' !! a = hpSessions h !! a.

Lemma keeps_refl h : keeps h h.
Proof. by split. Qed.

Lemma keeps_trans h1 h2 h3 : keeps h1 h2 → keeps h2 h3 → keeps h1 h3.
Proof.
  intros [N1 H1] [N2 H2]. split; [lia|]. intros a Ha. destruct (H1 a Ha), (H2 a ltac:(lia)). split; congruence.
Qed.

Lemma reachable_elem h s a : a ∈ reachable h s ↔ s = Some a ∨ ∃ e, e ∈ entries h s ∧ enSubscriptions e = Some a.
Proof.
  unfold reachable. rewrite elem_of_union, elem_of_list_to_set, list_elem_of_omap. destruct s; [rewrite elem_of_singleton|rewrite elem_of_empty]; naive_solver.
Qed.

(** A slice keeps its value when the arrays it leads to are kept. *)
Lemma value_ext h h' s : (∀ a, a ∈ reachable h s → hpSubs h' !! a = hpSubs h !! a ∧ hpSessions h' !! a = hpSessions h !! a) →
  value h' s = value h s ∧ reachable h' s = reachable h s.
Proof.
  intros H. assert (entries h' s = entries h s) as E.
  { unfold entries. destruct s as [a|]; [|done]. cbn. destruct (H a) as [_ ->]; [|done]. apply reachable_elem. by left. }
  unfold value, reachable. rewrite E. split; [|done]. apply list_fmap_ext. intros i e He%list_elem_of_lookup_2. f_equal.
  unfold read_subs. destruct (enSubscriptions e) as [a|] eqn:Ea; [|done]. cbn. destruct (H a) as [-> _]; [|done]. apply reachable_elem. right. by exists e.
Qed.

Lemma value_keeps h h' s : keeps h h' → below h (reachable h s) → value h' s = value h s ∧ reachable h' s = reachable h s.
Proof. intros [_ H] Hb. apply value_ext. intros a Ha. apply H, Hb, Ha. Qed.

Lemma append_nil_spec l h s h' : append_nil l h = (s, h') →
  keeps h h' ∧ (∀ a, s = Some a → hpNext h <= a < hpNext h') ∧ read_subs h' s = l.
Proof.
  unfold append_nil, alloc_subs. destruct l as [|x l]; intros [= <- <-]; [by split_and!; [apply keeps_refl| |]|]. split_and!.
  - split; [cbn; lia|]. intros a Ha. cbn. by rewrite lookup_insert_ne by lia.
  - intros a [= <-]. cbn. lia.
  - unfold read_subs. cbn. by rewrite lookup_insert_eq.
Qed.

Lemma read_subs_keeps h h' s : keeps h h' → (∀ a, s = Some a → a < hpNext h) → read_subs h' s = read_subs h s.
Proof. intros [_ H] Hs. unfold read_subs. destruct s as [a|]; [|done]. cbn. by destruct (H a (Hs a eq_refl)) as [-> _]. Qed.

Definition view (h : heap) (e : entry) : OfflineSession := mkOfflineSession (enClientID e) (read_subs h (enSubscriptions e)) (enLastSeenAt e).

Lemma clone_entries_spec items h out h' : clone_entries items h = (out, h') →
  Forall (λ e, ∀ a, enSubscriptions e = Some a → a < hpNext h) items →
  keeps h h' ∧ Forall (λ e, ∀ a, enSubscriptions e = Some a → hpNext h <= a < hpNext h') out ∧ view h' <$> out = view h <$> items.
Proof.
  revert h out h'. induction items as [|e items IH]; intros h out h'; cbn; [by intros [= <- <-] _; split_and!; [apply keeps_refl|constructor|]|].
  destruct (append_nil _ h) as [subs h1] eqn:Ea. destruct (clone_entries items h1) as [out1 h2] eqn:Ec. intros [= <- <-] [He Hi]%Forall_cons.
  apply append_nil_spec in Ea as (K1 & R1 & E1). apply IH in Ec as (K2 & R2 & E2); [|eapply Forall_impl; [exact Hi|]; intros e' H a ?%H; destruct K1; lia].
  split_and!; [by eapply keeps_trans| |].
  - constructor; cbn.
    + intros a ?%R1. destruct K2. lia.
    + eapply Forall_impl; [exact R2|]. intros e' H a ?%H. destruct K1. lia.
  - rewrite !fmap_cons, E2. f_equal.
    + unfold view. cbn [enClientID enSubscriptions enLastSeenAt]. f_equal. rewrite (read_subs_keeps h1 h2), E1 by (done || (intros a ?%R1; lia)). done.
    + apply list_fmap_ext. intros i e' He'%list_elem_of_lookup_2. unfold view. f_equal. apply read_subs_keeps; [done|].
      by eapply Forall_forall in Hi.
Qed.

(** A clone reads as the original and shares no array with anything older. *)
Lemma clone_spec s h s' h' : cloneOfflineSessions s h = (s', h') → below h (reachable h s) →
  keeps h h' ∧ value h' s' = value h s ∧ ∀ a, a ∈ reachable h' s' → hpNext h <= a < hpNext h'.
Proof.
  unfold cloneOfflineSessions. destruct (clone_entries (entries h s) h) as [out h1] eqn:Ec. intros [= <- <-] Hb.
  apply clone_entries_spec in Ec as (K & R & E).
  2:{ apply Forall_forall. intros e He a Ha. apply Hb, reachable_elem. right. by exists e. }
  set (h2 := mkHeap (<[hpNext h1 := out]> (hpSessions h1)) (hpSubs h1) (S (hpNext h1))).
  assert (entries h2 (Some (hpNext h1)) = out) as Eo by (unfold entries; cbn; by rewrite lookup_insert_eq).
  assert (keeps h1 h2) as K2.
  { split; [cbn; lia|]. intros a Ha. cbn. by rewrite lookup_insert_ne by lia. }
  split_and!; [by eapply keeps_trans| |].
  - unfold value. rewrite Eo. exact E.
  - intros a [[= <-]|(e & He & Ha)]%reachable_elem; [cbn; destruct K; lia|]. rewrite Eo in He. eapply Forall_forall in R; [|exact He].
    apply R in Ha. cbn. lia.
Qed.

Lemma clone_entries_sessions items h out h' : clone_entries items h = (out, h') → hpSessions h' = hpSessions h ∧ hpNext h <= hpNext h'.
Proof.
  revert h out h'. induction items as [|e items IH]; intros h out h'; cbn; [by intros [= <- <-]|].
  destruct (append_nil _ h) as [subs h1] eqn:Ea. destruct (clone_entries items h1) as [out1 h2] eqn:Ec. intros [= <- <-].
  apply IH in Ec as [-> ?]. unfold append_nil, alloc_subs in Ea. destruct (read_subs h (enSubscriptions e)); injection Ea as <- <-; cbn in *; split; done || lia.
Qed.

Lemma clone_fresh s h s' h' : cloneOfflineSessions s h = (s', h') → fresh h → fresh h'.
Proof.
  unfold cloneOfflineSessions. destruct (clone_entries (entries h s) h) as [out h1] eqn:Ec. intros [= <- <-] Hf a.
  apply clone_entries_sessions in Ec as [E Hn]. cbn. intros Ha. rewrite lookup_insert_ne, E by lia. apply Hf. lia.
Qed.

Lemma clone_other s h s' h' : cloneOfflineSessions s h = (s', h') → fresh h → ∀ a, s' ≠ Some a → hpNext h <= a → hpSessions h' !! a = None.
Proof.
  unfold cloneOfflineSessions. destruct (clone_entries (entries h s) h) as [out h1] eqn:Ec. intros [= <- <-] Hf a Hne Ha.
  apply clone_entries_sessions in Ec as [E _]. cbn. rewrite lookup_insert_ne, E by congruence. by apply Hf.
Qed.

Fixpoint last_set (tr : list call) : option (list OfflineSession * Z) :=
  match tr with
  | [] => None
  | SetCall v now :: tr => Some (default (v, now) (last_set tr))
  | SnapshotCall _ _ _ :: tr => last_set tr
  end.

Lemma last_set_app tr1 tr2 : last_set (tr1 ++ tr2) = match last_set tr2 with Some x => Some x | None => last_set tr1 end.
Proof.
  induction tr1 as [|[v now|v t r] tr1 IH]; cbn; [by destruct (last_set tr2)| |done]. rewrite IH. by destruct (last_set tr2).
Qed.

(** What the cache should answer after [tr]. *)
Definition answered (tr : list call) (v : list OfflineSession) (t : option Z) (r : bool) : Prop :=
  match last_set tr with
  | Some (v', now) => v = v' ∧ t = Some now ∧ r = true
  | None => v = [] ∧ t = None ∧ r = false
  end.

(** Callers reach what they hold and nothing else; the cache's arrays are its own. *)
Definition separated (w : world) : Prop :=
  let '(mkWorld h c held) := w in
  fresh h ∧ below h held ∧ below h (reachable h (icSessions c)) ∧ held ## reachable h (icSessions c) ∧
  ∀ a, a ∈ held → Forall (λ e, can_reach held (enSubscriptions e)) (entries h (Some a)).

Definition cache_inv (tr : list call) (w : world) : Prop :=
  separated w ∧ answered tr (value (wHeap w) (icSessions (wCache w))) (icUpdatedAt (wCache w)) (icReady (wCache w)).

Lemma can_reach_mono held held' s : held ⊆ held' → can_reach held s → can_reach held' s.
Proof. destruct s; cbn; set_solver. Qed.

(** Callers change arrays that they hold, or new ones. *)
Lemma callers_write tr h h' c held held' : cache_inv tr (mkWorld h c held) → hpNext h <= hpNext h' → fresh h' →
  (∀ a, a ∈ reachable h (icSessions c) → hpSubs h' !! a = hpSubs h !! a ∧ hpSessions h' !! a = hpSessions h !! a) →
  below h' held' → held' ## reachable h (icSessions c) →
  (∀ a, a ∈ held' → Forall (λ e, can_reach held' (enSubscriptions e)) (entries h' (Some a))) → cache_inv tr (mkWorld h' c held').
Proof.
  intros [(_ & H1 & H2 & H3 & H4) Ha] Hn Hfr Hk Hb Hd Hf. destruct (value_ext h h' (icSessions c) Hk) as [Ev Er].
  split; cbn; [|by rewrite Ev]. rewrite Er. split_and!; try done. intros a ?%H2. lia.
Qed.

Lemma reachable_held h held s : (∀ a, a ∈ held → Forall (λ e, can_reach held (enSubscriptions e)) (entries h (Some a))) →
  can_reach held s → reachable h s ⊆ held.
Proof.
  intros H Hs a [->|(e & He & Ha)]%reachable_elem; [done|]. destruct s as [b|]; [|by apply elem_of_nil in He].
  eapply Forall_forall in He; [|by apply H]. cbn in He. rewrite Ha in He. done.
Qed.

(** An array that was just allocated, or written, in the hands of callers. *)
Lemma callers_cell tr h c held a sess subs n : cache_inv tr (mkWorld h c held) → a < n → hpNext h <= n →
  (∀ b, b ∈ reachable h (icSessions c) → b ≠ a) → (a ∈ held ∨ a = hpNext h) → (a = hpNext h → hpNext h < n) →
  Forall (λ e, can_reach held (enSubscriptions e)) (entries (mkHeap sess subs n) (Some a)) →
  (∀ b, b ≠ a → subs !! b = hpSubs h !! b ∧ sess !! b = hpSessions h !! b) → fresh (mkHeap sess subs n) →
  cache_inv tr (mkWorld (mkHeap sess subs n) c ({[a]} ∪ held)).
Proof.
  intros Hinv Han Hn Hna Hold Hlt Ha Hk Hf. pose proof Hinv as [(_ & H1 & H2 & H3 & H4) _]. eapply callers_write; try done.
  - intros b Hb. cbn. by apply Hk, Hna.
  - intros b [->%elem_of_singleton|Hb%H1]%elem_of_union; cbn; lia.
  - intros b [->%elem_of_singleton|Hb]%elem_of_union Hc; [by apply (Hna a)|by eapply H3].
  - intros b Hb. destruct (decide (b = a)) as [->|Hne].
    + eapply Forall_impl; [exact Ha|]. intros e. apply can_reach_mono. set_solver.
    + assert (b ∈ held) as Hbh by set_solver. unfold entries. cbn. destruct (Hk b Hne) as [_ ->].
      eapply Forall_impl; [exact (H4 b Hbh)|]. intros e. apply can_reach_mono. set_solver.
Qed.

Lemma cache_step tr w l w' : wstep w l w' → cache_inv tr w → cache_inv (tr ++ option_list l) w'.
Proof.
  intros Hs Hinv. pose proof Hinv as [Hsep Ha]. destruct Hs as [subs h c held a h' E|ents h c held a h' Hr E|a subs h c held Hin|a ents h c held Hin Hr
    |s now h c held c' h' Hs E|h c held s t r h' E]; destruct Hsep as (Hf & H1 & H2 & H3 & H4); cbn [option_list] in *; rewrite ?app_nil_r.
  - injection E as <- <-. apply (callers_cell tr h); try done; try lia.
    + intros b ?%H2. lia.
    + unfold entries. cbn. rewrite (Hf (hpNext h)) by lia. constructor.
    + intros b Hb. by rewrite lookup_insert_ne.
    + intros b. cbn. intros. apply Hf. lia.
  - injection E as <- <-. apply (callers_cell tr h); try done; try lia.
    + intros b ?%H2. lia.
    + unfold entries. cbn. by rewrite lookup_insert_eq.
    + intros b Hb. by rewrite lookup_insert_ne.
    + intros b. cbn. intros. rewrite lookup_insert_ne by lia. apply Hf. lia.
  - replace held with ({[a]} ∪ held) at 1 by set_solver. pose proof (H1 a Hin). apply (callers_cell tr h); try done; try lia; try by left.
    + intros b Hb ->. by apply (H3 a).
    + by apply H4.
    + intros b Hb. by rewrite lookup_insert_ne.
  - replace held with ({[a]} ∪ held) at 1 by set_solver. pose proof (H1 a Hin). apply (callers_cell tr h); try done; try lia; try by left.
    + intros b Hb ->. by apply (H3 a).
    + unfold entries. cbn. by rewrite lookup_insert_eq.
    + intros b Hb. by rewrite lookup_insert_ne.
    + intros b. cbn. intros. rewrite lookup_insert_ne by lia. apply Hf. lia.
  - unfold Set_ in E. destruct (cloneOfflineSessions s h) as [out h1] eqn:Ec. injection E as <- <-. pose proof (clone_fresh _ _ _ _ Ec Hf) as Hf'.
    apply clone_spec in Ec as ([Kn K] & Ev & Hr); [|intros a Hin; by apply H1, (reachable_held h held s)].
    split; cbn [separated wHeap wCache icSessions icUpdatedAt icReady]; [|unfold answered; rewrite last_set_app; cbn [last_set default]; by rewrite Ev].
    split_and!; [done| | | |].
    + intros a ?%H1. lia.
    + intros a ?%Hr. lia.
    + intros a ?%H1 ?%Hr. lia.
    + intros a Hin. unfold entries. cbn. destruct (K a (H1 a Hin)) as [_ ->]. by apply H4.
  - unfold Snapshot in E. destruct (cloneOfflineSessions (icSessions c) h) as [out h1] eqn:Ec. injection E as <- <- <- <-.
    pose proof (clone_fresh _ _ _ _ Ec Hf) as Hf'. pose proof (clone_other _ _ _ _ Ec Hf) as Hother.
    apply clone_spec in Ec as (K & Ev & Hr); [|done].
    destruct (value_keeps h h1 (icSessions c) K H2) as [Ev' Er'].
    split; cbn [separated wHeap wCache] in *; [|unfold answered in *; rewrite last_set_app; cbn [last_set]; by rewrite Ev'].
    rewrite Er'. destruct K as [Kn K]. split_and!; [done| | | |].
    + intros a [?%Hr|?%H1]%elem_of_union; lia.
    + intros a ?%H2. lia.
    + intros a [?%Hr|Hh]%elem_of_union Hc; [apply H2 in Hc; lia|by eapply H3].
    + intros a [Hin|Hin]%elem_of_union.
      * destruct (decide (out = Some a)) as [->|Hne].
        -- apply Forall_forall. intros e He. destruct (enSubscriptions e) as [b|] eqn:Eb; [|done]. cbn. apply elem_of_union_l, reachable_elem.
           right. by exists e.
        -- unfold entries. cbn. rewrite (Hother a) by (done || by apply Hr). constructor.
      * unfold entries. cbn. destruct (K a (H1 a Hin)) as [_ ->]. eapply Forall_impl; [exact (H4 a Hin)|]. intros e. apply can_reach_mono. set_solver.
Qed.

Lemma cache_reached tr w : wruns tr w → cache_inv tr w.
Proof.
  induction 1 as [|tr w l w' _ IH Hs]; [|by eapply cache_step]. split; [|done]. cbn [separated].
  split_and!; [done|by intros a ?%elem_of_empty|unfold below, reachable; set_solver|set_solver|by intros a ?%elem_of_empty].
Qed.

(** ** Theorems *)

(** C18: A snapshot is the inventory that was last passed to Set, as it was then, with
    the time of that call, or empty and not ready before the first one: whatever
    callers have since written to the slices they passed or to those they got, and
    to the subscriptions these lead to. *)
Theorem snapshots_are_isolated tr w pre v t r post : wruns tr w → tr = pre ++ SnapshotCall v t r :: post → answered pre v t r.
Proof.
  intros H. revert pre v t r post. induction H as [|tr w l w' Hw IH Hs]; intros pre v t r post E; [by destruct pre|].
  destruct l as [x|]; cbn in E; [|rewrite app_nil_r in E; by eapply IH].
  destruct (exists_last (l := SnapshotCall v t r :: post) ltac:(done)) as (post' & y & Ep). rewrite Ep, app_assoc in E.
  apply app_inj_tail in E as [E ->]. destruct post as [|z post].
  - destruct post' as [|? [|]]; simplify_eq/=. rewrite app_nil_r in *. apply cache_reached in Hw as [Hsep Ha].
    inversion Hs as [| | | | |h c held s t' r' h' Es]; simplify_eq/=. unfold Snapshot in Es.
    destruct (cloneOfflineSessions (icSessions c) h) as [out h1] eqn:Ec. injection Es as <- <- <- <-.
    apply clone_spec in Ec as (_ & -> & _); [done|]. apply Hsep.
  - destruct post' as [|x' post']; simplify_eq/=. by eapply IH.
Qed.

(** ** Witness *)

(** A caller that empties its list of subscriptions after passing it to Set. *)
Definition subs_written : world → world := λ w,
  mkWorld (mkHeap (hpSessions (wHeap w)) (<[0 := []]> (hpSubs (wHeap w))) (hpNext (wHeap w))) (wCache w) (wHeld w).

Definition empty_heap : heap := mkHeap ∅ ∅ 0.
Definition heap_subs : heap := (alloc_subs [mkOfflineSubscription "a/#" 1] empty_heap).2.
Definition heap_sessions : heap := (alloc_sessions [mkEntry "c1" (Some 0) None] heap_subs).2.
Definition after_set : InventoryCache * heap := Set_ (Some 1) 5 NewInventoryCache heap_sessions.
Definition held_example : gset nat := {[1]} ∪ ({[0]} ∪ ∅).
Definition before_snapshot : world := subs_written (mkWorld after_set.2 after_set.1 held_example).
Definition snapshot_example := Snapshot (wCache before_snapshot) (wHeap before_snapshot).

Lemma example_run : ∃ w, wruns [SetCall (value heap_sessions (Some 1)) 5;
  SnapshotCall (value snapshot_example.2 snapshot_example.1.1.1) snapshot_example.1.1.2 snapshot_example.1.2] w.
Proof.
  assert (wruns [] (mkWorld heap_subs NewInventoryCache ({[0]} ∪ ∅))) as H1.
  { eapply (runs_step [] _ None); [constructor|]. by eapply step_new_subs. }
  assert (wruns [] (mkWorld heap_sessions NewInventoryCache held_example)) as H2.
  { eapply (runs_step [] _ None _ H1). eapply step_new_sessions; [|reflexivity]. apply Forall_cons. split; [cbn; set_solver|constructor]. }
  assert (wruns [SetCall (value heap_sessions (Some 1)) 5] (mkWorld after_set.2 after_set.1 held_example)) as H3.
  { eapply (runs_step [] _ (Some _) _ H2). apply step_Set; [cbn; set_solver|apply surjective_pairing]. }
  assert (wruns [SetCall (value heap_sessions (Some 1)) 5] before_snapshot) as H4.
  { eapply (runs_step [SetCall _ _] _ None _ H3). apply step_write_subs. set_solver. }
  eexists. eapply (runs_step [SetCall _ _] _ (Some (SnapshotCall _ _ _)) _ H4).
  apply (step_Snapshot _ _ _ snapshot_example.1.1.1 snapshot_example.1.1.2 snapshot_example.1.2 snapshot_example.2). reflexivity.
Qed.

Lemma snapshots_are_isolated_witness :
  value snapshot_example.2 snapshot_example.1.1.1 = [mkOfflineSession "c1" [mkOfflineSubscription "a/#" 1] None] ∧
  read_subs (wHeap before_snapshot) (Some 0) = [].
Proof.
  destruct example_run as [w H].
  destruct (snapshots_are_isolated _ w [SetCall (value heap_sessions (Some 1)) 5] _ _ _ [] H eq_refl) as [E _].
  split; [rewrite E; vm_compute; reflexivity|vm_compute; reflexivity].
Defined.
