(* ===== verification/Migrations.v ===== *)
(** Database migrations: internal/db/migrate.go, as a program over a PostgreSQL
    server that several nodes start against at the same time.

    A process may stop between any two requests and be started again, a request
    may fail, and the answer to a request that took effect may be lost. What an
    SQL text does to the schema is an argument. A statement of a transaction sees
    what was committed before it; what it writes is visible with the commit. A
    key that an open transaction inserted is not free for others until that
    transaction ends. *)
From stdpp Require Import relations.
From S2P Require Import Prelude GoStrings GoSort Decimal GoNumbers Effects.

Open Scope string_scope.

(** ** The program *)

(** An embedded file; reading it cannot fail. *)
Record file := mkFile { fName : string; fSQL : string }.

Definition versionFromName (name : string) : option Z := '(prefix, _) ← cut "_" name; Atoi prefix.

(** The entries of the directory in the order of their names, which differ. *)
Definition in_order (entries : list file) : list file := SliceStable (by_key fName) entries.

Inductive pgReq : Type → Type :=
  | CreateSchema : pgReq bool
  | CreateTable : pgReq bool
  | Applied (version : Z) : pgReq (option bool)
  | Begin : pgReq bool
  | TxExec (sql : string) : pgReq bool
  | TxRecord (version : Z) : pgReq bool
  | TxRollback : pgReq unit
  | TxCommit : pgReq bool.

Inductive migrateErr :=
  | NoSchema
  | NoTable
  | BadName (name : string)
  | CheckFailed (name : string)
  | BeginFailed (name : string)
  | ApplyFailed (name : string)
  | RecordFailed (name : string)
  | CommitFailed (name : string).

(** [None]: no error. *)
Abbreviation migration := (proc pgReq (option migrateErr)).

Local Open Scope list_scope.
Local Open Scope proc_scope.

Definition commit_tx (f : file) (next : migration) : migration :=
  ok <- request TxCommit;; if negb ok then Done (Some (CommitFailed (fName f))) else next.

Definition record_tx (f : file) (version : Z) (next : migration) : migration :=
  ok <- request (TxRecord version);;
  if negb ok then request TxRollback;; Done (Some (RecordFailed (fName f))) else commit_tx f next.

Definition exec_tx (f : file) (version : Z) (next : migration) : migration :=
  ok <- request (TxExec (fSQL f));;
  if negb ok then request TxRollback;; Done (Some (ApplyFailed (fName f))) else record_tx f version next.

Definition begin_tx (f : file) (version : Z) (next : migration) : migration :=
  ok <- request Begin;; if negb ok then Done (Some (BeginFailed (fName f))) else exec_tx f version next.

Fixpoint migrate_files (entries : list file) : migration :=
  match entries with
  | [] => Done None
  | f :: entries =>
      match versionFromName (fName f) with
      | None => Done (Some (BadName (fName f)))
      | Some version =>
          applied <- request (Applied version);;
          match applied with
          | None => Done (Some (CheckFailed (fName f)))
          | Some true => migrate_files entries
          | Some false => begin_tx f version (migrate_files entries)
          end
      end
  end.

Definition create_table (entries : list file) : migration :=
  ok <- request CreateTable;; if negb ok then Done (Some NoTable) else migrate_files (in_order entries).

Definition Migrate (entries : list file) : migration :=
  ok <- request CreateSchema;; if negb ok then Done (Some NoSchema) else create_table entries.

(** ** The server *)

Definition int4 (v : Z) : bool := ((- 2 ^ 31 <=? v) && (v <=? 2 ^ 31 - 1))%Z.

(** The version of a file is in the range of the column. *)
Definition version_fits (f : file) : bool := match versionFromName (fName f) with Some v => int4 v | None => true end.

Section Server.
Context {D : Type} (exec : string → D → option D).

Record server := mkServer { svSchema : bool; svTable : bool; svVersions : gset Z; svData : D }.

(** An open transaction: what it wrote and the key it inserted. *)
Record transaction := mkTx { txData : option D; txKey : option Z }.

Definition committed (sv : server) (t : option transaction) : server :=
  match t with
  | None => sv
  | Some t => mkServer (svSchema sv) (svTable sv)
                (match txKey t with Some v => {[v]} ∪ svVersions sv | None => svVersions sv end) (default (svData sv) (txData t))
  end.

(** Every answer to a request that the server can give, with what becomes of the
    server and of the transaction. [held]: inserted by another open transaction. *)
Definition serves (held : Z → Prop) (sv : server) (t : option transaction) {X} (e : pgReq X) :
    X → server → option transaction → Prop :=
  match e with
  | CreateSchema => λ ok sv' t', t' = t ∧
      (sv' = mkServer true (svTable sv) (svVersions sv) (svData sv) ∨ ok = false ∧ sv' = sv)
  | CreateTable => λ ok sv' t', t' = t ∧
      (svSchema sv = true ∧ sv' = mkServer (svSchema sv) true (svVersions sv) (svData sv) ∨ ok = false ∧ sv' = sv)
  | Applied v => λ r sv' t', sv' = sv ∧ t' = t ∧
      (r = None ∨ (svTable sv = true ∧ int4 v = true ∧ r = Some (bool_decide (v ∈ svVersions sv))))
  | Begin => λ ok sv' t', sv' = sv ∧ t' = (if ok then Some (mkTx None None) else None)
  | TxExec sql => λ ok sv' t', sv' = sv ∧
      (if ok then ∃ d t0, t = Some t0 ∧ exec sql (svData sv) = Some d ∧ t' = Some (mkTx (Some d) (txKey t0)) else t' = None)
  | TxRecord v => λ ok sv' t', sv' = sv ∧
      (if ok then ∃ t0, t = Some t0 ∧ int4 v = true ∧ (v ∉ svVersions sv) ∧ (¬ held v) ∧ t' = Some (mkTx (txData t0) (Some v)) else t' = None)
  | TxRollback => λ _ sv' t', sv' = sv ∧ t' = None
  | TxCommit => λ ok sv' t', t' = None ∧ (sv' = committed sv t ∨ ok = false ∧ sv' = sv)
  end.

Record process := mkProcess { prCode : migration; prTx : option transaction }.
Record system := mkSystem { syServer : server; syProcesses : gmap nat process }.

Definition holds_key (p : process) (v : Z) : Prop := ∃ t, prTx p = Some t ∧ txKey t = Some v.

Definition held_by_others (ps : gmap nat process) (i : nat) (v : Z) : Prop := ∃ j p, j ≠ i ∧ ps !! j = Some p ∧ holds_key p v.

Variable entries : list file.

(** A start ends what the process was doing before; its transaction is rolled
    back. *)
Inductive sstep : system → system → Prop :=
  | step_start i sv ps : sstep (mkSystem sv ps) (mkSystem sv (<[i := mkProcess (Migrate entries) None]> ps))
  | step_request i sv ps {X} (e : pgReq X) k t x sv' t' :
      ps !! i = Some (mkProcess (Call e k) t) → serves (held_by_others ps i) sv t e x sv' t' →
      sstep (mkSystem sv ps) (mkSystem sv' (<[i := mkProcess (k x) t']> ps)).

(** ** What is meant: the files one after the other, each version once *)

Fixpoint sequel (files : list file) (V : gset Z) (d : D) : option (gset Z * D) :=
  match files with
  | [] => Some (V, d)
  | f :: files =>
      v ← versionFromName (fName f);
      if decide (v ∈ V) then sequel files V d else d' ← exec (fSQL f) d; sequel files ({[v]} ∪ V) d'
  end.

(** ** Lemmas *)

Abbreviation files := (in_order entries).

Definition recorded (pre : list file) (V : gset Z) : Prop := Forall (λ f, ∃ v, versionFromName (fName f) = Some v ∧ v ∈ V) pre.

Lemma recorded_mono pre V V' : V ⊆ V' → recorded pre V → recorded pre V'.
Proof. intros HV H. eapply Forall_impl; [exact H|]. intros f (v & ? & ?). exists v. set_solver. Qed.

Lemma recorded_snoc pre f v V : recorded pre V → versionFromName (fName f) = Some v → v ∈ V → recorded (pre ++ [f]) V.
Proof. intros ???. apply Forall_app. split; [done|]. apply Forall_cons. split; [by exists v|constructor]. Qed.

Lemma sequel_app l1 l2 V d : sequel (l1 ++ l2) V d = '(V', d') ← sequel l1 V d; sequel l2 V' d'.
Proof.
  revert V d. induction l1 as [|f l1 IH]; intros V d; [done|]. cbn. destruct (versionFromName (fName f)) as [v|]; [|done]. cbn.
  destruct (decide (v ∈ V)); [apply IH|]. destruct (exec (fSQL f) d); [apply IH|done].
Qed.

Lemma sequel_skip l V d : recorded l V → sequel l V d = Some (V, d).
Proof. induction 1 as [|f l (v & Hv & Hin) _ IH]; [done|]. cbn. rewrite Hv. cbn. by rewrite decide_True. Qed.

Lemma sequel_records l V d V' d' : sequel l V d = Some (V', d') → recorded l V' ∧ V ⊆ V'.
Proof.
  revert V d. induction l as [|f l IH]; intros V d; cbn; [intros [= -> ->]; split; [constructor|done]|].
  destruct (versionFromName (fName f)) as [v|] eqn:Hv; cbn; [|done]. destruct (decide (v ∈ V)) as [Hin|Hin].
  - intros (Hr & Hs)%IH. split; [|done]. constructor; [exists v; set_solver|done].
  - destruct (exec (fSQL f) d) as [d1|]; cbn; [|done]. intros (Hr & Hs)%IH. split; [|set_solver]. constructor; [exists v; set_solver|done].
Qed.

(** Two processes with a missing version before them are at the same file. *)
Lemma same_file pre f v rest pre' f' v' rest' V :
  files = pre ++ f :: rest → files = pre' ++ f' :: rest' → recorded pre V → recorded pre' V →
  versionFromName (fName f) = Some v → versionFromName (fName f') = Some v' → v ∉ V → v' ∉ V → v = v'.
Proof.
  intros E E' Hr Hr' Hv Hv' Hn Hn'. rewrite E in E'. apply app_eq_inv in E' as [(k & E1 & E2)|(k & E1 & E2)].
  - destruct k as [|g k]; [by simplify_eq/=|]. injection E2 as -> _. exfalso. subst pre. apply Forall_app in Hr as [_ Hr].
    apply Forall_cons in Hr as [(w & Hw & Hin) _]. congruence.
  - destruct k as [|g k]; [by simplify_eq/=|]. injection E2 as -> _. exfalso. subst pre'. apply Forall_app in Hr' as [_ Hr'].
    apply Forall_cons in Hr' as [(w & Hw & Hin) _]. congruence.
Qed.

(** Where a process can be, and what it then knows of the server. *)
Inductive at_phase (V : gset Z) (d : D) : process → Prop :=
  | at_start : at_phase V d (mkProcess (Migrate entries) None)
  | at_table : at_phase V d (mkProcess (create_table entries) None)
  | at_files pre rest : files = pre ++ rest → recorded pre V → at_phase V d (mkProcess (migrate_files rest) None)
  | at_begin pre f v rest : files = pre ++ f :: rest → recorded pre V → versionFromName (fName f) = Some v →
      at_phase V d (mkProcess (begin_tx f v (migrate_files rest)) None)
  | at_exec pre f v rest : files = pre ++ f :: rest → recorded pre V → versionFromName (fName f) = Some v →
      at_phase V d (mkProcess (exec_tx f v (migrate_files rest)) (Some (mkTx None None)))
  | at_record pre f v rest d' : files = pre ++ f :: rest → recorded pre V → versionFromName (fName f) = Some v →
      (v ∉ V → exec (fSQL f) d = Some d') →
      at_phase V d (mkProcess (record_tx f v (migrate_files rest)) (Some (mkTx (Some d') None)))
  | at_commit pre f v rest d' : files = pre ++ f :: rest → recorded pre V → versionFromName (fName f) = Some v →
      v ∉ V → exec (fSQL f) d = Some d' →
      at_phase V d (mkProcess (commit_tx f (migrate_files rest)) (Some (mkTx (Some d') (Some v))))
  | at_rollback err : at_phase V d (mkProcess (request TxRollback;; Done (Some err)) None)
  | at_failure err : at_phase V d (mkProcess (Done (Some err)) None).

(** What one process knows stays true when another commits. *)
Lemma at_phase_commit V d p pre f v rest d' : files = pre ++ f :: rest → recorded pre V → versionFromName (fName f) = Some v →
  v ∉ V → ¬ holds_key p v → at_phase V d p → at_phase ({[v]} ∪ V) d' p.
Proof.
  intros E Hr Hv Hn Hk Hp. assert (V ⊆ {[v]} ∪ V) as HV by set_solver.
  destruct Hp as [| |pre' rest' E' Hr'|pre' f' v' rest' E' Hr' Hv'|pre' f' v' rest' E' Hr' Hv'|pre' f' v' rest' d0 E' Hr' Hv' He
    |pre' f' v' rest' d0 E' Hr' Hv' Hn' He| |].
  1-2: constructor.
  - by eapply at_files, recorded_mono.
  - by eapply at_begin, Hv'; [|eapply recorded_mono].
  - by eapply at_exec, Hv'; [|eapply recorded_mono].
  - eapply at_record; [done|by eapply recorded_mono|done|]. intros Hn'. exfalso. apply Hn'.
    assert (v' = v) as ->; [|set_solver]. eapply (same_file pre' f' v' rest' pre f v rest V); set_solver.
  - exfalso. apply Hk. exists (mkTx (Some d0) (Some v')). split; [done|]. cbn.
    f_equal. by eapply (same_file pre' f' v' rest' pre f v rest V).
  - constructor.
  - constructor.
Qed.

(** What one request of a process, to the server [sv], comes to: the versions and
    the data are as before, or the process committed the next version. *)
Definition progress (held : Z → Prop) (sv : server) (p : process) (sv' : server) (p' : process) : Prop :=
  at_phase (svVersions sv') (svData sv') p' ∧
  (∀ v, holds_key p' v → ¬ held v) ∧
  ((svVersions sv' = svVersions sv ∧ svData sv' = svData sv) ∨
   ∃ pre f v rest, files = pre ++ f :: rest ∧ recorded pre (svVersions sv) ∧ versionFromName (fName f) = Some v ∧
     (v ∉ svVersions sv) ∧ holds_key p v ∧ exec (fSQL f) (svData sv) = Some (svData sv') ∧ svVersions sv' = {[v]} ∪ svVersions sv).

Lemma progress_same held sv p sv' p' : svVersions sv' = svVersions sv → svData sv' = svData sv →
  at_phase (svVersions sv) (svData sv) p' → prTx p' = None → progress held sv p sv' p'.
Proof. intros EV ED Hp Ht. split_and!; [by rewrite EV, ED| |by left]. intros v (t & ? & _). congruence. Qed.

Lemma at_phase_step held sv p : at_phase (svVersions sv) (svData sv) p → (∀ v, holds_key p v → ¬ held v) →
  match prCode p with
  | Done _ => True
  | Call e k => ∀ x sv' t', serves held sv (prTx p) e x sv' t' → progress held sv p sv' (mkProcess (k x) t')
  end.
Proof.
  intros Hp Hk. destruct Hp as [| |pre [|f rest] E Hr|pre f v rest E Hr Hv|pre f v rest E Hr Hv|pre f v rest d' E Hr Hv He
    |pre f v rest d' E Hr Hv Hn He|err|err]; cbn.
  - intros ok sv' t' (-> & [->|[-> ->]]); apply progress_same; try done; [destruct ok|]; constructor.
  - intros ok sv' t' (-> & [[_ ->]|[-> ->]]); apply progress_same; try done; [destruct ok|]; try constructor.
    by apply (at_files _ _ [] files); [|constructor].
  - done.
  - destruct (versionFromName (fName f)) as [v|] eqn:Hv; cbn; [|done].
    intros r sv' t' (-> & -> & [->|(_ & _ & ->)]); apply progress_same; try done; [constructor|].
    destruct (bool_decide_reflect (v ∈ svVersions sv)); cbn; [|by eapply at_begin].
    eapply (at_files _ _ (pre ++ [f])); [by rewrite <-app_assoc|by eapply recorded_snoc].
  - intros ok sv' t' (-> & ->). destruct ok; cbn; [|apply progress_same; try done; constructor].
    split_and!; [by eapply at_exec|intros w (t & [= <-] & [=])|by left].
  - intros ok sv' t' (-> & H). destruct ok; cbn; [|subst; apply progress_same; try done; constructor].
    destruct H as (d' & t0 & [= <-] & He & ->). split_and!; [by eapply at_record|intros w (t & [= <-] & [=])|by left].
  - intros ok sv' t' (-> & H). destruct ok; cbn; [|subst; apply progress_same; try done; constructor].
    destruct H as (t0 & [= <-] & _ & Hn & Hh & ->). split_and!; [by eapply at_commit; eauto|by intros w (t & [= <-] & [= ->])|by left].
  - intros ok sv' t' (-> & [->|[-> ->]]); [|apply progress_same; try done; constructor]. split_and!.
    + destruct ok; cbn; [|constructor]. eapply (at_files _ _ (pre ++ [f])); [by rewrite <-app_assoc|].
      eapply recorded_snoc; [eapply recorded_mono, Hr| |]; set_solver.
    + by intros w (t & [=] & _).
    + right. exists pre, f, v, rest. split_and!; try done. by exists (mkTx (Some d') (Some v)).
  - intros _ sv' t' (-> & ->). apply progress_same; try done. constructor.
  - done.
Qed.

(** The state of the server is the one after some of the files, and every process
    is where its knowledge holds; no key has two holders. *)
Definition system_inv (sv0 : server) (s : system) : Prop :=
  (∃ n, sequel (take n files) (svVersions sv0) (svData sv0) = Some (svVersions (syServer s), svData (syServer s))) ∧
  map_Forall (λ i p, at_phase (svVersions (syServer s)) (svData (syServer s)) p ∧
    ∀ v, holds_key p v → ¬ held_by_others (syProcesses s) i v) (syProcesses s).

(** The next version follows the files that were run. *)
Lemma sequel_next V0 d0 V d n pre f v rest d' : sequel (take n files) V0 d0 = Some (V, d) →
  files = pre ++ f :: rest → recorded pre V → versionFromName (fName f) = Some v → v ∉ V → exec (fSQL f) d = Some d' →
  sequel (take (S (length pre)) files) V0 d0 = Some ({[v]} ∪ V, d').
Proof.
  intros Hs E Hr Hv Hn He. destruct (sequel_records _ _ _ _ _ Hs) as [Hrec _].
  assert (n <= length pre) as Hle.
  { destruct (decide (n <= length pre)); [done|]. exfalso. unfold recorded in Hrec. rewrite E, take_app, Forall_app in Hrec. destruct Hrec as [_ Hrec].
    destruct (n - length pre) eqn:En; [lia|]. cbn in Hrec. apply Forall_cons in Hrec as [(w & Hw & Hin) _]. congruence. }
  assert (take n files = take n pre) as Et by (rewrite E, take_app_le by lia; done).
  assert (take (S (length pre)) files = take n pre ++ drop n pre ++ [f]) as ->.
  { rewrite app_assoc, take_drop, E, take_app. replace (S (length pre) - length pre) with 1 by lia.
    rewrite take_ge by lia. cbn. by rewrite take_0. }
  rewrite sequel_app. rewrite Et in Hs. rewrite Hs. cbn. rewrite sequel_app, sequel_skip by (by apply Forall_drop). cbn.
  rewrite Hv. cbn. rewrite decide_False by done. by rewrite He.
Qed.

Lemma at_phase_done V d p : at_phase V d p → prCode p = Done None → recorded files V.
Proof.
  intros [| |pre [|f rest] E Hr| | | | | |]; cbn; try done; [by rewrite E, app_nil_r|]. by destruct (versionFromName (fName f)).
Qed.

Lemma held_insert ps i j p v : i ≠ j → held_by_others (<[j := p]> ps) i v → holds_key p v ∨ held_by_others ps i v.
Proof.
  intros Hij (l & q & Hl & Hq & Hk). apply lookup_insert_Some in Hq as [[-> ->]|[_ Hq]]; [by left|]. right. by exists l, q.
Qed.

Lemma held_insert_same ps i p v : held_by_others (<[i := p]> ps) i v → held_by_others ps i v.
Proof. intros (l & q & Hl & Hq & Hk). rewrite lookup_insert_ne in Hq by done. by exists l, q. Qed.

Lemma system_step sv0 s s' : sstep s s' → system_inv sv0 s → system_inv sv0 s'.
Proof.
  intros Hs [(n & Hn) Hps]. destruct Hs as [i sv ps|i sv ps X e k t x sv' t' Hi Hserve]; cbn in *.
  - split; [by exists n|]. cbn. apply map_Forall_lookup. intros j p [[-> <-]|[Hij Hj]]%lookup_insert_Some.
    + split; [constructor|]. by intros v (t & [=] & _).
    + destruct (Hps _ _ Hj) as [Hp Hk]. split; [done|]. intros v Hv Hh. apply (Hk _ Hv).
      apply held_insert in Hh as [(t & [=] & _)|Hh]; done.
  - destruct (Hps _ _ Hi) as [Hp Hk]. pose proof (at_phase_step _ _ _ Hp Hk x sv' t' Hserve) as (Hp' & Hk' & Hsv). split; cbn.
    + destruct Hsv as [[-> ->]|(pre & f & v & rest & E & Hr & Hv & Hnv & _ & He & ->)]; [by exists n|].
      exists (S (length pre)). by eapply sequel_next.
    + apply map_Forall_lookup. intros j p [[-> <-]|[Hij Hj]]%lookup_insert_Some.
      * split; [done|]. intros v Hv Hh%held_insert_same. by apply (Hk' v).
      * destruct (Hps _ _ Hj) as [Hq Hkq]. split.
        -- destruct Hsv as [[-> ->]|(pre & f & v & rest & E & Hr & Hv & Hnv & Hkey & He & ->)]; [done|].
           eapply at_phase_commit; try done. intros Hh. apply (Hk v Hkey). by exists j, p.
        -- intros v Hv Hh. apply held_insert in Hh as [Hh|Hh]; [|by apply (Hkq v)|done].
           apply (Hk' v Hh). by exists j, p.
Qed.

Lemma system_reached sv0 s : rtc sstep (mkSystem sv0 ∅) s → system_inv sv0 s.
Proof.
  intros H. eapply (rtc_ind_r (system_inv sv0)); [|intros y z _ Hyz Hy; by eapply system_step|exact H].
  split; [exists 0; by rewrite take_0|]. apply map_Forall_empty.
Qed.

(** A node that no other one keeps from recording, and whose requests succeed,
    goes on to the end. *)
Lemma node_finishes i rest V1 d1 sv ps : forallb version_fits rest = true →
  svTable sv = true → (∀ v, ¬ held_by_others ps i v) → ps !! i = Some (mkProcess (migrate_files rest) None) →
  sequel rest (svVersions sv) (svData sv) = Some (V1, d1) →
  ∃ sv', rtc sstep (mkSystem sv ps) (mkSystem sv' (<[i := mkProcess (Done None) None]> ps)) ∧ svVersions sv' = V1 ∧ svData sv' = d1.
Proof.
  revert sv ps. induction rest as [|f rest IH]; intros sv ps Hint Ht Hh Hi; cbn.
  { intros [= <- <-]. exists sv. rewrite insert_id by done. done. }
  assert (∀ q v, ¬ held_by_others (<[i := q]> ps) i v) as Hh' by (intros q v ?%held_insert_same; by eapply Hh).
  cbn in Hint, Hi. apply andb_true_iff in Hint as [Hf Hint]. unfold version_fits in Hf. destruct (versionFromName (fName f)) as [v|]; cbn in *; [|done].
  destruct (decide (v ∈ svVersions sv)) as [Hv|Hv].
  - intros Hs. edestruct (IH sv (<[i := mkProcess (migrate_files rest) None]> ps)) as (sv' & Hr & E); [done|done|done|by simplify_map_eq|done|].
    rewrite insert_insert_eq in Hr. exists sv'. split; [|done]. eapply rtc_l; [|exact Hr].
    eapply (step_request i sv ps (Applied v) _ None (Some true) sv None Hi). split_and!; try done. right. by rewrite bool_decide_true.
  - destruct (exec (fSQL f) (svData sv)) as [d'|] eqn:He; cbn; [|done]. intros Hs.
    edestruct (IH (mkServer (svSchema sv) true ({[v]} ∪ svVersions sv) d') (<[i := mkProcess (migrate_files rest) None]> ps))
      as (sv' & Hr & E); [done|done|done|by simplify_map_eq|done|].
    rewrite insert_insert_eq in Hr. exists sv'. split; [|done].
    eapply rtc_l; [eapply (step_request i sv ps (Applied v) _ None (Some false) sv None Hi);
                   split_and!; try done; right; by rewrite bool_decide_false|].
    eapply rtc_l; [eapply (step_request i _ _ Begin _ _ true _ _ (lookup_insert_eq _ _ _)); done|]. rewrite insert_insert_eq.
    eapply rtc_l; [eapply (step_request i _ _ (TxExec _) _ _ true _ _ (lookup_insert_eq _ _ _)); split; [done|]; eauto|]. rewrite insert_insert_eq.
    eapply rtc_l; [eapply (step_request i _ _ (TxRecord v) _ _ true _ _ (lookup_insert_eq _ _ _)); split; [done|]; eauto 10|]. rewrite insert_insert_eq.
    eapply rtc_l; [eapply (step_request i _ _ TxCommit _ _ true _ _ (lookup_insert_eq _ _ _)); split; [done|by left]|]. rewrite insert_insert_eq.
    cbn. by rewrite Ht.
Qed.

Lemma started_node_finishes i sv ps V1 d1 : forallb version_fits files = true →
  (∀ v, ¬ held_by_others ps i v) → sequel files (svVersions sv) (svData sv) = Some (V1, d1) →
  ∃ sv', rtc sstep (mkSystem sv ps) (mkSystem sv' (<[i := mkProcess (Done None) None]> ps)) ∧ svVersions sv' = V1 ∧ svData sv' = d1.
Proof.
  intros Hint Hh Hs.
  destruct (node_finishes i files V1 d1 (mkServer true true (svVersions sv) (svData sv)) (<[i := mkProcess (migrate_files files) None]> ps))
    as (sv' & Hr & E); [done|done|by intros v ?%held_insert_same; eapply Hh|by simplify_map_eq|done|].
  rewrite insert_insert_eq in Hr. exists sv'. split; [|done]. eapply rtc_l; [apply (step_start i)|].
  eapply rtc_l; [eapply (step_request i _ _ CreateSchema _ _ true _ _ (lookup_insert_eq _ _ _)); split; [done|by left]|]. rewrite insert_insert_eq.
  eapply rtc_l; [eapply (step_request i _ _ CreateTable _ _ true _ _ (lookup_insert_eq _ _ _)); split; [done|left; by split]|].
  by rewrite insert_insert_eq.
Qed.

(** ** Theorems *)

(** C15: Whatever nodes start, stop and start again at the same time, whichever of
    their requests fail and whichever answers are lost: the schema is always the
    one that results from running the first [n] files in the order of their names,
    each version not recorded before once, and the recorded versions are theirs.
    A node whose Migrate returned no error has all files recorded and run. *)
Theorem migrations_run_once_in_order sv0 s : rtc sstep (mkSystem sv0 ∅) s →
  (∃ n, sequel (take n files) (svVersions sv0) (svData sv0) = Some (svVersions (syServer s), svData (syServer s))) ∧
  (∀ i t, syProcesses s !! i = Some (mkProcess (Done None) t) →
     sequel files (svVersions sv0) (svData sv0) = Some (svVersions (syServer s), svData (syServer s))).
Proof.
  intros H%system_reached. destruct H as [(n & Hn) Hps]. split; [by exists n|]. intros i t Hi.
  destruct (Hps _ _ Hi) as [Hp _]. assert (recorded files (svVersions (syServer s))) as Hr by by eapply at_phase_done.
  rewrite <-(take_drop n files), sequel_app, Hn. cbn. apply sequel_skip. by apply Forall_drop.
Qed.

(** A failed start is made good by a later one: whatever happened before, a node
    that is started while no other has a version inserted but not committed, and
    whose requests succeed, returns no error, and the schema is then the one after
    all files. It only needs files that can be run one after the other and versions
    in the range of the column. *)
Theorem restart_completes_migrations sv0 s i V1 d1 : rtc sstep (mkSystem sv0 ∅) s →
  forallb version_fits files = true →
  (∀ v, ¬ held_by_others (syProcesses s) i v) → sequel files (svVersions sv0) (svData sv0) = Some (V1, d1) →
  ∃ s', rtc sstep s s' ∧ syProcesses s' !! i = Some (mkProcess (Done None) None) ∧
    svVersions (syServer s') = V1 ∧ svData (syServer s') = d1.
Proof.
  intros [(n & Hn) _]%system_reached Hint Hh Hs. destruct s as [sv ps]. cbn in *.
  destruct (started_node_finishes i sv ps V1 d1 Hint Hh) as (sv' & Hr & E).
  - destruct (sequel_records _ _ _ _ _ Hn) as [Hrec _]. rewrite <-(take_drop n files), sequel_app, Hn in Hs. cbn in Hs.
    rewrite <-(take_drop n files), sequel_app, sequel_skip by done. done.
  - eexists. split; [exact Hr|]. cbn. by simplify_map_eq.
Qed.

End Server.

(** ** Witnesses *)

(** The files of internal/db/migrations, with their names for their text, on a
    server that notes what was run. *)
Definition embedded : list file :=
  [mkFile "0003_tenant_gateway_config_clavex_ca.sql" "ca"; mkFile "0001_baseline.sql" "baseline"; mkFile "0002_tenant_gateway_config_jwks_url.sql" "jwks"].

Definition note (sql : string) (d : list string) : option (list string) := Some (d ++ [sql]).

Definition empty_server : server := mkServer false false (∅ : gset Z) ([] : list string).

Lemma embedded_versions : forallb version_fits (in_order embedded) = true.
Proof. vm_compute. reflexivity. Qed.

Abbreviation all_run := ["baseline"; "jwks"; "ca"].

Lemma embedded_sequel : ∃ V, sequel note (in_order embedded) (svVersions empty_server) (svData empty_server) = Some (V, all_run).
Proof. eexists. vm_compute. reflexivity. Qed.

Lemma nothing_held i v : ¬ held_by_others (D := list string) ∅ i v.
Proof. by intros (j & p & _ & [=] & _). Qed.

Lemma migrations_run_once_in_order_witness :
  ∃ s, rtc (sstep note embedded) (mkSystem empty_server ∅) s ∧ svData (syServer s) = all_run.
Proof.
  destruct embedded_sequel as [V E].
  destruct (started_node_finishes note embedded 0 empty_server ∅ V all_run embedded_versions (nothing_held 0) E) as (sv' & Hr & _).
  exists (mkSystem sv' (<[0 := mkProcess (Done None) None]> ∅)). split; [exact Hr|].
  pose proof (proj2 (migrations_run_once_in_order note embedded _ _ Hr) 0 None (lookup_insert_eq _ _ _)) as Hall.
  rewrite E in Hall. injection Hall as _ Hd. symmetry. exact Hd.
Defined.

Lemma restart_completes_migrations_witness :
  ∃ s, rtc (sstep note embedded) (mkSystem empty_server ∅) s ∧ svData (syServer s) = all_run.
Proof.
  destruct embedded_sequel as [V E].
  destruct (restart_completes_migrations note embedded empty_server (mkSystem empty_server ∅) 0 V all_run (rtc_refl _ _) embedded_versions
    (nothing_held 0) E) as (s & Hr & _ & _ & Hd). exists s. split; [exact Hr|exact Hd].
Defined.
