(* ===== verification/MessageAge.v ===== *)
(** The age of messages: internal/telemetry/message_latency.go, from the bytes of
    a payload in line protocol to the ages that are observed, with the integers of
    the code at 64 bits and the ages as float64.

    Instants are nanoseconds since 1970. *)
From Stdlib Require Import SpecFloat.
From S2P Require Import Prelude GoStrings Decimal Float64 GoNumbers FloatRound.

Local Open Scope Z_scope.

(** ** Standard library *)

Definition flush (word : string) : list string := if String.eqb word "" then [] else [word].

(** strings.Fields; [skip] bytes belong to the white space that was just seen. *)
Fixpoint fields_from (skip : nat) (s word : string) : list string :=
  match s with
  | "" => flush word
  | String c rest =>
      match skip with
      | S skip' => fields_from skip' rest word
      | O => match find (λ p, has_prefix p s) spaces with
             | Some p => flush word ++ fields_from (String.length p - 1) rest ""
             | None => fields_from 0 rest (word +:+ String c "")
             end
      end
  end.
Definition Fields (s : string) : list string := fields_from 0 s "".

Definition maxDuration : Z := 2 ^ 63 - 1.
Definition minDuration : Z := - 2 ^ 63.

(** t.Sub(u) *)
Definition Sub (t u : Z) : Z := Z.max minDuration (Z.min maxDuration (t - u)).

(** time.Unix *)
Definition Unix (sec nsec : Z) : Z := sec * Second + nsec.

(** ** Ages *)

Definition influxLineTimestamp (line : string) : option Z :=
  if String.eqb line "" || has_prefix "#" line || negb (contains_byte "=" line) then None
  else
    let parts := Fields line in
    if (length parts <? 2)%nat then None
    else
      n ← ParseInt (List.last parts "");
      let abs := if n <? 0 then wrap_int64 (- n) else n in
      Some (if abs <? 10 ^ 11 then Unix n 0
            else if abs <? 10 ^ 14 then Unix 0 (wrap_int64 (n * Millisecond))
            else if abs <? 10 ^ 17 then Unix 0 (wrap_int64 (n * Microsecond))
            else Unix 0 n).

(** What is observed for one timestamp. *)
Definition observe_age (now ts : Z) : list float64 :=
  let age := Seconds (Sub now ts) in if fleb (of_int 0) age then [age] else [].

Definition ObserveInfluxMessageAge (payload : string) (now : Z) : list float64 :=
  flat_map (λ rawLine,
    match influxLineTimestamp (TrimSpace rawLine) with
    | None => []
    | Some ts => observe_age now ts
    end) (split "010" payload).

(** ** Lemmas: white space *)

Lemma has_prefix_before_space p m x : contains_byte " " p = false → has_prefix p (m +:+ String " " x) = has_prefix p m.
Proof.
  revert m. induction p as [|a p IH]; intros [|c m] H; try done; cbn in *.
  - apply orb_false_iff in H as [H _]. change (Ascii.eqb a " " && has_prefix p x = false). by rewrite H.
  - apply orb_false_iff in H as [_ H]. change (Ascii.eqb a c && has_prefix p (m +:+ String " " x) = Ascii.eqb a c && has_prefix p m).
    by rewrite IH.
Qed.

Lemma space_before_space m x : m ≠ "" → find (λ p, has_prefix p (m +:+ String " " x)) spaces = find (λ p, has_prefix p m) spaces.
Proof.
  intros Hm. assert (forallb (λ p, String.eqb p " " || negb (contains_byte " " p)) spaces = true) as Hs by (vm_compute; reflexivity).
  induction spaces as [|p ps IH]; [done|]. cbn in *. apply andb_true_iff in Hs as [Hp Hs]. rewrite IH by done.
  assert (has_prefix p (m +:+ String " " x) = has_prefix p m) as ->; [|done].
  apply orb_true_iff in Hp as [->%String.eqb_eq|Hp%negb_true_iff]; [by destruct m|by apply has_prefix_before_space].
Qed.

(** No white space starts or ends with a digit. *)
Definition no_digit_first (cutset : list string) : bool :=
  forallb (λ p, match p with String a _ => negb (bool_decide (is_Some (digit_value a))) | "" => false end) cutset.

Lemma digit_no_space cutset c s : no_digit_first cutset = true → is_Some (digit_value c) → find (λ p, has_prefix p (String c s)) cutset = None.
Proof.
  intros H Hc. induction cutset as [|p cutset IH]; [done|]. cbn in *. apply andb_true_iff in H as [Hp H]. rewrite IH by done.
  destruct p as [|a p]; [done|]. cbn. destruct (Ascii.eqb_spec a c) as [->|]; [|done]. by rewrite bool_decide_true in Hp.
Qed.

Lemma all_digits_cons c s : all_digits (String c s) = true → is_Some (digit_value c) ∧ all_digits s = true.
Proof. cbn. destruct (digit_value c); [by eauto|done]. Qed.

Lemma fields_digits ds w : all_digits ds = true → fields_from 0 ds w = flush (w +:+ ds).
Proof.
  revert w. induction ds as [|c ds IH]; intros w; [by rewrite string_app_nil_r|]. intros [Hc Hds]%all_digits_cons.
  cbn [fields_from]. rewrite digit_no_space by (try done; by vm_compute). rewrite IH by done.
  by rewrite <-string_app_assoc, string_app_cons, string_app_nil_l.
Qed.

Lemma has_prefix_length p s : has_prefix p s = true → (String.length p <= String.length s)%nat.
Proof. intros (r & ->)%has_prefix_true. rewrite string_length_app. lia. Qed.

(** A last word is a field of its own. *)
Lemma fields_last_word k m w ds : (k <= String.length m)%nat → all_digits ds = true → ds ≠ "" →
  fields_from k (m +:+ String " " ds) w = (fields_from k m w ++ [ds])%list.
Proof.
  intros Hk Hds Hne. revert k w Hk. induction m as [|c m IH]; intros k w Hk.
  - destruct k; [|cbn in Hk; lia]. rewrite string_app_nil_l. cbn [fields_from].
    change (find (λ p, has_prefix p (String " " ds)) spaces) with (Some " "). cbn [String.length Nat.sub].
    rewrite fields_digits by done. f_equal. unfold flush. rewrite string_app_nil_l. by destruct (String.eqb_spec ds "").
  - destruct k as [|k]; [|apply IH; cbn in Hk; lia]. rewrite string_app_cons. cbn [fields_from].
    rewrite <-string_app_cons, space_before_space by done.
    destruct (find _ spaces) as [p|] eqn:Ep; [|apply IH; lia]. rewrite <-app_assoc. f_equal. apply IH.
    apply find_some in Ep as [_ Hp%has_prefix_length]. cbn in Hp. lia.
Qed.

Lemma reverse_reverse s a b : reverse (reverse s a) b = reverse a (s +:+ b).
Proof. revert a b. induction s as [|c s IH]; intros a b; [done|]. cbn [reverse]. rewrite IH. done. Qed.

Lemma reverse_app a b acc : reverse (a +:+ b) acc = reverse b (reverse a acc).
Proof. revert acc. induction a as [|c a IH]; intros acc; [done|]. rewrite string_app_cons. cbn [reverse]. apply IH. Qed.

Lemma reverse_digits ds acc : all_digits ds = true → ds ≠ "" → ∃ c r, reverse ds acc = String c r ∧ is_Some (digit_value c).
Proof.
  revert acc. induction ds as [|c ds IH]; intros acc; [done|]. intros [Hc Hds]%all_digits_cons _. cbn [reverse].
  destruct ds as [|c' ds]; [by exists c, acc|]. by apply IH.
Qed.

Lemma trim_left_none cutset fuel s : find (λ p, has_prefix p s) cutset = None → trim_left cutset fuel s = s.
Proof. intros H. destruct fuel; [done|]. cbn. by rewrite H. Qed.

Lemma TrimSpace_line m ds : find (λ p, has_prefix p m) spaces = None → m ≠ "" → all_digits ds = true → ds ≠ "" →
  TrimSpace (m +:+ String " " ds) = m +:+ String " " ds.
Proof.
  intros Hm Hne Hds Hnd. unfold TrimSpace. rewrite (trim_left_none spaces) by (by rewrite space_before_space). rewrite trim_left_none.
  - rewrite reverse_reverse. cbn [reverse]. by rewrite string_app_nil_r.
  - rewrite reverse_app. cbn [reverse]. destruct (reverse_digits ds (String " " (reverse m "")) Hds Hnd) as (c & r & -> & Hc).
    apply digit_no_space; [by vm_compute|done].
Qed.

(** ** Lemmas: signs *)

Lemma round_aux_opp s m e l : binary_round_aux prec emax (negb s) m e l = SFopp (binary_round_aux prec emax s m e l).
Proof.
  unfold binary_round_aux. destruct (shr_fexp prec emax m e l) as [mrs e']. destruct (shr_fexp prec emax _ e' loc_Exact) as [mrs'' e''].
  destruct (shr_m mrs''); [done| |done]. by destruct (e'' <=? emax - prec).
Qed.

Lemma round_opp s p e : binary_round prec emax (negb s) p e = SFopp (binary_round prec emax s p e).
Proof. unfold binary_round. destruct (shl_align p e _). apply round_aux_opp. Qed.

Lemma of_int_opp z : 0 < z → of_int (- z) = SFopp (of_int z).
Proof. destruct z as [|p|p]; [lia| |lia]. intros _. exact (round_opp false p 0). Qed.

Lemma finite_div_opp p e q e' : fdiv (S754_finite true p e) (S754_finite false q e') = SFopp (fdiv (S754_finite false p e) (S754_finite false q e')).
Proof.
  unfold fdiv, SFdiv. destruct (SFdiv_core_binary prec emax (Z.pos p) e (Z.pos q) e') as [[m e''] l]. exact (round_aux_opp false m e'' l).
Qed.

Lemma finite_add_opp p e q e' : fadd (S754_finite true p e) (S754_finite true q e') = SFopp (fadd (S754_finite false p e) (S754_finite false q e')).
Proof. exact (round_opp false (fst (shl_align p e (Z.min e e')) + fst (shl_align q e' (Z.min e e'))) (Z.min e e')). Qed.

(** A positive duration in seconds. *)
Lemma seconds_positive d : 0 < d < 2 ^ 63 → (∃ p q, Seconds d = S754_finite false p q) ∧ Seconds (- d) = SFopp (Seconds d).
Proof.
  intros Hd. unfold Seconds. rewrite Z.quot_opp_l, Z.rem_opp_l by done. rewrite Z.quot_div_nonneg, Z.rem_mod_nonneg by (unfold Second; lia).
  pose proof (Z.div_mod d Second ltac:(done)) as E. pose proof (Z.mod_pos_bound d Second ltac:(done)) as Hn.
  set (s := d / Second) in *. set (n := d mod Second) in *. assert (0 <= s < 2 ^ 34) as Hs by (unfold Second in *; lia).
  assert (∀ z, 0 < z < 2 ^ 53 → ∃ p q, of_int z = S754_finite false p q) as Hfin by (intros z (p & -> & _)%of_int_exact; eauto).
  destruct (Z.eq_dec n 0) as [En|Nn].
  - rewrite En. change (fdiv (of_int 0) (of_int Second)) with (S754_zero false). change (fdiv (of_int (- 0)) (of_int Second)) with (S754_zero false).
    rewrite of_int_opp by (unfold Second in *; lia). destruct (Hfin s) as (p & q & ->); [unfold Second in *; lia|]. cbn. eauto.
  - rewrite (of_int_opp n) by lia. destruct (fraction_bounds n ltac:(lia)) as (p & q & Ef & Hq & _ & Hlo & Hhi & Hq51).
    destruct (Hfin n) as (pn & qn & En); [unfold Second in *; lia|].
    assert (fdiv (SFopp (of_int n)) (of_int Second) = S754_finite true p q) as ->.
    { rewrite En. change (of_int Second) with (S754_finite false 8388608000000000 (-23)).
      change (SFopp (S754_finite false pn qn)) with (S754_finite true pn qn). rewrite finite_div_opp, <-En.
      change (S754_finite false 8388608000000000 (-23)) with (of_int Second). by rewrite Ef. }
    rewrite Ef. destruct (Z.eq_dec s 0) as [Es|Ns]; [rewrite Es; cbn; eauto|].
    destruct (add_fraction s p q) as (p' & q' & Ea & _); [lia|lia|done|done|]. rewrite of_int_opp by lia. split; [eauto|].
    destruct (Hfin s) as (ps & qs & Es); [lia|]. rewrite Es in *. apply finite_add_opp.
Qed.

Lemma age_observed d : - 2 ^ 63 < d < 2 ^ 63 → fleb (of_int 0) (Seconds d) = (0 <=? d).
Proof.
  intros Hd. destruct (Z.lt_trichotomy d 0) as [Hn|[->|Hp]]; [|done|].
  - destruct (seconds_positive (- d)) as [(p & q & E) Ho]; [lia|]. rewrite Z.opp_involutive, E in Ho. rewrite Ho. cbn.
    symmetry. apply Z.leb_gt. lia.
  - destruct (seconds_positive d) as [(p & q & ->) _]; [lia|]. cbn. symmetry. apply Z.leb_le. lia.
Qed.

(** ** Lemmas: lines *)

(** What stands before the timestamp of a point: it has a field, is no comment,
    and does not start with white space. *)
Definition point_text (m : string) : bool :=
  contains_byte "=" m && negb (contains_byte "010" m) && negb (has_prefix "#" m) &&
  match find (λ p, has_prefix p m) spaces with None => true | Some _ => false end && negb (bool_decide (Fields m = [])).

Definition line (m : string) (n : Z) : string := m +:+ String " " (Itoa n).

(** The instant a timestamp [n] is taken for. *)
Definition detected (n : Z) : Z :=
  if n <? 10 ^ 11 then n * Second
  else if n <? 10 ^ 14 then wrap_int64 (n * Millisecond)
  else if n <? 10 ^ 17 then wrap_int64 (n * Microsecond)
  else n.

Lemma Itoa_digits n : 0 <= n → all_digits (Itoa n) = true ∧ Itoa n ≠ "".
Proof. intros Hn. rewrite <-(Z2N.id n), Itoa_of_N by done. split; [apply FormatUint_digits|apply FormatUint_nonempty]. Qed.

Lemma point_text_spec m : point_text m = true → m ≠ "" ∧ contains_byte "=" m = true ∧ contains_byte "010" m = false ∧
  has_prefix "#" m = false ∧ find (λ p, has_prefix p m) spaces = None ∧ Fields m ≠ [].
Proof.
  unfold point_text. rewrite !andb_true_iff, !negb_true_iff, bool_decide_eq_false. intros ((((H1 & H2) & H3) & H4) & H5).
  split_and!; try done; [by intros ->|]. by destruct (find _ spaces).
Qed.

Lemma line_timestamp m n : point_text m = true → 0 <= n < 2 ^ 63 →
  influxLineTimestamp (TrimSpace (line m n)) = Some (detected n).
Proof.
  intros (Hm & Heq & _ & Hc & Hs & Hf)%point_text_spec Hn. destruct (Itoa_digits n) as [Hd Hne]; [lia|]. unfold line.
  rewrite TrimSpace_line by done. unfold influxLineTimestamp. rewrite contains_byte_app, Heq. cbn [orb negb].
  assert (String.eqb (m +:+ String " " (Itoa n)) "" = false) as -> by (by destruct m).
  assert (has_prefix "#" (m +:+ String " " (Itoa n)) = false) as -> by (by rewrite has_prefix_before_space).
  cbn [orb]. unfold Fields. rewrite fields_last_word by (done || lia). rewrite length_app. cbn [length].
  destruct (fields_from 0 m "") as [|w ws] eqn:E; [done|]. rewrite (proj2 (Nat.ltb_ge _ _)) by (cbn; lia). rewrite last_last.
  change (ParseInt (Itoa n)) with (Atoi (Itoa n)). rewrite Atoi_Itoa by (unfold int64_max; lia). cbn.
  rewrite (proj2 (Z.ltb_ge n 0)) by lia. unfold detected, Unix. rewrite !Z.mul_0_l, !Z.add_0_l, Z.add_0_r. done.
Qed.

Lemma wrap_int64_id z : - 2 ^ 63 <= z < 2 ^ 63 → wrap_int64 z = z.
Proof. intros Hz. unfold wrap_int64. rewrite Z.mod_small by lia. lia. Qed.

Definition precisions : list Z := [Second; Millisecond; Microsecond; Nanosecond].

(** 10^17 ns after 1970 is March 1973. *)
Lemma precision_detected t u : u ∈ precisions → 10 ^ 17 <= t < 2 ^ 63 → detected (t / u) = t - t mod u.
Proof.
  intros Hu Ht. pose proof (Z.div_mod t u) as E. pose proof (Z.mod_pos_bound t u) as Hb. unfold detected.
  repeat (apply elem_of_cons in Hu as [->|Hu]); [| | | |by apply elem_of_nil in Hu]; unfold Second, Millisecond, Microsecond, Nanosecond in *.
  - rewrite (proj2 (Z.ltb_lt _ _)) by lia. lia.
  - rewrite (proj2 (Z.ltb_ge _ _)), (proj2 (Z.ltb_lt _ _)) by lia. rewrite wrap_int64_id; lia.
  - rewrite !(proj2 (Z.ltb_ge _ _)), (proj2 (Z.ltb_lt _ _)) by lia. rewrite wrap_int64_id; lia.
  - rewrite !(proj2 (Z.ltb_ge _ _)) by lia. lia.
Qed.

Lemma observe_in_range now ts : 0 <= now < 2 ^ 63 → 0 <= ts < 2 ^ 63 →
  observe_age now ts = if ts <=? now then [Seconds (now - ts)] else [].
Proof.
  intros Hn Ht. unfold observe_age, Sub, minDuration, maxDuration. rewrite Z.min_r, Z.max_r by lia. rewrite age_observed by lia.
  destruct (Z.leb_spec 0 (now - ts)), (Z.leb_spec ts now); lia || done.
Qed.

Lemma digits_contain ds b : all_digits ds = true → digit_value b = None → contains_byte b ds = false.
Proof.
  intros H Hb. induction ds as [|c ds IH]; [done|]. apply all_digits_cons in H as [[v Hc] Hds]. cbn. rewrite IH by done.
  destruct (Ascii.eqb_spec c b); [congruence|done].
Qed.

Lemma line_one m n : point_text m = true → 0 <= n → contains_byte "010" (line m n) = false.
Proof.
  intros (_ & _ & Hm & _)%point_text_spec Hn. unfold line. rewrite contains_byte_app, Hm. cbn.
  apply digits_contain; [by apply Itoa_digits|done].
Qed.

Lemma observe_lines points now : points ≠ [] → Forall (λ '(m, n), point_text m = true ∧ 0 <= n < 2 ^ 63) points →
  ObserveInfluxMessageAge (join "010" (map (λ '(m, n), line m n) points)) now = flat_map (λ '(_, n), observe_age now (detected n)) points.
Proof.
  intros Hne HF. unfold ObserveInfluxMessageAge. rewrite split_join.
  - clear Hne. induction HF as [|[m n] points [Hm Hn] _ IH]; [done|]. cbn [map flat_map]. rewrite IH, line_timestamp by done. done.
  - by destruct points.
  - apply Forall_map. eapply Forall_impl; [exact HF|]. intros [m n] [Hm Hn]. apply line_one; [done|lia].
Qed.

(** ** Theorems *)

(** C34: The age of every point of a payload is measured whatever the precision of its
    timestamp: for instants [t] from March 1973 until the end of 64-bit nanoseconds
    in 2262, written in seconds, milliseconds, microseconds or nanoseconds, the
    observed ages are the differences to the current time in seconds, and points of
    the future are left out. *)
Theorem message_age_is_measured now (points : list (string * Z * Z)) : 0 <= now < 2 ^ 63 → points ≠ [] →
  Forall (λ '(m, u, t), point_text m = true ∧ u ∈ precisions ∧ 10 ^ 17 <= t < 2 ^ 63) points →
  ObserveInfluxMessageAge (join "010" (map (λ '(m, u, t), line m (t / u)) points)) now =
  flat_map (λ '(_, u, t), let ts := t - t mod u in if ts <=? now then [Seconds (now - ts)] else []) points.
Proof.
  intros Hnow Hne HF.
  pose proof (observe_lines (map (λ '(m, u, t), (m, t / u)) points) now) as H. rewrite map_map in H.
  assert (∀ t u, u ∈ precisions → 10 ^ 17 <= t < 2 ^ 63 → 0 <= t / u < 2 ^ 63 ∧ 0 <= t - t mod u < 2 ^ 63) as Hdiv.
  { intros t u Hu Ht. assert (1 <= u).
    { repeat (apply elem_of_cons in Hu as [->|Hu]); [..|by apply elem_of_nil in Hu]; done. }
    pose proof (Z.div_mod t u). pose proof (Z.mod_pos_bound t u). pose proof (Z.div_pos t u). nia. }
  rewrite (map_ext _ (λ x, let '(m, n) := let '(m, u, t) := x in (m, t / u) in line m n)) by (by intros [[m u] t]).
  rewrite H.
  - clear H Hne. induction HF as [|[[m u] t] points (Hm & Hu & Ht) _ IH]; [done|]. cbn. rewrite IH. f_equal.
    rewrite precision_detected by done. apply observe_in_range; [done|]. by apply Hdiv.
  - by destruct points.
  - apply Forall_map. eapply Forall_impl; [exact HF|]. intros [[m u] t] (Hm & Hu & Ht). split; [done|]. by apply Hdiv.
Qed.

(** A timestamp in milliseconds between the years 2262 and 2554 is not left out as
    one of the future: the conversion to nanoseconds overflows, and an age is
    observed. *)
Theorem far_future_is_observed now m n : 0 <= now < 2 ^ 63 → point_text m = true →
  2 ^ 63 <= n * Millisecond < 2 ^ 64 → ∃ age, ObserveInfluxMessageAge (line m n) now = [age].
Proof.
  intros Hnow Hm Hn. unfold Millisecond in Hn. pose proof (observe_lines [(m, n)] now) as H. cbn [map join flat_map] in H. rewrite app_nil_r in H. rewrite H; [|done|].
  - assert (detected n = n * Millisecond - 2 ^ 64) as ->.
    { unfold detected, Millisecond. rewrite (proj2 (Z.ltb_ge _ _)), (proj2 (Z.ltb_lt _ _)) by lia. unfold wrap_int64.
      rewrite <-(Z.mod_unique_pos (n * 1000000 + 2 ^ 63) (2 ^ 64) 1 (n * 1000000 + 2 ^ 63 - 2 ^ 64)); lia. }
    unfold observe_age, Sub, minDuration, maxDuration, Millisecond. rewrite age_observed by lia. rewrite (proj2 (Z.leb_le _ _)) by lia. by eexists.
  - apply Forall_cons. split; [|constructor]. split; [done|lia].
Qed.

(** ** Witnesses *)

Abbreviation example_points := [("cpu,host=a load=0.5", Millisecond, 1700000000123456789); ("cpu,host=b load=0.7", Second, 1700000000123456789);
  ("mem free=1i", Nanosecond, 1900000000000000000)].

Lemma message_age_is_measured_witness :
  ObserveInfluxMessageAge (join "010" (map (λ '(m, u, t), line m (t / u)) example_points)) 1700000001000000000 =
  [Seconds 877000000; Seconds 1000000000].
Proof.
  rewrite (message_age_is_measured 1700000001000000000 example_points); [reflexivity|lia|done|].
  repeat (apply Forall_cons; split; [split_and!; [by vm_compute|unfold precisions; set_solver|lia|lia]|]). constructor.
Defined.

Lemma far_future_is_observed_witness : ∃ age, ObserveInfluxMessageAge (line "m v=1" 10000000000000) 1700000000000000000 = [age].
Proof. apply (far_future_is_observed 1700000000000000000 "m v=1" 10000000000000); [lia|by vm_compute|unfold Millisecond; lia]. Defined.
