(* ===== verification/EdgeRefresh.v ===== *)
(** The supervision of an edge node's routing client: cmd/server/main.go, the
    start of the client with its retries and the goroutine that rebuilds it, over
    EdgeRegistry.ReplaceRouter and EdgeRegistry.Close.

    Stores (Olric clients) and routers are numbered as they are opened; what is
    open is part of the state. Between any two steps other goroutines may route
    through the registry and the reconciliation of an open router may end, which
    changes its health. *)
From stdpp Require Import relations.
From S2P Require Import Prelude GoStrings GoSort.

(** ** Addresses *)

Fixpoint unique_from (seen : gset string) (values : list string) : list string :=
  match values with
  | [] => []
  | v :: values =>
      if String.eqb v "" || bool_decide (v ∈ seen) then unique_from seen values
      else v :: unique_from ({[v]} ∪ seen) values
  end.

Definition sortedUniqueStrings (values : list string) : list string := SliceStable (by_key id) (unique_from ∅ values).

Fixpoint equalStringSlices (a b : list string) : bool :=
  match a, b with
  | [], [] => true
  | x :: a, y :: b => String.eqb x y && equalStringSlices a b
  | _, _ => false
  end.

(** ** The start *)

Definition edgeOlricMaxAttempts : nat := 30.

(** [ready attempt]: the client and its router could be built in that attempt. A
    client whose router could not be built is closed again. *)
Fixpoint edge_start (remaining attempt : nat) (ready : nat → bool) : option nat :=
  match remaining with
  | O => None
  | S remaining => if ready attempt then Some attempt else edge_start remaining (S attempt) ready
  end.

(** ** The refresh loop *)

Inductive phase :=
  | Waiting
  | StoreOpened (store : nat) (addrs : list string)
  | RouterBuilt (store router : nat) (addrs : list string)
  | Swapped (oldRouter : option nat) (oldStore : nat)
  | OldRouterClosed (oldStore : nat)
  | Stopped.

(** [pStores]: the addresses of each open client; [pRouters]: the client of each
    open router; [pHealth]: StoreHealthy and ConsecutiveStoreFailures. *)
Record supervisor := mkSup {
  pStores : gmap nat (list string);
  pRouters : gmap nat nat;
  pHealth : gmap nat (bool * N);
  pNext : nat;
  pRegistry : option nat;
  pCurrentRouter : nat;
  pCurrentStore : nat;
  pLastAddrs : list string;
  pPhase : phase;
}.

Definition minConsecutiveStoreFailures : N := 3.

Definition StoreHealthy (p : supervisor) (r : nat) : bool := match pHealth p !! r with Some (up, _) => up | None => false end.
Definition ConsecutiveStoreFailures (p : supervisor) (r : nat) : N := match pHealth p !! r with Some (_, f) => f | None => 0%N end.

(** The condition under which a tick rebuilds the client. *)
Definition due (addrs : list string) (p : supervisor) : bool :=
  let endpointsChanged := negb (equalStringSlices (pLastAddrs p) addrs) in
  negb (negb endpointsChanged &&
        (StoreHealthy p (pCurrentRouter p) || (ConsecutiveStoreFailures p (pCurrentRouter p) <? minConsecutiveStoreFailures)%N)).

(** The end of a reconciliation. *)
Definition reconciled (ok : bool) (h : bool * N) : bool * N := if ok then (true, 0%N) else (false, ((snd h + 1) mod 2 ^ 64)%N).

(** The client that the start has built from [addrs]; [members] is what gossip
    reports when the loop is set up. *)
Definition refresh_start (addrs members : list string) : supervisor :=
  mkSup {[0 := addrs]} {[0 := 0]} {[0 := (true, 0%N)]} 1 (Some 0) 0 0 (sortedUniqueStrings members) Waiting.

Inductive rstep : supervisor → supervisor → Prop :=
  | step_reconciled r ok h st ro he n reg cr cs la ph :
      he !! r = Some h → is_Some (ro !! r) →
      rstep (mkSup st ro he n reg cr cs la ph) (mkSup st ro (<[r := reconciled ok h]> he) n reg cr cs la ph)
  | step_tick_skipped members p :
      pPhase p = Waiting → due (sortedUniqueStrings members) p = false → rstep p p
  | step_store_failed members p :
      pPhase p = Waiting → due (sortedUniqueStrings members) p = true → rstep p p
  | step_store_opened members st ro he n reg cr cs la :
      let addrs := sortedUniqueStrings members in
      due addrs (mkSup st ro he n reg cr cs la Waiting) = true →
      rstep (mkSup st ro he n reg cr cs la Waiting) (mkSup (<[n := addrs]> st) ro he (S n) reg cr cs la (StoreOpened n addrs))
  | step_router_failed st ro he n reg cr cs la s addrs :
      rstep (mkSup st ro he n reg cr cs la (StoreOpened s addrs)) (mkSup (delete s st) ro he n reg cr cs la Waiting)
  | step_router_built st ro he n reg cr cs la s addrs :
      rstep (mkSup st ro he n reg cr cs la (StoreOpened s addrs))
            (mkSup st (<[n := s]> ro) (<[n := (true, 0%N)]> he) (S n) reg cr cs la (RouterBuilt s n addrs))
  | step_swapped st ro he n reg cr cs la s r addrs :
      rstep (mkSup st ro he n reg cr cs la (RouterBuilt s r addrs)) (mkSup st ro he n (Some r) r s addrs (Swapped reg cs))
  | step_old_router_closed st ro he n reg cr cs la old oldStore :
      rstep (mkSup st ro he n reg cr cs la (Swapped old oldStore))
            (mkSup st (match old with Some o => delete o ro | None => ro end) he n reg cr cs la (OldRouterClosed oldStore))
  | step_old_store_closed st ro he n reg cr cs la oldStore :
      rstep (mkSup st ro he n reg cr cs la (OldRouterClosed oldStore)) (mkSup (delete oldStore st) ro he n reg cr cs la Waiting)
  | step_stopped st ro he n reg cr cs la :
      rstep (mkSup st ro he n reg cr cs la Waiting)
            (mkSup (delete cs st) (match reg with Some r => delete r ro | None => ro end) he n None cr cs la Stopped).

(** ** Lemmas: addresses *)

Lemma equalStringSlices_spec a b : equalStringSlices a b = true ↔ a = b.
Proof.
  revert b. induction a as [|x a IH]; intros [|y b]; cbn; try done.
  rewrite andb_true_iff, String.eqb_eq, IH. split; [by intros [-> ->]|by intros [= -> ->]].
Qed.

Lemma unique_from_spec seen values :
  NoDup (unique_from seen values) ∧ ∀ v, v ∈ unique_from seen values ↔ v ∈ values ∧ v ≠ "" ∧ v ∉ seen.
Proof.
  revert seen. induction values as [|x values IH]; intros seen; cbn.
  { split; [constructor|]. intros v. rewrite elem_of_nil. tauto. }
  destruct (String.eqb_spec x "") as [->|Hx]; cbn [orb].
  { destruct (IH seen) as [H1 H2]. split; [done|]. intros v. rewrite H2, elem_of_cons. naive_solver. }
  case_bool_decide as Hs.
  - destruct (IH seen) as [H1 H2]. split; [done|]. intros v. rewrite H2, elem_of_cons. naive_solver.
  - destruct (IH ({[x]} ∪ seen)) as [H1 H2]. split.
    + constructor; [|done]. rewrite H2. set_solver.
    + intros v. rewrite elem_of_cons, H2, elem_of_cons. destruct (decide (v = x)) as [->|]; set_solver.
Qed.

(** The addresses are compared as sets without the empty one. *)
Lemma sortedUniqueStrings_eq l1 l2 :
  sortedUniqueStrings l1 = sortedUniqueStrings l2 ↔ ∀ a, a ≠ "" → (a ∈ l1 ↔ a ∈ l2).
Proof.
  destruct (unique_from_spec ∅ l1) as [N1 H1], (unique_from_spec ∅ l2) as [N2 H2]. unfold sortedUniqueStrings. split.
  - intros E a Ha. assert (unique_from ∅ l1 ≡ₚ unique_from ∅ l2) as Hp by by rewrite <-(SliceStable_perm (by_key id) (unique_from ∅ l1)), E, SliceStable_perm.
    pose proof (H1 a) as H1a. pose proof (H2 a) as H2a. rewrite Hp in H1a. set_solver.
  - intros H. assert (unique_from ∅ l1 ≡ₚ unique_from ∅ l2) as Hp.
    { apply NoDup_Permutation; [done|done|]. intros a. rewrite H1, H2. specialize (H a). set_solver. }
    apply SliceStable_unique; [apply by_key_keyed| |done]. intros x y _ _ Hxy Hyx. by apply ltb_total.
Qed.

Lemma edge_start_spec n k ready : match edge_start n k ready with
  | Some a => k <= a < k + n ∧ ready a = true ∧ ∀ b, k <= b < a → ready b = false
  | None => ∀ b, k <= b < k + n → ready b = false
  end.
Proof.
  revert k. induction n as [|n IH]; intros k; cbn [edge_start]; [lia|]. destruct (ready k) eqn:E.
  { split; [lia|]. split; [done|lia]. }
  specialize (IH (S k)). destruct (edge_start n (S k) ready) as [a|].
  - destruct IH as (H1 & H2 & H3). split_and!; [lia|lia|done|]. intros b Hb. destruct (decide (b = k)) as [->|]; [done|]. apply H3. lia.
  - intros b Hb. destruct (decide (b = k)) as [->|]; [done|]. apply IH. lia.
Qed.

(** ** What is open *)

Definition holds (p : supervisor) : Prop :=
  let cr := pCurrentRouter p in let cs := pCurrentStore p in
  match pPhase p with
  | Waiting => (∃ a, pStores p = {[cs := a]}) ∧ pRouters p = {[cr := cs]} ∧ pRegistry p = Some cr
  | StoreOpened s addrs => s < pNext p ∧ s ≠ cs ∧ (∃ a, pStores p = <[s := addrs]> {[cs := a]}) ∧ pRouters p = {[cr := cs]} ∧ pRegistry p = Some cr
  | RouterBuilt s r addrs => s ≠ cs ∧ r ≠ cr ∧ s < pNext p ∧ r < pNext p ∧ r ≠ 0 ∧
      (∃ a, pStores p = <[s := addrs]> {[cs := a]}) ∧ pRouters p = <[r := s]> {[cr := cs]} ∧ pRegistry p = Some cr
  | Swapped old oldStore => ∃ oldRouter a, old = Some oldRouter ∧ oldStore ≠ cs ∧ oldRouter ≠ cr ∧
      pStores p = <[cs := pLastAddrs p]> {[oldStore := a]} ∧ pRouters p = <[cr := cs]> {[oldRouter := oldStore]} ∧ pRegistry p = Some cr
  | OldRouterClosed oldStore => oldStore ≠ cs ∧
      (∃ a, pStores p = <[cs := pLastAddrs p]> {[oldStore := a]}) ∧ pRouters p = {[cr := cs]} ∧ pRegistry p = Some cr
  | Stopped => pStores p = ∅ ∧ pRouters p = ∅ ∧ pRegistry p = None
  end.

Definition sup_inv (p : supervisor) : Prop :=
  holds p ∧ pCurrentRouter p < pNext p ∧ pCurrentStore p < pNext p ∧
  (pPhase p ≠ Stopped → pCurrentRouter p = 0 ∨ pStores p !! pCurrentStore p = Some (pLastAddrs p)).

Lemma delete_newer {A} (i j : nat) (x y : A) : i ≠ j → delete i (<[i := x]> {[j := y]} : gmap nat A) = {[j := y]}.
Proof. intros H. rewrite delete_insert_id; [done|]. by rewrite lookup_singleton_ne. Qed.

Lemma delete_older {A} (i j : nat) (x y : A) : i ≠ j → delete j (<[i := x]> {[j := y]} : gmap nat A) = {[i := x]}.
Proof. intros H. rewrite delete_insert_ne by done. by rewrite delete_singleton_eq. Qed.

Lemma start_inv addrs members : sup_inv (refresh_start addrs members).
Proof. unfold sup_inv, holds. cbn. split_and!; eauto; lia. Qed.

Lemma rstep_inv p q : sup_inv p → rstep p q → sup_inv q.
Proof.
  unfold sup_inv, holds. intros Hp Hs. destruct Hs;
    cbn [pStores pRouters pHealth pNext pRegistry pCurrentRouter pCurrentStore pLastAddrs pPhase] in *; try done.
  - destruct Hp as (((a & ->) & -> & ->) & Hr & Hs & Hl). split_and!; [lia|lia|by exists a|done|done|lia|lia|].
    intros _. rewrite lookup_insert_ne by lia. by apply Hl.
  - destruct Hp as ((Hn & Hne & (a & ->) & -> & ->) & Hr & Hs & Hl).
    rewrite delete_newer by done. split_and!; [by exists a|done|done|done|done|].
    intros _. destruct (Hl ltac:(done)) as [?|Hl']; [by left|]. rewrite lookup_insert_ne in Hl' by done. by right.
  - destruct Hp as ((Hn & Hne & (a & ->) & -> & ->) & Hr & Hs & Hl).
    split_and!; [done|lia|lia|lia|lia|by exists a|done|done|lia|lia|]. intros _. by apply Hl.
  - destruct Hp as ((Hne & Hrn & Hsn & Hrb & Hr0 & (a & ->) & -> & ->) & Hr & Hs & Hl).
    split_and!; [by exists cr, a|done|done|]. intros _. right. by rewrite lookup_insert_eq.
  - destruct Hp as ((oldRouter & a & -> & Hne & Hrn & -> & -> & ->) & Hr & Hs & Hl). rewrite delete_older by done.
    split_and!; [done|by exists a|done|done|done|done|]. intros _. by apply Hl.
  - destruct Hp as ((Hne & (a & ->) & -> & ->) & Hr & Hs & Hl). rewrite delete_older by done.
    split_and!; [eauto|done|done|done|done|]. intros _. right. by rewrite lookup_singleton_eq.
  - destruct Hp as (((a & ->) & -> & ->) & Hr & Hs & Hl). rewrite !delete_singleton_eq. by split_and!.
Qed.

Lemma reached_inv addrs members p : rtc rstep (refresh_start addrs members) p → sup_inv p.
Proof.
  intros H. eapply (rtc_ind_r sup_inv (refresh_start addrs members)); [apply start_inv| |exact H]. intros q q' _ Hs Hq. by eapply rstep_inv.
Qed.

(** ** Theorems *)

(** C26: At every moment until it is stopped an edge node routes through a router that
    is open on an open client. Between two refreshes exactly one client and one
    router are open; once stopped none is. A refresh that does not succeed leaves
    the router that was in use, and one that was replaced is closed only after
    the registry has let go of it. Every client but the first was built from the
    addresses that the next change is measured against. *)
Theorem edge_client_is_exclusive addrs members p : rtc rstep (refresh_start addrs members) p →
  (pPhase p ≠ Stopped → ∃ r s, pRegistry p = Some r ∧ pRouters p !! r = Some s ∧ is_Some (pStores p !! s)) ∧
  (pPhase p = Waiting → pRegistry p = Some (pCurrentRouter p) ∧ pRouters p = {[pCurrentRouter p := pCurrentStore p]} ∧
    ∃ a, pStores p = {[pCurrentStore p := a]} ∧ (pCurrentRouter p ≠ 0 → a = pLastAddrs p)) ∧
  (pPhase p = Stopped → pStores p = ∅ ∧ pRouters p = ∅ ∧ pRegistry p = None).
Proof.
  intros (Hh & _ & _ & Hl)%reached_inv. unfold holds in Hh. split_and!.
  - intros Hn. exists (pCurrentRouter p), (pCurrentStore p). clear Hl.
    destruct (pPhase p) as [|s a|s r a|old s|s|]; [| | | | |done].
    + destruct Hh as ((a & ->) & -> & ->). by rewrite !lookup_singleton_eq.
    + destruct Hh as (_ & Hs & (a' & ->) & -> & ->). by rewrite lookup_insert_ne, !lookup_singleton_eq.
    + destruct Hh as (Hs & Hr & _ & _ & _ & (a' & ->) & -> & ->). by rewrite !lookup_insert_ne, !lookup_singleton_eq.
    + destruct Hh as (o & a & -> & Hs & Hr & -> & -> & ->). by rewrite !lookup_insert_eq.
    + destruct Hh as (Hs & (a & ->) & -> & ->). by rewrite lookup_insert_eq, lookup_singleton_eq.
  - intros E. rewrite E in *. destruct Hh as ((a & Ha) & Hr & Hg). split_and!; [done|done|]. exists a. split; [done|]. intros Hne.
    destruct (Hl ltac:(done)) as [|Hs]; [done|]. rewrite Ha, lookup_singleton_eq in Hs. congruence.
  - intros E. by rewrite E in Hh.
Qed.

Lemma due_spec addrs p : due addrs p = true ↔
  pLastAddrs p ≠ addrs ∨ (StoreHealthy p (pCurrentRouter p) = false ∧ (minConsecutiveStoreFailures <= ConsecutiveStoreFailures p (pCurrentRouter p))%N).
Proof.
  unfold due. rewrite negb_involutive. rewrite negb_true_iff, andb_false_iff, orb_false_iff, N.ltb_ge.
  assert (equalStringSlices (pLastAddrs p) addrs = false ↔ pLastAddrs p ≠ addrs) as ->; [|tauto].
  rewrite <-equalStringSlices_spec. by rewrite not_true_iff_false.
Qed.

(** A refresh is tried exactly when the addresses of the cores have changed or the
    router in use has failed three reconciliations in a row. When the client and
    the router can be built, five steps later the registry routes through a new
    router, built from the current addresses and healthy, which is the only one
    open, and nothing further is due. *)
Theorem stale_client_is_replaced addrs0 members0 p members :
  rtc rstep (refresh_start addrs0 members0) p → pPhase p = Waiting →
  let addrs := sortedUniqueStrings members in
  (due addrs p = true ↔ pLastAddrs p ≠ addrs ∨
     (StoreHealthy p (pCurrentRouter p) = false ∧ (minConsecutiveStoreFailures <= ConsecutiveStoreFailures p (pCurrentRouter p))%N)) ∧
  (due addrs p = true → ∃ q, nsteps rstep 5 p q ∧ pPhase q = Waiting ∧
     pRegistry q = Some (pCurrentRouter q) ∧ pCurrentRouter q ≠ pCurrentRouter p ∧
     pRouters q = {[pCurrentRouter q := pCurrentStore q]} ∧ pStores q = {[pCurrentStore q := addrs]} ∧
     StoreHealthy q (pCurrentRouter q) = true ∧ due addrs q = false).
Proof.
  intros (Hh & Hr & Hs & _)%reached_inv Hw addrs. split; [apply due_spec|]. intros Hdue.
  destruct p as [st ro he n reg cr cs la ph]. unfold holds in Hh.
  cbn [pStores pRouters pHealth pNext pRegistry pCurrentRouter pCurrentStore pLastAddrs pPhase] in *. subst ph.
  destruct Hh as ((a & ->) & -> & ->).
  exists (mkSup {[n := addrs]} {[S n := n]} (<[S n := (true, 0%N)]> he) (S (S n)) (Some (S n)) (S n) n addrs Waiting).
  split_and!; try done; [|cbn; lia| |].
  - eapply nsteps_l; [by apply (step_store_opened members)|]. eapply nsteps_l; [apply step_router_built|].
    eapply nsteps_l; [apply step_swapped|]. eapply nsteps_l; [apply step_old_router_closed|].
    eapply nsteps_l; [apply step_old_store_closed|].
    rewrite !delete_older by lia. apply nsteps_O.
  - unfold StoreHealthy. cbn [pHealth pCurrentRouter]. by rewrite lookup_insert_eq.
  - apply not_true_is_false. rewrite due_spec. unfold StoreHealthy. cbn [pHealth pCurrentRouter pLastAddrs]. rewrite lookup_insert_eq.
    intros [?|[? _]]; done.
Qed.

(** The first client is compared with the members known when the loop is set up,
    not with those it was built from: a change between the two is not noticed as
    one. *)
Lemma first_client_is_taken_as_current addrs members : due (sortedUniqueStrings members) (refresh_start addrs members) = false.
Proof. apply not_true_is_false. rewrite due_spec. by intros [?|[? _]]. Qed.

(** A core gets a new address. *)
Lemma stale_client_is_replaced_witness : let p := refresh_start ["10.0.0.1:7300"] ["10.0.0.1:7300"] in
  ∃ q, nsteps rstep 5 p q ∧ pStores q = {[pCurrentStore q := ["10.0.0.2:7300"]]} ∧ pRegistry q = Some (pCurrentRouter q).
Proof.
  intros p. destruct (stale_client_is_replaced ["10.0.0.1:7300"] ["10.0.0.1:7300"] p ["10.0.0.2:7300"]) as [_ H]; [constructor|reflexivity|].
  destruct (H eq_refl) as (q & H1 & _ & H2 & _ & _ & H3 & _). exists q. split; [exact H1|]. split; [exact H3|exact H2].
Defined.

Lemma edge_client_is_exclusive_witness : ∃ p, rtc rstep (refresh_start ["10.0.0.1:7300"] ["10.0.0.1:7300"]) p ∧ pPhase p ≠ Waiting ∧
  ∃ r s, pRegistry p = Some r ∧ pRouters p !! r = Some s ∧ is_Some (pStores p !! s).
Proof.
  assert (∃ p, rtc rstep (refresh_start ["10.0.0.1:7300"] ["10.0.0.1:7300"]) p ∧ pPhase p = RouterBuilt 1 2 ["10.0.0.2:7300"]) as (p & Hp & Hph).
  { eexists. split; [|shelve]. eapply rtc_l; [by apply (step_store_opened ["10.0.0.2:7300"])|]. eapply rtc_l; [apply step_router_built|]. apply rtc_refl. Unshelve. reflexivity. }
  exists p. split; [exact Hp|]. rewrite Hph. split; [done|]. destruct (edge_client_is_exclusive _ _ _ Hp) as [H _]. apply H. by rewrite Hph.
Defined.
