(* ===== verification/Conformance.v ===== *)
(** The conformance mode: internal/conformance, the provider and the hooks that
    stand in for authentication and access control when the broker is tested
    against a protocol suite, and how the vendored broker combines the verdicts
    of its hooks (thirdparty/mochi-mqtt-server/hooks.go). *)
From S2P Require Import Prelude GoStrings Acl Auth HookAcl RateLimit.

Open Scope string_scope.

Definition nosubscribeTopic : string := "test/nosubscribe".

(** ACLHook.OnACLCheck. *)
Definition conformance_OnACLCheck (topic : string) (write : bool) : bool :=
  negb (negb write && String.eqb topic nosubscribeTopic).

(** The identity of every connection. *)
Definition deviceInfo : DeviceInfo :=
  mkDeviceInfo "00000000-0000-0000-0000-0000000000c0" "00000000-0000-0000-0000-0000000000c1" "conformance" None "nofleet" "".

#[export] Instance conformance_AuthProvider : AuthProvider unit := {
  provider_ValidatePassword _ _ p := (p, Some deviceInfo);
  provider_LookupByCN _ _ p := (p, Some deviceInfo);
}.

(** KeepAliveHook.OnConnect. *)
Definition conformance_OnConnect (requested : N) (clean : bool) (s : keepaliveState) : keepaliveState :=
  if (requested =? 120)%N && clean then mkKeepaliveState 60 true else s.

(** Hooks.OnACLCheck: the first hook that allows decides. *)
Definition hooks_OnACLCheck (hooks : list (string → bool → bool)) (topic : string) (write : bool) : bool :=
  existsb (λ h, h topic write) hooks.

(** In conformance mode every topic is allowed in both directions, whoever asks,
    but for a subscription to the one topic that the suite expects to be refused:
    the gateway's own hook, which is still asked about it, does not allow it
    either. The order of the hooks does not matter. *)
Theorem conformance_refuses_one_subscription uuidParse clients clientID topic write :
  let keel := OnACLCheck uuidParse None clients clientID in
  hooks_OnACLCheck [keel; conformance_OnACLCheck] topic write = negb (negb write && String.eqb topic nosubscribeTopic) ∧
  hooks_OnACLCheck [conformance_OnACLCheck; keel] topic write = hooks_OnACLCheck [keel; conformance_OnACLCheck] topic write.
Proof.
  cbn zeta. unfold hooks_OnACLCheck. cbn [existsb].
  assert (conformance_OnACLCheck topic write = false → OnACLCheck uuidParse None clients clientID topic write = false) as H.
  { unfold conformance_OnACLCheck. intros [Hw Ht]%negb_false_iff%andb_true_iff. apply negb_true_iff in Hw as ->. apply String.eqb_eq in Ht as ->.
    unfold OnACLCheck. destruct (clients !! clientID) as [state|]; [|done]. by destruct (csMethod state). }
  change (negb (negb write && String.eqb topic nosubscribeTopic)) with (conformance_OnACLCheck topic write).
  destruct (conformance_OnACLCheck topic write).
  - rewrite !orb_true_r. by split.
  - by rewrite H.
Qed.
