(* ===== verification/Startup.v ===== *)
(** The start of the server: cmd/server/main.go, parseClusterFlags and the
    decisions of runServer up to the serving of clients, internal/conformance, and
    the assembly of the broker in internal/broker/broker.go.

    What is outside (the database, Redis, Raft, sockets, plugins, the certificate
    files) answers through [surroundings]. A start ends in an exit, in a panic, or
    in a plan: which credentials are believed, which registry the node has, what
    it tells its peers, where it forwards messages to, and the broker's hooks and
    listeners. *)
From S2P Require Import Prelude GoStrings Decimal Float64 GoNumbers KafkaHono Config Membership RedisFailover EdgeRefresh.

Open Scope string_scope.

(** ** Flags *)

Record clusterFlags := mkFlags {
  role : string;
  conformanceTest : bool;
  nodeID : string;
  bootstrap : bool;
  raftBindAddr : string;
  gossipBindAddr : string;
  gossipAdvertise : string;
  gossipPeers : string;
  grpcBindAddr : string;
  grpcAdvertise : string;
  olricBindAddr : string;
  olricPort : Z;
  olricGossipPort : Z;
  olricAdvertise : string;
  tlsEnabled : bool;
  tlsCertDir : string;
  tlsClientAuth : string;
  rebalanceExcludeClientIDs : string;
  offlineSessionReconcilerInterval : Z;
  offlineDedupTTL : Z;
}.

Definition or_else (s dflt : string) : string := if String.eqb s "" then dflt else s.

(** What follows flag.Parse. *)
Definition parseClusterFlags (hostname : string) (f : clusterFlags) : clusterFlags :=
  mkFlags (role f) (conformanceTest f) (or_else (nodeID f) hostname) (bootstrap f) (raftBindAddr f) (gossipBindAddr f)
    (or_else (gossipAdvertise f) (gossipBindAddr f)) (gossipPeers f) (grpcBindAddr f) (or_else (grpcAdvertise f) (grpcBindAddr f))
    (olricBindAddr f) (olricPort f) (olricGossipPort f) (or_else (olricAdvertise f) (olricBindAddr f))
    (tlsEnabled f) (tlsCertDir f) (tlsClientAuth f) (rebalanceExcludeClientIDs f) (offlineSessionReconcilerInterval f) (offlineDedupTTL f).

Definition resolveOfflineDedupTTL (configured reconcilerInterval : Z) : Z :=
  if (0 <? configured)%Z then configured else (2 * reconcilerInterval)%Z.

(** The peers and the excluded clients: the entries of a list that are not blank. *)
Definition csv (s : string) : list string := List.filter (λ p, negb (String.eqb p "")) (map TrimSpace (split "," s)).

(** net.JoinHostPort. *)
Definition JoinHostPort (host port : string) : string :=
  if contains_byte ":" host || contains_byte "%" host then "[" +:+ host +:+ "]:" +:+ port else host +:+ ":" +:+ port.

(** ** What a node tells its peers *)

Definition isCoreRole (f : clusterFlags) : bool := String.eqb (role f) "core" || String.eqb (role f) "combined".
Definition brokerRuntimeEnabled (f : clusterFlags) : bool := negb (String.eqb (role f) "core").

Definition httpAddrForGossip (f : clusterFlags) (c : Config) : string :=
  if brokerRuntimeEnabled f then
    match SplitHostPort (grpcAdvertise f), SplitHostPort (MetricsAddr c) with
    | Some (host, _), Some (_, metricsPort) => JoinHostPort host metricsPort
    | _, _ => ""
    end
  else "".

Definition gossip_meta (f : clusterFlags) (c : Config) : NodeMeta :=
  let core s := if isCoreRole f then s else "" in
  mkNodeMeta (nodeID f) (if String.eqb (role f) "combined" then "core" else role f)
    (core (raftBindAddr f)) (grpcAdvertise f)
    (core (JoinHostPort (olricAdvertise f) (Itoa (olricGossipPort f))))
    (core (JoinHostPort (olricAdvertise f) (Itoa (olricPort f))))
    (core (Config.RedisAddr c)) (httpAddrForGossip f c).

(** ** The broker *)

Inductive ClientAuthType := NoClientCert | RequestClientCert | RequireAndVerifyClientCert.

Definition parseClientAuth (v : string) : option ClientAuthType :=
  if String.eqb v "" || String.eqb v "request" then Some RequestClientCert
  else if String.eqb v "none" then Some NoClientCert
  else if String.eqb v "require-and-verify" then Some RequireAndVerifyClientCert
  else None.

Inductive hook := RedisSession | Keel | MaxKeepAliveCap | ConformanceACL | ConformanceKeepAlive.

(** uint32(d.Seconds()), for a duration below 136 years. *)
Definition session_expiry (c : Config) : option Z :=
  if (0 <? SessionExpiryInterval c)%Z then Some (default 0%Z (to_int (Seconds (SessionExpiryInterval c)))) else None.

(** [lsTLS]: the certificates come from the reloader; the value is the demand on
    clients. [lsProxy]: the ranges that may send a PROXY header. *)
Record listener := mkListener {
  lsID : string;
  lsPort : Z;
  lsTLS : option ClientAuthType;
  lsProxy : option (list string);
}.

Record assembly := mkAssembly {
  asHooks : list hook;
  asListeners : list listener;
  asReloader : bool;
  asConnectLimit : option (float64 * Z);
  asPublishLimit : option (float64 * Z);
  asSessionExpiry : option Z;
}.

Record surroundings := mkSurroundings {
  suLoad : result Config;
  suPool : option (Z * Z);
  suDatabase : bool;
  suMigrated : bool;
  suTracer : bool;
  suRedis : nat → bool;
  suRaft : bool;
  suBootstrap : bool;
  suGossip : bool;
  suOlric : bool;
  suEdgeReady : nat → bool;
  suGRPCListen : bool;
  suSchema : bool;
  suRanges : list string → bool;
  suListen : string → bool;
  suReloader : bool;
  suProducer : KafkaHonoConfig → bool;
  suAttach : string → string → bool;
  suPluginInit : string → bool;
}.

Inductive failure :=
  | BadConfig | TLSWithoutPortOrDir | BadDatabaseURL | PoolBounds | NoDatabase | MigrationFailed
  | NoCredentialFile | ConformanceClustered | TracerFailed | NoRedis
  | RaftFailed | BootstrapFailed | GossipFailed | OlricFailed | EdgeClientFailed | GRPCListenFailed
  | SchemaFailed | NoTrustedRanges | BadTrustedRanges | NoCertDir | BadClientAuth | ReloaderFailed | ListenFailed (id : string)
  | UnknownConnector | ConnectorInitFailed (e : honoError) | BadPluginAddress (addr : string) | AttachFailed (addr : string) | PluginInitFailed (addr : string).

Inductive attempt (A : Type) := Failed (e : failure) | Panicked | Ok (a : A).
Arguments Failed {A} e.
Arguments Panicked {A}.
Arguments Ok {A} a.

Definition then_ {A B} (r : attempt A) (f : A → attempt B) : attempt B :=
  match r with Failed e => Failed e | Panicked => Panicked | Ok a => f a end.
Declare Scope startup_scope.
Notation "x <== r ;; k" := (then_ r (λ x, k)) (at level 100, r at next level, right associativity) : startup_scope.
Notation "r ;;; k" := (then_ r (λ _, k)) (at level 100, right associativity) : startup_scope.
Local Open Scope startup_scope.

Definition require (b : bool) (e : failure) : attempt () := if b then Ok () else Failed e.

Definition positive (x : float64) : bool := fltb (of_int 0) x.

Definition addListener (su : surroundings) (l : listener) (ls : list listener) : attempt (list listener) :=
  require (suListen su (lsID l)) (ListenFailed (lsID l));;; Ok (ls ++ [l])%list.

(** broker.New; [redis] says that Redis is configured. *)
Definition New (su : surroundings) (redis : bool) (f : clusterFlags) (c : Config) : attempt assembly :=
  (if redis then require (suSchema su) SchemaFailed else Ok ());;;
  let limit (r : float64 * Z) := if positive (fst r) then Some r else None in
  let hooks := ((if redis then [RedisSession] else []) ++ [Keel] ++ (if (0 <? MaxKeepAlive c)%Z then [MaxKeepAliveCap] else []))%list in
  proxy <== (if ProxyProtocol c then
               match ProxyProtocolTrustedCIDRs c with
               | [] => Failed NoTrustedRanges
               | ranges => require (suRanges su ranges) BadTrustedRanges;;; Ok (Some ranges)
               end
             else Ok None);;
  ls <== addListener su (mkListener "tcp" (MQTTPort c) None proxy) [];;
  tls <== (if (0 <? MQTTTLSPort c)%Z || (0 <? MQTTWSSPort c)%Z then
             require (negb (String.eqb (tlsCertDir f) "")) NoCertDir;;;
             match parseClientAuth (tlsClientAuth f) with
             | None => Failed BadClientAuth
             | Some auth => require (suReloader su) ReloaderFailed;;; Ok (Some auth)
             end
           else Ok None);;
  ls <== (if (0 <? MQTTTLSPort c)%Z then addListener su (mkListener "tls" (MQTTTLSPort c) tls proxy) ls else Ok ls);;
  ls <== (if (0 <? MQTTWSPort c)%Z then addListener su (mkListener "ws" (MQTTWSPort c) None None) ls else Ok ls);;
  ls <== (if (0 <? MQTTWSSPort c)%Z then addListener su (mkListener "wss" (MQTTWSSPort c) tls None) ls else Ok ls);;
  Ok (mkAssembly hooks ls (match tls with Some _ => true | None => false end) (limit (ConnectRateLimit c)) (limit (PublishRateLimit c))
        (session_expiry c)).

(** ** The server *)

Inductive provider := Postgres | CredentialsFile (path : string) (ttl : Z) | AllowAll.
Inductive registry := CoreRegistry | EdgeRegistry.

(** conformance.ValidateRole. *)
Definition ValidateRole (role : string) : bool := String.eqb role "".

Record plan := mkPlan {
  plProvider : provider;
  plHTTP : option provider;
  plRegistry : option registry;
  plGossip : option NodeMeta;
  plRedis : bool;
  plConnectors : list string;
  plBroker : option assembly;
}.

(** The retries of the connection to Redis. *)
Definition connect_redis (su : surroundings) (c : Config) : option nat := edge_start (Z.to_nat (RedisConnectMaxAttempts c)) 1 (suRedis su).

(** The database pool: [suPool] are the bounds that the URL gives. *)
Definition pool_bounds (c : Config) (bounds : Z * Z) : attempt () :=
  let '(maxConns, minConns) := bounds in
  let maxConns := if (0 <? DBMaxConns c)%Z then DBMaxConns c else maxConns in
  let minConns := if (0 <? DBMinConns c)%Z then DBMinConns c else minConns in
  require (negb (maxConns <? minConns)%Z) PoolBounds.

Definition auth_provider (f : clusterFlags) (c : Config) : attempt provider :=
  p <== (if String.eqb (AuthBackend c) "file" then
           require (negb (String.eqb (CredentialFile c) "")) NoCredentialFile;;; Ok (CredentialsFile (CredentialFile c) (CredentialCacheTTL c))
         else Ok Postgres);;
  if conformanceTest f then require (ValidateRole (role f)) ConformanceClustered;;; Ok AllowAll else Ok p.

Definition start_raft (su : surroundings) (f : clusterFlags) : attempt () :=
  if isCoreRole f then
    require (suRaft su) RaftFailed;;; if bootstrap f then require (suBootstrap su) BootstrapFailed else Ok ()
  else Ok ().

Definition start_registry (su : surroundings) (f : clusterFlags) : attempt (option registry) :=
  if isCoreRole f then require (suOlric su) OlricFailed;;; Ok (Some CoreRegistry)
  else if String.eqb (role f) "edge" then
    match edge_start edgeOlricMaxAttempts 1 (suEdgeReady su) with
    | Some _ => Ok (Some EdgeRegistry)
    | None => Failed EdgeClientFailed
    end
  else Ok None.

(** The part of runServer from "cluster: starting" on. With Redis the registry's
    method is taken as a value, which panics when there is none. *)
Definition join_cluster (su : surroundings) (redis : bool) (f : clusterFlags) (c : Config) : attempt (option registry * option NodeMeta) :=
  if String.eqb (role f) "" then Ok (None, None)
  else
    start_raft su f;;;
    require (suGossip su) GossipFailed;;;
    reg <== start_registry su f;;
    (match reg with None => if redis then Panicked else Ok () | Some _ => Ok () end);;;
    require (suGRPCListen su) GRPCListenFailed;;;
    (if isCoreRole f && redis then require (suSchema su) SchemaFailed else Ok ());;;
    Ok (reg, Some (gossip_meta f c)).

(** The configuration of the connector that runs in the process. *)
Definition connConfig (c : Config) : gmap string string :=
  <["enabled" := "true"]> (<["brokers" := KafkaHonoBrokers c]> (<["sasl_username" := KafkaHonoSASLUser c]>
    (<["sasl_password" := KafkaHonoSASLPass c]> (<["topic_prefix" := KafkaHonoTopicPrefix c]> {["client_id" := "keel-mqtt-gateway-output"]})))).

(** A connector as its factory returns it. *)
Definition new_hono : KafkaHonoConnector := mkKafkaHono false (mkKafkaHonoConfig [] "" "" "" "" false).

(** connector.Registry has one entry. *)
Definition start_connector (su : surroundings) (c : Config) : attempt (list string) :=
  if String.eqb (OutputConnector c) "" then Ok []
  else
    require (String.eqb (OutputConnector c) "kafka-hono") UnknownConnector;;;
    match snd (Init (connConfig c) (suProducer su) new_hono) with
    | Some e => Failed (ConnectorInitFailed e)
    | None => Ok [OutputConnector c]
    end.

(** pluginhost.Attach: the address must resolve, which needs one of two networks. *)
Definition Attach (su : surroundings) (network addr : string) : bool :=
  (String.eqb network "tcp" || String.eqb network "unix") && suAttach su network addr.

Fixpoint attach_plugins (su : surroundings) (plugins : list string) : attempt (list string) :=
  match plugins with
  | [] => Ok []
  | pluginAddr :: plugins =>
      match cut ":" pluginAddr with
      | None => Failed (BadPluginAddress pluginAddr)
      | Some (network, addr) =>
          require (Attach su network addr) (AttachFailed pluginAddr);;;
          require (suPluginInit su pluginAddr) (PluginInitFailed pluginAddr);;;
          names <== attach_plugins su plugins;; Ok (("plugin:" +:+ addr) :: names)
      end
  end.

Definition runServer (su : surroundings) (f : clusterFlags) : attempt plan :=
  c <== (match suLoad su with inl _ => Failed BadConfig | inr c => Ok c end);;
  require (negb (tlsEnabled f && ((MQTTTLSPort c =? 0)%Z || String.eqb (tlsCertDir f) ""))) TLSWithoutPortOrDir;;;
  (match suPool su with None => Failed BadDatabaseURL | Some bounds => pool_bounds c bounds end);;;
  require (suDatabase su) NoDatabase;;;
  require (suMigrated su) MigrationFailed;;;
  p <== auth_provider f c;;
  require (suTracer su) TracerFailed;;;
  redis <== (if String.eqb (Config.RedisAddr c) "" then Ok false
             else match connect_redis su c with Some _ => Ok true | None => Failed NoRedis end);;
  joined <== join_cluster su redis f c;;
  inner <== start_connector su c;;
  plugins <== attach_plugins su (OutputConnectorPlugins c);;
  let conns := (inner ++ plugins)%list in
  if brokerRuntimeEnabled f then
    broker <== New su redis f c;;
    let hooks := (asHooks broker ++ (if conformanceTest f then [ConformanceACL; ConformanceKeepAlive] else []))%list in
    Ok (mkPlan p (Some Postgres) (fst joined) (snd joined) redis conns
          (Some (mkAssembly hooks (asListeners broker) (asReloader broker) (asConnectLimit broker) (asPublishLimit broker) (asSessionExpiry broker))))
  else Ok (mkPlan p None (fst joined) (snd joined) redis conns None).

(** ** Lemmas *)

Lemma then_Ok {A B} (r : attempt A) (f : A → attempt B) b : then_ r f = Ok b ↔ ∃ a, r = Ok a ∧ f a = Ok b.
Proof. destruct r; cbn; split; try done; [by intros (? & ? & _)|by intros (? & ? & _)|eauto|by intros (? & [= ->] & ?)]. Qed.

Lemma require_Ok b e u : require b e = Ok u ↔ b = true.
Proof. destruct b, u; cbn; done. Qed.

(** Takes a successful start apart, one call at a time. *)
Ltac started :=
  repeat match goal with
  | H : then_ _ _ = Ok _ |- _ => apply then_Ok in H as (? & ? & H)
  | H : require _ _ = Ok _ |- _ => apply require_Ok in H
  | H : Ok _ = Ok _ |- _ => injection H as H; subst
  | H : Failed _ = Ok _ |- _ => discriminate H
  | H : Panicked = Ok _ |- _ => discriminate H
  end.

Lemma addListener_Ok su l ls ls' : addListener su l ls = Ok ls' → ls' = (ls ++ [l])%list.
Proof. unfold addListener. intros H. by started. Qed.

Lemma addListener_if (b : bool) su l ls ls' : (if b then addListener su l ls else Ok ls) = Ok ls' → ls' = (ls ++ (if b then [l] else []))%list.
Proof. destruct b; [apply addListener_Ok|]. intros [= ->]. by rewrite app_nil_r. Qed.

(** The kinds of listeners: name, port, whether it encrypts, and whether it can be
    behind a proxy. *)
Definition listener_kinds (c : Config) : list (string * Z * bool * bool) :=
  [("tcp", MQTTPort c, false, true); ("tls", MQTTTLSPort c, true, true); ("ws", MQTTWSPort c, false, false); ("wss", MQTTWSSPort c, true, false)].

Definition is_on (kind : string * Z * bool * bool) : Prop :=
  match kind with (id, port, _, _) => id = "tcp" ∨ (0 < port)%Z end.

(** [l] is a listener of a kind: an encrypted one has certificates, from a directory
    that is given, and the configured demand on clients; one behind a proxy knows the
    ranges it trusts. *)
Definition is_listener (f : clusterFlags) (c : Config) (b : assembly) (l : listener) (kind : string * Z * bool * bool) : Prop :=
  match kind with
  | (id, port, encrypts, proxied) =>
      lsID l = id ∧ lsPort l = port ∧
      (if encrypts then ∃ auth, lsTLS l = Some auth ∧ parseClientAuth (tlsClientAuth f) = Some auth ∧ tlsCertDir f ≠ "" ∧ asReloader b = true
       else lsTLS l = None) ∧
      (if proxied && ProxyProtocol c then lsProxy l = Some (ProxyProtocolTrustedCIDRs c) ∧ ProxyProtocolTrustedCIDRs c ≠ [] else lsProxy l = None)
  end.

(** There is one listener of every kind that is on, in order, and no other. *)
Definition listens_as_configured (f : clusterFlags) (c : Config) (b : assembly) : Prop :=
  ∃ on, on `sublist_of` listener_kinds c ∧ (∀ kind, kind ∈ listener_kinds c → (kind ∈ on ↔ is_on kind)) ∧
    Forall2 (is_listener f c b) (asListeners b) on.

Lemma List_filter_sublist {A} (g : A → bool) l : List.filter g l `sublist_of` l.
Proof. induction l as [|x l IH]; [done|]. cbn. destruct (g x); [by apply sublist_skip|by apply sublist_cons]. Qed.

Lemma New_Ok su redis f c b : New su redis f c = Ok b → listens_as_configured f c b ∧ ConformanceACL ∉ asHooks b.
Proof.
  unfold New. intros H. apply then_Ok in H as (u & _ & H).
  apply then_Ok in H as (proxy & Hproxy & H). apply then_Ok in H as (l1 & E1%addListener_Ok & H).
  apply then_Ok in H as (tls & Htls & H). apply then_Ok in H as (l2 & E2%addListener_if & H).
  apply then_Ok in H as (l3 & E3%addListener_if & H). apply then_Ok in H as (l4 & E4%addListener_if & H).
  injection H as <-. split; [|cbn; destruct redis, (0 <? MaxKeepAlive c)%Z; set_solver]. subst.
  assert (if ProxyProtocol c then proxy = Some (ProxyProtocolTrustedCIDRs c) ∧ ProxyProtocolTrustedCIDRs c ≠ [] else proxy = None) as Hp.
  { destruct (ProxyProtocol c); [|by started]. destruct (ProxyProtocolTrustedCIDRs c); by started. }
  assert ((0 < MQTTTLSPort c ∨ 0 < MQTTWSSPort c)%Z →
    ∃ auth, tls = Some auth ∧ parseClientAuth (tlsClientAuth f) = Some auth ∧ tlsCertDir f ≠ "") as Ht.
  { intros Ho. replace ((0 <? MQTTTLSPort c)%Z || (0 <? MQTTWSSPort c)%Z) with true in Htls by (symmetry; rewrite orb_true_iff, !Z.ltb_lt; done).
    destruct (parseClientAuth (tlsClientAuth f)) as [auth|]; started. exists auth. split_and!; [done|done|]. by apply String.eqb_neq, negb_true_iff. }
  clear Hproxy Htls. set (on := λ kind : string * Z * bool * bool, match kind with (id, port, _, _) => String.eqb id "tcp" || (0 <? port)%Z end).
  exists (List.filter on (listener_kinds c)). split_and!; [apply List_filter_sublist| |].
  - intros [[[id port] enc] prox] Hk. rewrite !list_elem_of_In, filter_In, <-list_elem_of_In. cbn. rewrite orb_true_iff, String.eqb_eq, Z.ltb_lt. tauto.
  - unfold listener_kinds, on. cbn [List.filter String.eqb Ascii.eqb Bool.eqb orb asListeners asReloader].
    assert (∀ id port enc prox l, lsID l = id → lsPort l = port → lsProxy l = (if prox : bool then proxy else None) →
      lsTLS l = (if enc : bool then tls else None) → (enc = true → (0 < MQTTTLSPort c ∨ 0 < MQTTWSSPort c)%Z) →
      is_listener f c (mkAssembly [] [] (match tls with Some _ => true | None => false end) None None None) l (id, port, enc, prox)) as Hl.
    { intros id port enc prox l Hid Hport Hx Hy Ho. unfold is_listener. split_and!; [done|done| |].
      - destruct enc; [|done]. destruct (Ht (Ho eq_refl)) as (auth & -> & Ha & Hd). by exists auth.
      - destruct prox; [|done]. cbn. destruct (ProxyProtocol c); [by destruct Hp as [-> ?]|by rewrite Hp in Hx]. }
    destruct (Z.ltb_spec 0 (MQTTTLSPort c)), (Z.ltb_spec 0 (MQTTWSPort c)), (Z.ltb_spec 0 (MQTTWSSPort c)); cbn [app];
      repeat (apply List.Forall2_cons; [apply Hl; done || auto|]); apply List.Forall2_nil.
Qed.

Definition registry_of (role : string) : option registry :=
  if String.eqb role "core" || String.eqb role "combined" then Some CoreRegistry
  else if String.eqb role "edge" then Some EdgeRegistry else None.

Lemma join_cluster_Ok su redis f c reg meta : join_cluster su redis f c = Ok (reg, meta) →
  reg = registry_of (role f) ∧ meta = (if String.eqb (role f) "" then None else Some (gossip_meta f c)) ∧
  (redis = true → reg = None → role f = "").
Proof.
  unfold join_cluster, start_registry, registry_of, isCoreRole. destruct (String.eqb_spec (role f) "") as [->|Hr]; [by intros [= <- <-]|].
  intros H. apply then_Ok in H as (u1 & _ & H). apply then_Ok in H as (u2 & _ & H). apply then_Ok in H as (reg' & Hreg & H).
  apply then_Ok in H as (u3 & Hp & H). apply then_Ok in H as (u4 & _ & H). apply then_Ok in H as (u5 & _ & H). injection H as <- <-.
  split_and!; [|done|].
  - destruct (String.eqb (role f) "core" || String.eqb (role f) "combined"); [by started|].
    destruct (String.eqb (role f) "edge"); [|by injection Hreg]. destruct (edge_start _ _ _); [by injection Hreg|done].
  - intros -> ->. done.
Qed.

(** The registry and what the peers are told, by role. *)
Lemma join_cluster_roles su redis f c reg meta : join_cluster su redis f c = Ok (reg, meta) →
  (reg = Some CoreRegistry ↔ role f = "core" ∨ role f = "combined") ∧ (reg = Some EdgeRegistry ↔ role f = "edge") ∧ (meta = None ↔ role f = "") ∧
  ∀ m, meta = Some m → NodeID m = nodeID f ∧ (Membership.Role m = "core" ↔ role f = "core" ∨ role f = "combined") ∧
    (Membership.Role m ≠ "core" → RaftAddr m = "" ∧ Membership.RedisAddr m = "").
Proof.
  intros (-> & -> & _)%join_cluster_Ok. unfold registry_of, gossip_meta, isCoreRole.
  destruct (String.eqb_spec (role f) "core") as [->|H1]; [cbn; naive_solver|]. destruct (String.eqb_spec (role f) "combined") as [->|H2]; [cbn; naive_solver|].
  destruct (String.eqb_spec (role f) "edge") as [->|H3]; [cbn; naive_solver|]. destruct (String.eqb_spec (role f) "") as [->|H4]; [cbn; naive_solver|].
  cbn. split_and!; try naive_solver.
Qed.

(** The TLS port among the listeners. *)
Lemma tls_listener f c b : listens_as_configured f c b → (0 < MQTTTLSPort c)%Z →
  ∃ l auth, l ∈ asListeners b ∧ lsPort l = MQTTTLSPort c ∧ lsTLS l = Some auth.
Proof.
  intros (on & _ & Hon & Hall) Hpos. assert (("tls", MQTTTLSPort c, true, true) ∈ on) as Hin.
  { apply Hon; [unfold listener_kinds; do 1 right; left|by right]. }
  apply list_elem_of_lookup in Hin as [i Hi]. destruct (Forall2_lookup_r _ _ _ _ _ Hall Hi) as (l & Hl & _ & Hp & (auth & Ha & _) & _).
  exists l, auth. split_and!; [by eapply list_elem_of_lookup_2|done|done].
Qed.

Lemma auth_provider_Ok f c p : auth_provider f c = Ok p →
  (p = AllowAll ↔ conformanceTest f = true) ∧ (conformanceTest f = true → role f = "").
Proof.
  unfold auth_provider, ValidateRole. intros H. apply then_Ok in H as (p' & Hp & H). destruct (conformanceTest f).
  - started. split; [done|]. intros _. by apply String.eqb_eq.
  - injection H as <-. split; [|done]. split; [|done]. intros ->. destruct (String.eqb (AuthBackend c) "file"); by started.
Qed.

(** [names] are the connectors that [c] asks for. *)
Definition inner_of (c : Config) (names : list string) : Prop :=
  if String.eqb (OutputConnector c) "" then names = [] else OutputConnector c = "kafka-hono" ∧ names = ["kafka-hono"] ∧ KafkaHonoBrokers c ≠ "".
Definition plugin_of (pluginAddr name : string) : Prop :=
  ∃ network addr, (network = "tcp" ∨ network = "unix") ∧ pluginAddr = network +:+ String ":" addr ∧ name = "plugin:" +:+ addr.
Definition connected (c : Config) (names : list string) : Prop :=
  ∃ inner plugins, names = (inner ++ plugins)%list ∧ inner_of c inner ∧ Forall2 plugin_of (OutputConnectorPlugins c) plugins.

Lemma start_connector_Ok su c names : start_connector su c = Ok names → inner_of c names.
Proof.
  unfold start_connector, inner_of. destruct (String.eqb (OutputConnector c) ""); [by intros [= <-]|].
  intros H. apply then_Ok in H as (u & Hk%require_Ok & H). apply String.eqb_eq in Hk.
  destruct (snd (Init (connConfig c) (suProducer su) new_hono)) as [e|] eqn:E; [done|]. injection H as <-. split_and!; [done|by rewrite Hk|].
  intros Hb. revert E. unfold Init. replace (default "" (connConfig c !! "enabled")) with "true" by (unfold connConfig; by simplify_map_eq).
  replace (default "" (connConfig c !! "brokers")) with (KafkaHonoBrokers c) by (unfold connConfig; by simplify_map_eq). by rewrite Hb.
Qed.

Lemma attach_plugins_Ok su plugins names : attach_plugins su plugins = Ok names → Forall2 plugin_of plugins names.
Proof.
  revert names. induction plugins as [|p plugins IH]; intros names; cbn; [by intros [= <-]|].
  destruct (cut ":" p) as [[network addr]|] eqn:Ec; [|done]. intros H. apply then_Ok in H as (u & Ha%require_Ok & H).
  apply then_Ok in H as (u' & _ & H). apply then_Ok in H as (ns & Hns & H). injection H as <-. constructor; [|by apply IH].
  exists network, addr. unfold Attach in Ha. apply andb_true_iff in Ha as [Ha _]. apply orb_true_iff in Ha.
  split_and!; [destruct Ha as [?%String.eqb_eq|?%String.eqb_eq]; auto|by apply cut_Some in Ec as [-> _]|done].
Qed.

(** ** Theorems *)


Definition known_role (r : string) : bool := existsb (String.eqb r) [""; "core"; "edge"; "combined"].

Lemma registry_of_None r : registry_of r = None → r ≠ "" → known_role r = false.
Proof.
  unfold registry_of, known_role. cbn. destruct (String.eqb r "core"), (String.eqb r "combined"), (String.eqb r "edge"); try done.
  intros _ Hr%String.eqb_neq. by rewrite Hr.
Qed.

Lemma known_role_registry r : known_role r = false → registry_of r = None ∧ r ≠ "" ∧ r ≠ "core" ∧ r ≠ "combined".
Proof.
  unfold registry_of, known_role. cbn. destruct (String.eqb_spec r ""), (String.eqb_spec r "core"), (String.eqb_spec r "edge"), (String.eqb_spec r "combined"); try done.
Qed.

Lemma then_Panicked {A B} (r : attempt A) (f : A → attempt B) : then_ r f = Panicked → r = Panicked ∨ ∃ a, r = Ok a ∧ f a = Panicked.
Proof. destruct r; cbn; [done|by left|eauto]. Qed.

(** A start without a panic in one part. *)
Definition calm {A} (r : attempt A) : Prop := r ≠ Panicked.

Lemma calm_require b e : calm (require b e).
Proof. by destruct b. Qed.

Lemma calm_then {A B} (r : attempt A) (f : A → attempt B) : calm r → (∀ a, calm (f a)) → calm (then_ r f).
Proof. unfold calm. intros Hr Hf [?|(a & _ & ?)]%then_Panicked; [done|by eapply Hf]. Qed.

Ltac stays_calm :=
  repeat first [apply calm_require | apply calm_then; [|intros] | match goal with
    | |- calm (if ?b then _ else _) => destruct b
    | |- calm (match ?x with _ => _ end) => destruct x
    | |- calm (addListener _ _ _) => unfold addListener
    end | done].

Ltac panic_free H := exfalso; revert H; match goal with |- ?r = Panicked → False => change (calm r) end; stays_calm.

Lemma attach_plugins_calm su plugins : calm (attach_plugins su plugins).
Proof. induction plugins as [|p plugins IH]; cbn; [done|]. stays_calm. Qed.

Lemma join_cluster_Panicked su redis f c : join_cluster su redis f c = Panicked → redis = true ∧ known_role (role f) = false.
Proof.
  unfold join_cluster, start_raft, start_registry. destruct (String.eqb_spec (role f) "") as [|Hr]; [done|].
  intros H. apply then_Panicked in H as [H|(u1 & _ & H)]; [panic_free H|].
  apply then_Panicked in H as [H|(u2 & _ & H)]; [panic_free H|].
  apply then_Panicked in H as [H|(reg & Hreg & H)]; [panic_free H|].
  apply then_Panicked in H as [H|(u3 & _ & H)]; [|panic_free H].
  destruct reg, redis; try done. split; [done|]. apply registry_of_None; [|done]. unfold registry_of. fold (isCoreRole f).
  destruct (isCoreRole f); [by started|]. destruct (String.eqb (role f) "edge"); [|done]. by destruct (edge_start _ _ _).
Qed.

(** The role is not checked. A node that is started with a role that the flag does
    not document takes part in gossip under that role and serves clients, but has
    no registry; with Redis it ends in a panic instead, and only such a node does. *)
Theorem unknown_role_is_not_refused su f c : suLoad su = inr c →
  match runServer su f with
  | Failed _ => True
  | Panicked => known_role (role f) = false ∧ Config.RedisAddr c ≠ ""
  | Ok p => known_role (role f) = false →
      plRegistry p = None ∧ plBroker p ≠ None ∧ Config.RedisAddr c = "" ∧ ∃ meta, plGossip p = Some meta ∧ Membership.Role meta = role f
  end.
Proof.
  intros El. destruct (runServer su f) as [| |p] eqn:H; [done| |]; unfold runServer in H; rewrite El in H; cbn [then_] in H.
  - apply then_Panicked in H as [H|(u1 & _ & H)]; [panic_free H|].
    apply then_Panicked in H as [H|(u2 & _ & H)]; [unfold pool_bounds in H; panic_free H|].
    apply then_Panicked in H as [H|(u3 & _ & H)]; [panic_free H|].
    apply then_Panicked in H as [H|(u4 & _ & H)]; [panic_free H|].
    apply then_Panicked in H as [H|(pr & _ & H)]; [unfold auth_provider in H; panic_free H|].
    apply then_Panicked in H as [H|(u5 & _ & H)]; [panic_free H|].
    apply then_Panicked in H as [H|(redis & Hredis & H)]; [panic_free H|].
    apply then_Panicked in H as [[-> Hrole]%join_cluster_Panicked|(j & _ & H)].
    + split; [done|]. by destruct (String.eqb_spec (Config.RedisAddr c) "").
    + apply then_Panicked in H as [H|(i & _ & H)]; [unfold start_connector in H; panic_free H|].
      apply then_Panicked in H as [H|(pl & _ & H)]; [by destruct (attach_plugins_calm _ _ H)|]. unfold New in H. panic_free H.
  - intros Hrole. destruct (known_role_registry _ Hrole) as (Hreg & Hne & Hcore & Hcomb).
    do 4 apply then_Ok in H as (? & _ & H). apply then_Ok in H as (pr & _ & H). apply then_Ok in H as (? & _ & H).
    apply then_Ok in H as (redis & Hredis & H). apply then_Ok in H as ([reg meta] & (Hr & Hm & Hn)%join_cluster_Ok & H).
    do 2 apply then_Ok in H as (? & _ & H).
    unfold brokerRuntimeEnabled in H. rewrite (proj2 (String.eqb_neq _ _) Hcore) in H. cbn [negb] in H.
    apply then_Ok in H as (b & _ & H). injection H as <-. cbn [plRegistry plBroker plGossip fst snd].
    rewrite (proj2 (String.eqb_neq _ _) Hne) in Hm. rewrite Hr, Hm. split_and!; [done|done| |].
    + destruct (String.eqb_spec (Config.RedisAddr c) "") as [->|]; [done|]. destruct (connect_redis su c); [|done].
      injection Hredis as <-. exfalso. apply Hne, Hn; [done|]. by rewrite Hr.
    + eexists. split; [done|]. cbn. by rewrite (proj2 (String.eqb_neq _ _) Hcomb).
Qed.

(** ** Examples *)

Definition willing (env : string → string) : surroundings :=
  mkSurroundings (Load env) (Some (4, 0)%Z) true true true (λ _, true) true true true true (λ _, true) true true (λ _, true) (λ _, true) true
    (λ _, true) (λ _ _, true) (λ _, true).

Definition example_flags (role : string) (conformance tls : bool) : clusterFlags :=
  mkFlags role conformance "n1" false ":7000" "0.0.0.0" "0.0.0.0" "" ":7100" "n1:7100" "0.0.0.0" 7300 7301 "0.0.0.0" tls "/certs" "request" "" 20 0.

Definition with_redis (name : string) : string := if String.eqb name "REDIS_ADDR" then "redis:6379" else "".
Definition with_negative_port (name : string) : string := if String.eqb name "MQTT_TLS_PORT" then "-1" else "".


Lemma unknown_role_is_not_refused_witness :
  runServer (willing with_redis) (example_flags "cor" false false) = Panicked ∧
  ∃ p, runServer (willing (λ _, "")) (example_flags "cor" false false) = Ok p ∧ plRegistry p = None ∧ plBroker p ≠ None.
Proof.
  split; [vm_compute; reflexivity|].
  destruct (Load (λ _, "")) as [e|c] eqn:El; [vm_compute in El; discriminate|].
  pose proof (unknown_role_is_not_refused (willing (λ _, "")) (example_flags "cor" false false) c El) as H.
  destruct (runServer (willing (λ _, "")) (example_flags "cor" false false)) as [e| |p] eqn:E; [vm_compute in E; discriminate|vm_compute in E; discriminate|].
  exists p. destruct (H eq_refl) as (H1 & H2 & _). split; [reflexivity|]. split; [exact H1|exact H2].
Defined.

(** The check of --tls-enabled looks for the port 0 only: with a negative port the
    server starts with nothing but the plain listener. *)
Lemma negative_tls_port_is_accepted : ∃ p b, runServer (willing with_negative_port) (example_flags "" false true) = Ok p ∧
  plBroker p = Some b ∧ (lsTLS <$> asListeners b) = [None].
Proof.
  destruct (runServer (willing with_negative_port) (example_flags "" false true)) as [e| |p] eqn:E; [vm_compute in E; discriminate|vm_compute in E; discriminate|].
  exists p. vm_compute in E. injection E as <-. eexists. split; [done|]. split; reflexivity.
Qed.
